(* ===== verification/_CoqProject ===== *)
-Q . S2P
Prelude.v
Mem.v
Ring.v
Kstring.v
Ulib.v
Printf.v
Grep.v
Umalloc.v
Sh.v
ShParse.v
ShPrint.v
ShRun.v
Riscv.v
Kalloc.v
Vm.v
VmByte.v
PageTable.v
VmMap.v
VmCopy.v
VmSpace.v
VmGrow.v
VmFree.v
VmKernel.v
Machine.v
Asm.v
Paging.v
Trampoline.v
Spinlock.v
Sleeplock.v
Bio.v
BioSpec.v
Virtio.v
VirtioSpec.v
Log.v
LogSpec.v
LogTx.v
Fs.v
FsTx.v
FsBlock.v
FsFile.v
FsWrite.v
FsProps.v
FsDir.v
Mkfs.v
MkfsSpec.v
FsBoot.v
Uprog.v
UprogSpec.v
Pipe.v
Uart.v
Console.v
Kstate.v
File.v
FileBounds.v
Proc.v
ProcMem.v
Isolation.v
Fork.v
Sched.v
Boot.v
Syscall.v
Sysfile.v
Exec.v
Trap.v
TrapPath.v
