(* ===== verification/Prelude.v ===== *)
(** * Verification of xv6-riscv: the kernel and its user programs

    A shallow embedding of the operating system xv6 for RISC-V
    (src/kernel, src/user), and theorems about it.  C functions are Rocq
    functions with the names of the source; a number of the source that is
    kept in [w] bits is a [Z] with its wrap-around written out ([u64],
    [i32], ... of Mem.v); memory is a function from addresses to bytes.

    ** The parts and the files that model them

    - Foundations.  Prelude.v (this file): the monad [M S A] of kernel code
      on a state [S], whose outcomes are a result, a panic, going to sleep,
      or the end of a loop bound; weakest preconditions [wp]; tactics and
      lemmas the components share.  Mem.v: bytes and little-endian words.
      Ring.v: ring buffers with wrapping counters.  Riscv.v: riscv.h,
      memlayout.h, param.h.
    - Memory.  Kalloc.v: kalloc.c.  Vm.v: all of vm.c.  PageTable.v: page
      tables as trees.  VmMap.v: walk, mappages.  VmCopy.v, VmByte.v:
      copyin, copyout, copyinstr.  VmSpace.v, VmGrow.v, VmFree.v: uvmunmap,
      uvmalloc, uvmdealloc, uvmcopy, freewalk, uvmfree.
    - Locks and scheduling.  Spinlock.v, Sleeplock.v: spinlock.c,
      sleeplock.c with the interleaving of CPUs and processes.  Sched.v:
      scheduler, sched, sleep, wakeup, yield, one shared access at a time.
    - Disk and file system.  Virtio.v, VirtioSpec.v: virtio_disk.c with the
      device.  Bio.v, BioSpec.v: bio.c.  Log.v, LogSpec.v, LogTx.v: log.c.
      Fs.v: fs.c; FsTx.v, FsBlock.v, FsFile.v, FsWrite.v, FsProps.v: its
      theorems.  File.v, FileBounds.v: file.c.
    - Devices.  Pipe.v, Uart.v, Console.v: pipe.c, uart.c, console.c.
    - Processes and system calls.  Kstate.v: the state of the whole kernel.
      Proc.v: proc.c.  ProcMem.v, Isolation.v, Fork.v: the memory of
      processes.  Syscall.v, Sysfile.v, Exec.v: syscall.c, sysproc.c,
      sysfile.c, exec.c.  Trap.v: trap.c, plic.c and the dispatch of calls.
    - Libraries and programs.  Kstring.v: string.c.  Printf.v: both
      printf.c.  Ulib.v: ulib.c.  Umalloc.v: umalloc.c.  Grep.v: grep.c.
      Sh.v, ShParse.v, ShPrint.v, ShRun.v: sh.c.

    ** How the parts interact

    The kernel's state [kst] (Kstate.v) contains the states of the layers;
    a function of an upper layer runs a function of a lower one on its part
    ([on_km], [on_fs], [on_pipe], [on_console], all instances of [lift]).
    What a lock protects runs without interruption: a function is modelled
    as the sections between the points where it releases its lock or sleeps,
    and the theorems on interleavings run these sections in any order.
    Spinlock.v and Sched.v justify this view: there the accesses themselves
    interleave.

    ** What the theorems show

    - Crash safety: a crash at any point, also during recovery, leaves a disk
      on which each group of system calls has happened completely or not at
      all (LogSpec.v, LogTx.v), on top of a disk driver that implements block
      transfers (VirtioSpec.v).
    - Files: what writei writes readi reads, no other file changes, blocks
      are allocated once (FsProps.v); a chunk of filewrite fits into the log
      (FileBounds.v).
    - Memory: the allocator keeps the pages partitioned (Kalloc.v); mappages
      maps exactly its range (VmMap.v); copies between kernel and user space
      touch only what the user may access (VmCopy.v); no two processes share
      a page in any sequence of fork, growproc, freeproc and stores, growproc
      never panics, freeproc gives back what the process has, fork copies the
      parent (Fork.v).
    - Concurrency: mutual exclusion of the locks, no lost wakeup, a process
      runs on one CPU, locks make progress (Spinlock.v, Sleeplock.v,
      Sched.v); pipes are queues in every interleaving (Pipe.v).
    - Devices: the console is a line editor, the UART keeps the order of
      bytes (Console.v, Uart.v).
    - Traps: a return to user space is one in user mode to the process's own
      program counter and page table; unknown calls are refused (Trap.v).
    - Programs: the shell's parser terminates, inverts printing, and commands
      run with the files that they say (ShParse.v, ShPrint.v, ShRun.v); grep
      decides its regular expressions and selects lines (Grep.v); malloc and
      free keep the heap partitioned (Umalloc.v); printf and atoi invert each
      other, and the routines that exist twice agree (Printf.v, Ulib.v).

    Theorems of kind error show where the code does not do what it is meant
    to (a log reservation that is one block too large, a wakeup lost by a
    killed writer, grep's treatment of long lines, malloc of nearly 4 GiB).

    ** Bounds

    A loop of the source that is not structural has an argument that bounds
    its iterations, computed from the range it walks (a page range, a string
    length, the number of table slots); the end of the bound is the outcome
    [OutOfFuel], and the specifications, which say that a function returns,
    exclude it.  freewalk has depth 3, the levels of a page table.

    ** Not modelled

    - The programs usertests.c, grind.c, forktest.c, stressfs.c and zombie.c
      are tests: what they try is stated as theorems about the kernel.
    - ramdisk.c is not part of the kernel that the Makefile builds. *)

From stdpp Require Export base tactics numbers list strings.
From Stdlib Require Export ZArith Lia.

#[global] Open Scope Z_scope.

(** ** Outcomes

    A kernel function ends in one of four ways: it returns, it calls
    [panic], it calls [sleep] in a state in which only another thread can
    let it continue, or (for a loop translated with a bound on its
    iterations) the bound is exhausted.  The last outcome is not one the C
    code has: theorems show that it is not reached. *)
Inductive outcome (A : Type) : Type :=
| Ok (a : A)
| Panic (msg : string)
| Sleeps (chan : string)
| OutOfFuel.
Arguments Ok {A} _.
Arguments Panic {A} _%_string.
Arguments Sleeps {A} _%_string.
Arguments OutOfFuel {A}.

(** State-passing computations over a component state [S]. *)
Definition M (S A : Type) : Type := S → outcome (A * S).

Definition ret {S A} (a : A) : M S A := fun s => Ok (a, s).

Definition bind {S A B} (c : M S A) (k : A → M S B) : M S B := fun s =>
  match c s with
  | Ok (a, s') => k a s'
  | Panic msg => Panic msg
  | Sleeps ch => Sleeps ch
  | OutOfFuel => OutOfFuel
  end.

Definition get {S} : M S S := fun s => Ok (s, s).
Definition gets {S A} (f : S → A) : M S A := fun s => Ok (f s, s).
Definition put {S} (s' : S) : M S unit := fun _ => Ok (tt, s').
Definition modify {S} (f : S → S) : M S unit := fun s => Ok (tt, f s).
Definition panic {S A} (msg : string) : M S A := fun _ => Panic msg.
Definition sleeps {S A} (ch : string) : M S A := fun _ => Sleeps ch.
Definition out_of_fuel {S A} : M S A := fun _ => OutOfFuel.

(** Run a computation on a part of a larger state. *)
Definition lift {S T A} (g : T → S) (p : T → S → T) (c : M S A) : M T A := fun t =>
  match c (g t) with
  | Ok (a, s') => Ok (a, p t s')
  | Panic msg => Panic msg
  | Sleeps ch => Sleeps ch
  | OutOfFuel => OutOfFuel
  end.

Arguments panic {S A} msg%_string.
Arguments sleeps {S A} ch%_string.

Declare Scope xv6_scope.
Delimit Scope xv6_scope with xv6.
Notation "'do' x <- c ; k" := (bind c (fun x => k))
  (at level 10, x name, c at level 100, k at level 200) : xv6_scope.
Notation "'do' ' pat <- c ; k" := (bind c (fun x => match x with pat => k end))
  (at level 10, pat pattern, c at level 100, k at level 200) : xv6_scope.
Notation "'do!' c ; k" := (bind c (fun _ => k))
  (at level 10, c at level 100, k at level 200) : xv6_scope.
#[global] Open Scope xv6_scope.

(** ** Total-correctness judgement

    [wp c Q s]: started in [s], [c] returns (no panic, no sleep, no
    exhausted bound) with a value and state that satisfy [Q]. *)
Definition wp {S A} (c : M S A) (Q : A → S → Prop) (s : S) : Prop :=
  match c s with Ok (a, s') => Q a s' | _ => False end.

Lemma wp_ret {S A} (a : A) (Q : A → S → Prop) s : Q a s → wp (ret a) Q s.
Proof. done. Qed.

Lemma wp_bind {S A B} (c : M S A) (k : A → M S B) Q s :
  wp c (fun a s' => wp (k a) Q s') s → wp (bind c k) Q s.
Proof. unfold wp, bind. by destruct (c s) as [[a s']| | |]. Qed.

Lemma wp_mono {S A} (c : M S A) (P Q : A → S → Prop) s :
  wp c P s → (∀ a s', P a s' → Q a s') → wp c Q s.
Proof. unfold wp. destruct (c s) as [[a s']| | |]; eauto. Qed.

Lemma wp_gets {S A} (f : S → A) (Q : A → S → Prop) s :
  Q (f s) s → wp (gets f) Q s.
Proof. done. Qed.

Lemma wp_get {S} (Q : S → S → Prop) s : Q s s → wp get Q s.
Proof. done. Qed.

Lemma wp_modify {S} (f : S → S) (Q : unit → S → Prop) s :
  Q tt (f s) → wp (modify f) Q s.
Proof. done. Qed.

Lemma wp_ok {S A} (c : M S A) Q s :
  wp c Q s ↔ ∃ a s', c s = Ok (a, s') ∧ Q a s'.
Proof.
  unfold wp. split.
  - destruct (c s) as [[a s']| | |]; [eauto|done|done|done].
  - by intros (a & s' & -> & ?).
Qed.

Lemma wp_elim {S A} (c : M S A) Q s a s' : wp c Q s → c s = Ok (a, s') → Q a s'.
Proof. unfold wp. intros Hw E. by rewrite E in Hw. Qed.

Lemma wp_same {S A} (c c' : M S A) Q s s' : c s = c' s' → wp c' Q s' → wp c Q s.
Proof. unfold wp. by intros ->. Qed.

Lemma wp_run {S A} (c : M S A) (Q : A → S → Prop) s a s' : c s = Ok (a, s') → Q a s' → wp c Q s.
Proof. unfold wp. by intros ->. Qed.

Lemma wp_lift {S T A} (g : T → S) (p : T → S → T) (c : M S A) Q t :
  wp c (fun a s' => Q a (p t s')) (g t) → wp (lift g p c) Q t.
Proof. unfold wp, lift. by destruct (c (g t)) as [[a s']| | |]. Qed.

(** The result and the final state of a run, to evaluate one without the
    other. *)
Definition after_run {S A} (c : M S A) (s : S) : S := match c s with Ok (_, s') => s' | _ => s end.
Definition value {S A} (c : M S A) (s : S) : option A := match c s with Ok (a, _) => Some a | _ => None end.
Lemma run_ok {S A} (c : M S A) s a : value c s = Some a → c s = Ok (a, after_run c s).
Proof. unfold value, after_run. destruct (c s) as [[a' s']| | |]; [|done..]. by intros [= ->]. Qed.

Lemma bind_ok {S A B} (c : M S A) (k : A → M S B) s a s' :
  c s = Ok (a, s') → bind c k s = k a s'.
Proof. unfold bind. by intros ->. Qed.

Lemma bind_ok_inv {S A B} (c : M S A) (k : A → M S B) s b s'' :
  bind c k s = Ok (b, s'') → ∃ a s', c s = Ok (a, s') ∧ k a s' = Ok (b, s'').
Proof. unfold bind. destruct (c s) as [[a s']| | |]; naive_solver. Qed.

(** ** Frames

    [preserves f c]: the computation [c] leaves the part [f] of the state as
    it is, whenever it returns. *)
Definition preserves {S A B} (f : S → B) (c : M S A) : Prop :=
  ∀ s a s', c s = Ok (a, s') → f s' = f s.

Create HintDb frame.

Section preserves.
Context {S T A B C : Type}.
Implicit Type f : S → B.

Lemma preserves_ret f (a : A) : preserves f (ret a).
Proof. by intros s x s' [= <- <-]. Qed.
Lemma preserves_gets f (g : S → A) : preserves f (gets g).
Proof. by intros s x s' [= <- <-]. Qed.
Lemma preserves_get f : preserves f get.
Proof. by intros s x s' [= <- <-]. Qed.
Lemma preserves_panic f msg : preserves f (panic (A := A) msg).
Proof. done. Qed.
Lemma preserves_sleeps f ch : preserves f (sleeps (A := A) ch).
Proof. done. Qed.
Lemma preserves_fuel f : preserves f (out_of_fuel (A := A)).
Proof. done. Qed.
Lemma preserves_modify f (g : S → S) : (∀ s, f (g s) = f s) → preserves f (modify g).
Proof. intros Hg s x s' [= <- <-]. apply Hg. Qed.
Lemma preserves_bind f (c : M S A) (k : A → M S C) :
  preserves f c → (∀ a, preserves f (k a)) → preserves f (bind c k).
Proof.
  intros Hc Hk s b s'' (a & s' & H1 & H2)%bind_ok_inv.
  rewrite (Hk a s' b s'' H2). by apply (Hc s a s').
Qed.
Lemma preserves_if f (b : bool) (c c' : M S A) :
  preserves f c → preserves f c' → preserves f (if b then c else c').
Proof. by destruct b. Qed.
Lemma preserves_lift (g : T → S) (p : T → S → T) (h : T → B) (c : M S A) :
  (∀ t s a s', g t = s → c s = Ok (a, s') → h (p t s') = h t) → preserves h (lift g p c).
Proof.
  intros Hh t a t'. unfold lift. destruct (c (g t)) as [[x s']| | |] eqn:E; [|done..].
  intros [= <- <-]. by eapply Hh.
Qed.

(** A result together with a frame. *)
Lemma wp_frame f (c : M S A) (Q : A → S → Prop) s :
  preserves f c → wp c Q s → wp c (fun a s' => Q a s' ∧ f s' = f s) s.
Proof.
  unfold wp. intros Hp. destruct (c s) as [[a s']| | |] eqn:E; [|done..].
  intros HQ. split; [done|]. by apply (Hp s a s').
Qed.
End preserves.

#[export] Hint Resolve preserves_ret preserves_gets preserves_get preserves_panic preserves_sleeps
  preserves_fuel preserves_bind preserves_if : frame.

(** Decompose a computation into its steps. *)
Ltac frame_step :=
  first
    [ apply preserves_bind; [|intros ?] | apply preserves_ret | apply preserves_gets
    | apply preserves_get | apply preserves_panic | apply preserves_sleeps | apply preserves_fuel
    | apply preserves_modify; intros ?; reflexivity
    | progress auto with frame
    | match goal with
      | |- preserves _ (match ?x with _ => _ end) => destruct x
      | |- preserves _ (let _ := _ in _) => cbv zeta
      end ].
Ltac frame := repeat frame_step.

(** ** Machine integers *)
Definition u8 (x : Z) : Z := x mod 2 ^ 8.
Definition u16 (x : Z) : Z := x mod 2 ^ 16.
Definition u32 (x : Z) : Z := x mod 2 ^ 32.
Definition u64 (x : Z) : Z := x mod 2 ^ 64.
(** Conversion to a signed type of width [w]: two's complement. *)
Definition sext (w x : Z) : Z := (x + 2 ^ (w - 1)) mod 2 ^ w - 2 ^ (w - 1).
Definition i16 (x : Z) : Z := sext 16 x.
Definition i32 (x : Z) : Z := sext 32 x.

(** Arithmetic with [/] and [mod] by constants. *)
Ltac zdm := Z.to_euclidean_division_equations; lia.

(** Case analysis on the boolean tests of the code. *)
Ltac destruct_bool_tests :=
  repeat match goal with
  | H : _ && _ = true |- _ => apply andb_prop in H; destruct H
  | H : _ || _ = false |- _ => apply orb_false_elim in H; destruct H
  | H : _ && _ = false |- _ => apply andb_false_iff in H; destruct H
  | H : _ || _ = true |- _ => apply orb_prop in H; destruct H
  | H : negb _ = true |- _ => apply negb_true_iff in H
  | H : negb _ = false |- _ => apply negb_false_iff in H
  | H : (_ =? _) = true |- _ => apply Z.eqb_eq in H
  | H : (_ =? _) = false |- _ => apply Z.eqb_neq in H
  | H : (_ <? _) = true |- _ => apply Z.ltb_lt in H
  | H : (_ <? _) = false |- _ => apply Z.ltb_ge in H
  | H : (_ <=? _) = true |- _ => apply Z.leb_le in H
  | H : (_ <=? _) = false |- _ => apply Z.leb_gt in H
  end.

Ltac case_test :=
  match goal with
  | |- context [if ?b then _ else _] => let E := fresh "E" in destruct b eqn:E
  end; destruct_bool_tests.

Tactic Notation "case_test_in" hyp(H) :=
  match type of H with
  | context [if ?b then _ else _] => let E := fresh "E" in destruct b eqn:E
  end; destruct_bool_tests.

Lemma u8_range x : 0 ≤ u8 x < 256.
Proof. unfold u8. apply Z.mod_pos_bound. lia. Qed.
Lemma u32_range x : 0 ≤ u32 x < 2 ^ 32.
Proof. unfold u32. apply Z.mod_pos_bound. lia. Qed.
Lemma u64_range x : 0 ≤ u64 x < 2 ^ 64.
Proof. unfold u64. apply Z.mod_pos_bound. lia. Qed.
Lemma u32_small x : 0 ≤ x < 2 ^ 32 → u32 x = x.
Proof. apply Z.mod_small. Qed.
Lemma u64_small x : 0 ≤ x < 2 ^ 64 → u64 x = x.
Proof. apply Z.mod_small. Qed.

Lemma i32_small x : - 2 ^ 31 ≤ x < 2 ^ 31 → i32 x = x.
Proof. intros. unfold i32, sext. change (2 ^ (32 - 1)) with (2 ^ 31). rewrite Z.mod_small; lia. Qed.

Lemma i32_u32 x : i32 (u32 x) = i32 x.
Proof.
  unfold i32, sext, u32. change (2 ^ (32 - 1)) with (2 ^ 31). f_equal.
  by rewrite Z.add_mod_idemp_l by lia.
Qed.

(** ** Lists *)

Lemma filter_ne_notin {A} `{EqDecision A} (k : A) (l : list A) : k ∉ l → filter (fun x => x ≠ k) l = l.
Proof.
  induction l as [|x l IH]; [done|]. intros [Hx Hl]%not_elem_of_cons.
  rewrite filter_cons_True by done. by rewrite IH.
Qed.

Lemma length_filter_ne {A} `{EqDecision A} (k : A) (l : list A) :
  NoDup l → k ∈ l → length l = S (length (filter (fun x => x ≠ k) l)).
Proof.
  induction 1 as [|x l Hx Hl IH]; [by intros ?%not_elem_of_nil|].
  intros [->|Hk]%elem_of_cons.
  - by rewrite filter_cons_False, filter_ne_notin by (done || intros ?; done).
  - rewrite filter_cons_True by (by intros ->). cbn. by rewrite IH.
Qed.

(** ** Pairs of elements of a list *)

(** Membership in a list made of appended lists. *)
Ltac in_list :=
  repeat match goal with
         | H : _ ∈ _ ++ _ |- _ => apply elem_of_app in H as [H|H]
         | H : _ ∈ _ :: _ |- _ => apply elem_of_cons in H as [H|H]
         | H : _ ∈ [] |- _ => apply elem_of_nil in H as []
         end;
  repeat (rewrite elem_of_app || rewrite elem_of_cons); solve [tauto | auto 12].

(** [R] holds between any two elements at different places. *)
Fixpoint pairwise {A} (R : A → A → Prop) (l : list A) : Prop :=
  match l with
  | [] => True
  | b :: l => (∀ c, c ∈ l → R b c) ∧ pairwise R l
  end.

Lemma pairwise_perm {A} (R : A → A → Prop) `{!Symmetric R} l l' :
  l ≡ₚ l' → pairwise R l → pairwise R l'.
Proof.
  induction 1 as [|b l l' P IH|b c l|l l' l'' _ IH1 _ IH2]; cbn [pairwise]; [done| | |auto].
  - intros [Hb Hl]. split; [|auto]. intros c Hc. apply Hb. by rewrite P.
  - intros (Hb & Hc & Hl). split; [|split; [|done]].
    + intros d [ -> |Hd]%elem_of_cons; [symmetry; apply Hb, list_elem_of_here | auto].
    + intros d Hd. apply Hb. by apply list_elem_of_further.
Qed.

Lemma pairwise_fmap {A B} (f : A → B) (R : A → A → Prop) (R' : B → B → Prop) l :
  (∀ a b, a ∈ l → b ∈ l → R a b → R' (f a) (f b)) → pairwise R l → pairwise R' (f <$> l).
Proof.
  induction l as [|a l IH]; cbn; [done|]. intros H [Ha Hl]. split.
  - intros c (b & -> & Hb)%list_elem_of_fmap. apply H; rewrite ?elem_of_cons; auto.
  - apply IH; [|done]. intros b c Hb Hc. apply H; by apply list_elem_of_further.
Qed.

Lemma pairwise_app {A} (R : A → A → Prop) l1 l2 :
  pairwise R (l1 ++ l2) ↔ pairwise R l1 ∧ pairwise R l2 ∧ ∀ a b, a ∈ l1 → b ∈ l2 → R a b.
Proof.
  induction l1 as [|c l1 IH]; cbn [pairwise app].
  - split; [|tauto]. intros H. do 2 (split; [done|]). intros a b Ha. by apply elem_of_nil in Ha.
  - rewrite IH. split.
    + intros (Hc & H1 & H2 & H12). split; [split; [|done]; intros; apply Hc; in_list|]. split; [done|].
      intros a b [ -> |Ha]%elem_of_cons Hb; [apply Hc; in_list|auto].
    + intros ([Hc H1] & H2 & H12). split; [|split; [done|split; [done|]]].
      * intros b [Hb|Hb]%elem_of_app; [auto|]. apply H12; in_list.
      * intros a b Ha Hb. apply H12; in_list.
Qed.
