(* ===== verification/Mem.v ===== *)
(** * Byte-addressed memory

    The C code reads and writes memory through pointers of several widths.
    A memory is a total function from addresses to bytes; multi-byte values
    are little-endian, as on RISC-V.  The same type models physical memory
    and the data area of a disk block (addressed by offset).

    [fill] and [copy] are closed forms of "set [n] bytes" and "move [n]
    bytes"; Kstring.v proves that the loops of kernel/string.c compute
    them. *)


From S2P Require Import Prelude.

Definition mem : Type := Z → Z.

Definition ld8 (m : mem) (a : Z) : Z := m a mod 256.
Definition st8 (m : mem) (a v : Z) : mem := fun b => if b =? a then v mod 256 else m b.

Fixpoint ldn (n : nat) (m : mem) (a : Z) : Z :=
  match n with
  | O => 0
  | S n' => ld8 m a + 256 * ldn n' m (a + 1)
  end.

Fixpoint stn (n : nat) (m : mem) (a v : Z) : mem :=
  match n with
  | O => m
  | S n' => stn n' (st8 m a v) (a + 1) (v / 256)
  end.

Definition ld16 := ldn 2.
Definition ld32 := ldn 4.
Definition ld64 := ldn 8.
Definition st16 := stn 2.
Definition st32 := stn 4.
Definition st64 := stn 8.

Definition fill (m : mem) (d c n : Z) : mem :=
  fun b => if (d <=? b) && (b <? d + n) then c mod 256 else m b.

Definition copy (m : mem) (d s n : Z) : mem :=
  fun b => if (d <=? b) && (b <? d + n) then m (s + (b - d)) else m b.

(** Bytes written from a list, and read into one. *)
Definition store_bytes (m : mem) (d : Z) (l : list Z) : mem :=
  fun b => if (d <=? b) && (b <? d + Z.of_nat (length l))
           then nth (Z.to_nat (b - d)) l 0 mod 256 else m b.

Definition load_bytes (m : mem) (a n : Z) : list Z :=
  map (fun i => ld8 m (a + Z.of_nat i)) (seq 0 (Z.to_nat n)).

(** ** Loads and stores of bytes *)

Lemma ld8_range m a : 0 ≤ ld8 m a < 256.
Proof. unfold ld8. apply Z.mod_pos_bound. lia. Qed.

Lemma ld8_st8_eq m a v : ld8 (st8 m a v) a = v mod 256.
Proof. unfold ld8, st8. rewrite Z.eqb_refl. apply Z.mod_mod. lia. Qed.

Lemma ld8_st8_ne m a b v : a ≠ b → ld8 (st8 m a v) b = ld8 m b.
Proof. intros. unfold ld8, st8. by rewrite (proj2 (Z.eqb_neq b a)) by done. Qed.

Lemma ld8_fill_in m d c n a : d ≤ a < d + n → ld8 (fill m d c n) a = c mod 256.
Proof.
  intros. unfold ld8, fill.
  rewrite (proj2 (Z.leb_le d a)), (proj2 (Z.ltb_lt a (d + n))) by lia.
  apply Z.mod_mod. lia.
Qed.

Lemma ld8_fill_out m d c n a : a < d ∨ d + n ≤ a → ld8 (fill m d c n) a = ld8 m a.
Proof.
  intros. unfold ld8, fill. case_test; done || lia.
Qed.

Lemma ld8_copy_in m d s n a :
  d ≤ a < d + n → ld8 (copy m d s n) a = ld8 m (s + (a - d)).
Proof.
  intros. unfold ld8, copy.
  by rewrite (proj2 (Z.leb_le d a)), (proj2 (Z.ltb_lt a (d + n))) by lia.
Qed.

Lemma ld8_copy_out m d s n a : a < d ∨ d + n ≤ a → ld8 (copy m d s n) a = ld8 m a.
Proof. intros. unfold ld8, copy. case_test; done || lia. Qed.

Lemma ld8_store_bytes_in m d l a :
  d ≤ a < d + Z.of_nat (length l) →
  ld8 (store_bytes m d l) a = nth (Z.to_nat (a - d)) l 0 mod 256.
Proof.
  intros. unfold ld8, store_bytes.
  rewrite (proj2 (Z.leb_le d a)), (proj2 (Z.ltb_lt a _)) by lia.
  apply Z.mod_mod. lia.
Qed.

Lemma ld8_store_bytes_out m d l a :
  a < d ∨ d + Z.of_nat (length l) ≤ a → ld8 (store_bytes m d l) a = ld8 m a.
Proof. intros. unfold ld8, store_bytes. case_test; done || lia. Qed.

(** ** Multi-byte values *)

Lemma ldn_range n m a : 0 ≤ ldn n m a < 256 ^ Z.of_nat n.
Proof.
  revert a; induction n as [|n IH]; intros a; cbn [ldn]; [done|].
  rewrite Nat2Z.inj_succ, Z.pow_succ_r by lia.
  pose proof (ld8_range m a). specialize (IH (a + 1)). lia.
Qed.

Lemma ldn_ext n m m' a :
  (∀ b, a ≤ b < a + Z.of_nat n → ld8 m b = ld8 m' b) → ldn n m a = ldn n m' a.
Proof.
  revert a; induction n as [|n IH]; intros a H; cbn [ldn]; [done|].
  rewrite (H a), (IH (a + 1)) by (intros; try apply H; lia). done.
Qed.

Lemma ld8_stn_out n m a v b :
  b < a ∨ a + Z.of_nat n ≤ b → ld8 (stn n m a v) b = ld8 m b.
Proof.
  revert m a v; induction n as [|n IH]; intros m a v H; cbn [stn]; [done|].
  rewrite IH, ld8_st8_ne by lia. done.
Qed.

Lemma ldn_stn_eq n m a v : ldn n (stn n m a v) a = v mod 256 ^ Z.of_nat n.
Proof.
  revert m a v; induction n as [|n IH]; intros m a v; cbn [ldn stn].
  - by rewrite Z.pow_0_r, Z.mod_1_r.
  - rewrite ld8_stn_out, ld8_st8_eq, IH by lia.
    rewrite Nat2Z.inj_succ, Z.pow_succ_r by lia.
    rewrite Z.rem_mul_r by lia. lia.
Qed.

Lemma ldn_stn_out k n m a v b :
  b + Z.of_nat k ≤ a ∨ a + Z.of_nat n ≤ b → ldn k (stn n m a v) b = ldn k m b.
Proof. intros. apply ldn_ext. intros. apply ld8_stn_out. lia. Qed.

Lemma ldn_fill_out k m d c n a :
  a + Z.of_nat k ≤ d ∨ d + n ≤ a → ldn k (fill m d c n) a = ldn k m a.
Proof. intros. apply ldn_ext. intros. apply ld8_fill_out. lia. Qed.

Lemma ldn_fill_zero k m d n a :
  d ≤ a → a + Z.of_nat k ≤ d + n → ldn k (fill m d 0 n) a = 0.
Proof.
  revert a; induction k as [|k IH]; intros a H1 H2; cbn [ldn]; [done|].
  rewrite ld8_fill_in, IH by lia. done.
Qed.

Lemma ldn_copy_out k m d s n a :
  a + Z.of_nat k ≤ d ∨ d + n ≤ a → ldn k (copy m d s n) a = ldn k m a.
Proof. intros. apply ldn_ext. intros. apply ld8_copy_out. lia. Qed.

Lemma ldn_copy_in k m d s n a :
  d ≤ a → a + Z.of_nat k ≤ d + n → ldn k (copy m d s n) a = ldn k m (s + (a - d)).
Proof.
  revert a; induction k as [|k IH]; intros a H1 H2; cbn [ldn]; [done|].
  rewrite ld8_copy_in, IH by lia.
  by replace (s + (a + 1 - d)) with (s + (a - d) + 1) by lia.
Qed.

Lemma ldn_store_bytes_out k m d l a :
  a + Z.of_nat k ≤ d ∨ d + Z.of_nat (length l) ≤ a →
  ldn k (store_bytes m d l) a = ldn k m a.
Proof. intros. apply ldn_ext. intros. apply ld8_store_bytes_out. lia. Qed.

Lemma ld64_range m a : 0 ≤ ld64 m a < 2 ^ 64.
Proof. apply (ldn_range 8). Qed.
Lemma ld32_range m a : 0 ≤ ld32 m a < 2 ^ 32.
Proof. apply (ldn_range 4). Qed.
Lemma ld16_range m a : 0 ≤ ld16 m a < 2 ^ 16.
Proof. apply (ldn_range 2). Qed.

Lemma ld64_st64_eq m a v : ld64 (st64 m a v) a = u64 v.
Proof. apply (ldn_stn_eq 8). Qed.
Lemma ld32_st32_eq m a v : ld32 (st32 m a v) a = u32 v.
Proof. apply (ldn_stn_eq 4). Qed.
Lemma ld16_st16_eq m a v : ld16 (st16 m a v) a = u16 v.
Proof. apply (ldn_stn_eq 2). Qed.

Lemma ld64_st64_ne m a b v :
  b + 8 ≤ a ∨ a + 8 ≤ b → ld64 (st64 m a v) b = ld64 m b.
Proof. intros. apply (ldn_stn_out 8 8). lia. Qed.

(** ** Byte lists *)

Lemma length_load_bytes m a n : length (load_bytes m a n) = Z.to_nat n.
Proof. unfold load_bytes. by rewrite length_map, length_seq. Qed.

Lemma nth_load_bytes m a n i :
  (i < Z.to_nat n)%nat → nth i (load_bytes m a n) 0 = ld8 m (a + Z.of_nat i).
Proof.
  intros. unfold load_bytes.
  rewrite nth_indep with (d' := ld8 m (a + Z.of_nat 0)) by (rewrite length_map, length_seq; lia).
  rewrite (map_nth (fun i => ld8 m (a + Z.of_nat i))). by rewrite seq_nth by lia.
Qed.

Lemma load_bytes_ext m m' a n :
  (∀ b, a ≤ b < a + n → ld8 m b = ld8 m' b) → load_bytes m a n = load_bytes m' a n.
Proof.
  intros H. unfold load_bytes. apply map_ext_in. intros i Hi%in_seq. apply H. lia.
Qed.

Lemma load_bytes_app m a n k :
  0 ≤ n → 0 ≤ k → load_bytes m a (n + k) = load_bytes m a n ++ load_bytes m (a + n) k.
Proof.
  intros. apply nth_ext with (d := 0) (d' := 0).
  - rewrite length_app, !length_load_bytes. lia.
  - intros i Hi. rewrite length_load_bytes in Hi. rewrite nth_load_bytes by done.
    destruct (decide (i < Z.to_nat n)%nat).
    + by rewrite app_nth1, nth_load_bytes by (rewrite ?length_load_bytes; lia).
    + rewrite app_nth2, length_load_bytes, nth_load_bytes
        by (rewrite ?length_load_bytes; lia).
      f_equal. lia.
Qed.

Lemma load_bytes_range m a n : Forall (fun x => 0 ≤ x < 256) (load_bytes m a n).
Proof.
  unfold load_bytes. apply Forall_map, Forall_forall. intros i _. apply ld8_range.
Qed.

Lemma load_store_bytes m a l :
  Forall (fun x => 0 ≤ x < 256) l →
  load_bytes (store_bytes m a l) a (Z.of_nat (length l)) = l.
Proof.
  intros Hl. apply nth_ext with (d := 0) (d' := 0).
  - rewrite length_load_bytes. lia.
  - intros i Hi. rewrite length_load_bytes in Hi.
    rewrite nth_load_bytes, ld8_store_bytes_in by lia.
    replace (Z.to_nat _) with i by lia. apply Z.mod_small.
    rewrite Forall_forall in Hl. apply Hl, list_elem_of_In, nth_In. lia.
Qed.
