(* ===== verification/Ring.v ===== *)
(** * Segments of ring buffers

    Pipes, the console and the UART driver keep bytes in an array indexed by
    a counter modulo its size, and let the counter wrap around at its width,
    a multiple of the size.  [seg] is the list of the [n] elements from
    counter [lo] on. *)

From stdpp Require Import functions.
From S2P Require Import Prelude.

Definition seg (size : Z) (buf : Z → Z) (lo n : Z) : list Z :=
  map (fun k => buf ((lo + k) mod size)) (seqZ 0 n).

Section seg.
Context (size : Z) (Hsize : 0 < size).
#[local] Abbreviation seg := (seg size).

Lemma length_seg buf lo n : 0 ≤ n → Z.of_nat (length (seg buf lo n)) = n.
Proof. intros. unfold Ring.seg. rewrite length_map, length_seqZ. lia. Qed.

Lemma seg_nil buf lo : seg buf lo 0 = [].
Proof. done. Qed.

Lemma seg_mod buf lo lo' n : lo mod size = lo' mod size → seg buf lo n = seg buf lo' n.
Proof.
  intros E. apply map_ext. intros k. f_equal.
  rewrite <- (Z.add_mod_idemp_l lo), E, Z.add_mod_idemp_l by lia. done.
Qed.

Lemma seg_app buf lo n k : 0 ≤ n → 0 ≤ k → seg buf lo (n + k) = seg buf lo n ++ seg buf (lo + n) k.
Proof.
  intros. unfold Ring.seg. rewrite seqZ_app, map_app by lia. f_equal.
  rewrite <- (Z.add_comm n), <- fmap_add_seqZ. etrans; [apply map_map|]. apply map_ext.
  intros j. do 2 f_equal. lia.
Qed.

Lemma seg_cons buf lo n : 0 < n → seg buf lo n = buf (lo mod size) :: seg buf (lo + 1) (n - 1).
Proof.
  intros. replace n with (1 + (n - 1)) at 1 by lia. rewrite seg_app by lia.
  unfold Ring.seg at 1. rewrite (seqZ_cons 0 1) by lia. cbn. by rewrite Z.add_0_r.
Qed.

Lemma seg_ext buf buf' lo n :
  (∀ k, 0 ≤ k < n → buf ((lo + k) mod size) = buf' ((lo + k) mod size)) → seg buf lo n = seg buf' lo n.
Proof. intros E. apply map_ext_in. intros k Hk%list_elem_of_In%elem_of_seqZ. apply E. lia. Qed.

(** An element stored outside the segment. *)
Lemma seg_insert_out buf lo n j v :
  0 ≤ n → n ≤ j < size → seg (<[(lo + j) mod size := v]> buf) lo n = seg buf lo n.
Proof.
  intros Hn Hj. apply seg_ext. intros k Hk. apply fn_lookup_insert_ne. intros E.
  assert ((j - k) mod size = 0).
  { replace (j - k) with (lo + j - (lo + k)) by lia.
    rewrite Zminus_mod, E, Z.sub_diag. apply Z.mod_0_l. lia. }
  rewrite Z.mod_small in *; lia.
Qed.

(** An element stored behind the segment. *)
Lemma seg_snoc buf lo n v :
  0 ≤ n < size → seg (<[(lo + n) mod size := v]> buf) lo (n + 1) = seg buf lo n ++ [v].
Proof.
  intros Hn. rewrite seg_app, seg_insert_out by lia. f_equal. unfold Ring.seg.
  rewrite (seqZ_cons 0 1) by lia. cbn. rewrite Z.add_0_r. f_equal. apply fn_lookup_insert.
Qed.

End seg.

(** Counters of width [2 ^ w] that is a multiple of the size. *)
Lemma wrap_mod size m x : 0 < size → (size | m) → 0 < m → (x mod m) mod size = x mod size.
Proof. intros Hs [q ->] Hm. rewrite Z.mul_comm, Z.rem_mul_r by nia. rewrite Z.mul_comm, Z_mod_plus_full. apply Z.mod_mod. lia. Qed.
