(* ===== verification/Kstring.v ===== *)
(** * String and memory routines (kernel/string.c)

    Each routine is the loop of the source over a byte memory.  Pointers
    are addresses; [char] is unsigned, as in the RISC-V ABI.  Routines that
    only read take the memory of each argument separately, so that they
    also apply to two distinct kernel buffers.  The theorems relate the
    loops to closed forms: [fill], [copy], and C strings as lists. *)


From S2P Require Import Prelude Mem.

(** for(i = 0; i < n; i++) cdst[i] = c; *)
Fixpoint memset_loop (k : nat) (m : mem) (dst c i : Z) : mem :=
  match k with
  | O => m
  | S k' => memset_loop k' (st8 m (dst + i) c) dst c (i + 1)
  end.
Definition memset (m : mem) (dst c n : Z) : mem := memset_loop (Z.to_nat n) m dst c 0.

(** while(n-- > 0){ if( *s1 != *s2 ) return *s1 - *s2; s1++, s2++; } return 0; *)
Fixpoint memcmp_loop (k : nat) (m1 : mem) (s1 : Z) (m2 : mem) (s2 : Z) : Z :=
  match k with
  | O => 0
  | S k' =>
      if negb (ld8 m1 s1 =? ld8 m2 s2) then ld8 m1 s1 - ld8 m2 s2
      else memcmp_loop k' m1 (s1 + 1) m2 (s2 + 1)
  end.
Definition memcmp (m1 : mem) (v1 : Z) (m2 : mem) (v2 n : Z) : Z :=
  memcmp_loop (Z.to_nat n) m1 v1 m2 v2.

(** while(n-- > 0) *--d = *--s; *)
Fixpoint memmove_backward (k : nat) (m : mem) (d s : Z) : mem :=
  match k with
  | O => m
  | S k' => memmove_backward k' (st8 m (d - 1) (ld8 m (s - 1))) (d - 1) (s - 1)
  end.
(** while(n-- > 0) *d++ = *s++; *)
Fixpoint memmove_forward (k : nat) (m : mem) (d s : Z) : mem :=
  match k with
  | O => m
  | S k' => memmove_forward k' (st8 m d (ld8 m s)) (d + 1) (s + 1)
  end.
Definition memmove (m : mem) (dst src n : Z) : mem :=
  if n =? 0 then m
  else if (src <? dst) && (dst <? src + n)
  then memmove_backward (Z.to_nat n) m (dst + n) (src + n)
  else memmove_forward (Z.to_nat n) m dst src.

Definition memcpy (m : mem) (dst src n : Z) : mem := memmove m dst src n.

(** while(n > 0 && *p && *p == *q) n--, p++, q++;
    if(n == 0) return 0;
    return (uchar)*p - (uchar)*q; *)
Fixpoint strncmp_loop (k : nat) (m1 : mem) (p : Z) (m2 : mem) (q : Z) : Z :=
  match k with
  | O => 0
  | S k' =>
      if negb (ld8 m1 p =? 0) && (ld8 m1 p =? ld8 m2 q)
      then strncmp_loop k' m1 (p + 1) m2 (q + 1)
      else ld8 m1 p - ld8 m2 q
  end.
Definition strncmp (m1 : mem) (p : Z) (m2 : mem) (q n : Z) : Z :=
  strncmp_loop (Z.to_nat n) m1 p m2 q.

(** while(n-- > 0) *s++ = 0; *)
Fixpoint strncpy_pad (k : nat) (m : mem) (s : Z) : mem :=
  match k with
  | O => m
  | S k' => strncpy_pad k' (st8 m s 0) (s + 1)
  end.
(** while(n-- > 0 && ( *s++ = *t++) != 0) ; and then the padding loop *)
Fixpoint strncpy_loop (k : nat) (m : mem) (s : Z) (mt : mem) (t : Z) : mem :=
  match k with
  | O => m
  | S k' =>
      let c := ld8 mt t in
      if negb (c =? 0) then strncpy_loop k' (st8 m s c) (s + 1) mt (t + 1)
      else strncpy_pad k' (st8 m s c) (s + 1)
  end.
Definition strncpy (m : mem) (s : Z) (mt : mem) (t n : Z) : mem :=
  strncpy_loop (Z.to_nat n) m s mt t.

(** while(--n > 0 && ( *s++ = *t++) != 0) ; *s = 0;   [k] is [n] before the
    decrement. *)
Fixpoint safestrcpy_loop (k : nat) (m : mem) (s : Z) (mt : mem) (t : Z) : mem :=
  match k with
  | O | S O => st8 m s 0
  | S k' =>
      let c := ld8 mt t in
      if negb (c =? 0) then safestrcpy_loop k' (st8 m s c) (s + 1) mt (t + 1)
      else st8 (st8 m s c) (s + 1) 0
  end.
Definition safestrcpy (m : mem) (s : Z) (mt : mem) (t n : Z) : mem :=
  if n <=? 0 then m else safestrcpy_loop (Z.to_nat n) m s mt t.

(** for(n = 0; s[n]; n++) ;  with a bound on the length *)
Fixpoint strlen_loop (fuel : nat) (m : mem) (s n : Z) : option Z :=
  match fuel with
  | O => None
  | S f => if ld8 m (s + n) =? 0 then Some n else strlen_loop f m s (n + 1)
  end.
Definition strlen (fuel : nat) (m : mem) (s : Z) : option Z := strlen_loop fuel m s 0.

(** The C string at [p], cut at [n] bytes, without its terminator. *)
Fixpoint cstrn (n : nat) (m : mem) (p : Z) : list Z :=
  match n with
  | O => []
  | S n' => if ld8 m p =? 0 then [] else ld8 m p :: cstrn n' m (p + 1)
  end.

(** ** memset *)

Lemma memset_loop_spec k m dst c i b :
  ld8 (memset_loop k m dst c i) b
  = if (dst + i <=? b) && (b <? dst + i + Z.of_nat k) then c mod 256 else ld8 m b.
Proof.
  revert m i; induction k as [|k IH]; intros m i; cbn [memset_loop].
  - case_test; done || lia.
  - rewrite IH. destruct (decide (b = dst + i)) as [->|];
      [rewrite ld8_st8_eq|rewrite ld8_st8_ne by done];
      repeat case_test; done || lia.
Qed.

(** The loop of [memset] writes [c] to exactly the [n] bytes at [dst]. *)
Lemma memset_fill m dst c n b :
  0 ≤ n → ld8 (memset m dst c n) b = ld8 (fill m dst c n) b.
Proof.
  intros. unfold memset. rewrite memset_loop_spec, Z.add_0_r, Z2Nat.id by lia.
  unfold ld8 at 2, fill. case_test; (symmetry; apply Z.mod_mod; lia) || done.
Qed.

(** ** memmove *)

Lemma memmove_forward_spec k m d s b :
  d ≤ s ∨ s + Z.of_nat k ≤ d →
  ld8 (memmove_forward k m d s) b = ld8 (copy m d s (Z.of_nat k)) b.
Proof.
  revert m d s; induction k as [|k IH]; intros m d s H; cbn [memmove_forward].
  - by rewrite ld8_copy_out by lia.
  - rewrite IH by lia. destruct (decide (d ≤ b < d + Z.of_nat (S k))).
    + rewrite (ld8_copy_in m) by lia. destruct (decide (b = d)) as [->|].
      * rewrite ld8_copy_out, ld8_st8_eq, Z.mod_small by (try apply ld8_range; lia).
        f_equal; lia.
      * rewrite ld8_copy_in, ld8_st8_ne by lia. f_equal; lia.
    + rewrite (ld8_copy_out m), ld8_copy_out, ld8_st8_ne by lia. done.
Qed.

Lemma memmove_backward_spec k m d s b :
  s ≤ d ∨ d + Z.of_nat k ≤ s →
  ld8 (memmove_backward k m (d + Z.of_nat k) (s + Z.of_nat k)) b
  = ld8 (copy m d s (Z.of_nat k)) b.
Proof.
  revert m; induction k as [|k IH]; intros m H; cbn [memmove_backward].
  - by rewrite ld8_copy_out by lia.
  - replace (d + Z.of_nat (S k) - 1) with (d + Z.of_nat k) by lia.
    replace (s + Z.of_nat (S k) - 1) with (s + Z.of_nat k) by lia.
    rewrite IH by lia. destruct (decide (d ≤ b < d + Z.of_nat (S k))).
    + rewrite (ld8_copy_in m) by lia. destruct (decide (b = d + Z.of_nat k)) as [->|].
      * rewrite ld8_copy_out, ld8_st8_eq, Z.mod_small by (try apply ld8_range; lia).
        f_equal; lia.
      * rewrite ld8_copy_in, ld8_st8_ne by lia. done.
    + rewrite (ld8_copy_out m), ld8_copy_out, ld8_st8_ne by lia. done.
Qed.

(** [memmove] moves the [n] original bytes at [src] to [dst] and changes
    nothing else, also when the two areas overlap. *)
Lemma memmove_copy m dst src n b :
  0 ≤ n → ld8 (memmove m dst src n) b = ld8 (copy m dst src n) b.
Proof.
  intros Hn. unfold memmove. case_test; [subst; by rewrite ld8_copy_out by lia|].
  destruct ((src <? dst) && (dst <? src + n)) eqn:E0.
  - destruct_bool_tests. rewrite <- (Z2Nat.id n) at 2 3 by lia.
    rewrite memmove_backward_spec, Z2Nat.id by lia. done.
  - rewrite memmove_forward_spec, Z2Nat.id by (rewrite ?Z2Nat.id by lia;
      destruct_bool_tests; lia). done.
Qed.

(** ** C strings *)

Lemma cstrn_length n m p : (length (cstrn n m p) ≤ n)%nat.
Proof.
  revert p; induction n as [|n IH]; intros p; cbn [cstrn]; [done|].
  case_test; simpl; [lia|]. specialize (IH (p + 1)). lia.
Qed.

(** The string is determined by the bytes it spans: [l] holds no NUL, and is
    followed by one unless it fills the [n] bytes. *)
Lemma cstrn_intro n m p l :
  (length l ≤ n)%nat →
  (∀ i, (i < length l)%nat → ld8 m (p + Z.of_nat i) = nth i l 0 ∧ nth i l 0 ≠ 0) →
  ((length l < n)%nat → ld8 m (p + Z.of_nat (length l)) = 0) →
  cstrn n m p = l.
Proof.
  revert p l; induction n as [|n IH]; intros p l Hl Hin Hend; cbn [cstrn].
  - destruct l; [done|simpl in Hl; lia].
  - destruct l as [|c l]; cbn [length] in *.
    + rewrite Z.add_0_r in Hend. by rewrite Hend by lia.
    + destruct (Hin 0%nat ltac:(lia)) as [H0 H1]. rewrite Z.add_0_r in H0.
      cbn [nth] in H0, H1. rewrite H0, (proj2 (Z.eqb_neq _ _)) by done.
      f_equal. apply IH.
      * lia.
      * intros i Hi. destruct (Hin (S i) ltac:(lia)) as [H2 H3].
        replace (p + 1 + Z.of_nat i) with (p + Z.of_nat (S i)) by lia. done.
      * intros. replace (p + 1 + Z.of_nat (length l)) with (p + Z.of_nat (S (length l))) by lia.
        apply Hend. lia.
Qed.

Lemma cstrn_nth n m p i :
  (i < length (cstrn n m p))%nat →
  nth i (cstrn n m p) 0 = ld8 m (p + Z.of_nat i) ∧ nth i (cstrn n m p) 0 ≠ 0.
Proof.
  revert p i; induction n as [|n IH]; intros p i; cbn [cstrn]; [simpl; lia|].
  case_test; [simpl; lia|]. destruct i as [|i]; cbn [nth length].
  - by rewrite Z.add_0_r.
  - intros Hi. replace (p + Z.of_nat (S i)) with (p + 1 + Z.of_nat i) by lia.
    apply IH. lia.
Qed.

Lemma strncmp_loop_zero k m1 p m2 q :
  strncmp_loop k m1 p m2 q = 0 ↔ cstrn k m1 p = cstrn k m2 q.
Proof.
  revert p q; induction k as [|k IH]; intros p q; cbn [strncmp_loop cstrn]; [done|].
  repeat case_test; rewrite ?IH; split; intros; try done; try lia; try congruence.
Qed.

(** [strncmp] returns 0 exactly when the two strings, cut at [n] bytes,
    are equal. *)
Lemma strncmp_zero m1 p m2 q n :
  strncmp m1 p m2 q n = 0 ↔ cstrn (Z.to_nat n) m1 p = cstrn (Z.to_nat n) m2 q.
Proof. apply strncmp_loop_zero. Qed.

Lemma strncpy_pad_spec k m s b :
  ld8 (strncpy_pad k m s) b
  = if (s <=? b) && (b <? s + Z.of_nat k) then 0 else ld8 m b.
Proof.
  revert m s; induction k as [|k IH]; intros m s; cbn [strncpy_pad].
  - case_test; done || lia.
  - rewrite IH. destruct (decide (b = s)) as [->|];
      [rewrite ld8_st8_eq|rewrite ld8_st8_ne by done];
      repeat case_test; done || lia.
Qed.

Lemma strncpy_loop_spec k m s mt t b :
  ld8 (strncpy_loop k m s mt t) b
  = if (s <=? b) && (b <? s + Z.of_nat k) then nth (Z.to_nat (b - s)) (cstrn k mt t) 0
    else ld8 m b.
Proof.
  revert m s t; induction k as [|k IH]; intros m s t; cbn [strncpy_loop cstrn].
  - case_test; done || lia.
  - destruct (ld8 mt t =? 0) eqn:E; cbn [negb]; destruct_bool_tests.
    + rewrite strncpy_pad_spec, E. destruct (decide (b = s)) as [->|];
        [rewrite ld8_st8_eq, Z.sub_diag|rewrite ld8_st8_ne by done];
        repeat case_test; try lia; try done; by destruct (Z.to_nat (b - s)).
    + rewrite IH. destruct (decide (b = s)) as [->|].
      * rewrite ld8_st8_eq, Z.sub_diag, Z.mod_small by apply ld8_range.
        repeat case_test; done || lia.
      * rewrite ld8_st8_ne by done.
        destruct (decide (s + 1 ≤ b)).
        -- replace (Z.to_nat (b - s)) with (S (Z.to_nat (b - (s + 1)))) by lia.
           cbn [nth]. repeat case_test; done || lia.
        -- repeat case_test; done || lia.
Qed.

Lemma cstrn_nul_after n m p i :
  (length (cstrn n m p) ≤ i)%nat → nth i (cstrn n m p) 0 = 0.
Proof. apply nth_overflow. Qed.

Lemma strncpy_string m s mt t n :
  0 ≤ n →
  cstrn (Z.to_nat n) (strncpy m s mt t n) s = cstrn (Z.to_nat n) mt t.
Proof.
  intros Hn. pose proof (cstrn_length (Z.to_nat n) mt t).
  apply cstrn_intro; [done| |]; unfold strncpy.
  - intros i Hi. destruct (cstrn_nth (Z.to_nat n) mt t i Hi) as [_ ?].
    rewrite strncpy_loop_spec. repeat case_test; try lia.
    by replace (s + Z.of_nat i - s) with (Z.of_nat i) by lia; rewrite Nat2Z.id.
  - intros. rewrite strncpy_loop_spec. repeat case_test; try lia.
    apply cstrn_nul_after. lia.
Qed.

(** A name stored with [strncpy] compares equal under [strncmp] to the
    name it was copied from, and [strncpy] writes only the [n] bytes at [s]. *)
Theorem strncpy_strncmp m s mt t n :
  0 ≤ n →
  strncmp (strncpy m s mt t n) s mt t n = 0 ∧
  (∀ b, b < s ∨ s + n ≤ b → ld8 (strncpy m s mt t n) b = ld8 m b).
Proof.
  intros Hn. split.
  - apply strncmp_loop_zero. by apply strncpy_string.
  - intros b Hb. unfold strncpy. rewrite strncpy_loop_spec.
    case_test; done || lia.
Qed.

Lemma strncpy_strncmp_witness :
  strncmp (strncpy (fun _ => 7) 40 (fun a => if a =? 2 then 0 else 65) 0 14) 40
          (fun a => if a =? 2 then 0 else 65) 0 14 = 0.
Proof. apply (strncpy_strncmp (fun _ => 7) 40 (fun a => if a =? 2 then 0 else 65) 0 14). lia. Defined.

Lemma safestrcpy_loop_spec k m s mt t :
  (0 < k)%nat →
  let r := safestrcpy_loop k m s mt t in
  let l := cstrn (k - 1) mt t in
  (∀ i, (i < length l)%nat → ld8 r (s + Z.of_nat i) = nth i l 0) ∧
  ld8 r (s + Z.of_nat (length l)) = 0 ∧
  (∀ b, b < s ∨ s + Z.of_nat k ≤ b → ld8 r b = ld8 m b) ∧
  (∀ b, b < s → ld8 r b = ld8 m b).
Proof.
  revert m s t; induction k as [|k IH]; intros m s t Hk; [lia|].
  destruct k as [|k]; cbn [safestrcpy_loop].
  - simpl. rewrite Z.add_0_r, ld8_st8_eq. repeat split; try lia; intros;
      rewrite ld8_st8_ne by lia; done.
  - replace (S (S k) - 1)%nat with (S k) by lia. cbn [cstrn].
    destruct (ld8 mt t =? 0) eqn:E; cbn [negb]; destruct_bool_tests.
    + cbn [length]. rewrite Z.add_0_r, E. repeat split; try lia; intros.
      * rewrite ld8_st8_ne, ld8_st8_eq by lia. done.
      * rewrite !ld8_st8_ne by lia. done.
      * rewrite !ld8_st8_ne by lia. done.
    + specialize (IH (st8 m s (ld8 mt t)) (s + 1) (t + 1) ltac:(lia)).
      replace (S k - 1)%nat with k in IH by lia. cbv zeta in IH.
      destruct IH as (H1 & H2 & H3 & H4). cbn [length].
      repeat split.
      * intros [|i] Hi; cbn [nth].
        -- rewrite Z.add_0_r, H4, ld8_st8_eq by lia. apply Z.mod_small, ld8_range.
        -- rewrite <- H1 by lia. f_equal. lia.
      * etrans; [|exact H2]. f_equal. lia.
      * intros. rewrite H3, ld8_st8_ne by lia. done.
      * intros. rewrite H4, ld8_st8_ne by lia. done.
Qed.

(** for a positive size [safestrcpy] always leaves a NUL-terminated
    string inside the [n] bytes at [s]: the source string cut at [n - 1]
    bytes; bytes outside the buffer are untouched. *)
Theorem safestrcpy_terminates m s mt t n :
  0 < n →
  let r := safestrcpy m s mt t n in
  cstrn (Z.to_nat n) r s = cstrn (Z.to_nat (n - 1)) mt t ∧
  (∃ i, 0 ≤ i < n ∧ ld8 r (s + i) = 0) ∧
  (∀ b, b < s ∨ s + n ≤ b → ld8 r b = ld8 m b).
Proof.
  intros Hn r. unfold r, safestrcpy. rewrite (proj2 (Z.leb_gt n 0)) by lia.
  destruct (safestrcpy_loop_spec (Z.to_nat n) m s mt t ltac:(lia)) as (H1 & H2 & H3 & _).
  replace (Z.to_nat n - 1)%nat with (Z.to_nat (n - 1)) in * by lia.
  pose proof (cstrn_length (Z.to_nat (n - 1)) mt t). repeat split.
  - apply cstrn_intro; [lia| |done]. intros i Hi. split; [by apply H1|].
    by apply cstrn_nth.
  - exists (Z.of_nat (length (cstrn (Z.to_nat (n - 1)) mt t))). split; [lia|done].
  - intros b Hb. apply H3. lia.
Qed.

Lemma safestrcpy_terminates_witness :
  cstrn 4 (safestrcpy (fun _ => 9) 0 (fun _ => 65) 100 4) 0 = [65; 65; 65].
Proof. apply (safestrcpy_terminates (fun _ => 9) 0 (fun _ => 65) 100 4). lia. Defined.

(** ** strlen *)

Lemma strlen_loop_spec fuel m s n k :
  (k < fuel)%nat →
  (∀ i, (i < k)%nat → ld8 m (s + n + Z.of_nat i) ≠ 0) →
  ld8 m (s + n + Z.of_nat k) = 0 →
  strlen_loop fuel m s n = Some (n + Z.of_nat k).
Proof.
  revert n k; induction fuel as [|f IH]; intros n k Hf Hnz Hz; [lia|].
  cbn [strlen_loop]. destruct k as [|k].
  - rewrite Z.add_0_r in Hz. rewrite Hz. simpl. f_equal. lia.
  - pose proof (Hnz 0%nat ltac:(lia)) as H0. rewrite Z.add_0_r in H0.
    rewrite (proj2 (Z.eqb_neq _ _) H0).
    rewrite (IH (n + 1) k); [f_equal; lia|lia| |].
    + intros i Hi. replace (s + (n + 1) + Z.of_nat i) with (s + n + Z.of_nat (S i)) by lia.
      apply Hnz. lia.
    + by replace (s + (n + 1) + Z.of_nat k) with (s + n + Z.of_nat (S k)) by lia.
Qed.

Lemma strlen_cstrn fuel m s :
  (length (cstrn fuel m s) < fuel)%nat →
  strlen fuel m s = Some (Z.of_nat (length (cstrn fuel m s))).
Proof.
  intros H. unfold strlen. rewrite (strlen_loop_spec _ _ _ _ (length (cstrn fuel m s))).
  - done.
  - done.
  - intros i Hi. rewrite Z.add_0_r. destruct (cstrn_nth fuel m s i Hi) as [<- ?]. done.
  - rewrite Z.add_0_r. clear -H. revert s H. induction fuel as [|f IH]; intros s H; [lia|].
    cbn [cstrn] in *. case_test; [simpl; by rewrite Z.add_0_r|].
    cbn [length] in *. etrans; [|apply (IH (s + 1)); lia]. f_equal. lia.
Qed.
