(* ===== verification/Ulib.v ===== *)
(** * C library of the user programs (user/ulib.c)

    String and memory routines on the memory of a process, and the routines
    that use system calls, against an interface [Os] to the kernel: a user
    program sees the kernel through the results of its calls.  [char] is
    unsigned, as in the RISC-V ABI. *)

From S2P Require Import Prelude Mem Kstring.

(** ** System calls

    [W] is the state of the world outside the program.  [read] returns its
    result with the bytes it has put into the buffer; [fstat] the fields of
    [struct stat]. *)
Record stat := mk_stat { st_dev : Z; st_ino : Z; st_type : Z; st_nlink : Z; st_size : Z }.

Class Os (W : Type) := {
  sys_read : Z → Z → M W (Z * list Z);
  sys_write : Z → list Z → M W Z;
  sys_open : list Z → Z → M W Z;
  sys_close : Z → M W Z;
  sys_fstat : Z → M W (Z * stat)
}.

Definition O_RDONLY : Z := 0.

(** ** Strings *)

(** while(( *s++ = *t++) != 0) ; *)
Fixpoint strcpy (fuel : nat) (m : mem) (s t : Z) : option mem :=
  match fuel with
  | O => None
  | S f =>
      let c := ld8 m t in
      let m := st8 m s c in
      if c =? 0 then Some m else strcpy f m (s + 1) (t + 1)
  end.

(** while( *p && *p == *q) p++, q++;  return (uchar)*p - (uchar)*q; *)
Fixpoint strcmp (fuel : nat) (m : mem) (p q : Z) : option Z :=
  match fuel with
  | O => None
  | S f =>
      if negb (ld8 m p =? 0) && (ld8 m p =? ld8 m q) then strcmp f m (p + 1) (q + 1)
      else Some (ld8 m p - ld8 m q)
  end.

(** for(n = 0; s[n]; n++) ; *)
Fixpoint strlen_loop (fuel : nat) (m : mem) (s n : Z) : option Z :=
  match fuel with
  | O => None
  | S f => if ld8 m (s + n) =? 0 then Some (u32 n) else strlen_loop f m s (i32 (n + 1))
  end.
Definition strlen (fuel : nat) (m : mem) (s : Z) : option Z := strlen_loop fuel m s 0.

(** for(i = 0; i < n; i++) cdst[i] = c; *)
Fixpoint memset_loop (k : nat) (m : mem) (dst c i : Z) : mem :=
  match k with
  | O => m
  | S k' => memset_loop k' (st8 m (dst + i) c) dst c (i + 1)
  end.
Definition memset (m : mem) (dst c n : Z) : mem := memset_loop (Z.to_nat n) m dst c 0.

(** for(; *s; s++) if( *s == c) return s;  return 0; *)
Fixpoint strchr (fuel : nat) (m : mem) (s c : Z) : option Z :=
  match fuel with
  | O => None
  | S f => if ld8 m s =? 0 then Some 0 else if ld8 m s =? u8 c then Some s else strchr f m (s + 1) c
  end.

(** while(n-- > 0) *dst++ = *src++; *)
Fixpoint memmove_up (k : nat) (m : mem) (dst src : Z) : mem :=
  match k with
  | O => m
  | S k' => memmove_up k' (st8 m dst (ld8 m src)) (dst + 1) (src + 1)
  end.
(** while(n-- > 0) *--dst = *--src; *)
Fixpoint memmove_down (k : nat) (m : mem) (dst src : Z) : mem :=
  match k with
  | O => m
  | S k' => memmove_down k' (st8 m (dst - 1) (ld8 m (src - 1))) (dst - 1) (src - 1)
  end.
Definition memmove (m : mem) (dst src n : Z) : mem :=
  if dst <? src then memmove_up (Z.to_nat n) m dst src
  else memmove_down (Z.to_nat n) m (dst + n) (src + n).

(** while(n-- > 0){ if( *p1 != *p2) return *p1 - *p2; p1++; p2++; } return 0; *)
Fixpoint memcmp_loop (k : nat) (m : mem) (p1 p2 : Z) : Z :=
  match k with
  | O => 0
  | S k' =>
      if negb (ld8 m p1 =? ld8 m p2) then ld8 m p1 - ld8 m p2
      else memcmp_loop k' m (p1 + 1) (p2 + 1)
  end.
Definition memcmp (m : mem) (s1 s2 n : Z) : Z := memcmp_loop (Z.to_nat n) m s1 s2.

Definition memcpy (m : mem) (dst src n : Z) : mem := memmove m dst src (i32 n).

(** atoi, of the bytes of a string: the version with SNU defined. *)
Definition is_digit (c : Z) : bool := (48 <=? c) && (c <=? 57).
Fixpoint atoi_loop (n : Z) (s : list Z) : Z :=
  match s with
  | c :: s' => if is_digit c then atoi_loop (i32 (n * 10 + c - 48)) s' else n
  | [] => n
  end.
Definition atoi (s : list Z) : Z :=
  match s with
  | c :: s' => if c =? 45 then i32 (-1 * atoi_loop 0 s') else i32 (1 * atoi_loop 0 s)
  | [] => 0
  end.

(** ** Routines with system calls *)
Section os.
Context {W : Type} `{Os W}.

(** The result is the string put into [buf]; the loop reads one byte at a
    time, and stops at [max - 1] bytes or after the end of a line. *)
Fixpoint gets_loop (k : nat) : M W (list Z) :=
  match k with
  | O => ret []
  | S k' =>
      do '(cc, c) <- sys_read 0 1;
      if cc <? 1 then ret []
      else
        let c := nth 0 c 0 in
        if (c =? 10) || (c =? 13) then ret [c]
        else do rest <- gets_loop k'; ret (c :: rest)
  end.
Definition gets (max : Z) : M W (list Z) := gets_loop (Z.to_nat (max - 1)).

(** The function [stat]; it leaves [*st] as it is when [open] fails. *)
Definition stat_path (n : list Z) : M W (Z * option stat) :=
  do fd <- sys_open n O_RDONLY;
  if fd <? 0 then ret (-1, None)
  else
    do '(r, st) <- sys_fstat fd;
    do! sys_close fd;
    ret (r, Some st).

End os.

(** ** Theorems *)

(** The string [l] is at [a], with its terminator. *)
Definition is_cstr (m : mem) (a : Z) (l : list Z) : Prop :=
  (∀ i, (i < length l)%nat → ld8 m (a + Z.of_nat i) = nth i l 0 ∧ nth i l 0 ≠ 0) ∧
  ld8 m (a + Z.of_nat (length l)) = 0.

Lemma is_cstr_cons m a c l : is_cstr m a (c :: l) ↔ ld8 m a = c ∧ c ≠ 0 ∧ is_cstr m (a + 1) l.
Proof.
  unfold is_cstr. split.
  - intros [Hl H0]. destruct (Hl O) as [Hc Hne]; [cbn; lia|]. rewrite Z.add_0_r in Hc.
    split; [done|]. split; [done|]. split.
    + intros i Hi. destruct (Hl (S i)) as [H1 H2]; [cbn; lia|]. split; [|done].
      etrans; [|exact H1]. f_equal. lia.
    + etrans; [|exact H0]. f_equal. cbn [length]. lia.
  - intros (Hc & Hne & Hl & H0). split.
    + intros [|i] Hi; [rewrite Z.add_0_r; done|]. destruct (Hl i) as [H1 H2]; [cbn in Hi; lia|].
      split; [|done]. cbn [nth].
      etrans; [|exact H1]. f_equal. lia.
    + etrans; [|exact H0]. f_equal. cbn [length]. lia.
Qed.

Lemma is_cstr_nil m a : is_cstr m a [] ↔ ld8 m a = 0.
Proof. unfold is_cstr. cbn. rewrite Z.add_0_r. split; [by intros []|]. intros. split; [lia|done]. Qed.

(** The loops end when there is a terminator. *)
Lemma ustrlen_loop_spec fuel m s n l :
  is_cstr m (s + n) l → 0 ≤ n → n + Z.of_nat (length l) < 2 ^ 31 → (length l < fuel)%nat →
  strlen_loop fuel m s n = Some (n + Z.of_nat (length l)).
Proof.
  revert n l; induction fuel as [|f IH]; intros n l Hl Hn Hmax Hf; [lia|]. cbn [strlen_loop].
  destruct l as [|c l]; [apply is_cstr_nil in Hl|apply is_cstr_cons in Hl as (Hc & Hne & Hl)].
  - rewrite Hl. cbn. rewrite u32_small by (cbn in Hmax; lia). f_equal. lia.
  - rewrite Hc, (proj2 (Z.eqb_neq _ _)) by done. cbn in Hmax, Hf. rewrite i32_small by lia.
    rewrite (IH (n + 1) l); [f_equal; cbn; lia|by rewrite Z.add_assoc|lia..].
Qed.

Lemma strcmp_spec fuel m p q l1 l2 :
  is_cstr m p l1 → is_cstr m q l2 → (length l1 < fuel)%nat →
  ∃ r, strcmp fuel m p q = Some r ∧ (r = 0 ↔ l1 = l2).
Proof.
  revert p q l1 l2; induction fuel as [|f IH]; intros p q l1 l2 H1 H2 Hf; [lia|]. cbn [strcmp].
  destruct l1 as [|c1 l1]; [apply is_cstr_nil in H1|apply is_cstr_cons in H1 as (Hc1 & Hne1 & H1)];
    (destruct l2 as [|c2 l2]; [apply is_cstr_nil in H2|apply is_cstr_cons in H2 as (Hc2 & Hne2 & H2)]).
  - rewrite H1, H2. cbn. by exists 0.
  - rewrite H1, Hc2. cbn [negb Z.eqb andb]. exists (0 - c2). split; [done|]. split; [lia|done].
  - rewrite Hc1, H2, (proj2 (Z.eqb_neq c1 0)) by done. cbn [negb andb].
    exists (c1 - 0). split; [done|]. split; [lia|done].
  - rewrite Hc1, Hc2, (proj2 (Z.eqb_neq c1 0)) by done. cbn [negb andb].
    destruct (Z.eqb_spec c1 c2) as [->|Hne].
    + destruct (IH (p + 1) (q + 1) l1 l2) as (r & -> & Hr); [done..|cbn in Hf; lia|].
      exists r. split; [done|]. rewrite Hr. naive_solver.
    + exists (c1 - c2). split; [done|]. split; [lia|]. intros [=]. lia.
Qed.

Lemma strchr_spec fuel m s c l :
  is_cstr m s l → 0 < c < 256 → (length l < fuel)%nat →
  strchr fuel m s c = Some (match list_find (eq c) l with Some (i, _) => s + Z.of_nat i | None => 0 end).
Proof.
  intros Hl Hc Hf. assert (Hu : u8 c = c) by (apply Z.mod_small; lia).
  revert s l Hl Hf; induction fuel as [|f IH]; intros s l Hl Hf; [lia|]. cbn [strchr].
  destruct l as [|x l]; [apply is_cstr_nil in Hl; by rewrite Hl|].
  apply is_cstr_cons in Hl as (Hx & Hne & Hl). rewrite Hx, Hu, (proj2 (Z.eqb_neq x 0)) by done.
  cbn [list_find]. destruct (Z.eqb_spec x c) as [->|Hxc].
  - rewrite decide_True by done. f_equal. lia.
  - rewrite decide_False by congruence. rewrite (IH (s + 1) l Hl) by (cbn in Hf; lia).
    destruct (list_find (eq c) l) as [[i y]|]; cbn; [f_equal; lia|done].
Qed.

(** The copy, when the string and its terminator lie outside the target. *)
Lemma strcpy_spec fuel m s t l :
  is_cstr m t l → (length l < fuel)%nat →
  s + Z.of_nat (length l) < t ∨ t + Z.of_nat (length l) < s →
  ∃ m', strcpy fuel m s t = Some m' ∧ is_cstr m' s l ∧
    ∀ b, b < s ∨ s + Z.of_nat (length l) < b → ld8 m' b = ld8 m b.
Proof.
  revert m s t l; induction fuel as [|f IH]; intros m s t l Hl Hf Hd; [lia|]. cbn [strcpy].
  destruct l as [|c l]; [apply is_cstr_nil in Hl|apply is_cstr_cons in Hl as (Hc & Hne & Hl)].
  - rewrite Hl. cbn. eexists. split; [done|]. split.
    + apply is_cstr_nil. by rewrite ld8_st8_eq.
    + intros b Hb. apply ld8_st8_ne. lia.
  - rewrite Hc, (proj2 (Z.eqb_neq c 0)) by done. cbn [length] in *.
    assert (Hc8 : 0 ≤ c < 256) by (rewrite <- Hc; apply ld8_range).
    destruct (IH (st8 m s c) (s + 1) (t + 1) l) as (m' & -> & Hs & Hout); [|lia..|].
    { destruct Hl as [H1 H2]. split; [intros i Hi; rewrite ld8_st8_ne by lia; auto|].
      rewrite ld8_st8_ne by lia. done. }
    eexists. split; [done|]. split.
    + apply is_cstr_cons. rewrite Hout, ld8_st8_eq, Z.mod_small by lia. done.
    + intros b Hb. rewrite Hout, ld8_st8_ne by lia. done.
Qed.

Lemma memmove_up_eq k m d s : memmove_up k m d s = memmove_forward k m d s.
Proof. revert m d s; induction k as [|k IH]; intros; cbn; [done|apply IH]. Qed.
Lemma memmove_down_eq k m d s : memmove_down k m d s = memmove_backward k m d s.
Proof. revert m d s; induction k as [|k IH]; intros; cbn; [done|apply IH]. Qed.

Lemma user_memmove_copy m dst src n b :
  0 ≤ n → ld8 (memmove m dst src n) b = ld8 (copy m dst src n) b.
Proof.
  intros Hn. unfold memmove. case_test.
  - rewrite memmove_up_eq, memmove_forward_spec, Z2Nat.id by lia. done.
  - rewrite memmove_down_eq. rewrite <- (Z2Nat.id n) at 2 3 by lia.
    rewrite memmove_backward_spec, Z2Nat.id by lia. done.
Qed.

(** The kernel's memmove and the user library's, which choose the
    direction of copying by different tests, have the same effect on memory,
    that of moving the bytes through a temporary buffer. *)
Theorem memmove_user_kernel m dst src n b :
  0 ≤ n →
  ld8 (memmove m dst src n) b = ld8 (Kstring.memmove m dst src n) b ∧
  ld8 (Kstring.memmove m dst src n) b = ld8 (copy m dst src n) b.
Proof. intros Hn. by rewrite user_memmove_copy, memmove_copy. Qed.

Lemma memmove_user_kernel_witness :
  ld8 (memmove (fun a => a) 3 1 4) 5 = 3 ∧ ld8 (Kstring.memmove (fun a => a) 3 1 4) 5 = 3.
Proof. destruct (memmove_user_kernel (fun a => a) 3 1 4 5) as [-> ->]; [lia|]. split; reflexivity. Defined.
