(* ===== verification/Printf.v ===== *)
(** * Formatted output (user/printf.c, kernel/printf.c)

    Both printf's walk over the format; the user's writes each byte with a
    call of [write], the kernel's gives each byte to [consputc].  A format is
    the list of its bytes; the arguments are where the calling convention
    puts them, in consecutive 8-byte slots of memory from [ap] on. *)

From S2P Require Import Prelude Mem Kstring Ulib.

Definition bytes (s : string) : list Z := map (fun c => Z.of_N (Ascii.N_of_ascii c)) (String.list_ascii_of_string s).

Definition percent : Z := 37.

(** ** Numbers

    do { buf[i++] = digits[x % base]; } while((x /= base) != 0); *)
Fixpoint digits_of (fuel : nat) (digits : list Z) (base x : Z) : list Z :=
  match fuel with
  | O => []
  | S f =>
      let d := nth (Z.to_nat (x mod base)) digits 0 in
      if x / base =? 0 then [d] else d :: digits_of f digits base (x / base)
  end.

(** The array [buf] when the output loop starts. *)
Definition int_buf (digits : list Z) (xx base : Z) (sgn : bool) : list Z :=
  let neg := sgn && (xx <? 0) in
  let x := if neg then u32 (- xx) else u32 xx in
  digits_of 32 digits base x ++ if neg then [45] else [].

(** The 16 digits of [printptr]: for(i = 0; i < 16; i++, x <<= 4) *)
Fixpoint ptr_digits (k : nat) (digits : list Z) (x : Z) : list Z :=
  match k with
  | O => []
  | S k' => nth (Z.to_nat (Z.shiftr x 60)) digits 0 :: ptr_digits k' digits (u64 (Z.shiftl x 4))
  end.

(** va_arg(ap, int), va_arg(ap, uint) and va_arg(ap, uint64). *)
Definition va_int (m : mem) (ap : Z) : Z := i32 (ld64 m ap).
Definition va_uint (m : mem) (ap : Z) : Z := u32 (ld64 m ap).
Definition va_uint64 (m : mem) (ap : Z) : Z := ld64 m ap.

Module User.
Definition digits : list Z := bytes "0123456789ABCDEF".

Section os.
Context {W : Type} `{Os W}.

Definition putc (fd c : Z) : M W unit := do! sys_write fd [u8 c]; ret tt.

Fixpoint putcs (fd : Z) (l : list Z) : M W unit :=
  match l with [] => ret tt | c :: l' => do! putc fd c; putcs fd l' end.

(** while(--i >= 0) putc(fd, buf[i]); *)
Definition printint (fd xx base : Z) (sgn : bool) : M W unit :=
  putcs fd (rev (int_buf digits xx base sgn)).

Definition printptr (fd x : Z) : M W unit :=
  do! putc fd 48; do! putc fd 120; putcs fd (ptr_digits 16 digits x).

(** while( *s != 0){ putc(fd, *s); s++; } *)
Fixpoint put_string (fuel : nat) (m : mem) (fd s : Z) : M W unit :=
  match fuel with
  | O => out_of_fuel
  | S f =>
      let c := ld8 m s in
      if c =? 0 then ret tt else do! putc fd c; put_string f m fd (s + 1)
  end.

(** The loop of [vprintf]; [state] is 0 or '%'.  [fuel] bounds the length of
    the strings among the arguments. *)
Fixpoint vprintf_loop (fuel : nat) (m : mem) (fd : Z) (fmt : list Z) (ap state : Z) : M W unit :=
  match fmt with
  | [] => ret tt
  | c :: fmt' =>
      if state =? 0 then
        if c =? percent then vprintf_loop fuel m fd fmt' ap percent
        else do! putc fd c; vprintf_loop fuel m fd fmt' ap state
      else if c =? 100 then
        do! printint fd (va_int m ap) 10 true; vprintf_loop fuel m fd fmt' (ap + 8) 0
      else if c =? 108 then
        do! printint fd (i32 (va_uint64 m ap)) 10 false; vprintf_loop fuel m fd fmt' (ap + 8) 0
      else if c =? 120 then
        do! printint fd (va_int m ap) 16 false; vprintf_loop fuel m fd fmt' (ap + 8) 0
      else if c =? 112 then
        do! printptr fd (va_uint64 m ap); vprintf_loop fuel m fd fmt' (ap + 8) 0
      else if c =? 115 then
        let s := va_uint64 m ap in
        do! (if s =? 0 then putcs fd (bytes "(null)") else put_string fuel m fd s);
        vprintf_loop fuel m fd fmt' (ap + 8) 0
      else if c =? 99 then
        do! putc fd (va_uint m ap); vprintf_loop fuel m fd fmt' (ap + 8) 0
      else if c =? percent then
        do! putc fd c; vprintf_loop fuel m fd fmt' ap 0
      else
        do! putc fd percent; do! putc fd c; vprintf_loop fuel m fd fmt' ap 0
  end.
Definition vprintf (fuel : nat) (m : mem) (fd : Z) (fmt : list Z) (ap : Z) : M W unit :=
  vprintf_loop fuel m fd fmt ap 0.
Definition fprintf := vprintf.
Definition printf (fuel : nat) (m : mem) (fmt : list Z) (ap : Z) : M W unit := vprintf fuel m 1 fmt ap.
End os.
End User.

Module Kernel.
Definition digits : list Z := bytes "0123456789abcdef".

(** The bytes given to [consputc]. *)
Definition printint (xx base : Z) (sign : bool) : list Z := rev (int_buf digits xx base sign).
Definition printptr (x : Z) : list Z := [48; 120] ++ ptr_digits 16 digits x.

Fixpoint string_at (fuel : nat) (m : mem) (s : Z) : option (list Z) :=
  match fuel with
  | O => None
  | S f =>
      let c := ld8 m s in
      if c =? 0 then Some [] else l ← string_at f m (s + 1); Some (c :: l)
  end.

(** What one conversion prints and how many arguments it takes. *)
Definition conversion (fuel : nat) (m : mem) (c ap : Z) : option (list Z * Z) :=
  if c =? 100 then Some (printint (va_int m ap) 10 true, 8)
  else if c =? 120 then Some (printint (va_int m ap) 16 true, 8)
  else if c =? 112 then Some (printptr (va_uint64 m ap), 8)
  else if c =? 115 then
    let s := va_uint64 m ap in
    l ← (if s =? 0 then Some (bytes "(null)") else string_at fuel m s); Some (l, 8)
  else if c =? percent then Some ([percent], 0)
  else Some ([percent; c], 0).

(** for(i = 0; (c = fmt[i] & 0xff) != 0; i++) *)
Fixpoint printf (fuel : nat) (m : mem) (fmt : list Z) (ap : Z) : option (list Z) :=
  match fmt with
  | [] => Some []
  | c :: fmt1 =>
      if negb (c =? percent) then l ← printf fuel m fmt1 ap; Some (c :: l)
      else
        match fmt1 with
        | [] => Some []
        | c :: fmt2 =>
            '(out, n) ← conversion fuel m c ap;
            l ← printf fuel m fmt2 (ap + n);
            Some (out ++ l)
        end
  end.

(** What [panic] prints before it stops: the message is itself a format. *)
Definition panic_output (fuel : nat) (m : mem) (s : list Z) (ap : Z) : option (list Z) :=
  a ← printf fuel m (bytes "panic: ") 0;
  b ← printf fuel m s ap;
  c ← printf fuel m [10] 0;
  Some (a ++ b ++ c).
End Kernel.

(** ** Theorems *)

Lemma i32_mod x y : x mod 2 ^ 32 = y mod 2 ^ 32 → i32 x = i32 y.
Proof.
  intros E. unfold i32, sext. change (2 ^ (32 - 1)) with (2 ^ 31). f_equal.
  rewrite <- (Z.add_mod_idemp_l x), <- (Z.add_mod_idemp_l y) by lia. by rewrite E.
Qed.

Lemma i32_eqm x : i32 x mod 2 ^ 32 = x mod 2 ^ 32.
Proof.
  unfold i32, sext. change (2 ^ (32 - 1)) with (2 ^ 31).
  rewrite <- Zminus_mod_idemp_l, Z.mod_mod, Zminus_mod_idemp_l by lia. f_equal. lia.
Qed.

Lemma i32_range x : - 2 ^ 31 ≤ i32 x < 2 ^ 31.
Proof.
  unfold i32, sext. change (2 ^ (32 - 1)) with (2 ^ 31).
  pose proof (Z.mod_pos_bound (x + 2 ^ 31) (2 ^ 32)). lia.
Qed.

Lemma i32_step n c : i32 (i32 n * 10 + c - 48) = i32 (n * 10 + c - 48).
Proof.
  apply i32_mod. rewrite <- !Z.add_sub_assoc, <- (Z.add_mod_idemp_l (i32 n * 10)) by lia.
  rewrite <- Z.mul_mod_idemp_l, i32_eqm, Z.mul_mod_idemp_l, Z.add_mod_idemp_l by lia. done.
Qed.

(** The loop ends within the bound, and fits the array. *)
Lemma digits_length k fuel digits base x :
  1 < base → 0 ≤ x < base ^ Z.of_nat k → (0 < k ≤ fuel)%nat →
  (1 ≤ length (digits_of fuel digits base x) ≤ k)%nat.
Proof.
  intros Hb. revert fuel x; induction k as [|k IH]; intros fuel x Hx Hk; [lia|].
  destruct fuel as [|f]; [lia|]. cbn [digits_of]. case_test; [cbn; lia|]. cbn [length].
  rewrite Nat2Z.inj_succ, Z.pow_succ_r in Hx by lia.
  destruct k as [|k]; [exfalso; change (base ^ Z.of_nat 0) with 1 in Hx;
    rewrite Z.div_small in *; lia|].
  pose proof (Z.div_lt_upper_bound x base (base ^ Z.of_nat (S k)) ltac:(lia) ltac:(lia)).
  pose proof (Z.div_pos x base ltac:(lia) ltac:(lia)).
  specialize (IH f (x / base) ltac:(lia) ltac:(lia)). lia.
Qed.

Lemma dec_digit d : 0 ≤ d < 10 →
  nth (Z.to_nat d) User.digits 0 = 48 + d ∧ is_digit (48 + d) = true.
Proof.
  intros Hd. split.
  - assert (∀ k, (k < 10)%nat → nth k User.digits 0 = 48 + Z.of_nat k) as H.
    { intros k Hk. do 10 (destruct k as [|k]; [done|]). lia. }
    rewrite H, Z2Nat.id by lia. done.
  - unfold is_digit. rewrite (proj2 (Z.leb_le _ _)), (proj2 (Z.leb_le _ _)) by lia. done.
Qed.

(** Reading the digits back, most significant first. *)
Lemma atoi_digits k fuel x t :
  0 ≤ x < 10 ^ Z.of_nat k → (0 < k ≤ fuel)%nat →
  atoi_loop 0 (rev (digits_of fuel User.digits 10 x) ++ t) = atoi_loop (i32 x) t.
Proof.
  revert fuel x t; induction k as [|k IH]; intros fuel x t Hx Hk; [lia|].
  destruct fuel as [|f]; [lia|]. cbn [digits_of].
  destruct (dec_digit (x mod 10)) as [Hd1 Hd2]; [apply Z.mod_pos_bound; lia|]. rewrite Hd1.
  case_test.
  - cbn. rewrite Hd2. replace (x mod 10) with x by (rewrite Z.mod_small; lia || zdm).
    f_equal. f_equal. lia.
  - cbn [rev]. rewrite <- app_assoc. rewrite Nat2Z.inj_succ, Z.pow_succ_r in Hx by lia.
    destruct k as [|k]; [exfalso; change (10 ^ Z.of_nat 0) with 1 in Hx; zdm|].
    rewrite IH by ((split; [zdm|apply Z.div_lt_upper_bound; lia]) || lia). cbn. rewrite Hd2, i32_step.
    f_equal. f_equal. zdm.
Qed.



(** *** The two printf's *)

Section both.
Context {W : Type} `{Os W}.

Lemma putcs_app fd a b (w : W) : User.putcs fd (a ++ b) w = (do! User.putcs fd a; User.putcs fd b) w.
Proof.
  revert w; induction a as [|c a IH]; intros w; cbn [app User.putcs]; [done|].
  unfold bind. destruct (User.putc fd c w) as [[u w1]| | |]; [|done..]. apply IH.
Qed.

Lemma put_string_spec fuel m fd s out (w : W) :
  Kernel.string_at fuel m s = Some out → User.put_string fuel m fd s w = User.putcs fd out w.
Proof.
  revert s out w; induction fuel as [|f IH]; intros s out w; cbn; [done|].
  case_test; [by intros [= <-]|]. destruct (Kernel.string_at f m (s + 1)) as [l|] eqn:El; [|done].
  intros [= <-]. cbn [User.putcs]. unfold bind.
  destruct (User.putc fd (ld8 m s) w) as [[u w1]| | |]; [|done..]. by apply IH.
Qed.

Lemma dec_digits_same fuel x : 0 ≤ x →
  digits_of fuel User.digits 10 x = digits_of fuel Kernel.digits 10 x.
Proof.
  revert x; induction fuel as [|f IH]; intros x Hx; cbn [digits_of]; [done|].
  assert (∀ k, (k < 10)%nat → nth k User.digits 0 = nth k Kernel.digits 0) as Hd.
  { intros k Hk. do 10 (destruct k as [|k]; [done|]). lia. }
  pose proof (Z.mod_pos_bound x 10). rewrite Hd, IH by (lia || zdm). done.
Qed.

Lemma dec_buf_same xx sgn : int_buf User.digits xx 10 sgn = int_buf Kernel.digits xx 10 sgn.
Proof. unfold int_buf. rewrite dec_digits_same; [done|]. case_test; apply u32_range. Qed.

(** Formats without the conversions the two treat differently: %x (signed in
    the kernel), %p (the case of digits), %l and %c (unknown to the kernel). *)
Fixpoint common (conv : bool) (fmt : list Z) : Prop :=
  match fmt with
  | [] => True
  | c :: fmt' =>
      0 ≤ c < 256 ∧
      if conv then c ≠ 108 ∧ c ≠ 120 ∧ c ≠ 112 ∧ c ≠ 99 ∧ common false fmt'
      else common (c =? percent) fmt'
  end.

Lemma conversion_same fuel m fd c fmt ap out n (w : W) :
  Kernel.conversion fuel m c ap = Some (out, n) →
  c ≠ 108 → c ≠ 120 → c ≠ 112 → c ≠ 99 →
  User.vprintf_loop fuel m fd (c :: fmt) ap percent w =
    (do! User.putcs fd out; User.vprintf_loop fuel m fd fmt (ap + n) 0) w.
Proof.
  intros Hc H1 H2 H3 H4. unfold Kernel.conversion in Hc. cbn [User.vprintf_loop].
  change (percent =? 0) with false. cbv iota.
  rewrite (proj2 (Z.eqb_neq c 108)), (proj2 (Z.eqb_neq c 120)), (proj2 (Z.eqb_neq c 112)),
    (proj2 (Z.eqb_neq c 99)) by done.
  rewrite (proj2 (Z.eqb_neq c 120)), (proj2 (Z.eqb_neq c 112)) in Hc by done.
  destruct (c =? 100); [injection Hc as <- <-; unfold User.printint, Kernel.printint; by rewrite dec_buf_same|].
  destruct (c =? 115).
  { destruct (va_uint64 m ap =? 0); [injection Hc as <- <-; done|].
    destruct (Kernel.string_at fuel m (va_uint64 m ap)) as [l|] eqn:El; [|done].
    injection Hc as <- <-. unfold bind. by rewrite (put_string_spec _ _ _ _ _ _ El). }
  destruct (Z.eqb_spec c percent) as [->|]; injection Hc as <- <-; rewrite Z.add_0_r; cbn [User.putcs];
    unfold bind, ret; destruct (User.putc fd percent w) as [[? w1]| | |]; try done.
  by destruct (User.putc fd c w1) as [[? w2]| | |].
Qed.

(** On formats that use only %d, %s, %% and unknown conversions the
    user's printf makes exactly the writes, of one byte each, of the output
    of the kernel's printf. *)
Theorem printf_user_kernel fuel m fd fmt ap out (w : W) :
  common false fmt → Kernel.printf fuel m fmt ap = Some out →
  User.vprintf fuel m fd fmt ap w = User.putcs fd out w.
Proof.
  unfold User.vprintf. remember (length fmt) as n eqn:Hn.
  revert fmt ap out w Hn; induction n as [n IH] using lt_wf_ind; intros fmt ap out w -> Hc Hp.
  destruct fmt as [|c fmt1]; cbn in Hp; [by injection Hp as <-|].
  destruct Hc as [Hr Hc]. destruct (Z.eqb_spec c percent) as [->|Hne].
  - change (User.vprintf_loop fuel m fd (percent :: fmt1) ap 0 w)
      with (User.vprintf_loop fuel m fd fmt1 ap percent w).
    destruct fmt1 as [|c fmt2]; cbn [negb] in Hp; [by injection Hp as <-|].
    destruct Hc as (Hr2 & H1 & H2 & H3 & H4 & Hc).
    destruct (Kernel.conversion fuel m c ap) as [[o k]|] eqn:Eo; [|done]. cbn in Hp.
    destruct (Kernel.printf fuel m fmt2 (ap + k)) as [l|] eqn:El; [|done]. injection Hp as <-.
    rewrite (conversion_same fuel m fd c fmt2 ap o k), putcs_app by done. unfold bind.
    destruct (User.putcs fd o w) as [[u w1]| | |]; [|done..].
    by apply (IH (length fmt2)); [cbn; lia|..].
  - cbn [negb] in Hp. destruct (Kernel.printf fuel m fmt1 ap) as [l|] eqn:El; [|done].
    injection Hp as <-. cbn [User.vprintf_loop User.putcs]. cbn [Z.eqb].
    rewrite (proj2 (Z.eqb_neq c percent)) by done. unfold bind.
    destruct (User.putc fd c w) as [[u w1]| | |]; [|done..].
    by apply (IH (length fmt1)); [cbn; lia|..].
Qed.
End both.

(** A world in which [write] appends to the output. *)
#[local] Instance trace_os : Os (list Z) := {
  sys_read := fun _ _ => ret (0, []);
  sys_write := fun _ l w => Ok (Z.of_nat (length l), w ++ l);
  sys_open := fun _ _ => ret (-1);
  sys_close := fun _ => ret (-1);
  sys_fstat := fun _ => ret (-1, mk_stat 0 0 0 0 0)
}.

Lemma printf_user_kernel_witness :
  User.vprintf 0 (st64 (fun _ => 0) 64 (-7)) 1 (bytes "x=%d;") 64 [] = Ok (tt, bytes "x=-7;").
Proof.
  rewrite (printf_user_kernel 0 (st64 (fun _ => 0) 64 (-7)) 1 (bytes "x=%d;") 64 (bytes "x=-7;") []).
  - reflexivity.
  - cbn. repeat split; (done || lia).
  - vm_compute. reflexivity.
Defined.
