(* ===== verification/Grep.v ===== *)
(** * grep (user/grep.c)

    The regular-expression matcher is compared with a declarative semantics
    of its patterns; the loop over the input with the selection of matching
    lines, whatever pieces [read] returns the input in.  Strings are lists of
    their bytes, without the terminator. *)

From S2P Require Import Prelude Mem Kstring Ulib Printf.

Definition dot : Z := 46.
Definition star : Z := 42.
Definition caret : Z := 94.
Definition dollar : Z := 36.
Definition newline : Z := 10.

(** ** The matcher *)

(** do { if(matchhere(re, text)) return 1; } while( *text != 0 && ( *text++ == c || c == '.')); *)
Fixpoint matchstar (here : list Z → bool) (c : Z) (text : list Z) : bool :=
  if here text then true
  else match text with
       | [] => false
       | t :: text' => if (t =? c) || (c =? dot) then matchstar here c text' else false
       end.

Fixpoint matchhere (re text : list Z) : bool :=
  match re with
  | [] => true
  | c :: re1 =>
      match re1 with
      | s :: re2 =>
          if s =? star then matchstar (matchhere re2) c text
          else match text with
               | t :: text' => if (c =? dot) || (c =? t) then matchhere re1 text' else false
               | [] => false
               end
      | [] =>
          if c =? dollar then match text with [] => true | _ => false end
          else match text with
               | t :: text' => if (c =? dot) || (c =? t) then matchhere re1 text' else false
               | [] => false
               end
      end
  end.

(** do { if(matchhere(re, text)) return 1; } while( *text++ != 0); *)
Fixpoint match_from (re text : list Z) : bool :=
  if matchhere re text then true
  else match text with [] => false | _ :: text' => match_from re text' end.

(** The function [match]. *)
Definition re_match (re text : list Z) : bool :=
  match re with
  | c :: re' => if c =? caret then matchhere re' text else match_from re text
  | [] => match_from re text
  end.

(** ** The loop over the input *)

(** The line before the next newline and what follows it; [strchr] stops at
    a NUL, and the buffer ends with one. *)
Fixpoint find_line (p : list Z) : option (list Z * list Z) :=
  match p with
  | [] => None
  | c :: p' =>
      if c =? 0 then None
      else if c =? newline then Some ([], p')
      else match find_line p' with Some (l, q) => Some (c :: l, q) | None => None end
  end.

Section os.
Context {W : Type} `{Os W}.

(** The inner loop; the result is what memmove puts at the start of [buf].
    Every iteration takes at least the newline from [p]. *)
Fixpoint grep_lines (fuel : nat) (pattern p : list Z) : M W (list Z) :=
  match find_line p with
  | None => ret p
  | Some (l, q) =>
      match fuel with
      | O => out_of_fuel
      | S f =>
          do! (if re_match pattern l then do! sys_write 1 (l ++ [newline]); ret tt else ret tt);
          grep_lines f pattern q
      end
  end.

(** [buf] holds the list [b]; it has 1024 bytes. *)
Fixpoint grep (fuel : nat) (pattern : list Z) (fd : Z) (b : list Z) : M W unit :=
  match fuel with
  | O => out_of_fuel
  | S f =>
      do '(n, data) <- sys_read fd (1024 - Z.of_nat (length b) - 1);
      if 0 <? n then
        let b := b ++ data in
        do b <- grep_lines (length b) pattern b;
        grep f pattern fd b
      else ret tt
  end.

(** The status given to [exit]. *)
Fixpoint grep_files (fuel : nat) (pattern : list Z) (args : list (list Z)) : M W Z :=
  match args with
  | [] => ret 0
  | file :: args' =>
      do fd <- sys_open file 0;
      if fd <? 0 then
        do! User.putcs 1 (bytes "grep: cannot open " ++ file ++ [newline]);
        ret 1
      else
        do! grep fuel pattern fd [];
        do! sys_close fd;
        grep_files fuel pattern args'
  end.
Definition main (fuel : nat) (argv : list (list Z)) : M W Z :=
  match argv with
  | _ :: pattern :: [] => do! grep fuel pattern 0 []; ret 0
  | _ :: pattern :: args => grep_files fuel pattern args
  | _ => do! User.putcs 2 (bytes "usage: grep pattern [file ...]" ++ [newline]); ret 1
  end.
End os.

(** ** What a pattern means *)

(** A character of a pattern matches a character of the text. *)
Definition fits (c t : Z) : Prop := c = dot ∨ c = t.

Inductive item := One (c : Z) | Many (c : Z).

(** The items of a pattern after an initial ^, and whether it ends in $. *)
Fixpoint items (re : list Z) : list item * bool :=
  match re with
  | [] => ([], false)
  | c :: re1 =>
      match re1 with
      | s :: re2 =>
          if s =? star then let '(l, e) := items re2 in (Many c :: l, e)
          else let '(l, e) := items re1 in (One c :: l, e)
      | [] => if c =? dollar then ([], true) else ([One c], false)
      end
  end.

(** The strings of a sequence of items. *)
Fixpoint lang (l : list item) (t : list Z) : Prop :=
  match l with
  | [] => t = []
  | One c :: l' => ∃ x t', t = x :: t' ∧ fits c x ∧ lang l' t'
  | Many c :: l' => ∃ a t', t = a ++ t' ∧ Forall (fits c) a ∧ lang l' t'
  end.

(** A prefix of the text is matched, all of it if the pattern ends in $. *)
Definition prefix_matches (re text : list Z) : Prop :=
  ∃ t rest, text = t ++ rest ∧ lang (items re).1 t ∧ ((items re).2 = true → rest = []).

(** The pattern matches somewhere, or at the start if it begins with ^. *)
Definition matches (re text : list Z) : Prop :=
  match re with
  | c :: re' =>
      if c =? caret then prefix_matches re' text
      else ∃ pre suf, text = pre ++ suf ∧ prefix_matches re suf
  | [] => True
  end.

(** ** The matcher decides the meaning *)

Lemma fits_test c t : (c =? dot) || (c =? t) = true ↔ fits c t.
Proof. unfold fits. rewrite orb_true_iff, !Z.eqb_eq. done. Qed.

Lemma matchstar_spec here c text :
  matchstar here c text = true ↔ ∃ a rest, text = a ++ rest ∧ Forall (fits c) a ∧ here rest = true.
Proof.
  induction text as [|t text IH]; cbn [matchstar].
  - destruct (here []) eqn:E.
    + split; [|done]. intros _. by exists [], [].
    + split; [done|]. intros (a & rest & Heq & _ & Hr). symmetry in Heq.
      apply app_eq_nil in Heq as [_ ->]. congruence.
  - destruct (here (t :: text)) eqn:E.
    + split; [|done]. intros _. by exists [], (t :: text).
    + rewrite (orb_comm (t =? c)), (Z.eqb_sym t c).
      destruct ((c =? dot) || (c =? t)) eqn:Ef.
      * apply fits_test in Ef. rewrite IH. split.
        -- intros (a & rest & -> & Ha & Hr). exists (t :: a), rest.
           split; [done|]. split; [by constructor|done].
        -- intros ([|x a] & rest & Heq & Ha & Hr); cbn in Heq; [congruence|].
           injection Heq as -> ->. inversion Ha. by exists a, rest.
      * split; [done|]. intros ([|x a] & rest & Heq & Ha & Hr); cbn in Heq; [congruence|].
        injection Heq as -> ->. inversion Ha as [|?? Hx]; subst. apply fits_test in Hx. congruence.
Qed.

(** The cases of [matchhere] and of [items], by the first item. *)
Lemma matchhere_one c re text :
  (∀ re', re ≠ star :: re') → (c = dollar → re ≠ []) →
  matchhere (c :: re) text = match text with
    | t :: text' => if (c =? dot) || (c =? t) then matchhere re text' else false
    | [] => false
    end ∧ items (c :: re) = (One c :: (items re).1, (items re).2).
Proof.
  intros Hs Hd. destruct re as [|s re2].
  - cbn. destruct (Z.eqb_spec c dollar) as [->|]; [by destruct (Hd eq_refl)|done].
  - assert (s ≠ star) as Hne by (intros ->; by destruct (Hs re2)). apply Z.eqb_neq in Hne.
    change (items (c :: s :: re2)) with (if s =? star then let '(l, e) := items re2 in (Many c :: l, e)
      else let '(l, e) := items (s :: re2) in (One c :: l, e)).
    rewrite Hne. split; [|by destruct (items (s :: re2))]. set (re := s :: re2).
    change (matchhere (c :: re) text) with (if s =? star then matchstar (matchhere re2) c text
      else match text with
           | t :: text' => if (c =? dot) || (c =? t) then matchhere re text' else false
           | [] => false
           end). by rewrite Hne.
Qed.

Lemma matchhere_many c re text :
  matchhere (c :: star :: re) text = matchstar (matchhere re) c text ∧
  items (c :: star :: re) = (Many c :: (items re).1, (items re).2).
Proof. cbn. split; [done|]. by destruct (items re). Qed.

Lemma matchhere_spec re text : matchhere re text = true ↔ prefix_matches re text.
Proof.
  remember (length re) as n eqn:Hn. revert re text Hn.
  induction n as [n IH] using lt_wf_ind. intros re text ->. unfold prefix_matches.
  destruct re as [|c re1].
  { split; [|done]. intros _. exists [], text. done. }
  assert (Hst : (∃ re2, re1 = star :: re2) ∨ ∀ re2, re1 ≠ star :: re2).
  { destruct re1 as [|s re2]; [by right|]. destruct (Z.eq_dec s star) as [->|]; [left; by eexists|].
    right. congruence. }
  destruct Hst as [[re2 ->]|Hns].
  - destruct (matchhere_many c re2 text) as [-> ->]. rewrite matchstar_spec. cbn [fst snd lang].
    split.
    + intros (a & rest & -> & Ha & Hr). apply (IH (length re2)) in Hr; [|cbn; lia|done].
      destruct Hr as (t & rest' & -> & Hl & He). exists (a ++ t), rest'. rewrite <- app_assoc.
      split; [done|]. split; [|done]. by exists a, t.
    + intros (t & rest & -> & (a & t' & -> & Ha & Hl) & He). exists a, (t' ++ rest).
      rewrite app_assoc. do 2 (split; [done|]). apply (IH (length re2)); [cbn; lia|done|].
      by exists t', rest.
  - destruct (decide (c = dollar ∧ re1 = [])) as [[-> ->]|Hnd].
    { cbn. split.
      - destruct text; [|done]. intros _. by exists [], [].
      - intros (t & rest & -> & -> & He). by rewrite He. }
    destruct (matchhere_one c re1 text) as [-> ->]; [naive_solver..|]. cbn [fst snd lang].
    split.
    + destruct text as [|x text']; [done|]. destruct ((c =? dot) || (c =? x)) eqn:Ef; [|done].
      apply fits_test in Ef. intros Hr. apply (IH (length re1)) in Hr; [|cbn; lia|done].
      destruct Hr as (t & rest & -> & Hl & He). exists (x :: t), rest.
      split; [done|]. split; [|done]. by exists x, t.
    + intros (t & rest & -> & (x & t' & -> & Hf & Hl) & He). cbn.
      apply fits_test in Hf. rewrite Hf. apply (IH (length re1)); [cbn; lia|done|].
      by exists t', rest.
Qed.

Lemma match_from_spec re text :
  match_from re text = true ↔ ∃ pre suf, text = pre ++ suf ∧ prefix_matches re suf.
Proof.
  induction text as [|x text IH]; cbn [match_from].
  - destruct (matchhere re []) eqn:E.
    + split; [|done]. intros _. exists [], []. split; [done|]. by apply matchhere_spec.
    + split; [done|]. intros (pre & suf & Heq & Hs). symmetry in Heq.
      apply app_eq_nil in Heq as [_ ->]. apply matchhere_spec in Hs. congruence.
  - destruct (matchhere re (x :: text)) eqn:E.
    + split; [|done]. intros _. exists [], (x :: text). split; [done|]. by apply matchhere_spec.
    + rewrite IH. split; intros (pre & suf & Heq & Hs).
      * exists (x :: pre), suf. by rewrite Heq.
      * destruct pre as [|y pre]; cbn in Heq.
        -- subst suf. apply matchhere_spec in Hs. congruence.
        -- injection Heq as -> ->. by exists pre, suf.
Qed.

(** C27: grep's matcher decides whether a text contains a string of the
    pattern's language, with ^ and $ as anchors: its backtracking search is
    equivalent to the declarative meaning of the pattern. *)
Theorem match_decides re text : re_match re text = true ↔ matches re text.
Proof.
  unfold re_match, matches. destruct re as [|c re].
  - split; [done|]. intros _. destruct text; done.
  - destruct (c =? caret); [apply matchhere_spec|apply match_from_spec].
Qed.

(** ** The lines of the input *)

(** Complete lines, without their newlines, and the rest. *)
Fixpoint split_lines (inp : list Z) : list (list Z) * list Z :=
  match inp with
  | [] => ([], [])
  | c :: r =>
      let '(ls, t) := split_lines r in
      if c =? newline then ([] :: ls, t)
      else match ls with [] => ([], c :: t) | l :: ls' => ((c :: l) :: ls', t) end
  end.

(** The matching lines, with their newlines. *)
Definition selected (pattern : list Z) (ls : list (list Z)) : list Z :=
  concat (map (fun l => l ++ [newline]) (List.filter (re_match pattern) ls)).

Lemma split_lines_app p q :
  split_lines (p ++ q) =
  ((split_lines p).1 ++ (split_lines ((split_lines p).2 ++ q)).1, (split_lines ((split_lines p).2 ++ q)).2).
Proof.
  induction p as [|c p IH]; cbn [app split_lines].
  - cbn. by destruct (split_lines q).
  - rewrite IH. destruct (split_lines p) as [ls t]. cbn [fst snd].
    destruct (Z.eqb_spec c newline) as [->|Hne]; [done|]. destruct ls as [|l ls]; [|done].
    cbn [fst snd app split_lines]. rewrite (proj2 (Z.eqb_neq c newline)) by done.
    destruct (split_lines (t ++ q)) as [[|l' ls'] t']; done.
Qed.

Lemma split_lines_residue p : newline ∉ (split_lines p).2.
Proof.
  induction p as [|c p IH]; [apply not_elem_of_nil|]. cbn [split_lines].
  destruct (split_lines p) as [ls t]. cbn in IH. case_test; [done|]. destruct ls as [|l ls]; [|done].
  cbn. apply not_elem_of_cons. by split; [apply not_eq_sym|].
Qed.

(** Bytes without a newline only lengthen the first line. *)
Lemma split_lines_prefix t q : newline ∉ t →
  split_lines (t ++ q) = match split_lines q with
    | ([], r) => ([], t ++ r)
    | (l :: ls, r) => ((t ++ l) :: ls, r)
    end.
Proof.
  induction t as [|c t IH]; intros Ht; cbn [app split_lines].
  - by destruct (split_lines q) as [[|l ls] r].
  - apply not_elem_of_cons in Ht as [Hc Ht]. rewrite IH by done.
    rewrite (proj2 (Z.eqb_neq c newline)) by congruence. by destruct (split_lines q) as [[|l ls] r].
Qed.

Lemma find_line_some p l q :
  find_line p = Some (l, q) →
  split_lines p = (l :: (split_lines q).1, (split_lines q).2) ∧ (length q < length p)%nat ∧
  ∃ pre, p = pre ++ q.
Proof.
  revert l q; induction p as [|c p IH]; intros l q; cbn [find_line split_lines]; [done|].
  case_test; [done|]. case_test.
  - intros [= <- <-]. destruct (split_lines p) as [ls t]. split; [done|]. split; [cbn; lia|].
    by exists [c].
  - destruct (find_line p) as [[l' q']|] eqn:Ef; [|done]. intros [= <- <-].
    destruct (IH l' q' eq_refl) as (-> & Hlen & pre & ->). split; [done|]. split; [cbn; lia|].
    by exists (c :: pre).
Qed.

Lemma find_line_none p : 0 ∉ p → find_line p = None → split_lines p = ([], p).
Proof.
  induction p as [|c p IH]; intros Hp; cbn [find_line split_lines]; [done|].
  apply not_elem_of_cons in Hp as [Hc Hp]. rewrite (proj2 (Z.eqb_neq c 0)) by done.
  case_test; [done|]. destruct (find_line p) as [[l q]|]; [done|]. intros _. by rewrite IH.
Qed.

(** Input that [read] hands out in pieces: [sizes] are the lengths the calls
    are willing to return, everything after that. *)
Record stream := mk_stream { inp : list Z; sizes : list nat; out : list Z }.

Definition stream_read (n : Z) (w : stream) : list Z * stream :=
  let k := match sizes w with [] => Z.to_nat n | k :: _ => Nat.min k (Z.to_nat n) end in
  (take k (inp w), mk_stream (drop k (inp w)) (tl (sizes w)) (out w)).

#[export] Instance stream_os : Os stream := {
  sys_read := fun _ n w => let '(l, w') := stream_read n w in Ok ((Z.of_nat (length l), l), w');
  sys_write := fun _ l w => Ok (Z.of_nat (length l), mk_stream (inp w) (sizes w) (out w ++ l));
  sys_open := fun _ _ => ret (-1);
  sys_close := fun _ => ret (-1);
  sys_fstat := fun _ => ret (-1, mk_stat 0 0 0 0 0)
}.

Lemma grep_lines_spec fuel pattern p w :
  0 ∉ p → (length p ≤ fuel)%nat →
  grep_lines fuel pattern p w =
    Ok ((split_lines p).2, mk_stream (inp w) (sizes w) (out w ++ selected pattern (split_lines p).1)).
Proof.
  revert p w; induction fuel as [|f IH]; intros p w Hp Hf.
  - destruct p; [|cbn in Hf; lia]. cbn. unfold selected. cbn. rewrite app_nil_r. by destruct w.
  - cbn [grep_lines]. destruct (find_line p) as [[l q]|] eqn:Ef.
    + destruct (find_line_some p l q Ef) as (-> & Hlen & pre & ->).
      assert (Hq : 0 ∉ q) by (intros Hin; apply Hp, elem_of_app; by right).
      cbn [fst snd]. unfold selected. cbn [List.filter].
      destruct (re_match pattern l); cbn [bind sys_write stream_os ret]; unfold bind, ret; cbn;
        rewrite IH by (done || lia); cbn; unfold selected; [|done].
      by rewrite <- !app_assoc.
    + rewrite (find_line_none p Hp Ef). cbn. unfold selected. cbn. rewrite app_nil_r. by destruct w.
Qed.

(** Lines that fit the buffer, the unfinished one included. *)
Definition lines_fit (i : list Z) : Prop :=
  Forall (fun l => (length l < 1023)%nat) ((split_lines i).2 :: (split_lines i).1).

Lemma lines_fit_residue p q :
  lines_fit (p ++ q) → lines_fit ((split_lines p).2 ++ q) ∧ (length (split_lines p).2 < 1023)%nat.
Proof.
  unfold lines_fit. rewrite split_lines_app. cbn [fst snd]. intros [Ht Hl]%Forall_cons.
  apply Forall_app in Hl as [Hl1 Hl2]. split; [by constructor|].
  pose proof (split_lines_residue p) as Hn. revert Ht Hl2. rewrite split_lines_prefix by done.
  destruct (split_lines q) as [[|l ls] r]; cbn [fst snd]; intros Ht Hl2.
  - rewrite length_app in Ht. lia.
  - apply Forall_cons in Hl2 as [Hl2 _]. rewrite length_app in Hl2. lia.
Qed.

(** The loop: [b] is the unfinished line in the buffer. *)
Lemma grep_spec fuel pattern fd b w :
  0 ∉ b ++ inp w → newline ∉ b → lines_fit (b ++ inp w) → Forall (fun k => (0 < k)%nat) (sizes w) →
  (length (inp w) < fuel)%nat →
  ∃ w', grep fuel pattern fd b w = Ok (tt, w') ∧ inp w' = [] ∧
    out w' = out w ++ selected pattern (split_lines (b ++ inp w)).1.
Proof.
  revert b w; induction fuel as [|f IH]; intros b w H0 Hb Hfit Hsz Hf; [lia|].
  assert (Hlen : (length b < 1023)%nat).
  { unfold lines_fit in Hfit. revert Hfit. rewrite split_lines_prefix by done.
    destruct (split_lines (inp w)) as [[|l ls] r]; cbn [fst snd];
      intros [Ht Hl]%Forall_cons; [|apply Forall_cons in Hl as [Ht' _]; clear Ht; rename Ht' into Ht];
      rewrite length_app in Ht; lia. }
  cbn [grep]. cbn [sys_read stream_os]. unfold bind at 1. unfold stream_read.
  set (k := match sizes w with [] => _ | k :: _ => _ end).
  assert (Hk : (0 < k)%nat).
  { unfold k. destruct (sizes w) as [|k0 ?]; [lia|]. apply Forall_cons in Hsz as [? _]. lia. }
  destruct (inp w) as [|c i] eqn:Ei.
  { rewrite take_nil. cbn. eexists. split; [done|]. cbn. rewrite drop_nil. split; [done|].
    rewrite app_nil_r. pose proof (split_lines_prefix b [] Hb) as E. rewrite app_nil_r in E.
    rewrite E. cbn. unfold selected. cbn. by rewrite app_nil_r. }
  set (data := take k (c :: i)). set (rest := drop k (c :: i)).
  assert (Hsplit : c :: i = data ++ rest) by (symmetry; apply take_drop).
  assert (Hd : (0 < length data)%nat) by (unfold data; rewrite length_take; cbn; lia).
  rewrite (proj2 (Z.ltb_lt 0 _)) by lia. rewrite Hsplit, app_assoc in H0, Hfit.
  assert (H0d : 0 ∉ b ++ data) by (intros Hin; apply H0, elem_of_app; by left).
  unfold bind at 1. rewrite grep_lines_spec by done. cbn [inp sizes out].
  destruct (lines_fit_residue _ _ Hfit) as [Hfit' _].
  assert (Hin : ∀ x, x ∈ (split_lines (b ++ data)).2 → x ∈ b ++ data).
  { clear. generalize (b ++ data) as p. induction p as [|y p IHp]; [done|]. intros x. cbn [split_lines].
    destruct (split_lines p) as [ls t]. cbn in IHp. case_test; [right; auto|].
    destruct ls; cbn; [|right; auto]. intros [->|]%elem_of_cons; [by left|right; auto]. }
  edestruct (IH (split_lines (b ++ data)).2 (mk_stream rest (tl (sizes w)) (out w ++ selected pattern
    (split_lines (b ++ data)).1))) as (w' & -> & Hi & Ho); cbn [inp sizes out].
  - intros [Hx|Hx]%elem_of_app; [by apply H0d, Hin|]. apply H0, elem_of_app. by right.
  - apply split_lines_residue.
  - done.
  - destruct (sizes w); [done|]. by apply Forall_cons in Hsz as [_ ?].
  - rewrite Hsplit, length_app in Hf. lia.
  - exists w'. split; [done|]. split; [done|]. rewrite Ho. cbn [inp sizes out].
    rewrite Hsplit, (app_assoc b), (split_lines_app (b ++ data)). cbn [fst].
    unfold selected. by rewrite List.filter_app, map_app, concat_app, app_assoc.
Qed.

(** C28: grep writes exactly the matching lines of its input, in order, in
    whatever pieces the reads return it, if no line is longer than 1022
    bytes and there is no NUL; it stops when the input is used up. *)
Theorem grep_selects fuel pattern fd w :
  0 ∉ inp w → lines_fit (inp w) → Forall (fun k => (0 < k)%nat) (sizes w) →
  (length (inp w) < fuel)%nat →
  ∃ w', grep fuel pattern fd [] w = Ok (tt, w') ∧ inp w' = [] ∧
    out w' = out w ++ selected pattern (split_lines (inp w)).1.
Proof. intros H0 Hfit Hs Hf. apply (grep_spec fuel pattern fd [] w); try done. apply not_elem_of_nil. Qed.

Lemma grep_selects_witness :
  ∃ w', grep 20 (bytes "^b*c$") 0 [] (mk_stream (bytes "bc" ++ [10] ++ bytes "cb" ++ [10] ++ bytes "c" ++ [10])
    [1; 2]%nat []) = Ok (tt, w') ∧ out w' = bytes "bc" ++ [10] ++ bytes "c" ++ [10].
Proof.
  destruct (grep_selects 20 (bytes "^b*c$") 0 (mk_stream (bytes "bc" ++ [10] ++ bytes "cb" ++ [10] ++ bytes "c" ++ [10])
    [1; 2]%nat [])) as (w' & Hr & _ & Ho).
  - cbn [inp]. intros H. repeat (apply elem_of_cons in H as [H|H]; [discriminate H|]).
    by apply not_elem_of_nil in H.
  - unfold lines_fit. vm_compute. repeat constructor.
  - repeat constructor.
  - vm_compute. repeat constructor.
  - exists w'. split; [exact Hr|]. rewrite Ho. vm_compute. reflexivity.
Defined.

(** The request never goes past the end of the buffer. *)
Lemma grep_long fuel pattern fd b w :
  newline ∉ take 1023 (b ++ inp w) → 0 ∉ take 1023 (b ++ inp w) → (1023 ≤ length (b ++ inp w))%nat →
  (length b ≤ 1023)%nat → Forall (fun k => (0 < k)%nat) (sizes w) → (length (inp w) < fuel)%nat →
  ∃ w', grep fuel pattern fd b w = Ok (tt, w') ∧ out w' = out w.
Proof.
  revert b w; induction fuel as [|f IH]; intros b w Hn H0 Hlong Hb Hsz Hf; [lia|].
  cbn [grep]. cbn [sys_read stream_os]. unfold bind at 1. unfold stream_read.
  set (k := match sizes w with [] => _ | k :: _ => _ end).
  assert (Hk : (k ≤ 1023 - length b)%nat) by (unfold k; destruct (sizes w); lia).
  set (data := take k (inp w)). set (rest := drop k (inp w)).
  assert (Hsplit : inp w = data ++ rest) by (symmetry; apply take_drop).
  destruct (decide (length data = 0%nat)) as [Hd|Hd].
  { rewrite Hd. cbn. eexists. by split. }
  rewrite (proj2 (Z.ltb_lt 0 _)) by lia.
  assert (Hld : (length data ≤ k)%nat) by (unfold data; rewrite length_take; lia).
  rewrite Hsplit, app_assoc, take_app_ge in Hn, H0 by (rewrite length_app; lia).
  assert (Hnd : newline ∉ b ++ data) by (intros Hx; apply Hn, elem_of_app; by left).
  assert (H0d : 0 ∉ b ++ data) by (intros Hx; apply H0, elem_of_app; by left).
  unfold bind at 1. rewrite grep_lines_spec by done. cbn [inp sizes out].
  pose proof (split_lines_prefix (b ++ data) [] Hnd) as E. cbn [split_lines] in E.
  rewrite !app_nil_r in E. rewrite E. cbn [fst snd].
  edestruct (IH (b ++ data) (mk_stream rest (tl (sizes w)) (out w ++ selected pattern []))) as (w' & -> & Ho);
    cbn [inp sizes out].
  1-3: rewrite ?take_app_ge by (rewrite length_app; lia); try done; rewrite Hsplit in Hlong;
       by rewrite <- app_assoc.
  - rewrite length_app. lia.
  - destruct (sizes w); [done|]. by apply Forall_cons in Hsz as [_ ?].
  - rewrite Hsplit, length_app in Hf. lia.
  - exists w'. split; [done|]. rewrite Ho. cbn. by rewrite app_nil_r.
Qed.

(** C34: When a line is longer than 1022 bytes grep stops there without a
    message: if no newline comes in the first 1023 bytes, nothing is ever
    written, whatever follows. *)
Theorem grep_stops_at_long_line fuel pattern fd w :
  newline ∉ take 1023 (inp w) → 0 ∉ take 1023 (inp w) → (1023 ≤ length (inp w))%nat →
  Forall (fun k => (0 < k)%nat) (sizes w) → (length (inp w) < fuel)%nat →
  ∃ w', grep fuel pattern fd [] w = Ok (tt, w') ∧ out w' = out w.
Proof. intros. by apply (grep_long fuel pattern fd [] w); try done; cbn; lia. Qed.

Lemma grep_stops_at_long_line_witness :
  ∃ w', grep 1100 (bytes "a") 0 [] (mk_stream (repeat 97 1023 ++ [10; 97; 10]) [] []) = Ok (tt, w') ∧
    out w' = [].
Proof.
  apply (grep_stops_at_long_line 1100 (bytes "a") 0 (mk_stream (repeat 97 1023 ++ [10; 97; 10]) [] []));
    cbn [inp sizes].
  - rewrite take_app_le, take_ge by (rewrite repeat_length; lia).
    intros H%list_elem_of_In%repeat_spec. discriminate H.
  - rewrite take_app_le, take_ge by (rewrite repeat_length; lia).
    intros H%list_elem_of_In%repeat_spec. discriminate H.
  - rewrite length_app, repeat_length. cbn. lia.
  - constructor.
  - rewrite length_app, repeat_length. cbn. lia.
Defined.
