(* ===== verification/Umalloc.v ===== *)
(** * The memory allocator of user programs (user/umalloc.c)

    Kernighan and Ritchie's allocator on the byte memory of a process: a
    circular list of free blocks in the order of their addresses, threaded
    through the headers of the blocks and the static header [base].  A
    header has 16 bytes: the pointer to the next free block, and the size of
    the block in units of headers, the header included.

    The theorem shows that malloc and free keep the memory obtained from
    sbrk partitioned into free and allocated blocks, that adjacent free
    blocks are joined, and that nobody else's data changes. *)

From stdpp Require Import relations.
From S2P Require Import Prelude Mem.

Definition sizeof_Header : Z := 16.
Definition hdr_ptr (m : mem) (a : Z) : Z := ld64 m a.
Definition hdr_size (m : mem) (a : Z) : Z := ld32 m (a + 8).

(** The memory of the process, the static variable [freep], and the end of
    the heap. *)
Record uheap := mk_uheap { hmem : mem; freep : Z; brk : Z }.

Definition get_ptr (a : Z) : M uheap Z := gets (fun h => hdr_ptr (hmem h) a).
Definition get_size (a : Z) : M uheap Z := gets (fun h => hdr_size (hmem h) a).
Definition set_ptr (a v : Z) : M uheap unit := modify (fun h => mk_uheap (st64 (hmem h) a v) (freep h) (brk h)).
Definition set_size (a v : Z) : M uheap unit := modify (fun h => mk_uheap (st32 (hmem h) (a + 8) v) (freep h) (brk h)).
Definition set_freep (v : Z) : M uheap unit := modify (fun h => mk_uheap (hmem h) v (brk h)).

(** ** The code *)

(** The search of [free]; a bound on the steps is the number of free
    blocks. *)
Fixpoint free_search (fuel : nat) (bp p : Z) : M uheap Z :=
  do nx <- get_ptr p;
  if (p <? bp) && (bp <? nx) then ret p
  else if (nx <=? p) && ((p <? bp) || (bp <? nx)) then ret p
  else match fuel with O => out_of_fuel | S f => free_search f bp nx end.

Definition free (fuel : nat) (ap : Z) : M uheap unit :=
  let bp := ap - sizeof_Header in
  do h <- get;
  do p <- free_search fuel bp (freep h);
  do nx <- get_ptr p;
  do bs <- get_size bp;
  do! (if bp + bs * sizeof_Header =? nx then
         do ns <- get_size nx;
         do! set_size bp (u32 (bs + ns));
         do nn <- get_ptr nx;
         set_ptr bp nn
       else set_ptr bp nx);
  do ps <- get_size p;
  do! (if p + ps * sizeof_Header =? bp then
         do bs <- get_size bp;
         do! set_size p (u32 (ps + bs));
         do bn <- get_ptr bp;
         set_ptr p bn
       else set_ptr p bp);
  set_freep p.

(** [base] is the address of the static header, [can_grow sz sz'] tells
    whether the kernel has the memory to grow the process from [sz] to [sz']
    bytes. *)
Section malloc.
Context (base : Z) (can_grow : Z → Z → bool).

(** The system call: [n] is an int; the result is the old end of the heap,
    or -1. *)
Definition sbrk (n : Z) : M uheap Z :=
  let n := i32 n in
  do h <- get;
  if 0 <? n then
    if can_grow (brk h) (brk h + n) then do! put (mk_uheap (hmem h) (freep h) (brk h + n)); ret (brk h)
    else ret (u64 (-1))
  else
    let sz := u64 (brk h + n) in
    do! (if brk h <=? sz then ret tt else put (mk_uheap (hmem h) (freep h) sz));
    ret (brk h).

Definition morecore (fuel : nat) (nu : Z) : M uheap Z :=
  let nu := if nu <? 4096 then 4096 else nu in
  do p <- sbrk (nu * sizeof_Header);
  if p =? u64 (-1) then ret 0
  else
    do! set_size p nu;
    do! free fuel (p + sizeof_Header);
    do h <- get;
    ret (freep h).

(** p->s.size >= nunits: cut the block off the free list, or its tail off the
    block. *)
Definition take_block (nunits prevp p : Z) : M uheap Z :=
  do sz <- get_size p;
  do p' <- (if sz =? nunits then do nx <- get_ptr p; do! set_ptr prevp nx; ret p
            else
              do! set_size p (u32 (sz - nunits));
              let p' := p + (sz - nunits) * sizeof_Header in
              do! set_size p' nunits;
              ret p');
  do! set_freep prevp;
  ret (p' + sizeof_Header).

Fixpoint malloc_loop (fuel : nat) (nunits prevp p : Z) : M uheap Z :=
  match fuel with
  | O => out_of_fuel
  | S f =>
      do sz <- get_size p;
      if nunits <=? sz then take_block nunits prevp p
      else
        do h <- get;
        if p =? freep h then
          do q <- morecore f nunits;
          if q =? 0 then ret 0
          else do nx <- get_ptr q; malloc_loop f nunits q nx
        else do nx <- get_ptr p; malloc_loop f nunits p nx
  end.

Definition units (nbytes : Z) : Z := u32 ((nbytes + sizeof_Header - 1) / sizeof_Header + 1).
Definition malloc (fuel : nat) (nbytes : Z) : M uheap Z :=
  let nunits := units nbytes in
  do h <- get;
  do prevp <- (if freep h =? 0 then
                 do! set_ptr base base;
                 do! set_freep base;
                 do! set_size base 0;
                 ret base
               else ret (freep h));
  do p <- get_ptr prevp;
  malloc_loop fuel nunits prevp p.

End malloc.

(** ** Headers in memory *)

(** Two headers that do not overlap. *)
Definition apart (a b : Z) : Prop := a + 16 ≤ b ∨ b + 16 ≤ a.

Lemma hdr_ptr_set m a v : 0 ≤ v < 2 ^ 64 → hdr_ptr (st64 m a v) a = v.
Proof. intros. unfold hdr_ptr. rewrite ld64_st64_eq. by apply Z.mod_small. Qed.
Lemma hdr_size_set m a v : 0 ≤ v < 2 ^ 32 → hdr_size (st32 m (a + 8) v) a = v.
Proof. intros. unfold hdr_size. rewrite ld32_st32_eq. by apply Z.mod_small. Qed.
Lemma hdr_ptr_set_size m a b v : b = a ∨ apart a b → hdr_ptr (st32 m (a + 8) v) b = hdr_ptr m b.
Proof. unfold apart. intros. apply (ldn_stn_out 8 4). lia. Qed.
Lemma hdr_size_set_ptr m a b v : b = a ∨ apart a b → hdr_size (st64 m a v) b = hdr_size m b.
Proof. unfold apart. intros. apply (ldn_stn_out 4 8). lia. Qed.
Lemma hdr_ptr_set_ne m a b v : apart a b → hdr_ptr (st64 m a v) b = hdr_ptr m b.
Proof. unfold apart. intros. apply (ldn_stn_out 8 8). lia. Qed.
Lemma hdr_size_set_ne m a b v : apart a b → hdr_size (st32 m (a + 8) v) b = hdr_size m b.
Proof. unfold apart. intros. apply (ldn_stn_out 4 4). lia. Qed.

(** ** Chains of headers *)

(** The headers [l] are linked in this order from [p], and the last one points
    to [q]. *)
Fixpoint lseg (m : mem) (p : Z) (l : list Z) (q : Z) : Prop :=
  match l with
  | [] => p = q
  | a :: l => p = a ∧ lseg m (hdr_ptr m a) l q
  end.

Lemma lseg_app m p l1 l2 q : lseg m p (l1 ++ l2) q ↔ ∃ r, lseg m p l1 r ∧ lseg m r l2 q.
Proof.
  revert p; induction l1 as [|a l1 IH]; intros p; cbn [lseg app].
  - split; [eauto | by intros (r & -> & ?)].
  - rewrite IH. naive_solver.
Qed.

Lemma lseg_ext m m' p l q :
  (∀ a, a ∈ l → hdr_ptr m' a = hdr_ptr m a) → lseg m p l q → lseg m' p l q.
Proof.
  revert p; induction l as [|a l IH]; intros p H; cbn [lseg]; [done|].
  intros [-> Hl]. split; [done|]. rewrite H by apply list_elem_of_here.
  apply IH; [|done]. intros b Hb. apply H. by apply list_elem_of_further.
Qed.

(** In a circle, what follows [p] is the rest of the circle. *)
Lemma lseg_rotate m b l1 p l2 :
  lseg m b (l1 ++ p :: l2) b → lseg m (hdr_ptr m p) (l2 ++ l1) p.
Proof.
  intros (r & H1 & H2)%lseg_app. cbn [lseg] in H2. destruct H2 as [-> H2].
  apply lseg_app. eauto.
Qed.

(** The node after [p] in a circle, other than its start, follows it in the
    list. *)
Lemma lseg_next m b l1 p l2 :
  lseg m b (l1 ++ p :: l2) b → hdr_ptr m p ≠ b →
  ∃ l3, l2 = hdr_ptr m p :: l3.
Proof.
  intros (r & H1 & H2)%lseg_app. cbn [lseg] in H2. destruct H2 as [-> H2].
  destruct l2 as [|c l3]; cbn [lseg] in H2; [done|].
  intros _. destruct H2 as [-> _]. eauto.
Qed.

(** ** Blocks *)

(** A block: its address and its size in units. *)
Abbreviation block := (Z * Z)%type.
Definition bend (b : block) : Z := b.1 + 16 * b.2.
Definition bdisj (b c : block) : Prop := bend b ≤ c.1 ∨ bend c ≤ b.1.

(** Blocks in the order of their addresses, with a gap between one and the
    next: adjacent blocks have been joined. *)
Fixpoint gapped (lo : Z) (l : list block) : Prop :=
  match l with
  | [] => True
  | b :: l => lo < b.1 ∧ gapped (bend b) l
  end.

Abbreviation pdisj := (pairwise bdisj).

Fixpoint total (l : list block) : Z :=
  match l with [] => 0 | b :: l => b.2 + total l end.

(** The bytes of an allocated block that its owner may use. *)
Definition user_bytes (b : block) (x : Z) : Prop := b.1 + 16 ≤ x < bend b.

(** The heap between [h0] and [brk] is the free blocks [F] and the allocated
    blocks [U]; the free list goes through [base] and [F]. *)
Record heap_ok (base h0 : Z) (h : uheap) (F U : list block) : Prop := {
  ho_list : lseg (hmem h) base (base :: map fst F) base;
  ho_base : hdr_size (hmem h) base = 0;
  ho_size b : b ∈ F ++ U → hdr_size (hmem h) b.1 = b.2;
  ho_gap : gapped base F;
  ho_in b : b ∈ F ++ U → 0 < b.2 ∧ h0 ≤ b.1 ∧ bend b ≤ brk h;
  ho_disj : pdisj (F ++ U);
  ho_total : 16 * total (F ++ U) = brk h - h0;
  ho_freep : freep h ∈ base :: map fst F;
  ho_brk : h0 ≤ brk h < 2 ^ 32 }.

#[global] Instance bdisj_sym : Symmetric bdisj.
Proof. unfold bdisj. intros b c. tauto. Qed.
#[global] Instance apart_sym : Symmetric apart.
Proof. unfold apart. intros a b. tauto. Qed.

Lemma total_perm l l' : l ≡ₚ l' → total l = total l'.
Proof. induction 1; cbn [total]; lia. Qed.

Lemma gapped_weaken lo lo' l : lo' ≤ lo → gapped lo l → gapped lo' l.
Proof. destruct l as [|b l]; cbn [gapped]; [done|]. intros ? [? ?]. split; [lia|done]. Qed.

Lemma gapped_app lo l1 b l2 :
  gapped lo (l1 ++ b :: l2) ↔ gapped lo (l1 ++ [b]) ∧ gapped (bend b) l2.
Proof.
  revert lo; induction l1 as [|c l1 IH]; intros lo; cbn [gapped app]; [tauto|].
  rewrite IH. tauto.
Qed.

(** The blocks of a chain lie above its lower end. *)
Lemma gapped_above lo l c : gapped lo l → (∀ b, b ∈ l → 0 ≤ b.2) → c ∈ l → lo < c.1.
Proof.
  revert lo; induction l as [|b l IH]; intros lo; cbn [gapped]; [by intros _ _ ?%elem_of_nil|].
  intros [? Hg] Hs [ -> |Hc]%elem_of_cons; [done|].
  pose proof (Hs b (list_elem_of_here _ _)).
  assert (bend b < c.1) by (apply IH; auto; intros; apply Hs; by apply list_elem_of_further).
  unfold bend in *. lia.
Qed.

(** Put a block in front of the chain that follows it, joining the two if they
    are adjacent. *)
Definition join (b : block) (l : list block) : list block :=
  match l with
  | c :: l' => if bend b =? c.1 then (b.1, b.2 + c.2) :: l' else b :: l
  | [] => [b]
  end.

Lemma join_gapped lo b l :
  lo < b.1 → (∀ c l', l = c :: l' → bend b ≤ c.1) → (∃ lo', gapped lo' l) →
  gapped lo (join b l).
Proof.
  intros Hlo Hle [lo' Hg]. destruct l as [|c l]; cbn [join gapped]; [done|].
  specialize (Hle c l eq_refl). destruct Hg as [_ Hg].
  destruct (Z.eqb_spec (bend b) c.1) as [E|E]; cbn [gapped fst]; split; try done.
  - replace (bend (b.1, b.2 + c.2)) with (bend c); [done|]. unfold bend in *. cbn. lia.
  - split; [lia|done].
Qed.

Lemma join_total b l r : total (join b l ++ r) = total (b :: l ++ r).
Proof.
  destruct l as [|c l]; cbn [join app total]; [done|].
  destruct (_ =? _); cbn [app total snd]; lia.
Qed.

Lemma join_pdisj b l r :
  0 ≤ b.2 → (∀ c, c ∈ l ++ r → 0 < c.2 ∨ c.1 < b.1 ∧ 0 ≤ c.2) → pdisj (b :: l ++ r) → pdisj (join b l ++ r).
Proof.
  intros Hb0 Hs H. destruct l as [|c l]; cbn [join app]; [done|].
  destruct (Z.eqb_spec (bend b) c.1) as [E|E]; [|done].
  cbn [app pairwise] in *. destruct H as (Hb & Hc & Hl). split; [|done].
  intros d Hd. specialize (Hb d (list_elem_of_further _ _ _ Hd)). specialize (Hc d Hd).
  pose proof (Hs c (list_elem_of_here _ _)). pose proof (Hs d (list_elem_of_further _ _ _ Hd)).
  unfold bdisj, bend in *. cbn. lia.
Qed.

(** A block of the joined chain is a block of the chain, or spans blocks of
    it. *)
Lemma join_elem b l c :
  c ∈ join b l → c ∈ b :: l ∨ ∃ d, d ∈ l ∧ bend b = d.1 ∧ c = (b.1, b.2 + d.2).
Proof.
  destruct l as [|d l]; cbn [join]; [by left|].
  destruct (Z.eqb_spec (bend b) d.1) as [E|E]; [|by left].
  intros [ -> |Hc]%elem_of_cons; [right | left; rewrite !elem_of_cons; auto].
  exists d. rewrite elem_of_cons. auto.
Qed.

(** ** Linking a block into the list *)

(** What [free] does twice: link [x] in front of [y], or join the two. *)
Definition link (x xs y : Z) : M uheap unit :=
  if x + xs * sizeof_Header =? y then
    do ys <- get_size y;
    do! set_size x (u32 (xs + ys));
    do yn <- get_ptr y;
    set_ptr x yn
  else set_ptr x y.

(** Only the header at [x] has changed. *)
Definition header_frame (x : Z) (m m' : mem) : Prop :=
  ∀ y, y < x ∨ x + 16 ≤ y → ld8 m' y = ld8 m y.

Lemma header_frame_ptr x m m' a : header_frame x m m' → apart x a → hdr_ptr m' a = hdr_ptr m a.
Proof. intros H A. apply (ldn_ext 8). intros. apply H. unfold apart in *. lia. Qed.
Lemma header_frame_size x m m' a : header_frame x m m' → apart x a → hdr_size m' a = hdr_size m a.
Proof. intros H A. apply (ldn_ext 4). intros. apply H. unfold apart in *. lia. Qed.
Lemma header_frame_st64 x m v : header_frame x m (st64 m x v).
Proof. intros y Hy. apply (ld8_stn_out 8). lia. Qed.
Lemma header_frame_st32 x m v : header_frame x m (st32 m (x + 8) v).
Proof. intros y Hy. apply (ld8_stn_out 4). lia. Qed.
Lemma header_frame_trans x m m' m'' : header_frame x m m' → header_frame x m' m'' → header_frame x m m''.
Proof. intros H1 H2 y Hy. by rewrite H2, H1. Qed.

Lemma lseg_frame x m m' p l q :
  header_frame x m m' → (∀ a, a ∈ l → apart x a) → lseg m p l q → lseg m' p l q.
Proof. intros H A. apply lseg_ext. intros a Ha. eapply header_frame_ptr; eauto. Qed.

Lemma lseg_head m y l q : lseg m y l q → y = default q (head l).
Proof. destruct l; cbn; naive_solver. Qed.

(** The state of a heap with another memory. *)
Definition with_mem (h : uheap) (m : mem) : uheap := mk_uheap m (freep h) (brk h).

Lemma link_spec h x l y q :
  lseg (hmem h) y (map fst l) q →
  (∀ c, c ∈ x :: l → hdr_size (hmem h) c.1 = c.2) →
  (∀ c, c ∈ l → apart x.1 c.1) →
  (l = [] → bend x ≠ q) → 0 ≤ q < 2 ^ 64 → (∀ c, c ∈ l → 0 ≤ c.1 < 2 ^ 64) →
  (∀ c l', l = c :: l' → 0 ≤ x.2 + c.2 < 2 ^ 32) →
  wp (link x.1 x.2 y) (fun _ h' =>
    ∃ m', h' = with_mem h m' ∧ header_frame x.1 (hmem h) m' ∧
      lseg m' x.1 (map fst (join x l)) q ∧
      ∀ c, c ∈ join x l → hdr_size m' c.1 = c.2) h.
Proof.
  intros Hl Hs Ha Hq Rq R Hb. unfold link. pose proof (lseg_head _ _ _ _ Hl) as Hy.
  destruct l as [|c l]; cbn [map head default from_option fst id] in Hy; subst y.
  - rewrite (proj2 (Z.eqb_neq _ _)) by (specialize (Hq eq_refl); unfold bend, sizeof_Header in *; lia).
    apply wp_modify. eexists. split; [reflexivity|]. split; [apply header_frame_st64|].
    cbn [join map lseg]. rewrite hdr_ptr_set by lia. split; [done|].
    intros c Hc. apply list_elem_of_singleton in Hc as ->. rewrite hdr_size_set_ptr by auto.
    apply Hs, list_elem_of_here.
  - cbn [map lseg] in Hl. destruct Hl as [_ Hl]. specialize (Hb c l eq_refl). cbn [join].
    pose proof (Ha c (list_elem_of_here _ _)) as Hac.
    assert (Hal : ∀ d, d ∈ l → apart x.1 d.1) by (intros; apply Ha; by apply list_elem_of_further).
    replace (x.1 + x.2 * sizeof_Header) with (bend x) by (unfold bend, sizeof_Header; lia).
    destruct (bend x =? c.1).
    + apply wp_bind, wp_gets. rewrite (Hs c) by (rewrite !elem_of_cons; auto).
      apply wp_bind, wp_modify. apply wp_bind, wp_gets. cbn [hmem freep brk].
      rewrite hdr_ptr_set_size by auto. unfold u32; rewrite Z.mod_small by lia.
      apply wp_modify. cbn [hmem freep brk]. eexists. split; [reflexivity|].
      assert (HF : header_frame x.1 (hmem h)
         (st64 (st32 (hmem h) (x.1 + 8) (x.2 + c.2)) x.1 (hdr_ptr (hmem h) c.1))).
      { eapply header_frame_trans; [apply header_frame_st32 | apply header_frame_st64]. }
      split; [exact HF|]. split.
      * cbn [map lseg fst]. split; [done|]. rewrite hdr_ptr_set by apply ld64_range.
        eapply lseg_frame; [exact HF | | exact Hl].
        intros a (d & -> & Hd)%list_elem_of_fmap. auto.
      * intros d [ -> |Hd]%elem_of_cons; cbn [fst snd].
        -- rewrite hdr_size_set_ptr by auto. by apply hdr_size_set.
        -- rewrite (header_frame_size _ _ _ _ HF) by auto. apply Hs. rewrite !elem_of_cons. auto.
    + apply wp_modify. eexists. split; [reflexivity|]. split; [apply header_frame_st64|].
      split.
      * cbn [map lseg]. rewrite hdr_ptr_set by (apply R, list_elem_of_here). split; [done|].
        split; [done|]. rewrite hdr_ptr_set_ne by done.
        eapply lseg_frame; [apply header_frame_st64 | | exact Hl].
        intros a (d & -> & Hd)%list_elem_of_fmap. auto.
      * intros d [ -> |Hd]%elem_of_cons.
        -- rewrite hdr_size_set_ptr by auto. apply Hs, list_elem_of_here.
        -- rewrite hdr_size_set_ptr by (right; by apply Ha). apply Hs. by apply list_elem_of_further.
Qed.

(** ** free *)

Section heap.
Context (base h0 : Z) (Hbase : 0 < base ∧ base + 16 ≤ h0).

Lemma headers_apart h F U : heap_ok base h0 h F U → pairwise apart (base :: (fst <$> F ++ U)).
Proof.
  intros H. split.
  - intros c (b & -> & Hb)%list_elem_of_fmap. pose proof (ho_in _ _ _ _ _ H b Hb). left. lia.
  - eapply pairwise_fmap; [|apply (ho_disj _ _ _ _ _ H)]. intros b c Hb Hc.
    pose proof (ho_in _ _ _ _ _ H b Hb). pose proof (ho_in _ _ _ _ _ H c Hc).
    unfold bdisj, apart, bend in *. lia.
Qed.

Lemma free_search_reaches h bp p fuel V q :
  lseg (hmem h) p V q →
  (∀ a, a ∈ V → let nx := hdr_ptr (hmem h) a in
    ((a <? bp) && (bp <? nx)) || ((nx <=? a) && ((a <? bp) || (bp <? nx))) = false) →
  (let nx := hdr_ptr (hmem h) q in
    ((q <? bp) && (bp <? nx)) || ((nx <=? q) && ((q <? bp) || (bp <? nx))) = true) →
  (length V ≤ fuel)%nat →
  free_search fuel bp p h = Ok (q, h).
Proof.
  cbv zeta. revert p fuel; induction V as [|a V IH]; intros p fuel Hl Hs Hq Hf; cbn [lseg] in Hl.
  - subst p. destruct fuel; cbn [free_search]; unfold bind, get_ptr, gets; cbv beta iota;
      destruct ((q <? bp) && _); try done; cbn [orb] in Hq; by rewrite Hq.
  - destruct Hl as [-> Hl]. destruct fuel as [|fuel]; [cbn in Hf; lia|].
    cbn [free_search]. unfold bind, get_ptr, gets. cbv beta iota.
    pose proof (Hs a (list_elem_of_here _ _)) as Ha. apply orb_false_iff in Ha as [-> ->].
    apply IH; [done| |done|cbn in Hf; lia]. intros b Hb. apply Hs. by apply list_elem_of_further.
Qed.

(** The chain seen from its node [p]: the nodes before it point upwards and
    not beyond it, the nodes behind it upwards or to [base]. *)
Lemma next_before m N1 p N2 a lo :
  lseg m base (map fst (N1 ++ p :: N2)) base → gapped lo (N1 ++ p :: N2) →
  (∀ c, c ∈ N1 ++ p :: N2 → 0 ≤ c.2) → a ∈ N1 → a.1 < hdr_ptr m a.1 ≤ p.1.
Proof.
  intros Hl Hg Hs (A & B & ->)%list_elem_of_split.
  rewrite <- app_assoc in *. cbn [app] in *.
  apply gapped_app in Hg as [_ Hg]. rewrite map_app in Hl.
  apply lseg_app in Hl as (r & _ & Hl). cbn [map lseg] in Hl. destruct Hl as [_ Hl].
  assert (0 ≤ a.2) by (apply Hs; in_list).
  destruct B as [|c B]; cbn [app map lseg gapped] in Hl, Hg; destruct Hl as [-> _]; destruct Hg as [Hac Hg].
  - unfold bend in *. lia.
  - assert (bend c < p.1). { eapply gapped_above; [exact Hg| |in_list]. intros; apply Hs; in_list. }
    assert (0 ≤ c.2) by (apply Hs; in_list). unfold bend in *. lia.
Qed.

Lemma next_behind m N1 a N2 lo :
  lseg m base (map fst (N1 ++ a :: N2)) base → gapped lo (N1 ++ a :: N2) →
  0 ≤ a.2 → hdr_ptr m a.1 = base ∨ a.1 < hdr_ptr m a.1.
Proof.
  intros Hl Hg Hs. apply gapped_app in Hg as [_ Hg]. rewrite map_app in Hl.
  apply lseg_app in Hl as (r & _ & Hl). cbn [map lseg] in Hl. destruct Hl as [_ Hl].
  destruct N2 as [|c N2]; cbn [map lseg gapped] in Hl, Hg; [by left|].
  destruct Hl as [-> _]. right. unfold bend in *. lia.
Qed.

Lemma place_exists lo l b bp :
  gapped lo (b :: l) → b.1 < bp → (∀ c, c ∈ l → c.1 ≠ bp) → (∀ c, c ∈ b :: l → 0 ≤ c.2) →
  ∃ N1 p N2, b :: l = N1 ++ p :: N2 ∧ p.1 < bp ∧ ∀ c, c ∈ N2 → bp < c.1.
Proof.
  revert lo b; induction l as [|c l IH]; intros lo b Hg Hb Hne Hs.
  - exists [], b, []. split; [done|]. split; [done|]. by intros c ?%elem_of_nil.
  - destruct (decide (c.1 < bp)) as [Hc|Hc].
    + destruct Hg as [_ Hg]. edestruct IH as (N1 & p & N2 & E & Hp & HN); [exact Hg|exact Hc| | |].
      { intros; apply Hne; in_list. }
      { intros; apply Hs; in_list. }
      exists (b :: N1), p, N2. by rewrite E.
    + exists [], b, (c :: l). split; [done|]. split; [done|].
      assert (bp < c.1) by (pose proof (Hne c (list_elem_of_here _ _)); lia).
      destruct Hg as [_ [_ Hg]]. intros d [ -> |Hd]%elem_of_cons; [done|].
      assert (bend c < d.1) by (eapply gapped_above; [exact Hg| |done]; intros; apply Hs; in_list).
      assert (0 ≤ c.2) by (apply Hs; in_list). unfold bend in *. lia.
Qed.

Lemma free_search_place h N1 p N2 bp fuel lo :
  lseg (hmem h) base (map fst (N1 ++ p :: N2)) base → gapped lo (N1 ++ p :: N2) →
  (∀ c, c ∈ N1 ++ p :: N2 → 0 ≤ c.2 ∧ base ≤ c.1) → freep h ∈ map fst (N1 ++ p :: N2) →
  base < bp → p.1 < bp → (∀ c, c ∈ N2 → bp < c.1) → (length N1 + length N2 ≤ fuel)%nat →
  free_search fuel bp (freep h) h = Ok (p.1, h).
Proof.
  intros Hl Hg Hs Hf Hbp Hp HN Hfuel.
  assert (Hrot : lseg (hmem h) (hdr_ptr (hmem h) p.1) (map fst (N2 ++ N1)) p.1).
  { rewrite map_app in Hl |- *. cbn [map] in Hl. eapply lseg_rotate, Hl. }
  assert (Hskip : ∀ a, a ∈ map fst (N2 ++ N1) → let nx := hdr_ptr (hmem h) a in
    ((a <? bp) && (bp <? nx)) || ((nx <=? a) && ((a <? bp) || (bp <? nx))) = false).
  { intros a (c & -> & [Hc|Hc]%elem_of_app)%list_elem_of_fmap; cbv zeta.
    - specialize (HN c Hc). apply list_elem_of_split in Hc as (A & B & ->).
      edestruct (next_behind (hmem h) (N1 ++ p :: A) c B); rewrite <- ?app_assoc; eauto; [apply Hs; in_list| |];
        lia.
    - edestruct (next_before (hmem h) N1 p N2 c); eauto; [intros; by apply Hs|]. lia. }
  assert (Hstop : let nx := hdr_ptr (hmem h) p.1 in
    ((p.1 <? bp) && (bp <? nx)) || ((nx <=? p.1) && ((p.1 <? bp) || (bp <? nx))) = true).
  { cbv zeta. pose proof (lseg_head _ _ _ _ Hrot) as Hh.
    destruct N2 as [|c N2]; cbn [app map head default from_option id] in Hh.
    - edestruct (next_behind (hmem h) N1 p []) as [E|E]; eauto; [apply Hs; in_list| |].
      + rewrite E. assert (base ≤ p.1) by (apply Hs; in_list). lia.
      + destruct N1 as [|c N1]; cbn [map head default from_option id] in Hh; [lia|].
        edestruct (next_before (hmem h) (c :: N1) p [] c); eauto; [intros; by apply Hs|in_list|]. lia.
    - rewrite Hh. specialize (HN c (list_elem_of_here _ _)). lia. }
  rewrite map_app in Hf. cbn [map] in Hf.
  assert (Hf' : freep h = p.1 ∨ freep h ∈ map fst (N2 ++ N1)) by (rewrite map_app; in_list).
  destruct Hf' as [ -> |(A & B & E)%list_elem_of_split].
  - apply (free_search_reaches h bp p.1 fuel []); [done|by intros ? ?%elem_of_nil|exact Hstop|cbn; lia].
  - assert (Hlen : length (map fst (N2 ++ N1)) = (length A + S (length B))%nat) by (rewrite E, length_app; done).
    rewrite length_map, length_app in Hlen.
    rewrite E in Hrot, Hskip. apply lseg_app in Hrot as (r & _ & Hr). destruct (proj1 Hr).
    apply (free_search_reaches h bp r fuel (r :: B)); [exact Hr| |exact Hstop|cbn; lia].
    intros a Ha. apply Hskip. in_list.
Qed.

(** The static header is a node of size 0. *)
Definition node_ok (h : uheap) (c : block) : Prop :=
  c = (base, 0) ∨ 0 < c.2 ∧ h0 ≤ c.1 ∧ bend c ≤ brk h.

Record nodes_ok (h : uheap) (N U : list block) : Prop := {
  no_list : lseg (hmem h) base (map fst N) base;
  no_size c : c ∈ N ++ U → hdr_size (hmem h) c.1 = c.2;
  no_gap : gapped (base - 1) N;
  no_node c : c ∈ N → node_ok h c;
  no_used c : c ∈ U → 0 < c.2 ∧ h0 ≤ c.1 ∧ bend c ≤ brk h;
  no_disj : pdisj (N ++ U);
  no_total : 16 * total (N ++ U) = brk h - h0;
  no_freep : freep h ∈ map fst N;
  no_brk : h0 ≤ brk h < 2 ^ 32 }.

Lemma nodes_heap h F U : nodes_ok h ((base, 0) :: F) U ↔ heap_ok base h0 h F U.
Proof.
  split; intros H; destruct H.
  - cbn [gapped] in *. destruct no_gap0 as [_ Hg]. replace (bend (base, 0)) with base in Hg by (unfold bend; cbn; lia).
    assert (HF : ∀ c, c ∈ F → 0 < c.2 ∧ h0 ≤ c.1 ∧ bend c ≤ brk h).
    { intros c Hc. destruct (no_node0 c) as [ -> |?]; [in_list| |done].
      apply list_elem_of_split in Hc as (A & B & ->). exfalso.
      enough (base < base) by lia. eapply (gapped_above base _ (base, 0)); [exact Hg| |in_list].
      intros d Hd. destruct (no_node0 d) as [ -> |?]; [in_list|done|lia]. }
    destruct no_disj0 as [_ Hd]. constructor; try done.
    + apply (no_size0 (base, 0)). in_list.
    + intros b Hb. apply no_size0. in_list.
    + intros b [Hb|Hb]%elem_of_app; auto.
  - constructor; try done.
    + intros c [ -> |Hc]%elem_of_cons; auto.
    + cbn [gapped]. split; [cbn; lia|]. by replace (bend (base, 0)) with base by (unfold bend; cbn; lia).
    + intros c [ -> |Hc]%elem_of_cons; [by left|]. right. apply ho_in0. in_list.
    + intros c Hc. apply ho_in0. in_list.
    + split; [|done]. intros c Hc. pose proof (ho_in0 c Hc). left. unfold bend. cbn. lia.
Qed.

Lemma gapped_app_intro lo l1 p L :
  gapped lo (l1 ++ [p]) → (∀ lo', lo' < p.1 → gapped lo' L) → gapped lo (l1 ++ L).
Proof.
  revert lo; induction l1 as [|c l1 IH]; intros lo; cbn [gapped app].
  - intros [Hp _] HL. auto.
  - intros [Hc Hg] HL. auto.
Qed.

Lemma gapped_below lo l1 p c :
  gapped lo (l1 ++ [p]) → (∀ b, b ∈ l1 ++ [p] → 0 ≤ b.2) → c ∈ l1 → bend c < p.1.
Proof.
  intros Hg Hs (A & B & ->)%list_elem_of_split. rewrite <- app_assoc in *. cbn [app] in *.
  apply gapped_app in Hg as [_ Hg].
  eapply gapped_above; [exact Hg| |in_list]. intros b Hb. apply Hs. in_list.
Qed.

Lemma node_ok_size h c : node_ok h c → 0 ≤ c.2 ∧ base ≤ c.1.
Proof. intros [ -> |?]; cbn; lia. Qed.

(** The block [b] put behind the node [p]. *)
Section put_behind.
Context (h : uheap) (N1 : list block) (p : block) (N2 U : list block) (b : block).
Context (H : nodes_ok h (N1 ++ p :: N2) (b :: U)) (Hp : p.1 < b.1) (HN : ∀ c, c ∈ N2 → b.1 < c.1).

Local Lemma behind_disj : pdisj (p :: b :: N2 ++ N1 ++ U).
Proof.
  eapply pairwise_perm; [apply _| |apply (no_disj _ _ _ H)].
  rewrite <- app_assoc. cbn [app]. solve_Permutation.
Qed.

Local Lemma behind_used : 0 < b.2 ∧ h0 ≤ b.1 ∧ bend b ≤ brk h.
Proof. apply (no_used _ _ _ H). in_list. Qed.

Local Lemma behind_p : bend p ≤ b.1.
Proof.
  destruct behind_disj as [Hd _]. specialize (Hd b (list_elem_of_here _ _)).
  destruct behind_used. unfold bdisj, bend in *. lia.
Qed.

Local Lemma behind_next c l : N2 = c :: l → bend b ≤ c.1.
Proof.
  intros E. destruct behind_disj as [_ [Hd _]].
  assert (Hc : c ∈ N2) by (rewrite E; in_list). specialize (HN c Hc).
  specialize (Hd c ltac:(in_list)).
  destruct (node_ok_size h c) as [? _]; [apply (no_node _ _ _ H); in_list|].
  unfold bdisj, bend in *. lia.
Qed.

Local Lemma join_head_addr (x : block) l c l' : join x l = c :: l' → c.1 = x.1.
Proof. destruct l as [|d l]; cbn; [by intros [= <-]|]. destruct (_ =? _); by intros [= <-]. Qed.

Local Lemma behind_gapped : gapped (base - 1) (N1 ++ join p (join b N2)).
Proof.
  pose proof (no_gap _ _ _ H) as Hg. apply gapped_app in Hg as [Hg1 Hg2].
  eapply gapped_app_intro; [exact Hg1|]. intros lo Hlo. apply join_gapped; [done| |].
  - intros c l' E. apply join_head_addr in E. rewrite E. apply behind_p.
  - exists (b.1 - 1). apply join_gapped; [lia|apply behind_next|eauto].
Qed.

Local Lemma behind_total : total ((N1 ++ join p (join b N2)) ++ U) = total ((N1 ++ p :: N2) ++ b :: U).
Proof.
  transitivity (total (join p (join b N2) ++ N1 ++ U)).
  { apply total_perm. solve_Permutation. }
  rewrite join_total. transitivity (total (join b N2 ++ p :: N1 ++ U)).
  { apply total_perm. solve_Permutation. }
  rewrite join_total. apply total_perm. solve_Permutation.
Qed.

Local Lemma behind_pdisj : pdisj ((N1 ++ join p (join b N2)) ++ U).
Proof.
  assert (Hsz : ∀ c, c ∈ N1 ++ p :: N2 → 0 ≤ c.2) by (intros; by eapply node_ok_size, (no_node _ _ _ H)).
  assert (Hpos : ∀ c, c ∈ N2 ++ p :: N1 ++ U → 0 < c.2 ∨ c = (base, 0)).
  { intros c Hc. assert (Hc' : c ∈ N1 ++ p :: N2 ∨ c ∈ b :: U) by in_list. destruct Hc' as [Hc'|Hc'].
    - destruct (no_node _ _ _ H c Hc') as [ -> |?]; [by right|left; lia].
    - left. by apply (no_used _ _ _ H). }
  destruct behind_used as (Hb & Hb0 & _).
  eapply (pairwise_perm _ (join p (join b N2) ++ N1 ++ U)); [solve_Permutation|].
  apply join_pdisj; [apply Hsz; in_list| |].
  - intros c Hc. assert (Hc' : c ∈ join b N2 ∨ c ∈ N1 ∨ c ∈ U) by in_list.
    destruct Hc' as [ [Hc'|(d & Hd & _ & ->)]%join_elem | [Hc'|Hc']].
    + apply elem_of_cons in Hc' as [ -> |Hc']; [by left|]. left.
      destruct (Hpos c) as [?| -> ]; [in_list|done|]. specialize (HN _ Hc'). cbn in HN. lia.
    + left. cbn. pose proof (Hsz d ltac:(in_list)). lia.
    + destruct (Hpos c) as [?|E]; [in_list|by left|right].
      pose proof (no_gap _ _ _ H) as Hg. apply gapped_app in Hg as [Hg1 _].
      pose proof (gapped_below _ _ _ c Hg1 ltac:(intros; apply Hsz; in_list) Hc').
      subst c. unfold bend in *. cbn in *. lia.
    + left. apply (no_used _ _ _ H). in_list.
  - eapply (pairwise_perm _ (join b N2 ++ p :: N1 ++ U)); [solve_Permutation|].
    apply join_pdisj; [lia| |eapply pairwise_perm, behind_disj; [apply _|solve_Permutation]].
    intros c Hc. destruct (Hpos c Hc) as [?| -> ]; [by left|]. right. cbn. lia.
Qed.

Local Lemma behind_node c : c ∈ N1 ++ join p (join b N2) → node_ok h c.
Proof.
  destruct behind_used as (Hb & Hb0 & Hb1).
  assert (HN' : ∀ c, c ∈ N1 ++ p :: N2 → node_ok h c) by apply (no_node _ _ _ H).
  assert (Hj : ∀ d, d ∈ join b N2 → 0 < d.2 ∧ h0 ≤ d.1 ∧ bend d ≤ brk h).
  { intros d [ [ -> |Hd]%elem_of_cons|(e & He & E & ->)]%join_elem; [done| |].
    - destruct (HN' d) as [ -> |?]; [in_list| |done]. specialize (HN _ Hd). cbn in HN. lia.
    - destruct (HN' e) as [ -> |?]; [in_list| |]; [specialize (HN _ He); cbn in HN; lia|].
      unfold bend in *. cbn. lia. }
  intros [Hc|[ [ -> |Hc]%elem_of_cons|(d & Hd & E & ->)]%join_elem]%elem_of_app;
    [apply HN'; in_list|apply HN'; in_list|right; by apply Hj|].
  specialize (Hj d Hd). right. destruct (HN' p) as [ -> |?]; [in_list| |]; unfold bend in *; cbn in *; [|lia].
  exfalso. assert (d.1 = base) by lia. lia.
Qed.

(** A block at least as large is in the list now. *)
Local Lemma behind_big : ∃ c, c ∈ N1 ++ join p (join b N2) ∧ b.2 ≤ c.2.
Proof.
  assert (Hsz : ∀ c, c ∈ N1 ++ p :: N2 → 0 ≤ c.2) by (intros; by eapply node_ok_size, (no_node _ _ _ H)).
  assert (Hgrow : ∀ x l c, 0 ≤ x.2 → c ∈ l → ∃ d, d ∈ join x l ∧ c.2 ≤ d.2).
  { intros x [|e l] c Hx Hc; [by apply elem_of_nil in Hc|]. cbn [join].
    destruct (_ =? _); [|exists c; split; [in_list|lia]].
    apply elem_of_cons in Hc as [ -> |Hc]; [|exists c; split; [in_list|lia]].
    eexists. split; [apply list_elem_of_here|]. cbn. lia. }
  assert (∃ c, c ∈ join b N2 ∧ b.2 ≤ c.2) as (c & Hc & Hle).
  { destruct N2 as [|d l] eqn:E; cbn [join]; [exists b; split; [in_list|lia]|].
    pose proof (Hsz d ltac:(in_list)).
    destruct (_ =? _); eexists; (split; [apply list_elem_of_here|]); cbn; lia. }
  destruct (Hgrow p _ c (Hsz p ltac:(in_list)) Hc) as (d & Hd & ?).
  exists d. split; [in_list|lia].
Qed.

End put_behind.

(** The bytes that are nobody's business: those of the allocated blocks [U],
    and those outside of the heap and of the static header. *)
Definition client_byte (top : Z) (U : list block) (x : Z) : Prop :=
  (∃ c, c ∈ U ∧ user_bytes c x) ∨ (x < h0 ∨ top ≤ x) ∧ (x < base ∨ base + 16 ≤ x).
Definition data_kept (U : list block) (h h' : uheap) : Prop :=
  brk h ≤ brk h' ∧ ∀ x, client_byte (brk h') U x → ld8 (hmem h') x = ld8 (hmem h) x.

Lemma data_kept_refl U h : data_kept U h h.
Proof. by split. Qed.

Lemma data_kept_trans U h1 h2 h3 : data_kept U h1 h2 → data_kept U h2 h3 → data_kept U h1 h3.
Proof.
  intros [Hb1 H1] [Hb2 H2]. split; [lia|]. intros x Hx. rewrite H2 by done. apply H1.
  destruct Hx as [?|?]; [by left|right; lia].
Qed.

Lemma header_not_client h U p x :
  node_ok h p → (∀ c, c ∈ U → bdisj p c ∧ h0 ≤ c.1 ∧ 0 < c.2) → client_byte (brk h) U x →
  x < p.1 ∨ p.1 + 16 ≤ x.
Proof.
  intros Hp HU [(c & Hc & Hx)|Hx].
  - destruct (HU c Hc) as (? & ? & ?). unfold user_bytes, bdisj, bend in *.
    destruct Hp as [ -> |?]; cbn in *; lia.
  - unfold bend in *. destruct Hp as [ -> |Hp]; [cbn; lia|]. unfold bend in Hp. lia.
Qed.

Lemma free_is_links fuel ap h :
  free fuel ap h =
  (do p <- free_search fuel (ap - 16) (freep h);
   do nx <- get_ptr p;
   do bs <- get_size (ap - 16);
   do! link (ap - 16) bs nx;
   do ps <- get_size p;
   do! link p ps (ap - 16);
   set_freep p) h.
Proof. reflexivity. Qed.

Lemma nodes_apart h F N1 p N2 U b :
  heap_ok base h0 h F (b :: U) → (base, 0) :: F = N1 ++ p :: N2 →
  pairwise apart (p.1 :: b.1 :: (fst <$> N1 ++ N2 ++ U)).
Proof.
  intros H E. eapply pairwise_perm; [apply _| |apply (headers_apart _ _ _ H)].
  change (base :: (fst <$> F ++ b :: U)) with (fst <$> (((base, 0) :: F) ++ b :: U)).
  rewrite E. change (p.1 :: b.1 :: (fst <$> N1 ++ N2 ++ U)) with (fst <$> (p :: b :: N1 ++ N2 ++ U)).
  apply fmap_Permutation. solve_Permutation.
Qed.

Section free_behind.
Context (h : uheap) (F N1 : list block) (p : block) (N2 U : list block) (b : block).
Context (HF : heap_ok base h0 h F (b :: U)) (E : (base, 0) :: F = N1 ++ p :: N2).
Context (Hp : p.1 < b.1) (HN : ∀ c, c ∈ N2 → b.1 < c.1).

Local Lemma fb_nodes : nodes_ok h (N1 ++ p :: N2) (b :: U).
Proof. rewrite <- E. by apply nodes_heap. Qed.

Local Lemma fb_apart c : c ∈ N1 ++ N2 ++ U → apart p.1 c.1 ∧ apart b.1 c.1.
Proof.
  intros Hc. pose proof (nodes_apart _ _ _ _ _ _ _ HF E) as (Hap & Hab & _).
  split; [apply Hap, list_elem_of_further|apply Hab]; apply list_elem_of_fmap; eauto.
Qed.

Local Lemma fb_apart_pb : apart p.1 b.1.
Proof. pose proof (nodes_apart _ _ _ _ _ _ _ HF E) as (Hap & _). apply Hap, list_elem_of_here. Qed.

Local Lemma fb_bounds c : c ∈ N1 ++ p :: b :: N2 → 0 ≤ c.2 ∧ base ≤ c.1 < 2 ^ 32 ∧ 16 * c.2 < 2 ^ 32.
Proof.
  intros Hc. pose proof (no_brk _ _ _ fb_nodes).
  assert (Hn : node_ok h c).
  { assert (Hc' : c = b ∨ c ∈ N1 ++ p :: N2) by in_list. destruct Hc' as [ -> |Hc'].
    - right. apply (behind_used _ _ _ _ _ _ fb_nodes).
    - by apply (no_node _ _ _ fb_nodes). }
  destruct Hn as [ -> |Hc']; unfold bend in *; cbn in *; lia.
Qed.

Local Lemma fb_chain :
  lseg (hmem h) base (map fst N1) p.1 ∧ lseg (hmem h) (hdr_ptr (hmem h) p.1) (map fst N2) base.
Proof.
  assert (Hl := no_list _ _ _ fb_nodes). rewrite map_app in Hl. apply lseg_app in Hl as (r & Hl1 & Hl2).
  cbn [map lseg] in Hl2. destruct Hl2 as [ -> Hl2]. done.
Qed.

Local Lemma fb_first :
  wp (link b.1 b.2 (hdr_ptr (hmem h) p.1)) (fun _ h' =>
    ∃ m', h' = with_mem h m' ∧ header_frame b.1 (hmem h) m' ∧
      lseg m' b.1 (map fst (join b N2)) base ∧
      ∀ c, c ∈ join b N2 → hdr_size m' c.1 = c.2) h.
Proof.
  apply link_spec; [apply fb_chain| | | | | |].
  - intros c Hc. apply (no_size _ _ _ fb_nodes). in_list.
  - intros c Hc. apply fb_apart. in_list.
  - destruct (behind_used _ _ _ _ _ _ fb_nodes). unfold bend. lia.
  - pose proof (no_brk _ _ _ fb_nodes). lia.
  - intros c Hc. destruct (fb_bounds c); [in_list|lia].
  - intros c l El. pose proof (fb_bounds b ltac:(in_list)). destruct (fb_bounds c); [rewrite El; in_list|lia].
Qed.

Local Lemma fb_joined c :
  c ∈ join b N2 → apart p.1 c.1 ∧ 0 ≤ c.1 < 2 ^ 64 ∧ 0 ≤ p.2 + c.2 < 2 ^ 32.
Proof.
  pose proof (fb_bounds p ltac:(in_list)). pose proof (fb_bounds b ltac:(in_list)).
  intros [Hc|(d & Hd & _ & ->)]%join_elem.
  - pose proof (fb_bounds c ltac:(in_list)). split; [|lia].
    apply elem_of_cons in Hc as [ -> |Hc]; [apply fb_apart_pb|]. apply fb_apart. in_list.
  - pose proof (fb_bounds d ltac:(in_list)). cbn [fst snd]. split; [apply fb_apart_pb|lia].
Qed.

Local Lemma fb_second m :
  header_frame b.1 (hmem h) m → lseg m b.1 (map fst (join b N2)) base →
  (∀ c, c ∈ join b N2 → hdr_size m c.1 = c.2) →
  wp (link p.1 p.2 b.1) (fun _ h' =>
    ∃ m', h' = with_mem h m' ∧ header_frame p.1 m m' ∧
      lseg m' p.1 (map fst (join p (join b N2))) base ∧
      ∀ c, c ∈ join p (join b N2) → hdr_size m' c.1 = c.2) (with_mem h m).
Proof.
  intros Hf Hl Hs. apply (link_spec (with_mem h m) p (join b N2) b.1 base); cbn [hmem with_mem]; [exact Hl| | | | | |].
  - intros c [ -> |Hc]%elem_of_cons; [|by apply Hs].
    rewrite (header_frame_size _ _ _ _ Hf) by (symmetry; apply fb_apart_pb).
    apply (no_size _ _ _ fb_nodes). in_list.
  - intros c Hc. by apply fb_joined.
  - destruct N2; cbn [join]; [done|]. by destruct (_ =? _).
  - pose proof (no_brk _ _ _ fb_nodes). lia.
  - intros c Hc. by apply fb_joined.
  - intros c l El. apply fb_joined. rewrite El. in_list.
Qed.

Local Lemma fb_done m1 m2 :
  header_frame b.1 (hmem h) m1 → header_frame p.1 m1 m2 →
  lseg m2 p.1 (map fst (join p (join b N2))) base →
  (∀ c, c ∈ join p (join b N2) → hdr_size m2 c.1 = c.2) →
  nodes_ok (mk_uheap m2 p.1 (brk h)) (N1 ++ join p (join b N2)) U ∧
  data_kept U h (mk_uheap m2 p.1 (brk h)).
Proof.
  intros Hf1 Hf2 Hl Hs. split; [constructor; cbn [hmem freep brk]|].
  - rewrite map_app, lseg_app. exists p.1. split; [|exact Hl].
    eapply lseg_frame, lseg_frame, fb_chain; [exact Hf2| |exact Hf1|];
      intros a (c & -> & Hc)%list_elem_of_fmap; apply fb_apart; in_list.
  - intros c Hc. assert (Hc' : c ∈ join p (join b N2) ∨ c ∈ N1 ++ U) by in_list.
    destruct Hc' as [Hc'|Hc']; [by apply Hs|].
    rewrite (header_frame_size _ _ _ _ Hf2), (header_frame_size _ _ _ _ Hf1) by (apply fb_apart; in_list).
    apply (no_size _ _ _ fb_nodes). in_list.
  - by eapply behind_gapped, HN; [apply fb_nodes|].
  - intros c Hc. by apply (behind_node _ _ _ _ _ _ fb_nodes Hp HN).
  - intros c Hc. apply (no_used _ _ _ fb_nodes). in_list.
  - by apply (behind_pdisj _ _ _ _ _ _ fb_nodes HN).
  - rewrite behind_total. apply (no_total _ _ _ fb_nodes).
  - rewrite map_app, elem_of_app. right. destruct (join b N2); cbn [join]; [|destruct (_ =? _)]; apply list_elem_of_here.
  - apply (no_brk _ _ _ fb_nodes).
  - pose proof (behind_disj _ _ _ _ _ _ fb_nodes) as (Hdp & Hdb & _).
    split; [done|]. intros x Hx. cbn [hmem brk] in *.
    rewrite Hf2, Hf1; [done| |]; eapply header_not_client; try exact Hx.
    + right. apply (behind_used _ _ _ _ _ _ fb_nodes).
    + intros c Hc. destruct (no_used _ _ _ fb_nodes c) as (? & ? & _); [in_list|].
      split; [apply Hdb; in_list|done].
    + apply (no_node _ _ _ fb_nodes). in_list.
    + intros c Hc. destruct (no_used _ _ _ fb_nodes c) as (? & ? & _); [in_list|].
      split; [apply Hdp; in_list|done].
Qed.

Lemma free_spec_nodes fuel :
  (length N1 + length N2 ≤ fuel)%nat →
  wp (free fuel (b.1 + 16)) (fun _ h' =>
    nodes_ok h' (N1 ++ join p (join b N2)) U ∧ brk h' = brk h ∧ data_kept U h h') h.
Proof.
  intros Hfuel. eapply wp_same; [apply free_is_links|]. replace (b.1 + 16 - 16) with b.1 by lia.
  destruct (behind_used _ _ _ _ _ _ fb_nodes) as (Hb & Hb0 & Hb1).
  eapply wp_bind, wp_run.
  { eapply free_search_place with (lo := base - 1); try done.
    - apply (no_list _ _ _ fb_nodes).
    - apply (no_gap _ _ _ fb_nodes).
    - intros c Hc. destruct (fb_bounds c); [in_list|lia].
    - apply (no_freep _ _ _ fb_nodes).
    - lia. }
  apply wp_bind, wp_gets. apply wp_bind, wp_gets. rewrite (no_size _ _ _ fb_nodes) by in_list.
  apply wp_bind. eapply wp_mono; [apply fb_first|]. intros [] h1 (m1 & -> & Hf1 & Hj1 & Hs1). cbv beta.
  apply wp_bind, wp_gets. cbn [hmem with_mem].
  rewrite (header_frame_size _ _ _ _ Hf1) by (symmetry; apply fb_apart_pb).
  rewrite (no_size _ _ _ fb_nodes) by in_list.
  apply wp_bind. eapply wp_mono; [by apply fb_second|]. intros [] h2 (m2 & -> & Hf2 & Hj2 & Hs2). cbv beta.
  apply wp_modify. cbn [hmem brk with_mem].
  destruct (fb_done m1 m2) as [? ?]; auto.
Qed.

End free_behind.

(** [free] gives the block back: the free list covers it, and everything else
    is as it was. *)
Lemma free_spec h F U b fuel :
  heap_ok base h0 h F (b :: U) → (length F ≤ fuel)%nat →
  wp (free fuel (b.1 + 16)) (fun _ h' => ∃ F',
    heap_ok base h0 h' F' U ∧ brk h' = brk h ∧ data_kept U h h' ∧
    (length F' ≤ S (length F))%nat ∧ ∃ c, c ∈ F' ∧ b.2 ≤ c.2) h.
Proof.
  intros HF Hfuel. apply nodes_heap in HF as H.
  assert (Hbu : 0 < b.2 ∧ h0 ≤ b.1 ∧ bend b ≤ brk h) by (apply (no_used _ _ _ H); in_list).
  destruct (place_exists _ _ _ b.1 (no_gap _ _ _ H)) as (N1 & p & N2 & E & Hp & HN).
  { cbn. lia. }
  { intros c Hc. pose proof (ho_disj _ _ _ _ _ HF) as Hd.
    assert (Hd' : pdisj (b :: F ++ U)) by (eapply pairwise_perm, Hd; [apply _|solve_Permutation]).
    destruct Hd' as [Hd' _]. specialize (Hd' c ltac:(in_list)).
    destruct (ho_in _ _ _ _ _ HF c ltac:(in_list)). unfold bdisj, bend in *. lia. }
  { intros c Hc. by eapply node_ok_size, (no_node _ _ _ H). }
  assert (Hlen := f_equal length E). rewrite length_app in Hlen. cbn [length] in Hlen.
  eapply wp_mono; [eapply free_spec_nodes; eauto; lia|]. cbv beta. intros [] h' (Hn & Hbrk & Hk).
  rewrite E in H. destruct (behind_big _ _ _ _ _ _ H HN) as (c & Hc & Hbc).
  assert (HlenJ : (length (N1 ++ join p (join b N2)) ≤ S (S (length F)))%nat).
  { rewrite length_app, Hlen. clear Hlen E. destruct N2 as [|d l]; cbn [join]; repeat (destruct (_ =? _); cbn [length join]); cbn; lia. }
  assert (∃ F', N1 ++ join p (join b N2) = (base, 0) :: F') as [F' EF].
  { destruct N1 as [|n N1]; cbn [app] in E |- *; injection E as <- _; [|eauto].
    destruct (join b N2) as [|d l] eqn:Ej; cbn [join]; [eauto|]. apply join_head_addr in Ej.
    rewrite (proj2 (Z.eqb_neq _ _)); [eauto|]. unfold bend. cbn in *. lia. }
  rewrite EF in Hn, Hc, HlenJ. exists F'. split; [by apply nodes_heap|]. split; [done|]. split; [done|].
  split; [cbn in HlenJ; lia|]. exists c. split; [|done].
  apply elem_of_cons in Hc as [ -> |Hc]; [cbn in *; lia|done].
Qed.

(** ** malloc *)

(** What a successful allocation of [n] units leaves behind. *)
Definition allocated (h : uheap) (U : list block) (n : Z) (lim : nat) (r : Z) (h' : uheap) : Prop :=
  ∃ F' b, heap_ok base h0 h' F' (b :: U) ∧ r = b.1 + 16 ∧ b.2 = n ∧
    data_kept U h h' ∧ (length F' ≤ lim)%nat.

Section take.
Context (h : uheap) (F N1 : list block) (q a : block) (N2 U : list block) (n : Z).
Context (HF : heap_ok base h0 h F U) (E : (base, 0) :: F = N1 ++ q :: a :: N2).
Context (Hn : 0 < n ≤ a.2).

Local Lemma tk_nodes : nodes_ok h (N1 ++ q :: a :: N2) U.
Proof. rewrite <- E. by apply nodes_heap. Qed.

Local Lemma tk_apart :
  pairwise apart (q.1 :: a.1 :: (fst <$> N1 ++ N2 ++ U)).
Proof.
  eapply pairwise_perm; [apply _| |apply (headers_apart _ _ _ HF)].
  change (base :: (fst <$> F ++ U)) with (fst <$> (((base, 0) :: F) ++ U)).
  rewrite E. change (q.1 :: a.1 :: (fst <$> N1 ++ N2 ++ U)) with (fst <$> (q :: a :: N1 ++ N2 ++ U)).
  apply fmap_Permutation. solve_Permutation.
Qed.

Local Lemma tk_apart_q c : c ∈ a :: N1 ++ N2 ++ U → apart q.1 c.1.
Proof. intros Hc. apply tk_apart. by apply (list_elem_of_fmap_2 fst (a :: N1 ++ N2 ++ U)). Qed.

Local Lemma tk_apart_a c : c ∈ N1 ++ N2 ++ U → apart a.1 c.1.
Proof. intros Hc. apply tk_apart. by apply list_elem_of_fmap_2. Qed.

Local Lemma tk_a : 0 < a.2 ∧ h0 ≤ a.1 ∧ bend a ≤ brk h.
Proof.
  apply (ho_in _ _ _ _ _ HF). destruct N1 as [|c N1']; cbn in E; injection E as _ ->; in_list.
Qed.

Local Lemma tk_disj : pdisj (q :: a :: N1 ++ N2 ++ U).
Proof. eapply pairwise_perm; [apply _| |apply (no_disj _ _ _ tk_nodes)]. solve_Permutation. Qed.

Local Lemma tk_first N2' : ∃ F', (base, 0) :: F' = N1 ++ q :: N2' ∧ (length F' + length N2 + 1 = length F + length N2')%nat.
Proof.
  destruct N1 as [|c N1']; cbn in E |- *; injection E as -> ->; eexists; (split; [reflexivity|]);
    rewrite ?length_app; cbn; rewrite ?length_app; cbn; lia.
Qed.

(** The whole block is taken off the list. *)
Lemma take_exact :
  let m := st64 (hmem h) q.1 (hdr_ptr (hmem h) a.1) in
  nodes_ok (mk_uheap m q.1 (brk h)) (N1 ++ q :: N2) (a :: U) ∧
  data_kept U h (mk_uheap m q.1 (brk h)).
Proof.
  intros m. assert (Hf : header_frame q.1 (hmem h) m) by apply header_frame_st64.
  assert (Hl := no_list _ _ _ tk_nodes). rewrite map_app, lseg_app in Hl. destruct Hl as (r & Hl1 & Hl2).
  cbn [map lseg] in Hl2. destruct Hl2 as (-> & Hqa & Hl2).
  split; [constructor; cbn [hmem freep brk]|].
  - rewrite map_app, lseg_app. exists q.1. split.
    + eapply lseg_frame, Hl1; [exact Hf|]. intros x (c & -> & Hc)%list_elem_of_fmap. apply tk_apart_q. in_list.
    + cbn [map lseg]. split; [done|]. unfold m. rewrite hdr_ptr_set by apply ld64_range.
      eapply lseg_frame, Hl2; [exact Hf|]. intros x (c & -> & Hc)%list_elem_of_fmap. apply tk_apart_q. in_list.
  - intros c Hc. rewrite <- (no_size _ _ _ tk_nodes c) by in_list. unfold m. apply hdr_size_set_ptr.
    assert (Hc' : c = q ∨ c ∈ a :: N1 ++ N2 ++ U) by in_list. destruct Hc' as [ -> |Hc']; [by left|right].
    by apply tk_apart_q.
  - pose proof (no_gap _ _ _ tk_nodes) as Hg. apply gapped_app in Hg as [Hg1 [Hqa' Hg2]].
    apply gapped_app. split; [done|]. eapply gapped_weaken, Hg2. pose proof tk_a. unfold bend in *. lia.
  - intros c Hc. apply (no_node _ _ _ tk_nodes). in_list.
  - intros c [ -> |Hc]%elem_of_cons; [apply tk_a|]. by apply (no_used _ _ _ tk_nodes).
  - eapply pairwise_perm, tk_disj; [apply _|]. solve_Permutation.
  - rewrite <- (no_total _ _ _ tk_nodes). f_equal. apply total_perm. solve_Permutation.
  - rewrite map_app. cbn [map]. in_list.
  - apply (no_brk _ _ _ tk_nodes).
  - split; [done|]. intros x Hx. apply Hf. eapply header_not_client; [| |exact Hx].
    + apply (no_node _ _ _ tk_nodes). in_list.
    + intros c Hc. destruct (no_used _ _ _ tk_nodes c Hc) as (? & ? & _).
      split; [apply tk_disj; in_list|done].
Qed.

(** The tail of the block is cut off. *)
Local Lemma tk_apart_tail c :
  n < a.2 → c ∈ q :: N1 ++ N2 ++ U → apart (a.1 + 16 * (a.2 - n)) c.1.
Proof.
  intros Hlt Hc. destruct tk_disj as (Hq & Ha & _). destruct tk_a as (_ & Ha0 & _).
  assert (Hac : bdisj a c).
  { apply elem_of_cons in Hc as [ -> |Hc]; [symmetry; apply Hq; in_list|by apply Ha]. }
  assert (Hc' : c = (base, 0) ∨ 0 < c.2).
  { assert (Hcc : c ∈ N1 ++ q :: a :: N2 ∨ c ∈ U) by in_list. destruct Hcc as [Hcc|Hcc].
    - destruct (no_node _ _ _ tk_nodes c Hcc) as [ -> |?]; [by left|right; lia].
    - right. by apply (no_used _ _ _ tk_nodes). }
  unfold apart, bdisj, bend in *. destruct Hc' as [ -> |?]; cbn in *; lia.
Qed.

Local Lemma tk_split_disj :
  n < a.2 → pdisj ((N1 ++ q :: (a.1, a.2 - n) :: N2) ++ (a.1 + 16 * (a.2 - n), n) :: U).
Proof.
  intros Hlt. destruct tk_disj as (Hq & Ha & Hd).
  eapply (pairwise_perm _ (q :: (a.1, a.2 - n) :: (a.1 + 16 * (a.2 - n), n) :: N1 ++ N2 ++ U)); [solve_Permutation|].
  assert (Hsub : ∀ c, bdisj a c → bdisj (a.1, a.2 - n) c ∧ bdisj (a.1 + 16 * (a.2 - n), n) c).
  { intros c. unfold bdisj, bend. cbn. split; lia. }
  repeat split; [| | |done].
  - assert (Hqa : bdisj a q) by (symmetry; apply Hq; in_list).
    intros c Hc. symmetry. apply Hsub in Hqa as [Hqa1 Hqa2].
    apply elem_of_cons in Hc as [ -> |Hc]; [done|]. apply elem_of_cons in Hc as [ -> |Hc]; [done|].
    symmetry. apply Hq. in_list.
  - intros c [ -> |Hc]%elem_of_cons; [unfold bdisj, bend; cbn; lia|]. by apply Hsub, Ha.
  - intros c Hc. by apply Hsub, Ha.
Qed.

Lemma take_split :
  n < a.2 →
  let b := (a.1 + 16 * (a.2 - n), n) in
  let m := st32 (st32 (hmem h) (a.1 + 8) (a.2 - n)) (b.1 + 8) n in
  nodes_ok (mk_uheap m q.1 (brk h)) (N1 ++ q :: (a.1, a.2 - n) :: N2) (b :: U) ∧
  data_kept U h (mk_uheap m q.1 (brk h)).
Proof.
  intros Hlt b m. destruct tk_a as (Ha & Ha0 & Ha1). pose proof (no_brk _ _ _ tk_nodes) as Hbrk.
  assert (Hab : apart a.1 b.1) by (unfold apart; cbn; lia).
  assert (Hptr : ∀ c, c ∈ a :: q :: N1 ++ N2 ++ U → hdr_ptr m c.1 = hdr_ptr (hmem h) c.1).
  { intros c Hc. unfold m. apply elem_of_cons in Hc as [ -> |Hc].
    - by rewrite !hdr_ptr_set_size by auto using apart_sym.
    - rewrite !hdr_ptr_set_size; [done| |right; by apply tk_apart_tail].
      right. apply elem_of_cons in Hc as [ -> |Hc]; [symmetry; apply tk_apart_q; in_list|by apply tk_apart_a]. }
  split; [constructor; cbn [hmem freep brk]|].
  - replace (map fst (N1 ++ q :: (a.1, a.2 - n) :: N2)) with (map fst (N1 ++ q :: a :: N2))
      by (rewrite !map_app; done).
    eapply lseg_ext; [|apply (no_list _ _ _ tk_nodes)].
    intros x (c & -> & Hc)%list_elem_of_fmap. apply Hptr. in_list.
  - intros c Hc. assert (Hc' : c = b ∨ c = (a.1, a.2 - n) ∨ c ∈ q :: N1 ++ N2 ++ U) by in_list.
    unfold m. destruct Hc' as [ -> |[ -> |Hc']]; cbn [fst snd].
    + apply hdr_size_set. unfold b, bend in *. cbn [fst snd]. lia.
    + rewrite hdr_size_set_ne by (by symmetry). apply hdr_size_set. unfold bend in *. lia.
    + rewrite !hdr_size_set_ne; [apply (no_size _ _ _ tk_nodes); in_list| |by apply tk_apart_tail].
      apply elem_of_cons in Hc' as [ -> |Hc']; [symmetry; apply tk_apart_q; in_list|by apply tk_apart_a].
  - pose proof (no_gap _ _ _ tk_nodes) as Hg. apply gapped_app in Hg as [Hg1 [Hqa Hg2]].
    apply gapped_app. split; [done|]. cbn [gapped fst]. split; [done|].
    eapply gapped_weaken, Hg2. unfold bend. cbn. lia.
  - intros c Hc. assert (Hc' : c = (a.1, a.2 - n) ∨ c ∈ N1 ++ q :: a :: N2) by in_list.
    destruct Hc' as [ -> |Hc']; [right; unfold bend in *; cbn; lia|by apply (no_node _ _ _ tk_nodes)].
  - intros c [ -> |Hc]%elem_of_cons; [unfold bend in *; cbn; lia|by apply (no_used _ _ _ tk_nodes)].
  - by apply tk_split_disj.
  - rewrite <- (no_total _ _ _ tk_nodes). f_equal.
    rewrite (total_perm _ ((a.1, a.2 - n) :: b :: q :: N1 ++ N2 ++ U)) by solve_Permutation.
    rewrite (total_perm ((N1 ++ q :: a :: N2) ++ U) (a :: q :: N1 ++ N2 ++ U)) by solve_Permutation.
    cbn [total snd b]. lia.
  - rewrite map_app. cbn [map]. in_list.
  - done.
  - split; [done|]. intros x Hx. cbn [hmem brk] in *. unfold m. rewrite !header_frame_st32; [done| |].
    + eapply (header_not_client h U a); [| |exact Hx]; [right; done|].
      intros c Hc. destruct (no_used _ _ _ tk_nodes c Hc) as (? & ? & _). split; [apply tk_disj; in_list|done].
    + eapply (header_not_client h U b); [| |exact Hx]; [right; unfold bend in *; cbn; lia|].
      intros c Hc. destruct (no_used _ _ _ tk_nodes c Hc) as (? & ? & _). split; [|done].
      destruct tk_disj as (_ & Hd & _). specialize (Hd c ltac:(in_list)). unfold bdisj, bend in *. cbn. lia.
Qed.

Lemma take_block_spec :
  wp (take_block n q.1 a.1) (fun r h' => allocated h U n (length F) r h' ∧ brk h' = brk h) h.
Proof.
  unfold take_block. apply wp_bind, wp_gets.
  rewrite (no_size _ _ _ tk_nodes) by in_list. pose proof (no_brk _ _ _ tk_nodes). pose proof tk_a as (_ & ? & ?).
  destruct (Z.eqb_spec a.2 n) as [En|En].
  - apply wp_bind, wp_bind, wp_gets. apply wp_bind, wp_modify, wp_ret. cbn [hmem freep brk].
    apply wp_bind, wp_modify, wp_ret. cbn [hmem freep brk]. split; [|done].
    destruct (tk_first N2) as (F' & EF & Hlen). destruct take_exact as [Hno Hk]. rewrite <- EF in Hno.
    apply nodes_heap in Hno. exists F', a. unfold sizeof_Header. split; [exact Hno|]. split; [done|].
    split; [done|]. split; [exact Hk|]. lia.
  - apply wp_bind, wp_bind, wp_modify, wp_bind, wp_modify, wp_ret. cbn [hmem freep brk].
    apply wp_bind, wp_modify, wp_ret. cbn [hmem freep brk]. split; [|done].
    unfold u32, sizeof_Header, bend in *. rewrite Z.mod_small by lia.
    replace (a.1 + (a.2 - n) * 16) with (a.1 + 16 * (a.2 - n)) by lia.
    destruct (tk_first ((a.1, a.2 - n) :: N2)) as (F' & EF & Hlen).
    destruct take_split as [Hno Hk]; [lia|]. rewrite <- EF in Hno.
    apply nodes_heap in Hno. eexists F', _. split; [exact Hno|]. split; [done|].
    split; [done|]. split; [exact Hk|]. cbn in Hlen. lia.
Qed.

End take.

(** The next-fit scan: it stops at the first block that is large enough, or
    comes back to [freep] having seen that none is. *)
Section scan.
Context (can_grow : Z → Z → bool).
Context (Hgrow : ∀ sz sz', can_grow sz sz' = true → sz' < 2 ^ 32).
Abbreviation mloop := (malloc_loop can_grow).

Definition grow_and_retry (fuel : nat) (n : Z) : M uheap Z :=
  do q <- morecore can_grow fuel n;
  if q =? 0 then ret 0
  else do nx <- get_ptr q; mloop fuel n q nx.

Lemma malloc_loop_step h n q p fuel :
  mloop (S fuel) n q p h =
  (if n <=? hdr_size (hmem h) p then take_block n q p
   else if p =? freep h then grow_and_retry fuel n
   else mloop fuel n p (hdr_ptr (hmem h) p)) h.
Proof.
  cbn [malloc_loop]. unfold bind at 1, get_size, gets. cbv beta iota.
  destruct (n <=? _); [done|]. unfold bind at 1, get. cbv beta iota. by destruct (p =? freep h).
Qed.

Lemma malloc_scan h n V p q fuel :
  lseg (hmem h) p V (freep h) → hdr_ptr (hmem h) q = p → freep h ∉ V → (length V < fuel)%nat →
  (∃ q', q' ∈ q :: V ∧ n ≤ hdr_size (hmem h) (hdr_ptr (hmem h) q') ∧
     mloop fuel n q p h = take_block n q' (hdr_ptr (hmem h) q') h) ∨
  (∀ a, a ∈ V ++ [freep h] → hdr_size (hmem h) a < n) ∧
     mloop fuel n q p h = grow_and_retry (fuel - S (length V)) n h.
Proof.
  revert p q fuel; induction V as [|a V IH]; intros p q fuel Hl Hq Hnotin Hf;
    (destruct fuel as [|fuel]; [cbn in Hf; lia|]); rewrite malloc_loop_step; cbn [lseg] in Hl.
  - rewrite Hl in Hq |- *. rewrite Z.eqb_refl. destruct (Z.leb_spec n (hdr_size (hmem h) (freep h))).
    + left. exists q. rewrite Hq. split; [in_list|done].
    + right. split; [intros a Ha; by apply list_elem_of_singleton in Ha as ->|].
      cbn [length Nat.sub]. by rewrite Nat.sub_0_r.
  - destruct Hl as [ -> Hl]. destruct (Z.leb_spec n (hdr_size (hmem h) a)).
    { left. exists q. rewrite Hq. split; [in_list|done]. }
    rewrite (proj2 (Z.eqb_neq _ _)) by (intros E; apply Hnotin; rewrite <- E; in_list).
    destruct (IH (hdr_ptr (hmem h) a) a fuel Hl eq_refl) as [(q' & Hq' & Hs & Hr)|[Hs Hr]].
    + intros Hin. apply Hnotin. in_list.
    + cbn in Hf. lia.
    + left. exists q'. rewrite Hr. split; [in_list|done].
    + right. split; [|by rewrite Hr].
      intros b Hb. assert (Hb' : b = a ∨ b ∈ V ++ [freep h]) by in_list.
      destruct Hb' as [ -> |Hb']; auto.
Qed.

(** The scan started at [freep] sees the whole list. *)
Lemma scan_all h F U :
  heap_ok base h0 h F U →
  ∃ V, lseg (hmem h) (hdr_ptr (hmem h) (freep h)) V (freep h) ∧ (freep h ∉ V) ∧
    length V = length F ∧ (∀ a, a ∈ V ++ [freep h] ↔ a ∈ base :: map fst F).
Proof.
  intros H. assert (Hnd : NoDup (base :: map fst F)).
  { pose proof (headers_apart _ _ _ H) as Hap. clear H. rewrite fmap_app in Hap.
    change (base :: (fst <$> F) ++ (fst <$> U)) with ((base :: map fst F) ++ (fst <$> U)) in Hap.
    revert Hap. generalize (base :: map fst F). induction l as [|a l IH]; [constructor|].
    cbn. intros [Ha Hl]. constructor; [|auto]. intros Hin. specialize (Ha a ltac:(in_list)). unfold apart in Ha. lia. }
  destruct (list_elem_of_split _ _ (ho_freep _ _ _ _ _ H)) as (l1 & l2 & E).
  assert (Hl := ho_list _ _ _ _ _ H). assert (Hlen := f_equal length E).
  cbn [length] in Hlen. rewrite length_map, length_app in Hlen. cbn [length] in Hlen.
  rewrite E in Hl, Hnd |- *. exists (l2 ++ l1). split; [by eapply lseg_rotate|].
  split; [|split].
  - apply NoDup_app in Hnd as (_ & Hx & Hy). apply NoDup_cons in Hy as [Hy _].
    intros [?|Hl1]%elem_of_app; [done|]. apply (Hx _ Hl1). in_list.
  - rewrite length_app. lia.
  - intros a. rewrite !elem_of_app, !elem_of_cons, elem_of_nil. tauto.
Qed.

(** A block that is found is taken. *)
Lemma found_spec h F U n q :
  heap_ok base h0 h F U → 0 < n → q ∈ base :: map fst F →
  n ≤ hdr_size (hmem h) (hdr_ptr (hmem h) q) →
  wp (take_block n q (hdr_ptr (hmem h) q)) (fun r h' => allocated h U n (length F) r h' ∧ brk h' = brk h) h.
Proof.
  intros H Hn Hq Hs. apply nodes_heap in H as Hno.
  change (base :: map fst F) with (fst <$> ((base, 0) :: F)) in Hq.
  apply list_elem_of_fmap in Hq as (c & -> & (l1 & l2 & E)%list_elem_of_split).
  assert (Hl := no_list _ _ _ Hno). rewrite E, map_app in Hl. cbn [map] in Hl.
  assert (Hne : hdr_ptr (hmem h) c.1 ≠ base).
  { intros Eb. rewrite Eb, (ho_base _ _ _ _ _ H) in Hs. lia. }
  destruct (lseg_next _ _ _ _ _ Hl Hne) as (l3 & El).
  destruct l2 as [|a l2]; [done|]. cbn [map] in El. injection El as Ea _. rewrite <- Ea in *.
  eapply take_block_spec; [exact H|exact E|].
  rewrite (no_size _ _ _ Hno a) in Hs; [lia|]. rewrite E. in_list.
Qed.

(** The memory from sbrk is a new allocated block at the end of the heap. *)
Lemma grow_heap h F U nu :
  heap_ok base h0 h F U → 0 < nu → brk h + 16 * nu < 2 ^ 32 →
  let h' := mk_uheap (st32 (hmem h) (brk h + 8) nu) (freep h) (brk h + 16 * nu) in
  heap_ok base h0 h' F ((brk h, nu) :: U) ∧ data_kept U h h'.
Proof.
  intros H Hnu Hlim h'. destruct (ho_brk _ _ _ _ _ H) as [Hb0 _].
  assert (Hf : header_frame (brk h) (hmem h) (hmem h')) by apply header_frame_st32.
  assert (Hin : ∀ c, c ∈ F ++ U → apart (brk h) c.1 ∧ bend c ≤ brk h).
  { intros c Hc. destruct (ho_in _ _ _ _ _ H c Hc) as (? & ? & ?). unfold apart, bend in *. lia. }
  split; [constructor; unfold h'; cbn [hmem freep brk]|].
  - eapply lseg_frame, (ho_list _ _ _ _ _ H); [exact Hf|].
    intros a [ -> |(c & -> & Hc)%list_elem_of_fmap]%elem_of_cons; [unfold apart; lia|]. apply Hin. in_list.
  - rewrite (header_frame_size _ _ _ _ Hf); [apply (ho_base _ _ _ _ _ H)|unfold apart; lia].
  - intros c Hc. assert (Hc' : c = (brk h, nu) ∨ c ∈ F ++ U) by in_list. destruct Hc' as [ -> |Hc'].
    + apply hdr_size_set. cbn. lia.
    + rewrite (header_frame_size _ _ _ _ Hf) by (by apply Hin). by apply (ho_size _ _ _ _ _ H).
  - apply (ho_gap _ _ _ _ _ H).
  - intros c Hc. assert (Hc' : c = (brk h, nu) ∨ c ∈ F ++ U) by in_list. destruct Hc' as [ -> |Hc'].
    + unfold bend. cbn. lia.
    + destruct (ho_in _ _ _ _ _ H c Hc') as (? & ? & ?). lia.
  - eapply (pairwise_perm _ ((brk h, nu) :: F ++ U)); [solve_Permutation|].
    split; [|apply (ho_disj _ _ _ _ _ H)]. intros c Hc. right. cbn. by apply Hin.
  - rewrite (total_perm _ ((brk h, nu) :: F ++ U)) by solve_Permutation. cbn [total snd].
    pose proof (ho_total _ _ _ _ _ H). lia.
  - apply (ho_freep _ _ _ _ _ H).
  - lia.
  - split; [cbn; lia|]. intros x Hx. apply Hf. destruct Hx as [(c & Hc & Hx)|Hx]; [|cbn in Hx; lia].
    destruct (Hin c); [in_list|]. unfold user_bytes in Hx. lia.
Qed.

Definition grow_units (n : Z) : Z := if n <? 4096 then 4096 else n.

Lemma morecore_spec h F U n fuel :
  heap_ok base h0 h F U → 0 < n < 2 ^ 27 → (length F ≤ fuel)%nat →
  wp (morecore can_grow fuel n) (fun r h' =>
    if can_grow (brk h) (brk h + 16 * grow_units n) then
      r = freep h' ∧ ∃ F', heap_ok base h0 h' F' U ∧ data_kept U h h' ∧
        (length F' ≤ S (length F))%nat ∧ ∃ c, c ∈ F' ∧ n ≤ c.2
    else r = 0 ∧ h' = h) h.
Proof.
  intros H Hn Hfuel. unfold morecore. fold (grow_units n).
  assert (Hu : n ≤ grow_units n ∧ 0 < grow_units n < 2 ^ 27) by (unfold grow_units; destruct (_ <? _) eqn:?; lia).
  apply wp_bind. unfold sbrk. replace (i32 (grow_units n * sizeof_Header)) with (16 * grow_units n).
  2: { unfold sizeof_Header. rewrite i32_small; lia. }
  apply wp_bind, wp_get. rewrite (proj2 (Z.ltb_lt _ _)) by lia.
  destruct (can_grow _ _) eqn:Eg.
  - apply Hgrow in Eg. apply wp_bind. eapply wp_run; [reflexivity|]. apply wp_ret. cbv beta.
    pose proof (ho_brk _ _ _ _ _ H) as Hb.
    rewrite (proj2 (Z.eqb_neq _ _)) by (change (u64 (-1)) with (2 ^ 64 - 1); lia).
    apply wp_bind, wp_modify. cbn [hmem freep brk]. destruct (grow_heap h F U (grow_units n)) as [H1 Hk1]; try done; [lia|].
    apply wp_bind. eapply wp_mono; [exact (free_spec _ _ _ _ _ H1 Hfuel)|].
    intros [] h' (F' & H' & Eb & Hk & Hlen & c & Hc & Hbig). cbv beta. apply wp_bind, wp_get, wp_ret.
    split; [done|]. exists F'. split; [done|]. split; [by eapply data_kept_trans|].
    split; [done|]. exists c. split; [done|]. cbn in Hbig. lia.
  - apply wp_ret. cbv beta. rewrite Z.eqb_refl. by apply wp_ret.
Qed.

Lemma malloc_loop_spec h F U n fuel :
  heap_ok base h0 h F U → 0 < n < 2 ^ 27 → (2 * length F + 3 ≤ fuel)%nat →
  wp (mloop fuel n (freep h) (hdr_ptr (hmem h) (freep h))) (fun r h' =>
    allocated h U n (S (length F)) r h' ∨
    r = 0 ∧ h' = h ∧ can_grow (brk h) (brk h + 16 * grow_units n) = false ∧ ∀ c, c ∈ F → c.2 < n) h.
Proof.
  intros H Hn Hfuel. destruct (scan_all h F U H) as (V & Hl & Hni & Hlen & HV).
  destruct (malloc_scan h n V _ (freep h) fuel Hl eq_refl Hni ltac:(lia)) as [(q & Hq & Hs & Hr)|[Hs Hr]].
  - eapply wp_same; [exact Hr|]. eapply wp_mono; [eapply found_spec; [exact H|lia| |exact Hs]|].
    + apply HV. in_list.
    + cbv beta. intros r h' [(F' & b & ? & ? & ? & ? & ?) _]. left. exists F', b. split; [done|]. auto.
  - eapply wp_same; [exact Hr|]. unfold grow_and_retry. apply wp_bind.
    eapply wp_mono; [apply (morecore_spec h F U n _ H Hn); lia|]. cbv beta. intros r h1 H1.
    destruct (can_grow _ _) eqn:Eg.
    + destruct H1 as (-> & F1 & H1 & Hk & Hlen1 & c & Hc & Hbig).
      assert (freep h1 ≠ 0).
      { pose proof (ho_freep _ _ _ _ _ H1) as Hf. intros E0. rewrite E0 in Hf.
        apply elem_of_cons in Hf as [?|(d & Ed & Hd)%list_elem_of_fmap]; [lia|].
        destruct (ho_in _ _ _ _ _ H1 d); [in_list|lia]. }
      rewrite (proj2 (Z.eqb_neq _ _)) by done. apply wp_bind, wp_gets.
      destruct (scan_all h1 F1 U H1) as (V1 & Hl1 & Hni1 & Hlen1' & HV1).
      destruct (malloc_scan h1 n V1 _ (freep h1) (fuel - S (length V)) Hl1 eq_refl Hni1 ltac:(lia))
        as [(q & Hq & Hs1 & Hr1)|[Hs1 _]].
      * eapply wp_same; [exact Hr1|]. eapply wp_mono; [eapply found_spec; [exact H1|lia| |exact Hs1]|].
        { apply HV1. in_list. }
        cbv beta. intros r h' [(F' & b & ? & ? & ? & Hk2 & ?) Eb]. left. exists F', b. do 3 (split; [done|]). split; [by eapply data_kept_trans|lia].
      * exfalso. specialize (Hs1 c.1). rewrite (ho_size _ _ _ _ _ H1) in Hs1 by in_list.
        enough (c.2 < n) by lia. apply Hs1, HV1. apply list_elem_of_further. by apply (list_elem_of_fmap_2 fst).
    + destruct H1 as [ -> -> ]. cbn. apply wp_ret. right. do 3 (split; [done|]). intros c Hc.
      rewrite <- (ho_size _ _ _ _ _ H c) by in_list. apply Hs, HV, list_elem_of_further.
      by apply (list_elem_of_fmap_2 fst).
Qed.

(** A heap that malloc has set up, or one it has not seen yet. *)
Definition heap_inv (h : uheap) (F U : list block) : Prop :=
  heap_ok base h0 h F U ∨ freep h = 0 ∧ F = [] ∧ U = [] ∧ brk h = h0.

Context (Hh0 : h0 < 2 ^ 32).

Lemma heap_ok_freep h F U : heap_ok base h0 h F U → freep h ≠ 0.
Proof.
  intros H E0. pose proof (ho_freep _ _ _ _ _ H) as Hf. rewrite E0 in Hf.
  apply elem_of_cons in Hf as [?|(d & Ed & Hd)%list_elem_of_fmap]; [lia|].
  destruct (ho_in _ _ _ _ _ H d); [in_list|lia].
Qed.

Lemma heap_init h :
  brk h = h0 →
  let m := st32 (st64 (hmem h) base base) (base + 8) 0 in
  heap_ok base h0 (mk_uheap m base (brk h)) [] [] ∧ data_kept [] h (mk_uheap m base (brk h)).
Proof.
  intros Hb m. unfold m. split; [constructor; cbn [hmem freep brk app map lseg gapped pairwise total]; try done|].
  - rewrite hdr_ptr_set_size by auto. rewrite hdr_ptr_set by lia. done.
  - by apply hdr_size_set.
  - by intros b ?%elem_of_nil.
  - by intros b ?%elem_of_nil.
  - lia.
  - in_list.
  - lia.
  - split; [done|]. intros x Hx. cbn [hmem brk] in *. rewrite header_frame_st32, header_frame_st64; [done| |];
      destruct Hx as [(c & Hc & _)|Hx]; try lia; by apply elem_of_nil in Hc.
Qed.

Lemma units_bounds nbytes :
  0 ≤ nbytes ≤ 2 ^ 31 - 32 → 0 < units nbytes < 2 ^ 27 ∧ nbytes + 16 ≤ 16 * units nbytes < nbytes + 32.
Proof.
  intros H. unfold units, u32, sizeof_Header. rewrite Z.mod_small by zdm. zdm.
Qed.

(** What malloc promises. *)
Definition malloc_post (h : uheap) (F U : list block) (nbytes r : Z) (h' : uheap) : Prop :=
  data_kept U h h' ∧
  ((∃ F' b, heap_ok base h0 h' F' (b :: U) ∧ r = b.1 + 16 ∧ b.2 = units nbytes) ∨
   r = 0 ∧ heap_ok base h0 h' F U ∧ brk h' = brk h ∧
   can_grow (brk h) (brk h + 16 * grow_units (units nbytes)) = false ∧ ∀ c, c ∈ F → c.2 < units nbytes).

Lemma malloc_spec h F U nbytes fuel :
  heap_inv h F U → 0 ≤ nbytes ≤ 2 ^ 31 - 32 → (2 * length F + 3 ≤ fuel)%nat →
  wp (malloc base can_grow fuel nbytes) (malloc_post h F U nbytes) h.
Proof.
  intros Hi Hn Hfuel. destruct (units_bounds nbytes Hn) as [Hu _].
  assert (∃ h1, heap_ok base h0 h1 F U ∧ data_kept U h h1 ∧ brk h1 = brk h ∧
    malloc base can_grow fuel nbytes h = mloop fuel (units nbytes) (freep h1) (hdr_ptr (hmem h1) (freep h1)) h1)
    as (h1 & H & Hk & Eb & Er).
  { destruct Hi as [H|(Hf & -> & -> & Eb)].
    - exists h. split; [done|]. split; [apply data_kept_refl|]. split; [done|].
      unfold malloc, bind at 1, get. cbv beta iota.
      rewrite (proj2 (Z.eqb_neq _ _)) by (by eapply heap_ok_freep). reflexivity.
    - destruct (heap_init h Eb) as [H Hk]. eexists. split; [exact H|]. split; [exact Hk|]. split; [done|].
      unfold malloc, bind at 1, get. cbv beta iota. rewrite Hf. reflexivity. }
  eapply wp_same; [exact Er|]. eapply wp_mono; [by apply (malloc_loop_spec h1 F U)|].
  cbv beta. rewrite Eb. intros r h' [(F' & b & Hok & -> & Hs & Hk2 & _)|(-> & -> & Hc & HF)].
  - split; [by eapply data_kept_trans|]. left. exists F', b. auto.
  - split; [done|]. right. auto.
Qed.

End scan.
End heap.

(** ** A program that allocates, uses and frees memory *)

(** The number of free blocks is below the number of bytes: a bound for the
    walks through the list. *)
Definition walk_bound (h : uheap) : nat := Z.to_nat (brk h).

Lemma length_le_total l : (∀ b : block, b ∈ l → 0 < b.2) → Z.of_nat (length l) ≤ total l.
Proof.
  induction l as [|b l IH]; intros H; cbn [length total]; [lia|].
  pose proof (H b (list_elem_of_here _ _)).
  assert (Z.of_nat (length l) ≤ total l) by (apply IH; intros; apply H; in_list). lia.
Qed.

Section client.
Context (base h0 : Z) (can_grow : Z → Z → bool).

(** The heap, and the blocks the program has: it asks for a block, gives one
    of its blocks back, or writes into one.  It does not move the end of the
    heap in other ways. *)
Inductive client_step : uheap * list block → uheap * list block → Prop :=
  | client_malloc nbytes r h h' U :
      0 ≤ nbytes ≤ 2 ^ 31 - 32 → malloc base can_grow (walk_bound h) nbytes h = Ok (r, h') → r ≠ 0 →
      client_step (h, U) (h', (r - sizeof_Header, units nbytes) :: U)
  | client_malloc_fails nbytes h h' U :
      0 ≤ nbytes ≤ 2 ^ 31 - 32 → malloc base can_grow (walk_bound h) nbytes h = Ok (0, h') →
      client_step (h, U) (h', U)
  | client_free b h h' U1 U2 :
      free (walk_bound h) (b.1 + sizeof_Header) h = Ok (tt, h') →
      client_step (h, U1 ++ b :: U2) (h', U1 ++ U2)
  | client_write b x v h U :
      b ∈ U → user_bytes b x → client_step (h, U) (with_mem h (st8 (hmem h) x v), U).

Context (Hbase : 0 < base ∧ base + 16 ≤ h0 < 2 ^ 32).
Context (Hgrow : ∀ sz sz', can_grow sz sz' = true → sz' < 2 ^ 32).

Lemma heap_ok_perm h F U U' : U ≡ₚ U' → heap_ok base h0 h F U → heap_ok base h0 h F U'.
Proof.
  intros P H. destruct H. assert (PF : F ++ U ≡ₚ F ++ U') by (by rewrite P).
  constructor; try done.
  - intros b Hb. apply ho_size0. by rewrite PF.
  - intros b Hb. apply ho_in0. by rewrite PF.
  - eapply pairwise_perm; [apply _|exact PF|done].
  - by rewrite <- (total_perm _ _ PF).
Qed.

Lemma walk_bound_enough h F U : heap_inv base h0 h F U → (2 * length F + 3 ≤ walk_bound h)%nat.
Proof.
  unfold walk_bound. intros [H|(_ & -> & _ & Hb)]; [|cbn; lia].
  assert (Hlen : Z.of_nat (length (F ++ U)) ≤ total (F ++ U)).
  { apply length_le_total. intros b Hb. by apply (ho_in _ _ _ _ _ H). }
  pose proof (ho_total _ _ _ _ _ H). rewrite length_app in Hlen. lia.
Qed.

(** A write into an allocated block does not touch a header. *)
Lemma write_ok h F U b x v :
  heap_ok base h0 h F U → b ∈ U → user_bytes b x → heap_ok base h0 (with_mem h (st8 (hmem h) x v)) F U.
Proof.
  intros H Hb Hx. apply list_elem_of_split in Hb as (U1 & U2 & ->).
  destruct (ho_in _ _ _ _ _ H b) as (Hb1 & Hb2 & _); [in_list|].
  assert (Hd : pdisj (b :: F ++ U1 ++ U2)).
  { eapply pairwise_perm, (ho_disj _ _ _ _ _ H); [apply _|solve_Permutation]. }
  assert (Hout : ∀ a y, a = base ∨ a ∈ map fst (F ++ U1 ++ b :: U2) → a ≤ y < a + 16 →
    ld8 (st8 (hmem h) x v) y = ld8 (hmem h) y).
  { intros a y Ha Hy. apply ld8_st8_ne. unfold user_bytes in Hx.
    destruct Ha as [ -> |(c & -> & Hc)%list_elem_of_fmap]; [lia|].
    destruct (ho_in _ _ _ _ _ H c Hc) as (? & _).
    assert (Hc' : c = b ∨ c ∈ F ++ U1 ++ U2) by in_list. destruct Hc' as [ -> |Hc']; [lia|].
    destruct Hd as [Hd _]. specialize (Hd c Hc'). unfold bdisj, bend in *. lia. }
  destruct H. constructor; cbn [with_mem hmem freep brk]; try done.
  - eapply lseg_ext; [|done]. intros a Ha. apply (ldn_ext 8). intros. apply (Hout a); [|lia].
    rewrite map_app. in_list.
  - rewrite <- ho_base0. apply (ldn_ext 4). intros. apply (Hout base); [by left|lia].
  - intros c Hc. rewrite <- (ho_size0 c) by done. apply (ldn_ext 4). intros.
    apply (Hout c.1); [|lia]. right. by apply (list_elem_of_fmap_2 fst).
Qed.

Lemma heap_step_inv s s' F :
  client_step s s' → heap_inv base h0 s.1 F s.2 → ∃ F', heap_inv base h0 s'.1 F' s'.2.
Proof.
  intros Hs Hi. pose proof (walk_bound_enough _ _ _ Hi) as Hw.
  destruct Hs as [nbytes r h h' U Hn E Hr|nbytes h h' U Hn E|b h h' U1 U2 E|b x v h U Hb Hx];
    cbn [fst snd] in *.
  - pose proof (wp_elim _ _ _ _ _ (malloc_spec base h0 ltac:(lia) can_grow Hgrow ltac:(lia) _ _ _ _ _ Hi Hn Hw) E)
      as [_ [(F' & [a s] & Hok & -> & Hb2)|[? _]]]; [|done].
    exists F'. left. unfold sizeof_Header. cbn in *. subst s. by replace (a + 16 - 16) with a by lia.
  - pose proof (wp_elim _ _ _ _ _ (malloc_spec base h0 ltac:(lia) can_grow Hgrow ltac:(lia) _ _ _ _ _ Hi Hn Hw) E)
      as [_ [(F' & b & Hok & E0 & _)|(_ & Hok & _)]]; [|by exists F; left].
    destruct (ho_in _ _ _ _ _ Hok b); [in_list|lia].
  - destruct Hi as [H|(_ & _ & E0 & _)]; [|by destruct U1].
    apply (heap_ok_perm _ _ _ (b :: U1 ++ U2)) in H; [|solve_Permutation].
    pose proof (wp_elim _ _ _ _ _ (free_spec base h0 ltac:(lia) _ _ _ _ (walk_bound h) H ltac:(lia)) E)
      as (F' & Hok & _). exists F'. by left.
  - destruct Hi as [H|(_ & _ & -> & _)]; [|by apply elem_of_nil in Hb].
    exists F. left. by eapply write_ok.
Qed.

Lemma client_inv h U :
  ∀ h1, freep h1 = 0 → brk h1 = h0 → rtc client_step (h1, []) (h, U) → ∃ F, heap_inv base h0 h F U.
Proof.
  intros h1 Hf Hb Hr.
  cut (∀ s s', rtc client_step s s' → ∀ F, heap_inv base h0 s.1 F s.2 → ∃ F', heap_inv base h0 s'.1 F' s'.2).
  { intros H. apply (H _ _ Hr []). right. done. }
  clear -Hbase Hgrow. intros s s' Hr. induction Hr as [s|s1 s2 s3 H12 _ IH]; intros F HF; [eauto|].
  destruct (heap_step_inv _ _ _ H12 HF) as (F' & HF'). eauto.
Qed.

(** Two free blocks have a gap between them. *)
Lemma gapped_total lo F top :
  gapped lo F → (∀ b, b ∈ F → 0 < b.2 ∧ bend b ≤ top) → lo ≤ top →
  16 * total F + Z.of_nat (length F) ≤ top - lo.
Proof.
  revert lo; induction F as [|b F IH]; intros lo; cbn [gapped total length]; [lia|].
  intros [Hlo Hg] HF Ht. pose proof (HF b (list_elem_of_here _ _)).
  specialize (IH (bend b) Hg ltac:(intros; apply HF; in_list) ltac:(lia)). unfold bend in *. lia.
Qed.

(** When the program has given back all its blocks, the heap is one free
    block. *)
Lemma all_free_whole h F : heap_inv base h0 h F [] → brk h - h0 = 0 ∨ ∃ c, c ∈ F ∧ 16 * c.2 = brk h - h0.
Proof.
  intros [H|(_ & _ & _ & Hb)]; [|left; lia]. pose proof (ho_total _ _ _ _ _ H) as Ht. rewrite app_nil_r in Ht.
  destruct F as [|b F]; [left; cbn in Ht; lia|]. right. exists b. split; [in_list|].
  assert (HF : ∀ c, c ∈ b :: F → 0 < c.2 ∧ h0 ≤ c.1 ∧ bend c ≤ brk h).
  { intros c Hc. apply (ho_in _ _ _ _ _ H). by rewrite app_nil_r. }
  destruct (HF b (list_elem_of_here _ _)) as (Hb & Hb0 & Hb1).
  destruct (ho_gap _ _ _ _ _ H) as [_ Hg].
  pose proof (gapped_total _ _ (brk h) Hg ltac:(intros; split; apply HF; in_list) Hb1) as Hl.
  cbn [total] in Ht. destruct F as [|c F]; [cbn in *; lia|]. cbn [length] in Hl. unfold bend in *. lia.
Qed.

End client.

(** C36: Whatever sequence of malloc, free and writes into its own blocks a
    program runs, starting from a heap that malloc has not set up yet: its
    blocks are disjoint and lie in the memory obtained from sbrk.  The next
    malloc returns, changes no byte of the program's data, and gives 0 only
    if the kernel has no memory left, otherwise a block with room for the
    bytes asked for that overlaps no other; free of one of the blocks returns
    and changes no byte of the others.  And a program that has freed all its
    blocks can have the whole heap as one block again: adjacent free blocks
    are always joined. *)
Theorem malloc_free_heap base h0 can_grow h1 h U :
  0 < base ∧ base + 16 ≤ h0 < 2 ^ 32 →
  (∀ sz sz', can_grow sz sz' = true → sz' < 2 ^ 32) →
  freep h1 = 0 → brk h1 = h0 → rtc (client_step base can_grow) (h1, []) (h, U) →
  pairwise bdisj U ∧ (∀ b, b ∈ U → h0 ≤ b.1 ∧ bend b ≤ brk h) ∧
  (∀ nbytes, 0 ≤ nbytes ≤ 2 ^ 31 - 32 → ∃ r h',
    malloc base can_grow (walk_bound h) nbytes h = Ok (r, h') ∧ data_kept base h0 U h h' ∧
    (r = 0 → can_grow (brk h) (brk h + 16 * grow_units (units nbytes)) = false) ∧
    (r ≠ 0 → h0 ≤ r - 16 ∧ r + nbytes ≤ r - 16 + 16 * units nbytes ≤ brk h' ∧
       ∀ b, b ∈ U → bdisj (r - 16, units nbytes) b) ∧
    (U = [] → 0 < 16 * units nbytes ≤ brk h - h0 → r ≠ 0)) ∧
  (∀ U1 b U2, U = U1 ++ b :: U2 → ∃ h',
    free (walk_bound h) (b.1 + 16) h = Ok (tt, h') ∧ data_kept base h0 (U1 ++ U2) h h').
Proof.
  intros Hbase Hgrow Hf Hb Hr. destruct (client_inv base h0 can_grow Hbase Hgrow h U h1 Hf Hb Hr) as (F & HF).
  pose proof (walk_bound_enough base h0 Hbase _ _ _ HF) as Hw.
  assert (HU : pairwise bdisj U ∧ ∀ b, b ∈ U → h0 ≤ b.1 ∧ bend b ≤ brk h).
  { destruct HF as [H|(_ & _ & -> & _)]; [|split; [done|by intros b ?%elem_of_nil]]. split.
    - pose proof (ho_disj _ _ _ _ _ H) as Hd. clear -Hd. induction F as [|c F IH]; [done|].
      apply IH. by destruct Hd.
    - intros b Hin. apply (ho_in _ _ _ _ _ H). in_list. }
  split; [apply HU|]. split; [apply HU|]. split.
  - intros nbytes Hn. destruct (proj1 (wp_ok _ _ _) (malloc_spec base h0 ltac:(lia) can_grow Hgrow ltac:(lia) _ _ _ _ _ HF Hn Hw))
      as (r & h' & E & Hk & Hpost). destruct (units_bounds nbytes Hn) as [Hu1 Hu2].
    exists r, h'. split; [done|]. split; [done|].
    destruct Hpost as [(F' & b & Hok & -> & Hs)|(-> & Hok & Eb & Hc & Hall)].
    + destruct (ho_in _ _ _ _ _ Hok b) as (Hb1 & Hb2 & Hb3); [in_list|]. unfold bend in Hb3.
      split; [lia|]. split; [|lia]. intros _. split; [lia|]. split; [lia|]. intros c Hc.
      assert (Hd : pdisj (b :: F' ++ U)).
      { eapply pairwise_perm, (ho_disj _ _ _ _ _ Hok); [apply _|solve_Permutation]. }
      destruct Hd as [Hd _]. specialize (Hd c ltac:(in_list)). unfold bdisj, bend in *. cbn. lia.
    + split; [done|]. split; [done|]. intros -> Hle.
      destruct (all_free_whole base h0 Hbase h F HF) as [?|(c & Hc' & Ec)]; [lia|]. specialize (Hall c Hc'). lia.
  - intros U1 b U2 ->. destruct HF as [H|(_ & _ & E0 & _)]; [|by destruct U1].
    apply (heap_ok_perm _ _ _ _ _ (b :: U1 ++ U2)) in H; [|solve_Permutation].
    destruct (proj1 (wp_ok _ _ _) (free_spec base h0 ltac:(lia) _ _ _ _ (walk_bound h) H ltac:(lia)))
      as ([] & h' & E & F' & _ & _ & Hk & _). eauto.
Qed.

(** A program that has one block of 100 bytes, in a process of three pages. *)
Definition heap_start : uheap := mk_uheap (fun _ => 0) 0 12288.
Definition heap_one : uheap := after_run (malloc 4096 (fun _ sz => sz <? 2 ^ 27) (walk_bound heap_start) 100) heap_start.

Lemma malloc_free_heap_witness :
  value (malloc 4096 (fun _ sz => sz <? 2 ^ 27) (walk_bound heap_start) 100) heap_start = Some 77712 ∧
  ∃ h', free (walk_bound heap_one) 77712 heap_one = Ok (tt, h').
Proof.
  assert (E : value (malloc 4096 (fun _ sz => sz <? 2 ^ 27) (walk_bound heap_start) 100) heap_start = Some 77712)
    by (vm_compute; reflexivity).
  split; [exact E|].
  destruct (malloc_free_heap 4096 12288 (fun _ sz => sz <? 2 ^ 27) heap_start heap_one [(77696, 8)])
    as (_ & _ & _ & Hfree).
  - lia.
  - intros _ sz. intros H%Z.ltb_lt. lia.
  - reflexivity.
  - reflexivity.
  - apply rtc_once. apply run_ok in E.
    exact (client_malloc _ _ 100 77712 _ _ [] ltac:(lia) E ltac:(lia)).
  - destruct (Hfree [] (77696, 8) [] eq_refl) as (h' & E' & _). exists h'. exact E'.
Defined.

(** The number of bytes asked from sbrk is truncated to an int: for a request
    of 2^32 - 16 bytes it is 0, sbrk succeeds, and malloc returns a block that
    lies behind the end of the heap. *)
Theorem malloc_huge_beyond_heap :
  let c := malloc 4096 (fun _ _ => false) (walk_bound heap_start) (2 ^ 32 - 16) in
  value c heap_start = Some (brk heap_start + 16) ∧ brk (after_run c heap_start) = brk heap_start.
Proof. split; vm_compute; reflexivity. Qed.
