(* ===== verification/Sh.v ===== *)
(** * The shell (user/sh.c)

    The parser works on the line in the buffer of [main]: a position is an
    index into the buffer, and the commands it builds hold the positions of
    the begin and the end of their words, as in the C code; nulterminate
    writes a NUL behind each word when the whole line has been parsed.  The
    state of the parser is the position [*ps].

    What the code does with processes and files is the program [runcmd]
    builds: a tree of system calls with the two sides of every fork.  The
    allocations of the constructors (malloc of fewer than 200 bytes each) are
    taken to succeed, as the code takes them. *)

From S2P Require Import Prelude Mem Ulib Printf.

(** ** Data *)

Definition MAXARGS : nat := 10.
Definition O_WRONLY : Z := 0x001.
Definition O_RDWR : Z := 0x002.
Definition O_CREATE : Z := 0x200.
Definition O_TRUNC : Z := 0x400.

(** The structures execcmd, redircmd, pipecmd, listcmd and backcmd: the begin
    and the end of each word are positions in the buffer. *)
Inductive cmd : Type :=
  | EXEC (argv : list (nat * nat))
  | REDIR (c : cmd) (file efile : nat) (mode fd : Z)
  | PIPE (left right : cmd)
  | LIST (left right : cmd)
  | BACK (c : cmd).

(** A redirection that has been read: file, efile, mode, fd. *)
Definition redir : Type := nat * nat * Z * Z.

(** redircmd around [cmd], for each of the redirections in turn.  The
    structure of parseexec is filled in while redirections are already
    wrapped around it, so the parser collects them, and they are put around
    the finished command. *)
Definition redircmd (c : cmd) (r : redir) : cmd :=
  match r with (file, efile, mode, fd) => REDIR c file efile mode fd end.
Definition pipecmd (left right : cmd) : cmd := PIPE left right.
Definition listcmd (left right : cmd) : cmd := LIST left right.
Definition backcmd (subcmd : cmd) : cmd := BACK subcmd.
Definition wrap (c : cmd) (rs : list redir) : cmd := foldl redircmd c rs.

(** ** The tokens *)

Definition whitespace : list Z := [32; 9; 13; 10; 11].   (* " \t\r\n\v" *)
Definition symbols : list Z := bytes "<|>&;()".

(** strchr(set, c) as a truth value: the NUL is in no set. *)
Definition strchr (set : list Z) (c : Z) : bool := existsb (Z.eqb c) set.

Section parser.
Context (buf : list Z) (es : nat).

Definition chr (s : nat) : Z := nth s buf 0.

(** while(s < es && p( *s)) s++; *)
Fixpoint scan (p : Z → bool) (k : nat) (s : nat) : nat :=
  match k with
  | O => s
  | S k => if p (chr s) then scan p k (S s) else s
  end.
Definition skip_space (s : nat) : nat := scan (strchr whitespace) (es - s) s.

(** The token, and its begin and end. *)
Definition gettoken : M nat (Z * nat * nat) :=
  do ps <- get;
  let s := skip_space ps in
  let q := s in
  let c := chr s in
  let '(r, s) :=
    if c =? 0 then (c, s)
    else if strchr (bytes "|();&<") c then (c, S s)
    else if strchr (bytes ">") c then
      if strchr (bytes ">") (chr (S s)) then (43, S (S s)) else (c, S s)   (* '+' *)
    else (97, scan (fun c => negb (strchr whitespace c) && negb (strchr symbols c)) (es - s) s) in   (* 'a' *)
  do! put (skip_space s);
  ret (r, q, s).

Definition peek (toks : list Z) : M nat bool :=
  do ps <- get;
  let s := skip_space ps in
  do! put s;
  ret (negb (chr s =? 0) && strchr toks (chr s)).

(** ** The parser *)

(** The loop of parseline over the ampersands. *)
Fixpoint parse_back (fuel : nat) (c : cmd) : M nat cmd :=
  match fuel with
  | O => out_of_fuel
  | S f =>
      do b <- peek (bytes "&");
      if b then do! gettoken; parse_back f (backcmd c) else ret c
  end.

(** The redirections that follow, added to the ones read so far. *)
Fixpoint parseredirs (fuel : nat) (rs : list redir) : M nat (list redir) :=
  match fuel with
  | O => out_of_fuel
  | S f =>
      do b <- peek (bytes "<>");
      if b then
        do ' (tok, _, _) <- gettoken;
        do ' (t, q, eq) <- gettoken;
        if negb (t =? 97) then panic "missing file for redirection"
        else
          parseredirs f (rs ++
            (if tok =? 60 then [(q, eq, O_RDONLY, 0)]                                          (* '<' *)
             else if tok =? 62 then [(q, eq, Z.lor (Z.lor O_WRONLY O_CREATE) O_TRUNC, 1)]      (* '>' *)
             else if tok =? 43 then [(q, eq, Z.lor O_WRONLY O_CREATE, 1)]                      (* '+': >> *)
             else []))
      else ret rs
  end.

(** The loop of parseexec over the arguments. *)
Fixpoint parse_args (fuel : nat) (argv : list (nat * nat)) (rs : list redir) : M nat (list (nat * nat) * list redir) :=
  match fuel with
  | O => out_of_fuel
  | S f =>
      do b <- peek (bytes "|)&;");
      if b then ret (argv, rs)
      else
        do ' (tok, q, eq) <- gettoken;
        if tok =? 0 then ret (argv, rs)
        else if negb (tok =? 97) then panic "syntax"
        else
          let argv := argv ++ [(q, eq)] in
          if (MAXARGS <=? length argv)%nat then panic "too many args"
          else do rs <- parseredirs f rs; parse_args f argv rs
  end.

Fixpoint parseline (fuel : nat) : M nat cmd :=
  match fuel with
  | O => out_of_fuel
  | S f =>
      do c <- parsepipe f;
      do c <- parse_back f c;
      do b <- peek (bytes ";");
      if b then do! gettoken; do r <- parseline f; ret (listcmd c r) else ret c
  end
with parsepipe (fuel : nat) : M nat cmd :=
  match fuel with
  | O => out_of_fuel
  | S f =>
      do c <- parseexec f;
      do b <- peek (bytes "|");
      if b then do! gettoken; do r <- parsepipe f; ret (pipecmd c r) else ret c
  end
with parseexec (fuel : nat) : M nat cmd :=
  match fuel with
  | O => out_of_fuel
  | S f =>
      do b <- peek (bytes "(");
      if b then parseblock f
      else
        do rs <- parseredirs f [];
        do ' (argv, rs) <- parse_args f [] rs;
        ret (wrap (EXEC argv) rs)
  end
with parseblock (fuel : nat) : M nat cmd :=
  match fuel with
  | O => out_of_fuel
  | S f =>
      do b <- peek (bytes "(");
      if negb b then panic "parseblock"
      else
        do! gettoken;
        do c <- parseline f;
        do b <- peek (bytes ")");
        if negb b then panic "syntax - missing )"
        else
          do! gettoken;
          do rs <- parseredirs f [];
          ret (wrap c rs)
  end.

End parser.

(** NUL-terminate all the counted strings. *)
Fixpoint nulterminate (c : cmd) (buf : list Z) : list Z :=
  match c with
  | EXEC argv => foldl (fun buf a => <[a.2 := 0]> buf) buf argv
  | REDIR c _ efile _ _ => <[efile := 0]> (nulterminate c buf)
  | PIPE l r | LIST l r => nulterminate r (nulterminate l buf)
  | BACK c => nulterminate c buf
  end.

(** The NUL-terminated string at the start of a buffer. *)
Fixpoint cstring (l : list Z) : list Z :=
  match l with
  | [] => []
  | c :: l => if c =? 0 then [] else c :: cstring l
  end.
Definition string_at (buf : list Z) (s : nat) : list Z := cstring (drop s buf).

(** A bound on the depth of the calls for a line of [n] bytes. *)
Definition parse_fuel (n : nat) : nat := 4 * n + 4.

(** The command and the buffer.  A panic stands for its message and exit(1);
    for leftovers the rest of the line is in the output as well. *)
Definition parsecmd (buf : list Z) : outcome (cmd * list Z) :=
  let es := length (string_at buf 0) in
  match (do c <- parseline buf es (parse_fuel es);
         do! peek buf es [];
         do s <- get;
         if negb (s =? es)%nat then panic "syntax" else ret c) 0%nat with
  | Ok (c, _) => Ok (c, nulterminate c buf)
  | Panic msg => Panic msg
  | Sleeps ch => Sleeps ch
  | OutOfFuel => OutOfFuel
  end.

(** ** Running a command *)

(** A user program as the system calls it makes.  exec and exit do not return;
    the continuation of [Exec] is the failure.  [Fork child parent failed] has
    the code of both processes.  [Loops] is a loop that has used up its bound. *)
Inductive prog : Type :=
  | Exit (status : Z)
  | Exec (path : list Z) (argv : list (list Z)) (failed : prog)
  | Fork (child parent failed : prog)
  | Wait (k : prog)
  | MkPipe (k : Z → Z → prog) (failed : prog)
  | Close (fd : Z) (k : prog)
  | Dup (fd : Z) (k : prog)
  | Open (path : list Z) (mode : Z) (k : Z → prog)
  | Write (fd : Z) (data : list Z) (k : prog)
  | Chdir (path : list Z) (k failed : prog)
  | Loops.

Definition sh_panic (msg : list Z) : prog := Write 2 (msg ++ [10]) (Exit 1).

(** if(fork1() == 0) child;  parent *)
Definition fork1 (child parent : prog) : prog := Fork child parent (sh_panic (bytes "fork")).

Fixpoint runcmd (buf : list Z) (c : cmd) : prog :=
  match c with
  | EXEC [] => Exit 1
  | EXEC (((q, _) :: _) as argv) =>
      let name := string_at buf q in
      Exec name (map (fun a => string_at buf a.1) argv)
        (Write 2 (bytes "exec " ++ name ++ bytes " failed" ++ [10]) (Exit 0))
  | REDIR c file _ mode fd =>
      Close fd
        (Open (string_at buf file) mode (fun r =>
           if r <? 0 then Write 2 (bytes "open " ++ string_at buf file ++ bytes " failed" ++ [10]) (Exit 1)
           else runcmd buf c))
  | LIST l r => fork1 (runcmd buf l) (Wait (runcmd buf r))
  | PIPE l r =>
      MkPipe
        (fun p0 p1 =>
           fork1 (Close 1 (Dup p1 (Close p0 (Close p1 (runcmd buf l)))))
             (fork1 (Close 0 (Dup p0 (Close p0 (Close p1 (runcmd buf r)))))
                (Close p0 (Close p1 (Wait (Wait (Exit 0)))))))
        (sh_panic (bytes "pipe"))
  | BACK c => fork1 (runcmd buf c) (Exit 0)
  end.

(** The child of [main]: parse the line and run it. *)
Definition run_line (buf : list Z) : prog :=
  match parsecmd buf with
  | Ok (c, buf) => runcmd buf c
  | Panic msg => sh_panic (bytes msg)
  | _ => Loops
  end.

(** The loop that makes sure that three file descriptors are open. *)
Fixpoint open_console (fuel : nat) (k : prog) : prog :=
  match fuel with
  | O => Loops
  | S f =>
      Open (bytes "console") O_RDWR (fun fd =>
        if 0 <=? fd then if 3 <=? fd then Close fd k else open_console f k
        else k)
  end.

Definition sh_nbuf : nat := 100.

(** memset(buf, 0, nbuf); gets(buf, nbuf): the line in the buffer. *)
Definition fill_buf (line : list Z) : list Z :=
  take (sh_nbuf - 1) line ++ replicate (sh_nbuf - length (take (sh_nbuf - 1) line)) 0.

(** The loop over the lines that gets returns, the prompt written before each
    one; an empty line is the end of the input. *)
Fixpoint main_loop (lines : list (list Z)) : prog :=
  Write 2 (bytes "$ ")
    (match lines with
     | [] => Exit 0
     | line :: lines =>
         let buf := fill_buf line in
         if nth 0 buf 0 =? 0 then Exit 0
         else if bool_decide (take 3 buf = bytes "cd ") then
           let buf := <[(length (string_at buf 0) - 1)%nat := 0]> buf in
           let path := string_at buf 3 in
           Chdir path (main_loop lines) (Write 2 (bytes "cannot cd " ++ path ++ [10]) (main_loop lines))
         else fork1 (run_line buf) (Wait (main_loop lines))
     end).

Definition main (lines : list (list Z)) : prog := open_console 4 (main_loop lines).
