(* ===== verification/ShParse.v ===== *)
(** * The parser of the shell

    On every line the parser of user/sh.c returns or panics (it does not
    loop), and the words of the command it returns are, once nulterminate has
    run, the words of the line: no terminator destroys another word. *)

From stdpp Require Import sets.
From S2P Require Import Prelude Printf Sh.

(** ** Runs that return or panic *)

Definition may {S A} (c : M S A) (Q : A → S → Prop) (s : S) : Prop :=
  match c s with Ok (a, s') => Q a s' | Panic _ => True | _ => False end.

Lemma may_ret {S A} (a : A) (Q : A → S → Prop) s : Q a s → may (ret a) Q s.
Proof. done. Qed.
Lemma may_panic {S A} msg (Q : A → S → Prop) s : may (panic msg) Q s.
Proof. done. Qed.
Lemma may_bind {S A B} (c : M S A) (k : A → M S B) Q s :
  may c (fun a s' => may (k a) Q s') s → may (bind c k) Q s.
Proof. unfold may, bind. by destruct (c s) as [[a s']| | |]. Qed.
Lemma may_mono {S A} (c : M S A) (P Q : A → S → Prop) s :
  may c P s → (∀ a s', P a s' → Q a s') → may c Q s.
Proof. unfold may. destruct (c s) as [[a s']| | |]; eauto. Qed.

(** ** Characters *)

Definition word_char (c : Z) : bool :=
  negb (c =? 0) && negb (strchr whitespace c) && negb (strchr symbols c).

(** The words of a command, as begin and end. *)
Fixpoint words (c : cmd) : list (nat * nat) :=
  match c with
  | EXEC argv => argv
  | REDIR c q eq _ _ => words c ++ [(q, eq)]
  | PIPE l r | LIST l r => words l ++ words r
  | BACK c => words c
  end.

(** A list of redirections, as words. *)
Definition redir_words (rs : list redir) : list (nat * nat) := map (fun r => (r.1.1.1, r.1.1.2)) rs.

Lemma words_wrap c rs : words (wrap c rs) = words c ++ redir_words rs.
Proof.
  revert c; induction rs as [|[[[q eq] md] fd] rs IH]; intros c; cbn [wrap foldl redir_words map].
  - by rewrite app_nil_r.
  - unfold wrap in IH. rewrite IH. cbn [redircmd words]. by rewrite <- app_assoc.
Qed.

(** The numbers of arguments. *)
Fixpoint args_ok (c : cmd) : Prop :=
  match c with
  | EXEC argv => (length argv < MAXARGS)%nat
  | REDIR c _ _ _ _ | BACK c => args_ok c
  | PIPE l r | LIST l r => args_ok l ∧ args_ok r
  end.

Lemma args_ok_wrap c rs : args_ok c → args_ok (wrap c rs).
Proof.
  revert c; induction rs as [|[[[q eq] md] fd] rs IH]; intros c H; [done|]. by apply IH.
Qed.

Section tokens.
Context (buf : list Z) (es : nat).
Context (Hin : ∀ s, (s < es)%nat → chr buf s ≠ 0) (Hes : chr buf es = 0).
Open Scope nat_scope.

Lemma scan_spec p k s :
  s ≤ scan buf p k s ≤ s + k ∧ (∀ i, s ≤ i < scan buf p k s → p (chr buf i) = true) ∧
  (scan buf p k s < s + k → p (chr buf (scan buf p k s)) = false).
Proof.
  revert s; induction k as [|k IH]; intros s; cbn [scan]; [split; [lia|split; lia]|].
  destruct (p (chr buf s)) eqn:E.
  - destruct (IH (S s)) as (H1 & H2 & H3). split; [lia|]. split.
    + intros i Hi. destruct (decide (i = s)) as [->|]; [done|]. apply H2. lia.
    + intros. apply H3. lia.
  - split; [lia|]. split; [lia|done].
Qed.

Lemma skip_spec s : s ≤ es → s ≤ skip_space buf es s ≤ es ∧ strchr whitespace (chr buf (skip_space buf es s)) = false.
Proof.
  intros Hs. destruct (scan_spec (strchr whitespace) (es - s) s) as (H1 & _ & H3).
  unfold skip_space. split; [lia|].
  destruct (decide (scan buf (strchr whitespace) (es - s) s = es)) as [->|]; [by rewrite Hes|].
  apply H3. lia.
Qed.

(** A word of the line: a maximal run of word characters. *)
Definition wf_word (w : nat * nat) : Prop :=
  w.1 < w.2 ≤ es ∧ (∀ i, w.1 ≤ i < w.2 → word_char (chr buf i) = true) ∧ word_char (chr buf w.2) = false.

Lemma gettoken_spec s :
  s ≤ es → ∃ r q eq s', gettoken buf es s = Ok ((r, q, eq), s') ∧
    q = skip_space buf es s ∧ s ≤ q ≤ eq ∧ eq ≤ s' ≤ es ∧
    (chr buf q ≠ 0%Z → q < eq) ∧ (r = 97%Z → wf_word (q, eq)).
Proof.
  intros Hs. destruct (skip_spec s Hs) as [Hq Hw]. unfold gettoken, bind, get, put, ret.
  set (q := skip_space buf es s) in *.
  assert (Hend : ∀ i, i ≤ es → chr buf i ≠ 0%Z → S i ≤ es).
  { intros i Hi Hc. destruct (decide (i = es)) as [->|]; [done|lia]. }
  destruct (Z.eqb_spec (chr buf q) 0) as [E|E].
  - do 4 eexists. split; [reflexivity|]. destruct (skip_spec q) as [? _]; [lia|].
    split; [done|]. split; [lia|]. split; [lia|]. split; [done|]. rewrite E. done.
  - pose proof (Hend q ltac:(lia) E) as Hq1. destruct (strchr (bytes "|();&<") (chr buf q)) eqn:E1.
    { do 4 eexists. split; [reflexivity|]. destruct (skip_spec (S q)) as [? _]; [lia|].
      split; [done|]. split; [lia|]. split; [lia|]. split; [lia|]. intros E2. by rewrite E2 in E1. }
    destruct (strchr (bytes ">") (chr buf q)) eqn:E2.
    { destruct (strchr (bytes ">") (chr buf (S q))) eqn:E3.
      - assert (S (S q) ≤ es). { apply Hend; [lia|]. intros E4. by rewrite E4 in E3. }
        do 4 eexists. split; [reflexivity|]. destruct (skip_spec (S (S q))) as [? _]; [lia|].
        split; [done|]. split; [lia|]. split; [lia|]. split; [lia|]. done.
      - do 4 eexists. split; [reflexivity|]. destruct (skip_spec (S q)) as [? _]; [lia|].
        split; [done|]. split; [lia|]. split; [lia|]. split; [lia|]. intros E4. by rewrite E4 in E2. }
    set (p := fun c : Z => negb (strchr whitespace c) && negb (strchr symbols c)).
    destruct (scan_spec p (es - q) q) as (H1 & H2 & H3). set (eq := scan buf p (es - q) q) in *.
    assert (Hpq : p (chr buf q) = true).
    { unfold p. rewrite Hw. cbn [negb andb]. unfold strchr, symbols in *. cbn in *.
      repeat match goal with H : _ || _ = false |- _ => apply orb_false_elim in H as [? ?] end.
      by repeat match goal with H : (_ =? _)%Z = false |- _ => rewrite H; clear H end. }
    assert (Heq : q < eq).
    { destruct (decide (eq = q)) as [Eq|]; [|lia]. rewrite Eq in H3. rewrite H3 in Hpq by lia. done. }
    do 4 eexists. split; [reflexivity|]. destruct (skip_spec eq) as [? _]; [lia|].
    split; [done|]. split; [lia|]. split; [lia|]. split; [done|]. intros _. split; [cbn; lia|]. cbn [fst snd]. split.
    + intros i Hi. unfold word_char. specialize (H2 i Hi). unfold p in H2. rewrite <- andb_assoc, H2, andb_true_r.
      apply negb_true_iff, Z.eqb_neq, Hin. lia.
    + unfold word_char. destruct (decide (eq = es)) as [->|]; [by rewrite Hes|].
      rewrite <- andb_assoc. unfold p in H3. rewrite H3 by lia. apply andb_false_r.
Qed.

Lemma peek_spec toks s :
  s ≤ es → ∃ b s', peek buf es toks s = Ok (b, s') ∧ s ≤ s' ≤ es ∧ skip_space buf es s' = s' ∧
    (b = true → chr buf s' ≠ 0%Z ∧ strchr toks (chr buf s') = true).
Proof.
  intros Hs. destruct (skip_spec s Hs) as [Hq Hw]. unfold peek, bind, get, put, ret.
  do 2 eexists. split; [reflexivity|]. split; [lia|]. split.
  - unfold skip_space at 1. destruct (es - _); cbn [scan]; [done|]. by rewrite Hw.
  - intros [? ?]%andb_prop. split; [|done]. by apply Z.eqb_neq, negb_true_iff.
Qed.

(** ** What the parser builds *)

(** Words of the line between [s] and [s'], none of them twice. *)
Definition apart_words (v w : nat * nat) : Prop := v.2 ≤ w.1 ∨ w.2 ≤ v.1.
#[global] Instance apart_words_sym : Symmetric apart_words.
Proof. unfold apart_words. intros v w. tauto. Qed.

Definition good (s s' : nat) (l : list (nat * nat)) : Prop :=
  (∀ w, w ∈ l → wf_word w ∧ s ≤ w.1 ∧ w.2 ≤ s') ∧ pairwise apart_words l.

Lemma good_nil s s' : good s s' [].
Proof. split; [by intros w ?%elem_of_nil|done]. Qed.
Lemma good_weaken s s' t t' l : t ≤ s → s' ≤ t' → good s s' l → good t t' l.
Proof. intros Ht Ht' [H1 H2]. split; [|done]. intros w Hw. destruct (H1 w Hw) as (? & ? & ?). split; [done|lia]. Qed.
Lemma good_app s s1 s2 l1 l2 : good s s1 l1 → good s1 s2 l2 → s ≤ s1 ≤ s2 → good s s2 (l1 ++ l2).
Proof.
  intros [H1 P1] [H2 P2] Hs. split.
  - intros w [Hw|Hw]%elem_of_app; [destruct (H1 w Hw) as (? & ? & ?)|destruct (H2 w Hw) as (? & ? & ?)]; (split; [done|lia]).
  - apply pairwise_app. split; [done|]. split; [done|]. intros a b Ha Hb. left.
    destruct (H1 a Ha) as (_ & _ & ?). destruct (H2 b Hb) as (_ & ? & _). lia.
Qed.
Lemma good_perm s s' l l' : l ≡ₚ l' → good s s' l → good s s' l'.
Proof.
  intros P [H1 H2]. split; [|eapply pairwise_perm, H2; [apply _|done]]. intros w Hw. apply H1. by rewrite P.
Qed.

Lemma may_peek toks s (Q : bool → nat → Prop) :
  s ≤ es → (∀ b s', s ≤ s' ≤ es → (b = true → ∀ s1 t, gettoken buf es s' = Ok (t, s1) → s' < s1) → Q b s') →
  may (peek buf es toks) Q s.
Proof.
  intros Hs H. destruct (peek_spec toks s Hs) as (b & s' & E & Hs' & Hk & Hb). unfold may. rewrite E.
  apply H; [done|]. intros -> s1 t E1. destruct (gettoken_spec s') as (r & q & eq & s2 & E2 & Hq & H1 & H2 & H3 & _); [lia|].
  rewrite Hk in Hq. subst q. rewrite E2 in E1. injection E1 as _ <-. destruct (Hb eq_refl) as [Hc _]. specialize (H3 Hc). lia.
Qed.

Lemma may_gettoken s (Q : Z * nat * nat → nat → Prop) :
  s ≤ es →
  (∀ r q eq s', gettoken buf es s = Ok ((r, q, eq), s') → s ≤ q ≤ eq → eq ≤ s' ≤ es → (r = 97%Z → wf_word (q, eq)) →
     Q (r, q, eq) s') →
  may (gettoken buf es) Q s.
Proof.
  intros Hs H. destruct (gettoken_spec s Hs) as (r & q & eq & s' & E & _ & H1 & H2 & _ & H4).
  unfold may. rewrite E. by apply H.
Qed.

Lemma parse_back_may fuel c s :
  s ≤ es → es - s < fuel →
  may (parse_back buf es fuel c) (fun t s' => s ≤ s' ≤ es ∧ words t = words c ∧ (args_ok c → args_ok t)) s.
Proof.
  revert c s; induction fuel as [|fuel IH]; intros c s Hs Hf; [lia|]. cbn [parse_back].
  apply may_bind, may_peek; [done|]. intros b s1 H1 Hb. destruct b; [|by apply may_ret].
  apply may_bind, may_gettoken; [lia|]. intros r q eq s2 E H2 H3 _. specialize (Hb eq_refl _ _ E).
  eapply may_mono; [apply IH; lia|]. cbv beta. intros t s3 (H4 & H5 & H6). split; [lia|]. split; [done|]. intros ?. by apply H6.
Qed.

Lemma parseredirs_may fuel rs s :
  s ≤ es → es - s < fuel →
  may (parseredirs buf es fuel rs) (fun rs' s' =>
    s ≤ s' ≤ es ∧ ∃ new, rs' = rs ++ new ∧ good s s' (redir_words new)) s.
Proof.
  revert rs s; induction fuel as [|fuel IH]; intros rs s Hs Hf; [lia|]. cbn [parseredirs].
  apply may_bind, may_peek; [done|]. intros b s1 H1 Hb. destruct b.
  2: { apply may_ret. split; [lia|]. exists []. rewrite app_nil_r. split; [done|apply good_nil]. }
  apply may_bind, may_gettoken; [lia|]. intros r q eq s2 E H2 H3 _. specialize (Hb eq_refl _ _ E).
  apply may_bind, may_gettoken; [lia|]. intros r' q' eq' s3 E' H4 H5 Hw.
  destruct (Z.eqb_spec r' 97) as [Er|]; [|apply may_panic]. cbn [negb]. specialize (Hw Er).
  set (new1 := if (r =? 60)%Z then _ else _).
  assert (Hg : good s s3 (redir_words new1)).
  { unfold new1. destruct (r =? 60)%Z; [|destruct (r =? 62)%Z; [|destruct (r =? 43)%Z; [|apply good_nil]]];
      (split; [|split; [by intros ? ?%elem_of_nil|done]]); cbn [redir_words map fst snd];
      intros w Hin'; apply list_elem_of_singleton in Hin' as ->; (split; [done|cbn; lia]). }
  eapply may_mono; [apply IH; lia|]. cbv beta. intros rs' s4 (H6 & new & -> & Hn).
  split; [lia|]. exists (new1 ++ new). split; [by rewrite app_assoc|].
  unfold redir_words. rewrite map_app. eapply good_app; [exact Hg|exact Hn|lia].
Qed.

Lemma parse_args_may fuel argv rs s :
  s ≤ es → es - s < fuel → length argv < MAXARGS →
  may (parse_args buf es fuel argv rs) (fun '(argv', rs') s' =>
    s ≤ s' ≤ es ∧ length argv' < MAXARGS ∧
    ∃ na nr, argv' = argv ++ na ∧ rs' = rs ++ nr ∧ good s s' (na ++ redir_words nr)) s.
Proof.
  revert argv rs s; induction fuel as [|fuel IH]; intros argv rs s Hs Hf Ha; [lia|]. cbn [parse_args].
  assert (Hdone : ∀ s', s ≤ s' ≤ es → may (ret (argv, rs)) (fun '(argv', rs') s' =>
    s ≤ s' ≤ es ∧ length argv' < MAXARGS ∧
    ∃ na nr, argv' = argv ++ na ∧ rs' = rs ++ nr ∧ good s s' (na ++ redir_words nr)) s').
  { intros s' Hs'. apply may_ret. split; [done|]. split; [done|]. exists [], []. rewrite !app_nil_r.
    split; [done|]. split; [done|apply good_nil]. }
  apply may_bind, may_peek; [done|]. intros b s1 H1 _. destruct b; [by apply Hdone|].
  apply may_bind, may_gettoken; [lia|]. intros r q eq s2 E H2 H3 Hw.
  destruct (r =? 0)%Z; [apply Hdone; lia|]. destruct (Z.eqb_spec r 97) as [Er|]; [|apply may_panic]. cbn [negb].
  specialize (Hw Er). destruct (Nat.leb_spec MAXARGS (length (argv ++ [(q, eq)]))) as [|Hlen]; [apply may_panic|].
  assert (q < eq) by (destruct Hw as [? _]; cbn in *; lia).
  apply may_bind. eapply may_mono; [apply parseredirs_may; lia|]. cbv beta.
  intros rs1 s3 (H5 & new & -> & Hn). eapply may_mono; [apply IH; [lia|lia|done]|]. cbv beta.
  intros [argv' rs'] s4 (H6 & H7 & na & nr & -> & -> & Hg). split; [lia|]. split; [done|].
  exists ((q, eq) :: na), (new ++ nr). rewrite <- !app_assoc. split; [done|]. split; [done|].
  unfold redir_words in *. rewrite map_app.
  apply (good_perm _ _ ([(q, eq)] ++ map (fun r => (r.1.1.1, r.1.1.2)) new ++ (na ++ map (fun r => (r.1.1.1, r.1.1.2)) nr))).
  { solve_Permutation. }
  eapply (good_app s s2); [|eapply good_app; [exact Hn|exact Hg|lia]|lia].
  split; [|split; [by intros ? ?%elem_of_nil|done]].
  intros w Hw'. apply list_elem_of_singleton in Hw' as ->. split; [done|cbn; lia].
Qed.

Definition parsed (s : nat) (t : cmd) (s' : nat) : Prop :=
  s ≤ s' ≤ es ∧ good s s' (words t) ∧ args_ok t.

(** Two parts with a token between them. *)
Lemma parsed_two s t1 s1 s2 t2 s3 :
  parsed s t1 s1 → s1 ≤ s2 → parsed s2 t2 s3 →
  s ≤ s3 ≤ es ∧ good s s3 (words t1 ++ words t2) ∧ args_ok t1 ∧ args_ok t2.
Proof.
  intros (H1 & G1 & A1) H2 (H3 & G2 & A2). split; [lia|]. split; [|done].
  eapply good_app; [exact G1|eapply good_weaken; [| |exact G2]; lia|lia].
Qed.

Lemma may_more toks (rest : M nat cmd) (f : cmd → cmd → cmd) c s s2 :
  (∀ c r, words (f c r) = words c ++ words r ∧ (args_ok (f c r) = (args_ok c ∧ args_ok r))) →
  parsed s c s2 → (∀ s4, s2 < s4 ≤ es → may rest (parsed s4) s4) →
  may (do b <- peek buf es toks; if b then do! gettoken buf es; do r <- rest; ret (f c r) else ret c) (parsed s) s2.
Proof.
  intros Hwf Hc Hrest. apply may_bind, may_peek; [apply Hc|]. intros b s3 H3 Hb. destruct b.
  - apply may_bind, may_gettoken; [lia|]. intros r q eq s4 E ? ? _. specialize (Hb eq_refl _ _ E).
    apply may_bind. eapply may_mono; [apply Hrest; lia|]. intros r' s5 Hr. apply may_ret.
    unfold parsed. destruct (Hwf c r') as [-> ->]. eapply parsed_two; [exact Hc| |exact Hr]. lia.
  - apply may_ret. destruct Hc as (? & G & A). split; [lia|]. split; [|done].
    eapply good_weaken; [| |exact G]; lia.
Qed.

Lemma parse_may fuel :
  ∀ s, s ≤ es →
  (4 * (es - s) + 4 ≤ fuel → may (parseline buf es fuel) (parsed s) s) ∧
  (4 * (es - s) + 3 ≤ fuel → may (parsepipe buf es fuel) (parsed s) s) ∧
  (4 * (es - s) + 2 ≤ fuel → may (parseexec buf es fuel) (parsed s) s) ∧
  (4 * (es - s) + 1 ≤ fuel → may (parseblock buf es fuel) (parsed s) s).
Proof.
  induction fuel as [|fuel IH]; intros s Hs; [lia|].
  split; [|split; [|split]]; intros Hf; cbn [parseline parsepipe parseexec parseblock].
  - apply may_bind. eapply may_mono; [apply IH; lia|]. intros c s1 H1.
    apply may_bind. eapply may_mono; [apply parse_back_may; [apply H1|destruct H1; lia]|]. cbv beta.
    intros c' s2 (H2 & Hw & Ha). assert (H1' : parsed s c' s2).
    { destruct H1 as (? & G & A). split; [lia|]. rewrite Hw. split; [|auto].
      eapply good_weaken; [| |exact G]; lia. }
    apply (may_more _ _ LIST); [done|done|]. intros s4 H4. destruct H1'. apply IH; lia.
  - apply may_bind. eapply may_mono; [apply IH; lia|]. intros c s2 H1.
    apply (may_more _ _ PIPE); [done|done|]. intros s4 H4. destruct H1. apply IH; lia.
  - apply may_bind, may_peek; [done|]. intros b s1 H1 _. destruct b.
    + eapply may_mono; [apply IH; lia|]. intros t s2 (? & G & ?). split; [lia|]. split; [|done].
      eapply good_weaken; [| |exact G]; lia.
    + apply may_bind. eapply may_mono; [apply parseredirs_may; lia|]. cbv beta. intros rs s2 (H2 & new & -> & G).
      apply may_bind. eapply may_mono; [apply parse_args_may; [lia|lia|cbn; unfold MAXARGS; lia]|]. cbv beta.
      intros [argv rs] s3 (H3 & Hlen & na & nr & -> & -> & G'). apply may_ret. split; [lia|].
      split; [|by apply args_ok_wrap]. rewrite words_wrap. cbn [words app].
      eapply (good_perm _ _ (redir_words new ++ (na ++ redir_words nr))).
      { unfold redir_words. rewrite map_app. solve_Permutation. }
      eapply good_app; [|exact G'|]; [eapply good_weaken; [| |exact G]; lia|lia].
  - apply may_bind, may_peek; [done|]. intros b s1 H1 Hb. destruct b; [|apply may_panic]. cbn [negb].
    apply may_bind, may_gettoken; [lia|]. intros r q eq s2 E ? ? _. specialize (Hb eq_refl _ _ E).
    apply may_bind. eapply may_mono; [apply IH; lia|]. intros c s3 (H3 & G & A).
    apply may_bind, may_peek; [lia|]. intros b s4 H4 _. destruct b; [|apply may_panic]. cbn [negb].
    apply may_bind, may_gettoken; [lia|]. intros r' q' eq' s5 _ ? ? _.
    apply may_bind. eapply may_mono; [apply parseredirs_may; lia|]. cbv beta. intros rs s6 (H6 & new & -> & G').
    apply may_ret. split; [lia|]. split; [|by apply args_ok_wrap]. rewrite words_wrap.
    eapply (good_app _ s5); [|exact G'|lia]. eapply good_weaken; [| |exact G]; lia.
Qed.

End tokens.

(** ** The terminators *)

Lemma chr_insert buf i x : chr (<[i := 0]> buf) x = if decide (x = i) then 0 else chr buf x.
Proof.
  unfold chr. rewrite !nth_lookup. destruct (decide (x = i)) as [->|Hx].
  - destruct (decide (i < length buf)%nat); [by rewrite list_lookup_insert_eq|].
    by rewrite lookup_ge_None_2 by (rewrite length_insert; lia).
  - by rewrite list_lookup_insert_ne.
Qed.

Definition ends (c : cmd) : list nat := map snd (words c).

Lemma chr_terminated c buf x :
  chr (nulterminate c buf) x = if decide (x ∈ ends c) then 0 else chr buf x.
Proof.
  revert buf; induction c as [argv|c IH q eq md fd|l IHl r IHr|l IHl r IHr|c IH]; intros buf;
    cbn [nulterminate]; unfold ends in *; cbn [words].
  - revert buf; induction argv as [|a argv IH]; intros buf; cbn [foldl map]; [case_decide; [set_solver|done]|].
    rewrite IH, chr_insert. repeat case_decide; set_solver.
  - rewrite chr_insert, IH, map_app. cbn. repeat case_decide; set_solver.
  - rewrite IHr, IHl, map_app. repeat case_decide; set_solver.
  - rewrite IHr, IHl, map_app. repeat case_decide; set_solver.
  - apply IH.
Qed.

(** The characters of a word. *)
Definition word_text (buf : list Z) (w : nat * nat) : list Z := map (chr buf) (seq w.1 (w.2 - w.1)).

Lemma string_at_run buf q eq :
  (q ≤ eq)%nat → (∀ i, (q ≤ i < eq)%nat → chr buf i ≠ 0) → chr buf eq = 0 →
  string_at buf q = word_text buf (q, eq).
Proof.
  unfold string_at, word_text. cbn [fst snd]. intros Hle Hi He. remember (eq - q)%nat as n eqn:En. revert q Hle Hi En.
  assert (Hd : ∀ q, drop q buf = [] ∧ chr buf q = 0 ∨ drop q buf = chr buf q :: drop (S q) buf).
  { intros q. unfold chr. rewrite nth_lookup. destruct (buf !! q) as [c|] eqn:E.
    - right. by apply drop_S.
    - left. split; [|done]. apply drop_ge. by apply lookup_ge_None. }
  induction n as [|n IH]; intros q Hle Hi En; cbn [seq map].
  - replace q with eq by lia. destruct (Hd eq) as [[-> _]| ->]; [done|]. cbn [cstring]. by rewrite He.
  - specialize (Hi q ltac:(lia)) as Hq. destruct (Hd q) as [[_ ?]| ->]; [done|].
    cbn [cstring]. rewrite (proj2 (Z.eqb_neq _ _)) by done. f_equal.
    apply IH; [lia| |lia]. intros i ?. apply Hi. lia.
Qed.

Lemma cstring_spec l :
  (∀ i, (i < length (cstring l))%nat → nth i l 0 ≠ 0) ∧ nth (length (cstring l)) l 0 = 0.
Proof.
  induction l as [|c l [IH1 IH2]]; cbn [cstring]; [split; [cbn; lia|done]|].
  destruct (Z.eqb_spec c 0) as [->|Hc]; [split; [cbn; lia|done]|]. split; [|done].
  intros [|i] Hi; [done|]. apply IH1. cbn in Hi. lia.
Qed.

Lemma pairwise_elem {A} (R : A → A → Prop) `{!Symmetric R} l a b : pairwise R l → a ∈ l → b ∈ l → a = b ∨ R a b.
Proof.
  induction l as [|c l IH]; [by intros _ ?%elem_of_nil|]. intros [Hc Hl].
  intros [ -> |Ha]%elem_of_cons [ -> |Hb]%elem_of_cons; auto.
Qed.

Lemma terminated_word buf es s s' c w :
  good buf es s s' (words c) → w ∈ words c →
  string_at (nulterminate c buf) w.1 = word_text buf w ∧
  Forall (fun c => word_char c = true) (word_text buf w) ∧ word_text buf w ≠ [].
Proof.
  intros [Hw Hp] Hin. destruct (Hw w Hin) as ((Hlt & Hrun & Hend) & _).
  assert (Hkeep : ∀ i, (w.1 ≤ i < w.2)%nat → chr (nulterminate c buf) i = chr buf i).
  { intros i Hi. rewrite chr_terminated. case_decide as Hx; [exfalso|done].
    apply list_elem_of_fmap in Hx as (v & -> & Hv). destruct (Hw v Hv) as ((Hlt' & _ & Hend') & _).
    destruct (pairwise_elem _ _ v w Hp Hv Hin) as [ -> |[Hvw|Hvw]]; [lia| |lia].
    rewrite Hrun in Hend'; [done|lia]. }
  split; [|split].
  - rewrite (string_at_run _ w.1 w.2); [|lia| |].
    + unfold word_text. cbn [fst snd]. apply map_ext_in. intros i Hi%in_seq. apply Hkeep. lia.
    + intros i Hi. rewrite Hkeep by done. intros E. specialize (Hrun i Hi). by rewrite E in Hrun.
    + rewrite chr_terminated. case_decide as Hx; [done|]. destruct Hx. unfold ends. by apply (list_elem_of_fmap_2 snd).
  - apply List.Forall_forall. unfold word_text. intros x (i & <- & Hi%in_seq)%in_map_iff. apply Hrun. lia.
  - unfold word_text. destruct (w.2 - w.1)%nat eqn:E; [lia|done].
Qed.

(** C37: The parser of the shell on every line: it returns a command or calls
    panic, it does not loop.  In the command it returns, every command has at
    most nine arguments, and every word, read as a NUL-terminated string from
    the buffer after nulterminate, is the non-empty run of word characters
    between its begin and its end in the line: the terminators have not cut
    any other word. *)
Theorem parsecmd_total buf :
  match parsecmd buf with
  | Ok (c, buf') =>
      args_ok c ∧
      ∀ w, w ∈ words c →
        string_at buf' w.1 = word_text buf w ∧
        Forall (fun c => word_char c = true) (word_text buf w) ∧ word_text buf w ≠ []
  | Panic _ => True
  | Sleeps _ | OutOfFuel => False
  end.
Proof.
  unfold parsecmd. set (es := length (string_at buf 0)).
  assert (Hin : ∀ s, (s < es)%nat → chr buf s ≠ 0) by (intros s Hs; by apply (cstring_spec buf)).
  assert (Hes : chr buf es = 0) by apply (cstring_spec buf).
  enough (may (do c <- parseline buf es (parse_fuel es); do! peek buf es []; do s <- get;
               if negb (s =? es)%nat then panic "syntax" else ret c) (fun c _ => ∃ s', parsed buf es 0 c s') 0%nat) as H.
  { unfold may in H. destruct (bind _ _ _) as [[c s']| | |]; try done.
    destruct H as (s1 & _ & Hg & Ha). split; [done|]. intros w Hw. by eapply terminated_word. }
  apply may_bind. eapply may_mono; [apply (parse_may buf es Hin Hes (parse_fuel es) 0%nat); unfold parse_fuel; lia|].
  intros c s1 H1. apply may_bind, may_peek; [done|done|apply H1|]. intros b s2 H2 _.
  apply may_bind. unfold may at 1, get. destruct (negb _); [apply may_panic|]. apply may_ret. eauto.
Qed.
