(* ===== verification/ShPrint.v ===== *)
(** * The parser of the shell inverts printing

    The commands with their words as strings, the text of a command, and the
    proof that the parser of user/sh.c reads the text of a command as that
    command. *)

From S2P Require Import Prelude Printf Ulib Sh ShParse.

(** ** Commands and their text *)

Inductive scmd : Type :=
  | SEXEC (argv : list (list Z))
  | SREDIR (c : scmd) (file : list Z) (mode fd : Z)
  | SPIPE (left right : scmd)
  | SLIST (left right : scmd)
  | SBACK (c : scmd).

(** A command with its words read from the buffer. *)
Fixpoint view (text : nat * nat → list Z) (c : cmd) : scmd :=
  match c with
  | EXEC argv => SEXEC (map text argv)
  | REDIR c q eq mode fd => SREDIR (view text c) (text (q, eq)) mode fd
  | PIPE l r => SPIPE (view text l) (view text r)
  | LIST l r => SLIST (view text l) (view text r)
  | BACK c => SBACK (view text c)
  end.

Definition out_mode : Z := Z.lor (Z.lor O_WRONLY O_CREATE) O_TRUNC.
Definition append_mode : Z := Z.lor O_WRONLY O_CREATE.

Definition show_redir (file : list Z) (mode : Z) : list Z :=
  (if mode =? O_RDONLY then bytes "<" else if mode =? out_mode then bytes ">" else bytes ">>") ++ file.
Definition show_words (ws : list (list Z)) : list Z := concat (map (cons 32) ws).
Definition parens (b : bool) (l : list Z) : list Z := if b then bytes "(" ++ l ++ bytes ")" else l.

(** The text of a command where the grammar expects: 0 what parseexec reads,
    1 a pipeline, 2 a pipeline with ampersands, 3 a line. *)
Fixpoint show (lvl : nat) (c : scmd) : list Z :=
  match c with
  | SEXEC argv => show_words argv
  | SREDIR c file mode fd => show 0 c ++ show_redir file mode
  | SPIPE l r => parens (lvl <? 1)%nat (show 0 l ++ bytes "|" ++ show 1 r)
  | SBACK c => parens (lvl <? 2)%nat (show 2 c ++ bytes "&")
  | SLIST l r => parens (lvl <? 3)%nat (show 2 l ++ bytes ";" ++ show 3 r)
  end.

Definition is_word (w : list Z) : Prop := w ≠ [] ∧ Forall (fun c => word_char c = true) w.
Definition redir_kind (mode fd : Z) : Prop :=
  mode = O_RDONLY ∧ fd = 0 ∨ mode = out_mode ∧ fd = 1 ∨ mode = append_mode ∧ fd = 1.

(** The commands the language of the shell can express. *)
Fixpoint expressible (c : scmd) : Prop :=
  match c with
  | SEXEC argv => (length argv < MAXARGS)%nat ∧ Forall is_word argv
  | SREDIR c file mode fd => expressible c ∧ is_word file ∧ redir_kind mode fd
  | SPIPE l r | SLIST l r => expressible l ∧ expressible r
  | SBACK c => expressible c
  end.

(** Redirections around a command. *)
Definition sredir : Type := list Z * Z * Z.
Definition swrap (c : scmd) (rs : list sredir) : scmd :=
  foldl (fun c r => match r with (file, mode, fd) => SREDIR c file mode fd end) c rs.
Definition show_redirs (rs : list sredir) : list Z := concat (map (fun r => show_redir r.1.1 r.1.2) rs).
Definition redirs_ok (rs : list sredir) : Prop := Forall (fun r => is_word r.1.1 ∧ redir_kind r.1.2 r.2) rs.

Definition view_redir (text : nat * nat → list Z) (r : redir) : sredir :=
  match r with (q, eq, mode, fd) => (text (q, eq), mode, fd) end.

Lemma view_wrap text c rs : view text (wrap c rs) = swrap (view text c) (map (view_redir text) rs).
Proof.
  revert c; induction rs as [|[[[q eq] md] fd] rs IH]; intros c; [done|].
  unfold wrap, swrap in *. cbn [foldl map]. by rewrite IH.
Qed.

(** ** Text up to white space *)

Fixpoint trim (l : list Z) : list Z :=
  match l with
  | [] => []
  | c :: l' => if strchr whitespace c then trim l' else l
  end.

(** The next token starts with a character of [set], or there is none. *)
Definition follow (set : list Z) (r : list Z) : bool :=
  match trim r with [] => true | c :: _ => strchr set c end.
Definition head_in (set : list Z) (r : list Z) : bool :=
  match trim r with [] => false | c :: _ => strchr set c end.
(** The text does not go on with a word character. *)
Definition ends_word (r : list Z) : bool := match r with [] => true | c :: _ => negb (word_char c) end.

Lemma trim_idem l : trim (trim l) = trim l.
Proof. induction l as [|c l IH]; cbn [trim]; [done|]. destruct (strchr whitespace c) eqn:E; [done|]. cbn [trim]. by rewrite E. Qed.

Lemma word_char_not_ws c : word_char c = true → strchr whitespace c = false.
Proof. unfold word_char. intros [[_ H]%andb_prop _]%andb_prop. by apply negb_true_iff. Qed.

Lemma trim_word w r : is_word w → trim (w ++ r) = w ++ r.
Proof.
  intros [Hne Hw]. destruct w as [|c w]; [done|]. cbn [app trim].
  by rewrite (word_char_not_ws c) by (by inversion Hw).
Qed.

Lemma follow_ends_word set r :
  (∀ c, strchr set c = true → word_char c = false) → follow set r = true → ends_word r = true.
Proof.
  intros Hs. unfold follow, ends_word. destruct r as [|c r]; [done|]. cbn [trim].
  destruct (strchr whitespace c) eqn:E.
  - intros _. unfold word_char. rewrite E. cbn [negb]. by rewrite andb_false_r.
  - intros H. by rewrite Hs.
Qed.

Lemma strchr_symbols set c :
  forallb (strchr symbols) set = true → strchr set c = true → word_char c = false.
Proof.
  intros Hs. unfold strchr at 1. intros (d & Hd & ->%Z.eqb_eq)%existsb_exists.
  rewrite forallb_forall in Hs. unfold word_char. by rewrite (Hs d Hd), andb_false_r.
Qed.

(** ** Tokens in the text *)

Section text.
Context (buf : list Z) (es : nat).
Context (Hin : ∀ s, (s < es)%nat → chr buf s ≠ 0) (Hes : chr buf es = 0).
Open Scope nat_scope.

(** The text from position [s] on is [r]. *)
Definition at_raw (s : nat) (r : list Z) : Prop := s ≤ es ∧ word_text buf (s, es) = r.
(** The same, up to white space in front. *)
Definition at_text (s : nat) (r : list Z) : Prop := ∃ r0, at_raw s r0 ∧ trim r0 = trim r.

Lemma at_nil s : at_raw s [] → s = es.
Proof. unfold at_raw, word_text. cbn. intros [? H]. destruct (es - s) eqn:E; [lia|done]. Qed.

Lemma at_cons s c r : at_raw s (c :: r) → chr buf s = c ∧ s < es ∧ at_raw (S s) r.
Proof.
  unfold at_raw, word_text. cbn [fst snd]. intros [Hs H]. destruct (es - s) as [|k] eqn:E; [done|].
  cbn in H. injection H as <- <-. split; [done|]. split; [lia|]. split; [lia|]. by replace (es - S s) with k by lia.
Qed.

Lemma at_nonzero s c r : at_raw s (c :: r) → c ≠ 0%Z.
Proof. intros (<- & Hs & _)%at_cons. auto. Qed.

Lemma at_app s l r : at_raw s (l ++ r) → at_raw (s + length l) r ∧ word_text buf (s, s + length l) = l.
Proof.
  revert s; induction l as [|c l IH]; intros s H; cbn [app length] in *.
  - rewrite Nat.add_0_r. split; [done|]. unfold word_text. cbn. by rewrite Nat.sub_diag.
  - apply at_cons in H as (Hc & Hs & H). destruct (IH (S s) H) as [H1 H2].
    replace (s + S (length l)) with (S s + length l) by lia. split; [done|].
    unfold word_text in *. cbn [fst snd] in *. replace (S s + length l - s) with (S (length l)) by lia.
    cbn [seq map]. rewrite Hc. f_equal. by replace (S s + length l - S s) with (length l) in H2 by lia.
Qed.

Lemma at_scan p s l r :
  at_raw s (l ++ r) → Forall (fun c => p c = true) l → match r with [] => True | c :: _ => p c = false end →
  scan buf p (es - s) s = s + length l.
Proof.
  revert s; induction l as [|c l IH]; intros s H Hl Hr; cbn [app length] in *.
  - rewrite Nat.add_0_r. destruct r as [|c r].
    + apply at_nil in H as ->. by rewrite Nat.sub_diag.
    + apply at_cons in H as (Hc & Hs & _). destruct (es - s) eqn:E; [lia|]. cbn [scan]. by rewrite Hc, Hr.
  - apply at_cons in H as (Hc & Hs & H). inversion Hl; subst. destruct (es - s) eqn:E; [lia|]. cbn [scan].
    rewrite H2. replace n with (es - S s) by lia. rewrite IH by done. lia.
Qed.

Lemma at_skip s r : at_raw s r → at_raw (skip_space buf es s) (trim r) ∧ s ≤ skip_space buf es s.
Proof.
  intros H. assert (∃ l, r = l ++ trim r ∧ Forall (fun c => strchr whitespace c = true) l) as (l & El & Hl).
  { clear. induction r as [|c r (l & El & Hl)]; [by exists []|]. cbn [trim].
    destruct (strchr whitespace c) eqn:E; [|by exists []]. exists (c :: l). split; [by rewrite El at 1|by constructor]. }
  rewrite El in H. unfold skip_space. erewrite at_scan; [|exact H|done|].
  - split; [|lia]. by apply at_app in H as [? _].
  - clear. induction r as [|c r IH]; cbn [trim]; [done|]. destruct (strchr whitespace c) eqn:E; [done|]. by rewrite E.
Qed.

Lemma at_text_raw s r : at_raw s r → at_text s r.
Proof. by exists r. Qed.
Lemma at_text_trim s r : at_raw s (trim r) → at_text s r.
Proof. intros H. exists (trim r). split; [done|apply trim_idem]. Qed.
Lemma at_text_skip s r : at_text s r → at_raw (skip_space buf es s) (trim r) ∧ s ≤ skip_space buf es s.
Proof. intros (r0 & H & E). rewrite <- E. by apply at_skip. Qed.
Lemma at_text_le s r : at_text s r → s ≤ es.
Proof. by intros (r0 & [? _] & _). Qed.
Lemma at_text_space s r : at_text s (32%Z :: r) → at_text s r.
Proof. done. Qed.

Lemma peek_text toks s r :
  at_text s r → ∃ s', peek buf es toks s = Ok (head_in toks r, s') ∧ at_text s' r ∧ s ≤ s'.
Proof.
  intros [H Hle]%at_text_skip. unfold peek, bind, get, put, ret. eexists. split; [|split; [apply at_text_trim, H|done]].
  f_equal. f_equal. unfold head_in. destruct (trim r) as [|c r'].
  - apply at_nil in H. by rewrite H, Hes.
  - pose proof (at_nonzero _ _ _ H). apply at_cons in H as (-> & _). by rewrite (proj2 (Z.eqb_neq _ _)).
Qed.

(** The token of one character. *)
Lemma gettoken_symbol s c r :
  at_text s (c :: r) → strchr (bytes "|();&<") c = true →
  ∃ q eq s', gettoken buf es s = Ok ((c, q, eq), s') ∧ at_text s' r ∧ s < s'.
Proof.
  intros [H Hle]%at_text_skip Hc. assert (Hws : strchr whitespace c = false).
  { unfold strchr, bytes in Hc. cbn in Hc. repeat (apply orb_prop in Hc as [->%Z.eqb_eq|Hc]; [done|]). done. }
  cbn [trim] in H. rewrite Hws in H. pose proof (at_nonzero _ _ _ H) as Hnz. apply at_cons in H as (Ec & Hs & H).
  destruct (at_skip _ _ H) as [H' Hle'].
  unfold gettoken, bind, get, put, ret. rewrite Ec, (proj2 (Z.eqb_neq _ _)), Hc by done.
  do 3 eexists. split; [reflexivity|]. split; [by apply at_text_trim|lia].
Qed.

Lemma gettoken_out s r :
  at_text s (62%Z :: r) → match r with [] => True | c :: _ => c ≠ 62%Z end →
  ∃ q eq s', gettoken buf es s = Ok ((62%Z, q, eq), s') ∧ at_text s' r ∧ s < s'.
Proof.
  intros [H Hle]%at_text_skip Hr. cbn [trim] in H. change (strchr whitespace 62) with false in H. cbv iota in H.
  apply at_cons in H as (Ec & Hs & H). destruct (at_skip _ _ H) as [H' Hle'].
  assert (Hn : strchr (bytes ">") (chr buf (S (skip_space buf es s))) = false).
  { destruct r as [|c r]; [apply at_nil in H; by rewrite H, Hes|]. apply at_cons in H as (-> & _).
    unfold strchr, bytes. cbn. by rewrite (proj2 (Z.eqb_neq _ _)). }
  unfold gettoken, bind, get, put, ret. rewrite Ec, Hn. cbn.
  do 3 eexists. split; [reflexivity|]. split; [by apply at_text_trim|lia].
Qed.

Lemma gettoken_append s r :
  at_text s (62%Z :: 62%Z :: r) → ∃ q eq s', gettoken buf es s = Ok ((43%Z, q, eq), s') ∧ at_text s' r ∧ s < s'.
Proof.
  intros [H Hle]%at_text_skip. cbn [trim] in H. change (strchr whitespace 62) with false in H. cbv iota in H.
  apply at_cons in H as (Ec & Hs & H). apply at_cons in H as (Ec2 & Hs2 & H). destruct (at_skip _ _ H) as [H' Hle'].
  unfold gettoken, bind, get, put, ret. rewrite Ec, Ec2. cbn.
  do 3 eexists. split; [reflexivity|]. split; [by apply at_text_trim|lia].
Qed.

Lemma gettoken_word s w r :
  at_text s (w ++ r) → is_word w → ends_word r = true →
  ∃ q eq s', gettoken buf es s = Ok ((97%Z, q, eq), s') ∧ at_text s' r ∧ s < s' ∧ word_text buf (q, eq) = w.
Proof.
  intros [H Hle]%at_text_skip Hw Hr. rewrite trim_word in H by done. destruct Hw as [Hne Hw].
  destruct (at_app _ _ _ H) as [H1 H2].
  set (p := fun c : Z => negb (strchr whitespace c) && negb (strchr symbols c)).
  assert (Hscan : scan buf p (es - skip_space buf es s) (skip_space buf es s) = skip_space buf es s + length w).
  { eapply at_scan; [exact H| |].
    - eapply Forall_impl; [exact Hw|]. unfold word_char, p. intros c [[? ?]%andb_prop ?]%andb_prop. by apply andb_true_intro.
    - destruct r as [|c r]; [done|]. pose proof (at_nonzero _ _ _ H1) as Hnz. cbn in Hr. apply negb_true_iff in Hr.
      unfold word_char in Hr. rewrite (proj2 (Z.eqb_neq _ _)) in Hr by done. exact Hr. }
  destruct w as [|c w]; [done|]. assert (Hc : word_char c = true) by (by inversion Hw).
  cbn [app] in H. destruct (at_cons _ _ _ H) as (Ec & Hs & _).
  assert (Hsym : strchr (bytes "|();&<") c = false ∧ strchr (bytes ">") c = false).
  { split; apply not_true_iff_false; intros E; eapply strchr_symbols in E; congruence || done. }
  destruct Hsym as [Hs1 Hs2]. destruct (at_skip _ _ H1) as [H' Hle'].
  unfold gettoken, bind, get, put, ret. rewrite Ec, Hs1, Hs2, (proj2 (Z.eqb_neq _ _)).
  2: { rewrite <- Ec. by apply Hin. }
  fold p. rewrite Hscan. do 3 eexists. split; [reflexivity|]. split; [by apply at_text_trim|].
  split; [cbn [length] in *; lia|exact H2].
Qed.

(** ** Redirections and arguments *)

Lemma ends_word_redirs rs r : redirs_ok rs → ends_word r = true → ends_word (show_redirs rs ++ r) = true.
Proof.
  intros Hrs Hr. destruct rs as [|[[f md] fd] rs]; [done|]. unfold show_redirs. cbn [map concat fst snd]. unfold show_redir.
  by destruct (md =? O_RDONLY)%Z; [|destruct (md =? out_mode)%Z].
Qed.

(** The text of one redirection: the operator and the file. *)
Lemma redir_operator s f md fd r :
  redir_kind md fd → is_word f → at_text s (show_redir f md ++ r) →
  head_in (bytes "<>") (show_redir f md ++ r) = true ∧
  ∃ tok q eq s', gettoken buf es s = Ok ((tok, q, eq), s') ∧ at_text s' (f ++ r) ∧ s < s' ∧
    ∀ q eq : nat, (if (tok =? 60)%Z then [(q, eq, O_RDONLY, 0%Z)]
             else if (tok =? 62)%Z then [(q, eq, Z.lor (Z.lor O_WRONLY O_CREATE) O_TRUNC, 1%Z)]
             else if (tok =? 43)%Z then [(q, eq, Z.lor O_WRONLY O_CREATE, 1%Z)] else []) = [(q, eq, md, fd)].
Proof.
  intros Hk Hf Hat. destruct Hk as [[-> ->]|[[-> ->]|[-> ->]]]; cbn in Hat |- *; (split; [done|]).
  - destruct (gettoken_symbol _ _ _ Hat) as (q & eq & s' & E & H & Hlt); [done|]. by exists 60%Z, q, eq, s'.
  - destruct (gettoken_out _ _ Hat) as (q & eq & s' & E & H & Hlt).
    { destruct Hf as [Hne Hw]. destruct f as [|c f]; [done|]. inversion Hw as [|? ? Hc]. cbn. by intros ->. }
    by exists 62%Z, q, eq, s'.
  - destruct (gettoken_append _ _ Hat) as (q & eq & s' & E & H & Hlt). by exists 43%Z, q, eq, s'.
Qed.

Lemma parseredirs_text rs : ∀ acc s r fuel,
  at_text s (show_redirs rs ++ r) → redirs_ok rs → head_in (bytes "<>") r = false → ends_word r = true →
  es - s < fuel →
  ∃ new s', parseredirs buf es fuel acc s = Ok (acc ++ new, s') ∧ map (view_redir (word_text buf)) new = rs ∧
    at_text s' r ∧ s ≤ s'.
Proof.
  induction rs as [|[[f md] fd] rs IH]; intros acc s r fuel Hat Hok Hh Hw Hf; (destruct fuel as [|fuel]; [lia|]);
    cbn [parseredirs].
  - destruct (peek_text (bytes "<>") _ _ Hat) as (s1 & E & Hat1 & H1). erewrite bind_ok by exact E.
    change (show_redirs [] ++ r) with r in *. rewrite Hh. exists [], s1. rewrite app_nil_r. done.
  - inversion Hok as [|? ? [Hfw Hk] Hok']; subst. cbn [fst snd] in *.
    change (show_redirs ((f, md, fd) :: rs)) with (show_redir f md ++ show_redirs rs) in Hat. rewrite <- app_assoc in Hat.
    destruct (peek_text (bytes "<>") _ _ Hat) as (s1 & E & Hat1 & H1). erewrite bind_ok by exact E.
    destruct (redir_operator _ _ _ _ _ Hk Hfw Hat1) as (-> & tok & q & eq & s2 & E2 & Hat2 & H2 & Htok).
    erewrite bind_ok by exact E2.
    destruct (gettoken_word _ _ _ Hat2 Hfw) as (q' & eq' & s3 & E3 & Hat3 & H3 & Ew); [by apply ends_word_redirs|].
    erewrite bind_ok by exact E3. cbn [negb Z.eqb Pos.eqb]. rewrite Htok.
    destruct (IH (acc ++ [(q', eq', md, fd)]) s3 r fuel) as (new & s4 & E4 & Hv & Hat4 & H4); try done.
    { pose proof (at_text_le _ _ Hat3). lia. }
    exists ((q', eq', md, fd) :: new), s4. rewrite E4, <- app_assoc. split; [done|]. split; [|split; [done|lia]].
    cbn [map view_redir]. by rewrite Ew, Hv.
Qed.

Lemma head_in_redirs_words w ws r : is_word w → head_in (bytes "<>") (show_words (w :: ws) ++ r) = false.
Proof.
  intros Hw. unfold show_words. cbn [map concat]. unfold head_in. rewrite <- app_assoc. cbn [app trim].
  change (strchr whitespace 32) with true. cbv iota. rewrite trim_word by done.
  destruct Hw as [Hne Hw]. destruct w as [|c w]; [done|]. cbn [app]. inversion Hw as [|? ? Hc].
  apply not_true_iff_false. intros E. eapply strchr_symbols in E; congruence || done.
Qed.

Lemma head_in_word set w r : forallb (strchr symbols) set = true → is_word w → head_in set (w ++ r) = false.
Proof.
  intros Hs [Hne Hw]. unfold head_in. rewrite trim_word by done. destruct w as [|c w]; [done|]. cbn [app].
  inversion Hw as [|? ? Hc]. apply not_true_iff_false. intros E. eapply strchr_symbols in E; [congruence|done].
Qed.

Lemma follow_not set set' r :
  follow set r = true → forallb (fun c => negb (strchr set' c)) set = true → head_in set' r = false.
Proof.
  unfold follow, head_in. destruct (trim r) as [|c l]; [done|]. unfold strchr at 1.
  intros (d & Hd & ->%Z.eqb_eq)%existsb_exists. rewrite forallb_forall. intros H. by apply negb_true_iff, H.
Qed.

Definition next_exec : list Z := bytes "|)&;".

Lemma follow_head set r : follow set r = true → head_in set r = true ∨ trim r = [].
Proof. unfold follow, head_in. destruct (trim r); auto. Qed.

Lemma gettoken_end s r : at_text s r → trim r = [] → ∃ q eq s', gettoken buf es s = Ok ((0%Z, q, eq), s') ∧ at_text s' r ∧ s ≤ s'.
Proof.
  intros [H Hle]%at_text_skip E. rewrite E in H. pose proof (at_nil _ H) as Hs.
  destruct (at_skip _ _ H) as [H' Hle']. unfold gettoken, bind, get, put, ret. rewrite Hs, Hes in *. cbn.
  do 3 eexists. split; [reflexivity|]. split; [|lia]. apply at_text_trim. by rewrite E.
Qed.

Lemma parse_args_text ws : ∀ rs argv acc s r fuel,
  at_text s (show_words ws ++ show_redirs rs ++ r) → Forall is_word ws → redirs_ok rs → (ws = [] → rs = []) →
  follow next_exec r = true → length argv + length ws < MAXARGS → es - s < fuel →
  ∃ na nr s', parse_args buf es fuel argv acc s = Ok ((argv ++ na, acc ++ nr), s') ∧
    map (word_text buf) na = ws ∧ map (view_redir (word_text buf)) nr = rs ∧ at_text s' r ∧ s ≤ s'.
Proof.
  induction ws as [|w ws IH]; intros rs argv acc s r fuel Hat Hws Hrs Hno Hr Hlen Hf; (destruct fuel as [|fuel]; [lia|]);
    cbn [parse_args].
  - rewrite (Hno eq_refl) in *. change (show_words [] ++ show_redirs [] ++ r) with r in Hat.
    destruct (peek_text next_exec _ _ Hat) as (s1 & E & Hat1 & H1). unfold next_exec in *. erewrite bind_ok by exact E.
    destruct (follow_head _ _ Hr) as [->|Ht].
    + exists [], [], s1. by rewrite !app_nil_r.
    + unfold head_in. rewrite Ht. destruct (gettoken_end _ _ Hat1 Ht) as (q & eq & s2 & E2 & Hat2 & H2).
      erewrite bind_ok by exact E2. cbn. exists [], [], s2. rewrite !app_nil_r. do 4 (split; [done|]). lia.
  - inversion Hws as [|? ? Hw Hws']; subst.
    assert (Hat0 : at_text s (w ++ show_words ws ++ show_redirs rs ++ r)).
    { apply at_text_space. unfold show_words in *. cbn [map concat] in Hat. by rewrite <- app_assoc in Hat. }
    destruct (peek_text (bytes "|)&;") _ _ Hat0) as (s1 & E & Hat1 & H1). erewrite bind_ok by exact E.
    rewrite head_in_word by done.
    assert (Hend : ends_word r = true).
    { eapply follow_ends_word, Hr. intros c. by apply strchr_symbols. }
    assert (Hnr : head_in (bytes "<>") r = false) by (by eapply follow_not).
    destruct (gettoken_word _ _ _ Hat1 Hw) as (q & eq & s2 & E2 & Hat2 & H2 & Ew).
    { destruct ws; [by apply ends_word_redirs|done]. }
    erewrite bind_ok by exact E2. cbn [negb Z.eqb Pos.eqb].
    rewrite (proj2 (Nat.leb_gt _ _)) by (rewrite length_app; cbn in *; lia).
    pose proof (at_text_le _ _ Hat2) as Hle2.
    destruct ws as [|w' ws].
    + destruct (parseredirs_text rs acc s2 r fuel) as (new & s3 & E3 & Hv & Hat3 & H3); try done; [lia|].
      erewrite bind_ok by exact E3.
      destruct (IH [] (argv ++ [(q, eq)]) (acc ++ new) s3 r fuel) as (na & nr & s4 & E4 & Hna & Hnr' & Hat4 & H4); try done.
      { by apply Forall_nil. }
      { rewrite length_app. cbn in *. lia. }
      { lia. }
      exists ((q, eq) :: na), (new ++ nr), s4. rewrite E4, <- !app_assoc. split; [done|].
      cbn [map]. rewrite Ew, Hna, map_app, Hv, Hnr', app_nil_r. do 3 (split; [done|]). lia.
    + destruct (parseredirs_text [] acc s2 (show_words (w' :: ws) ++ show_redirs rs ++ r) fuel)
        as (new & s3 & E3 & Hv & Hat3 & H3); try done.
      { by apply Forall_nil. }
      { apply head_in_redirs_words. by inversion Hws'. }
      { lia. }
      erewrite bind_ok by exact E3. destruct new; [|done]. rewrite app_nil_r.
      destruct (IH rs (argv ++ [(q, eq)]) acc s3 r fuel) as (na & nr & s4 & E4 & Hna & Hnr' & Hat4 & H4); try done.
      { rewrite length_app. cbn in *. lia. }
      { lia. }
      exists ((q, eq) :: na), nr, s4. rewrite E4, <- !app_assoc. split; [done|].
      cbn [map]. rewrite Ew, Hna. do 3 (split; [done|]). lia.
Qed.

(** ** The levels of the grammar *)

Definition next_pipe : list Z := bytes ")&;".
Definition next_line : list Z := bytes ")".
Abbreviation text := (word_text buf).

Definition reads_exec (c : scmd) : Prop := ∀ rs s r fuel,
  at_text s (show 0 c ++ show_redirs rs ++ r) → redirs_ok rs → follow next_exec r = true → 4 * (es - s) + 2 ≤ fuel →
  ∃ t s', parseexec buf es fuel s = Ok (t, s') ∧ view text t = swrap c rs ∧ at_text s' r ∧ s ≤ s'.
Definition reads_pipe (c : scmd) : Prop := ∀ s r fuel,
  at_text s (show 1 c ++ r) → follow next_pipe r = true → 4 * (es - s) + 3 ≤ fuel →
  ∃ t s', parsepipe buf es fuel s = Ok (t, s') ∧ view text t = c ∧ at_text s' r ∧ s ≤ s'.
Definition reads_back (c : scmd) : Prop := ∀ s r f g,
  at_text s (show 2 c ++ r) → follow next_pipe r = true → 4 * (es - s) + 3 ≤ f → es - s < g →
  ∃ t s' g', (do c <- parsepipe buf es f; parse_back buf es g c) s = parse_back buf es g' t s' ∧
    view text t = c ∧ at_text s' r ∧ s ≤ s' ∧ es - s' < g'.
Definition reads_line (c : scmd) : Prop := ∀ s r fuel,
  at_text s (show 3 c ++ r) → follow next_line r = true → 4 * (es - s) + 4 ≤ fuel →
  ∃ t s', parseline buf es fuel s = Ok (t, s') ∧ view text t = c ∧ at_text s' r ∧ s ≤ s'.

Lemma follow_mono set set' r : follow set r = true → forallb (strchr set') set = true → follow set' r = true.
Proof.
  unfold follow. destruct (trim r) as [|c l]; [done|]. unfold strchr at 1.
  intros (d & Hd & ->%Z.eqb_eq)%existsb_exists. rewrite forallb_forall. auto.
Qed.

Lemma bind_assoc {A B C} (c : M nat A) (k : A → M nat B) (k' : B → M nat C) s :
  bind c (fun a => bind (k a) k') s = bind (bind c k) k' s.
Proof. unfold bind. by destruct (c s) as [[a s']| | |]. Qed.

Lemma exec_reads ws : length ws < MAXARGS → Forall is_word ws → reads_exec (SEXEC ws).
Proof.
  intros Hlen Hws rs s r fuel Hat Hrs Hr Hf. destruct fuel as [|fuel]; [lia|]. cbn [show parseexec] in *.
  assert (Hend : ends_word r = true). { eapply follow_ends_word, Hr. intros c. by apply strchr_symbols. }
  assert (Hnr : head_in (bytes "<>") r = false) by (by eapply follow_not).
  destruct (peek_text (bytes "(") _ _ Hat) as (s1 & E1 & Hat1 & H1). erewrite bind_ok by exact E1.
  assert (Hnp : head_in (bytes "(") (show_words ws ++ show_redirs rs ++ r) = false).
  { destruct ws as [|w ws].
    - destruct rs as [|[[f md] fd] rs]; [by eapply follow_not|]. unfold show_words, show_redirs. cbn [map concat app fst snd].
      unfold show_redir. by destruct (md =? O_RDONLY)%Z; [|destruct (md =? out_mode)%Z].
    - inversion Hws. unfold show_words. cbn [map concat app]. rewrite <- app_assoc.
      change (head_in (bytes "(") (32%Z :: ?x)) with (head_in (bytes "(") x). by apply head_in_word. }
  rewrite Hnp. pose proof (at_text_le _ _ Hat1) as Hle1. destruct ws as [|w ws].
  - destruct (parseredirs_text rs [] s1 r fuel) as (new & s2 & E2 & Hv & Hat2 & H2); try done; [lia|].
    erewrite bind_ok by exact E2.
    destruct (parse_args_text [] [] [] new s2 r fuel) as (na & nr & s3 & E3 & Hna & Hnr' & Hat3 & H3); try done.
    { by apply Forall_nil. }
    { lia. }
    erewrite bind_ok by exact E3. do 2 eexists. split; [reflexivity|]. rewrite view_wrap. cbn [app view].
    rewrite Hna, map_app, Hnr', Hv, app_nil_r. split; [done|]. split; [done|lia].
  - destruct (parseredirs_text [] [] s1 (show_words (w :: ws) ++ show_redirs rs ++ r) fuel)
      as (new & s2 & E2 & Hv & Hat2 & H2); try done.
    { by apply Forall_nil. }
    { apply head_in_redirs_words. by inversion Hws. }
    { lia. }
    erewrite bind_ok by exact E2. destruct new; [|done]. cbn [app].
    destruct (parse_args_text (w :: ws) rs [] [] s2 r fuel) as (na & nr & s3 & E3 & Hna & Hnr' & Hat3 & H3); try done; [lia|].
    erewrite bind_ok by exact E3. do 2 eexists. split; [reflexivity|]. rewrite view_wrap. cbn [app view].
    rewrite Hna, Hnr'. split; [done|]. split; [done|lia].
Qed.

Lemma redir_reads c f md fd : is_word f → redir_kind md fd → reads_exec c → reads_exec (SREDIR c f md fd).
Proof.
  intros Hf Hk Hc rs s r fuel Hat Hrs Hr Hfuel.
  apply (Hc ((f, md, fd) :: rs) s r fuel); try done; [|by constructor].
  cbn [show] in Hat. rewrite <- app_assoc in Hat. unfold show_redirs in *. cbn [map concat fst snd]. by rewrite <- app_assoc.
Qed.

Lemma exec_pipe c : show 1 c = show 0 c → reads_exec c → reads_pipe c.
Proof.
  intros Es Hc s r fuel Hat Hr Hf. destruct fuel as [|fuel]; [lia|]. cbn [parsepipe]. rewrite Es in Hat.
  destruct (Hc [] s r fuel Hat) as (t & s1 & E1 & Hv & Hat1 & H1); [by apply Forall_nil| |lia|].
  { by eapply follow_mono. }
  erewrite bind_ok by exact E1. destruct (peek_text (bytes "|") _ _ Hat1) as (s2 & E2 & Hat2 & H2).
  erewrite bind_ok by exact E2. rewrite (follow_not next_pipe) by done. exists t, s2. split; [done|]. split; [done|]. split; [done|lia].
Qed.

Lemma pipe_reads l r : reads_exec l → reads_pipe r → reads_pipe (SPIPE l r).
Proof.
  intros Hl Hr s r0 fuel Hat Hr0 Hf. destruct fuel as [|fuel]; [lia|]. cbn [parsepipe].
  cbn [show parens Nat.ltb Nat.leb] in Hat. rewrite <- !app_assoc in Hat.
  destruct (Hl [] s (bytes "|" ++ show 1 r ++ r0) fuel Hat) as (t & s1 & E1 & Hv & Hat1 & H1); [by apply Forall_nil|done|lia|].
  erewrite bind_ok by exact E1. destruct (peek_text (bytes "|") _ _ Hat1) as (s2 & E2 & Hat2 & H2).
  erewrite bind_ok by exact E2. change (head_in (bytes "|") (bytes "|" ++ show 1 r ++ r0)) with true. cbv iota.
  destruct (gettoken_symbol _ _ _ Hat2) as (q & eq & s3 & E3 & Hat3 & H3); [done|]. erewrite bind_ok by exact E3.
  pose proof (at_text_le _ _ Hat3). destruct (Hr s3 r0 fuel Hat3 Hr0) as (t' & s4 & E4 & Hv' & Hat4 & H4); [lia|].
  erewrite bind_ok by exact E4. do 2 eexists. split; [reflexivity|]. cbn [view pipecmd listcmd]. rewrite Hv, Hv'. split; [done|]. split; [done|lia].
Qed.

Lemma pipe_back c : show 2 c = show 1 c → reads_pipe c → reads_back c.
Proof.
  intros Es Hc s r f g Hat Hr Hf Hg. rewrite Es in Hat. destruct (Hc s r f Hat Hr Hf) as (t & s1 & E1 & Hv & Hat1 & H1).
  erewrite bind_ok by exact E1. exists t, s1, g. split; [done|]. split; [done|]. split; [done|]. split; [done|lia].
Qed.

Lemma back_reads c : reads_back c → reads_back (SBACK c).
Proof.
  intros Hc s r f g Hat Hr Hf Hg. cbn [show parens Nat.ltb Nat.leb] in Hat. rewrite <- !app_assoc in Hat.
  destruct (Hc s (bytes "&" ++ r) f g Hat) as (t & s1 & g1 & E1 & Hv & Hat1 & H1 & Hg1); try done.
  rewrite E1. destruct g1 as [|g1]; [lia|]. cbn [parse_back].
  destruct (peek_text (bytes "&") _ _ Hat1) as (s2 & E2 & Hat2 & H2). erewrite bind_ok by exact E2.
  change (head_in (bytes "&") (bytes "&" ++ r)) with true. cbv iota.
  destruct (gettoken_symbol _ _ _ Hat2) as (q & eq & s3 & E3 & Hat3 & H3); [done|]. erewrite bind_ok by exact E3.
  pose proof (at_text_le _ _ Hat3). exists (BACK t), s3, g1. split; [done|]. cbn [view]. rewrite Hv.
  split; [done|]. split; [done|]. lia.
Qed.

(** The ampersands end. *)
Lemma back_ends s r t g :
  at_text s r → head_in (bytes "&") r = false → es - s < g →
  ∃ s', parse_back buf es g t s = Ok (t, s') ∧ at_text s' r ∧ s ≤ s'.
Proof.
  intros Hat Hr Hg. destruct g as [|g]; [lia|]. cbn [parse_back].
  destruct (peek_text (bytes "&") _ _ Hat) as (s2 & E2 & Hat2 & H2). erewrite bind_ok by exact E2. rewrite Hr. by exists s2.
Qed.

Lemma back_line c : show 3 c = show 2 c → reads_back c → reads_line c.
Proof.
  intros Es Hc s r fuel Hat Hr Hf. destruct fuel as [|fuel]; [lia|]. cbn [parseline]. rewrite Es in Hat. rewrite bind_assoc.
  destruct (Hc s r fuel fuel Hat) as (t & s1 & g1 & E1 & Hv & Hat1 & H1 & Hg1); [by eapply follow_mono|lia|lia|].
  destruct (back_ends s1 r t g1 Hat1) as (s2 & E2 & Hat2 & H2); [by eapply follow_not|done|].
  rewrite E2 in E1. erewrite bind_ok by exact E1. destruct (peek_text (bytes ";") _ _ Hat2) as (s3 & E3 & Hat3 & H3).
  erewrite bind_ok by exact E3. rewrite (follow_not next_line) by done. exists t, s3. split; [done|]. split; [done|]. split; [done|lia].
Qed.

Lemma list_reads l r : reads_back l → reads_line r → reads_line (SLIST l r).
Proof.
  intros Hl Hr s r0 fuel Hat Hr0 Hf. destruct fuel as [|fuel]; [lia|]. cbn [parseline]. rewrite bind_assoc.
  cbn [show parens Nat.ltb Nat.leb] in Hat. rewrite <- !app_assoc in Hat.
  destruct (Hl s (bytes ";" ++ show 3 r ++ r0) fuel fuel Hat) as (t & s1 & g1 & E1 & Hv & Hat1 & H1 & Hg1); [done|lia|lia|].
  destruct (back_ends s1 _ t g1 Hat1) as (s2 & E2 & Hat2 & H2); [done|done|].
  rewrite E2 in E1. erewrite bind_ok by exact E1. destruct (peek_text (bytes ";") _ _ Hat2) as (s3 & E3 & Hat3 & H3).
  erewrite bind_ok by exact E3. change (head_in (bytes ";") (bytes ";" ++ show 3 r ++ r0)) with true. cbv iota.
  destruct (gettoken_symbol _ _ _ Hat3) as (q & eq & s4 & E4 & Hat4 & H4); [done|]. erewrite bind_ok by exact E4.
  pose proof (at_text_le _ _ Hat4). destruct (Hr s4 r0 fuel Hat4 Hr0) as (t' & s5 & E5 & Hv' & Hat5 & H5); [lia|].
  erewrite bind_ok by exact E5. do 2 eexists. split; [reflexivity|]. cbn [view pipecmd listcmd]. rewrite Hv, Hv'. split; [done|]. split; [done|lia].
Qed.

Lemma block_reads c : show 0 c = parens true (show 3 c) → reads_line c → reads_exec c.
Proof.
  intros Es Hc rs s r fuel Hat Hrs Hr Hf. destruct fuel as [|[|fuel]]; [lia|lia|]. cbn [parseexec parseblock].
  rewrite Es in Hat. unfold parens in Hat. rewrite <- !app_assoc in Hat.
  set (rest := show_redirs rs ++ r) in *.
  destruct (peek_text (bytes "(") _ _ Hat) as (s1 & E1 & Hat1 & H1). erewrite bind_ok by exact E1.
  change (head_in (bytes "(") (bytes "(" ++ show 3 c ++ bytes ")" ++ rest)) with true. cbv iota.
  destruct (peek_text (bytes "(") _ _ Hat1) as (s2 & E2 & Hat2 & H2). erewrite bind_ok by exact E2.
  change (head_in (bytes "(") (bytes "(" ++ show 3 c ++ bytes ")" ++ rest)) with true. cbn [negb].
  destruct (gettoken_symbol _ _ _ Hat2) as (q & eq & s3 & E3 & Hat3 & H3); [done|]. erewrite bind_ok by exact E3.
  pose proof (at_text_le _ _ Hat3). destruct (Hc s3 (bytes ")" ++ rest) fuel Hat3) as (t & s4 & E4 & Hv & Hat4 & H4); [done|lia|].
  erewrite bind_ok by exact E4. destruct (peek_text (bytes ")") _ _ Hat4) as (s5 & E5 & Hat5 & H5). erewrite bind_ok by exact E5.
  change (head_in (bytes ")") (bytes ")" ++ rest)) with true. cbn [negb].
  destruct (gettoken_symbol _ _ _ Hat5) as (q' & eq' & s6 & E6 & Hat6 & H6); [done|]. erewrite bind_ok by exact E6.
  pose proof (at_text_le _ _ Hat6).
  destruct (parseredirs_text rs [] s6 r fuel Hat6 Hrs) as (new & s7 & E7 & Hv' & Hat7 & H7).
  { by eapply follow_not. }
  { eapply follow_ends_word, Hr. intros x. by apply strchr_symbols. }
  { lia. }
  erewrite bind_ok by exact E7. do 2 eexists. split; [reflexivity|]. rewrite view_wrap. cbn [app]. rewrite Hv, Hv'.
  split; [done|]. split; [done|lia].
Qed.

Lemma show_reads c : expressible c → reads_exec c ∧ reads_pipe c ∧ reads_back c ∧ reads_line c.
Proof.
  induction c as [ws|c IH f md fd|l IHl r IHr|l IHl r IHr|c IH]; intros Hx; cbn [expressible] in Hx.
  - destruct Hx as [Hlen Hws]. assert (H0 : reads_exec (SEXEC ws)) by (by apply exec_reads).
    assert (H1 : reads_pipe (SEXEC ws)) by (by apply exec_pipe).
    assert (H2 : reads_back (SEXEC ws)) by (by apply pipe_back). auto using back_line.
  - destruct Hx as (Hc & Hf & Hk). assert (H0 : reads_exec (SREDIR c f md fd)) by (apply redir_reads; [done|done|by apply IH]).
    assert (H1 : reads_pipe (SREDIR c f md fd)) by (by apply exec_pipe).
    assert (H2 : reads_back (SREDIR c f md fd)) by (by apply pipe_back). auto using back_line.
  - destruct Hx as [Hl Hr]. assert (H1 : reads_pipe (SPIPE l r)) by (apply pipe_reads; [by apply IHl|by apply IHr]).
    assert (H2 : reads_back (SPIPE l r)) by (by apply pipe_back).
    assert (H3 : reads_line (SPIPE l r)) by (by apply back_line). auto using block_reads.
  - destruct Hx as [Hl Hr]. assert (H3 : reads_line (SLIST l r)) by (apply list_reads; [by apply IHl|by apply IHr]).
    assert (H0 : reads_exec (SLIST l r)) by (by apply block_reads).
    assert (H1 : reads_pipe (SLIST l r)) by (by apply exec_pipe). auto using pipe_back.
  - assert (H2 : reads_back (SBACK c)) by (apply back_reads; by apply IH).
    assert (H3 : reads_line (SBACK c)) by (by apply back_line).
    assert (H0 : reads_exec (SBACK c)) by (by apply block_reads). auto using exec_pipe.
Qed.

End text.

(** ** The round trip *)

Lemma view_ext f g c : (∀ w, w ∈ words c → f w = g w) → view f c = view g c.
Proof.
  induction c as [argv|c IH q eq md fd|l IHl r IHr|l IHl r IHr|c IH]; intros H; cbn [view words] in *.
  - f_equal. apply map_ext_in. intros a Ha. apply H. by apply list_elem_of_In.
  - rewrite IH, H by (intros; try apply H; in_list). done.
  - rewrite IHl, IHr by (intros; apply H; in_list). done.
  - rewrite IHl, IHr by (intros; apply H; in_list). done.
  - by rewrite IH.
Qed.

Lemma word_nonzero w : is_word w → Forall (fun c => c ≠ 0) w.
Proof.
  intros [_ H]. eapply Forall_impl; [exact H|]. unfold word_char. intros c [[Hc _]%andb_prop _]%andb_prop.
  by apply Z.eqb_neq, negb_true_iff.
Qed.

Lemma show_nonzero c : ∀ lvl, expressible c → Forall (fun c => c ≠ 0) (show lvl c).
Proof.
  assert (Hp : ∀ b l, Forall (fun c => c ≠ 0) l → Forall (fun c => c ≠ 0) (parens b l)).
  { intros b l Hl. unfold parens, bytes. destruct b; [|done]. cbn. constructor; [done|].
    apply Forall_app. split; [done|]. by repeat constructor. }
  induction c as [ws|c IH f md fd|l IHl r IHr|l IHl r IHr|c IH]; intros lvl Hx; cbn [show expressible] in *.
  - destruct Hx as [_ Hws]. unfold show_words. induction Hws as [|w ws Hw Hws IH]; [constructor|].
    cbn [map concat]. apply Forall_app. split; [constructor; [done|by apply word_nonzero]|done].
  - destruct Hx as (Hc & Hf & _). apply Forall_app. split; [auto|]. unfold show_redir. apply Forall_app.
    split; [|by apply word_nonzero]. destruct (_ =? _); [|destruct (_ =? _)]; by repeat constructor.
  - destruct Hx. apply Hp, Forall_app. split; [auto|]. unfold bytes. cbn. constructor; [done|auto].
  - destruct Hx. apply Hp, Forall_app. split; [auto|]. unfold bytes. cbn. constructor; [done|auto].
  - apply Hp, Forall_app. split; [auto|]. by repeat constructor.
Qed.

Lemma cstring_nonzero l r : Forall (fun c => c ≠ 0) l → cstring (l ++ 0 :: r) = l.
Proof.
  induction 1 as [|c l Hc Hl IH]; cbn [app cstring]; [done|]. rewrite (proj2 (Z.eqb_neq _ _)) by done. by rewrite IH.
Qed.

Lemma word_text_all l r : word_text (l ++ r) (0%nat, length l) = l.
Proof.
  unfold word_text. cbn [fst snd]. rewrite Nat.sub_0_r. apply list_eq. intros i.
  rewrite list_lookup_fmap. destruct (decide (i < length l)%nat) as [Hi|Hi].
  - rewrite lookup_seq_lt by done. cbn. unfold chr. rewrite nth_lookup, lookup_app_l by done.
    by destruct (lookup_lt_is_Some_2 l i Hi) as [x ->].
  - rewrite lookup_seq_ge by lia. cbn. symmetry. apply lookup_ge_None. lia.
Qed.

(** C38: The parser inverts printing: the text of a command (with the
    parentheses its structure needs), followed by white space, is parsed, and
    the command with the words as the NUL-terminated strings in the buffer
    after nulterminate is the command that was printed. *)
Theorem parse_show c ws junk :
  expressible c → Forall (fun c => strchr whitespace c = true) ws →
  ∃ t buf', parsecmd (show 3 c ++ ws ++ 0 :: junk) = Ok (t, buf') ∧
    view (fun w => string_at buf' w.1) t = c.
Proof.
  intros Hx Hws. set (buf := show 3 c ++ ws ++ 0 :: junk).
  assert (Ebuf : buf = (show 3 c ++ ws) ++ 0 :: junk) by (unfold buf; by rewrite app_assoc).
  assert (Hnz : Forall (fun c => c ≠ 0) (show 3 c ++ ws)).
  { apply Forall_app. split; [by apply show_nonzero|]. eapply Forall_impl; [exact Hws|]. by intros x Hw ->. }
  unfold parsecmd. set (es := length (string_at buf 0)).
  assert (Ees : es = length (show 3 c ++ ws)) by (unfold es, string_at; rewrite drop_0, Ebuf, cstring_nonzero; done).
  assert (Hin : ∀ s, (s < es)%nat → chr buf s ≠ 0) by (intros s Hs; by apply (cstring_spec buf)).
  assert (Hes : chr buf es = 0) by apply (cstring_spec buf).
  assert (Hat : at_text buf es 0 (show 3 c ++ ws)).
  { apply at_text_raw. split; [lia|]. rewrite Ees, Ebuf. apply word_text_all. }
  assert (Htrim : trim ws = []).
  { clear -Hws. induction Hws as [|x ws Hx _ IH]; cbn [trim]; [done|]. by rewrite Hx. }
  destruct (show_reads buf es Hin Hes c Hx) as (_ & _ & _ & Hline).
  destruct (Hline 0%nat ws (parse_fuel es) Hat) as (t & s1 & E1 & Hv & Hat1 & H1).
  { unfold follow. by rewrite Htrim. }
  { unfold parse_fuel. lia. }
  erewrite bind_ok by exact E1.
  destruct (peek_text buf es Hin Hes [] s1 ws Hat1) as (s2 & E2 & Hat2 & H2). erewrite bind_ok by exact E2.
  assert (Hend : s2 = es).
  { unfold peek, bind, get, put, ret in E2. injection E2 as _ <-. apply (at_nil buf).
    destruct (at_text_skip _ _ _ _ Hat1) as [Hraw _]. by rewrite Htrim in Hraw. }
  unfold bind, get. cbv beta iota. rewrite Hend, Nat.eqb_refl. cbn [negb ret].
  do 2 eexists. split; [reflexivity|]. rewrite <- Hv. apply view_ext. intros w Hw.
  pose proof (proj1 (parse_may buf es Hin Hes (parse_fuel es) 0%nat ltac:(lia)) ltac:(unfold parse_fuel; lia)) as Hm.
  unfold may in Hm. rewrite E1 in Hm. destruct Hm as (_ & Hg & _). by eapply terminated_word.
Qed.

(** (ls -l | wc) > out & ; date *)
Definition sample_scmd : scmd :=
  SLIST (SBACK (SREDIR (SPIPE (SEXEC [bytes "ls"; bytes "-l"]) (SEXEC [bytes "wc"])) (bytes "out") out_mode 1))
    (SEXEC [bytes "date"]).

Lemma parse_show_witness :
  show 3 sample_scmd = bytes "( ls -l| wc)>out&; date" ∧
  ∃ t buf', parsecmd (show 3 sample_scmd ++ [10] ++ 0 :: []) = Ok (t, buf') ∧
    view (fun w => string_at buf' w.1) t = sample_scmd.
Proof.
  split; [reflexivity|]. apply (parse_show sample_scmd [10] []).
  - cbn. unfold is_word, redir_kind, MAXARGS. repeat split; try lia; try done; repeat constructor; try done.
    all: try (right; left; done).
  - by repeat constructor.
Defined.
