(* ===== verification/ShRun.v ===== *)
(** * The processes of a command

    What runcmd of user/sh.c sets up: the programs that are executed, and the
    open files each of them starts with.  A system call takes effect on the
    table of the open files of the process as in the kernel (the lowest free
    descriptor is used; fork copies the table); the calls succeed. *)

From S2P Require Import Prelude Printf Ulib Sh ShPrint.

(** ** Running a program *)

(** An open file: a path that was opened, an end of a pipe, or one of the
    files that the shell has been started with. *)
Inductive ofile : Type :=
  | Opened (path : list Z) (mode : Z)
  | PipeRead (id : nat)
  | PipeWrite (id : nat)
  | Inherited (id : nat).

Definition fds : Type := list (option ofile).

Fixpoint fdalloc (t : fds) : option nat :=
  match t with
  | [] => None
  | None :: _ => Some O
  | Some _ :: t => S <$> fdalloc t
  end.

(** The programs executed by the process and its children, each with its
    arguments and open files; [n] is the number of pipes made before. *)
Fixpoint run (p : prog) (t : fds) (n : nat) : list (list (list Z) * fds) * nat :=
  match p with
  | Exit _ | Loops => ([], n)
  | Exec _ argv _ => ([(argv, t)], n)
  | Fork child parent _ =>
      let '(e1, n) := run child t n in
      let '(e2, n) := run parent t n in
      (e1 ++ e2, n)
  | Wait k | Write _ _ k | Chdir _ k _ => run k t n
  | MkPipe k failed =>
      match fdalloc t with
      | None => run failed t n
      | Some p0 =>
          let t1 := <[p0 := Some (PipeRead n)]> t in
          match fdalloc t1 with
          | None => run failed t n
          | Some p1 => run (k (Z.of_nat p0) (Z.of_nat p1)) (<[p1 := Some (PipeWrite n)]> t1) (S n)
          end
      end
  | Close fd k => run k (<[Z.to_nat fd := None]> t) n
  | Dup fd k =>
      match t !! Z.to_nat fd, fdalloc t with
      | Some (Some f), Some i => run k (<[i := Some f]> t) n
      | _, _ => run k t n
      end
  | Open path mode k =>
      match fdalloc t with
      | Some i => run (k (Z.of_nat i)) (<[i := Some (Opened path mode)]> t) n
      | None => run (k (-1)) t n
      end
  end.

(** ** What a command means *)

(** The table of a process with standard input, output and error output, and
    no other open file. *)
Definition std (i o e : ofile) : fds := [Some i; Some o; Some e] ++ replicate 13 None.

Fixpoint plumb (c : scmd) (i o e : ofile) (n : nat) : list (list (list Z) * fds) * nat :=
  match c with
  | SEXEC [] => ([], n)
  | SEXEC argv => ([(argv, std i o e)], n)
  | SREDIR c file mode fd =>
      if fd =? 0 then plumb c (Opened file mode) o e n else plumb c i (Opened file mode) e n
  | SPIPE l r =>
      let '(e1, n1) := plumb l i (PipeWrite n) e (S n) in
      let '(e2, n2) := plumb r (PipeRead n) o e n1 in
      (e1 ++ e2, n2)
  | SLIST l r =>
      let '(e1, n1) := plumb l i o e n in
      let '(e2, n2) := plumb r i o e n1 in
      (e1 ++ e2, n2)
  | SBACK c => plumb c i o e n
  end.

(** Redirections are of standard input or standard output. *)
Fixpoint std_redirs (c : cmd) : Prop :=
  match c with
  | EXEC _ => True
  | REDIR c _ _ _ fd => (fd = 0 ∨ fd = 1) ∧ std_redirs c
  | PIPE l r | LIST l r => std_redirs l ∧ std_redirs r
  | BACK c => std_redirs c
  end.

(** C39: runcmd executes the programs of the command, each with the open files
    that the command says: the two sides of a pipe are connected to it and a
    redirection replaces standard input or output.  No program has any other
    file open: all copies of the ends of the pipes have been closed, so that
    the reader of a pipe sees the end of the file when its writers are
    gone. *)
Theorem runcmd_plumbs buf c i o e n :
  std_redirs c →
  run (runcmd buf c) (std i o e) n = plumb (view (fun w => string_at buf w.1) c) i o e n.
Proof.
  revert i o e n; induction c as [argv|c IH q eq md fd|l IHl r IHr|l IHl r IHr|c IH]; intros i o e n H;
    cbn [std_redirs] in H; cbn [runcmd view].
  - destruct argv as [|[q eq] argv]; [done|]. reflexivity.
  - destruct H as [[->| ->] H]; [exact (IH (Opened _ _) o e n H)|exact (IH i (Opened _ _) e n H)].
  - destruct H as [Hl Hr].
    change (run _ (std i o e) n) with
      (let '(e1, n1) := run (runcmd buf l) (std i (PipeWrite n) e) (S n) in
       let '(e2, n2) :=
         (let '(e2, n2) := run (runcmd buf r) (std (PipeRead n) o e) n1 in (e2 ++ [], n2)) in
       (e1 ++ e2, n2)).
    rewrite IHl by done. cbn [plumb]. destruct (plumb _ i (PipeWrite n) e (S n)) as [e1 n1].
    rewrite IHr by done. destruct (plumb _ (PipeRead n) o e n1) as [e2 n2]. by rewrite app_nil_r.
  - destruct H as [Hl Hr]. cbn [run fork1 plumb]. rewrite IHl by done.
    destruct (plumb _ i o e n) as [e1 n1]. by rewrite IHr.
  - cbn [run fork1 plumb]. rewrite IH by done. destruct (plumb _ i o e n) as [e1 n1]. by rewrite app_nil_r.
Qed.

(** ls | wc > out *)
Definition sample_line : list Z := bytes "ls | wc > out" ++ [10; 0].
Definition sample_cmd : cmd * list Z :=
  match parsecmd sample_line with Ok r => r | _ => (EXEC [], []) end.

Lemma runcmd_plumbs_witness :
  run (runcmd sample_cmd.2 sample_cmd.1) (std (Inherited 0) (Inherited 1) (Inherited 2)) 0 =
  ([([bytes "ls"], std (Inherited 0) (PipeWrite 0) (Inherited 2));
    ([bytes "wc"], std (PipeRead 0) (Opened (bytes "out") 0x601) (Inherited 2))], 1%nat).
Proof.
  rewrite (runcmd_plumbs sample_cmd.2 sample_cmd.1); [vm_compute; reflexivity|].
  vm_compute. tauto.
Defined.
