(* ===== verification/Riscv.v ===== *)
(** * Hardware constants and address arithmetic

    The macros of kernel/riscv.h, kernel/memlayout.h and kernel/param.h that
    the memory-management code computes with, at their width (64-bit unsigned
    unless said otherwise), and their arithmetic meaning. *)


From S2P Require Import Prelude Mem.

Definition PGSIZE : Z := 4096.
Definition PGSHIFT : Z := 12.

(** (((sz)+PGSIZE-1) & ~(PGSIZE-1)): the mask is an [int], sign-extended. *)
Definition PGROUNDUP (sz : Z) : Z :=
  Z.land (u64 (sz + PGSIZE - 1)) (u64 (Z.lnot (PGSIZE - 1))).
Definition PGROUNDDOWN (a : Z) : Z := Z.land a (u64 (Z.lnot (PGSIZE - 1))).

Definition PTE_V : Z := Z.shiftl 1 0.
Definition PTE_R : Z := Z.shiftl 1 1.
Definition PTE_W : Z := Z.shiftl 1 2.
Definition PTE_X : Z := Z.shiftl 1 3.
Definition PTE_U : Z := Z.shiftl 1 4.

Definition PA2PTE (pa : Z) : Z := u64 (Z.shiftl (Z.shiftr pa 12) 10).
Definition PTE2PA (pte : Z) : Z := u64 (Z.shiftl (Z.shiftr pte 10) 12).
Definition PTE_FLAGS (pte : Z) : Z := Z.land pte 0x3FF.

Definition PXMASK : Z := 0x1FF.
Definition PXSHIFT (level : Z) : Z := PGSHIFT + 9 * level.
Definition PX (level va : Z) : Z := Z.land (Z.shiftr va (PXSHIFT level)) PXMASK.

Definition MAXVA : Z := Z.shiftl 1 (9 + 9 + 9 + 12 - 1).

Definition SATP_SV39 : Z := Z.shiftl 8 60.
Definition MAKE_SATP (pagetable : Z) : Z := Z.lor SATP_SV39 (Z.shiftr pagetable 12).

(** kernel/memlayout.h *)
Definition UART0 : Z := 0x10000000.
Definition VIRTIO0 : Z := 0x10001000.
Definition PLIC : Z := 0x0c000000.
Definition KERNBASE : Z := 0x80000000.
Definition PHYSTOP : Z := KERNBASE + 128 * 1024 * 1024.
Definition TRAMPOLINE : Z := MAXVA - PGSIZE.
Definition TRAPFRAME : Z := TRAMPOLINE - PGSIZE.
Definition KSTACK (p : Z) : Z := TRAMPOLINE - (p + 1) * 2 * PGSIZE.

(** kernel/param.h *)
Definition NPROC : Z := 64.
Definition NOFILE : Z := 16.
Definition NFILE : Z := 100.
Definition NINODE : Z := 50.
Definition NDEV : Z := 10.
Definition ROOTDEV : Z := 1.
Definition MAXARG : Z := 32.
Definition MAXOPBLOCKS : Z := 10.
Definition LOGSIZE : Z := MAXOPBLOCKS * 3.
Definition NBUF : Z := MAXOPBLOCKS * 3.
Definition FSSIZE : Z := 2000.
Definition MAXPATH : Z := 128.

(** ** Bit arithmetic *)

Lemma lor_add a b n : 0 ≤ n → 0 ≤ b < 2 ^ n → Z.lor (a * 2 ^ n) b = a * 2 ^ n + b.
Proof.
  intros Hn Hb. rewrite <- Z.lxor_lor.
  - symmetry. apply Z.add_nocarry_lxor. apply Z.bits_inj'. intros i Hi.
    rewrite Z.land_spec, Z.bits_0, <- Z.shiftl_mul_pow2, Z.shiftl_spec by lia.
    destruct (decide (i < n)).
    + rewrite Z.testbit_neg_r by lia. done.
    + rewrite andb_comm, <- (Z.mod_small b (2 ^ n)), Z.mod_pow2_bits_high by lia. done.
  - apply Z.bits_inj'. intros i Hi.
    rewrite Z.land_spec, Z.bits_0, <- Z.shiftl_mul_pow2, Z.shiftl_spec by lia.
    destruct (decide (i < n)).
    + rewrite Z.testbit_neg_r by lia. done.
    + rewrite andb_comm, <- (Z.mod_small b (2 ^ n)), Z.mod_pow2_bits_high by lia. done.
Qed.

Lemma land_page_mask a :
  0 ≤ a < 2 ^ 64 → Z.land a (u64 (Z.lnot (PGSIZE - 1))) = a / PGSIZE * PGSIZE.
Proof.
  intros Ha. change (u64 (Z.lnot (PGSIZE - 1))) with (Z.shiftl (Z.ones 52) 12).
  change PGSIZE with (2 ^ 12). rewrite <- Z.shiftr_div_pow2, <- Z.shiftl_mul_pow2 by lia.
  apply Z.bits_inj'. intros i Hi. rewrite Z.land_spec, !Z.shiftl_spec by lia.
  destruct (decide (i < 12)).
  - rewrite !(Z.testbit_neg_r _ (i - 12)) by lia. apply andb_false_r.
  - rewrite Z.shiftr_spec by lia. replace (i - 12 + 12) with i by lia.
    destruct (decide (i - 12 < 52)).
    + rewrite Z.ones_spec_low by lia. apply andb_true_r.
    + rewrite Z.ones_spec_high, <- (Z.mod_small a (2 ^ 64)), Z.mod_pow2_bits_high by lia.
      done.
Qed.

Lemma PGROUNDDOWN_eq a : 0 ≤ a < 2 ^ 64 → PGROUNDDOWN a = a / PGSIZE * PGSIZE.
Proof. apply land_page_mask. Qed.

Lemma PGROUNDUP_eq a :
  0 ≤ a ≤ 2 ^ 64 - PGSIZE → PGROUNDUP a = (a + PGSIZE - 1) / PGSIZE * PGSIZE.
Proof.
  intros Ha. unfold PGROUNDUP.
  rewrite u64_small by (unfold PGSIZE in *; lia).
  apply land_page_mask. unfold PGSIZE in *; lia.
Qed.

Lemma PGROUNDDOWN_aligned a : 0 ≤ a < 2 ^ 64 → a mod PGSIZE = 0 → PGROUNDDOWN a = a.
Proof. intros. rewrite PGROUNDDOWN_eq by done. unfold PGSIZE in *. zdm. Qed.

Lemma PGROUNDUP_aligned a :
  0 ≤ a ≤ 2 ^ 64 - PGSIZE → a mod PGSIZE = 0 → PGROUNDUP a = a.
Proof. intros. rewrite PGROUNDUP_eq by done. unfold PGSIZE in *. zdm. Qed.

(** ** Page-table entries *)

Lemma PX_eq level va :
  0 ≤ level → 0 ≤ va → PX level va = va / 2 ^ (12 + 9 * level) mod 512.
Proof.
  intros. unfold PX, PXMASK, PXSHIFT, PGSHIFT. change 0x1FF with (Z.ones 9).
  by rewrite Z.land_ones, Z.shiftr_div_pow2 by lia.
Qed.

Lemma PX_range level va : 0 ≤ PX level va < 512.
Proof.
  unfold PX. change PXMASK with (Z.ones 9). rewrite Z.land_ones by lia.
  change (2 ^ 9) with 512. apply Z.mod_pos_bound. lia.
Qed.

Lemma MAXVA_eq : MAXVA = 2 ^ 38. Proof. reflexivity. Qed.

(** Two page-aligned addresses below [MAXVA] with equal indices at the
    three levels are the same page. *)
(** The addresses the three levels can tell apart, twice as many as the
    kernel uses. *)
Definition SV39 : Z := 2 ^ 39.

Lemma MAXVA_SV39 va : va < MAXVA → va < SV39.
Proof. rewrite MAXVA_eq. unfold SV39. lia. Qed.

Lemma PX_inj va va' :
  0 ≤ va < SV39 → 0 ≤ va' < SV39 →
  PX 2 va = PX 2 va' → PX 1 va = PX 1 va' → PX 0 va = PX 0 va' →
  va / PGSIZE = va' / PGSIZE.
Proof.
  unfold SV39. intros H H'. rewrite !PX_eq by lia. unfold PGSIZE.
  change (2 ^ (12 + 9 * 2)) with (4096 * 512 * 512).
  change (2 ^ (12 + 9 * 1)) with (4096 * 512). change (2 ^ (12 + 9 * 0)) with 4096.
  rewrite <- !Z.div_div by lia.
  assert (0 ≤ va / 4096 < 2 ^ 27) as Hq by zdm.
  assert (0 ≤ va' / 4096 < 2 ^ 27) as Hq' by zdm.
  revert Hq Hq'. generalize (va / 4096) (va' / 4096). intros q q' Hq Hq'. zdm.
Qed.

Lemma PX_page level va : 0 ≤ va → 0 ≤ level ≤ 2 → PX level (va / PGSIZE * PGSIZE) = PX level va.
Proof.
  intros. rewrite !PX_eq by (unfold PGSIZE; zdm).
  rewrite Z.pow_add_r by lia. change (2 ^ 12) with PGSIZE.
  rewrite <- !Z.div_div by (unfold PGSIZE; lia).
  by rewrite Z.div_mul by (unfold PGSIZE; lia).
Qed.

Lemma PA2PTE_eq pa :
  0 ≤ pa < 2 ^ 56 → pa mod PGSIZE = 0 → PA2PTE pa = pa / PGSIZE * 2 ^ 10.
Proof.
  intros. unfold PA2PTE. rewrite Z.shiftr_div_pow2, Z.shiftl_mul_pow2 by lia.
  change (2 ^ 12) with PGSIZE. apply u64_small. unfold PGSIZE. zdm.
Qed.

Lemma pte_split pa flags :
  0 ≤ pa < 2 ^ 56 → pa mod PGSIZE = 0 → 0 ≤ flags < 2 ^ 10 →
  Z.lor (PA2PTE pa) flags = pa / PGSIZE * 2 ^ 10 + flags.
Proof. intros. rewrite PA2PTE_eq by done. by apply lor_add. Qed.

Lemma pte_range pa flags :
  0 ≤ pa < 2 ^ 56 → pa mod PGSIZE = 0 → 0 ≤ flags < 2 ^ 10 →
  0 ≤ Z.lor (PA2PTE pa) flags < 2 ^ 54.
Proof. intros. rewrite pte_split by done. unfold PGSIZE. zdm. Qed.

(** Reading the address and the flags back from an entry. *)
Lemma PTE2PA_pte pa flags :
  0 ≤ pa < 2 ^ 56 → pa mod PGSIZE = 0 → 0 ≤ flags < 2 ^ 10 →
  PTE2PA (Z.lor (PA2PTE pa) flags) = pa.
Proof.
  intros. rewrite pte_split by done. unfold PTE2PA.
  rewrite Z.shiftr_div_pow2, Z.shiftl_mul_pow2 by lia.
  change (2 ^ 12) with PGSIZE. rewrite u64_small; unfold PGSIZE in *; zdm.
Qed.

Lemma PTE_FLAGS_pte pa flags :
  0 ≤ pa < 2 ^ 56 → pa mod PGSIZE = 0 → 0 ≤ flags < 2 ^ 10 →
  PTE_FLAGS (Z.lor (PA2PTE pa) flags) = flags.
Proof.
  intros. rewrite pte_split by done. unfold PTE_FLAGS. change 0x3FF with (Z.ones 10).
  rewrite Z.land_ones by lia. zdm.
Qed.

Lemma PTE_FLAGS_range pte : 0 ≤ PTE_FLAGS pte < 2 ^ 10.
Proof.
  unfold PTE_FLAGS. change 0x3FF with (Z.ones 10). rewrite Z.land_ones by lia.
  apply Z.mod_pos_bound. lia.
Qed.

(** A flag of an entry is a flag of its low ten bits. *)
Lemma land_flag_FLAGS pte k :
  0 ≤ k < 10 → Z.land pte (Z.shiftl 1 k) = Z.land (PTE_FLAGS pte) (Z.shiftl 1 k).
Proof.
  intros. unfold PTE_FLAGS. rewrite <- Z.land_assoc. f_equal.
  assert (k = 0 ∨ k = 1 ∨ k = 2 ∨ k = 3 ∨ k = 4 ∨ k = 5 ∨ k = 6 ∨ k = 7 ∨ k = 8 ∨ k = 9)
    as Hk by lia.
  by repeat destruct Hk as [->|Hk]; [..|subst].
Qed.

Lemma land_PTE_V pte : Z.land pte PTE_V = pte mod 2.
Proof. change PTE_V with (Z.ones 1). by rewrite Z.land_ones by lia. Qed.

Lemma lor_PTE_V_odd x : 0 ≤ x → Z.lor x PTE_V mod 2 = 1.
Proof.
  intros. rewrite <- Z.bit0_mod, Z.lor_spec. by rewrite orb_true_r.
Qed.

Lemma lor_range n a b : 0 ≤ n → 0 ≤ a < 2 ^ n → 0 ≤ b < 2 ^ n → 0 ≤ Z.lor a b < 2 ^ n.
Proof.
  intros Hn Ha Hb. split; [apply Z.lor_nonneg; lia|].
  destruct (decide (Z.lor a b = 0)) as [->|]; [lia|].
  assert (0 ≤ Z.lor a b) by (apply Z.lor_nonneg; lia).
  apply Z.log2_lt_pow2; [lia|]. rewrite Z.log2_lor by lia.
  destruct (decide (n = 0)) as [->|].
  { change (2 ^ 0) with 1 in *. assert (a = 0) by lia. assert (b = 0) by lia. by subst. }
  apply Z.max_lub_lt; (destruct (decide (a = 0)) as [->|]; destruct (decide (b = 0)) as [->|];
    try (change (Z.log2 0) with 0; lia); apply Z.log2_lt_pow2; lia).
Qed.
