(* ===== verification/Kalloc.v ===== *)
(** * Physical page allocator (kernel/kalloc.c)

    The free list is threaded through the free pages: the first eight bytes
    of a free page hold the address of the next one ([struct run]).  The
    state is physical memory and the head of the list; [kmem.lock] is not
    part of it, each function runs its critical section alone.

    [free_pages s l] says that the list holds the pages [l]; the theorems
    show that [kfree] and [kalloc] implement a pool of pages on it, and that
    no page is handed out twice whatever the owners of pages write to
    them. *)

From stdpp Require Import relations.
From S2P Require Import Prelude Mem Riscv.

(** What kernel/kernel.ld promises: the image starts at [KERNBASE], text ends
    at a page boundary [etext] with the page-sized trampoline section inside
    it, and [end_] (the symbol [end]) is the first address after the image. *)
Class KernelImage := {
  etext : Z;
  trampoline : Z;
  end_ : Z;
  etext_ok : KERNBASE < etext ∧ etext mod PGSIZE = 0;
  trampoline_ok : KERNBASE ≤ trampoline ∧ trampoline + PGSIZE ≤ etext ∧ trampoline mod PGSIZE = 0;
  end_ok : etext ≤ end_ ∧ end_ < PHYSTOP - PGSIZE
}.

Record kmem := mk_kmem { memory : mem; freelist : Z }.

Definition set_memory (m : mem) (s : kmem) : kmem := mk_kmem m (freelist s).

Section kalloc.
Context {KI : KernelImage}.

(** Free the page of physical memory pointed at by pa. *)
Definition kfree (pa : Z) : M kmem unit := fun s =>
  if negb (pa mod PGSIZE =? 0) || (pa <? end_) || (PHYSTOP <=? pa)
  then Panic "kfree"
  else
    (* fill with junk to catch dangling refs *)
    let m := fill (memory s) pa 1 PGSIZE in
    (* r->next = kmem.freelist; kmem.freelist = r; *)
    Ok (tt, mk_kmem (st64 m pa (freelist s)) pa).

(** Allocate one page; 0 if the memory cannot be allocated. *)
Definition kalloc : M kmem Z := fun s =>
  let r := freelist s in
  if negb (r =? 0)
  then
    (* kmem.freelist = r->next; memset(r, 5, PGSIZE) *)
    let m := memory s in
    Ok (r, mk_kmem (fill m r 5 PGSIZE) (ld64 m r))
  else Ok (r, s).

(** for(; p + PGSIZE <= pa_end; p += PGSIZE) kfree(p);  each iteration
    raises [p] by a page, so [fuel] bounds the pages of the range. *)
Fixpoint freerange_loop (fuel : nat) (p pa_end : Z) : M kmem unit :=
  match fuel with
  | O => if p + PGSIZE <=? pa_end then out_of_fuel else ret tt
  | S f =>
      if p + PGSIZE <=? pa_end
      then do! kfree p; freerange_loop f (p + PGSIZE) pa_end
      else ret tt
  end.
Definition freerange (pa_start pa_end : Z) : M kmem unit :=
  let p := PGROUNDUP pa_start in
  freerange_loop (Z.to_nat ((pa_end - p) / PGSIZE)) p pa_end.

Definition kinit : M kmem unit := freerange end_ PHYSTOP.

(** ** The pool of free pages *)

Definition page_ok (p : Z) : Prop := p mod PGSIZE = 0 ∧ end_ ≤ p < PHYSTOP.

Fixpoint free_chain (m : mem) (p : Z) (l : list Z) : Prop :=
  match l with
  | [] => p = 0
  | q :: l' => p = q ∧ page_ok q ∧ free_chain m (ld64 m q) l'
  end.

Definition free_pages (s : kmem) (l : list Z) : Prop :=
  free_chain (memory s) (freelist s) l ∧ NoDup l.

Lemma image_bounds : KERNBASE < end_ ∧ end_ < PHYSTOP.
Proof.
  pose proof etext_ok as [? _]. pose proof end_ok as [? ?].
  unfold PGSIZE in *. lia.
Qed.

Lemma page_ok_bounds p : page_ok p → 0 < p ∧ p < 2 ^ 56 ∧ p mod PGSIZE = 0.
Proof.
  intros [? ?]. pose proof image_bounds. unfold PHYSTOP, KERNBASE in *. lia.
Qed.

Lemma page_ok_disjoint p q : page_ok p → page_ok q → p ≠ q → p + PGSIZE ≤ q ∨ q + PGSIZE ≤ p.
Proof. intros [? _] [? _] ?. unfold PGSIZE in *. zdm. Qed.

(** Memory changes outside the free pages keep the pool. *)
Lemma free_chain_frame m m' p l :
  (∀ q b, q ∈ l → q ≤ b < q + PGSIZE → ld8 m' b = ld8 m b) →
  free_chain m p l → free_chain m' p l.
Proof.
  revert p; induction l as [|q l IH]; intros p Hf; cbn [free_chain]; [done|].
  intros (-> & Hq & Hc). repeat split; [apply Hq..|].
  replace (ld64 m' q) with (ld64 m q).
  - apply IH; [|done]. intros q' b Hq' Hb. apply (Hf q'); [by right|done].
  - apply ldn_ext. intros b Hb. symmetry. apply (Hf q); [by left|unfold PGSIZE; lia].
Qed.

Lemma free_pages_frame s m' l :
  (∀ q b, q ∈ l → q ≤ b < q + PGSIZE → ld8 m' b = ld8 (memory s) b) →
  free_pages s l → free_pages (set_memory m' s) l.
Proof. intros Hf [Hc Hn]. split; [|done]. by apply (free_chain_frame (memory s)). Qed.

Lemma free_chain_ok m p l q : free_chain m p l → q ∈ l → page_ok q.
Proof.
  revert p; induction l as [|q' l IH]; intros p; cbn [free_chain].
  - intros _ Hq. by apply not_elem_of_nil in Hq.
  - intros (_ & Hq' & Hc) [->|Hq]%elem_of_cons; [done|]. by apply (IH _ Hc).
Qed.

Lemma free_pages_ok s l q : free_pages s l → q ∈ l → page_ok q.
Proof. intros [Hc _]. by apply (free_chain_ok (memory s) (freelist s)). Qed.

(** [s'] differs from [s] only in the bytes of page [p]. *)
Definition only_page (p : Z) (s s' : kmem) : Prop :=
  ∀ b, b < p ∨ p + PGSIZE ≤ b → ld8 (memory s') b = ld8 (memory s) b.

Lemma kfree_spec s l pa :
  page_ok pa → pa ∉ l → free_pages s l →
  wp (kfree pa) (fun _ s' => free_pages s' (pa :: l) ∧ only_page pa s s') s.
Proof.
  intros Hpa Hnin [Hc Hn]. unfold wp, kfree. pose proof Hpa as [Hal [Hlo Hhi]].
  pose proof (page_ok_bounds _ Hpa).
  rewrite Hal, (proj2 (Z.ltb_ge _ _) Hlo), (proj2 (Z.leb_gt _ _) Hhi). simpl.
  split.
  - split; [|by apply NoDup_cons]. cbn [free_chain memory freelist]. repeat split; [apply Hpa..|].
    rewrite ld64_st64_eq, u64_small.
    + apply (free_chain_frame (memory s)); [|done]. intros q b Hq Hb.
      destruct (page_ok_disjoint pa q) as [?|?]; [done|by eapply free_chain_ok|by intros ->|..];
        rewrite (ld8_stn_out 8), ld8_fill_out by (unfold PGSIZE in *; lia); done.
    + destruct l as [|q l]; cbn [free_chain] in Hc; [lia|].
      destruct Hc as (-> & Hq & _). pose proof (page_ok_bounds _ Hq). lia.
  - intros b Hb. cbn [memory]. unfold st64.
    rewrite (ld8_stn_out 8), ld8_fill_out by (unfold PGSIZE in *; lia). done.
Qed.

Lemma kfree_panics s pa : ¬ page_ok pa → kfree pa s = Panic "kfree".
Proof.
  intros Hn. unfold kfree. destruct (_ || _) eqn:E; [done|].
  exfalso. apply Hn. destruct_bool_tests. by split.
Qed.

Lemma kalloc_spec s p l :
  free_pages s (p :: l) →
  wp kalloc (fun r s' => r = p ∧ free_pages s' l ∧ only_page p s s' ∧
    ∀ b, p ≤ b < p + PGSIZE → ld8 (memory s') b = 5) s.
Proof.
  intros [Hc Hn]. cbn [free_chain] in Hc. destruct Hc as (Hp & Hok & Hc).
  pose proof (page_ok_bounds _ Hok). unfold wp, kalloc. rewrite Hp.
  rewrite (proj2 (Z.eqb_neq p 0)) by lia. cbn [negb memory freelist].
  apply NoDup_cons in Hn as [Hnin Hn]. repeat split.
  - apply (free_chain_frame (memory s)); [|done]. intros q b Hq Hb.
    destruct (page_ok_disjoint p q) as [?|?]; [done|by eapply free_chain_ok|by intros ->|..];
      cbn [memory]; rewrite ld8_fill_out by lia; done.
  - done.
  - intros b Hb. cbn [memory]. rewrite ld8_fill_out by lia. done.
  - intros b Hb. by rewrite ld8_fill_in by lia.
Qed.

Lemma kalloc_empty s : free_pages s [] → kalloc s = Ok (0, s).
Proof. intros [Hc _]. cbn in Hc. unfold kalloc. by rewrite Hc. Qed.

(** The same, by cases on whether a page is left. *)
Lemma kalloc_cases s l :
  free_pages s l →
  wp kalloc (fun r s' =>
    (r = 0 ∧ l = [] ∧ s' = s) ∨
    (∃ l', l = r :: l' ∧ r ≠ 0 ∧ page_ok r ∧ free_pages s' l' ∧ only_page r s s' ∧
       ∀ b, r ≤ b < r + PGSIZE → ld8 (memory s') b = 5)) s.
Proof.
  intros Hf. destruct l as [|p l].
  - unfold wp. rewrite kalloc_empty by done. by left.
  - eapply wp_mono; [by apply kalloc_spec|]. intros r s' (-> & H1 & H2 & H3). right.
    assert (page_ok p) as Hp by (apply (free_pages_ok s (p :: l)); [done|by left]).
    pose proof (page_ok_bounds _ Hp). exists l. repeat split; try done; try lia; try apply Hp; apply H1.
Qed.

(** ** Initialisation *)

(** The pages of the range [lo, hi), lowest first; [lo] is page-aligned. *)
Definition pages_from (lo : Z) (n : nat) : list Z :=
  map (fun i => lo + Z.of_nat i * PGSIZE) (seq 0 n).

Lemma freerange_loop_spec n s l p :
  free_pages s l → p mod PGSIZE = 0 → end_ ≤ p → p + Z.of_nat n * PGSIZE ≤ PHYSTOP →
  (∀ q, q ∈ l → q < p) →
  ∀ pa_end, pa_end - PGSIZE < p + Z.of_nat n * PGSIZE ≤ pa_end →
  wp (freerange_loop n p pa_end)
     (fun _ s' => free_pages s' (rev (pages_from p n) ++ l)) s.
Proof.
  revert s l p; induction n as [|n IH]; intros s l p Hf Hal Hlo Hhi Hl pa_end Hend;
    cbn [freerange_loop].
  - rewrite (proj2 (Z.leb_gt _ _)) by lia. done.
  - rewrite (proj2 (Z.leb_le _ _)) by (unfold PGSIZE in *; lia).
    apply wp_bind. eapply wp_mono.
    { apply (kfree_spec s l p); [|intros Hin; specialize (Hl _ Hin); lia|done].
      split; [done|]. unfold PGSIZE in *; lia. }
    intros _ s' [Hf' _]. eapply wp_mono.
    { apply (IH s' (p :: l) (p + PGSIZE)); try done; try (unfold PGSIZE in *; lia).
      - unfold PGSIZE in *; zdm.
      - intros q [->|Hq]%elem_of_cons; [unfold PGSIZE; lia|].
        specialize (Hl _ Hq). unfold PGSIZE; lia. }
    intros ? s'' Hs''.
    enough (rev (pages_from p (S n)) ++ l = rev (pages_from (p + PGSIZE) n) ++ p :: l)
      as Heq by (rewrite Heq; exact Hs'').
    unfold pages_from. cbn [seq map rev]. rewrite Z.add_0_r, <- app_assoc. cbn [app].
    f_equal. f_equal. rewrite <- seq_shift, map_map. apply map_ext. intros i. lia.
Qed.

Definition all_pages : list Z :=
  pages_from (PGROUNDUP end_) (Z.to_nat ((PHYSTOP - PGROUNDUP end_) / PGSIZE)).

Lemma PGROUNDUP_end :
  PGROUNDUP end_ mod PGSIZE = 0 ∧ end_ ≤ PGROUNDUP end_ < PHYSTOP.
Proof.
  pose proof image_bounds as Hb. pose proof end_ok as [_ He]. revert Hb He.
  generalize end_. intros e Hb He.
  rewrite PGROUNDUP_eq by (unfold PHYSTOP, KERNBASE, PGSIZE in *; lia).
  unfold PHYSTOP, KERNBASE, PGSIZE in *. zdm.
Qed.

Lemma kinit_spec s :
  freelist s = 0 → wp kinit (fun _ s' => free_pages s' (rev all_pages)) s.
Proof.
  intros Hs. unfold kinit, freerange.
  destruct PGROUNDUP_end as [Hal Hb]. revert Hal Hb. unfold all_pages.
  generalize (PGROUNDUP end_). intros p Hal Hb.
  eapply wp_mono.
  - apply (freerange_loop_spec _ s [] p); try done.
    + split; [done|apply NoDup_nil_2].
    + lia.
    + rewrite Z2Nat.id by (unfold PGSIZE; zdm). unfold PGSIZE in *. zdm.
    + intros q Hq. by apply not_elem_of_nil in Hq.
    + rewrite Z2Nat.id by (unfold PGSIZE; zdm). unfold PGSIZE in *. zdm.
  - intros ? s'. by rewrite app_nil_r.
Qed.

(** ** Clients

    A client state: the allocator and the list of pages handed out and not
    yet freed.  The owners of pages may write any byte of a page they own,
    and free pages they own. *)
Inductive client_step : kmem * list Z → kmem * list Z → Prop :=
| client_alloc s s' owned p :
    kalloc s = Ok (p, s') → p ≠ 0 → client_step (s, owned) (s', p :: owned)
| client_alloc_fail s s' owned :
    kalloc s = Ok (0, s') → client_step (s, owned) (s', owned)
| client_free s s' owned1 p owned2 :
    kfree p s = Ok (tt, s') →
    client_step (s, owned1 ++ p :: owned2) (s', owned1 ++ owned2)
| client_write s owned p a v :
    p ∈ owned → p ≤ a < p + PGSIZE →
    client_step (s, owned) (set_memory (st8 (memory s) a v) s, owned).

Definition client_inv (c : kmem * list Z) : Prop :=
  ∃ free, free_pages c.1 free ∧ Permutation (c.2 ++ free) all_pages.

Lemma all_pages_NoDup : NoDup all_pages.
Proof.
  unfold all_pages, pages_from. apply NoDup_fmap_2_strong, NoDup_seq.
  intros x y _ _. unfold PGSIZE. lia.
Qed.

Lemma all_pages_ok p : p ∈ all_pages → page_ok p.
Proof.
  unfold all_pages, pages_from. intros Hp. apply list_elem_of_In in Hp.
  apply in_map_iff in Hp as (i & <- & Hi%in_seq). destruct PGROUNDUP_end as [Hal Hb].
  revert Hal Hb Hi. generalize (PGROUNDUP end_). intros q Hal Hb Hi.
  unfold page_ok, PGSIZE in *. split; zdm.
Qed.

Lemma client_step_inv c c' : client_inv c → client_step c c' → client_inv c'.
Proof.
  intros (free & Hf & Hp) Hs. pose proof all_pages_NoDup as Hnd. rewrite <- Hp in Hnd.
  apply NoDup_app in Hnd as (Hn1 & Hdisj & Hn2).
  assert (Hok : ∀ q, q ∈ c.2 → page_ok q).
  { intros q Hq. apply all_pages_ok. rewrite <- Hp. apply elem_of_app. by left. }
  inversion Hs as [s s' owned p Hk Hnz|s s' owned Hk|s s' o1 p o2 Hk|s owned p a v Hin Ha];
    subst; cbn [fst snd] in *.
  - pose proof (kalloc_cases s free Hf) as Hw. unfold wp in Hw. rewrite Hk in Hw.
    destruct Hw as [(-> & _)|(l' & -> & _ & _ & Hf' & _)]; [done|].
    exists l'. split; [done|]. cbn [snd]. by rewrite <- Hp, <- Permutation_middle.
  - pose proof (kalloc_cases s free Hf) as Hw. unfold wp in Hw. rewrite Hk in Hw.
    destruct Hw as [(_ & -> & ->)|(l' & _ & ? & _)]; [|done]. by exists [].
  - assert (p ∉ free) as Hnf by (apply Hdisj, elem_of_app; right; by left).
    assert (page_ok p) as Hpok by (apply Hok, elem_of_app; right; by left).
    pose proof (kfree_spec s free p Hpok Hnf Hf) as Hw. unfold wp in Hw. rewrite Hk in Hw.
    destruct Hw as [Hf' _]. exists (p :: free). split; [done|]. cbn [snd].
    rewrite <- Hp, <- Permutation_middle, <- (Permutation_middle o1 o2). done.
  - exists free. split; [|done]. apply free_pages_frame; [|done].
    intros q b Hq Hb. apply ld8_st8_ne.
    assert (p ≠ q) as Hpq by (intros ->; by apply (Hdisj q)).
    destruct (page_ok_disjoint p q (Hok _ Hin) (free_pages_ok _ _ _ Hf Hq) Hpq); lia.
Qed.

(** C16: [kinit] succeeds, and from then on, however its clients allocate,
    free and write the pages they own, the pages owned and the pages on the
    free list are together exactly the pages of RAM after the kernel, each
    once: no page is lost, none is handed out while it is owned, every owned
    page can be freed, and an allocation fails only when all pages are
    owned. *)
Theorem kalloc_conserves_pages s0 :
  freelist s0 = 0 →
  ∃ s1, kinit s0 = Ok (tt, s1) ∧
  ∀ c, rtc client_step (s1, []) c →
  ∃ free, free_pages c.1 free ∧ Permutation (c.2 ++ free) all_pages ∧ NoDup (c.2 ++ free) ∧
    (∀ p, p ∈ c.2 → ∃ s', kfree p c.1 = Ok (tt, s')) ∧
    (∀ s', kalloc c.1 = Ok (0, s') → Permutation c.2 all_pages).
Proof.
  intros H0.
  destruct (proj1 (wp_ok _ _ _) (kinit_spec s0 H0)) as ([] & s1 & Hk & Hf1).
  exists s1. split; [done|]. intros c Hr.
  assert (client_inv c) as (free & Hf & Hp).
  { assert (client_inv (s1, [])) as Hi.
    { exists (rev all_pages). split; [done|]. cbn. symmetry. apply Permutation_rev. }
    clear -Hi Hr. induction Hr as [c|c1 c2 c3 Hs Hr IH]; [done|].
    apply IH. by eapply client_step_inv. }
  pose proof all_pages_NoDup as Hnd. rewrite <- Hp in Hnd.
  exists free. split; [done|]. repeat split; try done.
  - intros p Hin. assert (page_ok p) as Hok.
    { apply all_pages_ok. rewrite <- Hp. apply elem_of_app. by left. }
    apply NoDup_app in Hnd as (_ & Hdisj & _).
    destruct (proj1 (wp_ok _ _ _) (kfree_spec _ free p Hok (Hdisj _ Hin) Hf))
      as ([] & s' & ? & _). by exists s'.
  - intros s' Hk'. pose proof (kalloc_cases _ _ Hf) as Hw. unfold wp in Hw. rewrite Hk' in Hw.
    destruct Hw as [(_ & -> & _)|(l' & _ & ? & _)]; [|done]. by rewrite app_nil_r in Hp.
Qed.

End kalloc.

(** A kernel image, for examples. *)
Definition sample_image : KernelImage.
Proof.
  refine {| etext := KERNBASE + 0x8000; trampoline := KERNBASE + 0x7000;
            end_ := KERNBASE + 0x22000 |};
    unfold KERNBASE, PHYSTOP, PGSIZE; split; try split; done || lia.
Defined.

Lemma kalloc_conserves_pages_witness :
  ∃ s1 free, @kinit sample_image (mk_kmem (fun _ => 0) 0) = Ok (tt, s1) ∧
    Permutation free (@all_pages sample_image).
Proof.
  destruct (@kalloc_conserves_pages sample_image (mk_kmem (fun _ => 0) 0) eq_refl)
    as (s1 & Hk & Hc).
  destruct (Hc (s1, []) (rtc_refl _ _)) as (free & _ & Hp & _).
  exists s1, free. by split.
Defined.
