(* ===== verification/Vm.v ===== *)
(** * Virtual memory (kernel/vm.c): the operations

    Page tables are trees of pages in physical memory; a [pagetable_t] is the
    address of a root page and a [pte_t*] the address of an eight-byte entry.
    All operations run on the state of the page allocator.  A null pointer
    is 0, C booleans and [int] results are as in the source (0 on success,
    -1 on failure).  Kernel buffers that [copyout], [copyin] and [copyinstr]
    read or fill are byte lists.  The loops carry a bound on their number of
    iterations, taken from the range they walk. *)

From S2P Require Import Prelude Mem Riscv Kalloc.

Section vm.
Context {KI : KernelImage}.

Definition load64 (a : Z) : M kmem Z := gets (fun s => ld64 (memory s) a).
Definition store64 (a v : Z) : M kmem unit :=
  modify (fun s => set_memory (st64 (memory s) a v) s).
Definition memset (d c n : Z) : M kmem unit :=
  modify (fun s => set_memory (fill (memory s) d c n) s).
Definition memmove (d src n : Z) : M kmem unit :=
  modify (fun s => set_memory (copy (memory s) d src n) s).

(** Is a flag set in an entry? *)
Definition has (pte flag : Z) : bool := negb (Z.land pte flag =? 0).

(** The loop of [walk] from [level] down to 1, and the final address. *)
Fixpoint walk_loop (level : nat) (pagetable va : Z) (alloc : bool) : M kmem Z :=
  match level with
  | O => ret (pagetable + 8 * PX 0 va)
  | S l' =>
      let pte := pagetable + 8 * PX (Z.of_nat level) va in
      do v <- load64 pte;
      if has v PTE_V then walk_loop l' (PTE2PA v) va alloc
      else if negb alloc then ret 0
      else
        do pt <- kalloc;
        if pt =? 0 then ret 0
        else
          do! memset pt 0 PGSIZE;
          do! store64 pte (Z.lor (PA2PTE pt) PTE_V);
          walk_loop l' pt va alloc
  end.
Definition walk (pagetable va : Z) (alloc : bool) : M kmem Z :=
  if MAXVA <=? va then panic "walk" else walk_loop 2 pagetable va alloc.

Definition walkaddr (pagetable va : Z) : M kmem Z :=
  if MAXVA <=? va then ret 0
  else
    do pte <- walk pagetable va false;
    if pte =? 0 then ret 0
    else
      do v <- load64 pte;
      if negb (has v PTE_V) then ret 0
      else if negb (has v PTE_U) then ret 0
      else ret (PTE2PA v).

Fixpoint mappages_loop (fuel : nat) (pagetable a last pa perm : Z) : M kmem Z :=
  match fuel with
  | O => out_of_fuel
  | S f =>
      do pte <- walk pagetable a true;
      if pte =? 0 then ret (-1)
      else
        do v <- load64 pte;
        if has v PTE_V then panic "mappages: remap"
        else
          do! store64 pte (Z.lor (Z.lor (PA2PTE pa) perm) PTE_V);
          if a =? last then ret 0
          else mappages_loop f pagetable (u64 (a + PGSIZE)) last (u64 (pa + PGSIZE)) perm
  end.
(** When [va + size - 1] wraps around, [last] is below [a] and the loop runs
    until [walk] panics at [MAXVA]. *)
Definition mappages (pagetable va size pa perm : Z) : M kmem Z :=
  if size =? 0 then panic "mappages: size"
  else
    let a := PGROUNDDOWN va in
    let last := PGROUNDDOWN (u64 (va + size - 1)) in
    let top := if a <=? last then last else MAXVA in
    mappages_loop (S (Z.to_nat ((top - a) / PGSIZE))) pagetable a last pa perm.

Definition kvmmap (kpgtbl va pa sz perm : Z) : M kmem unit :=
  do r <- mappages kpgtbl va sz pa perm;
  if negb (r =? 0) then panic "kvmmap" else ret tt.

Fixpoint uvmunmap_loop (fuel : nat) (pagetable a bound : Z) (do_free : bool) : M kmem unit :=
  if a <? bound then
    match fuel with
    | O => out_of_fuel
    | S f =>
        do pte <- walk pagetable a false;
        if pte =? 0 then panic "uvmunmap: walk"
        else
          do v <- load64 pte;
          if negb (has v PTE_V) then panic "uvmunmap: not mapped"
          else if PTE_FLAGS v =? PTE_V then panic "uvmunmap: not a leaf"
          else
            do! (if do_free then kfree (PTE2PA v) else ret tt);
            do! store64 pte 0;
            uvmunmap_loop f pagetable (u64 (a + PGSIZE)) bound do_free
    end
  else ret tt.
Definition uvmunmap (pagetable va npages : Z) (do_free : bool) : M kmem unit :=
  if negb (va mod PGSIZE =? 0) then panic "uvmunmap: not aligned"
  else uvmunmap_loop (Z.to_nat npages) pagetable va (u64 (va + npages * PGSIZE)) do_free.

Definition uvmcreate : M kmem Z :=
  do pagetable <- kalloc;
  if pagetable =? 0 then ret 0
  else do! memset pagetable 0 PGSIZE; ret pagetable.

(** [src] holds [sz] bytes. *)
Definition uvmfirst (pagetable : Z) (src : list Z) (sz : Z) : M kmem unit :=
  if PGSIZE <=? sz then panic "uvmfirst: more than a page"
  else
    do mem <- kalloc;
    do! memset mem 0 PGSIZE;
    do _r <- mappages pagetable 0 PGSIZE mem
               (Z.lor (Z.lor (Z.lor PTE_W PTE_R) PTE_X) PTE_U);
    modify (fun s => set_memory (store_bytes (memory s) mem (take (Z.to_nat sz) src)) s).

(** [npages] is an [int], converted to the [uint64] parameter. *)
Definition uvmdealloc (pagetable oldsz newsz : Z) : M kmem Z :=
  if oldsz <=? newsz then ret oldsz
  else
    do! (if PGROUNDUP newsz <? PGROUNDUP oldsz
         then
           let npages := u64 (i32 ((PGROUNDUP oldsz - PGROUNDUP newsz) / PGSIZE)) in
           uvmunmap pagetable (PGROUNDUP newsz) npages true
         else ret tt);
    ret newsz.

Fixpoint uvmalloc_loop (fuel : nat) (pagetable a oldsz newsz xperm : Z) : M kmem Z :=
  if a <? newsz then
    match fuel with
    | O => out_of_fuel
    | S f =>
        do mem <- kalloc;
        if mem =? 0 then
          do _r <- uvmdealloc pagetable a oldsz;
          ret 0
        else
          do! memset mem 0 PGSIZE;
          do r <- mappages pagetable a PGSIZE mem (Z.lor (Z.lor PTE_R PTE_U) xperm);
          if negb (r =? 0) then
            do! kfree mem;
            do _r <- uvmdealloc pagetable a oldsz;
            ret 0
          else uvmalloc_loop f pagetable (u64 (a + PGSIZE)) oldsz newsz xperm
    end
  else ret newsz.
Definition uvmalloc (pagetable oldsz newsz xperm : Z) : M kmem Z :=
  if newsz <? oldsz then ret oldsz
  else
    let oldsz := PGROUNDUP oldsz in
    uvmalloc_loop (Z.to_nat ((newsz - oldsz + PGSIZE - 1) / PGSIZE))
                  pagetable oldsz oldsz newsz xperm.

(** [depth] bounds the nesting of page-table pages; the tables this kernel
    builds have three levels.  [freewalk_loop rec n] handles the last [n] of
    the 512 entries, [rec] being the recursive call. *)
Fixpoint freewalk_loop (rec : Z → M kmem unit) (n : nat) (pagetable : Z) : M kmem unit :=
  match n with
  | O => ret tt
  | S n' =>
      let i := 512 - Z.of_nat n in
      do pte <- load64 (pagetable + 8 * i);
      do! (if has pte PTE_V && negb (has pte (Z.lor (Z.lor PTE_R PTE_W) PTE_X)) then
             do! rec (PTE2PA pte);
             store64 (pagetable + 8 * i) 0
           else if has pte PTE_V then panic "freewalk: leaf"
           else ret tt);
      freewalk_loop rec n' pagetable
  end.
Fixpoint freewalk (depth : nat) (pagetable : Z) : M kmem unit :=
  match depth with
  | O => out_of_fuel
  | S d =>
      do! freewalk_loop (freewalk d) 512 pagetable;
      kfree pagetable
  end.

Definition uvmfree (pagetable sz : Z) : M kmem unit :=
  do! (if 0 <? sz then uvmunmap pagetable 0 (PGROUNDUP sz / PGSIZE) true else ret tt);
  freewalk 3 pagetable.

Fixpoint uvmcopy_loop (fuel : nat) (old new i sz : Z) : M kmem Z :=
  if i <? sz then
    match fuel with
    | O => out_of_fuel
    | S f =>
        do pte <- walk old i false;
        if pte =? 0 then panic "uvmcopy: pte should exist"
        else
          do v <- load64 pte;
          if negb (has v PTE_V) then panic "uvmcopy: page not present"
          else
            let pa := PTE2PA v in
            let flags := PTE_FLAGS v in
            let err := do! uvmunmap new 0 (i / PGSIZE) true; ret (-1) in
            do mem <- kalloc;
            if mem =? 0 then err
            else
              do! memmove mem pa PGSIZE;
              do r <- mappages new i PGSIZE mem flags;
              if negb (r =? 0) then do! kfree mem; err
              else uvmcopy_loop f old new (u64 (i + PGSIZE)) sz
    end
  else ret 0.
Definition uvmcopy (old new sz : Z) : M kmem Z :=
  uvmcopy_loop (Z.to_nat ((sz + PGSIZE - 1) / PGSIZE)) old new 0 sz.

Definition uvmclear (pagetable va : Z) : M kmem unit :=
  do pte <- walk pagetable va false;
  if pte =? 0 then panic "uvmclear"
  else
    do v <- load64 pte;
    store64 pte (Z.land v (u64 (Z.lnot PTE_U))).

(** Bytes from the first page on, at most [len] of them. *)
Definition in_page (va len : Z) : Z :=
  let n := PGSIZE - (va - PGROUNDDOWN va) in if len <? n then len else n.

Fixpoint copyout_loop (fuel : nat) (pagetable dstva : Z) (src : list Z) (len : Z) : M kmem Z :=
  if 0 <? len then
    match fuel with
    | O => out_of_fuel
    | S f =>
        let va0 := PGROUNDDOWN dstva in
        do pa0 <- walkaddr pagetable va0;
        if pa0 =? 0 then ret (-1)
        else
          let n := in_page dstva len in
          do! modify (fun s => set_memory
                (store_bytes (memory s) (pa0 + (dstva - va0)) (take (Z.to_nat n) src)) s);
          copyout_loop f pagetable (u64 (va0 + PGSIZE)) (drop (Z.to_nat n) src) (len - n)
    end
  else ret 0.
(** [src] holds at least [len] bytes. *)
Definition copyout (pagetable dstva : Z) (src : list Z) (len : Z) : M kmem Z :=
  copyout_loop (Z.to_nat len) pagetable dstva src len.

(** The result comes with the bytes written to [dst] so far. *)
Fixpoint copyin_loop (fuel : nat) (pagetable srcva len : Z) : M kmem (Z * list Z) :=
  if 0 <? len then
    match fuel with
    | O => out_of_fuel
    | S f =>
        let va0 := PGROUNDDOWN srcva in
        do pa0 <- walkaddr pagetable va0;
        if pa0 =? 0 then ret (-1, [])
        else
          let n := in_page srcva len in
          do bytes <- gets (fun s => load_bytes (memory s) (pa0 + (srcva - va0)) n);
          do '(r, rest) <- copyin_loop f pagetable (u64 (va0 + PGSIZE)) (len - n);
          ret (r, bytes ++ rest)
    end
  else ret (0, []).
Definition copyin (pagetable srcva len : Z) : M kmem (Z * list Z) :=
  copyin_loop (Z.to_nat len) pagetable srcva len.

(** The inner loop of [copyinstr]: up to [n] bytes at physical address [p],
    stopping at (and copying) a NUL.  Returns [got_null] and the bytes
    copied. *)
Fixpoint copyinstr_page (n : nat) (m : mem) (p : Z) : bool * list Z :=
  match n with
  | O => (false, [])
  | S n' =>
      if ld8 m p =? 0 then (true, [0])
      else let '(g, l) := copyinstr_page n' m (p + 1) in (g, ld8 m p :: l)
  end.
Fixpoint copyinstr_loop (fuel : nat) (pagetable srcva max : Z) : M kmem (Z * list Z) :=
  if 0 <? max then
    match fuel with
    | O => out_of_fuel
    | S f =>
        let va0 := PGROUNDDOWN srcva in
        do pa0 <- walkaddr pagetable va0;
        if pa0 =? 0 then ret (-1, [])
        else
          let n := in_page srcva max in
          do s <- get;
          let '(got_null, bytes) :=
            copyinstr_page (Z.to_nat n) (memory s) (pa0 + (srcva - va0)) in
          if got_null then ret (0, bytes)
          else
            do '(r, rest) <- copyinstr_loop f pagetable (u64 (va0 + PGSIZE)) (max - n);
            ret (r, bytes ++ rest)
    end
  else ret (-1, []).
Definition copyinstr (pagetable srcva max : Z) : M kmem (Z * list Z) :=
  copyinstr_loop (Z.to_nat max) pagetable srcva max.

(** One stack page per process, high in memory (proc_mapstacks of
    kernel/proc.c; the loop over the [n] remaining table slots). *)
Fixpoint proc_mapstacks_loop (n : nat) (kpgtbl : Z) : M kmem unit :=
  match n with
  | O => ret tt
  | S n' =>
      let p := NPROC - Z.of_nat n in
      do pa <- kalloc;
      if pa =? 0 then panic "kalloc"
      else
        do! kvmmap kpgtbl (KSTACK p) pa PGSIZE (Z.lor PTE_R PTE_W);
        proc_mapstacks_loop n' kpgtbl
  end.
Definition proc_mapstacks (kpgtbl : Z) : M kmem unit :=
  proc_mapstacks_loop (Z.to_nat NPROC) kpgtbl.

(** The kernel's direct map. *)
Definition kvmmake : M kmem Z :=
  do kpgtbl <- kalloc;
  do! memset kpgtbl 0 PGSIZE;
  do! kvmmap kpgtbl UART0 UART0 PGSIZE (Z.lor PTE_R PTE_W);
  do! kvmmap kpgtbl VIRTIO0 VIRTIO0 PGSIZE (Z.lor PTE_R PTE_W);
  do! kvmmap kpgtbl PLIC PLIC 0x400000 (Z.lor PTE_R PTE_W);
  do! kvmmap kpgtbl KERNBASE KERNBASE (etext - KERNBASE) (Z.lor PTE_R PTE_X);
  do! kvmmap kpgtbl etext etext (PHYSTOP - etext) (Z.lor PTE_R PTE_W);
  do! kvmmap kpgtbl TRAMPOLINE trampoline PGSIZE (Z.lor PTE_R PTE_X);
  do! proc_mapstacks kpgtbl;
  ret kpgtbl.

End vm.
