(* ===== verification/VmByte.v ===== *)
(** * Copies of single bytes (kernel/vm.c: copyin, copyout)

    Pipes and the console copy one byte at a time; such a copy returns, with
    0 or -1, whatever the page table and the address are. *)

From S2P Require Import Prelude Mem Riscv Kalloc Vm.

Lemma walk_loop_total level pt va (s : kmem) : ∃ v, walk_loop level pt va false s = Ok (v, s).
Proof.
  revert pt; induction level as [|l IH]; intros pt; cbn [walk_loop]; [by eexists|].
  unfold bind, load64, gets. case_test; [apply IH|by eexists].
Qed.

Lemma walkaddr_total pt va (s : kmem) : ∃ v, walkaddr pt va s = Ok (v, s).
Proof.
  unfold walkaddr. case_test; [by eexists|]. unfold walk.
  rewrite (proj2 (Z.leb_gt MAXVA va)) by done. destruct (walk_loop_total 2 pt va s) as [pte Ew].
  unfold bind at 1. rewrite Ew. case_test; [by eexists|]. unfold bind, load64, gets.
  case_test; [by eexists|]. case_test; by eexists.
Qed.

(** One byte copied in or out; neither ever fails otherwise than with -1. *)
Lemma in_page_byte a : 0 ≤ a < 2 ^ 64 → in_page a 1 = 1.
Proof.
  intros Ha. unfold in_page. rewrite PGROUNDDOWN_eq by done. unfold PGSIZE. case_test; zdm.
Qed.

Lemma copyin_one pt a (s : kmem) : 0 ≤ a < 2 ^ 64 → ∃ r l, copyin pt a 1 s = Ok ((r, l), s).
Proof.
  intros Ha. unfold copyin. change (Z.to_nat 1) with 1%nat. cbn [copyin_loop].
  change (0 <? 1) with true. cbv iota zeta.
  unfold bind at 1. destruct (walkaddr_total pt (PGROUNDDOWN a) s) as [v ->].
  case_test; [by eexists _, _|]. unfold bind, gets.
  rewrite in_page_byte by done.
  cbn. by eexists _, _.
Qed.

Lemma copyout_one pt a c (s : kmem) :
  0 ≤ a < 2 ^ 64 → ∃ r m, copyout pt a [c] 1 s = Ok (r, mk_kmem m (freelist s)).
Proof.
  intros Ha. unfold copyout. change (Z.to_nat 1) with 1%nat. cbn [copyout_loop].
  change (0 <? 1) with true. cbv iota zeta.
  unfold bind at 1. destruct (walkaddr_total pt (PGROUNDDOWN a) s) as [v ->].
  case_test; [exists (-1), (memory s); by destruct s|]. unfold bind, modify.
  rewrite in_page_byte by done.
  cbn. by eexists _, _.
Qed.
