(* ===== verification/PageTable.v ===== *)
(** * Page tables as trees

    The pages of a page table, as a partial function from paths (the indices
    that [walk] follows from the root) to page addresses, and how the writes
    of kernel/vm.c change it.  [pt_ok] is the invariant of a page table that
    shares physical memory with the free list: every path leads to an
    allocatable page that is not free, and no two paths to the same page.

    Theorems: [walk] returns the address of the entry for a virtual address
    and, when it allocates, changes no entry; [mappages] maps exactly its
    range and [uvmunmap] unmaps exactly its range. *)

From S2P Require Import Prelude Mem Riscv Kalloc Vm.

Section pagetable.
Context {KI : KernelImage}.

(** ** The tree *)

Definition child (m : mem) (i p : Z) : option Z :=
  let pte := ld64 m (p + 8 * i) in
  if has pte PTE_V then Some (PTE2PA pte) else None.

Fixpoint pt_node (m : mem) (p : Z) (path : list Z) : option Z :=
  match path with
  | [] => Some p
  | i :: rest => match child m i p with Some q => pt_node m q rest | None => None end
  end.

Lemma pt_node_snoc m p path i :
  pt_node m p (path ++ [i])
  = match pt_node m p path with Some q => child m i q | None => None end.
Proof.
  revert p; induction path as [|j path IH]; intros p; cbn [pt_node app].
  - by destruct (child m i p).
  - by destruct (child m j p).
Qed.

(** A path to a page of the table: up to two 9-bit indices. *)
Definition is_path (path : list Z) : Prop :=
  Forall (fun i => 0 ≤ i < 512) path ∧ (length path ≤ 2)%nat.

Lemma is_path_snoc path i : is_path (path ++ [i]) → is_path path ∧ 0 ≤ i < 512 ∧ (length path ≤ 1)%nat.
Proof.
  intros [Hf Hl]. apply Forall_app in Hf as [H1 H2]. rewrite length_app in Hl. simpl in Hl.
  apply Forall_cons in H2 as [H2 _]. repeat split; done || lia.
Qed.

Definition va_path (va : Z) : list Z := [PX 2 va; PX 1 va].

Lemma is_path_va va : is_path (va_path va).
Proof. split; [|done]. repeat constructor; apply PX_range. Qed.

(** Address of the entry for [va], and the entry (0 when there is none). *)
Definition pte_addr (m : mem) (root va : Z) : option Z :=
  match pt_node m root (va_path va) with
  | Some p => Some (p + 8 * PX 0 va)
  | None => None
  end.
Definition pte_at (m : mem) (root va : Z) : Z :=
  match pte_addr m root va with Some a => ld64 m a | None => 0 end.

(** ** The invariant *)

Record pt_ok (m : mem) (root : Z) (free : list Z) : Prop := {
  pt_page : ∀ path p, is_path path → pt_node m root path = Some p → page_ok p ∧ p ∉ free;
  pt_inj : ∀ path path' p, is_path path → is_path path' →
    pt_node m root path = Some p → pt_node m root path' = Some p → path = path'
}.

(** The entries of the upper two levels have no permissions, which is how
    freewalk tells them from leaves. *)
Definition interior_ok (m : mem) (root : Z) : Prop :=
  ∀ path i p, is_path path → (length path ≤ 1)%nat → 0 ≤ i < 512 → pt_node m root path = Some p →
    has (ld64 m (p + 8 * i)) PTE_V = true →
    has (ld64 m (p + 8 * i)) (Z.lor (Z.lor PTE_R PTE_W) PTE_X) = false.

Lemma interior_entry q : page_ok q → has (Z.lor (PA2PTE q) PTE_V) (Z.lor (Z.lor PTE_R PTE_W) PTE_X) = false.
Proof.
  intros Hq. destruct (page_ok_bounds q Hq) as (? & ? & ?). unfold has.
  change (Z.lor (Z.lor PTE_R PTE_W) PTE_X) with (Z.land 0x3FF (Z.lor (Z.lor PTE_R PTE_W) PTE_X)).
  rewrite Z.land_assoc. change (Z.land ?x 0x3FF) with (PTE_FLAGS x).
  by rewrite PTE_FLAGS_pte by (done || lia).
Qed.

(** Byte [b] lies in a page of the table. *)
Definition in_table (m : mem) (root b : Z) : Prop :=
  ∃ path p, is_path path ∧ pt_node m root path = Some p ∧ p ≤ b < p + PGSIZE.

Lemma pt_ok_weaken m root free free' :
  (∀ p, p ∈ free' → p ∈ free) → pt_ok m root free → pt_ok m root free'.
Proof.
  intros Hsub [H1 H2]. split; [|done]. intros path p Hp Hn.
  destruct (H1 _ _ Hp Hn) as [? Hnin]. split; [done|]. intros Hin. by apply Hnin, Hsub.
Qed.

(** Only the entries of the table's pages matter. *)
Lemma pt_node_frame m m' root free path :
  pt_ok m root free →
  (∀ path p b, is_path path → (length path ≤ 1)%nat → pt_node m root path = Some p →
     p ≤ b < p + PGSIZE → ld8 m' b = ld8 m b) →
  is_path path → pt_node m' root path = pt_node m root path.
Proof.
  intros Hok Hf. induction path as [|i path IH] using rev_ind; intros Hp; [done|].
  apply is_path_snoc in Hp as (Hp & Hi & Hl). rewrite !pt_node_snoc, IH by done.
  destruct (pt_node m root path) as [p|] eqn:E; [|done].
  unfold child. replace (ld64 m' (p + 8 * i)) with (ld64 m (p + 8 * i)); [done|].
  apply ldn_ext. intros b Hb. symmetry. apply (Hf path p); try done. unfold PGSIZE. lia.
Qed.

Lemma pt_ok_frame m m' root free :
  pt_ok m root free →
  (∀ path p b, is_path path → (length path ≤ 1)%nat → pt_node m root path = Some p →
     p ≤ b < p + PGSIZE → ld8 m' b = ld8 m b) →
  pt_ok m' root free.
Proof.
  intros Hok Hf. split.
  - intros path p Hp. rewrite (pt_node_frame m m' root free) by done. by apply Hok.
  - intros path path' p Hp Hp'. rewrite !(pt_node_frame m m' root free) by done. by apply Hok.
Qed.

(** Writes outside the table keep every entry. *)
Lemma pte_at_frame m m' root free va :
  pt_ok m root free →
  (∀ b, in_table m root b → ld8 m' b = ld8 m b) →
  pte_at m' root va = pte_at m root va ∧ pte_addr m' root va = pte_addr m root va.
Proof.
  intros Hok Hf. unfold pte_at, pte_addr.
  rewrite (pt_node_frame m m' root free) by
    (done || apply is_path_va || (intros; apply Hf; by eexists _, _)).
  split; [|done]. destruct (pt_node m root (va_path va)) as [p|] eqn:E; [|done].
  apply ldn_ext. intros b Hb. apply Hf. exists (va_path va), p.
  split; [apply is_path_va|split; [done|]]. pose proof (PX_range 0 va). unfold PGSIZE. lia.
Qed.

(** ** Linking a fresh zeroed page into an empty slot *)

Section grow.
Variables (m : mem) (root : Z) (q : Z) (free : list Z) (path : list Z) (i p : Z).
Hypothesis Hok : pt_ok m root (q :: free).
Hypothesis Hq : page_ok q.
Hypothesis Hpath : is_path (path ++ [i]).
Hypothesis Hp : pt_node m root path = Some p.
Hypothesis Hslot : has (ld64 m (p + 8 * i)) PTE_V = false.
Variable m' : mem.
Hypothesis Hzero : ∀ b, q ≤ b < q + PGSIZE → ld8 m' b = 0.
Hypothesis Hentry : ld64 m' (p + 8 * i) = Z.lor (PA2PTE q) PTE_V.
Hypothesis Hrest : ∀ b, ¬ (q ≤ b < q + PGSIZE) → ¬ (p + 8 * i ≤ b < p + 8 * i + 8) →
  ld8 m' b = ld8 m b.

Lemma zero_page_ld64 j : 0 ≤ j < 512 → ld64 m' (q + 8 * j) = 0.
Proof.
  intros Hj. rewrite <- (ldn_fill_zero 8 m' q PGSIZE (q + 8 * j)) by (unfold PGSIZE; lia).
  apply ldn_ext. intros b Hb.
  rewrite ld8_fill_in, Hzero by (unfold PGSIZE; lia). done.
Qed.

Lemma entry_valid : child m' i p = Some q.
Proof.
  unfold child. rewrite Hentry. destruct (page_ok_bounds q Hq) as (? & ? & ?).
  rewrite PTE2PA_pte by (done || lia).
  unfold has. rewrite land_PTE_V, lor_PTE_V_odd; [done|].
  rewrite PA2PTE_eq by lia. unfold PGSIZE. zdm.
Qed.

Lemma pt_node_grow path' :
  is_path path' →
  pt_node m' root path'
  = if decide (path' = path ++ [i]) then Some q else pt_node m root path'.
Proof.
  induction path' as [|j π IH] using rev_ind; intros Hp'.
  { destruct (decide _) as [E|]; [by destruct path|done]. }
  apply is_path_snoc in Hp' as (Hπ & Hj & Hl). specialize (IH Hπ).
  apply is_path_snoc in Hpath as (Hpath1 & Hi & Hl1).
  rewrite !pt_node_snoc, IH. destruct (decide (π = path ++ [i])) as [->|Hne].
  - assert (pt_node m root (path ++ [i]) = None) as ->.
    { rewrite pt_node_snoc, Hp. unfold child. by rewrite Hslot. }
    unfold child. rewrite zero_page_ld64 by done. cbn.
    destruct (decide _) as [E|]; [|done]. apply (f_equal length) in E.
    rewrite !length_app in E. simpl in E. lia.
  - destruct (pt_node m root π) as [p'|] eqn:E.
    + destruct (pt_page _ _ _ Hok π p' Hπ E) as [Hp'ok Hp'nin].
      assert (p' ≠ q) by (intros ->; apply Hp'nin; by left).
      destruct (page_ok_disjoint p' q Hp'ok Hq) as [Hd|Hd]; [done|..];
      (destruct (decide (π ++ [j] = path ++ [i])) as [Heq|Hneq];
      [ apply app_inj_2 in Heq as [-> [= ->]]; [|done];
        rewrite Hp in E; injection E as <-; apply entry_valid
      | unfold child; replace (ld64 m' (p' + 8 * j)) with (ld64 m (p' + 8 * j)); [done|];
        apply ldn_ext; intros b Hb; symmetry; apply Hrest; [unfold PGSIZE in *; lia|];
        intros Hb'; apply Hneq;
        destruct (pt_page _ _ _ Hok path p Hpath1 Hp) as [Hpok _];
        destruct (decide (p' = p)) as [->|Hpp];
        [ assert (π = path) as -> by (by apply (pt_inj _ _ _ Hok π path p));
          assert (i = j) as -> by lia; done
        | destruct (page_ok_disjoint p' p Hp'ok Hpok Hpp); unfold PGSIZE in *; lia]]).
    + destruct (decide (π ++ [j] = path ++ [i])) as [Heq|Hneq]; [|done].
      apply app_inj_2 in Heq as [-> _]; [|done]. by rewrite Hp in E.
Qed.

Lemma pt_ok_grow : q ∉ free → pt_ok m' root free.
Proof.
  intros Hqf. split.
  - intros π x Hπ. rewrite pt_node_grow by done. case_decide as E.
    + intros [= <-]. done.
    + intros Hx. destruct (pt_page _ _ _ Hok π x Hπ Hx) as [? Hn]. split; [done|].
      intros ?. apply Hn. by right.
  - intros π π' x Hπ Hπ'. rewrite !pt_node_grow by done. repeat case_decide; subst.
    + done.
    + intros [= <-] Hx. destruct (pt_page _ _ _ Hok π' q Hπ' Hx) as [_ []]. by left.
    + intros Hx [= <-]. destruct (pt_page _ _ _ Hok π q Hπ Hx) as [_ []]. by left.
    + by apply Hok.
Qed.

Lemma interior_grow : interior_ok m root → interior_ok m' root.
Proof.
  intros Hint π j p' Hπ Hl Hj. rewrite pt_node_grow by done. case_decide as E.
  { intros [= <-]. by rewrite zero_page_ld64. }
  intros Hn. destruct (decide (p' = p ∧ j = i)) as [[-> ->]|Hne].
  { rewrite Hentry. intros _. by apply interior_entry. }
  replace (ld64 m' (p' + 8 * j)) with (ld64 m (p' + 8 * j)); [by apply (Hint π)|].
  apply is_path_snoc in Hpath as (Hpath1 & Hi & Hl1).
  destruct (pt_page _ _ _ Hok π p' Hπ Hn) as [Hp'ok Hp'nin].
  destruct (pt_page _ _ _ Hok path p Hpath1 Hp) as [Hpok _].
  assert (p' ≠ q) as Hq' by (intros ->; apply Hp'nin; by left).
  apply ldn_ext. intros b Hb. symmetry. apply Hrest.
  - destruct (page_ok_disjoint p' q Hp'ok Hq Hq'); unfold PGSIZE in *; lia.
  - destruct (decide (p' = p)) as [->|Hpp]; [lia|].
    destruct (page_ok_disjoint p' p Hp'ok Hpok Hpp); unfold PGSIZE in *; lia.
Qed.

(** No leaf entry changes: the new page holds only empty ones. *)
Lemma pte_at_grow va : pte_at m' root va = pte_at m root va.
Proof.
  unfold pte_at, pte_addr. rewrite pt_node_grow by apply is_path_va.
  apply is_path_snoc in Hpath as (Hpath1 & Hi & Hl1).
  case_decide as E.
  - rewrite zero_page_ld64 by apply PX_range. rewrite E, pt_node_snoc, Hp.
    unfold child. by rewrite Hslot.
  - destruct (pt_node m root (va_path va)) as [p'|] eqn:E'; [|done].
    destruct (pt_page _ _ _ Hok _ p' (is_path_va va) E') as [Hp'ok Hp'nin].
    assert (p' ≠ q) by (intros ->; apply Hp'nin; by left).
    destruct (pt_page _ _ _ Hok path p Hpath1 Hp) as [Hpok _].
    assert (p' ≠ p).
    { intros ->. assert (va_path va = path) as Hv by
        (by apply (pt_inj _ _ _ Hok _ _ p (is_path_va va) Hpath1)).
      rewrite <- Hv in Hl1. simpl in Hl1. lia. }
    apply ldn_ext. intros b Hb. apply Hrest.
    + pose proof (PX_range 0 va). destruct (page_ok_disjoint p' q Hp'ok Hq); [done|..];
        unfold PGSIZE in *; lia.
    + pose proof (PX_range 0 va). destruct (page_ok_disjoint p' p Hp'ok Hpok); [done|..];
        unfold PGSIZE in *; lia.
Qed.
End grow.

(** ** Writing a leaf entry *)

Lemma va_path_inj va va' :
  0 ≤ va < SV39 → 0 ≤ va' < SV39 → va_path va = va_path va' → PX 0 va = PX 0 va' →
  va / PGSIZE = va' / PGSIZE.
Proof. intros ?? [= H2 H1] H0. by apply PX_inj. Qed.

Lemma va_path_page va va' :
  0 ≤ va → 0 ≤ va' → va / PGSIZE = va' / PGSIZE →
  va_path va = va_path va' ∧ PX 0 va = PX 0 va'.
Proof.
  intros H0 H0' Hpg. unfold va_path.
  assert (∀ l, 0 ≤ l ≤ 2 → PX l va = PX l va') as E.
  { intros l Hl. rewrite <- (PX_page l va), <- (PX_page l va') by lia. by rewrite Hpg. }
  by rewrite !E by lia.
Qed.

Lemma leaf_inv m root free va a :
  pt_ok m root free → pte_addr m root va = Some a →
  ∃ p, pt_node m root (va_path va) = Some p ∧ a = p + 8 * PX 0 va ∧ page_ok p.
Proof.
  unfold pte_addr. intros Hok Ha.
  destruct (pt_node m root (va_path va)) as [p|] eqn:E; [|done].
  injection Ha as <-. exists p. repeat split;
    by apply (pt_page _ _ _ Hok (va_path va) p (is_path_va va) E).
Qed.

Section leaf.
Variables (m : mem) (root : Z) (free : list Z) (va a v : Z).
Hypothesis Hok : pt_ok m root free.
Hypothesis Hva : 0 ≤ va < MAXVA.
Hypothesis Ha : pte_addr m root va = Some a.
Variable m' : mem.
Hypothesis Hentry : ld64 m' a = v.
Hypothesis Hrest : ∀ b, ¬ (a ≤ b < a + 8) → ld8 m' b = ld8 m b.

Lemma pt_leaf_frame path p b :
  is_path path → (length path ≤ 1)%nat → pt_node m root path = Some p →
  p ≤ b < p + PGSIZE → ld8 m' b = ld8 m b.
Proof.
  intros Hp Hl Hn Hb. apply Hrest. destruct (leaf_inv m root free va a Hok Ha) as (p0 & Hp0 & E & Hok0).
  rewrite E.
  destruct (pt_page _ _ _ Hok path p Hp Hn) as [Hok1 _].
  assert (p ≠ p0) as Hne.
  { intros ->. assert (path = va_path va) as -> by
      (by apply (pt_inj _ _ _ Hok path (va_path va) p0 Hp (is_path_va va))).
    simpl in Hl. lia. }
  pose proof (PX_range 0 va).
  destruct (page_ok_disjoint p p0 Hok1 Hok0 Hne); unfold PGSIZE in *; lia.
Qed.

Lemma pt_node_leaf path : is_path path → pt_node m' root path = pt_node m root path.
Proof. apply (pt_node_frame m m' root free path Hok pt_leaf_frame). Qed.

Lemma interior_leaf : interior_ok m root → interior_ok m' root.
Proof.
  intros Hi path i p Hp Hl Hi2. rewrite pt_node_leaf by done. intros Hn.
  replace (ld64 m' (p + 8 * i)) with (ld64 m (p + 8 * i)); [by apply (Hi path)|].
  apply ldn_ext. intros b Hb. symmetry. apply (pt_leaf_frame path p); try done. unfold PGSIZE. lia.
Qed.

Lemma pt_ok_leaf : pt_ok m' root free.
Proof. apply (pt_ok_frame m m' root free Hok pt_leaf_frame). Qed.

Lemma pte_at_leaf va' :
  0 ≤ va' < SV39 →
  pte_at m' root va' = if decide (va' / PGSIZE = va / PGSIZE) then v else pte_at m root va'.
Proof.
  intros Hva'. destruct (leaf_inv m root free va a Hok Ha) as (p0 & Hp0 & E & Hok0).
  unfold pte_at, pte_addr. rewrite pt_node_leaf by apply is_path_va. case_decide as Hpg.
  - destruct (va_path_page va' va) as [-> ->]; [lia..|done|]. rewrite Hp0, <- E. done.
  - destruct (pt_node m root (va_path va')) as [p|] eqn:En; [|done].
    destruct (pt_page _ _ _ Hok _ p (is_path_va va') En) as [Hok1 _].
    apply ldn_ext. intros b Hb. apply Hrest. rewrite E.
    destruct (decide (p = p0)) as [->|Hne].
    + assert (va_path va' = va_path va) as Hvp by
        (by apply (pt_inj _ _ _ Hok _ _ p0 (is_path_va va') (is_path_va va))).
      assert (PX 0 va' ≠ PX 0 va) by (intros ?; apply Hpg, va_path_inj; try done; pose proof (MAXVA_SV39 va); lia). lia.
    + pose proof (PX_range 0 va). pose proof (PX_range 0 va').
      destruct (page_ok_disjoint p p0 Hok1 Hok0 Hne); unfold PGSIZE in *; lia.
Qed.

Lemma leaf_in_table b : a ≤ b < a + 8 → in_table m root b.
Proof.
  intros Hb. destruct (leaf_inv m root free va a Hok Ha) as (p0 & Hp0 & E & _). exists (va_path va), p0.
  split; [apply is_path_va|split; [done|]]. pose proof (PX_range 0 va). unfold PGSIZE. lia.
Qed.
End leaf.

(** ** How a table evolves

    Pages are only added to the tree, from the free list; no other memory
    changes. *)
Record evolves (root : Z) (s : kmem) (free : list Z) (s' : kmem) (free' : list Z) : Prop := {
  ev_free : free_pages s' free';
  ev_ok : pt_ok (memory s') root free';
  ev_used : ∃ used, free = used ++ free';
  ev_int : interior_ok (memory s) root → interior_ok (memory s') root;
  ev_all : ∀ p, p ∈ free → p ∈ free' ∨ ∃ path, is_path path ∧ pt_node (memory s') root path = Some p;
  ev_mono : ∀ path p, is_path path →
    pt_node (memory s) root path = Some p → pt_node (memory s') root path = Some p;
  ev_new : ∀ path p, is_path path → pt_node (memory s') root path = Some p →
    pt_node (memory s) root path = Some p ∨ p ∈ free;
  ev_frame : ∀ b, ¬ in_table (memory s') root b → ld8 (memory s') b = ld8 (memory s) b
}.

Lemma evolves_refl root s free :
  free_pages s free → pt_ok (memory s) root free → evolves root s free s free.
Proof. intros. split; try done; [by exists []|..]; auto. Qed.

Lemma in_table_mono root s free s' free' b :
  evolves root s free s' free' → in_table (memory s) root b → in_table (memory s') root b.
Proof.
  intros He (path & p & Hp & Hn & Hb). exists path, p. repeat split; try done; try apply Hp; try lia.
  by apply (ev_mono _ _ _ _ _ He).
Qed.

Lemma evolves_trans root s1 f1 s2 f2 s3 f3 :
  evolves root s1 f1 s2 f2 → evolves root s2 f2 s3 f3 → evolves root s1 f1 s3 f3.
Proof.
  intros H12 H23. destruct (ev_used _ _ _ _ _ H12) as [u1 ->].
  destruct (ev_used _ _ _ _ _ H23) as [u2 ->]. split.
  - apply H23.
  - apply H23.
  - exists (u1 ++ u2). by rewrite app_assoc.
  - intros Hi. by apply H23, H12.
  - intros p Hp. destruct (ev_all _ _ _ _ _ H12 p Hp) as [Hp'|(path & Hpath & Hn)].
    + by apply (ev_all _ _ _ _ _ H23).
    + right. exists path. split; [done|]. by apply (ev_mono _ _ _ _ _ H23).
  - intros path p Hp Hn. by apply (ev_mono _ _ _ _ _ H23), (ev_mono _ _ _ _ _ H12).
  - intros path p Hp Hn. destruct (ev_new _ _ _ _ _ H23 path p Hp Hn) as [Hn'|Hin].
    + by apply (ev_new _ _ _ _ _ H12).
    + right. apply elem_of_app. by right.
  - intros b Hb. rewrite (ev_frame _ _ _ _ _ H23) by done.
    apply (ev_frame _ _ _ _ _ H12). intros Hb'. by apply Hb, (in_table_mono _ _ _ _ _ _ H23).
Qed.

(** A page that is neither free nor in the table stays outside it. *)
Lemma evolves_outside root s free s' free' d b :
  evolves root s free s' free' → page_ok d → d ∉ free → d ≤ b < d + PGSIZE →
  ¬ in_table (memory s) root b → pt_ok (memory s) root free → ¬ in_table (memory s') root b.
Proof.
  intros He Hd Hnf Hb Hnt Hok (path & p & Hp & Hn & Hpb).
  destruct (ev_new _ _ _ _ _ He path p Hp Hn) as [Hn'|Hin].
  - apply Hnt. by exists path, p.
  - destruct (pt_page _ _ _ (ev_ok _ _ _ _ _ He) path p Hp Hn) as [Hpok _].
    assert (d ≠ p) as Hne by (by intros ->).
    destruct (page_ok_disjoint d p Hd Hpok Hne); lia.
Qed.
End pagetable.
