(* ===== verification/VmMap.v ===== *)
(** * Mapping and unmapping (kernel/vm.c): theorems

    [walk], [mappages] and [uvmunmap] against the tree view of PageTable.v. *)

From S2P Require Import Prelude Mem Riscv Kalloc Vm PageTable.

Section vmmap.
Context {KI : KernelImage}.

(** ** walk *)

Lemma walk_noalloc root va s :
  va < MAXVA →
  walk root va false s = Ok (default 0 (pte_addr (memory s) root va), s).
Proof.
  intros. unfold walk. rewrite (proj2 (Z.leb_gt MAXVA va)) by lia.
  unfold pte_addr, va_path. cbn [walk_loop pt_node].
  change (Z.of_nat 2) with 2. change (Z.of_nat 1) with 1.
  unfold bind, load64, gets, child. destruct (has _ _); [|done].
  destruct (has _ _); done.
Qed.

Lemma walk_beyond root va alloc s : MAXVA ≤ va → walk root va alloc s = Panic "walk".
Proof. intros. unfold walk. by rewrite (proj2 (Z.leb_le MAXVA va)) by lia. Qed.

(** The pages that are added to a table lie on the way to the addresses
    [V]. *)
Definition on_route (va : Z) (path : list Z) : Prop := path = [PX 2 va] ∨ path = va_path va.
Definition grows (m m' : mem) (root : Z) (V : Z → Prop) : Prop :=
  ∀ path p, is_path path → pt_node m' root path = Some p →
    pt_node m root path = Some p ∨ ∃ va, V va ∧ on_route va path.

Lemma grows_trans m1 m2 m3 root (V1 V2 V : Z → Prop) :
  (∀ va, V1 va → V va) → (∀ va, V2 va → V va) →
  grows m1 m2 root V1 → grows m2 m3 root V2 → grows m1 m3 root V.
Proof.
  intros H1 H2 G1 G2 path p Hp Hn. destruct (G2 path p Hp Hn) as [Hn2|(va & Hv & Hr)]; [|eauto].
  destruct (G1 path p Hp Hn2) as [?|(va & Hv & Hr)]; eauto.
Qed.

Lemma evolves_fixed_grows root s free s' V :
  evolves root s free s' free → grows (memory s) (memory s') root V.
Proof.
  intros He path p Hp Hn. destruct (ev_new _ _ _ _ _ He path p Hp Hn) as [?|Hin]; [by left|].
  by destruct (pt_page _ _ _ (ev_ok _ _ _ _ _ He) path p Hp Hn) as [_ []].
Qed.

(** One level of the allocating walk: continue at the page below, linking a
    fresh one when there is none. *)
Lemma walk_descend l root va path p s free (Q : Z → kmem → Prop) :
  free_pages s free → pt_ok (memory s) root free →
  is_path (path ++ [PX (Z.of_nat (S l)) va]) → pt_node (memory s) root path = Some p →
  (free = [] → Q 0 s) →
  (∀ q s' free', evolves root s free s' free' →
     (∀ va', pte_at (memory s') root va' = pte_at (memory s) root va') →
     pt_node (memory s') root (path ++ [PX (Z.of_nat (S l)) va]) = Some q →
     (on_route va (path ++ [PX (Z.of_nat (S l)) va]) → grows (memory s) (memory s') root (eq va)) →
     wp (walk_loop l q va true) Q s') →
  wp (walk_loop (S l) p va true) Q s.
Proof.
  intros Hf Hok Hpath Hp Hfail Hk. cbn [walk_loop]. set (i := PX (Z.of_nat (S l)) va) in *.
  apply wp_bind, wp_gets. destruct (has (ld64 (memory s) (p + 8 * i)) PTE_V) eqn:Hv.
  { apply (Hk _ s free); [by apply evolves_refl|done| |by left].
    rewrite pt_node_snoc, Hp. unfold child. by rewrite Hv. }
  cbn [negb]. apply wp_bind. eapply wp_mono; [by apply kalloc_cases|].
  intros q s1 [(-> & -> & ->)|(free' & -> & Hq0 & Hq & Hf1 & Hpg & _)].
  { cbn. by apply Hfail. }
  rewrite (proj2 (Z.eqb_neq q 0)) by done.
  apply wp_bind, wp_modify, wp_bind, wp_modify.
  set (s2 := set_memory _ (set_memory _ s1)).
  apply is_path_snoc in Hpath as Hpath'. destruct Hpath' as (Hpath1 & Hi & Hl).
  destruct (pt_page _ _ _ Hok path p Hpath1 Hp) as [Hpok Hpnin].
  assert (p ≠ q) as Hpq by (intros ->; apply Hpnin; by left).
  pose proof (page_ok_disjoint p q Hpok Hq Hpq) as Hdisj.
  assert (NoDup (q :: free')) as Hnd by apply Hf. apply NoDup_cons in Hnd as [Hqn _].
  assert (Hrest : ∀ b, ¬ (q ≤ b < q + PGSIZE) → ¬ (p + 8 * i ≤ b < p + 8 * i + 8) →
            ld8 (memory s2) b = ld8 (memory s) b).
  { intros b Hb1 Hb2. unfold s2. cbn [memory set_memory]. unfold st64.
    rewrite (ld8_stn_out 8), ld8_fill_out, Hpg by lia. done. }
  assert (Hzero : ∀ b, q ≤ b < q + PGSIZE → ld8 (memory s2) b = 0).
  { intros b Hb. unfold s2. cbn [memory set_memory]. unfold st64.
    rewrite (ld8_stn_out 8) by (unfold PGSIZE in *; lia). by rewrite ld8_fill_in by lia. }
  assert (Hentry : ld64 (memory s2) (p + 8 * i) = Z.lor (PA2PTE q) PTE_V).
  { unfold s2. cbn [memory set_memory]. rewrite ld64_st64_eq. apply u64_small.
    destruct (page_ok_bounds q Hq) as (? & ? & ?).
    pose proof (pte_range q PTE_V ltac:(lia) ltac:(done) ltac:(done)). lia. }
  pose proof (pt_node_grow (memory s) root q free' path i p Hok Hq Hpath Hp Hv _ Hzero Hentry Hrest)
    as Hgrow.
  apply (Hk q s2 free').
  - split.
    + apply (free_pages_frame s1); [|done]. intros x b Hx Hb. cbn [memory set_memory].
      unfold st64. assert (page_ok x) as Hxok by (by apply (free_pages_ok s1 free')).
      assert (x ≠ q) by (by intros ->).
      assert (x ≠ p) by (intros ->; apply Hpnin; by right).
      destruct (page_ok_disjoint x q Hxok Hq); [done|..];
        (destruct (page_ok_disjoint x p Hxok Hpok); [done|..];
         rewrite (ld8_stn_out 8), ld8_fill_out by (unfold PGSIZE in *; lia); done).
    + by apply (pt_ok_grow (memory s) root q free' path i p Hok Hq Hpath Hp Hv).
    + by exists [q].
    + by apply (interior_grow (memory s) root q free' path i p Hok Hq Hpath Hp Hv).
    + intros x [ -> |Hx]%elem_of_cons; [|by left]. right. exists (path ++ [i]). split; [done|].
      rewrite Hgrow by done. by rewrite decide_True.
    + intros path' x Hx Hn. rewrite Hgrow by done. case_decide as E; [|done].
      rewrite E, pt_node_snoc, Hp in Hn. unfold child in Hn. by rewrite Hv in Hn.
    + intros path' x Hx. rewrite Hgrow by done. case_decide; [|by left].
      intros [= <-]. right. by left.
    + intros b Hb. apply Hrest.
      * intros Hbq. apply Hb. exists (path ++ [i]), q. rewrite Hgrow by done.
        by rewrite decide_True by done.
      * intros Hbp. apply Hb. exists path, p. split; [done|]. split.
        -- rewrite Hgrow by done. rewrite decide_False; [done|].
           intros E. apply (f_equal length) in E. rewrite length_app in E. simpl in E. lia.
        -- unfold PGSIZE. lia.
  - intros va'. by apply (pte_at_grow (memory s) root q free' path i p Hok Hq Hpath Hp Hv).
  - rewrite Hgrow by done. by rewrite decide_True by done.
  - intros Hroute path' x Hx. rewrite Hgrow by done. case_decide as E; [|by left].
    intros _. right. exists va. by rewrite E.
Qed.

(** The allocating walk changes no entry; it fails only without memory. *)
Lemma walk_alloc_spec root va s free :
  free_pages s free → pt_ok (memory s) root free → va < MAXVA →
  wp (walk root va true) (fun r s' => ∃ free',
    evolves root s free s' free' ∧
    (∀ va', pte_at (memory s') root va' = pte_at (memory s) root va') ∧
    grows (memory s) (memory s') root (eq va) ∧
    ((r = 0 ∧ free' = []) ∨ (r ≠ 0 ∧ pte_addr (memory s') root va = Some r))) s.
Proof.
  intros Hf Hok Hva. unfold walk. rewrite (proj2 (Z.leb_gt MAXVA va)) by lia.
  pose proof (is_path_va va) as Hpv.
  apply (walk_descend 1 root va [] root s free); [done|done| |done| |].
  { split; [|simpl; lia]. repeat constructor; apply PX_range. }
  { intros ->. exists []. split; [by apply evolves_refl|]. split; [done|]. split; [|by left]. by left. }
  intros q1 s1 f1 He1 Hpte1 Hn1 Hg1. specialize (Hg1 ltac:(by left)).
  apply (walk_descend 0 root va [PX 2 va] q1 s1 f1);
    [apply He1|apply He1|done|done| |].
  { intros ->. exists []. split; [done|]. split; [done|]. split; [done|]. by left. }
  intros q2 s2 f2 He2 Hpte2 Hn2 Hg2. specialize (Hg2 ltac:(by right)). cbn [walk_loop]. apply wp_ret. exists f2.
  split; [by eapply evolves_trans|]. split; [intros; by rewrite Hpte2, Hpte1|].
  split; [by eapply grows_trans|]. right.
  change ([PX 2 va] ++ [PX (Z.of_nat 1) va]) with (va_path va) in Hn2. split.
  - destruct (pt_page _ _ _ (ev_ok _ _ _ _ _ He2) _ q2 Hpv Hn2) as [Hq2 _].
    pose proof (page_ok_bounds q2 Hq2). pose proof (PX_range 0 va). lia.
  - unfold pte_addr. by rewrite Hn2.
Qed.

(** ** Storing a leaf entry *)

Lemma store_leaf_spec root va a v s free :
  free_pages s free → pt_ok (memory s) root free → 0 ≤ va < MAXVA →
  pte_addr (memory s) root va = Some a → 0 ≤ v < 2 ^ 64 →
  wp (store64 a v) (fun _ s' =>
    evolves root s free s' free ∧
    (∀ va', 0 ≤ va' < SV39 → pte_at (memory s') root va' =
       if decide (va' / PGSIZE = va / PGSIZE) then v else pte_at (memory s) root va')) s.
Proof.
  intros Hf Hok Hva Ha Hv. apply wp_modify. cbn [memory set_memory].
  set (m' := st64 (memory s) a v).
  assert (Hrest : ∀ b, ¬ (a ≤ b < a + 8) → ld8 m' b = ld8 (memory s) b).
  { intros b Hb. apply (ld8_stn_out 8). lia. }
  assert (Hentry : ld64 m' a = v) by (unfold m'; rewrite ld64_st64_eq; by apply u64_small).
  pose proof (pt_node_leaf (memory s) root free va a Hok Ha m' Hrest) as Hnode.
  split; [|by apply (pte_at_leaf (memory s) root free va a v Hok Hva Ha m')].
  destruct (leaf_inv (memory s) root free va a Hok Ha) as (p & Hp & -> & Hpok).
  destruct (pt_page _ _ _ Hok _ p (is_path_va va) Hp) as [_ Hpn].
  split; cbn [memory set_memory].
  - apply free_pages_frame; [|done]. intros q b Hq Hb. apply Hrest.
    assert (q ≠ p) as Hqp by (by intros ->). pose proof (PX_range 0 va).
    destruct (page_ok_disjoint q p (free_pages_ok _ _ _ Hf Hq) Hpok Hqp);
      unfold PGSIZE in *; lia.
  - by apply (pt_ok_leaf (memory s) root free va (p + 8 * PX 0 va) Hok Ha).
  - by exists [].
  - by apply (interior_leaf (memory s) root free va (p + 8 * PX 0 va) Hok Ha).
  - intros x Hx. by left.
  - intros path x Hx. by rewrite Hnode.
  - intros path x Hx. rewrite Hnode by done. by left.
  - intros b Hb. apply Hrest. intros Hb'. apply Hb. exists (va_path va), p.
    split; [apply is_path_va|]. rewrite Hnode by apply is_path_va. split; [done|].
    pose proof (PX_range 0 va). unfold PGSIZE. lia.
Qed.

(** ** mappages *)

(** The entry [mappages] installs for the page of [va]. *)
Definition mapped_pte (a pa perm va : Z) : Z :=
  Z.lor (Z.lor (PA2PTE (pa + (va / PGSIZE * PGSIZE - a))) perm) PTE_V.

Lemma mapped_pte_range a pa perm va :
  (pa + (va / PGSIZE * PGSIZE - a)) mod PGSIZE = 0 →
  0 ≤ pa + (va / PGSIZE * PGSIZE - a) < 2 ^ 56 → 0 ≤ perm < 2 ^ 10 →
  0 ≤ mapped_pte a pa perm va < 2 ^ 64.
Proof.
  intros Hal Hr Hp. unfold mapped_pte. rewrite <- Z.lor_assoc.
  pose proof (lor_range 10 perm PTE_V ltac:(lia) Hp ltac:(done)).
  pose proof (pte_range _ (Z.lor perm PTE_V) Hr Hal ltac:(done)). lia.
Qed.

(** Result of mapping the pages of [a, b) to [pa] on. *)
Definition maps_range (m m' : mem) (root a b pa perm : Z) : Prop :=
  ∀ va, 0 ≤ va < SV39 → pte_at m' root va =
    if decide (a ≤ va < b) then mapped_pte a pa perm va else pte_at m root va.

(** One iteration of the loop of [mappages], up to the test of [a == last]. *)
Lemma map_page_spec (K : M kmem Z) root a pa perm s free (Q : Z → kmem → Prop) :
  free_pages s free → pt_ok (memory s) root free →
  a mod PGSIZE = 0 → 0 ≤ a < MAXVA → pa mod PGSIZE = 0 → 0 ≤ pa < 2 ^ 56 → 0 ≤ perm < 2 ^ 10 →
  has (pte_at (memory s) root a) PTE_V = false →
  (∀ s', evolves root s free s' [] →
     (∀ va, pte_at (memory s') root va = pte_at (memory s) root va) →
     grows (memory s) (memory s') root (eq a) → Q (-1) s') →
  (∀ s' free', evolves root s free s' free' → grows (memory s) (memory s') root (eq a) →
     maps_range (memory s) (memory s') root a (a + PGSIZE) pa perm → wp K Q s') →
  wp (do pte <- walk root a true;
      if pte =? 0 then ret (-1)
      else
        do v <- load64 pte;
        if has v PTE_V then panic "mappages: remap"
        else do! store64 pte (Z.lor (Z.lor (PA2PTE pa) perm) PTE_V); K) Q s.
Proof.
  intros Hf Hok Hal Ha Hpal Hpa Hperm Hun Hfail Hk. apply wp_bind.
  eapply wp_mono; [apply (walk_alloc_spec root a s free Hf Hok); lia|].
  intros r s1 (f1 & He1 & Hpte1 & Hg1 & [[-> ->]|[Hr0 Hr]]); [by apply Hfail|].
  rewrite (proj2 (Z.eqb_neq r 0)) by done. apply wp_bind, wp_gets.
  assert (ld64 (memory s1) r = pte_at (memory s) root a) as -> by
    (rewrite <- Hpte1; unfold pte_at; by rewrite Hr).
  rewrite Hun. assert (a / PGSIZE * PGSIZE = a) as Haa by (unfold PGSIZE in *; zdm).
  assert (Z.lor (Z.lor (PA2PTE pa) perm) PTE_V = mapped_pte a pa perm a) as -> by
    (unfold mapped_pte; rewrite Haa; do 3 f_equal; lia).
  apply wp_bind. eapply wp_mono; [apply (store_leaf_spec root a r _ s1 f1)|].
  { apply He1. } { apply He1. } { done. } { done. }
  { apply mapped_pte_range; rewrite ?Haa, ?Z.sub_diag, ?Z.add_0_r; done || lia. }
  intros _ s2 [He2 Hpte2]. apply (Hk s2 f1); [by eapply evolves_trans| |].
  { apply (grows_trans _ (memory s1) _ _ (eq a) (eq a)); try done. by eapply evolves_fixed_grows. }
  intros va Hva. rewrite Hpte2, Hpte1 by done.
  destruct (decide (va / PGSIZE = a / PGSIZE)) as [E|E].
  - rewrite decide_True by (unfold PGSIZE in *; zdm). unfold mapped_pte. by rewrite E.
  - rewrite decide_False by (unfold PGSIZE in *; zdm). done.
Qed.

Lemma maps_range_app m m1 m2 root a b pa perm :
  0 ≤ a → a mod PGSIZE = 0 → b mod PGSIZE = 0 → a + PGSIZE ≤ b →
  maps_range m m1 root a (a + PGSIZE) pa perm →
  maps_range m1 m2 root (a + PGSIZE) b (pa + PGSIZE) perm →
  maps_range m m2 root a b pa perm.
Proof.
  intros Ha Hal Hb Hab H1 H2 va Hva. rewrite H2 by done.
  destruct (decide (a + PGSIZE ≤ va < b)) as [E|E].
  - rewrite decide_True by (unfold PGSIZE in *; lia). unfold mapped_pte. do 3 f_equal. lia.
  - rewrite H1 by done. destruct (decide (a ≤ va < a + PGSIZE)) as [E'|E'].
    + by rewrite decide_True by lia.
    + by rewrite decide_False by lia.
Qed.

Lemma maps_range_nil m root a pa perm : maps_range m m root a a pa perm.
Proof. intros va _. by rewrite decide_False by lia. Qed.

(** Outcome of mapping [a .. last]: all of it, or, when memory runs out, the
    pages below some [b]. *)
Definition mapped_upto (root a last pa perm : Z) (s : kmem) (free : list Z)
    (r : Z) (s' : kmem) : Prop :=
  ∃ free' b, evolves root s free s' free' ∧
    grows (memory s) (memory s') root (fun va => a ≤ va ≤ last) ∧ b mod PGSIZE = 0 ∧
    maps_range (memory s) (memory s') root a b pa perm ∧
    ((r = 0 ∧ b = last + PGSIZE) ∨ (r = -1 ∧ free' = [] ∧ a ≤ b ≤ last)).

Lemma mappages_loop_S f root a last pa perm :
  mappages_loop (S f) root a last pa perm =
    do pte <- walk root a true;
    if pte =? 0 then ret (-1)
    else
      do v <- load64 pte;
      if has v PTE_V then panic "mappages: remap"
      else
        do! store64 pte (Z.lor (Z.lor (PA2PTE pa) perm) PTE_V);
        (if a =? last then ret 0
         else mappages_loop f root (u64 (a + PGSIZE)) last (u64 (pa + PGSIZE)) perm).
Proof. reflexivity. Qed.

Lemma mappages_loop_spec n root a last pa perm s free :
  free_pages s free → pt_ok (memory s) root free →
  a mod PGSIZE = 0 → last = a + Z.of_nat n * PGSIZE → 0 ≤ a → last < MAXVA →
  pa mod PGSIZE = 0 → 0 ≤ pa → pa + (last - a) < 2 ^ 56 → 0 ≤ perm < 2 ^ 10 →
  (∀ va, a ≤ va < last + PGSIZE → has (pte_at (memory s) root va) PTE_V = false) →
  wp (mappages_loop (S n) root a last pa perm) (mapped_upto root a last pa perm s free) s.
Proof.
  assert (HM : MAXVA = 2 ^ 38) by reflexivity.
  assert (HPG : PGSIZE = 4096) by reflexivity.
  revert a pa s free; induction n as [|n IH];
    intros a pa s free Hf Hok Hal Hlast Ha Hmax Hpal Hpa Hpmax Hperm Hun;
    rewrite mappages_loop_S; apply (map_page_spec _ root a pa perm s free); try done;
    try lia; try (apply Hun; lia).
  1,3: intros s' He Hpte Hg; exists [], a; split; [done|];
       split; [apply (grows_trans _ (memory s) _ _ (eq a) (eq a)); [lia|lia|by left|done]|]; split; [done|];
       split; [|right; split; [done|]; split; [done|lia]];
       intros va Hva; rewrite decide_False by lia; apply Hpte.
  - intros s' f' He Hg Hmap. rewrite (proj2 (Z.eqb_eq a last)) by lia. apply wp_ret.
    exists f', (a + PGSIZE). split; [done|].
    split; [apply (grows_trans _ (memory s) _ _ (eq a) (eq a)); [lia|lia|by left|done]|]. split; [rewrite HPG in *; zdm|].
    split; [done|left; lia].
  - intros s' f' He Hg Hmap. rewrite (proj2 (Z.eqb_neq a last)) by lia.
    rewrite !u64_small by (rewrite ?HM, ?HPG in *; lia).
    assert (Hal' : (a + PGSIZE) mod PGSIZE = 0) by (rewrite HPG in *; zdm).
    eapply wp_mono; [apply (IH (a + PGSIZE) (pa + PGSIZE) s' f'); try done; try lia|].
    + apply He.
    + apply He.
    + rewrite HPG in *; zdm.
    + intros va Hva. rewrite Hmap by (unfold SV39; rewrite HM, HPG in *; zdm).
      rewrite decide_False by lia. apply Hun. lia.
    + intros r s2 (f2 & b & He2 & Hg2 & Hb & Hmap2 & Hend). exists f2, b.
      split; [by eapply evolves_trans|].
      split; [eapply (grows_trans _ (memory s') _ _ (eq a)); [| |done|exact Hg2]; cbv beta; lia|]. split; [done|]. split.
      * apply (maps_range_app _ (memory s')); try done.
        destruct Hend as [[_ ->]|(_ & _ & ?)]; lia.
      * destruct Hend as [[-> ->]|(-> & -> & ?)]; [left; lia|]. right. split; [done|]. split; [done|lia].
Qed.

Lemma mappages_wp root va size pa perm s free :
  free_pages s free → pt_ok (memory s) root free →
  0 ≤ va → 0 < size → va + size ≤ MAXVA → pa mod PGSIZE = 0 → 0 ≤ pa →
  pa + size + PGSIZE < 2 ^ 56 → 0 ≤ perm < 2 ^ 10 →
  let a := va / PGSIZE * PGSIZE in
  let last := (va + size - 1) / PGSIZE * PGSIZE in
  (∀ v, a ≤ v < last + PGSIZE → has (pte_at (memory s) root v) PTE_V = false) →
  wp (mappages root va size pa perm) (mapped_upto root a last pa perm s free) s.
Proof.
  intros Hf Hok Hva Hsz Hmax Hpal Hpa Hpmax Hperm a last Hun.
  unfold mappages. rewrite (proj2 (Z.eqb_neq size 0)) by lia.
  pose proof MAXVA_eq as HM. rewrite HM in Hmax.
  rewrite (u64_small (va + size - 1)), !PGROUNDDOWN_eq by lia. fold a last.
  assert (a ≤ last) by (unfold a, last, PGSIZE; zdm).
  rewrite (proj2 (Z.leb_le a last)) by done.
  apply mappages_loop_spec; try done; try (unfold a, last, PGSIZE in *; zdm).
Qed.

(** C17: [mappages] on an unmapped range of virtual addresses below [MAXVA]
    never panics.  On success exactly the pages of the range get new
    entries, which hold the physical pages from [pa] on with the permissions
    [perm] and [PTE_V]; every other entry, and all memory outside the page
    table and the pages taken from the free list, is unchanged.  It returns
    -1 only when the free list is exhausted, having mapped a prefix of the
    range. *)
Theorem mappages_spec root va size pa perm s free :
  free_pages s free → pt_ok (memory s) root free →
  0 ≤ va → 0 < size → va + size ≤ MAXVA → pa mod PGSIZE = 0 → 0 ≤ pa →
  pa + size + PGSIZE < 2 ^ 56 → 0 ≤ perm < 2 ^ 10 →
  let a := va / PGSIZE * PGSIZE in
  let last := (va + size - 1) / PGSIZE * PGSIZE in
  (∀ v, a ≤ v < last + PGSIZE → has (pte_at (memory s) root v) PTE_V = false) →
  ∃ r s', mappages root va size pa perm s = Ok (r, s') ∧
    mapped_upto root a last pa perm s free r s'.
Proof. intros. apply wp_ok. by apply mappages_wp. Qed.

(** ** Empty tables *)

Lemma pt_node_empty m root path :
  (∀ b, root ≤ b < root + PGSIZE → ld8 m b = 0) → is_path path → path ≠ [] →
  pt_node m root path = None.
Proof.
  intros Hz [Hf _] Hne. destruct path as [|i path]; [done|].
  apply Forall_cons in Hf as [Hi _]. cbn [pt_node]. unfold child.
  replace (ld64 m (root + 8 * i)) with 0; [done|].
  rewrite <- (ldn_fill_zero 8 m root PGSIZE (root + 8 * i)) by (unfold PGSIZE; lia).
  apply ldn_ext. intros b Hb. rewrite ld8_fill_in, Hz by (unfold PGSIZE; lia). done.
Qed.

Lemma interior_empty m root : (∀ b, root ≤ b < root + PGSIZE → ld8 m b = 0) → interior_ok m root.
Proof.
  intros Hz path i p Hp Hl Hi. destruct (decide (path = [])) as [->|Hne].
  - intros [= <-]. replace (ld64 m (root + 8 * i)) with 0; [done|].
    rewrite <- (ldn_fill_zero 8 m root PGSIZE (root + 8 * i)) by (unfold PGSIZE; lia).
    apply ldn_ext. intros b Hb. rewrite ld8_fill_in, Hz by (unfold PGSIZE; lia). done.
  - by rewrite pt_node_empty.
Qed.

Lemma pt_ok_empty m root free :
  page_ok root → root ∉ free → (∀ b, root ≤ b < root + PGSIZE → ld8 m b = 0) →
  pt_ok m root free ∧ ∀ va, pte_at m root va = 0.
Proof.
  intros Hr Hn Hz. split; [split|].
  - intros path p Hp. destruct (decide (path = [])) as [->|Hne].
    + intros [= <-]. done.
    + by rewrite pt_node_empty.
  - intros path path' p Hp Hp'.
    destruct (decide (path = [])) as [->|Hne]; destruct (decide (path' = [])) as [->|Hne'];
      rewrite ?(pt_node_empty m root path), ?(pt_node_empty m root path') by done; done.
  - intros va. unfold pte_at, pte_addr. rewrite pt_node_empty; try done. apply is_path_va.
Qed.

(** [uvmcreate] returns 0 only when no page is free; otherwise it returns
    the root of a page table with no entries. *)
Lemma uvmcreate_spec s free :
  free_pages s free →
  ∃ r s', uvmcreate s = Ok (r, s') ∧
    ((r = 0 ∧ free = [] ∧ s' = s) ∨
     (∃ free', free = r :: free' ∧ free_pages s' free' ∧ pt_ok (memory s') r free' ∧
        ∀ va, pte_at (memory s') r va = 0)).
Proof.
  intros Hf. apply wp_ok. unfold uvmcreate. apply wp_bind.
  eapply wp_mono; [by apply kalloc_cases|].
  intros r s1 [(-> & -> & ->)|(free' & -> & Hr0 & Hr & Hf1 & Hpg & _)]; [by left|].
  rewrite (proj2 (Z.eqb_neq r 0)) by done. apply wp_bind, wp_modify, wp_ret. right.
  exists free'. assert (NoDup (r :: free')) as [Hnin _]%NoDup_cons by apply Hf.
  destruct (pt_ok_empty (fill (memory s1) r 0 PGSIZE) r free') as [Hok Hpte]; try done.
  { intros b Hb. by rewrite ld8_fill_in by lia. }
  split; [done|]. split; [|done]. apply free_pages_frame; [|done]. intros q b Hq Hb.
  assert (q ≠ r) as Hqr by (by intros ->).
  destruct (page_ok_disjoint q r (free_pages_ok _ _ _ Hf1 Hq) Hr Hqr);
    rewrite ld8_fill_out by lia; done.
Qed.
End vmmap.

(** ** A state for examples: two free pages and a zeroed page [sample_root]. *)
Definition sample_root : Z := KERNBASE + 0x100000.
Definition sample_free : list Z := [KERNBASE + 0x102000; KERNBASE + 0x101000].
Definition sample_kmem : kmem :=
  mk_kmem (st64 (fun _ => 0) (KERNBASE + 0x102000) (KERNBASE + 0x101000)) (KERNBASE + 0x102000).

Lemma sample_page_ok k :
  0x22000 ≤ k < 0x8000000 → k mod PGSIZE = 0 → @page_ok sample_image (KERNBASE + k).
Proof.
  intros. unfold page_ok, PHYSTOP, KERNBASE, PGSIZE in *. cbn. split; [zdm|]. unfold KERNBASE. lia.
Qed.

Lemma sample_ld64_zero a : ld64 (fun _ => 0) a = 0.
Proof. reflexivity. Qed.

Lemma sample_free_pages : @free_pages sample_image sample_kmem sample_free.
Proof.
  split; [|apply (bool_decide_unpack _); vm_compute; done].
  cbn [free_chain sample_free memory sample_kmem freelist].
  split; [done|]. split; [by apply sample_page_ok|]. rewrite ld64_st64_eq. split; [done|].
  split; [by apply sample_page_ok|].
  rewrite ld64_st64_ne by (unfold KERNBASE; lia). apply sample_ld64_zero.
Qed.

Lemma sample_pt_ok :
  @pt_ok sample_image (memory sample_kmem) sample_root sample_free ∧
  ∀ va, pte_at (memory sample_kmem) sample_root va = 0.
Proof.
  apply pt_ok_empty.
  - by apply sample_page_ok.
  - apply (bool_decide_unpack _). vm_compute. done.
  - intros b Hb. cbn [memory sample_kmem]. unfold st64.
    rewrite (ld8_stn_out 8); [done|]. unfold sample_root, KERNBASE, PGSIZE in *. lia.
Qed.

Lemma mappages_spec_witness :
  ∃ r s', mappages sample_root 0 PGSIZE KERNBASE (Z.lor PTE_R PTE_U) sample_kmem
          = Ok (r, s') ∧
    @mapped_upto sample_image sample_root 0 0 KERNBASE (Z.lor PTE_R PTE_U)
      sample_kmem sample_free r s'.
Proof.
  destruct sample_pt_ok as [Hok Hz].
  apply (@mappages_spec sample_image sample_root 0 PGSIZE KERNBASE (Z.lor PTE_R PTE_U)
           sample_kmem sample_free sample_free_pages Hok);
    [lia|unfold PGSIZE; lia|unfold PGSIZE; rewrite MAXVA_eq; lia|done|unfold KERNBASE; lia
    |unfold PGSIZE, KERNBASE; lia|done|].
  intros v _. by rewrite Hz.
Defined.
