(* ===== verification/VmCopy.v ===== *)
(** * Copying between kernel and user memory (kernel/vm.c): theorems

    [copyout], [copyin] and [copyinstr] move bytes page by page through the
    user page table.  The theorems state them against the user's view of
    memory: the byte [ubyte] at a virtual address. *)

From S2P Require Import Prelude Mem Riscv Kalloc Vm PageTable VmMap.

Section vmcopy.
Context {KI : KernelImage}.

(** ** The user's view *)

(** Can user code access [va]? *)
Definition umapped (m : mem) (root va : Z) : Prop :=
  0 ≤ va < MAXVA ∧ has (pte_at m root va) PTE_V = true ∧ has (pte_at m root va) PTE_U = true.

Definition ubyte (m : mem) (root va : Z) : Z :=
  ld8 m (PTE2PA (pte_at m root va) + va mod PGSIZE).

(** The physical pages of user memory lie outside the page table, and no
    two virtual pages share one. *)
Record user_ok (m : mem) (root : Z) : Prop := {
  user_page : ∀ va, umapped m root va → page_ok (PTE2PA (pte_at m root va));
  user_outside : ∀ va b, umapped m root va →
    PTE2PA (pte_at m root va) ≤ b < PTE2PA (pte_at m root va) + PGSIZE → ¬ in_table m root b;
  user_inj : ∀ va va', umapped m root va → umapped m root va' →
    PTE2PA (pte_at m root va) = PTE2PA (pte_at m root va') → va / PGSIZE = va' / PGSIZE
}.

#[global] Instance umapped_dec m root va : Decision (umapped m root va).
Proof. unfold umapped. apply _. Defined.

Lemma pte_at_page m root va va' :
  0 ≤ va → 0 ≤ va' → va / PGSIZE = va' / PGSIZE → pte_at m root va = pte_at m root va'.
Proof.
  intros H0 H0' E. unfold pte_at, pte_addr.
  by destruct (va_path_page va va' H0 H0' E) as [-> ->].
Qed.

Lemma umapped_page m root va va' :
  va / PGSIZE = va' / PGSIZE → umapped m root va → umapped m root va'.
Proof.
  intros E [Hva H]. rewrite MAXVA_eq in *. unfold PGSIZE in E.
  assert (0 ≤ va' < 2 ^ 38) by zdm.
  split; [by rewrite MAXVA_eq|]. by rewrite <- (pte_at_page m root va va') by (lia || done).
Qed.

(** [walkaddr] is the translation of user pages, and changes nothing. *)
Lemma walkaddr_spec root va s free :
  pt_ok (memory s) root free → 0 ≤ va →
  walkaddr root va s
  = Ok (if decide (umapped (memory s) root va) then PTE2PA (pte_at (memory s) root va) else 0, s).
Proof.
  intros Hok Hva. unfold walkaddr. destruct (MAXVA <=? va) eqn:E; destruct_bool_tests.
  { rewrite decide_False; [done|]. intros [? _]. lia. }
  rewrite (bind_ok _ _ s _ s (walk_noalloc root va s E)).
  destruct (pte_addr (memory s) root va) as [a|] eqn:Ea; cbn [from_option id].
  - destruct (leaf_inv _ _ _ _ _ Hok Ea) as (p & _ & Eap & Hp).
    pose proof (page_ok_bounds p Hp). pose proof (PX_range 0 va).
    assert (Hpt : pte_at (memory s) root va = ld64 (memory s) a) by (unfold pte_at; by rewrite Ea).
    rewrite (proj2 (Z.eqb_neq a 0)) by lia. unfold bind, load64, gets. rewrite <- Hpt.
    case_decide as Hm.
    + destruct Hm as (_ & -> & ->). done.
    + destruct (has _ PTE_V) eqn:EV; [|done]. destruct (has _ PTE_U) eqn:EU; [|done].
      exfalso. apply Hm. by repeat split.
  - rewrite decide_False; [done|]. intros (_ & Hv & _). unfold pte_at in Hv. by rewrite Ea in Hv.
Qed.

(** ** Writing to a user page *)

Section write.
Variables (m : mem) (root : Z) (free : list Z) (va : Z) (l : list Z).
Hypothesis Hok : pt_ok m root free.
Hypothesis Hu : user_ok m root.
Hypothesis Hva : umapped m root va.
Hypothesis Hlen : va mod PGSIZE + Z.of_nat (length l) ≤ PGSIZE.
Let m' := store_bytes m (PTE2PA (pte_at m root va) + va mod PGSIZE) l.

Lemma user_write_frame b :
  (b < PTE2PA (pte_at m root va) ∨ PTE2PA (pte_at m root va) + PGSIZE ≤ b) → ld8 m' b = ld8 m b.
Proof.
  intros Hb. apply ld8_store_bytes_out. unfold PGSIZE in *.
  pose proof (Z.mod_pos_bound va 4096). lia.
Qed.

Lemma user_write_table b : in_table m root b → ld8 m' b = ld8 m b.
Proof.
  intros Hb. apply user_write_frame.
  destruct (decide (PTE2PA (pte_at m root va) ≤ b < PTE2PA (pte_at m root va) + PGSIZE)); [|lia].
  exfalso. by apply (user_outside _ _ Hu va b).
Qed.

Lemma user_write_pte v : pte_at m' root v = pte_at m root v.
Proof. apply (pte_at_frame m m' root free v Hok user_write_table). Qed.

Lemma user_write_umapped v : umapped m' root v ↔ umapped m root v.
Proof. unfold umapped. by rewrite user_write_pte. Qed.

Lemma user_write_node path : is_path path → pt_node m' root path = pt_node m root path.
Proof.
  apply (pt_node_frame m m' root free path Hok). intros path' p b Hp _ Hn Hb.
  apply user_write_table. by exists path', p.
Qed.

Lemma user_write_pt_ok : pt_ok m' root free.
Proof.
  apply (pt_ok_frame m m' root free Hok). intros path p b Hp _ Hn Hb.
  apply user_write_table. by exists path, p.
Qed.

Lemma user_write_in_table b : in_table m' root b ↔ in_table m root b.
Proof.
  split; intros (path & p & Hp & Hn & Hb); exists path, p; (split; [done|]); (split; [|done]).
  - by rewrite user_write_node in Hn.
  - by rewrite user_write_node.
Qed.

Lemma user_write_user_ok : user_ok m' root.
Proof.
  split.
  - intros v. rewrite user_write_umapped, user_write_pte. apply Hu.
  - intros v b. rewrite user_write_umapped, user_write_pte, user_write_in_table. apply Hu.
  - intros v v'. rewrite !user_write_umapped, !user_write_pte. apply Hu.
Qed.

(** The bytes written, seen from user space. *)
Lemma user_write_ubyte v :
  umapped m root v →
  ubyte m' root v =
    if decide (va ≤ v < va + Z.of_nat (length l)) then nth (Z.to_nat (v - va)) l 0 mod 256
    else ubyte m root v.
Proof.
  intros Hv. unfold ubyte. rewrite user_write_pte. case_decide as E.
  - assert (v / PGSIZE = va / PGSIZE) as Hpg by (destruct Hva; unfold PGSIZE in *; zdm).
    rewrite (pte_at_page m root v va) by (destruct Hva, Hv; lia || done). unfold m'.
    assert (v mod PGSIZE = va mod PGSIZE + (v - va)) as -> by (unfold PGSIZE in *; zdm).
    rewrite ld8_store_bytes_in by lia. do 3 f_equal. lia.
  - destruct (decide (v / PGSIZE = va / PGSIZE)) as [Hpg|Hpg].
    + rewrite (pte_at_page m root v va) by (destruct Hva, Hv; lia || done).
      apply ld8_store_bytes_out. unfold PGSIZE in *. zdm.
    + apply user_write_frame.
      pose proof (user_page _ _ Hu v Hv) as Hp1. pose proof (user_page _ _ Hu va Hva) as Hp2.
      assert (PTE2PA (pte_at m root v) ≠ PTE2PA (pte_at m root va)) as Hne.
      { intros Heq. by apply Hpg, (user_inj _ _ Hu). }
      destruct (page_ok_disjoint _ _ Hp1 Hp2 Hne); unfold PGSIZE in *; zdm.
Qed.
End write.

(** ** copyout *)

Lemma in_page_eq va len :
  0 ≤ va < 2 ^ 64 → 0 < len →
  in_page va len = Z.min len (PGSIZE - va mod PGSIZE) ∧ 0 < in_page va len ≤ len.
Proof.
  intros Hva Hlen. unfold in_page. rewrite PGROUNDDOWN_eq by done.
  replace (va - va / PGSIZE * PGSIZE) with (va mod PGSIZE) by (unfold PGSIZE; zdm).
  unfold PGSIZE. pose proof (Z.mod_pos_bound va 4096). case_test; lia.
Qed.

(** What a copy to [dstva] may do to a user address space. *)
Record copied_out (root dstva : Z) (src : list Z) (len : Z) (s : kmem) (free : list Z)
    (r : Z) (s' : kmem) : Prop := {
  co_ret : r = 0 ∨ r = -1;
  co_free : free_pages s' free;
  co_pt : pt_ok (memory s') root free;
  co_user : user_ok (memory s') root;
  co_pte : ∀ v, pte_at (memory s') root v = pte_at (memory s) root v;
  co_other : ∀ v, umapped (memory s) root v → ¬ (dstva ≤ v < dstva + len) →
    ubyte (memory s') root v = ubyte (memory s) root v;
  co_kernel : ∀ b, (∀ v, umapped (memory s) root v → dstva ≤ v < dstva + len →
      b ≠ PTE2PA (pte_at (memory s) root v) + v mod PGSIZE) →
    ld8 (memory s') b = ld8 (memory s) b;
  co_done : r = 0 → ∀ v, dstva ≤ v < dstva + len →
    umapped (memory s) root v ∧
    ubyte (memory s') root v = nth (Z.to_nat (v - dstva)) src 0 mod 256;
  co_total : (∀ v, dstva ≤ v < dstva + len → umapped (memory s) root v) → r = 0
}.

Definition user_space (s : kmem) (root : Z) (free : list Z) : Prop :=
  free_pages s free ∧ pt_ok (memory s) root free ∧ user_ok (memory s) root ∧
  (∀ va, umapped (memory s) root va → PTE2PA (pte_at (memory s) root va) ∉ free).

Lemma user_space_frame s root free va l :
  user_space s root free → umapped (memory s) root va →
  va mod PGSIZE + Z.of_nat (length l) ≤ PGSIZE →
  let m' := store_bytes (memory s) (PTE2PA (pte_at (memory s) root va) + va mod PGSIZE) l in
  user_space (set_memory m' s) root free.
Proof.
  intros (Hf & Hok & Hu & Hnf) Hva Hl m'. unfold m'. split; [|split; [|split]].
  - apply free_pages_frame; [|done]. intros q b Hq Hb. apply user_write_frame; [done|].
    assert (q ≠ PTE2PA (pte_at (memory s) root va)) as Hne by (intros ->; by apply (Hnf va)).
    destruct (page_ok_disjoint _ _ (free_pages_ok _ _ _ Hf Hq) (user_page _ _ Hu va Hva) Hne); lia.
  - by apply user_write_pt_ok.
  - by apply (user_write_user_ok _ _ free).
  - intros v. cbn [memory set_memory].
    rewrite (user_write_umapped _ _ free), (user_write_pte _ _ free) by done. apply Hnf.
Qed.

(** A copy is the copy of its first [n] bytes followed by the rest. *)
Lemma copied_out_cons root dstva src len n s s1 free r s' :
  user_space s root free → 0 ≤ dstva → 0 < n ≤ len → (Z.to_nat len ≤ length src)%nat →
  umapped (memory s) root dstva → dstva mod PGSIZE + n ≤ PGSIZE →
  s1 = set_memory (store_bytes (memory s) (PTE2PA (pte_at (memory s) root dstva) + dstva mod PGSIZE)
                     (take (Z.to_nat n) src)) s →
  copied_out root (dstva + n) (drop (Z.to_nat n) src) (len - n) s1 free r s' →
  copied_out root dstva src len s free r s'.
Proof.
  intros (Hf & Hok & Hu & Hnf) Hd Hn Hsrc Hm Hfit E Hc.
  set (l := take (Z.to_nat n) src) in *.
  assert (Hlt : Z.of_nat (length l) = n) by (unfold l; rewrite length_take; lia).
  assert (Hpte : ∀ v, pte_at (memory s1) root v = pte_at (memory s) root v).
  { intros v. subst s1. by apply (user_write_pte (memory s) root free dstva l Hok Hu Hm ltac:(lia)). }
  assert (Hum : ∀ v, umapped (memory s1) root v ↔ umapped (memory s) root v)
    by (intros v; unfold umapped; by rewrite Hpte).
  assert (Hub : ∀ v, umapped (memory s) root v → ubyte (memory s1) root v =
    if decide (dstva ≤ v < dstva + n) then nth (Z.to_nat (v - dstva)) src 0 mod 256
    else ubyte (memory s) root v).
  { intros v Hv. subst s1. cbn [memory set_memory].
    rewrite (user_write_ubyte (memory s) root free dstva l Hok Hu Hm ltac:(lia) v Hv), Hlt.
    case_decide; [|done]. unfold l. rewrite nth_firstn.
    by rewrite (proj2 (Nat.ltb_lt _ _)) by lia. }
  split; try apply Hc.
  - intros v. by rewrite (co_pte _ _ _ _ _ _ _ _ Hc).
  - intros v Hv Hout. rewrite (co_other _ _ _ _ _ _ _ _ Hc) by (rewrite ?Hum; done || lia).
    rewrite Hub by done. by rewrite decide_False by lia.
  - intros b Hb. rewrite (co_kernel _ _ _ _ _ _ _ _ Hc).
    + subst s1. cbn [memory set_memory]. apply ld8_store_bytes_out.
      destruct (decide (PTE2PA (pte_at (memory s) root dstva) + dstva mod PGSIZE ≤ b <
        PTE2PA (pte_at (memory s) root dstva) + dstva mod PGSIZE + n)) as [Hin|]; [|lia].
      exfalso. set (v := dstva + (b - (PTE2PA (pte_at (memory s) root dstva) + dstva mod PGSIZE))).
      assert (v / PGSIZE = dstva / PGSIZE) as Hpg by (unfold v, PGSIZE in *; zdm).
      apply (Hb v).
      * by apply (umapped_page _ _ dstva).
      * unfold v. lia.
      * rewrite (pte_at_page _ _ v dstva) by (done || lia). unfold v, PGSIZE in *. zdm.
    + intros v Hv Hr. rewrite Hpte. apply Hb; [by apply Hum|lia].
  - intros -> v Hv. destruct (decide (dstva ≤ v < dstva + n)) as [Hin|Hin].
    + assert (Hmv : umapped (memory s) root v).
      { apply (umapped_page _ _ dstva); [unfold PGSIZE in *; zdm|done]. }
      split; [done|]. rewrite (co_other _ _ _ _ _ _ _ _ Hc) by (rewrite ?Hum; done || lia).
      rewrite Hub by done. by rewrite decide_True by lia.
    + destruct (co_done _ _ _ _ _ _ _ _ Hc eq_refl v ltac:(lia)) as [Hmv ->].
      split; [by apply Hum|]. rewrite nth_skipn. do 2 f_equal. lia.
  - intros Hall. apply (co_total _ _ _ _ _ _ _ _ Hc). intros v Hv. apply Hum, Hall. lia.
Qed.

Lemma copied_out_empty root dstva src s free :
  user_space s root free → copied_out root dstva src 0 s free 0 s.
Proof. intros (? & ? & ? & ?). split; auto; intros; lia. Qed.

Lemma copyout_loop_spec fuel root dstva src len s free :
  user_space s root free → 0 ≤ dstva < 2 ^ 64 → 0 ≤ len → (Z.to_nat len ≤ fuel)%nat →
  (Z.to_nat len ≤ length src)%nat →
  wp (copyout_loop fuel root dstva src len) (copied_out root dstva src len s free) s.
Proof.
  revert dstva src len s; induction fuel as [|f IH];
    intros dstva src len s Hsp Hd Hlen Hfuel Hsrc; cbn [copyout_loop];
    (destruct (0 <? len) eqn:El; destruct_bool_tests; [|
      assert (len = 0) as -> by lia; by apply wp_ret, copied_out_empty]); [lia|].
  pose proof Hsp as (Hf & Hok & Hu & Hnf).
  pose proof MAXVA_eq as HM. assert (HPG : PGSIZE = 4096) by done.
  destruct (in_page_eq dstva len Hd El) as [Hn Hn']. set (n := in_page dstva len) in *.
  rewrite PGROUNDDOWN_eq by done. set (va0 := dstva / PGSIZE * PGSIZE).
  assert (Hva0 : va0 / PGSIZE = dstva / PGSIZE) by (unfold va0; rewrite HPG; zdm).
  assert (Hva0' : 0 ≤ va0 ≤ dstva) by (unfold va0; rewrite HPG; zdm).
  apply wp_bind. unfold wp at 1. rewrite (walkaddr_spec root va0 s free Hok) by lia.
  destruct (decide (umapped (memory s) root va0)) as [Hm0|Hm0].
  2: { cbn. split; auto; try (intros; lia).
       intros Hall. exfalso. apply Hm0, (umapped_page _ _ dstva); [done|]. apply Hall. lia. }
  assert (Hm : umapped (memory s) root dstva) by (by apply (umapped_page _ _ va0)).
  pose proof (page_ok_bounds _ (user_page _ _ Hu va0 Hm0)).
  rewrite (proj2 (Z.eqb_neq _ 0)) by lia.
  rewrite (pte_at_page _ _ va0 dstva) by (lia || done).
  replace (dstva - va0) with (dstva mod PGSIZE) by (unfold va0; rewrite HPG; zdm).
  apply wp_bind, wp_modify. rewrite u64_small by (destruct Hm0; rewrite HM, HPG in *; lia).
  set (s1 := set_memory _ s).
  assert (Hsp' : user_space s1 root free).
  { apply user_space_frame; [done..|]. rewrite length_take. lia. }
  destruct (decide (len = n)) as [<-|Hne].
  - rewrite Z.sub_diag. unfold wp. replace (copyout_loop f _ _ _ _ s1) with (Ok (0, s1)).
    2: { destruct f; done. }
    apply (copied_out_cons root dstva src len len s s1); try done; try lia.
    rewrite Z.sub_diag. by apply copied_out_empty.
  - replace (va0 + PGSIZE) with (dstva + n) by (unfold va0; rewrite HPG in *; zdm).
    eapply wp_mono; [apply (IH (dstva + n) (drop (Z.to_nat n) src) (len - n) s1); try done; try lia|].
    + destruct Hm0. unfold va0 in *. rewrite HM, HPG in *. zdm.
    + rewrite length_drop. lia.
    + intros r s' Hc. by apply (copied_out_cons root dstva src len n s s1); try lia.
Qed.

(** C18: [copyout] never panics.  Whatever address and length it is given, it
    changes only user-accessible bytes of the address range
    [dstva, dstva+len): no page-table entry, no free page, no kernel memory,
    no other user byte.  It returns 0 exactly when all pages of the range
    are user-accessible, and then the range holds the source bytes. *)
Theorem copyout_spec root dstva src len s free :
  user_space s root free → 0 ≤ dstva < 2 ^ 64 → 0 ≤ len ≤ Z.of_nat (length src) →
  ∃ r s', copyout root dstva src len s = Ok (r, s') ∧
    copied_out root dstva src len s free r s'.
Proof. intros. apply wp_ok. apply copyout_loop_spec; done || lia. Qed.

(** ** copyin *)

Definition ubytes (m : mem) (root va len : Z) : list Z :=
  map (fun i => ubyte m root (va + Z.of_nat i)) (seq 0 (Z.to_nat len)).

Lemma ubytes_page m root va n :
  0 ≤ va → 0 ≤ n → va mod PGSIZE + n ≤ PGSIZE →
  load_bytes m (PTE2PA (pte_at m root va) + va mod PGSIZE) n = ubytes m root va n.
Proof.
  intros Hva Hn Hfit. unfold load_bytes, ubytes. apply map_ext_in. intros i Hi%in_seq.
  unfold ubyte. rewrite (pte_at_page m root (va + Z.of_nat i) va) by
    (try lia; unfold PGSIZE in *; zdm).
  f_equal. unfold PGSIZE in *. zdm.
Qed.

Lemma ubytes_app m root va n k :
  0 ≤ n → 0 ≤ k → ubytes m root va (n + k) = ubytes m root va n ++ ubytes m root (va + n) k.
Proof.
  intros. unfold ubytes. rewrite Z2Nat.inj_add, seq_app, map_app by lia. f_equal.
  rewrite Nat.add_0_l. rewrite <- (Nat.add_0_r (Z.to_nat n)) at 1.
  rewrite <- fmap_add_seq, map_map. apply map_ext. intros i. f_equal. lia.
Qed.

Lemma ubytes_ext m m' root va len :
  (∀ v, va ≤ v < va + len → ubyte m' root v = ubyte m root v) →
  ubytes m' root va len = ubytes m root va len.
Proof.
  intros H. unfold ubytes. apply map_ext_in. intros i Hi%in_seq. apply H. lia.
Qed.

(** One page of a copy in: the translation of [va], or failure. *)
Lemma walkaddr_user root va s free :
  pt_ok (memory s) root free → user_ok (memory s) root → 0 ≤ va < 2 ^ 64 →
  let va0 := PGROUNDDOWN va in
  (¬ umapped (memory s) root va ∧ walkaddr root va0 s = Ok (0, s)) ∨
  (umapped (memory s) root va ∧ PTE2PA (pte_at (memory s) root va) ≠ 0 ∧
   walkaddr root va0 s = Ok (PTE2PA (pte_at (memory s) root va), s) ∧
   va - va0 = va mod PGSIZE ∧ u64 (va0 + PGSIZE) = va + (PGSIZE - va mod PGSIZE)).
Proof.
  intros Hok Hu Hva va0. unfold va0. rewrite PGROUNDDOWN_eq by done.
  assert (HPG : PGSIZE = 4096) by done. pose proof MAXVA_eq as HM.
  set (v0 := va / PGSIZE * PGSIZE).
  assert (Hv0 : v0 / PGSIZE = va / PGSIZE) by (unfold v0; rewrite HPG; zdm).
  assert (Hv0' : 0 ≤ v0 ≤ va) by (unfold v0; rewrite HPG; zdm).
  rewrite (walkaddr_spec root v0 s free Hok) by lia.
  destruct (decide (umapped (memory s) root v0)) as [Hm0|Hm0].
  - right. assert (Hm : umapped (memory s) root va) by (by apply (umapped_page _ _ v0)).
    rewrite (pte_at_page _ _ v0 va) by (lia || done).
    pose proof (page_ok_bounds _ (user_page _ _ Hu va Hm)).
    repeat split; try apply Hm; try lia; unfold v0; [rewrite HPG; zdm|].
    destruct Hm as [? _]. rewrite u64_small by (rewrite HM, HPG in *; zdm). rewrite HPG. zdm.
  - left. split; [|done]. intros Hm. by apply Hm0, (umapped_page _ _ va).
Qed.

Definition copied_in (m : mem) (root srcva len : Z) (r : Z) (bytes : list Z) : Prop :=
  (r = 0 ∧ bytes = ubytes m root srcva len ∧
     ∀ v, srcva ≤ v < srcva + len → umapped m root v) ∨
  (r = -1 ∧ ∃ v, srcva ≤ v < srcva + len ∧ ¬ umapped m root v).

Lemma copyin_loop_spec fuel root srcva len s free :
  pt_ok (memory s) root free → user_ok (memory s) root →
  0 ≤ srcva < 2 ^ 64 → 0 ≤ len → (Z.to_nat len ≤ fuel)%nat →
  ∃ r bytes, copyin_loop fuel root srcva len s = Ok ((r, bytes), s) ∧
    copied_in (memory s) root srcva len r bytes.
Proof.
  intros Hok Hu. revert srcva len; induction fuel as [|f IH]; intros srcva len Hva Hlen Hfuel;
    cbn [copyin_loop]; (destruct (0 <? len) eqn:El; destruct_bool_tests;
      [|exists 0, []; split; [done|]; left; assert (len = 0) as -> by lia;
        repeat split; lia]); [lia|].
  assert (HPG : PGSIZE = 4096) by done.
  destruct (in_page_eq srcva len Hva El) as [Hn Hn']. set (n := in_page srcva len) in *.
  destruct (walkaddr_user root srcva s free Hok Hu Hva) as [[Hm Hw]|(Hm & Hnz & Hw & Hoff & Hnext)].
  { rewrite (bind_ok _ _ s _ s Hw). exists (-1), []. split; [done|]. right. split; [done|].
    exists srcva. split; [lia|done]. }
  rewrite (bind_ok _ _ s _ s Hw), (proj2 (Z.eqb_neq _ 0) Hnz), Hoff, Hnext.
  unfold bind at 1, gets. rewrite ubytes_page by lia.
  assert (Hpg : ∀ v, srcva ≤ v < srcva + n → umapped (memory s) root v).
  { intros v Hv. apply (umapped_page _ _ srcva); [rewrite HPG in *; zdm|done]. }
  assert (∃ r bytes, copyin_loop f root (srcva + (PGSIZE - srcva mod PGSIZE)) (len - n) s
    = Ok ((r, bytes), s) ∧ copied_in (memory s) root (srcva + n) (len - n) r bytes)
    as (r & bytes & Hrec & Hc).
  { destruct (decide (len = n)) as [<-|Hne].
    - rewrite Z.sub_diag. exists 0, []. split; [by destruct f|]. left. repeat split; lia.
    - replace (PGSIZE - srcva mod PGSIZE) with n by lia. apply IH; [|lia|lia].
      destruct Hm as [? _]. pose proof MAXVA_eq as HM. rewrite HM, HPG in *. zdm. }
  rewrite (bind_ok _ _ s _ s Hrec). exists r, (ubytes (memory s) root srcva n ++ bytes).
  split; [done|]. destruct Hc as [(-> & -> & Hall)|(-> & v & Hv & Hnm)].
  - left. split; [done|]. split.
    + rewrite <- ubytes_app by lia. f_equal. lia.
    + intros v Hv. destruct (decide (v < srcva + n)); [apply Hpg; lia|apply Hall; lia].
  - right. split; [done|]. exists v. split; [lia|done].
Qed.

(** a [copyout] that reports success can be read back: [copyin] of the
    same range then succeeds and returns the bytes that were written. *)
Theorem copyout_copyin root va src s free s' :
  user_space s root free → 0 ≤ va < 2 ^ 64 → Forall (fun x => 0 ≤ x < 256) src →
  copyout root va src (Z.of_nat (length src)) s = Ok (0, s') →
  copyin root va (Z.of_nat (length src)) s' = Ok ((0, src), s').
Proof.
  intros Hsp Hva Hbytes Hco.
  pose proof (copyout_loop_spec (Z.to_nat (Z.of_nat (length src))) root va src
                (Z.of_nat (length src)) s free
                Hsp Hva ltac:(lia) ltac:(lia) ltac:(lia)) as Hc.
  unfold copyout in Hco. unfold wp in Hc. rewrite Hco in Hc.
  destruct (copyin_loop_spec (Z.to_nat (Z.of_nat (length src))) root va
              (Z.of_nat (length src)) s' free (co_pt _ _ _ _ _ _ _ _ Hc) (co_user _ _ _ _ _ _ _ _ Hc)
              Hva ltac:(lia) ltac:(lia)) as (r & bytes & Hin & Hcin).
  unfold copyin. rewrite Hin. pose proof (co_done _ _ _ _ _ _ _ _ Hc eq_refl) as Hdone.
  destruct Hcin as [(-> & -> & _)|(_ & v & Hv & Hnm)].
  - do 3 f_equal. apply nth_ext with (d := 0) (d' := 0); unfold ubytes.
    { rewrite length_map, length_seq. lia. }
    intros i Hi. rewrite length_map, length_seq in Hi.
    rewrite nth_indep with (d' := ubyte (memory s') root (va + Z.of_nat 0))
      by (rewrite length_map, length_seq; lia).
    rewrite (map_nth (fun i => ubyte (memory s') root (va + Z.of_nat i))), seq_nth by lia.
    destruct (Hdone (va + Z.of_nat (0 + i))) as [_ ->]; [lia|].
    replace (Z.to_nat _) with i by lia. apply Z.mod_small.
    rewrite Forall_forall in Hbytes. apply Hbytes, list_elem_of_In, nth_In. lia.
  - exfalso. apply Hnm. destruct (Hdone v Hv) as [Hm _]. unfold umapped in *.
    by rewrite (co_pte _ _ _ _ _ _ _ _ Hc).
Qed.

(** ** copyinstr *)

(** The user string at [va]: [k] non-NUL bytes and a NUL, all mapped. *)
Definition ustring (m : mem) (root va k : Z) : Prop :=
  0 ≤ k ∧ (∀ v, va ≤ v ≤ va + k → umapped m root v) ∧
  (∀ v, va ≤ v < va + k → ubyte m root v ≠ 0) ∧ ubyte m root (va + k) = 0.

Lemma copyinstr_page_spec n m p :
  let '(g, l) := copyinstr_page n m p in
  if g then ∃ k, (k < n)%nat ∧ l = load_bytes m p (Z.of_nat k) ++ [0] ∧
                 (∀ i, (i < k)%nat → ld8 m (p + Z.of_nat i) ≠ 0) ∧ ld8 m (p + Z.of_nat k) = 0
  else l = load_bytes m p (Z.of_nat n) ∧ ∀ i, (i < n)%nat → ld8 m (p + Z.of_nat i) ≠ 0.
Proof.
  revert p; induction n as [|n IH]; intros p; cbn [copyinstr_page]; [split; [done|lia]|].
  assert (Hcons : ∀ k, load_bytes m p (Z.of_nat (S k)) = ld8 m p :: load_bytes m (p + 1) (Z.of_nat k)).
  { intros k. rewrite <- (Z.add_0_r p) at 2. replace (Z.of_nat (S k)) with (1 + Z.of_nat k) by lia.
    by rewrite load_bytes_app by lia. }
  destruct (ld8 m p =? 0) eqn:E; destruct_bool_tests.
  { exists 0%nat. rewrite Z.add_0_r. repeat split; [lia|lia|done]. }
  specialize (IH (p + 1)). destruct (copyinstr_page n m (p + 1)) as [g l].
  assert (Hi : ∀ i, p + Z.of_nat (S i) = p + 1 + Z.of_nat i) by lia. destruct g.
  - destruct IH as (k & Hk & -> & Hnz & Hz). exists (S k). rewrite Hcons, Hi.
    repeat split; [lia| |done]. intros [|i] ?; [by rewrite Z.add_0_r|rewrite Hi; apply Hnz; lia].
  - destruct IH as [-> Hnz]. rewrite Hcons. split; [done|].
    intros [|i] ?; [by rewrite Z.add_0_r|rewrite Hi; apply Hnz; lia].
Qed.

(** One page of the string, in terms of user bytes. *)
Lemma copyinstr_page_user m root va n :
  0 ≤ va → 0 ≤ n → va mod PGSIZE + n ≤ PGSIZE →
  let '(g, l) :=
    copyinstr_page (Z.to_nat n) m (PTE2PA (pte_at m root va) + va mod PGSIZE) in
  if g then ∃ k, 0 ≤ k < n ∧ l = ubytes m root va k ++ [0] ∧
                 (∀ v, va ≤ v < va + k → ubyte m root v ≠ 0) ∧ ubyte m root (va + k) = 0
  else l = ubytes m root va n ∧ ∀ v, va ≤ v < va + n → ubyte m root v ≠ 0.
Proof.
  intros Hva Hn Hfit.
  assert (Hub : ∀ v, va ≤ v < va + n →
    ubyte m root v = ld8 m (PTE2PA (pte_at m root va) + va mod PGSIZE + (v - va))).
  { intros v Hv. unfold ubyte. rewrite (pte_at_page m root v va) by (try lia; unfold PGSIZE in *; zdm).
    f_equal. unfold PGSIZE in *. zdm. }
  pose proof (copyinstr_page_spec (Z.to_nat n) m (PTE2PA (pte_at m root va) + va mod PGSIZE)) as H.
  destruct (copyinstr_page _ _ _) as [[] l].
  - destruct H as (k & Hk & -> & Hnz & Hz). exists (Z.of_nat k). split; [lia|]. split.
    + by rewrite ubytes_page by lia.
    + split; [|rewrite Hub by lia; by replace (va + Z.of_nat k - va) with (Z.of_nat k) by lia].
      intros v Hv. rewrite Hub by lia.
      replace (v - va) with (Z.of_nat (Z.to_nat (v - va))) by lia. apply Hnz. lia.
  - destruct H as [-> Hnz]. rewrite Z2Nat.id, ubytes_page by lia. split; [done|].
    intros v Hv. rewrite Hub by lia.
    replace (v - va) with (Z.of_nat (Z.to_nat (v - va))) by lia. apply Hnz. lia.
Qed.

Definition copied_string (m : mem) (root va max r : Z) (bytes : list Z) : Prop :=
  (r = 0 ∧ ∃ k, k < max ∧ ustring m root va k ∧ bytes = ubytes m root va k ++ [0]) ∨
  (r = -1 ∧ ∀ k, k < max → ¬ ustring m root va k).

(** A string that does not end in the first [n] bytes is those bytes and a
    string after them. *)
Lemma copied_string_cons m root va max n r bytes :
  0 ≤ n ≤ max → (∀ v, va ≤ v < va + n → umapped m root v ∧ ubyte m root v ≠ 0) →
  copied_string m root (va + n) (max - n) r bytes →
  copied_string m root va max r (ubytes m root va n ++ bytes).
Proof.
  intros Hn Hpre [(-> & k & Hk & (Hk0 & Hm & Hnz & Hz) & ->)|[-> Hno]].
  - left. split; [done|]. exists (n + k). split; [lia|]. split.
    + split; [lia|]. split; [|split; [|by rewrite Z.add_assoc]].
      * intros v Hv. destruct (decide (v < va + n)); [apply Hpre; lia|apply Hm; lia].
      * intros v Hv. destruct (decide (v < va + n)); [apply Hpre; lia|apply Hnz; lia].
    + by rewrite ubytes_app, app_assoc by lia.
  - right. split; [done|]. intros k Hk (Hk0 & Hm & Hnz & Hz).
    destruct (decide (k < n)).
    + destruct (Hpre (va + k) ltac:(lia)). done.
    + apply (Hno (k - n)); [lia|]. split; [lia|]. split; [|split].
      * intros v Hv. apply Hm. lia.
      * intros v Hv. apply Hnz. lia.
      * by replace (va + n + (k - n)) with (va + k) by lia.
Qed.

Lemma copyinstr_loop_spec fuel root va max s free :
  pt_ok (memory s) root free → user_ok (memory s) root →
  0 ≤ va < 2 ^ 64 → 0 ≤ max → (Z.to_nat max ≤ fuel)%nat →
  ∃ r bytes, copyinstr_loop fuel root va max s = Ok ((r, bytes), s) ∧
    copied_string (memory s) root va max r bytes.
Proof.
  intros Hok Hu. revert va max; induction fuel as [|f IH]; intros va max Hva Hmax Hfuel;
    cbn [copyinstr_loop]; (destruct (0 <? max) eqn:El; destruct_bool_tests;
      [|exists (-1), []; split; [done|]; right; split; [done|]; intros k Hk (? & _); lia]); [lia|].
  assert (HPG : PGSIZE = 4096) by done.
  destruct (in_page_eq va max Hva El) as [Hn Hn']. set (n := in_page va max) in *.
  destruct (walkaddr_user root va s free Hok Hu Hva) as [[Hm Hw]|(Hm & Hnz & Hw & Hoff & Hnext)].
  { rewrite (bind_ok _ _ s _ s Hw). exists (-1), []. split; [done|]. right. split; [done|].
    intros k _ (? & Hk & _). apply Hm, Hk. lia. }
  rewrite (bind_ok _ _ s _ s Hw), (proj2 (Z.eqb_neq _ 0) Hnz), Hoff, Hnext.
  unfold bind at 1, get.
  assert (Hpg : ∀ v, va ≤ v < va + n → umapped (memory s) root v).
  { intros v Hv. apply (umapped_page _ _ va); [rewrite HPG in *; zdm|done]. }
  pose proof (copyinstr_page_user (memory s) root va n ltac:(lia) ltac:(lia) ltac:(lia)) as Hp.
  destruct (copyinstr_page _ _ _) as [[] l].
  { destruct Hp as (k & Hk & -> & Hnn & Hz). eexists _, _. split; [done|]. left. split; [done|].
    exists k. split; [lia|]. split; [|done]. split; [lia|]. split; [|by split].
    intros v Hv. apply Hpg. lia. }
  destruct Hp as [-> Hnn].
  assert (∃ r bytes, copyinstr_loop f root (va + (PGSIZE - va mod PGSIZE)) (max - n) s
    = Ok ((r, bytes), s) ∧ copied_string (memory s) root (va + n) (max - n) r bytes)
    as (r & bytes & Hrec & Hc).
  { destruct (decide (max = n)) as [<-|Hne].
    - rewrite Z.sub_diag. exists (-1), []. split; [by destruct f|]. right. split; [done|].
      intros k Hk (? & _). lia.
    - replace (PGSIZE - va mod PGSIZE) with n by lia. apply IH; [|lia|lia].
      destruct Hm as [? _]. pose proof MAXVA_eq as HM. rewrite HM, HPG in *. zdm. }
  rewrite (bind_ok _ _ s _ s Hrec). eexists _, _. split; [done|].
  apply copied_string_cons; [lia| |done]. intros v Hv. split; [by apply Hpg|by apply Hnn].
Qed.

(** C19: [copyinstr] returns 0 exactly when a NUL-terminated string of fewer
    than [max] characters, all of it user-accessible, starts at [va], and
    then it has copied that string with its NUL; it changes no memory and
    never reads outside user-accessible pages. *)
Theorem copyinstr_spec root va max s free :
  user_space s root free → 0 ≤ va < 2 ^ 64 → 0 ≤ max →
  ∃ r bytes, copyinstr root va max s = Ok ((r, bytes), s) ∧
    copied_string (memory s) root va max r bytes.
Proof.
  intros (_ & Hok & Hu & _) Hva Hmax. by apply (copyinstr_loop_spec _ root va max s free).
Qed.
End vmcopy.

(** ** An address space with one user page, for examples: virtual page 0 is
    mapped to [sample_data] through three table pages. *)
Definition sample_l1 : Z := KERNBASE + 0x101000.
Definition sample_l0 : Z := KERNBASE + 0x102000.
Definition sample_data : Z := KERNBASE + 0x103000.
Definition sample_leaf : Z := Z.lor (Z.lor (PA2PTE sample_data) (Z.lor PTE_R (Z.lor PTE_W PTE_U))) PTE_V.
Definition sample_user : kmem :=
  mk_kmem (st64 (st64 (st64 (fun _ => 0) sample_root (Z.lor (PA2PTE sample_l1) PTE_V))
                      sample_l1 (Z.lor (PA2PTE sample_l0) PTE_V))
                sample_l0 sample_leaf) 0.

Lemma sample_user_ld64 a :
  a mod 8 = 0 →
  ld64 (memory sample_user) a =
    if a =? sample_l0 then sample_leaf
    else if a =? sample_l1 then Z.lor (PA2PTE sample_l0) PTE_V
    else if a =? sample_root then Z.lor (PA2PTE sample_l1) PTE_V else 0.
Proof.
  intros Ha. cbn [memory sample_user]. unfold sample_l0, sample_l1, sample_root, KERNBASE.
  repeat case_test; subst.
  - rewrite ld64_st64_eq. reflexivity.
  - rewrite ld64_st64_ne, ld64_st64_eq by lia. reflexivity.
  - rewrite !ld64_st64_ne, ld64_st64_eq by lia. reflexivity.
  - rewrite !ld64_st64_ne by zdm. apply sample_ld64_zero.
Qed.

Lemma sample_user_node path :
  is_path path →
  pt_node (memory sample_user) sample_root path =
    if decide (path = []) then Some sample_root
    else if decide (path = [0]) then Some sample_l1
    else if decide (path = [0; 0]) then Some sample_l0 else None.
Proof.
  intros [Hf Hl].
  assert (Hc : ∀ p i, p mod 8 = 0 → 0 ≤ i < 512 → child (memory sample_user) i p =
    let a := p + 8 * i in
    if a =? sample_l0 then Some sample_data else if a =? sample_l1 then Some sample_l0
    else if a =? sample_root then Some sample_l1 else None).
  { intros p i Hp Hi. unfold child. rewrite sample_user_ld64 by zdm. cbv zeta.
    destruct (_ =? sample_l0); [reflexivity|]. destruct (_ =? sample_l1); [reflexivity|].
    by destruct (_ =? sample_root). }
  destruct path as [|i [|j [|k path]]]; [done| | |simpl in Hl; lia].
  - apply Forall_cons in Hf as [Hi _]. cbn [pt_node]. rewrite Hc by done. cbv zeta.
    destruct (decide (i = 0)) as [->|Hi0]; [reflexivity|]. rewrite !decide_False by congruence.
    unfold sample_l0, sample_l1, sample_root, KERNBASE. repeat case_test; lia || done.
  - apply Forall_cons in Hf as [Hi Hf]. apply Forall_cons in Hf as [Hj _].
    cbn [pt_node]. rewrite Hc by done. cbv zeta. rewrite !(decide_False (P := [i; j] = _)) by done.
    destruct (decide (i = 0)) as [->|Hi0].
    + change (_ =? sample_l0) with false. change (_ =? sample_l1) with false.
      change (_ =? sample_root) with true. cbv iota. cbn [pt_node]. rewrite Hc by done. cbv zeta.
      destruct (decide (j = 0)) as [->|Hj0]; [reflexivity|]. rewrite decide_False by congruence.
      unfold sample_l0, sample_l1, sample_root, KERNBASE. repeat case_test; lia || done.
    + rewrite decide_False by congruence.
      unfold sample_l0, sample_l1, sample_root, KERNBASE. repeat case_test; lia || done.
Qed.

Lemma sample_user_pte va :
  0 ≤ va < MAXVA →
  pte_at (memory sample_user) sample_root va = if va <? PGSIZE then sample_leaf else 0.
Proof.
  intros Hva. unfold pte_at, pte_addr. rewrite sample_user_node by apply is_path_va.
  unfold va_path. pose proof (PX_range 0 va). pose proof (PX_inj va 0 (conj (proj1 Hva) (MAXVA_SV39 va (proj2 Hva)))) as Hinj.
  assert (va < PGSIZE → PX 2 va = 0 ∧ PX 1 va = 0 ∧ PX 0 va = 0) as H0.
  { intros Hlt. rewrite !PX_eq by lia. unfold PGSIZE in Hlt.
    change (2 ^ (12 + 9 * 2)) with (4096 * 512 * 512). change (2 ^ (12 + 9 * 1)) with (4096 * 512).
    change (2 ^ (12 + 9 * 0)) with 4096. zdm. }
  repeat case_decide; try done.
  - simplify_eq. rewrite sample_user_ld64 by (unfold sample_l0, KERNBASE; zdm).
    assert (PX 0 va = 0 → va < PGSIZE) as Hpg.
    { intros E0. assert (va / PGSIZE = 0 / PGSIZE) by (apply Hinj; [unfold SV39; lia|done..]).
      unfold PGSIZE in *. zdm. }
    unfold sample_l0, sample_l1, sample_root, KERNBASE.
    repeat case_test; try done; try lia.
  - case_test; [|done]. destruct H0 as (E2 & E1 & _); [done|]. exfalso. congruence.
Qed.

Lemma sample_umapped va :
  umapped (memory sample_user) sample_root va ↔ 0 ≤ va < PGSIZE.
Proof.
  unfold umapped. split.
  - intros (Hva & Hv & _). rewrite sample_user_pte in Hv by done. case_test_in Hv; [lia|done].
  - intros Hva. assert (0 ≤ va < MAXVA) by (rewrite MAXVA_eq; unfold PGSIZE in *; lia).
    rewrite sample_user_pte by done. by rewrite (proj2 (Z.ltb_lt va PGSIZE)) by lia.
Qed.

Lemma sample_user_space : @user_space sample_image sample_user sample_root [].
Proof.
  pose proof sample_umapped as Hum.
  assert (Hpa : ∀ va, umapped (memory sample_user) sample_root va →
    PTE2PA (pte_at (memory sample_user) sample_root va) = sample_data).
  { intros va Hva. rewrite sample_user_pte by apply Hva. apply Hum in Hva.
    by rewrite (proj2 (Z.ltb_lt va PGSIZE)) by lia. }
  split; [split; [done|apply NoDup_nil_2]|]. split; [split|split; [split|]].
  - intros path p Hp. rewrite sample_user_node by done.
    repeat case_decide; intros [= <-]; (split; [by apply sample_page_ok|apply not_elem_of_nil]).
  - intros path path' p Hp Hp'. rewrite !sample_user_node by done.
    intros E1 E2. rewrite <- E1 in E2. revert E1 E2.
    repeat case_decide; subst; intros ? E2; try done; vm_compute in E2; discriminate.
  - intros va Hva. rewrite Hpa by done. by apply sample_page_ok.
  - intros va b Hva. rewrite Hpa by done. intros Hb (path & p & Hp & Hn & Hpb).
    rewrite sample_user_node in Hn by done.
    unfold sample_data, sample_root, sample_l1, sample_l0, KERNBASE, PGSIZE in *.
    repeat case_decide; simplify_eq; lia.
  - intros va va' Hva Hva' _. apply Hum in Hva, Hva'. unfold PGSIZE in *. zdm.
  - intros va _. apply not_elem_of_nil.
Qed.

Lemma copyout_spec_witness :
  ∃ r s', copyout sample_root 4090 [1; 2; 3] 3 sample_user = Ok (r, s') ∧
    @copied_out sample_image sample_root 4090 [1; 2; 3] 3 sample_user [] r s'.
Proof.
  apply (@copyout_spec sample_image sample_root 4090 [1; 2; 3] 3 sample_user [] sample_user_space);
    simpl; lia.
Defined.

Lemma copyout_copyin_witness :
  ∃ s', copyin sample_root 4090 3 s' = Ok ((0, [1; 2; 3]), s').
Proof.
  destruct (proj1 (wp_ok _ _ _) (@copyout_loop_spec sample_image 3 sample_root 4090 [1; 2; 3] 3
              sample_user [] sample_user_space ltac:(lia) ltac:(lia) ltac:(simpl; lia)
              ltac:(simpl; lia))) as (r & s' & Hco & Hc).
  assert (r = 0) as ->.
  { apply (co_total _ _ _ _ _ _ _ _ Hc). intros v Hv. apply sample_umapped. unfold PGSIZE. lia. }
  exists s'.
  apply (@copyout_copyin sample_image sample_root 4090 [1; 2; 3] sample_user [] s'
           sample_user_space); [lia|repeat constructor; lia|exact Hco].
Defined.

Lemma copyinstr_spec_witness :
  ∃ r bytes, copyinstr sample_root 4000 10 sample_user = Ok ((r, bytes), sample_user) ∧
    copied_string (memory sample_user) sample_root 4000 10 r bytes.
Proof.
  apply (@copyinstr_spec sample_image sample_root 4000 10 sample_user [] sample_user_space); lia.
Defined.
