(* ===== verification/VmSpace.v ===== *)
(** * The memory of a process (kernel/vm.c): allocation, copy and release

    A user address space is a page table together with the physical pages
    that its entries own.  [vspace s root D free] says that the pages with
    the numbers [D] are mapped to pages of their own: allocatable, not free,
    not part of the table, no two of them the same.  The theorems show that
    uvmalloc, uvmdealloc, uvmcopy and uvmfree take every page they use from
    the free list and give every page back, also when they fail, and that the
    copy that fork makes has the contents of the original and shares no page
    with it. *)

From S2P Require Import Prelude Mem Riscv Kalloc Vm PageTable VmMap VmCopy.

Section vmspace.
Context {KI : KernelImage}.

Definition table_page (m : mem) (root p : Z) : Prop := ∃ path, is_path path ∧ pt_node m root path = Some p.

(** The entry and the physical page of virtual page [i]. *)
Definition upte (s : kmem) (root i : Z) : Z := pte_at (memory s) root (i * PGSIZE).
Definition upage (s : kmem) (root i : Z) : Z := PTE2PA (upte s root i).

Definition leaf_pte (v : Z) : Prop := has v PTE_V = true ∧ PTE_FLAGS v ≠ PTE_V.

Record vspace (s : kmem) (root : Z) (D : Z → Prop) (free : list Z) : Prop := {
  vs_free : free_pages s free;
  vs_pt : pt_ok (memory s) root free;
  vs_int : interior_ok (memory s) root;
  vs_dom i : D i → 0 ≤ i ∧ i * PGSIZE < MAXVA;
  vs_leaf i : D i → leaf_pte (upte s root i);
  vs_page i : D i → page_ok (upage s root i) ∧ (upage s root i ∉ free) ∧ ¬ table_page (memory s) root (upage s root i);
  vs_inj i j : D i → D j → upage s root i = upage s root j → i = j }.

(** The bytes of a page are the same. *)
Definition same_page (p : Z) (s s' : kmem) : Prop :=
  ∀ b, p ≤ b < p + PGSIZE → ld8 (memory s') b = ld8 (memory s) b.

Lemma vspace_ext s root D D' free : (∀ i, D i ↔ D' i) → vspace s root D free → vspace s root D' free.
Proof.
  intros E [H1 H2 H3 H4 H5 H6 H7]. split; try done.
  - intros i Hi. by apply H4, E.
  - intros i Hi. by apply H5, E.
  - intros i Hi. by apply H6, E.
  - intros i j Hi Hj. apply H7; by apply E.
Qed.

Lemma vspace_sub s root (D D' : Z → Prop) free : (∀ i, D' i → D i) → vspace s root D free → vspace s root D' free.
Proof. intros E [H1 H2 H3 H4 H5 H6 H7]. split; try done; auto. Qed.

Lemma table_page_ok m root free p : pt_ok m root free → table_page m root p → page_ok p ∧ p ∉ free.
Proof. intros Hok (path & Hp & Hn). by apply (pt_page _ _ _ Hok path). Qed.

Lemma only_same_page p q s s' : page_ok p → page_ok q → p ≠ q → only_page p s s' → same_page q s s'.
Proof. intros Hp Hq Hne H b Hb. apply H. destruct (page_ok_disjoint p q Hp Hq Hne); lia. Qed.

(** ** A table whose pages have not changed *)

Section frame.
Context (s s' : kmem) (root : Z) (free : list Z).
Context (Hok : pt_ok (memory s) root free).
Context (Hsame : ∀ p, table_page (memory s) root p → same_page p s s').

Lemma frame_node path : is_path path → pt_node (memory s') root path = pt_node (memory s) root path.
Proof.
  apply (pt_node_frame _ _ root free path Hok). intros path' p b Hp _ Hn Hb. apply (Hsame p); [by exists path'|done].
Qed.
Lemma frame_pt_ok free' : (∀ p, p ∈ free' → p ∈ free ∨ ¬ table_page (memory s) root p) → pt_ok (memory s') root free'.
Proof.
  intros Hf. split.
  - intros path p Hp Hn. rewrite frame_node in Hn by done.
    destruct (pt_page _ _ _ Hok path p Hp Hn) as [? Hnin]. split; [done|].
    intros [?|Hnt]%Hf; [done|]. apply Hnt. by exists path.
  - intros path path' p Hp Hp'. rewrite !frame_node by done. by apply Hok.
Qed.
Lemma frame_interior : interior_ok (memory s) root → interior_ok (memory s') root.
Proof.
  intros Hi path i p Hp Hl Hr. rewrite frame_node by done. intros Hn.
  replace (ld64 (memory s') (p + 8 * i)) with (ld64 (memory s) (p + 8 * i)); [by apply (Hi path)|].
  apply ldn_ext. intros b Hb. symmetry. apply (Hsame p); [by exists path|unfold PGSIZE; lia].
Qed.
Lemma frame_pte va : pte_at (memory s') root va = pte_at (memory s) root va.
Proof.
  apply (pte_at_frame _ _ root free va Hok). intros b (path & p & Hp & Hn & Hb). apply (Hsame p); [by exists path|done].
Qed.
Lemma frame_table p : table_page (memory s') root p ↔ table_page (memory s) root p.
Proof. split; intros (path & Hp & Hn); exists path; (split; [done|]); [by rewrite <- frame_node|by rewrite frame_node]. Qed.
End frame.

(** A space none of whose pages, tables or data, has changed, with another
    free list that has none of its pages. *)
Lemma vspace_frame s s' root D free free' :
  vspace s root D free → free_pages s' free' →
  (∀ p, table_page (memory s) root p → same_page p s s' ∧ p ∉ free') →
  (∀ i, D i → upage s root i ∉ free') → vspace s' root D free'.
Proof.
  intros [H1 H2 H3 H4 H5 H6 H7] Hf Ht Hu.
  assert (Hsame : ∀ p, table_page (memory s) root p → same_page p s s') by (intros; by apply Ht).
  assert (Epte : ∀ i, upte s' root i = upte s root i) by (intros; by eapply frame_pte).
  assert (Epage : ∀ i, upage s' root i = upage s root i) by (intros; unfold upage; by rewrite Epte).
  split; try done.
  - eapply frame_pt_ok; [exact H2|done|]. intros p Hp. right. intros Hp'. by apply (Ht p Hp').
  - by eapply frame_interior.
  - intros i Hi. rewrite Epte. auto.
  - intros i Hi. rewrite Epage. destruct (H6 i Hi) as (? & _ & Hnt). split; [done|]. split; [auto|].
    intros Ht'. apply Hnt. by apply (frame_table s s' root free) in Ht'.
  - intros i j Hi Hj. rewrite !Epage. auto.
Qed.

(** ** Unmapping *)

(** The entries of the virtual pages [a] to [b] are gone, all else is as
    before; the pages they had are not looked at. *)
Record unmaps (s : kmem) (root a b : Z) (s' : kmem) : Prop := {
  um_pte va : 0 ≤ va < SV39 → pte_at (memory s') root va =
    if decide (a ≤ va / PGSIZE < b) then 0 else pte_at (memory s) root va;
  um_table p : table_page (memory s') root p ↔ table_page (memory s) root p;
  um_same q : page_ok q → ¬ table_page (memory s) root q → (∀ i, a ≤ i < b → q ≠ upage s root i) → same_page q s s' }.

Lemma upte_range i : 0 ≤ i → i * PGSIZE < MAXVA → 0 ≤ i * PGSIZE < MAXVA ∧ i * PGSIZE / PGSIZE = i.
Proof. unfold PGSIZE. intros. split; [lia|]. by rewrite Z.div_mul. Qed.

Lemma upte_sv39 i : 0 ≤ i → i * PGSIZE < SV39 → 0 ≤ i * PGSIZE < SV39 ∧ i * PGSIZE / PGSIZE = i.
Proof. unfold PGSIZE. intros. split; [lia|]. by rewrite Z.div_mul. Qed.

Lemma evolves_table root s free s' p :
  evolves root s free s' free → table_page (memory s') root p ↔ table_page (memory s) root p.
Proof.
  intros He. split; intros (path & Hp & Hn); exists path; (split; [done|]).
  - destruct (ev_new _ _ _ _ _ He path p Hp Hn) as [?|Hin]; [done|].
    by destruct (pt_page _ _ _ (ev_ok _ _ _ _ _ He) path p Hp Hn) as [_ []].
  - by apply (ev_mono _ _ _ _ _ He).
Qed.

(** When no page is added, only pages of the table change. *)
Lemma evolves_table_only root s free s' q :
  evolves root s free s' free → page_ok q → ¬ table_page (memory s) root q → same_page q s s'.
Proof.
  intros He Hq Hqt b Hb. apply (ev_frame _ _ _ _ _ He). intros (path & p & Hp & Hn & Hpb).
  destruct (pt_page _ _ _ (ev_ok _ _ _ _ _ He) path p Hp Hn) as [Hpok _].
  apply Hqt, (evolves_table _ _ _ _ _ He). exists path. split; [done|].
  destruct (decide (p = q)) as [->|Hpq]; [done|]. destruct (page_ok_disjoint p q Hpok Hq Hpq); lia.
Qed.

Lemma evolves_same root s free s' free' q :
  evolves root s free s' free' → pt_ok (memory s) root free → page_ok q → q ∉ free →
  ¬ table_page (memory s) root q → same_page q s s'.
Proof.
  intros He Hok Hq Hf Hnt b Hb. apply (ev_frame _ _ _ _ _ He).
  apply (evolves_outside _ _ _ _ _ q b He); try done.
  intros (path & p & Hp & Hn & Hpb). destruct (pt_page _ _ _ Hok path p Hp Hn) as [Hpok _].
  apply Hnt. exists path. split; [done|]. destruct (decide (p = q)) as [->|Hne]; [done|].
  destruct (page_ok_disjoint p q Hpok Hq Hne); lia.
Qed.

Lemma unmap_page (K : M kmem unit) s root D free i (Q : unit → kmem → Prop) :
  vspace s root D free → D i →
  (∀ s', vspace s' root (fun j => D j ∧ j ≠ i) (upage s root i :: free) → unmaps s root i (i + 1) s' → wp K Q s') →
  wp (do pte <- walk root (i * PGSIZE) false;
      if pte =? 0 then panic "uvmunmap: walk"
      else
        do v <- load64 pte;
        if negb (has v PTE_V) then panic "uvmunmap: not mapped"
        else if PTE_FLAGS v =? PTE_V then panic "uvmunmap: not a leaf"
        else
          do! kfree (PTE2PA v);
          do! store64 pte 0;
          K) Q s.
Proof.
  intros H Hi HK. destruct (vs_dom _ _ _ _ H i Hi) as [Hi0 Hi1].
  destruct (upte_range i Hi0 Hi1) as [Hva Hdiv].
  destruct (vs_leaf _ _ _ _ H i Hi) as [Hv Hfl]. destruct (vs_page _ _ _ _ H i Hi) as (Hpg & Hnf & Hnt).
  unfold upte in Hv, Hfl. destruct (pte_addr (memory s) root (i * PGSIZE)) as [a|] eqn:Ea.
  2: { unfold pte_at in Hv. by rewrite Ea in Hv. }
  assert (Epte : ld64 (memory s) a = upte s root i) by (unfold upte, pte_at; by rewrite Ea).
  destruct (leaf_inv _ _ _ _ _ (vs_pt _ _ _ _ H) Ea) as (p0 & Hp0 & Eap & Hp0ok).
  apply wp_bind. eapply wp_run; [apply walk_noalloc; lia|]. rewrite Ea. cbn [default from_option id].
  pose proof (page_ok_bounds p0 Hp0ok). pose proof (PX_range 0 (i * PGSIZE)).
  rewrite (proj2 (Z.eqb_neq a 0)) by lia. apply wp_bind, wp_gets. rewrite Epte. unfold upte at 1 2. rewrite Hv. cbn [negb].
  rewrite (proj2 (Z.eqb_neq _ _) Hfl). fold (upage s root i).
  apply wp_bind. eapply wp_mono; [apply (kfree_spec s free (upage s root i)); [done|done|apply H]|]. cbv beta. intros _ s1 [Hf1 Ho1].
  assert (Hsame1 : ∀ p, table_page (memory s) root p → same_page p s s1).
  { intros p Hp. apply (only_same_page (upage s root i)); try done; [by eapply table_page_ok, Hp; apply H|].
    by intros <-. }
  assert (Hok1 : pt_ok (memory s1) root (upage s root i :: free)).
  { eapply frame_pt_ok; [apply (vs_pt _ _ _ _ H)|exact Hsame1|]. intros p [ -> |Hp]%elem_of_cons; [by right|by left]. }
  assert (Ea1 : pte_addr (memory s1) root (i * PGSIZE) = Some a).
  { rewrite <- Ea. apply (pte_at_frame _ _ root free _ (vs_pt _ _ _ _ H)).
    intros b (path & p & Hp & Hn & Hb). apply (Hsame1 p); [by exists path|done]. }
  apply wp_bind. eapply wp_mono; [by apply (store_leaf_spec root (i * PGSIZE) a 0 s1 (upage s root i :: free))|].
  cbv beta. intros _ s2 [He Hp2].
  assert (Hpte : ∀ va, 0 ≤ va < SV39 → pte_at (memory s2) root va =
    if decide (i ≤ va / PGSIZE < i + 1) then 0 else pte_at (memory s) root va).
  { intros va Hva'. rewrite Hp2 by done. rewrite Hdiv.
    rewrite (frame_pte s s1 root free (vs_pt _ _ _ _ H) Hsame1). do 2 case_decide; done || lia. }
  assert (Htab : ∀ p, table_page (memory s2) root p ↔ table_page (memory s) root p).
  { intros p. rewrite (evolves_table _ _ _ _ p He). by eapply frame_table; [apply (vs_pt _ _ _ _ H)|]. }
  apply HK.
  - assert (Eup : ∀ j, D j ∧ j ≠ i → upte s2 root j = upte s root j).
    { intros j [Hj Hne]. destruct (vs_dom _ _ _ _ H j Hj) as [Hj0 Hj1]. destruct (upte_sv39 j Hj0 (MAXVA_SV39 _ Hj1)) as [? Hd].
      unfold upte. rewrite Hpte by done. rewrite Hd. by rewrite decide_False by lia. }
    split.
    + apply He.
    + apply He.
    + apply He. eapply frame_interior; [apply (vs_pt _ _ _ _ H)|exact Hsame1|apply H].
    + intros j [Hj _]. by apply (vs_dom _ _ _ _ H).
    + intros j Hj. rewrite Eup by done. apply (vs_leaf _ _ _ _ H), Hj.
    + intros j Hj. unfold upage at 1 2 4. rewrite Eup by done. destruct Hj as [Hj Hne].
      destruct (vs_page _ _ _ _ H j Hj) as (? & ? & Hntj). split; [done|]. split; [|by rewrite Htab].
      intros [E|?]%elem_of_cons; [|done]. by apply Hne, (vs_inj _ _ _ _ H).
    + intros j k Hj Hk. unfold upage. rewrite !Eup by done. apply (vs_inj _ _ _ _ H); [apply Hj|apply Hk].
  - split; [done|done|]. intros q Hq Hqt Hne b Hb. specialize (Hne i ltac:(lia)).
    rewrite (evolves_table_only _ _ _ _ q He Hq); [by apply (only_same_page (upage s root i) q s s1)| |done].
    intros Ht. by apply Hqt, (frame_table s s1 root free (vs_pt _ _ _ _ H) Hsame1).
Qed.

Lemma unmaps_upte s root a b s' i :
  unmaps s root a b s' → 0 ≤ i → i * PGSIZE < SV39 → ¬ (a ≤ i < b) → upte s' root i = upte s root i.
Proof.
  intros H H0 H1 Hn. destruct (upte_sv39 i H0 H1) as [Hr Hd]. unfold upte.
  rewrite (um_pte _ _ _ _ _ H) by done. rewrite Hd. by rewrite decide_False.
Qed.

Lemma unmaps_trans s root a b c s1 s2 :
  a ≤ b ≤ c → (∀ i, b ≤ i < c → 0 ≤ i ∧ i * PGSIZE < MAXVA) →
  unmaps s root a b s1 → unmaps s1 root b c s2 → unmaps s root a c s2.
Proof.
  intros Habc Hr H1 H2. split.
  - intros va Hva. rewrite (um_pte _ _ _ _ _ H2), (um_pte _ _ _ _ _ H1) by done. repeat case_decide; done || lia.
  - intros p. by rewrite (um_table _ _ _ _ _ H2), (um_table _ _ _ _ _ H1).
  - intros q Hq Hnt Hne x Hx. rewrite (um_same _ _ _ _ _ H2 q); [apply (um_same _ _ _ _ _ H1 q); try done| | | |done].
    + intros i Hi. apply Hne. lia.
    + done.
    + by rewrite (um_table _ _ _ _ _ H1).
    + intros i Hi. destruct (Hr i Hi). unfold upage. rewrite (unmaps_upte s root a b) by (done || lia || by apply MAXVA_SV39). apply Hne. lia.
Qed.

Lemma unmaps_nil s root a : unmaps s root a a s.
Proof. split; [|done|done]. intros va _. by rewrite decide_False by lia. Qed.

(** The pages that are freed, last one first. *)
Definition pages_of (s : kmem) (root a : Z) (k : nat) : list Z := map (upage s root) (seqZ a (Z.of_nat k)).

Lemma uvmunmap_loop_spec k : ∀ s root D free a,
  vspace s root D free → 0 ≤ a → (∀ i, a ≤ i < a + Z.of_nat k → D i) →
  wp (uvmunmap_loop k root (a * PGSIZE) ((a + Z.of_nat k) * PGSIZE) true) (fun _ s' =>
    vspace s' root (fun j => D j ∧ ¬ (a ≤ j < a + Z.of_nat k)) (rev (pages_of s root a k) ++ free) ∧
    unmaps s root a (a + Z.of_nat k) s') s.
Proof.
  induction k as [|k IH]; intros s root D free a H Ha HD.
  - cbn [uvmunmap_loop]. change (Z.of_nat 0) with 0. rewrite Z.add_0_r, (proj2 (Z.ltb_ge _ _)) by lia. apply wp_ret.
    split; [|apply unmaps_nil]. eapply vspace_ext, H. intros j. split; [|by intros [? _]]. intros ?. split; [done|lia].
  - cbn [uvmunmap_loop]. rewrite (proj2 (Z.ltb_lt _ _)) by (unfold PGSIZE; lia).
    destruct (vs_dom _ _ _ _ H a (HD a ltac:(lia))) as [_ Ha1].
    apply (unmap_page _ s root D free a _ H (HD a ltac:(lia))). intros s1 H1 U1.
    replace (u64 (a * PGSIZE + PGSIZE)) with ((a + 1) * PGSIZE).
    2: { rewrite u64_small; rewrite MAXVA_eq in *; unfold PGSIZE in *; lia. }
    replace (a + Z.of_nat (S k)) with (a + 1 + Z.of_nat k) in * by lia.
    eapply wp_mono; [apply (IH s1 root _ _ (a + 1) H1); [lia|]|].
    { intros i Hi. split; [apply HD; lia|lia]. }
    cbv beta. intros _ s2 [H2 U2].
    assert (Hr : ∀ i, a + 1 ≤ i < a + 1 + Z.of_nat k → 0 ≤ i ∧ i * PGSIZE < MAXVA).
    { intros i Hi. apply (vs_dom _ _ _ _ H), HD. lia. }
    split; [|by eapply (unmaps_trans s root a (a + 1)); [lia| | |]].
    replace (rev (pages_of s root a (S k)) ++ free) with
      (rev (pages_of s1 root (a + 1) k) ++ upage s root a :: free).
    { eapply vspace_ext, H2. intros j. split; intros Hj; [destruct Hj as [[? ?] ?]|destruct Hj as [? ?]];
        repeat split; done || lia. }
    unfold pages_of. rewrite (seqZ_cons a) by lia. cbn [map rev]. rewrite <- app_assoc. cbn [app].
    replace (Z.pred (Z.of_nat (S k))) with (Z.of_nat k) by lia. replace (Z.succ a) with (a + 1) by lia.
    do 2 f_equal. apply map_ext_in. intros i Hi%list_elem_of_In%elem_of_seqZ. unfold upage.
    destruct (Hr i ltac:(lia)). by rewrite (unmaps_upte s root a (a + 1)) by (done || lia || by apply MAXVA_SV39).
Qed.

(** uvmunmap of the pages [a] to [a + k]. *)
Lemma uvmunmap_spec s root D free a k :
  vspace s root D free → 0 ≤ a → 0 ≤ k → (∀ i, a ≤ i < a + k → D i) → (a + k) * PGSIZE ≤ MAXVA →
  wp (uvmunmap root (a * PGSIZE) k true) (fun _ s' =>
    vspace s' root (fun j => D j ∧ ¬ (a ≤ j < a + k)) (rev (pages_of s root a (Z.to_nat k)) ++ free) ∧
    unmaps s root a (a + k) s') s.
Proof.
  intros H Ha Hk HD Hmax. unfold uvmunmap. rewrite Z.mod_mul by done. cbn [Z.eqb negb].
  rewrite u64_small by (rewrite MAXVA_eq in *; unfold PGSIZE in *; lia).
  replace (a * PGSIZE + k * PGSIZE) with ((a + Z.of_nat (Z.to_nat k)) * PGSIZE) by (rewrite Z2Nat.id by lia; ring).
  eapply wp_mono; [apply (uvmunmap_loop_spec (Z.to_nat k) s root D free a H Ha)|].
  - intros i Hi. apply HD. lia.
  - cbv beta. intros _ s' H'. by replace (a + Z.of_nat (Z.to_nat k)) with (a + k) in H' by lia.
Qed.

(** ** Mapping a page *)

Definition user_entry (pa perm : Z) : Z := Z.lor (Z.lor (PA2PTE pa) perm) PTE_V.

(** A physical page, of RAM or of the kernel's image. *)
Definition phys_page (pa : Z) : Prop := 0 < pa ∧ pa < 2 ^ 56 ∧ pa mod PGSIZE = 0.

Lemma mappages_one s root free i pa perm :
  free_pages s free → pt_ok (memory s) root free → 0 ≤ i → i * PGSIZE < MAXVA →
  phys_page pa → 0 ≤ perm < 2 ^ 10 → has (upte s root i) PTE_V = false →
  wp (mappages root (i * PGSIZE) PGSIZE pa perm) (fun r s' => ∃ free',
    evolves root s free s' free' ∧
    (r = 0 ∧ (∀ j, 0 ≤ j → j * PGSIZE < SV39 →
                upte s' root j = if decide (j = i) then user_entry pa perm else upte s root j) ∨
     r = -1 ∧ free' = [] ∧ ∀ j, 0 ≤ j → j * PGSIZE < SV39 → upte s' root j = upte s root j)) s.
Proof.
  intros Hf Hok Hi Him Hpa Hperm Hun. destruct Hpa as (? & ? & ?).
  destruct (upte_range i Hi Him) as [Hva Hdiv]. rewrite MAXVA_eq in Hva.
  unfold mappages. rewrite (proj2 (Z.eqb_neq PGSIZE 0)) by done.
  rewrite (u64_small (i * PGSIZE + PGSIZE - 1)), !PGROUNDDOWN_eq by (unfold PGSIZE in *; lia). rewrite Hdiv.
  replace ((i * PGSIZE + PGSIZE - 1) / PGSIZE) with i by (unfold PGSIZE; zdm).
  rewrite Z.leb_refl, Z.sub_diag. change (Z.to_nat (0 / PGSIZE)) with O.
  assert (Hpages : ∀ va, i * PGSIZE ≤ va < i * PGSIZE + PGSIZE → pte_at (memory s) root va = upte s root i).
  { intros va Hr. unfold upte. apply pte_at_page; [lia|lia|]. unfold PGSIZE in *. zdm. }
  eapply wp_mono; [apply (mappages_loop_spec 0 root (i * PGSIZE) (i * PGSIZE) pa perm s free); try done; try lia|].
  { by rewrite Z.mod_mul. }
  { intros va Hr. by rewrite Hpages. }
  cbv beta. intros r s' (free' & b & He & _ & Hb & Hm & Hend). exists free'. split; [done|].
  destruct Hend as [[-> ->]|(-> & -> & Hb')]; [left|right]; (split; [done|]); [|split; [done|]]; intros j Hj Hjm;
    destruct (upte_sv39 j Hj Hjm) as [Hr Hd]; unfold upte; rewrite Hm by done.
  - assert (Ej : i * PGSIZE ≤ j * PGSIZE < i * PGSIZE + PGSIZE ↔ j = i) by (unfold PGSIZE; lia).
    destruct (decide (j = i)) as [->|Hne].
    + rewrite decide_True by (by apply Ej). unfold mapped_pte, user_entry. do 3 f_equal. rewrite Hd. lia.
    + rewrite decide_False by (by rewrite Ej). done.
  - rewrite decide_False by lia. done.
Qed.

Lemma user_entry_facts pa perm :
  phys_page pa → 0 ≤ perm < 2 ^ 10 → Z.lor perm PTE_V ≠ PTE_V →
  leaf_pte (user_entry pa perm) ∧ PTE2PA (user_entry pa perm) = pa ∧ PTE_FLAGS (user_entry pa perm) = Z.lor perm PTE_V.
Proof.
  intros Hpa Hperm Hne. destruct Hpa as (? & ? & ?).
  pose proof (lor_range 10 perm PTE_V ltac:(lia) Hperm ltac:(done)) as Hr.
  unfold user_entry, leaf_pte. rewrite <- Z.lor_assoc. rewrite PTE2PA_pte, PTE_FLAGS_pte by (done || lia).
  split; [|done]. split; [|done]. unfold has. rewrite land_PTE_V, Z.lor_assoc, lor_PTE_V_odd; [done|].
  apply Z.lor_nonneg. split; [|lia]. rewrite PA2PTE_eq by (done || lia). unfold PGSIZE. zdm.
Qed.

Lemma vspace_evolves s root D free s' free' :
  vspace s root D free → evolves root s free s' free' → (∀ i, D i → upte s' root i = upte s root i) →
  vspace s' root D free'.
Proof.
  intros H He Hu. destruct (ev_used _ _ _ _ _ He) as [used Eu].
  assert (Epage : ∀ i, D i → upage s' root i = upage s root i) by (intros; unfold upage; by rewrite Hu).
  split.
  - apply He.
  - apply He.
  - apply He, H.
  - apply (vs_dom _ _ _ _ H).
  - intros i Hi. rewrite Hu by done. by apply (vs_leaf _ _ _ _ H).
  - intros i Hi. rewrite Epage by done. destruct (vs_page _ _ _ _ H i Hi) as (? & Hnf & Hnt). split; [done|]. split.
    + rewrite Eu in Hnf. by intros ?; apply Hnf, elem_of_app; right.
    + intros (path & Hp & Hn). destruct (ev_new _ _ _ _ _ He path _ Hp Hn) as [Hn'|?]; [|done]. apply Hnt. by exists path.
  - intros i j Hi Hj. rewrite !Epage by done. by apply (vs_inj _ _ _ _ H).
Qed.

(** A page of its own for virtual page [i]. *)
Lemma map_own s root D free i pa perm :
  vspace s root D free → 0 ≤ i → i * PGSIZE < MAXVA → has (upte s root i) PTE_V = false →
  page_ok pa → (pa ∉ free) → ¬ table_page (memory s) root pa → (∀ j, D j → pa ≠ upage s root j) →
  0 ≤ perm < 2 ^ 10 → Z.lor perm PTE_V ≠ PTE_V →
  wp (mappages root (i * PGSIZE) PGSIZE pa perm) (fun r s' => ∃ free',
    evolves root s free s' free' ∧
    (r = 0 ∧ vspace s' root (fun j => D j ∨ j = i) free' ∧
       (∀ j, 0 ≤ j → j * PGSIZE < SV39 →
          upte s' root j = if decide (j = i) then user_entry pa perm else upte s root j) ∨
     r = -1 ∧ free' = [] ∧ vspace s' root D free' ∧
       ∀ j, 0 ≤ j → j * PGSIZE < SV39 → upte s' root j = upte s root j)) s.
Proof.
  intros H Hi Him Hun Hpa Hnf Hnt Hne Hperm Hp2.
  eapply wp_mono; [apply (mappages_one s root free i pa perm); try done; [apply H..|by apply page_ok_bounds]|].
  cbv beta. intros r s' (free' & He & [[-> Hu]|(-> & -> & Hu)]); exists free' || exists []; (split; [done|]).
  - left. split; [done|]. split; [|done]. destruct (user_entry_facts pa perm (page_ok_bounds pa Hpa) Hperm Hp2) as (Hleaf & Epa & _).
    assert (Hnew : ¬ D i).
    { intros Di. destruct (vs_leaf _ _ _ _ H i Di) as [Hv _]. by rewrite Hun in Hv. }
    assert (HuD : ∀ j, D j → upte s' root j = upte s root j).
    { intros j Hj. destruct (vs_dom _ _ _ _ H j Hj) as [Hj0 Hj1]. rewrite Hu by (done || by apply MAXVA_SV39).
      rewrite decide_False; [done|]. intros Hji. apply Hnew. by rewrite <- Hji. }
    assert (Hui : upte s' root i = user_entry pa perm) by (rewrite Hu by (done || by apply MAXVA_SV39); by rewrite decide_True).
    pose proof (vspace_evolves _ _ _ _ _ _ H He HuD) as HD. destruct (ev_used _ _ _ _ _ He) as [used Eu].
    assert (Eui : upage s' root i = pa) by (unfold upage; by rewrite Hui).
    assert (EuD : ∀ j, D j → upage s' root j = upage s root j) by (intros; unfold upage; by rewrite HuD).
    split; try apply HD.
    + intros j [Hj| ->]; [by apply (vs_dom _ _ _ _ H)|done].
    + intros j [Hj| ->]; [by apply (vs_leaf _ _ _ _ HD)|by rewrite Hui].
    + intros j [Hj| ->]; [by apply (vs_page _ _ _ _ HD)|]. rewrite Eui. split; [done|]. split.
      * rewrite Eu in Hnf. by intros ?; apply Hnf, elem_of_app; right.
      * intros (path & Hpth & Hn). destruct (ev_new _ _ _ _ _ He path _ Hpth Hn) as [Hn'|?]; [|done]. apply Hnt. by exists path.
    + intros j k [Hj| ->] [Hk| ->]; rewrite ?Eui, ?EuD by done; try done.
      * by apply (vs_inj _ _ _ _ H).
      * intros E. by destruct (Hne j Hj).
      * intros E. by destruct (Hne k Hk).
  - right. split; [done|]. split; [done|]. split; [|done]. eapply vspace_evolves; [exact H|exact He|].
    intros j Hj. destruct (vs_dom _ _ _ _ H j Hj) as [Hj0 Hj1]. auto using MAXVA_SV39.
Qed.
End vmspace.
