(* ===== verification/VmGrow.v ===== *)
(** * Growing and copying user memory (kernel/vm.c: uvmalloc, uvmdealloc, uvmcopy): theorems

    Both loops add one page after the other, and unmap what they have added
    when no page is left.  [building] is the state between two pages: what has
    been mapped so far, with which contents, and where every page of the free
    list has gone. *)

From S2P Require Import Prelude Mem Riscv Kalloc Vm PageTable VmMap VmCopy VmSpace.

Section building.
Context {KI : KernelImage}.

(** The virtual pages below [k]. *)
Definition below (k i : Z) : Prop := 0 ≤ i < k.

(** The loop has started in [s0] with the free list [f0] and adds the pages
    from [n] on; page [i] is to have the permissions [perm i] and the contents
    [cont i]. *)
Context (s0 : kmem) (f0 : list Z) (root n : Z) (perm : Z → Z) (cont : Z → Z → Z).

(** Where the pages of the free list are: free, in the hands of the loop
    ([x]), in the table, or mapped. *)
Record taken (s : kmem) (free x : list Z) (k : Z) : Prop := {
  tk_all p : p ∈ f0 → p ∈ free ∨ p ∈ x ∨ table_page (memory s) root p ∨ ∃ i, n ≤ i < k ∧ p = upage s root i;
  tk_free p : p ∈ free → p ∈ f0;
  tk_data i : n ≤ i < k → upage s root i ∈ f0;
  tk_mono p : table_page (memory s0) root p → table_page (memory s) root p;
  tk_new p : table_page (memory s) root p → table_page (memory s0) root p ∨ p ∈ f0;
  tk_same q : page_ok q → (q ∉ f0) → ¬ table_page (memory s0) root q → same_page q s0 s }.

Record building (s : kmem) (free x : list Z) (k : Z) : Prop := {
  bd_space : vspace s root (below k) free;
  bd_taken : taken s free x k;
  bd_pte j : 0 ≤ j → j * PGSIZE < SV39 → ¬ (n ≤ j < k) → upte s root j = upte s0 root j;
  bd_entry i : n ≤ i < k → PTE_FLAGS (upte s root i) = Z.lor (perm i) PTE_V;
  bd_bytes i o : n ≤ i < k → 0 ≤ o < PGSIZE → ld8 (memory s) (upage s root i + o) = cont i o }.

Context (Hn : 0 ≤ n).

Lemma building_start : vspace s0 root (below n) f0 → building s0 f0 [] n.
Proof.
  intros H. split; try done; try lia. split; try done; auto; try lia.
Qed.

(** Pages that are not free, not in the hands of the loop and not of the table
    do not change when the table grows. *)
Lemma evolves_data s free s' free' k :
  vspace s root (below k) free → evolves root s free s' free' → (∀ j, below k j → upte s' root j = upte s root j) →
  ∀ i o, n ≤ i < k → 0 ≤ o < PGSIZE → ld8 (memory s') (upage s' root i + o) = ld8 (memory s) (upage s root i + o).
Proof.
  intros H He Hu i o Hi Ho. assert (Hbi : below k i) by (unfold below; lia).
  unfold upage at 1. rewrite Hu by done. fold (upage s root i).
  destruct (vs_page _ _ _ _ H i Hbi) as (? & ? & ?).
  apply (evolves_same root s free s' free' (upage s root i) He (vs_pt _ _ _ _ H)); try done. lia.
Qed.

(** One page that the loop has or had in its hands changes, or moves between
    its hands and the free list. *)
Lemma building_page s free x k s' free' x' mem :
  building s free x k → free_pages s' free' → only_page mem s s' → page_ok mem → mem ∈ f0 →
  ¬ table_page (memory s) root mem → (∀ i, below k i → mem ≠ upage s root i) →
  (∀ p, p ∈ free ∨ p ∈ x → p ∈ free' ∨ p ∈ x') → (∀ p, p ∈ free' → p ∈ free ∨ p = mem) →
  building s' free' x' k.
Proof.
  intros [B1 B2 B3 B4 B5] Hf Ho Hpa Hm0 Hnt Hne Hx Hfree.
  pose proof (vs_pt _ _ _ _ B1) as Hok.
  assert (Hsame : ∀ p, table_page (memory s) root p → same_page p s s').
  { intros p Hp. apply (only_same_page mem); try done; [apply (table_page_ok _ _ _ _ Hok Hp)|by intros <-]. }
  assert (Htab : ∀ p, table_page (memory s') root p ↔ table_page (memory s) root p) by (intros; by eapply frame_table).
  assert (Hu : ∀ j, upte s' root j = upte s root j) by (intros; by eapply frame_pte).
  assert (Hup : ∀ j, upage s' root j = upage s root j) by (intros; unfold upage; by rewrite Hu).
  assert (HS : vspace s' root (below k) free').
  { eapply vspace_frame; [exact B1|done| |].
    - intros p Hp. split; [by apply Hsame|]. intros [Hp'| ->]%Hfree; [|done]. by apply (table_page_ok _ _ _ _ Hok Hp).
    - intros i Hi [Hp'|E]%Hfree; [by destruct (vs_page _ _ _ _ B1 i Hi) as (_ & ? & _)|]. by apply (Hne i Hi). }
  split; try done.
  - destruct B2. split.
    + intros p Hp. rewrite Htab. setoid_rewrite Hup. destruct (tk_all0 p Hp) as [?|[?|?]]; [| |auto];
        (destruct (Hx p) as [?|?]; auto).
    + intros p [?| ->]%Hfree; auto.
    + intros i Hi. rewrite Hup. auto.
    + intros p Hp. apply Htab. auto.
    + intros p Hp%Htab. auto.
    + intros q Hq Hq0 Hqt b Hb. rewrite <- (tk_same0 q Hq Hq0 Hqt b Hb).
      apply (only_same_page mem q s s'); try done. by intros <-.
  - intros j ? ? ?. rewrite Hu. auto.
  - intros i Hi. rewrite Hu. auto.
  - intros i o Hi Hoo. rewrite Hup, <- (B5 i o Hi Hoo). assert (Hbi : below k i) by (unfold below; lia).
    apply (only_same_page mem (upage s root i) s s'); try done; [|by apply Hne|lia].
    by apply (vs_page _ _ _ _ B1).
Qed.

(** The table grows, no entry changes. *)
Lemma building_grow s free x k s' free' :
  building s free x k → evolves root s free s' free' →
  (∀ j, 0 ≤ j → j * PGSIZE < SV39 → upte s' root j = upte s root j) → building s' free' x k.
Proof.
  intros [B1 B2 B3 B4 B5] He Hu.
  assert (HuD : ∀ j, below k j → upte s' root j = upte s root j).
  { intros j Hj. destruct (vs_dom _ _ _ _ B1 j Hj). auto using MAXVA_SV39. }
  assert (Hup : ∀ i, n ≤ i < k → upage s' root i = upage s root i).
  { intros i Hi. unfold upage. rewrite HuD; [done|unfold below; lia]. }
  destruct (ev_used _ _ _ _ _ He) as [used Eu].
  split.
  - by eapply vspace_evolves.
  - destruct B2. split.
    + intros p Hp. destruct (tk_all0 p Hp) as [Hp'|[?|[(path & ? & ?)|(i & Hi & ->)]]].
      * destruct (ev_all _ _ _ _ _ He p Hp') as [?|?]; auto.
      * auto.
      * right. right. left. exists path. split; [done|]. by apply (ev_mono _ _ _ _ _ He).
      * right. right. right. exists i. split; [done|]. by rewrite Hup.
    + intros p Hp. apply tk_free0. rewrite Eu. apply elem_of_app. by right.
    + intros i Hi. rewrite Hup by done. auto.
    + intros p (path & ? & ?)%tk_mono0. exists path. split; [done|]. by apply (ev_mono _ _ _ _ _ He).
    + intros p (path & Hp & Hpn). destruct (ev_new _ _ _ _ _ He path p Hp Hpn) as [?|?]; [|auto].
      apply tk_new0. by exists path.
    + intros q Hq Hq0 Hqt b Hb. rewrite <- (tk_same0 q Hq Hq0 Hqt b Hb).
      apply (evolves_same root s free s' free' q He (vs_pt _ _ _ _ B1) Hq); [auto| |done].
      intros [?|?]%tk_new0; done.
  - intros j Hj Hjm Hnj. rewrite Hu by done. auto.
  - intros i Hi. rewrite HuD by (unfold below; lia). auto.
  - intros i o Hi Ho. rewrite (evolves_data s free s' free' k) by done. auto.
Qed.

(** The page in the hands of the loop has been mapped. *)
Lemma building_map s free k s' free' mem :
  building s free [mem] k → n ≤ k → k * PGSIZE < MAXVA → page_ok mem → (mem ∉ free) → mem ∈ f0 →
  ¬ table_page (memory s) root mem → 0 ≤ perm k < 2 ^ 10 → Z.lor (perm k) PTE_V ≠ PTE_V →
  (∀ o, 0 ≤ o < PGSIZE → ld8 (memory s) (mem + o) = cont k o) →
  evolves root s free s' free' → vspace s' root (fun j => below k j ∨ j = k) free' →
  (∀ j, 0 ≤ j → j * PGSIZE < SV39 →
     upte s' root j = if decide (j = k) then user_entry mem (perm k) else upte s root j) →
  building s' free' [] (k + 1).
Proof.
  intros B Hk Hkm Hpa Hmf Hm0 Hnt Hperm Hp2 Hc He HV Hu. destruct (user_entry_facts mem (perm k) (page_ok_bounds mem Hpa) Hperm Hp2) as (_ & Epa & Efl).
  pose proof (bd_space _ _ _ _ B) as B1.
  assert (HuD : ∀ j, below k j → upte s' root j = upte s root j).
  { intros j Hj. destruct (vs_dom _ _ _ _ B1 j Hj). rewrite Hu by auto using MAXVA_SV39. rewrite decide_False; [done|]. unfold below in Hj. lia. }
  assert (Hup : ∀ i, n ≤ i < k → upage s' root i = upage s root i).
  { intros i Hi. unfold upage. rewrite HuD; [done|unfold below; lia]. }
  assert (Huk : upte s' root k = user_entry mem (perm k)) by (rewrite Hu by (lia || by apply MAXVA_SV39); by rewrite decide_True).
  assert (Hupk : upage s' root k = mem) by (unfold upage; by rewrite Huk).
  destruct (ev_used _ _ _ _ _ He) as [used Eu]. destruct B as [_ [T1 T2 T3 T4 T5 T6] B3 B4 B5]. split.
  - eapply vspace_ext, HV. unfold below. intros j. lia.
  - split.
    + intros p Hp. destruct (T1 p Hp) as [Hp'|[Hp'|[(path & ? & ?)|(i & Hi & ->)]]].
      * destruct (ev_all _ _ _ _ _ He p Hp') as [?|?]; auto.
      * apply list_elem_of_singleton in Hp' as ->. do 3 right. exists k. split; [lia|done].
      * right. right. left. exists path. split; [done|]. by apply (ev_mono _ _ _ _ _ He).
      * do 3 right. exists i. split; [lia|]. by rewrite Hup.
    + intros p Hp. apply T2. rewrite Eu. apply elem_of_app. by right.
    + intros i Hi. destruct (decide (i = k)) as [->|]; [by rewrite Hupk|]. rewrite Hup by lia. apply T3. lia.
    + intros p (path & ? & ?)%T4. exists path. split; [done|]. by apply (ev_mono _ _ _ _ _ He).
    + intros p (path & Hp & Hpn). destruct (ev_new _ _ _ _ _ He path p Hp Hpn) as [?|?]; [|auto].
      apply T5. by exists path.
    + intros q Hq Hq0 Hqt b Hb. rewrite <- (T6 q Hq Hq0 Hqt b Hb).
      apply (evolves_same root s free s' free' q He (vs_pt _ _ _ _ B1) Hq); [auto| |done].
      intros [?|?]%T5; done.
  - intros j Hj Hjm Hnj. rewrite Hu by done. rewrite decide_False by lia. apply B3; [done|done|lia].
  - intros i Hi. destruct (decide (i = k)) as [->|]; [by rewrite Huk|]. rewrite HuD by (unfold below; lia). apply B4. lia.
  - intros i o Hi Ho. destruct (decide (i = k)) as [->|].
    + rewrite Hupk, <- (Hc o Ho).
      apply (evolves_same root s free s' free' mem He (vs_pt _ _ _ _ B1)); try done. lia.
    + rewrite (evolves_data s free s' free' k) by (done || lia). apply B5; lia.
Qed.

(** One iteration.  [init mem] is how the new page is filled; [fail] runs when
    no page is left, with everything but the pages mapped so far given back. *)
Lemma add_page {A} (init : Z → mem → mem) (fail K : M kmem A) s free k (Q : A → kmem → Prop) :
  building s free [] k → n ≤ k → k * PGSIZE < MAXVA → has (upte s0 root k) PTE_V = false →
  0 ≤ perm k < 2 ^ 10 → Z.lor (perm k) PTE_V ≠ PTE_V →
  (∀ mem m, page_ok mem → mem ∈ f0 → (∀ q, page_ok q → (q ∉ f0) → ¬ table_page (memory s0) root q →
       ∀ b, q ≤ b < q + PGSIZE → ld8 m b = ld8 (memory s0) b) →
     (∀ b, b < mem ∨ mem + PGSIZE ≤ b → ld8 (init mem m) b = ld8 m b) ∧
     ∀ o, 0 ≤ o < PGSIZE → ld8 (init mem m) (mem + o) = cont k o) →
  (∀ s' free', building s' free' [] k → wp fail Q s') →
  (∀ s' free', building s' free' [] (k + 1) → wp K Q s') →
  wp (do mem <- kalloc;
      if mem =? 0 then fail
      else
        do! modify (fun s => set_memory (init mem (memory s)) s);
        do r <- mappages root (k * PGSIZE) PGSIZE mem (perm k);
        if negb (r =? 0) then do! kfree mem; fail else K) Q s.
Proof.
  intros B Hk Hkm Hun Hperm Hp2 Hinit Hfail HK. pose proof (bd_space _ _ _ _ B) as HV.
  apply wp_bind. eapply wp_mono; [apply kalloc_cases, HV|]. cbv beta.
  intros mem s1 [(-> & -> & ->)|(free1 & -> & Hm0 & Hmok & Hf1 & Ho1 & _)]; [by apply (Hfail s [])|].
  rewrite (proj2 (Z.eqb_neq mem 0)) by done. apply wp_bind, wp_modify.
  set (s2 := set_memory (init mem (memory s1)) s1).
  assert (Hmf0 : mem ∈ f0) by (apply (tk_free _ _ _ _ (bd_taken _ _ _ _ B)), list_elem_of_here).
  assert (Hnd : mem ∉ free1) by (assert (NoDup (mem :: free1)) as [? _]%NoDup_cons by apply (vs_free _ _ _ _ HV); done).
  assert (Hnt : ¬ table_page (memory s) root mem).
  { intros Ht. destruct (table_page_ok _ _ _ _ (vs_pt _ _ _ _ HV) Ht) as [_ []]. apply list_elem_of_here. }
  assert (Hne : ∀ i, below k i → mem ≠ upage s root i).
  { intros i Hi ->. destruct (vs_page _ _ _ _ HV i Hi) as (_ & [] & _). apply list_elem_of_here. }
  destruct (Hinit mem (memory s1) Hmok Hmf0) as [Hi1 Hi2].
  { intros q Hq Hq0 Hqt b Hb. rewrite <- (tk_same _ _ _ _ (bd_taken _ _ _ _ B) q Hq Hq0 Hqt b Hb).
    apply (only_same_page mem q s s1); try done. by intros <-. }
  assert (Ho2 : only_page mem s s2).
  { intros b Hb. unfold s2. cbn [memory set_memory]. rewrite Hi1 by done. by apply Ho1. }
  assert (Hf2 : free_pages s2 free1).
  { apply free_pages_frame; [|done]. intros q b Hq Hb. apply Hi1.
    assert (mem ≠ q) as Hmq by (by intros ->). pose proof (free_pages_ok _ _ _ Hf1 Hq).
    destruct (page_ok_disjoint mem q); try done; lia. }
  assert (B2 : building s2 free1 [mem] k).
  { eapply (building_page s (mem :: free1) [] k); try done.
    - intros p [Hp|Hp]; [|by apply elem_of_nil in Hp].
      apply elem_of_cons in Hp as [ -> |?]; [right; apply list_elem_of_here|by left].
    - intros p Hp. left. by apply list_elem_of_further. }
  pose proof (bd_space _ _ _ _ B2) as HV2.
  assert (Hsame : ∀ p, table_page (memory s) root p → same_page p s s2).
  { intros p Hp. apply (only_same_page mem); try done; [apply (table_page_ok _ _ _ _ (vs_pt _ _ _ _ HV) Hp)|by intros <-]. }
  assert (Hnt2 : ¬ table_page (memory s2) root mem).
  { intros Ht. apply Hnt. by apply (frame_table s s2 root _ (vs_pt _ _ _ _ HV) Hsame). }
  assert (Hne2 : ∀ i, below k i → mem ≠ upage s2 root i).
  { intros i Hi. unfold upage, upte. rewrite (frame_pte s s2 root _ (vs_pt _ _ _ _ HV) Hsame). by apply Hne. }
  apply wp_bind. eapply wp_mono.
  { apply (map_own s2 root (below k) free1 k mem (perm k)); try done; try lia.
    by rewrite (bd_pte _ _ _ _ B2) by (lia || by apply MAXVA_SV39). }
  cbv beta. intros r s3 (free3 & He & [(-> & HV3 & Hu3)|(-> & -> & HV3 & Hu3)]).
  - cbn [Z.eqb negb]. apply (HK s3 free3). by apply (building_map s2 free1 k s3 free3 mem).
  - cbn [Z.eqb negb]. pose proof (building_grow _ _ _ _ _ _ B2 He Hu3) as B3.
    assert (Hnt3 : ¬ table_page (memory s3) root mem).
    { intros (path & Hp & Hpn). destruct (ev_new _ _ _ _ _ He path mem Hp Hpn) as [?|?]; [|done]. apply Hnt2. by exists path. }
    apply wp_bind. eapply wp_mono; [apply (kfree_spec s3 [] mem Hmok); [apply not_elem_of_nil|apply HV3]|].
    cbv beta. intros _ s4 [Hf4 Ho4]. apply (Hfail s4 [mem]).
    eapply (building_page s3 [] [mem] k s4 [mem] [] mem); try done.
    + intros i Hi. destruct (vs_dom _ _ _ _ HV2 i Hi). unfold upage. rewrite Hu3 by auto using MAXVA_SV39. by apply Hne2.
    + intros p [Hp|Hp]; [by apply elem_of_nil in Hp|by left].
    + intros p Hp. right. by apply list_elem_of_singleton in Hp.
Qed.

(** ** Undoing *)

(** Nothing is left of what the loop did to the pages from [n] to [m]. *)
Record undone (s : kmem) (free : list Z) (m : Z) : Prop := {
  un_space : vspace s root (below n) free;
  un_taken : taken s free [] n;
  un_pte j : 0 ≤ j → j * PGSIZE < SV39 →
    upte s root j = upte s0 root j ∨ n ≤ j < m ∧ upte s root j = 0 }.

Lemma undo_unmap s free k m :
  building s free [] k → n ≤ k ≤ m → k * PGSIZE ≤ MAXVA →
  wp (uvmunmap root (n * PGSIZE) (k - n) true) (fun _ s' => ∃ free', undone s' free' m) s.
Proof.
  intros B Hk Hkm. pose proof (bd_space _ _ _ _ B) as HV.
  eapply wp_mono; [apply (uvmunmap_spec s root (below k) free n (k - n) HV Hn); [lia| |]|].
  { unfold below. lia. }
  { by replace (n + (k - n)) with k by lia. }
  cbv beta. replace (n + (k - n)) with k by lia. intros _ s' [HV' U]. eexists. split.
  - eapply vspace_ext, HV'. unfold below. lia.
  - destruct (bd_taken _ _ _ _ B) as [T1 T2 T3 T4 T5 T6].
    assert (Hin : ∀ p, p ∈ rev (pages_of s root n (Z.to_nat (k - n))) ↔ ∃ i, n ≤ i < k ∧ p = upage s root i).
    { intros p. rewrite list_elem_of_In, <- in_rev, <- list_elem_of_In. unfold pages_of. rewrite list_elem_of_fmap.
      setoid_rewrite elem_of_seqZ. split; intros (i & H1 & H2); exists i; [|]; (split; [|]); done || lia. }
    split.
    + intros p Hp. rewrite (um_table _ _ _ _ _ U), elem_of_app, Hin.
      destruct (T1 p Hp) as [?|[Hx|[?|?]]]; [auto| |auto|auto]. by apply elem_of_nil in Hx.
    + intros p. rewrite elem_of_app, Hin. intros [(i & Hi & ->)|?]; auto.
    + lia.
    + intros p Hp. apply (um_table _ _ _ _ _ U). auto.
    + intros p Hp%(um_table _ _ _ _ _ U). auto.
    + intros q Hq Hq0 Hqt b Hb. rewrite <- (T6 q Hq Hq0 Hqt b Hb).
      apply (um_same _ _ _ _ _ U q Hq); [|intros i Hi ->; by apply Hq0, T3|done]. intros [?|?]%T5; done.
  - intros j Hj Hjm. destruct (decide (n ≤ j < k)) as [Hr|Hr].
    + right. split; [lia|]. destruct (upte_sv39 j Hj Hjm) as [? Hd]. unfold upte.
      rewrite (um_pte _ _ _ _ _ U) by done. rewrite Hd. by rewrite decide_True.
    + left. rewrite (unmaps_upte s root n k s') by done. by apply (bd_pte _ _ _ _ B).
Qed.

Lemma building_undone s free m : building s free [] n → undone s free m.
Proof.
  intros B. split; [apply B|apply B|]. intros j ? ?. left. apply (bd_pte _ _ _ _ B); [done|done|lia].
Qed.

Lemma undo_dealloc s free k m :
  building s free [] k → n ≤ k ≤ m → k * PGSIZE ≤ MAXVA →
  wp (uvmdealloc root (k * PGSIZE) (n * PGSIZE)) (fun _ s' => ∃ free', undone s' free' m) s.
Proof.
  intros B Hk Hkm. unfold uvmdealloc. destruct (Z.leb_spec (k * PGSIZE) (n * PGSIZE)) as [Hle|Hlt].
  - apply wp_ret. replace k with n in B by (unfold PGSIZE in *; lia). eauto using building_undone.
  - rewrite MAXVA_eq in Hkm. rewrite !PGROUNDUP_aligned by (by rewrite ?Z.mod_mul || unfold PGSIZE in *; lia).
    rewrite (proj2 (Z.ltb_lt _ _)) by done.
    replace ((k * PGSIZE - n * PGSIZE) / PGSIZE) with (k - n) by (rewrite <- Z.mul_sub_distr_r, Z.div_mul; done).
    rewrite i32_small, u64_small by (unfold PGSIZE in *; lia).
    apply wp_bind. eapply wp_mono; [apply (undo_unmap s free k m B Hk); by rewrite MAXVA_eq|].
    cbv beta. intros _ s' H'. by apply wp_ret.
Qed.
End building.

(** ** uvmalloc *)

Section uvmalloc.
Context {KI : KernelImage}.

Definition zero_page (i o : Z) : Z := 0.

Lemma uvmalloc_loop_spec fuel s0 f0 root n newsz xperm : ∀ k s free,
  vspace s0 root (below n) f0 → 0 ≤ n ≤ k → newsz ≤ MAXVA →
  0 ≤ Z.lor (Z.lor PTE_R PTE_U) xperm < 2 ^ 10 →
  (∀ j, n ≤ j → j * PGSIZE < newsz → has (upte s0 root j) PTE_V = false) →
  newsz ≤ k * PGSIZE + Z.of_nat fuel * PGSIZE → k * PGSIZE < newsz + PGSIZE →
  building s0 f0 root n (fun _ => Z.lor (Z.lor PTE_R PTE_U) xperm) zero_page s free [] k →
  wp (uvmalloc_loop fuel root (k * PGSIZE) (n * PGSIZE) newsz xperm) (fun r s' => ∃ free',
    r = newsz ∧ building s0 f0 root n (fun _ => Z.lor (Z.lor PTE_R PTE_U) xperm) zero_page s' free' []
                  (Z.max k ((newsz + PGSIZE - 1) / PGSIZE)) ∨
    r = 0 ∧ undone s0 f0 root n s' free' ((newsz + PGSIZE - 1) / PGSIZE)) s.
Proof.
  induction fuel as [|fuel IH]; intros k s free H0 Hk Hmax Hperm Hun Hfuel Hkn B; cbn [uvmalloc_loop].
  - rewrite (proj2 (Z.ltb_ge _ _)) by lia. apply wp_ret. exists free. left. split; [done|].
    rewrite Z.max_l; [done|]. unfold PGSIZE in *. zdm.
  - destruct (Z.ltb_spec (k * PGSIZE) newsz) as [Hlt|Hge].
    2: { apply wp_ret. exists free. left. split; [done|]. rewrite Z.max_l; [done|]. unfold PGSIZE in *. zdm. }
    assert (Hp2 : Z.lor (Z.lor (Z.lor PTE_R PTE_U) xperm) PTE_V ≠ PTE_V).
    { intros E. apply (f_equal (fun x => Z.testbit x 1)) in E. rewrite !Z.lor_spec in E. by destruct (Z.testbit xperm 1). }
    apply (add_page s0 f0 root n (fun _ => Z.lor (Z.lor PTE_R PTE_U) xperm) zero_page ltac:(lia)
      (fun mem m => fill m mem 0 PGSIZE)
      (do _r <- uvmdealloc root (k * PGSIZE) (n * PGSIZE); ret 0)
      (uvmalloc_loop fuel root (u64 (k * PGSIZE + PGSIZE)) (n * PGSIZE) newsz xperm) s free k); try done; try lia.
    + apply Hun; lia.
    + intros mem m Hm _ _. split; [intros b Hb; apply ld8_fill_out; lia|]. intros o Ho. by rewrite ld8_fill_in by lia.
    + intros s' free' B'. apply wp_bind. eapply wp_mono.
      { apply (undo_dealloc s0 f0 root n (fun _ => Z.lor (Z.lor PTE_R PTE_U) xperm) zero_page ltac:(lia) s' free' k
          ((newsz + PGSIZE - 1) / PGSIZE) B'); [unfold PGSIZE in *; zdm|].
        rewrite MAXVA_eq in *. unfold PGSIZE in *. lia. }
      cbv beta. intros _ s2 (free2 & Hu). apply wp_ret. exists free2. by right.
    + intros s' free' B'. rewrite u64_small by (rewrite MAXVA_eq in *; unfold PGSIZE in *; lia).
      replace (k * PGSIZE + PGSIZE) with ((k + 1) * PGSIZE) by ring.
      eapply wp_mono; [apply (IH (k + 1) s' free'); try done; try lia; unfold PGSIZE in *; lia|].
      cbv beta. intros r s2 (free2 & [[-> B2]|?]); exists free2; [left|by right]. split; [done|].
      replace (Z.max k ((newsz + PGSIZE - 1) / PGSIZE)) with (Z.max (k + 1) ((newsz + PGSIZE - 1) / PGSIZE)); [done|].
      unfold PGSIZE in *. zdm.
Qed.

Lemma uvmalloc_spec s root free oldsz newsz xperm :
  let n := (oldsz + PGSIZE - 1) / PGSIZE in
  let n' := (newsz + PGSIZE - 1) / PGSIZE in
  vspace s root (below n) free → 0 ≤ oldsz ≤ newsz → newsz ≤ MAXVA →
  0 ≤ Z.lor (Z.lor PTE_R PTE_U) xperm < 2 ^ 10 →
  (∀ j, n ≤ j < n' → has (upte s root j) PTE_V = false) →
  wp (uvmalloc root oldsz newsz xperm) (fun r s' => ∃ free',
    r = newsz ∧ building s free root n (fun _ => Z.lor (Z.lor PTE_R PTE_U) xperm) zero_page s' free' [] n' ∨
    r = 0 ∧ undone s free root n s' free' n') s.
Proof.
  intros n n' H Hsz Hmax Hperm Hun. unfold uvmalloc. rewrite (proj2 (Z.ltb_ge _ _)) by lia. rewrite MAXVA_eq in Hmax.
  rewrite PGROUNDUP_eq by (unfold PGSIZE; lia). fold n.
  assert (Hnn : 0 ≤ n ≤ n') by (unfold n, n', PGSIZE; zdm).
  eapply wp_mono.
  { apply (uvmalloc_loop_spec _ s free root n newsz xperm n s free); try done; try lia.
    - intros j Hj Hjn. apply Hun. unfold n' in *. unfold PGSIZE in *. zdm.
    - unfold n, PGSIZE in *. zdm.
    - unfold n, PGSIZE in *. zdm.
    - by apply building_start. }
  cbv beta. intros r s' (free' & Hr). exists free'. fold n' in Hr. by rewrite Z.max_r in Hr by lia.
Qed.
End uvmalloc.

(** ** uvmcopy *)

Section uvmcopy.
Context {KI : KernelImage}.
Context (s0 : kmem) (old new n : Z) (free : list Z).
Context (Hold : vspace s0 old (below n) free) (Hnew : vspace s0 new (below 0) free).
Context (Hsep : ∀ p, table_page (memory s0) old p ∨ (∃ i, below n i ∧ p = upage s0 old i) → ¬ table_page (memory s0) new p).
Context (Hun : ∀ i, below n i → has (upte s0 new i) PTE_V = false).

Definition old_flags (i : Z) : Z := PTE_FLAGS (upte s0 old i).
Definition old_bytes (i o : Z) : Z := ld8 (memory s0) (upage s0 old i + o).
Abbreviation copying := (building s0 free new 0 old_flags old_bytes).

(** The pages of the parent do not change. *)
Lemma old_pages_same s f x k p :
  taken s0 free new 0 s f x k → table_page (memory s0) old p ∨ (∃ i, below n i ∧ p = upage s0 old i) → same_page p s0 s.
Proof.
  intros T Hp. apply (tk_same _ _ _ _ _ _ _ _ T); [| |by apply Hsep].
  - destruct Hp as [Hp|(i & Hi & ->)]; [apply (table_page_ok _ _ _ _ (vs_pt _ _ _ _ Hold) Hp)|by apply (vs_page _ _ _ _ Hold)].
  - destruct Hp as [Hp|(i & Hi & ->)]; [apply (table_page_ok _ _ _ _ (vs_pt _ _ _ _ Hold) Hp)|by apply (vs_page _ _ _ _ Hold)].
Qed.

Lemma old_space s f k : taken s0 free new 0 s f [] k → free_pages s f → vspace s old (below n) f.
Proof.
  intros T Hf. eapply vspace_frame; [exact Hold|done| |].
  - intros p Hp. split; [eapply old_pages_same; eauto|]. intros Hpf.
    destruct (table_page_ok _ _ _ _ (vs_pt _ _ _ _ Hold) Hp) as [_ []]. by apply (tk_free _ _ _ _ _ _ _ _ T).
  - intros i Hi Hpf. destruct (vs_page _ _ _ _ Hold i Hi) as (_ & [] & _). by apply (tk_free _ _ _ _ _ _ _ _ T).
Qed.

Lemma old_entry s f x k i :
  taken s0 free new 0 s f x k → below n i →
  ∃ a, a ≠ 0 ∧ walk old (i * PGSIZE) false s = Ok (a, s) ∧ ld64 (memory s) a = upte s0 old i.
Proof.
  intros T Hi. destruct (vs_dom _ _ _ _ Hold i Hi) as [Hi0 Hi1]. destruct (vs_leaf _ _ _ _ Hold i Hi) as [Hv _].
  destruct (pte_at_frame (memory s0) (memory s) old free (i * PGSIZE) (vs_pt _ _ _ _ Hold)) as [Ep Ea].
  { intros b (path & p & Hp & Hpn & Hb). apply (old_pages_same s f x k p T); [left; by exists path|done]. }
  unfold upte in *. destruct (pte_addr (memory s0) old (i * PGSIZE)) as [a|] eqn:E0.
  2: { unfold pte_at in Hv. by rewrite E0 in Hv. }
  destruct (leaf_inv _ _ _ _ _ (vs_pt _ _ _ _ Hold) E0) as (p0 & _ & -> & Hp0).
  pose proof (page_ok_bounds p0 Hp0). pose proof (PX_range 0 (i * PGSIZE)).
  exists (p0 + 8 * PX 0 (i * PGSIZE)). split; [lia|]. split; [by rewrite walk_noalloc, Ea by lia|].
  rewrite <- Ep. unfold pte_at. by rewrite Ea.
Qed.

Lemma lor_flags_V v : has v PTE_V = true → Z.lor (PTE_FLAGS v) PTE_V = PTE_FLAGS v.
Proof.
  intros H. unfold has in H. rewrite land_PTE_V in H. apply negb_true_iff, Z.eqb_neq in H.
  assert (Hb : Z.testbit v 0 = true).
  { destruct (Z.testbit v 0) eqn:E; [done|]. pose proof (Z.bit0_mod v) as Hm. rewrite E in Hm. by cbn in Hm. }
  apply Z.bits_inj'. intros i Hi. rewrite Z.lor_spec. destruct (decide (i = 0)) as [->|Hne].
  - rewrite orb_true_r. unfold PTE_FLAGS. by rewrite Z.land_spec, Hb.
  - replace (Z.testbit PTE_V i) with false; [by rewrite orb_false_r|]. symmetry. change PTE_V with (2 ^ 0).
    apply Z.pow2_bits_false. lia.
Qed.

Lemma uvmcopy_loop_spec fuel sz : ∀ k s f,
  0 ≤ k ≤ n → n * PGSIZE < sz + PGSIZE → sz ≤ n * PGSIZE → sz ≤ MAXVA →
  sz ≤ k * PGSIZE + Z.of_nat fuel * PGSIZE → copying s f [] k →
  wp (uvmcopy_loop fuel old new (k * PGSIZE) sz) (fun r s' => ∃ f',
    r = 0 ∧ copying s' f' [] n ∨ r = -1 ∧ undone s0 free new 0 s' f' n) s.
Proof.
  induction fuel as [|fuel IH]; intros k s f Hk Hn1 Hn2 Hmax Hfuel B; cbn [uvmcopy_loop].
  - rewrite (proj2 (Z.ltb_ge _ _)) by lia. apply wp_ret. exists f. left. split; [done|].
    by replace n with k by (unfold PGSIZE in *; lia).
  - destruct (Z.ltb_spec (k * PGSIZE) sz) as [Hlt|Hge].
    2: { apply wp_ret. exists f. left. split; [done|]. by replace n with k by (unfold PGSIZE in *; lia). }
    assert (Hkn : below n k) by (unfold below, PGSIZE in *; lia).
    destruct (old_entry s f [] k k (bd_taken _ _ _ _ _ _ _ _ _ _ B) Hkn) as (a & Ha & Ew & El).
    destruct (vs_leaf _ _ _ _ Hold k Hkn) as [Hv Hfl].
    apply wp_bind. eapply wp_run; [exact Ew|]. rewrite (proj2 (Z.eqb_neq a 0)) by done.
    apply wp_bind, wp_gets. rewrite El, Hv. cbn [negb]. fold (old_flags k). fold (upage s0 old k).
    rewrite Z.div_mul by done.
    pose proof (PTE_FLAGS_range (upte s0 old k)) as Hfr.
    apply (add_page s0 free new 0 old_flags old_bytes ltac:(lia)
      (fun mem m => copy m mem (upage s0 old k) PGSIZE)
      (do! uvmunmap new 0 k true; ret (-1))
      (uvmcopy_loop fuel old new (u64 (k * PGSIZE + PGSIZE)) sz) s f k); try done; try lia.
    + by apply Hun.
    + unfold old_flags. by rewrite lor_flags_V.
    + intros mem m Hm Hmf Hq. split; [intros b Hb; apply ld8_copy_out; lia|]. intros o Ho.
      destruct (vs_page _ _ _ _ Hold k Hkn) as (Hpok & Hpf & _).
      rewrite ld8_copy_in by lia. unfold old_bytes. replace (mem + o - mem) with o by lia.
      apply (Hq (upage s0 old k)); [done|done| |lia]. apply Hsep. right. by exists k.
    + intros s' f' B'. apply wp_bind. eapply wp_mono.
      { pose proof (undo_unmap s0 free new 0 old_flags old_bytes ltac:(lia) s' f' k n B' ltac:(lia)) as Hu.
        rewrite Z.sub_0_r in Hu. apply Hu. rewrite MAXVA_eq in *. unfold PGSIZE in *. lia. }
      cbv beta. intros _ s2 (f2 & Hu). apply wp_ret. exists f2. by right.
    + intros s' f' B'. rewrite u64_small by (rewrite MAXVA_eq in *; unfold PGSIZE in *; lia).
      replace (k * PGSIZE + PGSIZE) with ((k + 1) * PGSIZE) by ring.
      apply (IH (k + 1) s' f'); try done; try lia. unfold below in Hkn. lia.
Qed.
End uvmcopy.

(** What fork does with memory.  Copying the first [sz] bytes of the
    address space [old] into [new], which has nothing mapped there, never
    panics.  On success every page of [new] has the contents and the flags of
    the page of [old], in a physical page of its own that no page of either
    space shares, so that later writes of the parent and the child do not
    meet.  Without memory the copy fails, [new] is as empty as before, and
    every page of the free list is free again or part of the table of [new].
    In both cases the parent keeps its pages and their contents. *)
Lemma uvmcopy_isolates {KI : KernelImage} s old new sz free :
  let n := (sz + PGSIZE - 1) / PGSIZE in
  0 ≤ sz ≤ MAXVA → vspace s old (below n) free → vspace s new (below 0) free →
  (∀ p, table_page (memory s) old p ∨ (∃ i, below n i ∧ p = upage s old i) → ¬ table_page (memory s) new p) →
  (∀ i, below n i → has (upte s new i) PTE_V = false) →
  wp (uvmcopy old new sz) (fun r s' => ∃ free',
    vspace s' old (below n) free' ∧
    (∀ i, below n i → upte s' old i = upte s old i ∧ same_page (upage s old i) s s') ∧
    (r = 0 ∧ vspace s' new (below n) free' ∧
       (∀ i, below n i →
          PTE_FLAGS (upte s' new i) = PTE_FLAGS (upte s old i) ∧
          (∀ o, 0 ≤ o < PGSIZE → ld8 (memory s') (upage s' new i + o) = ld8 (memory s) (upage s old i + o)) ∧
          ∀ j, below n j → upage s' new i ≠ upage s' old j) ∨
     r = -1 ∧ vspace s' new (below 0) free' ∧
       ∀ p, p ∈ free → p ∈ free' ∨ table_page (memory s') new p)) s.
Proof.
  intros n Hsz Hold Hnew Hsep Hun. unfold uvmcopy.
  assert (Hn : n * PGSIZE < sz + PGSIZE ∧ sz ≤ n * PGSIZE ∧ 0 ≤ n) by (unfold n, PGSIZE; zdm).
  eapply wp_mono.
  { apply (uvmcopy_loop_spec s old new n free Hold Hsep Hun _ sz 0 s free); try lia.
    - fold n. rewrite Z2Nat.id by lia. lia.
    - by apply building_start. }
  cbv beta. intros r s' (f' & Hr).
  assert (HT : ∃ k, taken s free new 0 s' f' [] k ∧ free_pages s' f').
  { destruct Hr as [[_ [BS BT _ _ _]]|[_ [US UT _]]]; [exists n|exists 0]; (split; [done|]); [apply BS|apply US]. }
  destruct HT as (k & T & Hf').
  assert (Hpte : ∀ i, below n i → upte s' old i = upte s old i).
  { intros i Hi. eapply frame_pte; [apply (vs_pt _ _ _ _ Hold)|]. intros p Hp.
    apply (old_pages_same s old new n free Hold Hsep s' f' [] k p T). by left. }
  exists f'. split; [by eapply old_space|]. split.
  { intros i Hi. split; [auto|]. apply (old_pages_same s old new n free Hold Hsep s' f' [] k _ T). right. eauto. }
  destruct Hr as [[-> B]|[-> U]]; [left|right]; (split; [done|]).
  - destruct B as [B1 B2 B3 B4 B5]. split; [done|]. intros i Hi. unfold below in Hi. split; [|split].
    + rewrite B4 by lia. apply lor_flags_V. by apply (vs_leaf _ _ _ _ Hold i).
    + intros o Ho. by apply B5.
    + intros j Hj E. unfold upage at 2 in E. rewrite Hpte in E by done. fold (upage s old j) in E.
      destruct (vs_page _ _ _ _ Hold j Hj) as (_ & [] & _). rewrite <- E. by apply (tk_data _ _ _ _ _ _ _ _ B2).
  - split; [apply U|]. intros p Hp. destruct (tk_all _ _ _ _ _ _ _ _ (un_taken _ _ _ _ _ _ _ U) p Hp) as [?|[Hx|[?|(i & Hi & _)]]].
    + by left.
    + by apply elem_of_nil in Hx.
    + by right.
    + lia.
Qed.
