(* ===== verification/VmFree.v ===== *)
(** * Releasing the memory of a process (kernel/vm.c: freewalk, uvmfree)

    freewalk goes through a page table and frees its pages from the bottom
    up.  [subtree m d p] lists the pages of the table below [p] in the order
    in which it frees them; the specification says that the free list has
    grown by exactly these pages and that no other page has been touched.
    With [uvmunmap_spec] this gives the specification of uvmfree: a process
    gives back all the memory it has, each page once. *)

From S2P Require Import Prelude Mem Riscv Kalloc Vm PageTable VmMap VmCopy VmSpace VmGrow.

(** Only bytes of the pages [L] have changed. *)
Definition changes (L : list Z) (s s' : kmem) : Prop :=
  ∀ b, (∀ q, q ∈ L → ¬ (q ≤ b < q + PGSIZE)) → ld8 (memory s') b = ld8 (memory s) b.

Lemma changes_trans L1 L2 L s1 s2 s3 :
  changes L1 s1 s2 → changes L2 s2 s3 → (∀ q, q ∈ L1 → q ∈ L) → (∀ q, q ∈ L2 → q ∈ L) → changes L s1 s3.
Proof. intros H1 H2 HL1 HL2 b Hb. rewrite H2, H1; auto. Qed.

Lemma NoDup_concat_map {A B} (f : A → list B) l :
  NoDup l → (∀ x, x ∈ l → NoDup (f x)) → (∀ x y z, x ∈ l → y ∈ l → z ∈ f x → z ∈ f y → x = y) →
  NoDup (concat (map f l)).
Proof.
  induction l as [|x l IH]; intros Hl Hf Hd; [apply NoDup_nil_2|]. apply NoDup_cons in Hl as [Hx Hl].
  cbn [map concat]. apply NoDup_app. split; [apply Hf, list_elem_of_here|]. split.
  - intros z Hz Hz'. rewrite list_elem_of_In, in_concat in Hz'. destruct Hz' as (k & Hk & Hzk).
    apply in_map_iff in Hk as (y & <- & Hy%list_elem_of_In). apply list_elem_of_In in Hzk.
    assert (x = y) as <-; [|done]. apply (Hd x y z); try done; [apply list_elem_of_here|by apply list_elem_of_further].
  - apply IH; [done| |].
    + intros y Hy. by apply Hf, list_elem_of_further.
    + intros y y' z Hy Hy'. apply Hd; by apply list_elem_of_further.
Qed.

Lemma elem_of_concat_map {A B} (f : A → list B) l z : z ∈ concat (map f l) ↔ ∃ x, x ∈ l ∧ z ∈ f x.
Proof.
  rewrite list_elem_of_In, in_concat. setoid_rewrite in_map_iff. setoid_rewrite list_elem_of_In.
  split; [intros (? & (x & <- & Hx) & Hz)|intros (x & Hx & Hz)]; eauto.
Qed.

(** ** The pages of a table *)

Fixpoint subtree (m : mem) (d : nat) (p : Z) : list Z :=
  match d with
  | O => []
  | S d' => concat (map (fun i => match child m i p with Some q => subtree m d' q | None => [] end) (seqZ 0 512)) ++ [p]
  end.
Definition kid (m : mem) (d : nat) (p i : Z) : list Z :=
  match child m i p with Some q => subtree m d q | None => [] end.

Lemma subtree_elem m d : ∀ p q,
  q ∈ subtree m d p ↔ ∃ ext, Forall (fun i => 0 ≤ i < 512) ext ∧ (length ext < d)%nat ∧ pt_node m p ext = Some q.
Proof.
  induction d as [|d IH]; intros p q; cbn [subtree].
  - split; [intros []%elem_of_nil|]. intros (? & _ & ? & _). lia.
  - rewrite elem_of_app, list_elem_of_singleton, elem_of_concat_map. split.
    + intros [(i & Hi%elem_of_seqZ & Hq)| ->]; [|exists []; repeat split; [by apply Forall_nil|simpl; lia]].
      destruct (child m i p) as [c|] eqn:Ec; [|by apply elem_of_nil in Hq].
      apply IH in Hq as (ext & Hf & Hl & Hn). exists (i :: ext). split; [apply Forall_cons; split; [lia|done]|].
      split; [simpl; lia|]. cbn [pt_node]. by rewrite Ec.
    + intros ([|i ext] & Hf & Hl & Hn); [right; by injection Hn|]. left. apply Forall_cons in Hf as [Hi Hf].
      exists i. split; [apply elem_of_seqZ; lia|]. cbn [pt_node] in Hn. destruct (child m i p) as [c|]; [|done].
      apply IH. exists ext. simpl in Hl. repeat split; [done|lia|done].
Qed.

Lemma subtree_NoDup m d : ∀ p,
  (∀ ext ext' q, Forall (fun i => 0 ≤ i < 512) ext → Forall (fun i => 0 ≤ i < 512) ext' →
     (length ext < d)%nat → (length ext' < d)%nat →
     pt_node m p ext = Some q → pt_node m p ext' = Some q → ext = ext') →
  NoDup (subtree m d p).
Proof.
  induction d as [|d IH]; intros p Hinj; cbn [subtree]; [apply NoDup_nil_2|].
  assert (Hkid : ∀ i q, 0 ≤ i < 512 → q ∈ kid m d p i → ∃ ext, Forall (fun i => 0 ≤ i < 512) (i :: ext) ∧
    (length (i :: ext) < S d)%nat ∧ pt_node m p (i :: ext) = Some q).
  { unfold kid. intros i q Hi Hq. destruct (child m i p) as [c|] eqn:Ec; [|by apply elem_of_nil in Hq].
    apply subtree_elem in Hq as (ext & ? & ? & ?). exists ext. split; [by apply Forall_cons|].
    split; [simpl; lia|]. cbn [pt_node]. by rewrite Ec. }
  apply NoDup_app. split; [|split; [|apply NoDup_singleton]].
  - apply (NoDup_concat_map (kid m d p)).
    + apply NoDup_seqZ.
    + intros i Hi%elem_of_seqZ. unfold kid. destruct (child m i p) as [c|] eqn:Ec; [|apply NoDup_nil_2].
      apply IH. intros ext ext' q Hf Hf' Hl Hl' Hn Hn'.
      assert (i :: ext = i :: ext') as [= ?]; [|done]. apply (Hinj _ _ q); try (apply Forall_cons; split; [lia|done]); simpl; try lia;
        by rewrite Ec.
    + intros i j q Hi%elem_of_seqZ Hj%elem_of_seqZ Hqi Hqj.
      destruct (Hkid i q ltac:(lia) Hqi) as (e & ? & ? & ?). destruct (Hkid j q ltac:(lia) Hqj) as (e' & ? & ? & ?).
      by assert (i :: e = j :: e') as [= ? _] by (by apply (Hinj _ _ q)).
  - intros q Hq Hqp. apply list_elem_of_singleton in Hqp as ->. apply elem_of_concat_map in Hq as (i & Hi%elem_of_seqZ & Hq).
    destruct (Hkid i p ltac:(lia) Hq) as (e & ? & ? & ?).
    assert (i :: e = []) as [=]. apply (Hinj _ _ p); try done. simpl. lia.
Qed.

Section vmfree.
Context {KI : KernelImage}.

(** A table of depth [d] whose entries are either invalid or lead to a table
    below: nothing is mapped. *)
Fixpoint no_leaves (m : mem) (d : nat) (p : Z) : Prop :=
  match d with
  | O => False
  | S d' => page_ok p ∧ ∀ i, 0 ≤ i < 512 →
      match child m i p with
      | Some q => has (ld64 m (p + 8 * i)) (Z.lor (Z.lor PTE_R PTE_W) PTE_X) = false ∧ no_leaves m d' q
      | None => True
      end
  end.

Lemma no_leaves_pages m d : ∀ p q, no_leaves m d p → q ∈ subtree m d p → page_ok q.
Proof.
  induction d as [|d IH]; intros p q; cbn [no_leaves subtree]; [done|]. intros [Hp Hk] Hq.
  apply elem_of_app in Hq as [Hq| ->%list_elem_of_singleton]; [|done].
  apply elem_of_concat_map in Hq as (i & Hi%elem_of_seqZ & Hq). specialize (Hk i ltac:(lia)).
  destruct (child m i p) as [c|]; [|by apply elem_of_nil in Hq]. apply (IH c q); [apply Hk|done].
Qed.

Lemma child_ext m m' p i :
  0 ≤ i < 512 → (∀ b, p + 8 * i ≤ b < p + 8 * i + 8 → ld8 m' b = ld8 m b) →
  child m' i p = child m i p ∧ ld64 m' (p + 8 * i) = ld64 m (p + 8 * i).
Proof.
  intros Hi H. assert (E : ld64 m' (p + 8 * i) = ld64 m (p + 8 * i)) by (apply ldn_ext; intros b Hb; apply H; lia).
  split; [|done]. unfold child. by rewrite E.
Qed.

Lemma subtree_frame m m' d : ∀ p,
  (∀ q b, q ∈ subtree m d p → q ≤ b < q + PGSIZE → ld8 m' b = ld8 m b) → no_leaves m d p →
  subtree m' d p = subtree m d p ∧ no_leaves m' d p.
Proof.
  induction d as [|d IH]; intros p Hs; cbn [no_leaves subtree]; [done|]. intros [Hp Hk].
  assert (Hc : ∀ i, 0 ≤ i < 512 → child m' i p = child m i p ∧ ld64 m' (p + 8 * i) = ld64 m (p + 8 * i)).
  { intros i Hi. apply child_ext; [done|]. intros b Hb. apply (Hs p); [|unfold PGSIZE; lia].
    cbn [subtree]. apply elem_of_app. right. by apply list_elem_of_singleton. }
  assert (Hsub : ∀ i, 0 ≤ i < 512 → match child m i p with Some c => subtree m' d c = subtree m d c ∧ no_leaves m' d c | None => True end).
  { intros i Hi. specialize (Hk i Hi). destruct (child m i p) as [c|] eqn:Ec; [|done]. apply IH; [|apply Hk].
    intros q b Hq. apply Hs. cbn [subtree]. apply elem_of_app. left. apply elem_of_concat_map.
    exists i. split; [apply elem_of_seqZ; lia|]. by rewrite Ec. }
  split.
  - do 2 f_equal. apply map_ext_in. intros i Hi%list_elem_of_In%elem_of_seqZ. destruct (Hc i ltac:(lia)) as [-> _].
    specialize (Hsub i ltac:(lia)). destruct (child m i p); [apply Hsub|done].
  - split; [done|]. intros i Hi. destruct (Hc i Hi) as [-> ->]. specialize (Hsub i Hi). specialize (Hk i Hi).
    destruct (child m i p); [|done]. split; [apply Hk|apply Hsub].
Qed.

(** ** freewalk *)

Definition kids (m : mem) (d : nat) (p i : Z) : list Z := concat (map (kid m d p) (seqZ i (512 - i))).

Lemma kids_cons m d p i : 0 ≤ i < 512 → kids m d p i = kid m d p i ++ kids m d p (i + 1).
Proof.
  intros Hi. unfold kids. rewrite (seqZ_cons i) by lia. cbn [map concat]. do 3 f_equal. f_equal; lia.
Qed.

Definition kid_ok (m : mem) (d : nat) (p i : Z) : Prop :=
  match child m i p with
  | Some q => has (ld64 m (p + 8 * i)) (Z.lor (Z.lor PTE_R PTE_W) PTE_X) = false ∧ no_leaves m d q
  | None => True
  end.

Lemma kid_pages m d p i q : kid_ok m d p i → q ∈ kid m d p i → page_ok q.
Proof.
  unfold kid_ok, kid. destruct (child m i p); [|intros _ []%elem_of_nil]. intros [_ ?]. by apply no_leaves_pages.
Qed.

Lemma kids_pages m d p i q : 0 ≤ i → (∀ j, i ≤ j < 512 → kid_ok m d p j) → q ∈ kids m d p i → page_ok q.
Proof.
  intros Hi Hk Hq. apply elem_of_concat_map in Hq as (j & Hj%elem_of_seqZ & Hq).
  apply (kid_pages m d p j); [apply Hk; lia|done].
Qed.

(** The entries and the tables from [i] on are not affected by a change
    elsewhere. *)
Lemma kids_frame m m' d p i :
  0 ≤ i → (∀ j, i ≤ j < 512 → kid_ok m d p j) →
  (∀ b, p + 8 * i ≤ b < p + PGSIZE → ld8 m' b = ld8 m b) →
  (∀ q b, q ∈ kids m d p i → q ≤ b < q + PGSIZE → ld8 m' b = ld8 m b) →
  kids m' d p i = kids m d p i ∧ ∀ j, i ≤ j < 512 → kid_ok m' d p j.
Proof.
  intros Hi Hk Hp Hs.
  assert (H : ∀ j, i ≤ j < 512 → kid m' d p j = kid m d p j ∧ kid_ok m' d p j).
  { intros j Hj. specialize (Hk j Hj). unfold kid, kid_ok in *.
    destruct (child_ext m m' p j) as [-> ->]; [lia|intros b Hb; apply Hp; unfold PGSIZE; lia|].
    destruct (child m j p) as [c|] eqn:Ec; [|done].
    destruct (subtree_frame m m' d c) as [-> ?]; [|apply Hk|split; [done|split; [apply Hk|done]]].
    intros q b Hq. apply Hs. apply elem_of_concat_map. exists j. split; [apply elem_of_seqZ; lia|].
    unfold kid. by rewrite Ec. }
  split; [|intros j Hj; by apply H]. unfold kids. f_equal. apply map_ext_in.
  intros j Hj%list_elem_of_In%elem_of_seqZ. apply H. lia.
Qed.

(** A page outside of what has changed is as before. *)
Lemma changes_page L s s' q b :
  changes L s s' → (∀ r, r ∈ L → page_ok r) → page_ok q → (q ∉ L) → q ≤ b < q + PGSIZE →
  ld8 (memory s') b = ld8 (memory s) b.
Proof.
  intros Hc HL Hq Hnin Hb. apply Hc. intros r Hr Hb'. assert (q ≠ r) as Hne by (by intros ->).
  destruct (page_ok_disjoint q r Hq (HL r Hr) Hne); lia.
Qed.

(** Clearing entry [i] of [p] once the pages [K] below it are free. *)
Lemma clear_entry d s s1 p i K free :
  0 ≤ i < 512 → page_ok p → (∀ j, i + 1 ≤ j < 512 → kid_ok (memory s) d p j) →
  changes K s s1 → (∀ r, r ∈ K → page_ok r) → NoDup (p :: (K ++ kids (memory s) d p (i + 1)) ++ free) →
  free_pages s1 (rev K ++ free) →
  let s2 := set_memory (st64 (memory s1) (p + 8 * i) 0) s1 in
  free_pages s2 (rev K ++ free) ∧ changes (p :: K) s s2 ∧
  kids (memory s2) d p (i + 1) = kids (memory s) d p (i + 1) ∧ (∀ j, i + 1 ≤ j < 512 → kid_ok (memory s2) d p j).
Proof.
  intros Hi Hp Hk Hc HK Hnd Hf1 s2. apply NoDup_cons in Hnd as [HpN Hnd]. rewrite !elem_of_app in HpN.
  assert (Hb2 : ∀ b, ¬ (p + 8 * i ≤ b < p + 8 * i + 8) → ld8 (memory s2) b = ld8 (memory s1) b).
  { intros b Hb. apply (ld8_stn_out 8). lia. }
  assert (Hpage : ∀ q b, page_ok q → q ≠ p → q ≤ b < q + PGSIZE → ld8 (memory s2) b = ld8 (memory s1) b).
  { intros q b Hq Hne Hb. apply Hb2. destruct (page_ok_disjoint q p Hq Hp Hne); unfold PGSIZE in *; lia. }
  split; [|split].
  - apply free_pages_frame; [|done]. intros q b Hq Hb. apply (Hpage q); [by apply (free_pages_ok _ _ _ Hf1)| |done].
    intros ->. apply elem_of_app in Hq as [Hq|]; [|tauto]. apply HpN. left. left.
    by rewrite list_elem_of_In, in_rev, <- list_elem_of_In.
  - apply (changes_trans K [p] _ s s1 s2); [done| | |].
    + intros b Hb. apply Hb2. intros ?. apply (Hb p); [by apply list_elem_of_singleton|unfold PGSIZE; lia].
    + intros q Hq. by apply list_elem_of_further.
    + intros q ->%list_elem_of_singleton. apply list_elem_of_here.
  - apply kids_frame; [lia|done| |].
    + intros b Hb. rewrite Hb2 by lia. apply (changes_page K s s1 p b); try done; [tauto|lia].
    + intros q b Hq Hb. assert (Hqok : page_ok q) by (apply (kids_pages (memory s) d p (i + 1)); [lia|done|done]).
      rewrite (Hpage q) by (done || (intros ->; tauto)). apply (changes_page K s s1 q b); try done.
      rewrite <- app_assoc in Hnd. apply NoDup_app in Hnd as (_ & Hdis & _). intros HqK.
      apply (Hdis q HqK), elem_of_app. by left.
Qed.

Lemma freewalk_loop_spec d :
  (∀ q s free, no_leaves (memory s) d q → free_pages s free → NoDup (subtree (memory s) d q ++ free) →
     wp (freewalk d q) (fun _ s' => free_pages s' (rev (subtree (memory s) d q) ++ free) ∧
                          changes (subtree (memory s) d q) s s') s) →
  ∀ n p s free, let i := 512 - Z.of_nat n in
  (n ≤ 512)%nat → page_ok p → (∀ j, i ≤ j < 512 → kid_ok (memory s) d p j) →
  free_pages s free → NoDup (p :: kids (memory s) d p i ++ free) →
  wp (freewalk_loop (freewalk d) n p) (fun _ s' =>
    free_pages s' (rev (kids (memory s) d p i) ++ free) ∧ changes (p :: kids (memory s) d p i) s s') s.
Proof.
  intros IHd. induction n as [|n IH]; intros p s free i Hn Hp Hk Hf Hnd.
  - subst i. cbn [freewalk_loop]. apply wp_ret. split; [done|]. by intros b _.
  - cbn [freewalk_loop]. fold i. assert (Hi : 0 ≤ i < 512) by lia.
    apply wp_bind, wp_gets. rewrite (kids_cons _ _ _ i Hi) in *.
    assert (Hki := Hk i ltac:(lia)). unfold kid_ok, kid, child in Hki. unfold kid, child in Hnd |- *.
    replace (512 - Z.of_nat n) with (i + 1) in IH by lia.
    destruct (has (ld64 (memory s) (p + 8 * i)) PTE_V).
    2: { cbn [andb]. apply wp_bind, wp_ret. apply IH; try done; [lia|]. intros j Hj. apply Hk. lia. }
    destruct Hki as [-> Hq]. cbn [andb negb].
    set (K := subtree (memory s) d (PTE2PA (ld64 (memory s) (p + 8 * i)))) in *.
    apply wp_bind, wp_bind. eapply wp_mono; [apply (IHd _ s free Hq Hf)|].
    { apply NoDup_cons in Hnd as [_ Hnd]. revert Hnd. fold K. rewrite <- app_assoc.
      rewrite !NoDup_app. intros (? & Hd & _ & _ & ?). split; [done|]. split; [|done].
      intros x Hx Hx'. apply (Hd x Hx), elem_of_app. by right. }
    cbv beta. fold K. intros _ s1 [Hf1 Hc1]. apply wp_modify.
    destruct (clear_entry d s s1 p i K free) as (Hf2 & Hc2 & EK & Hk2); try done.
    { intros j Hj. apply Hk. lia. }
    { intros r. by apply no_leaves_pages. }
    eapply wp_mono; [apply (IH p _ (rev K ++ free)); try done; [lia|]|].
    { rewrite EK. eapply NoDup_Permutation_proper, Hnd. rewrite <- (Permutation_rev K). solve_Permutation. }
    cbv beta. rewrite EK. intros _ s3 [Hf3 Hc3]. split.
    + by rewrite rev_app_distr, <- app_assoc.
    + eapply changes_trans; [exact Hc2|exact Hc3| |]; intros q; rewrite !elem_of_cons, ?elem_of_app; tauto.
Qed.

Lemma freewalk_spec d : ∀ p s free,
  no_leaves (memory s) d p → free_pages s free → NoDup (subtree (memory s) d p ++ free) →
  wp (freewalk d p) (fun _ s' => free_pages s' (rev (subtree (memory s) d p) ++ free) ∧
                       changes (subtree (memory s) d p) s s') s.
Proof.
  induction d as [|d IH]; [done|]. intros p s free [Hp Hk] Hf. cbn [subtree freewalk].
  change (concat (map _ (seqZ 0 512))) with (kids (memory s) d p 0). intros Hnd.
  assert (Hnd' : NoDup (p :: kids (memory s) d p 0 ++ free)).
  { revert Hnd. generalize (kids (memory s) d p 0). intros K Hnd. eapply NoDup_Permutation_proper, Hnd. solve_Permutation. }
  apply wp_bind. eapply wp_mono; [apply (freewalk_loop_spec d IH 512 p s free); try done|].
  cbv beta. change (512 - Z.of_nat 512) with 0. intros _ s1 [Hf1 Hc1].
  eapply wp_mono; [apply (kfree_spec s1 (rev (kids (memory s) d p 0) ++ free) p Hp)|].
  { apply NoDup_cons in Hnd' as [Hnd' _]. intros Hx. apply Hnd'. revert Hx. rewrite !elem_of_app.
    rewrite list_elem_of_In, <- in_rev, <- list_elem_of_In. done. }
  { done. }
  cbv beta. intros _ s2 [Hf2 Ho2]. rewrite rev_app_distr. split; [done|].
  eapply (changes_trans _ [p]); [exact Hc1| | |].
  - intros b Hb. apply Ho2. specialize (Hb p (proj2 (list_elem_of_singleton p p) eq_refl)). lia.
  - intros q. rewrite elem_of_cons, elem_of_app, list_elem_of_singleton. tauto.
  - intros q. rewrite elem_of_app. tauto.
Qed.

(** ** uvmfree *)

(** The virtual address with the given indices. *)
Lemma va_of_path a b c :
  0 ≤ a < 512 → 0 ≤ b < 512 → 0 ≤ c < 512 →
  let i := (a * 512 + b) * 512 + c in
  va_path (i * PGSIZE) = [a; b] ∧ PX 0 (i * PGSIZE) = c ∧ 0 ≤ i ∧ i * PGSIZE < SV39.
Proof.
  intros Ha Hb Hc i. assert (0 ≤ i * PGSIZE < SV39) by (unfold i, PGSIZE, SV39; lia).
  unfold va_path. rewrite !PX_eq by lia. unfold i, PGSIZE.
  change (2 ^ (12 + 9 * 2)) with (4096 * 512 * 512). change (2 ^ (12 + 9 * 1)) with (4096 * 512).
  change (2 ^ (12 + 9 * 0)) with 4096. rewrite <- !Z.div_div by lia. rewrite !Z.div_mul by lia.
  repeat split; [f_equal; [|f_equal]| | |]; unfold SV39; zdm.
Qed.

(** Nothing is mapped outside of the pages [D]. *)
Definition nothing_but (D : Z → Prop) (s : kmem) (root : Z) : Prop :=
  ∀ i, 0 ≤ i → i * PGSIZE < SV39 → ¬ D i → has (upte s root i) PTE_V = false.

Lemma unmapped_no_leaves s root free d : ∀ path p,
  pt_ok (memory s) root free → interior_ok (memory s) root → nothing_but (below 0) s root →
  (d ≠ 0)%nat → (length path + d = 3)%nat → Forall (fun i => 0 ≤ i < 512) path →
  pt_node (memory s) root path = Some p → no_leaves (memory s) d p.
Proof.
  induction d as [|d IH]; intros path p Hok Hint Hnone Hd Hl Hf Hn; [done|]. cbn [no_leaves].
  assert (Hpath : is_path path) by (split; [done|lia]).
  split; [by apply (pt_page _ _ _ Hok path p)|]. intros i Hi.
  destruct (child (memory s) i p) as [q|] eqn:Ec; [|done].
  assert (Hv : has (ld64 (memory s) (p + 8 * i)) PTE_V = true) by (unfold child in Ec; by destruct (has _ _)).
  destruct d as [|d].
  - destruct path as [|a [|b [|? ?]]]; simpl in Hl; try lia. apply Forall_cons in Hf as [Ha Hf].
    apply Forall_cons in Hf as [Hb _]. destruct (va_of_path a b i Ha Hb Hi) as (Ep & E0 & Hr & Hm).
    assert (Hno := Hnone _ Hr Hm ltac:(unfold below; lia)). unfold upte, pte_at, pte_addr in Hno.
    rewrite Ep, E0, Hn in Hno. congruence.
  - split; [apply (Hint path i p); try done; lia|].
    apply (IH (path ++ [i]) q); try done; [rewrite length_app; simpl; lia| |].
    + apply Forall_app. split; [done|by apply Forall_singleton].
    + by rewrite pt_node_snoc, Hn.
Qed.

Lemma subtree_table s root p : p ∈ subtree (memory s) 3 root ↔ table_page (memory s) root p.
Proof.
  rewrite subtree_elem. unfold table_page, is_path.
  split; [intros (ext & ? & ? & ?)|intros (ext & [? ?] & ?)]; exists ext; repeat split; done || lia.
Qed.

Lemma freewalk_unmapped s root free :
  vspace s root (below 0) free → nothing_but (below 0) s root →
  wp (freewalk 3 root) (fun _ s' => ∃ free', free_pages s' free' ∧
    (∀ p, p ∈ free' ↔ p ∈ free ∨ table_page (memory s) root p) ∧
    changes (subtree (memory s) 3 root) s s') s.
Proof.
  intros H Hnone. pose proof (vs_pt _ _ _ _ H) as Hok.
  eapply wp_mono; [apply (freewalk_spec 3 root s free)|].
  - by apply (unmapped_no_leaves s root free 3 []); [| apply H | | | | apply Forall_nil | ].
  - apply H.
  - apply NoDup_app. split; [|split].
    + apply subtree_NoDup. intros ext ext' q Hf Hf' Hl Hl' Hn Hn'.
      apply (pt_inj _ _ _ Hok ext ext' q); try done; (split; [done|lia]).
    + intros p Hp. apply subtree_table in Hp. by apply (table_page_ok _ _ _ _ Hok Hp).
    + apply (vs_free _ _ _ _ H).
  - cbv beta. intros _ s' [Hf Hc]. exists (rev (subtree (memory s) 3 root) ++ free). split; [done|]. split; [|done].
    intros p. rewrite elem_of_app, list_elem_of_In, <- in_rev, <- list_elem_of_In, subtree_table. tauto.
Qed.

Definition npages (sz : Z) : Z := (sz + PGSIZE - 1) / PGSIZE.

Lemma pages_of_elem s root a k p : 0 ≤ k →
  p ∈ rev (pages_of s root a (Z.to_nat k)) ↔ ∃ i, a ≤ i < a + k ∧ p = upage s root i.
Proof.
  intros Hk. rewrite list_elem_of_In, <- in_rev, <- list_elem_of_In. unfold pages_of. rewrite list_elem_of_fmap.
  setoid_rewrite elem_of_seqZ. split; intros (i & H1 & H2); exists i; (split; [|]); done || lia.
Qed.

(** The first pages unmapped and freed. *)
Lemma unmap_below s root free n :
  vspace s root (below n) free → nothing_but (below n) s root → 0 ≤ n → n * PGSIZE ≤ MAXVA →
  wp (uvmunmap root 0 n true) (fun _ s' => ∃ free', vspace s' root (below 0) free' ∧ nothing_but (below 0) s' root ∧
    (∀ p, table_page (memory s') root p ↔ table_page (memory s) root p) ∧
    (∀ p, p ∈ free' ↔ p ∈ free ∨ ∃ i, below n i ∧ p = upage s root i) ∧
    (∀ q, page_ok q → (q ∉ free') → ¬ table_page (memory s) root q → same_page q s s')) s.
Proof.
  intros H Hnb Hn Hmax. eapply wp_mono; [apply (uvmunmap_spec s root (below n) free 0 n H); try done; unfold below; lia|].
  cbv beta. intros _ s' [H' U]. rewrite Z.add_0_l in *.
  assert (Hin : ∀ p, p ∈ rev (pages_of s root 0 (Z.to_nat n)) ++ free ↔ p ∈ free ∨ ∃ i, below n i ∧ p = upage s root i).
  { intros p. rewrite elem_of_app, pages_of_elem by done. rewrite Z.add_0_l. unfold below. tauto. }
  eexists. split; [eapply vspace_ext, H'; unfold below; lia|]. split; [|split; [apply U|split; [exact Hin|]]].
  - intros i Hi Him _. destruct (decide (below n i)) as [Hb|Hb].
    + unfold upte. destruct (upte_sv39 i Hi Him) as [? Hd]. rewrite (um_pte _ _ _ _ _ U) by done. rewrite Hd.
      by rewrite decide_True.
    + rewrite (unmaps_upte s root 0 n s') by done. by apply Hnb.
  - intros q Hq Hnin Hnt. apply (um_same _ _ _ _ _ U q Hq Hnt). intros i Hi ->. apply Hnin, Hin. right. by exists i.
Qed.

(** All that the space owns has been given back, and nothing else has been
    touched. *)
Record released (s : kmem) (root n : Z) (free : list Z) (s' : kmem) (free' : list Z) : Prop := {
  rl_free : free_pages s' free';
  rl_all p : p ∈ free' ↔ p ∈ free ∨ (∃ i, below n i ∧ p = upage s root i) ∨ table_page (memory s) root p;
  rl_same q : page_ok q → (q ∉ free') → same_page q s s' }.

Lemma uvmfree_spec s root sz free :
  0 ≤ sz ≤ MAXVA → vspace s root (below (npages sz)) free → nothing_but (below (npages sz)) s root →
  wp (uvmfree root sz) (fun _ s' => ∃ free', released s root (npages sz) free s' free') s.
Proof.
  intros Hsz H Hnb. assert (Hn : 0 ≤ npages sz ∧ npages sz * PGSIZE ≤ MAXVA).
  { rewrite MAXVA_eq in *. unfold npages, PGSIZE. zdm. }
  unfold uvmfree. apply wp_bind. destruct (Z.ltb_spec 0 sz) as [Hpos|Hz].
  - replace (PGROUNDUP sz / PGSIZE) with (npages sz).
    2: { rewrite MAXVA_eq in Hsz. rewrite PGROUNDUP_eq by (unfold PGSIZE; lia). by rewrite Z.div_mul. }
    eapply wp_mono; [apply (unmap_below s root free (npages sz) H Hnb); lia|].
    cbv beta. intros _ s1 (f1 & H1 & Hnb1 & Ht & Hf1 & Hs1).
    eapply wp_mono; [apply (freewalk_unmapped s1 root f1 H1 Hnb1)|].
    cbv beta. intros _ s2 (f2 & Hf & Hf2 & Hc). exists f2.
    assert (Hall : ∀ p, p ∈ f2 ↔ p ∈ free ∨ (∃ i, below (npages sz) i ∧ p = upage s root i) ∨ table_page (memory s) root p).
    { intros p. rewrite Hf2, Hf1, Ht. tauto. }
    split; [done|done|]. intros q Hq Hnin b Hb. rewrite <- (Hs1 q Hq); [| | |done].
    + apply (changes_page _ s1 s2 q b Hc); try done.
      * intros r Hr%subtree_table. by apply (table_page_ok _ _ _ _ (vs_pt _ _ _ _ H1) Hr).
      * intros Hr%subtree_table. apply Hnin, Hf2. by right.
    + intros Hx. apply Hnin, Hf2. by left.
    + intros Hx. apply Hnin, Hf2. right. by apply Ht.
  - apply wp_ret. assert (sz = 0) as -> by lia. change (npages 0) with 0 in *.
    eapply wp_mono; [apply (freewalk_unmapped s root free H Hnb)|].
    cbv beta. intros _ s2 (f2 & Hf & Hf2 & Hc). exists f2. split; [done| |].
    + intros p. rewrite Hf2. split; [tauto|]. intros [?|[(i & Hi & _)|?]]; [tauto|unfold below in Hi; lia|tauto].
    + intros q Hq Hnin b Hb. apply (changes_page _ s s2 q b Hc); try done.
      * intros r Hr%subtree_table. by apply (table_page_ok _ _ _ _ (vs_pt _ _ _ _ H) Hr).
      * intros Hr%subtree_table. apply Hnin, Hf2. by right.
Qed.
End vmfree.
