(* ===== verification/VmKernel.v ===== *)
(** * The page table of the kernel (kernel/vm.c: kvmmake, kvmmap; proc_mapstacks of kernel/proc.c)

    kvmmake maps the devices, the kernel and the RAM at their physical
    addresses, the trampoline and the stacks of the processes at the top.
    [kvmmake_maps] gives the table entry of every virtual address.  It needs no
    more than [kernel_tables] pages for the table: [ktab] counts them, by the
    routes that lead to the mapped addresses. *)

From stdpp Require Import functions.
From S2P Require Import Prelude Mem Riscv Kalloc Vm PageTable VmMap VmSpace.

Section kernel.
Context {KI : KernelImage}.

(** ** Counting the pages of a table *)

(** The table has pages only on the routes [B]; [nodes] are its pages. *)
Record ktab (root : Z) (B : list (list Z)) (s : kmem) (free nodes : list Z) : Prop := {
  kt_free : free_pages s free;
  kt_pt : pt_ok (memory s) root free;
  kt_int : interior_ok (memory s) root;
  kt_route path p : is_path path → pt_node (memory s) root path = Some p → path ∈ B;
  kt_nodup : NoDup nodes;
  kt_nodes p : p ∈ nodes ↔ table_page (memory s) root p }.

Lemma length_omap_le {A C} (f : A → option C) l : (length (omap f l) ≤ length l)%nat.
Proof. induction l as [|x l IH]; cbn; [lia|]. destruct (f x); simpl; lia. Qed.

Lemma nodes_bound root B s free nodes : ktab root B s free nodes → (length nodes ≤ length B)%nat.
Proof.
  intros K. transitivity (length (omap (pt_node (memory s) root) B)); [|apply length_omap_le].
  apply submseteq_length, NoDup_submseteq; [apply K|]. intros p Hp.
  apply (kt_nodes _ _ _ _ _ K) in Hp as (path & Hpath & Hn). apply list_elem_of_omap.
  exists path. split; [|done]. by apply (kt_route _ _ _ _ _ K path p).
Qed.

(** Pages that the table takes go from the free list to its pages. *)
Lemma ktab_grow root B s free nodes s' free' (V : Z → Prop) :
  ktab root B s free nodes → evolves root s free s' free' → grows (memory s) (memory s') root V →
  (∀ va, V va → [PX 2 va] ∈ B ∧ va_path va ∈ B) →
  ∃ nodes', ktab root B s' free' nodes' ∧ (length free' + length nodes' = length free + length nodes)%nat ∧
    ∀ p, p ∈ nodes' → p ∈ nodes ∨ p ∈ free.
Proof.
  intros K He Hg HV. destruct (ev_used _ _ _ _ _ He) as [used Eu]. exists (used ++ nodes).
  assert (Hnd : NoDup (used ++ free')) by (rewrite <- Eu; apply K). apply NoDup_app in Hnd as (Hu & Hd & _).
  split; [|split].
  - split.
    + apply He.
    + apply He.
    + apply He, K.
    + intros path p Hp Hn. destruct (Hg path p Hp Hn) as [?|(va & Hva & [ -> | -> ])]; [by apply (kt_route _ _ _ _ _ K path p)|..];
        by apply HV.
    + apply NoDup_app. split; [done|]. split; [|apply K]. intros p Hp Hpn. apply (kt_nodes _ _ _ _ _ K) in Hpn as (path & Hpath & Hn).
      destruct (pt_page _ _ _ (kt_pt _ _ _ _ _ K) path p Hpath Hn) as [_ []]. rewrite Eu. apply elem_of_app. by left.
    + intros p. rewrite elem_of_app, (kt_nodes _ _ _ _ _ K). split.
      * intros [Hp|(path & Hpath & Hn)]; [|exists path; split; [done|by apply (ev_mono _ _ _ _ _ He)]].
        destruct (ev_all _ _ _ _ _ He p) as [Hf|?]; [rewrite Eu; apply elem_of_app; by left| |done]. by destruct (Hd p).
      * intros (path & Hpath & Hn). destruct (ev_new _ _ _ _ _ He path p Hpath Hn) as [?|Hin]; [right; by exists path|].
        rewrite Eu in Hin. apply elem_of_app in Hin as [?|Hf]; [by left|].
        by destruct (pt_page _ _ _ (ev_ok _ _ _ _ _ He) path p Hpath Hn) as [_ []].
  - rewrite Eu, !length_app. lia.
  - intros p [?|?]%elem_of_app; [|by left]. right. rewrite Eu. apply elem_of_app. by left.
Qed.

(** A page is allocated for something else. *)
Lemma ktab_kalloc root B s q free nodes s' :
  ktab root B s (q :: free) nodes → page_ok q → free_pages s' free → only_page q s s' →
  ktab root B s' free nodes ∧ ∀ va, pte_at (memory s') root va = pte_at (memory s) root va.
Proof.
  intros K Hq Hf Ho. pose proof (kt_pt _ _ _ _ _ K) as Hok.
  assert (Hs : ∀ p, table_page (memory s) root p → same_page p s s').
  { intros p Hp. destruct (table_page_ok _ _ _ _ Hok Hp) as [? Hn]. apply (only_same_page q p s s'); try done.
    intros ->. apply Hn, list_elem_of_here. }
  split; [|by apply (frame_pte s s' root (q :: free))]. split.
  - done.
  - eapply frame_pt_ok; [exact Hok|done|]. intros p Hp. left. by apply list_elem_of_further.
  - eapply frame_interior; [exact Hok|done|apply K].
  - intros path p Hp. rewrite (frame_node s s' root (q :: free)) by done. by apply (kt_route _ _ _ _ _ K).
  - apply K.
  - intros p. rewrite (kt_nodes _ _ _ _ _ K). symmetry. by apply (frame_table s s' root (q :: free)).
Qed.

(** ** kvmmap *)

Lemma kvmmap_spec root B s free nodes va pa sz perm :
  ktab root B s free nodes → va mod PGSIZE = 0 → sz mod PGSIZE = 0 → 0 ≤ va → 0 < sz → va + sz ≤ MAXVA →
  pa mod PGSIZE = 0 → 0 ≤ pa → pa + sz + PGSIZE < 2 ^ 56 → 0 ≤ perm < 2 ^ 10 →
  (∀ v, va ≤ v < va + sz → has (pte_at (memory s) root v) PTE_V = false) →
  (∀ v, va ≤ v < va + sz → [PX 2 v] ∈ B ∧ va_path v ∈ B) →
  (length B < length free + length nodes)%nat →
  wp (kvmmap root va pa sz perm) (fun _ s' => ∃ free' nodes',
    ktab root B s' free' nodes' ∧ (length free' + length nodes' = length free + length nodes)%nat ∧
    maps_range (memory s) (memory s') root va (va + sz) pa perm ∧
    (∀ p, p ∈ nodes' → p ∈ nodes ∨ p ∈ free) ∧ ∃ used, free = used ++ free') s.
Proof.
  intros K Hva Hsz Hva0 Hsz0 Hmax Hpa Hpa0 Hpm Hperm Hun HB Hlen. unfold kvmmap.
  assert (E1 : va / PGSIZE * PGSIZE = va) by (unfold PGSIZE in *; zdm).
  assert (E2 : (va + sz - 1) / PGSIZE * PGSIZE = va + sz - PGSIZE) by (unfold PGSIZE in *; zdm).
  apply wp_bind. eapply wp_mono.
  { apply (mappages_wp root va sz pa perm s free); try done; [apply K|apply K|]. rewrite E1, E2. intros v Hv. apply Hun. lia. }
  cbv beta. rewrite E1, E2. intros r s' (free' & b & He & Hg & Hb & Hm & Hend).
  destruct (ktab_grow root B s free nodes s' free' _ K He Hg) as (nodes' & K' & Hl & Hn).
  { intros v Hv. apply HB. unfold PGSIZE in *. lia. }
  destruct Hend as [[-> ->]|(-> & -> & _)].
  - cbn [Z.eqb negb]. apply wp_ret. exists free', nodes'. replace (va + sz - PGSIZE + PGSIZE) with (va + sz) in Hm by lia.
    split; [done|]. split; [done|]. split; [done|]. split; [done|]. apply He.
  - pose proof (nodes_bound _ _ _ _ _ K'). simpl in Hl. lia.
Qed.

(** ** The routes of the kernel's addresses *)

Definition kernel_routes : list (list Z) :=
  [] :: [0] :: [2] :: [255] :: [0; 96] :: [0; 97] :: [0; 128] :: [255; 511] :: map (fun j => [2; j]) (seqZ 0 64).
(** The pages for these tables. *)
Definition kernel_tables : nat := 72.

Lemma length_kernel_routes : length kernel_routes = kernel_tables.
Proof. reflexivity. Qed.

Lemma va_route va a b :
  0 ≤ va → va / (4096 * 512 * 512) = a → a < 512 → va / (4096 * 512) mod 512 = b → va_path va = [a; b] ∧ PX 2 va = a.
Proof.
  intros H0 Ha Ha5 Hb. unfold va_path. rewrite !PX_eq by lia.
  change (2 ^ (12 + 9 * 2)) with (4096 * 512 * 512). change (2 ^ (12 + 9 * 1)) with (4096 * 512).
  rewrite Hb, Ha. rewrite (Z.mod_small a) by zdm. done.
Qed.

(** The addresses of the devices, of RAM, and of the top of memory. *)
Definition kernel_va (va : Z) : Prop :=
  PLIC ≤ va < PLIC + 0x400000 ∨ UART0 ≤ va < VIRTIO0 + PGSIZE ∨ KERNBASE ≤ va < PHYSTOP ∨
  TRAMPOLINE - 128 * PGSIZE ≤ va < MAXVA.

Lemma kernel_va_route va : kernel_va va → [PX 2 va] ∈ kernel_routes ∧ va_path va ∈ kernel_routes.
Proof.
  assert (HR : ∀ a b, va_path va = [a; b] ∧ PX 2 va = a → [a] ∈ kernel_routes → [a; b] ∈ kernel_routes →
    [PX 2 va] ∈ kernel_routes ∧ va_path va ∈ kernel_routes) by (intros a b [-> ->]; done).
  unfold kernel_va, PLIC, UART0, VIRTIO0, PHYSTOP, TRAMPOLINE, PGSIZE. rewrite MAXVA_eq. unfold KERNBASE.
  intros [H|[H|[H|H]]].
  - assert (va / (4096 * 512) = 96 ∨ va / (4096 * 512) = 97) as [E|E] by zdm.
    + apply (HR 0 96); [apply va_route; [lia|zdm|lia|by rewrite E]|unfold kernel_routes; in_list..].
    + apply (HR 0 97); [apply va_route; [lia|zdm|lia|by rewrite E]|unfold kernel_routes; in_list..].
  - apply (HR 0 128); [apply va_route; [lia|zdm|lia|zdm]|unfold kernel_routes; in_list..].
  - apply (HR 2 (va / (4096 * 512) mod 512)); [apply va_route; [lia|zdm|lia|done]|unfold kernel_routes; in_list|].
    unfold kernel_routes. do 8 apply list_elem_of_further. apply list_elem_of_fmap.
    exists (va / (4096 * 512) mod 512). split; [done|]. apply elem_of_seqZ. zdm.
  - apply (HR 255 511); [apply va_route; [lia|zdm|lia|zdm]|unfold kernel_routes; in_list..].
Qed.

(** ** The map *)

Definition RW : Z := Z.lor PTE_R PTE_W.
Definition RX : Z := Z.lor PTE_R PTE_X.

(** The ranges that are mapped before the stacks, each with its physical
    address and its permissions. *)
Definition kernel_ranges : list (Z * Z * Z * Z) :=
  [(UART0, PGSIZE, UART0, RW); (VIRTIO0, PGSIZE, VIRTIO0, RW); (PLIC, 0x400000, PLIC, RW);
   (KERNBASE, etext - KERNBASE, KERNBASE, RX); (etext, PHYSTOP - etext, etext, RW); (TRAMPOLINE, PGSIZE, trampoline, RX)].

(** The entry that the ranges [l], the last one first, give to an address. *)
Fixpoint range_pte (l : list (Z * Z * Z * Z)) (va : Z) : Z :=
  match l with
  | [] => 0
  | (a, sz, pa, perm) :: l' => if decide (a ≤ va < a + sz) then mapped_pte a pa perm va else range_pte l' va
  end.

(** Process [p]'s stack is the page with the odd number [2 * p + 1] below the
    trampoline; the pages with even numbers guard the stacks. *)
Definition page_below (va : Z) : Z := (TRAMPOLINE - 1 - va) / PGSIZE.
Definition on_stack (n va : Z) : Prop := va < TRAMPOLINE ∧ page_below va mod 2 = 1 ∧ page_below va / 2 < n.
#[export] Instance on_stack_dec n va : Decision (on_stack n va) := _.

Definition kernel_pte (stack : Z → Z) (va : Z) : Z :=
  if decide (on_stack NPROC va) then mapped_pte (va / PGSIZE * PGSIZE) (stack (page_below va / 2)) RW va
  else range_pte (rev kernel_ranges) va.

Lemma range_pte_none l va :
  (∀ a sz pa perm, (a, sz, pa, perm) ∈ l → ¬ (a ≤ va < a + sz)) → range_pte l va = 0.
Proof.
  induction l as [|[[[a sz] pa] perm] l IH]; intros H; [done|]. cbn [range_pte].
  rewrite decide_False by (apply (H a sz pa perm), list_elem_of_here). apply IH. intros. eapply H, list_elem_of_further. done.
Qed.

Lemma KSTACK_page p va :
  0 ≤ p < NPROC → (KSTACK p ≤ va < KSTACK p + PGSIZE ↔ va < TRAMPOLINE ∧ page_below va = 2 * p + 1).
Proof. intros Hp. unfold KSTACK, page_below, PGSIZE. zdm. Qed.

Lemma on_stack_step n va :
  0 ≤ n < NPROC → on_stack (n + 1) va ↔ on_stack n va ∨ KSTACK n ≤ va < KSTACK n + PGSIZE.
Proof.
  intros Hn. rewrite (KSTACK_page n va Hn). unfold on_stack.
  zdm.
Qed.

(** The stacks. *)
Definition stack_pte (stack : Z → Z) (n va : Z) : Z :=
  if decide (on_stack n va) then mapped_pte (va / PGSIZE * PGSIZE) (stack (page_below va / 2)) RW va
  else range_pte (rev kernel_ranges) va.

Lemma ranges_below_stacks va : TRAMPOLINE - 129 * PGSIZE ≤ va < TRAMPOLINE → range_pte (rev kernel_ranges) va = 0.
Proof.
  intros Hva. apply range_pte_none. intros a sz pa perm Hin. pose proof etext_ok. pose proof end_ok.
  unfold TRAMPOLINE, PGSIZE in Hva. rewrite MAXVA_eq in Hva.
  cbn [rev kernel_ranges app] in Hin.
  repeat (apply elem_of_cons in Hin as [[= -> -> -> ->]|Hin]); try (by apply elem_of_nil in Hin);
    unfold TRAMPOLINE, UART0, VIRTIO0, PLIC, PHYSTOP, KERNBASE, PGSIZE in *; rewrite ?MAXVA_eq; unfold KERNBASE in *; lia.
Qed.

Lemma stack_pte_unmapped stack n va : 0 ≤ n < NPROC → KSTACK n ≤ va < KSTACK n + PGSIZE → stack_pte stack n va = 0.
Proof.
  intros Hn Hva. pose proof (proj1 (KSTACK_page n va Hn) Hva) as [Hlt E]. unfold stack_pte. rewrite decide_False.
  - apply ranges_below_stacks. unfold KSTACK, NPROC, PGSIZE in *. lia.
  - intros (_ & _ & Hd). rewrite E in Hd. zdm.
Qed.

Lemma stack_pte_step stack n pa va :
  0 ≤ n < NPROC →
  (if decide (KSTACK n ≤ va < KSTACK n + PGSIZE) then mapped_pte (KSTACK n) pa RW va else stack_pte stack n va)
  = stack_pte (<[n := pa]> stack) (n + 1) va.
Proof.
  intros Hn. unfold stack_pte. pose proof (on_stack_step n va Hn) as Hst. case_decide as Hs.
  - rewrite decide_True by (apply Hst; by right). pose proof (proj1 (KSTACK_page n va Hn) Hs) as [_ E].
    replace (page_below va / 2) with n by (rewrite E; zdm). rewrite fn_lookup_insert.
    replace (va / PGSIZE * PGSIZE) with (KSTACK n); [done|]. unfold KSTACK, TRAMPOLINE, PGSIZE in *. rewrite MAXVA_eq in *. zdm.
  - destruct (decide (on_stack n va)) as [Ho|Ho].
    + rewrite decide_True by (apply Hst; by left). rewrite fn_lookup_insert_ne; [done|]. destruct Ho as (_ & _ & ?). lia.
    + rewrite decide_False; [done|]. rewrite Hst. tauto.
Qed.

(** ** Building the map *)

Section build.
Context (root : Z) (F0 : list Z) (Hroom : (kernel_tables + Z.to_nat NPROC < length F0)%nat).

(** The table has the entries [f]; of the pages [F0], [stacks] are in use for
    stacks, and the rest is free or in the table. *)
Record kbuild (f : Z → Z) (s : kmem) (free nodes stacks : list Z) : Prop := {
  kb_tab : ktab root kernel_routes s free nodes;
  kb_pte va : 0 ≤ va < SV39 → pte_at (memory s) root va = f va;
  kb_len : (length free + length nodes + length stacks = length F0)%nat;
  kb_stacks : NoDup stacks ∧ ∀ p, p ∈ stacks → page_ok p ∧ p ∈ F0 ∧ (p ∉ free) ∧ p ∉ nodes;
  kb_from p : p ∈ free ∨ p ∈ nodes → p ∈ F0 }.

Lemma kbuild_map f s free nodes stacks a sz pa perm :
  kbuild f s free nodes stacks → (length stacks ≤ Z.to_nat NPROC)%nat →
  a mod PGSIZE = 0 → sz mod PGSIZE = 0 → 0 ≤ a → 0 < sz → a + sz ≤ MAXVA →
  pa mod PGSIZE = 0 → 0 ≤ pa → pa + sz + PGSIZE < 2 ^ 56 → 0 ≤ perm < 2 ^ 10 →
  (∀ va, a ≤ va < a + sz → f va = 0 ∧ kernel_va va) →
  wp (kvmmap root a pa sz perm) (fun _ s' => ∃ free' nodes',
    kbuild (fun va => if decide (a ≤ va < a + sz) then mapped_pte a pa perm va else f va) s' free' nodes' stacks) s.
Proof.
  intros [K1 K2 K3 [K4 K5] K6] Hs Ha Hsz Ha0 Hsz0 Hmax Hpa Hpa0 Hpm Hperm Hf.
  eapply wp_mono.
  { apply (kvmmap_spec root kernel_routes s free nodes a pa sz perm K1); try done.
    - intros v Hv. rewrite K2 by (pose proof (MAXVA_SV39 v); lia). by rewrite (proj1 (Hf v Hv)).
    - intros v Hv. by apply kernel_va_route, Hf.
    - rewrite length_kernel_routes. lia. }
  cbv beta. intros _ s' (free' & nodes' & K' & Hl & Hm & Hn & used & Eu). exists free', nodes'. split.
  - done.
  - intros va Hva. rewrite Hm by done. case_decide; [done|]. by apply K2.
  - lia.
  - split; [done|]. intros p Hp. destruct (K5 p Hp) as (? & ? & Hpf & Hpn). split; [done|]. split; [done|]. split.
    + intros Hx. apply Hpf. rewrite Eu. apply elem_of_app. by right.
    + intros [?|?]%Hn; done.
  - intros p [Hp|Hp]; apply K6; [left; rewrite Eu; apply elem_of_app; by right|]. apply Hn in Hp as [?|?]; auto.
Qed.

Lemma kbuild_ext f g s free nodes stacks :
  (∀ va, 0 ≤ va < SV39 → f va = g va) → kbuild f s free nodes stacks → kbuild g s free nodes stacks.
Proof. intros E [K1 K2 K3 K4 K5]. split; try done. intros va Hva. by rewrite K2, E. Qed.

Lemma kbuild_perm f s free nodes stacks stacks' :
  stacks ≡ₚ stacks' → kbuild f s free nodes stacks → kbuild f s free nodes stacks'.
Proof.
  intros E [K1 K2 K3 [K4 K5] K6]. split; try done; [by rewrite <- E|]. split; [by rewrite <- E|].
  intros p. rewrite <- E. apply K5.
Qed.

Lemma proc_mapstacks_loop_spec n : ∀ stack s free nodes stacks,
  let p := NPROC - Z.of_nat n in
  (n ≤ Z.to_nat NPROC)%nat → kbuild (stack_pte stack p) s free nodes stacks →
  stacks = map stack (seqZ 0 p) →
  wp (proc_mapstacks_loop n root) (fun _ s' => ∃ stack' free' nodes',
    kbuild (stack_pte stack' NPROC) s' free' nodes' (map stack' (seqZ 0 NPROC))) s.
Proof.
  induction n as [|n IH]; intros stack s free nodes stacks p Hn K Hst; cbn [proc_mapstacks_loop].
  { apply wp_ret. exists stack, free, nodes. subst stacks. by replace p with NPROC in K by lia. }
  fold p. assert (Hp : 0 ≤ p < NPROC) by (unfold NPROC in *; lia).
  assert (Hlen : (length stacks = Z.to_nat p)%nat) by (rewrite Hst, length_map, length_seqZ; lia).
  pose proof (nodes_bound _ _ _ _ _ (kb_tab _ _ _ _ _ K)) as Hb. rewrite length_kernel_routes in Hb.
  pose proof (kb_len _ _ _ _ _ K) as Hl. destruct K as [K1 K2 K3 [K4 K5] K6].
  apply wp_bind. eapply wp_mono; [apply kalloc_cases, K1|]. cbv beta.
  intros pa s1 [(-> & -> & ->)|(free1 & -> & Hpa0 & Hpa & Hf1 & Ho1 & _)].
  { exfalso. unfold NPROC in *. simpl in Hl. lia. }
  rewrite (proj2 (Z.eqb_neq pa 0)) by done.
  destruct (ktab_kalloc _ _ _ _ _ _ _ K1 Hpa Hf1 Ho1) as [T1 Hpte].
  assert (Hpan : pa ∉ nodes).
  { intros Hx. apply (kt_nodes _ _ _ _ _ K1) in Hx. destruct (table_page_ok _ _ _ _ (kt_pt _ _ _ _ _ K1) Hx) as [_ []].
    apply list_elem_of_here. }
  assert (NoDup (pa :: free1)) as [Hpaf _]%NoDup_cons by apply K1.
  assert (B1 : kbuild (stack_pte stack p) s1 free1 nodes (pa :: stacks)).
  { split; [done| | | |].
    - intros va Hva. rewrite Hpte. auto.
    - simpl in *. lia.
    - split; [apply NoDup_cons; split; [|done]; intros Hx; destruct (K5 pa Hx) as (_ & _ & Hx' & _); apply Hx', list_elem_of_here|].
      intros q [ -> |Hq]%elem_of_cons; [split; [done|]; split; [apply K6; left; apply list_elem_of_here|done]|].
      destruct (K5 q Hq) as (? & ? & Hx & ?). split; [done|]. split; [done|]. split; [|done]. intros ?. by apply Hx, list_elem_of_further.
    - intros q [?|?]; apply K6; [left; by apply list_elem_of_further|by right]. }
  assert (Hks : KSTACK p mod PGSIZE = 0 ∧ 0 ≤ KSTACK p ∧ KSTACK p + PGSIZE ≤ MAXVA ∧ TRAMPOLINE - 128 * PGSIZE ≤ KSTACK p).
  { unfold KSTACK, TRAMPOLINE, NPROC, PGSIZE in *. rewrite MAXVA_eq. zdm. }
  pose proof (page_ok_bounds pa Hpa).
  apply wp_bind. eapply wp_mono; [apply (kbuild_map _ s1 free1 nodes (pa :: stacks) (KSTACK p) PGSIZE pa RW B1)|].
  all: try done; try lia; try apply Hks.
  { simpl. unfold NPROC in *. lia. }
  { unfold PHYSTOP, KERNBASE, PGSIZE in *. destruct Hpa as [_ Hpa]. unfold PHYSTOP, KERNBASE in Hpa. lia. }
  { intros va Hva. split; [by apply stack_pte_unmapped|]. unfold kernel_va. lia. }
  cbv beta. intros _ s2 (free2 & nodes2 & B2).
  apply (IH (<[p := pa]> stack) s2 free2 nodes2 (map (<[p := pa]> stack) (seqZ 0 (NPROC - Z.of_nat n)))); [lia| |done].
  replace (NPROC - Z.of_nat n) with (p + 1) by lia.
  eapply kbuild_perm, kbuild_ext, B2.
  - rewrite (seqZ_app 0 p 1) by lia. rewrite map_app. cbn [map seqZ]. change (seqZ (0 + p) 1) with [0 + p].
    cbn [map]. rewrite Z.add_0_l, fn_lookup_insert, Hst.
    rewrite (map_ext_in (<[p := pa]> stack) stack); [solve_Permutation|].
    intros j Hj%list_elem_of_In%elem_of_seqZ. rewrite fn_lookup_insert_ne; [done|lia].
  - intros va _. by apply stack_pte_step.
Qed.
End build.

(** An empty table. *)
Lemma kbuild_start s root free s1 :
  free_pages s (root :: free) → page_ok root → free_pages s1 free → only_page root s s1 →
  kbuild root (root :: free) (range_pte []) (set_memory (fill (memory s1) root 0 PGSIZE) s1) free [root] [].
Proof.
  intros Hf Hr Hf1 Ho. set (s2 := set_memory _ s1).
  assert (NoDup (root :: free)) as [Hnin _]%NoDup_cons by apply Hf.
  assert (Hz : ∀ b, root ≤ b < root + PGSIZE → ld8 (memory s2) b = 0) by (intros b Hb; apply ld8_fill_in; lia).
  destruct (pt_ok_empty (memory s2) root free Hr Hnin Hz) as [Hok Hpte].
  assert (Hn : ∀ path p, is_path path → pt_node (memory s2) root path = Some p → path = [] ∧ p = root).
  { intros path p Hp Hn. destruct (decide (path = [])) as [->|Hne]; [by injection Hn|]. by rewrite pt_node_empty in Hn. }
  split.
  - split; [|done|by apply interior_empty| |apply NoDup_singleton|].
    + apply free_pages_frame; [|done]. intros q b Hq Hb. assert (q ≠ root) as Hqr by (by intros ->).
      destruct (page_ok_disjoint q root (free_pages_ok _ _ _ Hf1 Hq) Hr Hqr); apply ld8_fill_out; lia.
    + intros path p Hp Hpn. destruct (Hn path p Hp Hpn) as [-> _]. apply list_elem_of_here.
    + intros p. rewrite list_elem_of_singleton. split; [|intros (path & Hp & Hpn); by destruct (Hn path p Hp Hpn)].
      intros ->. exists []. split; [|done]. split; [by apply Forall_nil|simpl; lia].
  - intros va _. apply Hpte.
  - simpl. lia.
  - split; [apply NoDup_nil_2|]. by intros p ?%elem_of_nil.
  - intros p [?|?%list_elem_of_singleton]; [by apply list_elem_of_further|subst; apply list_elem_of_here].
Qed.

(** One range of the map. *)
Lemma kbuild_range root F0 s free nodes l a sz pa perm :
  (kernel_tables + Z.to_nat NPROC < length F0)%nat → kbuild root F0 (range_pte l) s free nodes [] →
  a mod PGSIZE = 0 → sz mod PGSIZE = 0 → 0 ≤ a → 0 < sz → a + sz ≤ MAXVA →
  pa mod PGSIZE = 0 → 0 ≤ pa → pa + sz + PGSIZE < 2 ^ 56 → 0 ≤ perm < 2 ^ 10 →
  (∀ va, a ≤ va < a + sz → kernel_va va) →
  (∀ b n q r, (b, n, q, r) ∈ l → a + sz ≤ b ∨ b + n ≤ a) →
  wp (kvmmap root a pa sz perm) (fun _ s' => ∃ free' nodes',
    kbuild root F0 (range_pte ((a, sz, pa, perm) :: l)) s' free' nodes' []) s.
Proof.
  intros HF K Ha Hsz Ha0 Hsz0 Hmax Hpa Hpa0 Hpm Hperm Hk Hd.
  apply (kbuild_map root F0 HF (range_pte l) s free nodes []); try done; [simpl; lia|].
  intros va Hva. split; [|auto]. apply range_pte_none. intros b n q r Hin. destruct (Hd b n q r Hin); lia.
Qed.

Lemma flags_has v flags f : 0 ≤ f < 2 ^ 10 → PTE_FLAGS v = flags → has v f = has flags f.
Proof.
  intros Hf <-. unfold has, PTE_FLAGS. do 2 f_equal. change 0x3FF with (Z.ones 10).
  rewrite <- Z.land_assoc, (Z.land_comm (Z.ones 10)), Z.land_ones by lia. by rewrite Z.mod_small.
Qed.

Lemma mapped_flags a pa perm va :
  (pa + (va / PGSIZE * PGSIZE - a)) mod PGSIZE = 0 → 0 ≤ pa + (va / PGSIZE * PGSIZE - a) < 2 ^ 56 → 0 ≤ perm < 2 ^ 10 →
  PTE_FLAGS (mapped_pte a pa perm va) = Z.lor perm PTE_V.
Proof.
  intros H1 H2 H3. unfold mapped_pte. rewrite <- Z.lor_assoc. apply PTE_FLAGS_pte; try done.
  apply (lor_range 10 perm PTE_V); done || lia.
Qed.

(** Discharges the conditions of [kbuild_range] for one range. *)
Ltac range_ok :=
  pose proof etext_ok as (? & ?); pose proof end_ok; pose proof trampoline_ok as (? & ? & ?);
  unfold kernel_va, TRAMPOLINE, PLIC, UART0, VIRTIO0, PHYSTOP, KERNBASE, RW, RX, PGSIZE in *;
  unfold PGSIZE, KERNBASE in *; rewrite ?MAXVA_eq in *;
  first [done | zdm
        | let H := fresh in intros ? ? ? ? H;
          repeat (apply elem_of_cons in H as [[= -> -> -> ->]|H]); [zdm..|by apply elem_of_nil in H]].

Lemma kvmmake_spec s free :
  free_pages s free → (kernel_tables + Z.to_nat NPROC < length free)%nat →
  wp kvmmake (fun kpt s' => ∃ stack free' nodes',
    kbuild kpt free (kernel_pte stack) s' free' nodes' (map stack (seqZ 0 NPROC))) s.
Proof.
  intros Hf Hlen. unfold kvmmake. apply wp_bind. eapply wp_mono; [by apply kalloc_cases|].
  cbv beta. intros root s1 [(_ & -> & _)|(free1 & -> & _ & Hr & Hf1 & Ho & _)]; [simpl in Hlen; lia|].
  apply wp_bind, wp_modify. pose proof (kbuild_start s root free1 s1 Hf Hr Hf1 Ho) as K.
  revert K. generalize (set_memory (fill (memory s1) root 0 PGSIZE) s1). intros s2 K. set (F0 := root :: free1) in *. clearbody F0.
  apply wp_bind. eapply wp_mono; [apply (kbuild_range root F0 s2 free1 [root] [] UART0 PGSIZE UART0 RW Hlen K); range_ok|].
  cbv beta. clear dependent s2. intros _ s2 (f2 & n2 & K).
  apply wp_bind. eapply wp_mono; [apply (kbuild_range root F0 s2 f2 n2 _ VIRTIO0 PGSIZE VIRTIO0 RW Hlen K); range_ok|].
  cbv beta. clear dependent s2. intros _ s3 (f3 & n3 & K).
  apply wp_bind. eapply wp_mono; [apply (kbuild_range root F0 s3 f3 n3 _ PLIC 0x400000 PLIC RW Hlen K); range_ok|].
  cbv beta. clear dependent s3. intros _ s4 (f4 & n4 & K).
  apply wp_bind. eapply wp_mono; [apply (kbuild_range root F0 s4 f4 n4 _ KERNBASE (etext - KERNBASE) KERNBASE RX Hlen K); range_ok|].
  cbv beta. clear dependent s4. intros _ s5 (f5 & n5 & K).
  apply wp_bind. eapply wp_mono; [apply (kbuild_range root F0 s5 f5 n5 _ etext (PHYSTOP - etext) etext RW Hlen K); range_ok|].
  cbv beta. clear dependent s5. intros _ s6 (f6 & n6 & K).
  apply wp_bind. eapply wp_mono; [apply (kbuild_range root F0 s6 f6 n6 _ TRAMPOLINE PGSIZE trampoline RX Hlen K); range_ok|].
  cbv beta. clear dependent s6. intros _ s7 (f7 & n7 & K).
  apply wp_bind. eapply wp_mono.
  { apply (proc_mapstacks_loop_spec root F0 Hlen (Z.to_nat NPROC) (fun _ => 0) s7 f7 n7 []); [lia| |done].
    eapply kbuild_ext, K. intros va Hva. unfold stack_pte. rewrite decide_False; [done|].
    unfold on_stack, page_below, TRAMPOLINE, PGSIZE, NPROC. rewrite MAXVA_eq. zdm. }
  cbv beta. intros _ s8 (stack & f8 & n8 & K8). apply wp_ret. by exists stack, f8, n8.
Qed.
End kernel.

Lemma NoDup_map_inj {A C} (f : A → C) l x y : NoDup (map f l) → x ∈ l → y ∈ l → f x = f y → x = y.
Proof.
  induction l as [|z l IH]; intros Hn Hx Hy E; [by apply elem_of_nil in Hx|].
  apply NoDup_cons in Hn as [Hz Hn]. apply elem_of_cons in Hx as [->|Hx], Hy as [->|Hy]; [done|..|by apply IH].
  - destruct Hz. rewrite E. by apply list_elem_of_fmap_2.
  - destruct Hz. rewrite <- E. by apply list_elem_of_fmap_2.
Qed.

(** What the kernel's page table must be, when [pool] were the free pages. *)
Record kernel_map {KI : KernelImage} (pool : list Z) (kpt : Z) (s : kmem) (stack : Z → Z) (free : list Z) : Prop := {
  km_free : free_pages s free;
  km_pt : pt_ok (memory s) kpt free;
  km_int : interior_ok (memory s) kpt;
  km_pte va : 0 ≤ va < MAXVA → pte_at (memory s) kpt va = kernel_pte stack va;
  km_stack p : 0 ≤ p < NPROC → page_ok (stack p) ∧ stack p ∈ pool ∧ stack p ∉ free;
  km_inj p q : 0 ≤ p < NPROC → 0 ≤ q < NPROC → stack p = stack q → p = q }.

Lemma kbuild_kernel_map {KI : KernelImage} F kpt stack s free nodes :
  kbuild kpt F (kernel_pte stack) s free nodes (map stack (seqZ 0 NPROC)) → kernel_map F kpt s stack free.
Proof.
  intros [K1 K2 K3 [K4 K5] K6]. split; [apply K1|apply K1|apply K1| | |].
  - intros va Hva. apply K2. pose proof (MAXVA_SV39 va). lia.
  - intros p Hp. destruct (K5 (stack p)) as (? & ? & ? & _); [|done]. apply list_elem_of_fmap. exists p. split; [done|]. apply elem_of_seqZ. lia.
  - intros p q Hp Hq E. apply (NoDup_map_inj stack (seqZ 0 NPROC) p q K4); [apply elem_of_seqZ; lia..|done].
Qed.

(** Booting: when at least 137 pages of RAM follow the kernel, kinit and
    kvmmake after it run without a panic. *)
Lemma kvmmake_maps {KI : KernelImage} s :
  freelist s = 0 → PGROUNDUP end_ + (Z.of_nat kernel_tables + NPROC + 1) * PGSIZE ≤ PHYSTOP →
  wp (do! kinit; kvmmake) (fun kpt s' => ∃ stack free, kernel_map (rev all_pages) kpt s' stack free) s.
Proof.
  intros Hs Hroom. apply wp_bind. eapply wp_mono; [by apply kinit_spec|]. cbv beta. intros _ s1 Hf.
  eapply wp_mono; [apply (kvmmake_spec s1 _ Hf)|].
  - rewrite length_rev. unfold all_pages, pages_from. rewrite length_map, length_seq.
    destruct PGROUNDUP_end as [H1 H2]. revert Hroom H1 H2. generalize (PGROUNDUP end_). intros e Hroom H1 H2.
    unfold kernel_tables, NPROC, PHYSTOP, KERNBASE, PGSIZE in *. zdm.
  - cbv beta. intros kpt s' (stack & free' & nodes & K). exists stack, free'. by eapply kbuild_kernel_map.
Qed.
