(* ===== verification/Machine.v ===== *)
(** * A hart (kernel/riscv.h)

    The registers of a RISC-V hart, its privilege modes, the translation of
    addresses by Sv39, traps and the returns from them, and the instructions
    that kernel/entry.S, kernel/swtch.S, kernel/kernelvec.S,
    kernel/trampoline.S and user/initcode.S use; on top of them the accessors
    of kernel/riscv.h.  [Platform] is what the kernel relies on of the fields
    that an implementation may restrict.

    Translations use the present contents of memory: there is no TLB in the
    model, so sfence.vma has no effect.  The accessed and dirty bits of page
    table entries, which the hardware may set, are not modelled. *)

From stdpp Require Import functions.
From S2P Require Import Prelude Mem Riscv Kalloc Vm PageTable.

Module Reg.
Inductive reg :=
  | zero | ra | sp | gp | tp | t0 | t1 | t2 | s0 | s1
  | a0 | a1 | a2 | a3 | a4 | a5 | a6 | a7
  | s2 | s3 | s4 | s5 | s6 | s7 | s8 | s9 | s10 | s11 | t3 | t4 | t5 | t6.
#[export] Instance reg_eq : EqDecision reg.
Proof. solve_decision. Defined.
End Reg.

Module Csr.
Inductive csr :=
  | mhartid | mstatus | mepc | mcause | mtvec | mie | mip | medeleg | mideleg | mscratch | pmpcfg0 | pmpaddr0 | mcounteren
  | sstatus | sepc | scause | stval | stvec | sie | sip | sscratch | satp | time.
#[export] Instance csr_eq : EqDecision csr.
Proof. solve_decision. Defined.
End Csr.
Import Reg Csr.

Inductive priv := User | Supervisor | Machine.
#[export] Instance priv_eq : EqDecision priv.
Proof. solve_decision. Defined.

Record mach := mk_mach { gpr : reg → Z; csrs : csr → Z; mode : priv; pc : Z; ram : mem }.
Definition set_gpr (r : reg) (v : Z) (s : mach) : mach :=
  if bool_decide (r = zero) then s else mk_mach (<[r := v]> (gpr s)) (csrs s) (mode s) (pc s) (ram s).
Definition set_csr (c : csr) (v : Z) (s : mach) : mach := mk_mach (gpr s) (<[c := v]> (csrs s)) (mode s) (pc s) (ram s).
Definition set_mode (p : priv) (s : mach) : mach := mk_mach (gpr s) (csrs s) p (pc s) (ram s).
Definition set_pc (a : Z) (s : mach) : mach := mk_mach (gpr s) (csrs s) (mode s) a (ram s).
Definition set_ram (m : mem) (s : mach) : mach := mk_mach (gpr s) (csrs s) (mode s) (pc s) m.

(** ** Fields of the status registers *)

Definition MSTATUS_MPP_MASK : Z := Z.shiftl 3 11.
Definition MSTATUS_MPP_M : Z := Z.shiftl 3 11.
Definition MSTATUS_MPP_S : Z := Z.shiftl 1 11.
Definition MSTATUS_MPP_U : Z := Z.shiftl 0 11.
Definition MSTATUS_MIE : Z := Z.shiftl 1 3.
Definition SIE_SEIE : Z := Z.shiftl 1 9.
Definition SIE_STIE : Z := Z.shiftl 1 5.
Definition SIE_SSIE : Z := Z.shiftl 1 1.
Definition MIE_MEIE : Z := Z.shiftl 1 11.
Definition MIE_MTIE : Z := Z.shiftl 1 7.
Definition MIE_MSIE : Z := Z.shiftl 1 3.

(** The bits of mstatus: SIE, MIE, SPIE, MPIE, SPP, MPP (two bits), SUM. *)
Definition b_SIE : Z := 1.
Definition b_MIE : Z := 3.
Definition b_SPIE : Z := 5.
Definition b_MPIE : Z := 7.
Definition b_SPP : Z := 8.
Definition b_MPP : Z := 11.
Definition b_SUM : Z := 18.
Definition set_bit (v i : Z) (b : bool) : Z := if b then Z.setbit v i else Z.clearbit v i.
(** The fields of mstatus that sstatus shows: SIE, SPIE, UBE, SPP, VS, FS,
    XS, SUM, MXR, UXL, SD. *)
Definition SSTATUS_MASK : Z := 0x80000003000DE762.

(** The values that the hardware keeps of a value written to a register, as
    far as the kernel relies on it: the fields it uses are implemented, the
    interrupts of supervisor mode and the exceptions of user programs can be
    delegated, the interrupts of machine mode cannot, and Sv39 is there. *)
Class Platform := {
  warl : csr → Z → Z;
  warl_status v i : i ∈ [b_SIE; b_MIE; b_SPIE; b_MPIE; b_SPP; b_SUM] → Z.testbit (warl mstatus v) i = Z.testbit v i;
  warl_mpp v : Z.land (Z.shiftr v b_MPP) 3 ≠ 2 → Z.land (Z.shiftr (warl mstatus v) b_MPP) 3 = Z.land (Z.shiftr v b_MPP) 3;
  warl_mie v i : i ∈ [1; 3; 5; 7; 9; 11] → Z.testbit (warl mie v) i = Z.testbit v i;
  warl_mideleg_s v i : i ∈ [1; 5; 9] → Z.testbit (warl mideleg v) i = Z.testbit v i;
  warl_mideleg_m v i : i ∈ [3; 7; 11] → Z.testbit (warl mideleg v) i = false;
  warl_medeleg v i : i ∈ [8; 12; 13; 15] → Z.testbit (warl medeleg v) i = Z.testbit v i;
  warl_epc c v : c = mepc ∨ c = sepc → v mod 4 = 0 → warl c v = v;
  warl_tvec c v : c = mtvec ∨ c = stvec → v mod 4 = 0 → warl c v = v;
  warl_satp root : 0 ≤ root < 2 ^ 56 → warl satp (MAKE_SATP root) = MAKE_SATP root;
  warl_bare : warl satp 0 = 0;
  warl_scratch c v : c = mscratch ∨ c = sscratch → warl c v = v }.

(** ** Translation of addresses *)

Inductive access := Fetch | Load | Store.

(** The leaf entry for [va] and its level. *)
Fixpoint hw_walk (m : mem) (level : nat) (table va : Z) : option (Z * Z) :=
  let pte := ld64 m (table + 8 * PX (Z.of_nat level) va) in
  if negb (has pte PTE_V) || (negb (has pte PTE_R) && has pte PTE_W) then None
  else if has pte PTE_R || has pte PTE_X then Some (pte, Z.of_nat level)
  else match level with O => None | S l => hw_walk m l (PTE2PA pte) va end.

Definition permits (acc : access) (p : priv) (sum : bool) (pte : Z) : bool :=
  match acc with Fetch => has pte PTE_X | Load => has pte PTE_R | Store => has pte PTE_W end
  && match p with
     | User => has pte PTE_U
     | _ => negb (has pte PTE_U) || (match acc with Fetch => false | _ => sum end)
     end.

Definition translate (s : mach) (acc : access) (va : Z) : option Z :=
  let v := csrs s satp in
  match mode s with
  | Machine => Some va
  | p =>
      if Z.shiftr v 60 =? 0 then Some va
      else if Z.shiftr v 60 =? 8 then
        if (va <? 2 ^ 38) || (2 ^ 64 - 2 ^ 38 <=? va) then
          match hw_walk (ram s) 2 (v mod 2 ^ 44 * PGSIZE) va with
          | Some (pte, l) =>
              let span := 2 ^ (12 + 9 * l) in
              if permits acc p (Z.testbit (csrs s mstatus) b_SUM) pte && (PTE2PA pte mod span =? 0)
              then Some (PTE2PA pte + va mod span) else None
          | None => None
          end
        else None
      else None
  end.

Section hart.
Context {HW : Platform}.

(** ** Control and status registers *)

Definition csr_level (c : csr) : priv :=
  match c with
  | time => User
  | sstatus | sepc | scause | stval | stvec | sie | sip | sscratch | satp => Supervisor
  | _ => Machine
  end.
Definition may_access (p : priv) (c : csr) : bool :=
  match p, csr_level c with
  | Machine, _ => true | Supervisor, Machine => false | Supervisor, _ => true | User, User => true | User, _ => false
  end.

(** sstatus, sie and sip are views of machine-mode registers. *)
Definition csr_value (c : csr) (s : mach) : Z :=
  match c with
  | sstatus => Z.land (csrs s mstatus) SSTATUS_MASK
  | sie => Z.land (csrs s mie) (csrs s mideleg)
  | sip => Z.land (csrs s mip) (csrs s mideleg)
  | _ => csrs s c
  end.
Definition merge (mask old new : Z) : Z := Z.lor (Z.ldiff old mask) (Z.land new mask).
(** Of sip, only the software interrupt can be written. *)
Definition csr_store (c : csr) (v : Z) (s : mach) : mach :=
  match c with
  | sstatus => set_csr mstatus (warl mstatus (merge SSTATUS_MASK (csrs s mstatus) v)) s
  | sie => set_csr mie (warl mie (merge (csrs s mideleg) (csrs s mie) v)) s
  | sip => set_csr mip (merge (Z.land (csrs s mideleg) SIE_SSIE) (csrs s mip) v) s
  | _ => set_csr c (warl c v) s
  end.

Definition csrr (c : csr) : M mach Z :=
  do s <- get; if may_access (mode s) c then ret (csr_value c s) else panic "illegal instruction".
Definition csrw (c : csr) (v : Z) : M mach unit :=
  do s <- get;
  if may_access (mode s) c && negb (bool_decide (c = mhartid ∨ c = time)) then modify (csr_store c v)
  else panic "illegal instruction".

(** ** Traps *)

Definition priv_code (p : priv) : Z := match p with User => 0 | Supervisor => 1 | Machine => 3 end.
Definition code_priv (n : Z) : priv := if n =? 0 then User else if n =? 1 then Supervisor else Machine.
Definition set_MPP (v : Z) (p : priv) : Z :=
  set_bit (set_bit v b_MPP (Z.testbit (priv_code p) 0)) (b_MPP + 1) (Z.testbit (priv_code p) 1).

(** A trap that is delegated, to supervisor mode, and one that is not. *)
Definition trap_S (cause tval : Z) (s : mach) : mach :=
  let st := csrs s mstatus in
  let st := set_bit st b_SPP (bool_decide (mode s = Supervisor)) in
  let st := set_bit st b_SPIE (Z.testbit st b_SIE) in
  let st := set_bit st b_SIE false in
  set_mode Supervisor (set_pc (csrs s stvec)
    (set_csr mstatus st (set_csr stval tval (set_csr scause cause (set_csr sepc (pc s) s))))).
Definition trap_M (cause : Z) (s : mach) : mach :=
  let st := csrs s mstatus in
  let st := set_MPP st (mode s) in
  let st := set_bit st b_MPIE (Z.testbit st b_MIE) in
  let st := set_bit st b_MIE false in
  set_mode Machine (set_pc (csrs s mtvec) (set_csr mstatus st (set_csr mcause cause (set_csr mepc (pc s) s)))).

Definition exception (cause tval : Z) (s : mach) : mach :=
  if negb (bool_decide (mode s = Machine)) && Z.testbit (csrs s medeleg) cause then trap_S cause tval s else trap_M cause s.

Definition do_sret (s : mach) : mach :=
  let st := csrs s mstatus in
  let p := if Z.testbit st b_SPP then Supervisor else User in
  let st := set_bit st b_SIE (Z.testbit st b_SPIE) in
  let st := set_bit (set_bit st b_SPIE true) b_SPP false in
  set_mode p (set_pc (csrs s sepc) (set_csr mstatus st s)).
Definition do_mret (s : mach) : mach :=
  let st := csrs s mstatus in
  let p := code_priv (Z.land (Z.shiftr st b_MPP) 3) in
  let st := set_bit st b_MIE (Z.testbit st b_MPIE) in
  let st := set_MPP (set_bit st b_MPIE true) User in
  set_mode p (set_pc (csrs s mepc) (set_csr mstatus st s)).

(** ** Instructions *)

(** After an instruction, the next one is executed, or control has left. *)
Inductive flow := Next | Left.

Inductive instr :=
  | Sd (rs : reg) (off : Z) (rb : reg)
  | Ld (rd : reg) (off : Z) (rb : reg)
  | Addi (rd rs : reg) (imm : Z)
  | Add (rd rs1 rs2 : reg)
  | Mul (rd rs1 rs2 : reg)
  | Li (rd : reg) (v : Z)
  | Csrr (rd : reg) (c : csr)
  | Csrw (c : csr) (rs : reg)
  | Csrrw (rd : reg) (c : csr) (rs : reg)
  | SfenceVma
  | Jr (rs : reg)
  | Sret
  | Mret
  | Ecall
  | Call (f : M mach flow)
  | Spin.

Definition access_at (acc : access) (va : Z) : M mach Z :=
  do s <- get;
  if va mod 8 =? 0 then
    match translate s acc va with Some pa => ret pa | None => panic "page fault" end
  else panic "misaligned address".
Definition rd (r : reg) : M mach Z := gets (fun s => gpr s r).
Definition wr (r : reg) (v : Z) : M mach unit := modify (set_gpr r v).

Definition exec (i : instr) : M mach flow :=
  match i with
  | Sd rs off rb =>
      do b <- rd rb; do v <- rd rs;
      do pa <- access_at Store (u64 (b + off)); do! modify (fun s => set_ram (st64 (ram s) pa v) s); ret Next
  | Ld r off rb =>
      do b <- rd rb;
      do pa <- access_at Load (u64 (b + off)); do m <- gets ram; do! wr r (ld64 m pa); ret Next
  | Addi r rs imm => do a <- rd rs; do! wr r (u64 (a + imm)); ret Next
  | Add r rs1 rs2 => do a <- rd rs1; do b <- rd rs2; do! wr r (u64 (a + b)); ret Next
  | Mul r rs1 rs2 => do a <- rd rs1; do b <- rd rs2; do! wr r (u64 (a * b)); ret Next
  | Li r v => do! wr r (u64 v); ret Next
  | Csrr r c => do v <- csrr c; do! wr r v; ret Next
  | Csrw c rs => do v <- rd rs; do! csrw c v; ret Next
  | Csrrw r c rs => do v <- rd rs; do old <- csrr c; do! csrw c v; do! wr r old; ret Next
  | SfenceVma => ret Next
  | Jr rs => do a <- rd rs; do! modify (set_pc a); ret Left
  | Sret =>
      do s <- get; if bool_decide (mode s = User) then panic "illegal instruction" else do! modify do_sret; ret Left
  | Mret =>
      do s <- get; if bool_decide (mode s = Machine) then do! modify do_mret; ret Left else panic "illegal instruction"
  | Ecall => do! modify (fun s => exception (match mode s with User => 8 | Supervisor => 9 | Machine => 11 end) 0 s); ret Left
  | Call f => f
  | Spin => sleeps "spin"
  end.

(** Runs code that lies in the page at [va], which is the physical page
    [pa]: every fetch must be translated to that page. *)
Fixpoint run (va pa : Z) (l : list instr) : M mach flow :=
  match l with
  | [] => ret Next
  | i :: l' =>
      do s <- get;
      if bool_decide (translate s Fetch va = Some pa) then
        do f <- exec i;
        match f with Next => run va pa l' | Left => ret Left end
      else panic "instruction page fault"
  end.

(** ** The accessors of riscv.h *)

Definition r_mhartid := csrr mhartid.
Definition r_mstatus := csrr mstatus.
Definition w_mstatus := csrw mstatus.
Definition w_mepc := csrw mepc.
Definition r_sstatus := csrr sstatus.
Definition w_sstatus := csrw sstatus.
Definition r_sip := csrr sip.
Definition w_sip := csrw sip.
Definition r_sie := csrr sie.
Definition w_sie := csrw sie.
Definition r_mie := csrr mie.
Definition w_mie := csrw mie.
Definition w_sepc := csrw sepc.
Definition r_sepc := csrr sepc.
Definition r_medeleg := csrr medeleg.
Definition w_medeleg := csrw medeleg.
Definition r_mideleg := csrr mideleg.
Definition w_mideleg := csrw mideleg.
Definition w_stvec := csrw stvec.
Definition r_stvec := csrr stvec.
Definition w_mtvec := csrw mtvec.
Definition w_pmpcfg0 := csrw pmpcfg0.
Definition w_pmpaddr0 := csrw pmpaddr0.
Definition w_satp := csrw satp.
Definition r_satp := csrr satp.
Definition w_mscratch := csrw mscratch.
Definition r_scause := csrr scause.
Definition r_stval := csrr stval.
Definition w_mcounteren := csrw mcounteren.
Definition r_mcounteren := csrr mcounteren.
Definition r_time := csrr time.
Definition r_sp := rd sp.
Definition r_tp := rd tp.
Definition w_tp := wr tp.
Definition r_ra := rd ra.
Definition sfence_vma : M mach unit := ret tt.
End hart.

Lemma gpr_set_eq r v s : r ≠ zero → gpr (set_gpr r v s) r = v.
Proof. intros Hr. unfold set_gpr. rewrite bool_decide_false by done. apply fn_lookup_insert. Qed.
Lemma gpr_set_ne r q v s : q ≠ r → gpr (set_gpr r v s) q = gpr s q.
Proof. intros Hr. unfold set_gpr. case_bool_decide; [done|]. by apply fn_lookup_insert_ne. Qed.

Lemma mret_frame s : gpr (do_mret s) = gpr s ∧ ram (do_mret s) = ram s ∧ ∀ c, c ≠ mstatus → csrs (do_mret s) c = csrs s c.
Proof. split; [done|]. split; [done|]. intros c Hc. by apply fn_lookup_insert_ne. Qed.
Lemma sret_frame s : gpr (do_sret s) = gpr s ∧ ram (do_sret s) = ram s ∧ ∀ c, c ≠ mstatus → csrs (do_sret s) c = csrs s c.
Proof. split; [done|]. split; [done|]. intros c Hc. by apply fn_lookup_insert_ne. Qed.

(** ** Bits *)

Lemma testbit_set_bit v i b j : 0 ≤ i → 0 ≤ j → Z.testbit (set_bit v i b) j = if bool_decide (j = i) then b else Z.testbit v j.
Proof.
  intros Hi Hj. unfold set_bit. case_bool_decide as E; [subst j|]; destruct b.
  - by apply Z.setbit_eq.
  - apply Z.clearbit_eq.
  - apply Z.setbit_neq; [done|]. by intros ->.
  - apply Z.clearbit_neq. by intros ->.
Qed.

Lemma MPP_bits v : Z.land (Z.shiftr v b_MPP) 3 = Z.b2z (Z.testbit v 11) + 2 * Z.b2z (Z.testbit v 12).
Proof.
  unfold b_MPP. change 3 with (Z.ones 2). rewrite Z.land_ones, !Z.testbit_spec', Z.shiftr_div_pow2 by lia.
  change (2 ^ 12) with (2 ^ 11 * 2). rewrite <- Z.div_div by lia. generalize (v / 2 ^ 11). intros w.
  change (2 ^ 2) with 4. zdm.
Qed.

(** The mode that a trap to machine mode remembers is the one that mret
    returns to. *)
Lemma MPP_set v p : code_priv (Z.land (Z.shiftr (set_MPP v p) b_MPP) 3) = p.
Proof.
  rewrite MPP_bits. unfold set_MPP, b_MPP. rewrite !testbit_set_bit by lia.
  by destruct p.
Qed.

Lemma bits_of_sstatus v v' i :
  Z.testbit SSTATUS_MASK i = true → Z.land v SSTATUS_MASK = Z.land v' SSTATUS_MASK → Z.testbit v i = Z.testbit v' i.
Proof.
  intros Hi E. apply (f_equal (fun x => Z.testbit x i)) in E. by rewrite !Z.land_spec, Hi, !andb_true_r in E.
Qed.

(** A platform, for examples. *)
Definition sample_hw : Platform.
Proof.
  refine {| warl := fun c v => match c with mideleg => Z.land v 0x222 | _ => v end |}; try done.
  - intros v i Hi. rewrite Z.land_spec. repeat (apply elem_of_cons in Hi as [->|Hi]); [by rewrite andb_true_r..|by apply elem_of_nil in Hi].
  - intros v i Hi. rewrite Z.land_spec. repeat (apply elem_of_cons in Hi as [->|Hi]); [by rewrite andb_false_r..|by apply elem_of_nil in Hi].
  - by intros c v [->| ->] _.
  - by intros c v [->| ->] _.
  - by intros c v [->| ->].
Defined.
