(* ===== verification/Asm.v ===== *)
(** * The assembly code (kernel/swtch.S, kernel/kernelvec.S, kernel/trampoline.S, kernel/entry.S, user/initcode.S, user/usys.pl)

    The routines, instruction by instruction, and what sequences of stores
    and loads of registers do.  Theorems: swtch saves one context and loads
    another; an interrupt of the kernel that goes through kernelvec, and a
    timer interrupt that goes through timervec, leave every register of the
    interrupted code as it was. *)

From stdpp Require Import functions.
From S2P Require Import Prelude Mem Riscv Kalloc Vm PageTable Machine.
Import Reg Csr.

(** Goals that can be decided by evaluation. *)
Ltac by_dec := apply (bool_decide_unpack _); vm_compute; exact I.

(** ** The routines *)

(** kernel/swtch.S *)
Definition swtch : list instr :=
  [Sd ra 0 a0; Sd sp 8 a0; Sd s0 16 a0; Sd s1 24 a0; Sd s2 32 a0; Sd s3 40 a0; Sd s4 48 a0; Sd s5 56 a0;
   Sd s6 64 a0; Sd s7 72 a0; Sd s8 80 a0; Sd s9 88 a0; Sd s10 96 a0; Sd s11 104 a0;
   Ld ra 0 a1; Ld sp 8 a1; Ld s0 16 a1; Ld s1 24 a1; Ld s2 32 a1; Ld s3 40 a1; Ld s4 48 a1; Ld s5 56 a1;
   Ld s6 64 a1; Ld s7 72 a1; Ld s8 80 a1; Ld s9 88 a1; Ld s10 96 a1; Ld s11 104 a1;
   Jr ra].

(** kernel/kernelvec.S *)
Definition kernelvec (kerneltrap : M mach flow) : list instr :=
  [Addi sp sp (-256);
   Sd ra 0 sp; Sd sp 8 sp; Sd gp 16 sp; Sd tp 24 sp; Sd t0 32 sp; Sd t1 40 sp; Sd t2 48 sp; Sd s0 56 sp;
   Sd s1 64 sp; Sd a0 72 sp; Sd a1 80 sp; Sd a2 88 sp; Sd a3 96 sp; Sd a4 104 sp; Sd a5 112 sp; Sd a6 120 sp;
   Sd a7 128 sp; Sd s2 136 sp; Sd s3 144 sp; Sd s4 152 sp; Sd s5 160 sp; Sd s6 168 sp; Sd s7 176 sp; Sd s8 184 sp;
   Sd s9 192 sp; Sd s10 200 sp; Sd s11 208 sp; Sd t3 216 sp; Sd t4 224 sp; Sd t5 232 sp; Sd t6 240 sp;
   Call kerneltrap;
   Ld ra 0 sp; Ld sp 8 sp; Ld gp 16 sp; Ld t0 32 sp; Ld t1 40 sp; Ld t2 48 sp; Ld s0 56 sp;
   Ld s1 64 sp; Ld a0 72 sp; Ld a1 80 sp; Ld a2 88 sp; Ld a3 96 sp; Ld a4 104 sp; Ld a5 112 sp; Ld a6 120 sp;
   Ld a7 128 sp; Ld s2 136 sp; Ld s3 144 sp; Ld s4 152 sp; Ld s5 160 sp; Ld s6 168 sp; Ld s7 176 sp; Ld s8 184 sp;
   Ld s9 192 sp; Ld s10 200 sp; Ld s11 208 sp; Ld t3 216 sp; Ld t4 224 sp; Ld t5 232 sp; Ld t6 240 sp;
   Addi sp sp 256;
   Sret].

Definition timervec : list instr :=
  [Csrrw a0 mscratch a0;
   Sd a1 0 a0; Sd a2 8 a0; Sd a3 16 a0;
   Ld a1 24 a0; Ld a2 32 a0; Ld a3 0 a1; Add a3 a3 a2; Sd a3 0 a1;
   Li a1 2; Csrw sip a1;
   Ld a3 16 a0; Ld a2 8 a0; Ld a1 0 a0;
   Csrrw a0 mscratch a0;
   Mret].

(** kernel/trampoline.S *)
Definition uservec : list instr :=
  [Csrw sscratch a0; Li a0 TRAPFRAME;
   Sd ra 40 a0; Sd sp 48 a0; Sd gp 56 a0; Sd tp 64 a0; Sd t0 72 a0; Sd t1 80 a0; Sd t2 88 a0; Sd s0 96 a0;
   Sd s1 104 a0; Sd a1 120 a0; Sd a2 128 a0; Sd a3 136 a0; Sd a4 144 a0; Sd a5 152 a0; Sd a6 160 a0; Sd a7 168 a0;
   Sd s2 176 a0; Sd s3 184 a0; Sd s4 192 a0; Sd s5 200 a0; Sd s6 208 a0; Sd s7 216 a0; Sd s8 224 a0; Sd s9 232 a0;
   Sd s10 240 a0; Sd s11 248 a0; Sd t3 256 a0; Sd t4 264 a0; Sd t5 272 a0; Sd t6 280 a0;
   Csrr t0 sscratch; Sd t0 112 a0;
   Ld sp 8 a0; Ld tp 32 a0; Ld t0 16 a0; Ld t1 0 a0;
   SfenceVma; Csrw satp t1; SfenceVma;
   Jr t0].

Definition userret : list instr :=
  [SfenceVma; Csrw satp a0; SfenceVma;
   Li a0 TRAPFRAME;
   Ld ra 40 a0; Ld sp 48 a0; Ld gp 56 a0; Ld tp 64 a0; Ld t0 72 a0; Ld t1 80 a0; Ld t2 88 a0; Ld s0 96 a0;
   Ld s1 104 a0; Ld a1 120 a0; Ld a2 128 a0; Ld a3 136 a0; Ld a4 144 a0; Ld a5 152 a0; Ld a6 160 a0; Ld a7 168 a0;
   Ld s2 176 a0; Ld s3 184 a0; Ld s4 192 a0; Ld s5 200 a0; Ld s6 208 a0; Ld s7 216 a0; Ld s8 224 a0; Ld s9 232 a0;
   Ld s10 240 a0; Ld s11 248 a0; Ld t3 256 a0; Ld t4 264 a0; Ld t5 272 a0; Ld t6 280 a0;
   Ld a0 112 a0;
   Sret].

(** kernel/entry.S; [stack0] and [start] are in kernel/start.c. *)
Definition _entry (stack0 : Z) (start : M mach flow) : list instr :=
  [Li sp stack0; Li a0 (1024 * 4); Csrr a1 mhartid; Addi a1 a1 1; Mul a0 a0 a1; Add sp sp a0;
   Call start;
   Spin].

(** user/initcode.S; [init] and [argv] are the addresses of its data.  The
    code at exit: jumps back to itself when exit() has returned. *)
Definition SYS_exec : Z := 7.
Definition SYS_exit : Z := 2.
Definition initcode_start (init argv : Z) : list instr := [Li a0 init; Li a1 argv; Li a7 SYS_exec; Ecall].
Definition initcode_exit : list instr := [Li a7 SYS_exit; Ecall].

(** user/usys.pl: the stub of a system call, up to the trap and after it,
    and the calls that have one, with the numbers of kernel/syscall.h. *)
Definition entry (num : Z) : list instr * list instr := ([Li a7 num; Ecall], [Jr ra]).
Definition usys : list (string * Z) :=
  [("fork", 1); ("exit", 2); ("wait", 3); ("pipe", 4); ("read", 5); ("write", 16); ("close", 21); ("kill", 6); ("exec", 7);
   ("open", 15); ("mknod", 17); ("unlink", 18); ("fstat", 8); ("link", 19); ("mkdir", 20); ("chdir", 9); ("dup", 10);
   ("getpid", 11); ("sbrk", 12); ("sleep", 13); ("uptime", 14)]%string.

(** ** Stores and loads of registers *)

Definition saves (b : reg) (l : list (reg * Z)) : list instr := map (fun x => Sd x.1 x.2 b) l.
Definition restores (b : reg) (l : list (reg * Z)) : list instr := map (fun x => Ld x.1 x.2 b) l.

Definition stores (pa : Z) (g : reg → Z) (l : list (reg * Z)) (m : mem) : mem :=
  fold_left (fun m x => st64 m (pa + x.2) (g x.1)) l m.
Definition loads (pa : Z) (m : mem) (l : list (reg * Z)) (g : reg → Z) : reg → Z :=
  fold_left (fun g x => <[x.1 := ld64 m (pa + x.2)]> g) l g.

(** The offsets of [l] are those of different words of a frame of [n] bytes. *)
Definition frame_ok (n : Z) (l : list (reg * Z)) : Prop :=
  Forall (fun x => 0 ≤ x.2 ∧ x.2 + 8 ≤ n ∧ x.2 mod 8 = 0) l ∧ NoDup (map snd l).
#[export] Instance frame_ok_dec n l : Decision (frame_ok n l).
Proof. unfold frame_ok. apply _. Defined.

Lemma ld8_stores_out pa g l m n b :
  Forall (fun x => 0 ≤ x.2 ∧ x.2 + 8 ≤ n ∧ x.2 mod 8 = 0) l → ¬ (pa ≤ b < pa + n) → ld8 (stores pa g l m) b = ld8 m b.
Proof.
  revert m; induction l as [|[r o] l IH]; intros m Hl Hb; [done|]. apply Forall_cons in Hl as [(? & ? & _) Hl]. simpl in *.
  rewrite IH by done. apply ld8_stn_out. lia.
Qed.

Lemma ld64_stores_out pa g l m n o :
  frame_ok n l → o mod 8 = 0 → (∀ r, (r, o) ∉ l) → ld64 (stores pa g l m) (pa + o) = ld64 m (pa + o).
Proof.
  intros [Hl _] Ho. revert m; induction l as [|[r x] l IH]; intros m Hn; [done|].
  apply Forall_cons in Hl as [(? & ? & ?) Hl]. simpl in *. rewrite IH; [|done|intros q Hq; apply (Hn q); by apply list_elem_of_further].
  apply ld64_st64_ne. assert (x ≠ o) as Hx by (intros ->; apply (Hn r), list_elem_of_here). zdm.
Qed.

Lemma ld64_stores_in pa g l m n r o :
  frame_ok n l → (r, o) ∈ l → ld64 (stores pa g l m) (pa + o) = u64 (g r).
Proof.
  intros [Hl Hd] Hin. revert m Hl Hd Hin; induction l as [|[r' x] l IH]; intros m Hl Hd Hin; [by apply elem_of_nil in Hin|].
  assert (frame_ok n l) as Hf by (apply Forall_cons in Hl as [_ ?]; apply NoDup_cons in Hd as [_ ?]; by split).
  apply elem_of_cons in Hin as [[= <- <-]|Hin]; [|apply IH; try done; apply Hf].
  simpl. unfold stores in *. change (fold_left _ l ?m0) with (stores pa g l m0).
  apply Forall_cons in Hl as [(_ & _ & Ho) _]. simpl in Ho. rewrite (ld64_stores_out pa g l _ n o Hf Ho); [apply ld64_st64_eq|].
  intros q Hq. apply NoDup_cons in Hd as [Hd _]. apply Hd. apply list_elem_of_fmap. by exists (q, o).
Qed.

Lemma loads_out pa m l g r : (∀ o, (r, o) ∉ l) → loads pa m l g r = g r.
Proof.
  revert g; induction l as [|[q x] l IH]; intros g Hn; [done|]. simpl.
  rewrite IH by (intros o Ho; apply (Hn o); by apply list_elem_of_further).
  apply fn_lookup_insert_ne. intros ->. apply (Hn x), list_elem_of_here.
Qed.

Lemma loads_in pa m l g r o : NoDup (map fst l) → (r, o) ∈ l → loads pa m l g r = ld64 m (pa + o).
Proof.
  revert g; induction l as [|[q x] l IH]; intros g Hd Hin; [by apply elem_of_nil in Hin|].
  apply NoDup_cons in Hd as [Hq Hd]. simpl. apply elem_of_cons in Hin as [[= <- <-]|Hin]; [|by apply IH].
  change (fold_left _ l ?g0) with (loads pa m l g0). rewrite loads_out; [apply fn_lookup_insert|].
  intros o' Ho'. apply Hq. apply list_elem_of_fmap. by exists (r, o').
Qed.

Section asm.
Context {HW : Platform}.

(** ** Frames in memory *)

Definition same_outside (D : Z → Prop) (m m' : mem) : Prop := ∀ b, ¬ D b → ld8 m' b = ld8 m b.
Definition bytes_of (pa n b : Z) : Prop := pa ≤ b < pa + n.

(** The [n] bytes at the virtual address [va] are those at [pa], however the
    bytes in [D] change. *)
Definition window (D : Z → Prop) (s : mach) (va pa n : Z) : Prop :=
  va mod 8 = 0 ∧ 0 ≤ va ∧ va + n ≤ 2 ^ 64 ∧
  ∀ m o, same_outside D (ram s) m → 0 ≤ o < n →
    translate (set_ram m s) Load (va + o) = Some (pa + o) ∧ translate (set_ram m s) Store (va + o) = Some (pa + o).
Definition fetches (D : Z → Prop) (s : mach) (code cpa : Z) : Prop :=
  ∀ m, same_outside D (ram s) m → translate (set_ram m s) Fetch code = Some cpa.

(** What translation depends on. *)
Record same_space (s s' : mach) : Prop := {
  ss_mode : mode s' = mode s;
  ss_satp : csrs s' satp = csrs s satp;
  ss_sum : Z.testbit (csrs s' mstatus) b_SUM = Z.testbit (csrs s mstatus) b_SUM }.

Lemma translate_same s s' m acc va : same_space s s' → translate (set_ram m s') acc va = translate (set_ram m s) acc va.
Proof. intros [E1 E2 E3]. unfold translate. cbn [mode csrs ram set_ram]. by rewrite E1, E2, E3. Qed.

Lemma same_outside_refl D m : same_outside D m m.
Proof. by intros b. Qed.
Lemma same_outside_trans D m1 m2 m3 : same_outside D m1 m2 → same_outside D m2 m3 → same_outside D m1 m3.
Proof. intros H1 H2 b Hb. by rewrite H2, H1. Qed.

Lemma window_same D s s' va pa n :
  same_space s s' → same_outside D (ram s) (ram s') → window D s va pa n → window D s' va pa n.
Proof.
  intros Hs Hm (? & ? & ? & Hw). split; [done|]. split; [done|]. split; [done|]. intros m o Hm' Ho.
  rewrite !(translate_same s s') by done. apply Hw; [|done]. by eapply same_outside_trans.
Qed.
Lemma fetches_same D s s' code cpa :
  same_space s s' → same_outside D (ram s) (ram s') → fetches D s code cpa → fetches D s' code cpa.
Proof. intros Hs Hm Hf m Hm'. rewrite (translate_same s s') by done. apply Hf. by eapply same_outside_trans. Qed.

Lemma set_ram_id s : set_ram (ram s) s = s.
Proof. by destruct s. Qed.

(** Without paging, addresses are physical. *)
Definition bare (s : mach) : Prop := mode s = Machine ∨ Z.shiftr (csrs s satp) 60 = 0.

Lemma translate_bare s acc va : bare s → translate s acc va = Some va.
Proof. intros [Hm|Hs]; unfold translate; [by rewrite Hm|]. rewrite Hs. by destruct (mode s). Qed.
Lemma fetches_bare D s code : bare s → fetches D s code code.
Proof. intros Hb m _. by apply translate_bare. Qed.
Lemma window_bare D s va n : bare s → va mod 8 = 0 → 0 ≤ va → va + n ≤ 2 ^ 64 → window D s va va n.
Proof. intros Hb H1 H2 H3. split; [done|]. split; [done|]. split; [done|]. intros m o _ _. by rewrite !translate_bare. Qed.

Lemma wp_step D s code cpa i l Q :
  fetches D s code cpa →
  wp (exec i) (fun f s' => match f with Next => wp (run code cpa l) Q s' | Left => Q Left s' end) s →
  wp (run code cpa (i :: l)) Q s.
Proof.
  intros Hf He. cbn [run]. apply wp_bind, wp_get. pose proof (Hf (ram s) (same_outside_refl _ _)) as E. rewrite set_ram_id in E.
  rewrite bool_decide_true by done. apply wp_bind. eapply wp_mono; [exact He|]. cbv beta.
  intros [] s' H; [done|by apply wp_ret].
Qed.

Lemma wp_access D s acc va pa n o Q :
  window D s va pa n → 0 ≤ o < n → o mod 8 = 0 → acc ≠ Fetch → Q (pa + o) s → wp (access_at acc (u64 (va + o))) Q s.
Proof.
  intros (Hal & H0 & H64 & Hw) Ho Hom Ha HQ. unfold access_at. rewrite u64_small by lia. apply wp_bind, wp_get.
  rewrite (proj2 (Z.eqb_eq _ _)) by zdm.
  destruct (Hw (ram s) o (same_outside_refl _ _) Ho) as [H1 H2]. rewrite set_ram_id in H1, H2.
  destruct acc; [done|rewrite H1|rewrite H2]; by apply wp_ret.
Qed.

Lemma wp_sd D s code cpa r o b va pa n l Q :
  fetches D s code cpa → window D s va pa n → gpr s b = va → 0 ≤ o → o + 8 ≤ n → o mod 8 = 0 →
  wp (run code cpa l) Q (set_ram (st64 (ram s) (pa + o) (gpr s r)) s) → wp (run code cpa (Sd r o b :: l)) Q s.
Proof.
  intros Hf Hw <- H0 Hn Ho HQ. eapply wp_step; [done|]. unfold exec, rd. apply wp_bind, wp_gets. apply wp_bind, wp_gets.
  apply wp_bind. eapply (wp_access D s); [exact Hw|lia|done|discriminate|]. apply wp_bind, wp_modify, wp_ret. done.
Qed.

Lemma wp_ld D s code cpa r o b va pa n l Q :
  fetches D s code cpa → window D s va pa n → gpr s b = va → 0 ≤ o → o + 8 ≤ n → o mod 8 = 0 →
  wp (run code cpa l) Q (set_gpr r (ld64 (ram s) (pa + o)) s) → wp (run code cpa (Ld r o b :: l)) Q s.
Proof.
  intros Hf Hw <- H0 Hn Ho HQ. eapply wp_step; [done|]. unfold exec, rd, wr. apply wp_bind, wp_gets.
  apply wp_bind. eapply (wp_access D s); [exact Hw|lia|done|discriminate|]. apply wp_bind, wp_gets. apply wp_bind, wp_modify, wp_ret. done.
Qed.

Definition set_gprs (g : reg → Z) (s : mach) : mach := mk_mach g (csrs s) (mode s) (pc s) (ram s).

Lemma run_saves (D : Z → Prop) code cpa b va pa n l rest Q s :
  fetches D s code cpa → window D s va pa n → gpr s b = va → (∀ x, bytes_of pa n x → D x) →
  Forall (fun x => 0 ≤ x.2 ∧ x.2 + 8 ≤ n ∧ x.2 mod 8 = 0) l →
  wp (run code cpa rest) Q (set_ram (stores pa (gpr s) l (ram s)) s) →
  wp (run code cpa (saves b l ++ rest)) Q s.
Proof.
  revert s; induction l as [|[r o] l IH]; intros s Hf Hw Hb HD Hl HQ; [by destruct s|].
  apply Forall_cons in Hl as [(H0 & Hn & Ho) Hl]. cbn [saves map app fst snd] in *. eapply wp_sd; try done.
  set (s1 := set_ram _ s). assert (same_outside D (ram s) (ram s1)) as Hm.
  { intros x Hx. apply ld8_stn_out. assert (¬ bytes_of pa n x) as Hx' by auto. unfold bytes_of in Hx'. lia. }
  apply IH; [by apply (fetches_same D s)|by apply (window_same D s)|done..].
Qed.

Lemma run_restores (D : Z → Prop) code cpa b va pa n l rest Q s :
  fetches D s code cpa → window D s va pa n → gpr s b = va →
  Forall (fun x => 0 ≤ x.2 ∧ x.2 + 8 ≤ n ∧ x.2 mod 8 = 0) l →
  Forall (fun x => x.1 ≠ zero ∧ (x.1 = b → ld64 (ram s) (pa + x.2) = va)) l →
  wp (run code cpa rest) Q (set_gprs (loads pa (ram s) l (gpr s)) s) →
  wp (run code cpa (restores b l ++ rest)) Q s.
Proof.
  revert s; induction l as [|[r o] l IH]; intros s Hf Hw Hb Hl Hr HQ; [by destruct s|].
  apply Forall_cons in Hl as [(H0 & Hn & Ho) Hl]. apply Forall_cons in Hr as [[Hz Hbase] Hr]. cbn [restores map app fst snd] in *.
  eapply wp_ld; try done. unfold set_gpr. rewrite bool_decide_false by done.
  apply IH; [by apply (fetches_same D s)|by apply (window_same D s)| |done..].
  cbn [gpr]. destruct (decide (r = b)) as [->|Hne]; [rewrite fn_lookup_insert; auto|by rewrite fn_lookup_insert_ne].
Qed.

Definition regs_ok (g : reg → Z) : Prop := g zero = 0 ∧ ∀ r, 0 ≤ g r < 2 ^ 64.

Lemma regs_u64 g r : regs_ok g → u64 (g r) = g r.
Proof. intros [_ H]. apply u64_small, H. Qed.

(** ** swtch *)

(** struct context *)
Definition context_regs : list (reg * Z) :=
  [(ra, 0); (sp, 8); (s0, 16); (s1, 24); (s2, 32); (s3, 40); (s4, 48); (s5, 56); (s6, 64); (s7, 72); (s8, 80); (s9, 88);
   (s10, 96); (s11, 104)].
Definition sizeof_context : Z := 112.

Lemma swtch_eq : swtch = saves a0 context_regs ++ restores a1 context_regs ++ [Jr ra].
Proof. reflexivity. Qed.

Lemma context_frame : frame_ok sizeof_context context_regs.
Proof. by_dec. Qed.

(** [s'] has left swtch, which was called in [s] with the contexts at [pa]
    and [pb]. *)
Record switched (pa pb : Z) (s s' : mach) : Prop := {
  sw_saved r o : (r, o) ∈ context_regs → ld64 (ram s') (pa + o) = u64 (gpr s r);
  sw_loaded r o : (r, o) ∈ context_regs → gpr s' r = ld64 (ram s) (pb + o);
  sw_pc : pc s' = ld64 (ram s) pb;
  sw_others r : (∀ o, (r, o) ∉ context_regs) → gpr s' r = gpr s r;
  sw_csrs : csrs s' = csrs s ∧ mode s' = mode s;
  sw_mem : same_outside (bytes_of pa sizeof_context) (ram s) (ram s') }.

Lemma swtch_spec s code cpa pa pb :
  let D := bytes_of pa sizeof_context in
  fetches D s code cpa → window D s (gpr s a0) pa sizeof_context → window D s (gpr s a1) pb sizeof_context →
  pa + sizeof_context ≤ pb ∨ pb + sizeof_context ≤ pa →
  wp (run code cpa swtch) (fun f s' => f = Left ∧ switched pa pb s s') s.
Proof.
  intros D Hf Hwa Hwb Hd. rewrite swtch_eq. destruct context_frame as [Hfr Hnd].
  eapply (run_saves D code cpa a0 (gpr s a0) pa); try done.
  set (s1 := set_ram _ s). assert (Hm : same_outside D (ram s) (ram s1)) by (intros b Hb; by apply (ld8_stores_out _ _ _ _ sizeof_context)).
  assert (Hs : same_space s s1) by done.
  assert (Hpb : ∀ r o, (r, o) ∈ context_regs → ld64 (ram s1) (pb + o) = ld64 (ram s) (pb + o)).
  { intros r o Hin. apply ldn_ext. intros b Hb. apply Hm. unfold D, bytes_of.
    apply (proj1 (Forall_forall _ _) Hfr) in Hin. simpl in Hin. lia. }
  eapply (run_restores D code cpa a1 (gpr s a1) pb sizeof_context); try done;
    [by apply (fetches_same D s)|by apply (window_same D s)|by_dec|].
  set (s2 := set_gprs _ s1).
  assert (Hg : ∀ r o, (r, o) ∈ context_regs → gpr s2 r = ld64 (ram s) (pb + o)).
  { intros r o Hin. rewrite <- (Hpb r o Hin). apply loads_in; [by_dec|done]. }
  eapply (wp_step D); [by apply (fetches_same D s)|]. apply wp_bind, wp_gets. apply wp_bind, wp_modify, wp_ret. split; [done|]. split.
  - intros r o Hin. by apply (ld64_stores_in pa (gpr s) context_regs (ram s) sizeof_context).
  - done.
  - change (gpr s2 ra = ld64 (ram s) pb). rewrite (Hg ra 0) by by_dec. by rewrite Z.add_0_r.
  - intros r Hr. by apply loads_out.
  - done.
  - exact Hm.
Qed.
End asm.

(** C14: A kernel thread that calls swtch is resumed where it called it.
    swtch saves the thread's registers in the context at [old] and continues
    with the registers of the context at [new]; when any later call switches
    to the context at [old], with the saved words still there, the thread is
    back at its return address, with its stack and all the registers that a
    call must preserve. *)
Theorem swtch_resumes {HW : Platform} code cpa s s2 old new cur :
  regs_ok (gpr s) →
  fetches (bytes_of old sizeof_context) s code cpa →
  window (bytes_of old sizeof_context) s (gpr s a0) old sizeof_context →
  window (bytes_of old sizeof_context) s (gpr s a1) new sizeof_context →
  old + sizeof_context ≤ new ∨ new + sizeof_context ≤ old →
  fetches (bytes_of cur sizeof_context) s2 code cpa →
  window (bytes_of cur sizeof_context) s2 (gpr s2 a0) cur sizeof_context →
  window (bytes_of cur sizeof_context) s2 (gpr s2 a1) old sizeof_context →
  cur + sizeof_context ≤ old ∨ old + sizeof_context ≤ cur →
  wp (run code cpa swtch) (fun f s1 => f = Left ∧ switched old new s s1 ∧
    ((∀ r o, (r, o) ∈ context_regs → ld64 (ram s2) (old + o) = ld64 (ram s1) (old + o)) →
     wp (run code cpa swtch) (fun f' s3 => f' = Left ∧ pc s3 = gpr s ra ∧
       ∀ r o, (r, o) ∈ context_regs → gpr s3 r = gpr s r) s2)) s.
Proof.
  intros Hr Hf Hwa Hwb Hd Hf2 Hwa2 Hwb2 Hd2.
  eapply wp_mono; [by apply (swtch_spec s code cpa old new)|]. cbv beta. intros f s1 [-> Hsw].
  split; [done|]. split; [done|]. intros Hkeep.
  eapply wp_mono; [by apply (swtch_spec s2 code cpa cur old)|]. cbv beta. intros f' s3 [-> Hsw3]. split; [done|].
  assert (∀ r o, (r, o) ∈ context_regs → gpr s3 r = gpr s r) as Hall.
  { intros r o Hin. rewrite (sw_loaded _ _ _ _ Hsw3 r o Hin), (Hkeep r o Hin), (sw_saved _ _ _ _ Hsw r o Hin). by apply regs_u64. }
  split; [|done]. rewrite <- (Hall ra 0) by by_dec. rewrite (sw_pc _ _ _ _ Hsw3), (sw_loaded _ _ _ _ Hsw3 ra 0) by by_dec.
  by rewrite Z.add_0_r.
Qed.

(** ** kernelvec *)

Definition kernelvec_regs : list (reg * Z) :=
  [(ra, 0); (sp, 8); (gp, 16); (tp, 24); (t0, 32); (t1, 40); (t2, 48); (s0, 56); (s1, 64); (a0, 72); (a1, 80); (a2, 88);
   (a3, 96); (a4, 104); (a5, 112); (a6, 120); (a7, 128); (s2, 136); (s3, 144); (s4, 152); (s5, 160); (s6, 168); (s7, 176);
   (s8, 184); (s9, 192); (s10, 200); (s11, 208); (t3, 216); (t4, 224); (t5, 232); (t6, 240)].
Definition restored_regs : list (reg * Z) := filter (fun x => x.1 ≠ tp) kernelvec_regs.

#[local] Arguments Z.testbit : simpl never.

Section kernelvec.
Context {HW : Platform}.

Lemma kernelvec_eq K :
  kernelvec K = Addi sp sp (-256) :: saves sp kernelvec_regs ++ Call K :: restores sp restored_regs ++ [Addi sp sp 256; Sret].
Proof. reflexivity. Qed.

Lemma kernelvec_frame : frame_ok 256 kernelvec_regs.
Proof. by_dec. Qed.
Lemma restored_offset r : r ≠ tp → r ≠ zero → ∃ o, (r, o) ∈ restored_regs.
Proof.
  intros H1 H2. assert (Exists (fun x => x.1 = r) restored_regs) as [[q o] [Hin <-]]%Exists_exists by (destruct r; done || by_dec).
  by exists o.
Qed.
Lemma restored_saved r o : (r, o) ∈ restored_regs → (r, o) ∈ kernelvec_regs ∧ r ≠ tp.
Proof. intros [? ?]%list_elem_of_filter. done. Qed.

(** What a C function that is called in [s] guarantees when it has returned
    in [s']: the stack pointer is what it was, its caller's frame of [n]
    bytes at [pa] has not been written, and the caller's code and frame are
    still mapped; and what kerneltrap() guarantees besides: it has restored
    sstatus and sepc. *)
Record c_returns (code cpa pa n : Z) (s s' : mach) : Prop := {
  cr_sp : gpr s' sp = gpr s sp;
  cr_zero : gpr s' zero = 0;
  cr_mode : mode s' = mode s;
  cr_frame b : bytes_of pa n b → ld8 (ram s') b = ld8 (ram s) b;
  cr_code : fetches (fun _ => False) s' code cpa;
  cr_window : window (fun _ => False) s' (gpr s sp) pa n;
  cr_sstatus : csr_value sstatus s' = csr_value sstatus s;
  cr_sepc : csrs s' sepc = csrs s sepc }.

(** The state in which the kernelvec returns, from an interrupt in [s]. *)
Record resumed (s s' : mach) : Prop := {
  re_gpr r : r ≠ tp → gpr s' r = gpr s r;
  re_pc : pc s' = pc s;
  re_mode : mode s' = mode s;
  re_sie : Z.testbit (csrs s' mstatus) b_SIE = Z.testbit (csrs s mstatus) b_SIE }.

Lemma sret_resumes s cause tval s' :
  mode s = Supervisor → csr_value sstatus s' = csr_value sstatus (trap_S cause tval s) → csrs s' sepc = pc s →
  mode (do_sret s') = mode s ∧ pc (do_sret s') = pc s ∧
  Z.testbit (csrs (do_sret s') mstatus) b_SIE = Z.testbit (csrs s mstatus) b_SIE.
Proof.
  intros Hm Hst Hepc. unfold csr_value in Hst.
  pose proof (bits_of_sstatus _ _ b_SPP eq_refl Hst) as Hspp. pose proof (bits_of_sstatus _ _ b_SPIE eq_refl Hst) as Hspie.
  unfold trap_S in Hspp, Hspie. cbn [csrs set_mode set_pc set_csr] in Hspp, Hspie. rewrite fn_lookup_insert in Hspp, Hspie.
  unfold b_SPP, b_SPIE, b_SIE in *. rewrite !testbit_set_bit in Hspp, Hspie by lia. rewrite Hm in *. simpl in Hspp, Hspie.
  unfold do_sret, b_SPP, b_SPIE, b_SIE. cbn [csrs set_mode set_pc set_csr mode pc]. rewrite fn_lookup_insert, !testbit_set_bit by lia.
  rewrite Hspp. simpl. split; [done|]. split; [done|]. rewrite Hspie. done.
Qed.

(** The part of kernelvec after the call. *)
Lemma kernelvec_leave code cpa s cause tval pa t3 :
  regs_ok (gpr s) → mode s = Supervisor → 256 ≤ gpr s sp → gpr t3 zero = 0 → mode t3 = Supervisor →
  fetches (fun _ => False) t3 code cpa → window (fun _ => False) t3 (gpr s sp - 256) pa 256 → gpr t3 sp = gpr s sp - 256 →
  (∀ r o, (r, o) ∈ kernelvec_regs → ld64 (ram t3) (pa + o) = if decide (r = sp) then gpr s sp - 256 else gpr s r) →
  csr_value sstatus t3 = csr_value sstatus (trap_S cause tval s) → csrs t3 sepc = pc s →
  wp (run code cpa (restores sp restored_regs ++ [Addi sp sp 256; Sret])) (fun f s' => f = Left ∧ resumed s s') t3.
Proof.
  intros Hr Hm H256 Hz3 Hm3 Hf3 Hw3 Hsp3 Hld Hst Hepc.
  apply (run_restores (fun _ => False) code cpa sp (gpr s sp - 256) pa 256); [done|done|done|by_dec| |].
  { apply Forall_forall. intros [r o] Hin. pose proof (restored_saved _ _ Hin) as [Hin' _]. simpl. split.
    - intros ->. revert Hin. by_dec.
    - intros ->. by rewrite (Hld sp o Hin'). }
  set (t4 := set_gprs _ t3).
  assert (Hg : ∀ r, r ≠ tp → gpr t4 r = if decide (r = sp) then gpr s sp - 256 else gpr s r).
  { intros r H1. destruct (decide (r = zero)) as [->|H2].
    - unfold t4, set_gprs. cbn [gpr]. rewrite loads_out by (intros o; by_dec). rewrite Hz3. by destruct Hr.
    - destruct (restored_offset r H1 H2) as [o Hin]. pose proof (restored_saved _ _ Hin) as [Hin' _].
      rewrite <- (Hld r o Hin'). apply loads_in; [by_dec|done]. }
  eapply (wp_step (fun _ => False)); [by apply (fetches_same _ t3)|]. apply wp_bind, wp_gets. apply wp_bind, wp_modify, wp_ret.
  rewrite Hg by done. rewrite decide_True by done. set (t5 := set_gpr sp _ t4).
  eapply (wp_step (fun _ => False)); [by apply (fetches_same _ t3)|]. apply wp_bind, wp_get.
  rewrite bool_decide_false by (change (mode t5) with (mode t3); by rewrite Hm3).
  apply wp_bind, wp_modify, wp_ret. split; [done|]. destruct (sret_resumes s cause tval t5 Hm Hst Hepc) as (E1 & E2 & E3).
  split; try done. intros r Hrtp. change (gpr (do_sret t5) r) with (gpr t5 r). unfold t5.
  destruct (decide (r = sp)) as [->|Hne].
  - rewrite gpr_set_eq by done. rewrite u64_small; [lia|]. destruct Hr as [_ Hr]. specialize (Hr sp). lia.
  - rewrite gpr_set_ne, Hg by done. by rewrite decide_False.
Qed.

End kernelvec.

(** ** timervec *)

Section timervec.
Context {HW : Platform}.

Lemma fetches_M D s code : mode s = Machine → fetches D s code code.
Proof. intros Hm. apply fetches_bare. by left. Qed.
Lemma window_M D s va n : mode s = Machine → va mod 8 = 0 → 0 ≤ va → va + n ≤ 2 ^ 64 → window D s va va n.
Proof. intros Hm. apply window_bare. by left. Qed.

Lemma wp_sd_M s code r o b v w l Q :
  mode s = Machine → gpr s b = v → gpr s r = w → v mod 8 = 0 → o mod 8 = 0 → 0 ≤ o → 0 ≤ v → v + (o + 8) ≤ 2 ^ 64 →
  wp (run code code l) Q (set_ram (st64 (ram s) (v + o) w) s) → wp (run code code (Sd r o b :: l)) Q s.
Proof.
  intros Hm Hb <- H1 H2 H3 H4 H5 HQ. apply (wp_sd (fun _ => False) s code code r o b v v (o + 8)); try done; try lia.
  - by apply fetches_M.
  - by apply window_M.
Qed.
Lemma wp_ld_M s code r o b v w l Q :
  mode s = Machine → gpr s b = v → ld64 (ram s) (v + o) = w → v mod 8 = 0 → o mod 8 = 0 → 0 ≤ o → 0 ≤ v → v + (o + 8) ≤ 2 ^ 64 →
  wp (run code code l) Q (set_gpr r w s) → wp (run code code (Ld r o b :: l)) Q s.
Proof.
  intros Hm Hb <- H1 H2 H3 H4 H5 HQ. apply (wp_ld (fun _ => False) s code code r o b v v (o + 8)); try done; try lia.
  - by apply fetches_M.
  - by apply window_M.
Qed.
Lemma wp_swap_M s code l Q :
  mode s = Machine →
  wp (run code code l) Q (set_gpr a0 (csrs s mscratch) (set_csr mscratch (gpr s a0) s)) →
  wp (run code code (Csrrw a0 mscratch a0 :: l)) Q s.
Proof.
  intros Hm HQ. eapply (wp_step (fun _ => False)); [by apply fetches_M|]. unfold exec, csrr, csrw, rd, wr.
  apply wp_bind, wp_gets. apply wp_bind, wp_bind, wp_get. rewrite Hm. apply wp_ret.
  apply wp_bind, wp_bind, wp_get. rewrite Hm. apply wp_modify. apply wp_bind, wp_modify, wp_ret.
  unfold csr_store, csr_value. rewrite warl_scratch by (by left). done.
Qed.

(** The memory that start() has prepared for the timer interrupts of a hart:
    mscratch points to it, its fourth word is the address of a register of
    the CLINT. *)
Record timer_area (s : mach) : Prop := {
  ta_align : csrs s mscratch mod 8 = 0;
  ta_range : 0 ≤ csrs s mscratch ∧ csrs s mscratch + 40 ≤ 2 ^ 64;
  ta_cmp : ld64 (ram s) (csrs s mscratch + 24) mod 8 = 0;
  ta_apart : let c := ld64 (ram s) (csrs s mscratch + 24) in
    c + 8 ≤ csrs s mscratch ∨ csrs s mscratch + 40 ≤ c ∧ c + 8 ≤ 2 ^ 64 }.

(** The state after a timer interrupt in [s]. *)
Record ticked (s s' : mach) : Prop := {
  ti_gpr r : gpr s' r = gpr s r;
  ti_pc : pc s' = pc s ∧ mode s' = mode s;
  ti_mie : Z.testbit (csrs s' mstatus) b_MIE = Z.testbit (csrs s mstatus) b_MIE;
  ti_scratch : csrs s' mscratch = csrs s mscratch;
  ti_cmp : let sc := csrs s mscratch in let c := ld64 (ram s) (sc + 24) in
    ld64 (ram s') c = u64 (ld64 (ram s) c + ld64 (ram s) (sc + 32));
  ti_mem b : ¬ bytes_of (csrs s mscratch) 24 b → ¬ bytes_of (ld64 (ram s) (csrs s mscratch + 24)) 8 b →
    ld8 (ram s') b = ld8 (ram s) b;
  ti_sip : csrs s' mip = merge (Z.land (csrs s mideleg) SIE_SSIE) (csrs s mip) 2;
  ti_csrs c : c ∉ [mstatus; mepc; mcause; mip] → csrs s' c = csrs s c }.

Definition timer_regs : list (reg * Z) := [(a1, 0); (a2, 8); (a3, 16)].

(** Between the saving and the restoring of its registers. *)
Lemma timervec_middle code s sc c m k Q :
  mode s = Machine → gpr s a0 = sc → ld64 (ram s) (sc + 24) = c → ld64 (ram s) (sc + 32) = k → ram s = m →
  sc mod 8 = 0 → 0 ≤ sc → sc + 40 ≤ 2 ^ 64 → c mod 8 = 0 → 0 ≤ c → c + 8 ≤ 2 ^ 64 →
  (∀ t, mode t = Machine → ram t = st64 m c (u64 (ld64 m c + k)) → (∀ r, r ∉ [a1; a2; a3] → gpr t r = gpr s r) →
    csrs t = <[mip := merge (Z.land (csrs s mideleg) SIE_SSIE) (csrs s mip) 2]> (csrs s) →
    wp (run code code [Ld a3 16 a0; Ld a2 8 a0; Ld a1 0 a0; Csrrw a0 mscratch a0; Mret]) Q t) →
  wp (run code code [Ld a1 24 a0; Ld a2 32 a0; Ld a3 0 a1; Add a3 a3 a2; Sd a3 0 a1; Li a1 2; Csrw sip a1;
    Ld a3 16 a0; Ld a2 8 a0; Ld a1 0 a0; Csrrw a0 mscratch a0; Mret]) Q s.
Proof.
  intros Hm Ha0 Hc Hk <- H1 H2 H3 H4 H5 H6 HQ.
  apply (wp_ld_M _ code a1 24 a0 sc c); [done|done|done|done|done|lia|lia|lia|].
  apply (wp_ld_M _ code a2 32 a0 sc k); [done|done|done|done|done|lia|lia|lia|].
  apply (wp_ld_M _ code a3 0 a1 c (ld64 (ram s) c)); [done|done|by rewrite Z.add_0_r|done|done|lia|lia|lia|].
  eapply (wp_step (fun _ => False)); [by apply fetches_M|]. apply wp_bind, wp_gets. apply wp_bind, wp_gets. apply wp_bind, wp_modify, wp_ret.
  apply (wp_sd_M _ code a3 0 a1 c (u64 (ld64 (ram s) c + k))); [done|done|done|done|done|lia|lia|lia|].
  eapply (wp_step (fun _ => False)); [by apply fetches_M|]. apply wp_bind, wp_modify, wp_ret.
  eapply (wp_step (fun _ => False)); [by apply fetches_M|]. apply wp_bind, wp_gets. apply wp_bind. unfold csrw. apply wp_bind, wp_get.
  match goal with |- context[mode ?x] => change (mode x) with (mode s) end. rewrite Hm. apply wp_modify, wp_ret.
  rewrite Z.add_0_r. apply HQ; [done|done| |done].
  intros r Hr. rewrite !not_elem_of_cons in Hr. destruct Hr as (Hr1 & Hr2 & Hr3 & _).
  cbn [gpr csr_store set_csr]. rewrite gpr_set_ne by done. cbn [gpr set_ram]. by rewrite !gpr_set_ne by done.
Qed.

Lemma mret_returns cause s s' :
  csrs s' mstatus = csrs (trap_M cause s) mstatus → csrs s' mepc = pc s →
  mode (do_mret s') = mode s ∧ pc (do_mret s') = pc s ∧
  Z.testbit (csrs (do_mret s') mstatus) b_MIE = Z.testbit (csrs s mstatus) b_MIE.
Proof.
  intros Hst Hepc. unfold trap_M in Hst. cbn [csrs set_mode set_pc set_csr] in Hst. rewrite fn_lookup_insert in Hst.
  set (v := csrs s mstatus) in *. unfold do_mret. cbn [mode pc csrs set_mode set_pc set_csr]. rewrite fn_lookup_insert, Hst.
  unfold set_MPP, b_MPP, b_MPIE, b_MIE in *. split; [|split; [done|]].
  - change 11 with b_MPP. rewrite MPP_bits. unfold b_MPP. rewrite !testbit_set_bit by lia. by destruct (mode s).
  - rewrite !testbit_set_bit by lia. done.
Qed.

(** From the restoring of the registers on. *)
Lemma timervec_leave code s cause t :
  mode t = Machine → gpr t a0 = csrs s mscratch → csrs s mscratch mod 8 = 0 → 0 ≤ csrs s mscratch → csrs s mscratch + 40 ≤ 2 ^ 64 →
  (∀ r o, (r, o) ∈ timer_regs → ld64 (ram t) (csrs s mscratch + o) = gpr s r) →
  (∀ r, r ∉ [a0; a1; a2; a3] → gpr t r = gpr s r) →
  csrs t mscratch = gpr s a0 → csrs t mstatus = csrs (trap_M cause s) mstatus → csrs t mepc = pc s →
  wp (run code code [Ld a3 16 a0; Ld a2 8 a0; Ld a1 0 a0; Csrrw a0 mscratch a0; Mret]) (fun f s' => f = Left ∧
    (∀ r, gpr s' r = gpr s r) ∧ (pc s' = pc s ∧ mode s' = mode s) ∧
    Z.testbit (csrs s' mstatus) b_MIE = Z.testbit (csrs s mstatus) b_MIE ∧ ram s' = ram t ∧
    csrs s' mscratch = csrs s mscratch ∧ ∀ c, c ≠ mstatus → c ≠ mscratch → csrs s' c = csrs t c) t.
Proof.
  intros Hm Ha0 Hal Hs0 Hs64 Hw Hg Hsc Hst Hepc. set (sc := csrs s mscratch) in *.
  apply (wp_ld_M _ code a3 16 a0 sc (gpr s a3)); [done|done|apply Hw; by_dec|done|done|lia|lia|lia|].
  apply (wp_ld_M _ code a2 8 a0 sc (gpr s a2)); [done|done|apply Hw; by_dec|done|done|lia|lia|lia|].
  apply (wp_ld_M _ code a1 0 a0 sc (gpr s a1)); [done|done|apply Hw; by_dec|done|done|lia|lia|lia|].
  apply wp_swap_M; [done|]. set (t3 := set_gpr a1 _ _).
  eapply (wp_step (fun _ => False)); [by apply fetches_M|]. apply wp_bind, wp_get.
  set (t4 := set_gpr a0 _ _). rewrite (bool_decide_true (mode t4 = Machine)) by done. apply wp_bind, wp_modify, wp_ret. split; [done|].
  destruct (mret_returns cause s t4 Hst Hepc) as (E1 & E2 & E3). destruct (mret_frame t4) as (Eg & Em & Ec).
  rewrite Eg, Em. split; [|split; [done|]; split; [done|]; split; [done|]; split].
  - intros r. unfold t4, t3.
    destruct (decide (r = a0)) as [->|N0]; [by rewrite gpr_set_eq|]. rewrite gpr_set_ne by done. cbn [gpr set_csr].
    destruct (decide (r = a1)) as [->|N1]; [by rewrite gpr_set_eq|]. rewrite gpr_set_ne by done.
    destruct (decide (r = a2)) as [->|N2]; [by rewrite gpr_set_eq|]. rewrite gpr_set_ne by done.
    destruct (decide (r = a3)) as [->|N3]; [by rewrite gpr_set_eq|]. rewrite gpr_set_ne by done.
    apply Hg. rewrite !not_elem_of_cons. repeat split; [done..|apply not_elem_of_nil].
  - by rewrite Ec.
  - intros c H1 H2. rewrite Ec by done. by apply fn_lookup_insert_ne.
Qed.

(** C13: Timer interrupts are invisible to everything but the kernel's clock.
    When the timer interrupts any code, in any mode, timervec sets the time
    of the next interrupt one interval later, makes a software interrupt
    pending for the kernel, and returns to the interrupted code in its mode,
    with all its registers and all of memory as they were, apart from the
    three words that timervec saves registers in. *)
Theorem timervec_transparent code s cause :
  regs_ok (gpr s) → timer_area s → wp (run code code timervec) (fun f s' => f = Left ∧ ticked s s') (trap_M cause s).
Proof.
  intros [_ Hr] [Hal [Hs0 Hs64] Hcal Hap]. cbv zeta in Hap. unfold timervec.
  set (sc := csrs s mscratch) in *. set (c := ld64 (ram s) (sc + 24)) in *. pose proof (ld64_range (ram s) (sc + 24)) as Hc. fold c in Hc.
  apply wp_swap_M; [done|]. set (t1 := set_gpr a0 _ _).
  assert (Ht : gpr t1 a0 = sc ∧ ram t1 = ram s ∧ csrs t1 mscratch = gpr s a0 ∧ csrs t1 mstatus = csrs (trap_M cause s) mstatus ∧
    csrs t1 mepc = pc s ∧ mode t1 = Machine ∧ ∀ x, x ∉ [mscratch; mstatus; mepc; mcause] → csrs t1 x = csrs s x).
  { repeat (split; [done|]). intros x Hx. rewrite !not_elem_of_cons in Hx. by destruct x, Hx as (? & ? & ? & ? & _). }
  assert (Hg1 : ∀ r, r ≠ a0 → gpr t1 r = gpr s r) by (intros r Hne; unfold t1; by rewrite gpr_set_ne).
  clearbody t1. destruct Ht as (Ha0 & Hm0 & Hsc & Hst & Hepc & Hmo & Hcs).
  apply (run_saves (bytes_of sc 24) code code a0 sc sc 24 timer_regs); [by apply fetches_M|apply window_M; done || lia|done|done|by_dec|].
  assert (Hfr : frame_ok 24 timer_regs) by by_dec. rewrite Hm0.
  set (m1 := stores sc (gpr t1) timer_regs (ram s)).
  assert (Hm1 : same_outside (bytes_of sc 24) (ram s) m1) by (intros b Hb; apply (ld8_stores_out _ _ _ _ 24); [apply Hfr|done]).
  assert (Ho : ∀ a, a + 8 ≤ sc ∨ sc + 24 ≤ a → ld64 m1 a = ld64 (ram s) a).
  { intros a Ha. apply ldn_ext. intros b Hb. apply Hm1. unfold bytes_of. lia. }
  apply (timervec_middle code _ sc c m1 (ld64 (ram s) (sc + 32))); [done|done|apply Ho; lia|apply Ho; lia|done|done|done|done|done|lia|lia|].
  intros t2 Hmo2 Hm2 Hg Hcs2. cbn [gpr csrs set_ram] in Hg, Hcs2.
  eapply wp_mono; [apply (timervec_leave code s cause t2); try done|].
  - rewrite Hg; [done|by_dec].
  - intros r o Hin. pose proof (proj1 (Forall_forall _ _) (proj1 Hfr) _ Hin) as Hro. simpl in Hro.
    rewrite Hm2, ld64_st64_ne by (fold sc; lia). fold sc. unfold m1. rewrite (ld64_stores_in _ _ _ _ 24 r o Hfr Hin).
    rewrite Hg1 by (intros ->; revert Hin; by_dec). apply u64_small, Hr.
  - intros r Hin. rewrite !not_elem_of_cons in Hin. destruct Hin as (? & ? & ? & ? & _).
    rewrite Hg, Hg1; [done|done|]. rewrite !not_elem_of_cons. repeat split; [done..|apply not_elem_of_nil].
  - by rewrite Hcs2, fn_lookup_insert_ne.
  - by rewrite Hcs2, fn_lookup_insert_ne.
  - by rewrite Hcs2, fn_lookup_insert_ne.
  - cbv beta. intros f s' (-> & E1 & E2 & E3 & E4 & E5 & E6). split; [done|]. split; try done.
    + cbv zeta. fold sc c. rewrite E4, Hm2, ld64_st64_eq, (Ho c) by lia. apply u64_small, u64_range.
    + intros b H1 H2. fold sc c in H1, H2. rewrite E4, Hm2. unfold st64. rewrite ld8_stn_out by (unfold bytes_of in H2; lia). by apply Hm1.
    + rewrite E6, Hcs2, fn_lookup_insert by done. by rewrite !Hcs by by_dec.
    + intros x Hx. rewrite !not_elem_of_cons in Hx. destruct Hx as (? & ? & ? & ? & _).
      destruct (decide (x = mscratch)) as [->|Hne]; [done|]. rewrite E6, Hcs2, fn_lookup_insert_ne by done.
      apply Hcs. rewrite !not_elem_of_cons. repeat split; [done..|apply not_elem_of_nil].
Qed.
End timervec.

(** Examples: a hart without paging. *)
Definition sample_mach (p : priv) (m : mem) : mach :=
  mk_mach (fun r => if bool_decide (r = sp) then 0x80010000 else if bool_decide (r = a0) then 0x80020000
                    else if bool_decide (r = a1) then 0x80020100 else 0)
    (fun c => if bool_decide (c = mscratch) then 0x80030000 else 0) p 0x80000000 m.

Lemma sample_mach_ok p m : regs_ok (gpr (sample_mach p m)).
Proof. split; [done|]. intros r. cbn. repeat case_bool_decide; lia. Qed.

Lemma sample_bare p m : bare (sample_mach p m).
Proof. by right. Qed.

Lemma swtch_resumes_witness :
  wp (@run sample_hw 0x80000000 0x80000000 swtch) (fun _ s1 => switched 0x80020000 0x80020100 (sample_mach Supervisor (fun _ => 0)) s1)
    (sample_mach Supervisor (fun _ => 0)).
Proof.
  set (s := sample_mach Supervisor (fun _ => 0)). set (s2 := set_gpr a0 0x80020100 (set_gpr a1 0x80020000 s)).
  assert (Hb : bare s ∧ bare s2) by (split; by right). destruct Hb as [Hb Hb2].
  assert (Hg : gpr s2 a0 = 0x80020100 ∧ gpr s2 a1 = 0x80020000) by done. destruct Hg as [Hg0 Hg1].
  eapply wp_mono; [eapply (@swtch_resumes sample_hw 0x80000000 0x80000000 s s2 0x80020000 0x80020100 0x80020100)|].
  - apply sample_mach_ok.
  - by apply fetches_bare.
  - by apply window_bare.
  - by apply window_bare.
  - by left.
  - by apply fetches_bare.
  - rewrite Hg0. by apply window_bare.
  - rewrite Hg1. by apply window_bare.
  - by right.
  - cbv beta. intros f s1 (_ & H & _). exact H.
Defined.

(** A kerneltrap that clobbers registers and moves to another CPU. *)
Definition sample_kerneltrap : M mach flow :=
  do! modify (fun s => set_gpr ra 1 (set_gpr a0 2 (set_gpr t6 3 (set_gpr tp 1 s)))); ret Next.


Definition sample_area : mem := st64 (st64 (fun _ => 0) (0x80030000 + 24) 0x2004000) (0x80030000 + 32) 1000000.

Lemma timervec_transparent_witness :
  wp (@run sample_hw 0x80000100 0x80000100 timervec) (fun f s' => f = Left ∧ ticked (sample_mach User sample_area) s')
    (trap_M 0x8000000000000007 (sample_mach User sample_area)).
Proof.
  apply (@timervec_transparent sample_hw); [apply sample_mach_ok|]. split; [reflexivity|by split|reflexivity|by left].
Defined.
