(* ===== verification/Paging.v ===== *)
(** * Page tables as the hardware reads them (kvminithart of kernel/vm.c)

    The translation that a hart makes from a page table is the one that
    walk() computes, and with the table of kvmmake() the kernel can use
    exactly the memory and the devices it should.  After kvminithart() every
    address of the kernel means what it meant before. *)

From stdpp Require Import functions.
From S2P Require Import Prelude Mem Riscv Kalloc Vm PageTable VmMap VmSpace VmKernel Machine Asm.
Import Reg Csr.

(** ** Translation *)

Definition leaf (pte : Z) : bool :=
  has pte PTE_V && negb (negb (has pte PTE_R) && has pte PTE_W) && (has pte PTE_R || has pte PTE_X).

Lemma has_no_rwx v : has v (Z.lor (Z.lor PTE_R PTE_W) PTE_X) = false → has v PTE_R = false ∧ has v PTE_W = false ∧ has v PTE_X = false.
Proof.
  unfold has. rewrite !negb_false_iff, !Z.eqb_eq, !Z.land_lor_distr_r, !Z.lor_eq_0_iff. tauto.
Qed.

Lemma hw_walk_interior m l table va :
  let pte := ld64 m (table + 8 * PX (Z.of_nat (S l)) va) in
  (has pte PTE_V = true → has pte (Z.lor (Z.lor PTE_R PTE_W) PTE_X) = false) →
  hw_walk m (S l) table va = if has pte PTE_V then hw_walk m l (PTE2PA pte) va else None.
Proof.
  intros pte Hi. cbn [hw_walk]. fold pte. destruct (has pte PTE_V) eqn:E; [|done].
  destruct (has_no_rwx pte (Hi eq_refl)) as (-> & -> & ->). done.
Qed.

(** The hardware finds the entry that walk() finds. *)
Lemma hw_walk_pte m root va :
  interior_ok m root →
  hw_walk m 2 root va = if leaf (pte_at m root va) then Some (pte_at m root va, 0) else None.
Proof.
  intros Hi. pose proof (PX_range 2 va) as H2. pose proof (PX_range 1 va) as H1.
  rewrite hw_walk_interior. 2: { apply (Hi [] (PX 2 va) root); [split; [by apply Forall_nil|simpl; lia]|simpl; lia|done|done]. }
  unfold pte_at, pte_addr, va_path. cbn [pt_node]. unfold child. change (Z.of_nat 2) with 2.
  destruct (has (ld64 m (root + 8 * PX 2 va)) PTE_V) eqn:E2; [|done]. set (t1 := PTE2PA _).
  rewrite hw_walk_interior.
  2: { apply (Hi [PX 2 va] (PX 1 va) t1); [split; [by apply Forall_singleton|simpl; lia]|simpl; lia|done|].
    cbn [pt_node]. unfold child. by rewrite E2. }
  change (Z.of_nat 1) with 1. destruct (has (ld64 m (t1 + 8 * PX 1 va)) PTE_V) eqn:E1; [|done].
  cbn [hw_walk]. change (Z.of_nat 0) with 0. unfold leaf. set (pte := ld64 m _).
  destruct (has pte PTE_V), (has pte PTE_R), (has pte PTE_W), (has pte PTE_X); done.
Qed.

Lemma PTE2PA_aligned pte : PTE2PA pte mod PGSIZE = 0.
Proof.
  unfold PTE2PA, u64. rewrite Z.shiftl_mul_pow2 by lia. unfold PGSIZE. generalize (Z.shiftr pte 10). intros q.
  change (2 ^ 64) with (2 ^ 52 * 4096). change (2 ^ 12) with 4096. rewrite Z.mul_mod_distr_r by lia. apply Z.mod_mul. lia.
Qed.

(** The root of the table in satp. *)
Lemma satp_root root :
  0 ≤ root < 2 ^ 56 → root mod PGSIZE = 0 →
  Z.shiftr (MAKE_SATP root) 60 = 8 ∧ MAKE_SATP root mod 2 ^ 44 * PGSIZE = root.
Proof.
  intros H1 H2. unfold MAKE_SATP, SATP_SV39. rewrite Z.shiftl_mul_pow2, (Z.shiftr_div_pow2 root 12) by lia. change (2 ^ 12) with PGSIZE.
  assert (0 ≤ root / PGSIZE < 2 ^ 44) as Hq by (unfold PGSIZE; zdm).
  rewrite (lor_add 8 (root / PGSIZE) 60) by lia. rewrite Z.shiftr_div_pow2 by lia.
  split; [rewrite Z.div_add_l, Z.div_small by lia; lia|].
  change (8 * 2 ^ 60) with (8 * 2 ^ 16 * 2 ^ 44). rewrite Z.add_comm, Z_mod_plus_full, Z.mod_small by lia. unfold PGSIZE in *. zdm.
Qed.

(** A hart that uses the page table at [root]. *)
Definition uses (s : mach) (root : Z) : Prop :=
  mode s ≠ Machine ∧ csrs s satp = MAKE_SATP root ∧ 0 ≤ root < 2 ^ 56 ∧ root mod PGSIZE = 0.

Lemma translate_pte s root acc va :
  uses s root → interior_ok (ram s) root → va < MAXVA →
  translate s acc va =
    let pte := pte_at (ram s) root va in
    if leaf pte && permits acc (mode s) (Z.testbit (csrs s mstatus) b_SUM) pte then Some (PTE2PA pte + va mod PGSIZE) else None.
Proof.
  intros (Hm & Hs & Hr & Ha) Hi Hva. destruct (satp_root root Hr Ha) as [E1 E2]. rewrite MAXVA_eq in Hva.
  unfold translate. rewrite Hs, E1, E2, (proj2 (Z.ltb_lt va (2 ^ 38))), hw_walk_pte by done. cbv zeta.
  set (pte := pte_at _ _ _). change (2 ^ (12 + 9 * 0)) with PGSIZE.
  destruct (leaf pte); [rewrite PTE2PA_aligned, Z.eqb_refl|]; (destruct (mode s); [| |done]); by rewrite ?andb_true_r.
Qed.

(** ** The address space of the kernel *)

Section kernel.
Context {KI : KernelImage} {HW : Platform}.

Definition kvminithart (kernel_pagetable : Z) : M mach unit :=
  do! sfence_vma; do! w_satp (MAKE_SATP kernel_pagetable); sfence_vma.

Definition allowed (acc : access) (perm : Z) : bool :=
  match acc with Fetch => has perm PTE_X | Load => has perm PTE_R | Store => has perm PTE_W end.

(** What the kernel's addresses mean: [l] are the mapped ranges. *)
Fixpoint range_view (l : list (Z * Z * Z * Z)) (acc : access) (va : Z) : option Z :=
  match l with
  | [] => None
  | (a, sz, pa, perm) :: l' =>
      if decide (a ≤ va < a + sz) then if allowed acc perm then Some (pa + (va - a)) else None else range_view l' acc va
  end.
Definition kernel_view (stack : Z → Z) (acc : access) (va : Z) : option Z :=
  if decide (on_stack NPROC va) then
    if allowed acc RW then Some (stack (page_below va / 2) + va mod PGSIZE) else None
  else range_view (rev kernel_ranges) acc va.

Lemma flags_allowed acc sum perm v :
  perm = RW ∨ perm = RX → PTE_FLAGS v = Z.lor perm PTE_V → leaf v && permits acc Supervisor sum v = allowed acc perm.
Proof.
  intros Hp Hv. unfold leaf, permits.
  rewrite (flags_has v _ PTE_V ltac:(done) Hv), (flags_has v _ PTE_R ltac:(done) Hv), (flags_has v _ PTE_W ltac:(done) Hv),
    (flags_has v _ PTE_X ltac:(done) Hv), (flags_has v _ PTE_U ltac:(done) Hv).
  by destruct Hp as [-> | ->], acc.
Qed.

Lemma mapped_view acc sum a pa perm va :
  (pa + (va / PGSIZE * PGSIZE - a)) mod PGSIZE = 0 → 0 ≤ pa + (va / PGSIZE * PGSIZE - a) < 2 ^ 56 → perm = RW ∨ perm = RX →
  (let pte := mapped_pte a pa perm va in
   if leaf pte && permits acc Supervisor sum pte then Some (PTE2PA pte + va mod PGSIZE) else None)
  = if allowed acc perm then Some (pa + (va - a)) else None.
Proof.
  intros H1 H2 Hp. cbv zeta. assert (0 ≤ perm < 2 ^ 10) as H3 by (by destruct Hp as [-> | ->]).
  rewrite (flags_allowed acc sum perm) by (done || by apply mapped_flags). destruct (allowed acc perm); [|done].
  f_equal. unfold mapped_pte. rewrite <- Z.lor_assoc, PTE2PA_pte; [|done|done|apply (lor_range 10 perm PTE_V); done || lia].
  unfold PGSIZE. zdm.
Qed.

Lemma kernel_pte_view acc sum stack va :
  0 ≤ va < MAXVA → (∀ p, 0 ≤ p < NPROC → page_ok (stack p)) →
  (let pte := kernel_pte stack va in
   if leaf pte && permits acc Supervisor sum pte then Some (PTE2PA pte + va mod PGSIZE) else None) = kernel_view stack acc va.
Proof.
  intros Hva Hst. rewrite MAXVA_eq in Hva. pose proof etext_ok as [He1 He2]. pose proof end_ok. pose proof trampoline_ok as (Ht1 & Ht2 & Ht3).
  unfold kernel_pte, kernel_view. case_decide as Ho.
  - destruct Ho as (? & ? & ?).
    assert (page_ok (stack (page_below va / 2))) as Hp by (apply Hst; unfold page_below, TRAMPOLINE, PGSIZE in *; rewrite MAXVA_eq in *; zdm).
    destruct (page_ok_bounds _ Hp) as (? & ? & ?). rewrite mapped_view; [|by rewrite Z.sub_diag, Z.add_0_r|rewrite Z.sub_diag; lia|by left].
    destruct (allowed acc RW); [|done]. f_equal. unfold PGSIZE. zdm.
  - cbn [rev kernel_ranges app range_pte range_view]. unfold PHYSTOP, KERNBASE, PGSIZE in *.
    repeat case_decide; try done;
      (apply mapped_view; [| |by (left + right)];
         unfold TRAMPOLINE, PLIC, UART0, VIRTIO0, PGSIZE, PHYSTOP, KERNBASE in *; rewrite ?MAXVA_eq in *; zdm).
Qed.

(** No address can be written and executed; the pages below the stacks cannot
    be accessed. *)
Lemma view_wx stack va : kernel_view stack Store va = None ∨ kernel_view stack Fetch va = None.
Proof.
  unfold kernel_view. case_decide; [by right|]. cbn [rev kernel_ranges app range_view].
  repeat (case_decide; [by (left + right)|]). by left.
Qed.
Lemma view_guard stack p acc va : 0 ≤ p < NPROC → KSTACK p - PGSIZE ≤ va < KSTACK p → kernel_view stack acc va = None.
Proof.
  intros Hp Hva. pose proof etext_ok. pose proof end_ok. unfold KSTACK, TRAMPOLINE, NPROC, PGSIZE in Hva, Hp. rewrite MAXVA_eq in Hva.
  unfold kernel_view. rewrite decide_False.
  - cbn [rev kernel_ranges app range_view]. unfold TRAMPOLINE, PLIC, UART0, VIRTIO0, PGSIZE, PHYSTOP, KERNBASE in *.
    rewrite ?MAXVA_eq. repeat (rewrite decide_False by lia). done.
  - intros (_ & Hodd & _). unfold page_below, TRAMPOLINE, PGSIZE in Hodd. rewrite MAXVA_eq in Hodd. zdm.
Qed.

(** What a hart of the kernel sees. *)
Record kernel_space (stack : Z → Z) (h : mach) : Prop := {
  ks_view acc va : 0 ≤ va < MAXVA → translate h acc va = kernel_view stack acc va;
  ks_wx va : 0 ≤ va < MAXVA → translate h Store va = None ∨ translate h Fetch va = None;
  ks_guard p acc va : 0 ≤ p < NPROC → KSTACK p - PGSIZE ≤ va < KSTACK p → translate h acc va = None }.

Lemma kernel_map_space pool kpt s stack free h :
  kernel_map pool kpt s stack free → mode h = Supervisor → ram h = memory s → csrs h satp = MAKE_SATP kpt → kernel_space stack h.
Proof.
  intros K Hm Hr Hs.
  assert (page_ok kpt) as Hk by (apply (pt_page _ _ _ (km_pt _ _ _ _ _ K) [] kpt); [split; [by apply Forall_nil|simpl; lia]|done]).
  destruct (page_ok_bounds _ Hk) as (? & ? & ?).
  assert (V : ∀ acc va, 0 ≤ va < MAXVA → translate h acc va = kernel_view stack acc va).
  { intros acc va Hva. rewrite (translate_pte h kpt); [|split; [by rewrite Hm|split; [done|split; [lia|done]]]|rewrite Hr; apply K|lia].
    rewrite Hr, Hm, (km_pte _ _ _ _ _ K va Hva). apply kernel_pte_view; [done|]. intros p Hp. by apply (km_stack _ _ _ _ _ K p). }
  split; [done| |].
  - intros va Hva. rewrite !V by done. apply view_wx.
  - intros p acc va Hp Hva. rewrite V by (unfold KSTACK, TRAMPOLINE, NPROC, PGSIZE in *; rewrite MAXVA_eq in *; lia). by apply (view_guard stack p).
Qed.

(** C10: The kernel's address space.  When at least 137 pages of RAM follow
    the kernel, kinit and kvmmake after it run without a panic; on a hart
    that then executes kvminithart, every virtual address means what it
    should: the devices and the RAM are at their physical addresses, the
    kernel's code can be read and executed, everything else read and written;
    the trampoline is at the top, and below it the stacks of the processes,
    each a page of its own that is not free any more; the page below a stack
    cannot be accessed, nor can any other address.  Nothing can be both
    written and executed. *)
Theorem kernel_address_space s :
  freelist s = 0 → PGROUNDUP end_ + (Z.of_nat kernel_tables + NPROC + 1) * PGSIZE ≤ PHYSTOP →
  wp (do! kinit; kvmmake) (fun kpt s' => ∃ stack free, free_pages s' free ∧
    (∀ p, 0 ≤ p < NPROC → page_ok (stack p) ∧ stack p ∉ free) ∧
    (∀ p q, 0 ≤ p < NPROC → 0 ≤ q < NPROC → stack p = stack q → p = q) ∧
    ∀ h, mode h = Supervisor → ram h = memory s' →
      wp (kvminithart kpt) (fun _ h' => gpr h' = gpr h ∧ pc h' = pc h ∧ ram h' = ram h ∧ kernel_space stack h') h) s.
Proof.
  intros Hs Hroom. eapply wp_mono; [by apply kvmmake_maps|]. cbv beta. intros kpt s' (stack & free & K). exists stack, free.
  split; [apply K|]. split; [intros p Hp; by destruct (km_stack _ _ _ _ _ K p Hp) as (? & _ & ?)|]. split; [apply K|].
  intros h Hm Hr. unfold kvminithart, w_satp, csrw. apply wp_bind, wp_ret. apply wp_bind, wp_bind, wp_get.
  rewrite Hm. apply wp_modify, wp_ret. split; [done|]. split; [done|]. split; [done|].
  assert (page_ok kpt) as Hk by (apply (pt_page _ _ _ (km_pt _ _ _ _ _ K) [] kpt); [split; [by apply Forall_nil|simpl; lia]|done]).
  destruct (page_ok_bounds _ Hk) as (? & ? & ?).
  apply (kernel_map_space (rev all_pages) kpt s' stack free); try done.
  unfold csr_store. rewrite warl_satp by lia. by apply fn_lookup_insert.
Qed.
End kernel.

Lemma kernel_address_space_witness :
  ∃ kpt s', (do! @kinit sample_image; @kvmmake sample_image) (mk_kmem (fun _ => 0) 0) = Ok (kpt, s') ∧
  ∃ stack, ∀ h, mode h = Supervisor → ram h = memory s' →
    wp (@kvminithart sample_hw kpt) (fun _ h' => @kernel_space sample_image stack h') h.
Proof.
  assert (PGROUNDUP (@end_ sample_image) + (Z.of_nat kernel_tables + NPROC + 1) * PGSIZE ≤ PHYSTOP) as Hroom by (by vm_compute).
  destruct (proj1 (wp_ok _ _ _) (@kernel_address_space sample_image sample_hw (mk_kmem (fun _ => 0) 0) eq_refl Hroom))
    as (kpt & s' & E & stack & free & _ & _ & _ & H).
  exists kpt, s'. split; [exact E|]. exists stack. intros h Hm Hr. eapply wp_mono; [exact (H h Hm Hr)|]. cbv beta. intros _ h' (_ & _ & _ & ?). done.
Defined.
