(* ===== verification/Trampoline.v ===== *)
(** * From user space to the kernel and back (kernel/trampoline.S)

    uservec runs with the page table of the process until it has switched to
    the kernel's, userret the other way round; both tables must map the page
    of the code at the same address, and the process's table must map its
    trap frame.  The lemmas say what uservec saves and userret restores. *)

From stdpp Require Import functions.
From S2P Require Import Prelude Mem Riscv Kalloc Vm PageTable VmMap VmCopy VmSpace VmKernel Machine Asm Paging.
Import Reg Csr.

(** The user registers in [struct trapframe]. *)
Definition user_regs : list (reg * Z) :=
  [(ra, 40); (sp, 48); (gp, 56); (tp, 64); (t0, 72); (t1, 80); (t2, 88); (s0, 96); (s1, 104); (a1, 120); (a2, 128);
   (a3, 136); (a4, 144); (a5, 152); (a6, 160); (a7, 168); (s2, 176); (s3, 184); (s4, 192); (s5, 200); (s6, 208); (s7, 216);
   (s8, 224); (s9, 232); (s10, 240); (s11, 248); (t3, 256); (t4, 264); (t5, 272); (t6, 280)].
Definition tf_regs : list (reg * Z) := (a0, 112) :: user_regs.
Definition tf_size : Z := 288.

Lemma tf_regs_all r : r ≠ zero → ∃ o, (r, o) ∈ tf_regs.
Proof.
  intros Hr. assert (Exists (fun x => x.1 = r) tf_regs) as [[q o] [Hin <-]]%Exists_exists by (destruct r; done || by_dec).
  by exists o.
Qed.

Lemma uservec_eq :
  uservec = Csrw sscratch a0 :: Li a0 TRAPFRAME :: saves a0 user_regs ++
    [Csrr t0 sscratch; Sd t0 112 a0; Ld sp 8 a0; Ld tp 32 a0; Ld t0 16 a0; Ld t1 0 a0; SfenceVma; Csrw satp t1; SfenceVma; Jr t0].
Proof. reflexivity. Qed.
Lemma userret_eq :
  userret = SfenceVma :: Csrw satp a0 :: SfenceVma :: Li a0 TRAPFRAME :: restores a0 user_regs ++ [Ld a0 112 a0; Sret].
Proof. reflexivity. Qed.

Section trampoline.
Context {KI : KernelImage} {HW : Platform}.

(** A page table that maps the trampoline, and is not stored in the trap
    frame at [tf]. *)
Record tramp_map (m : mem) (root : Z) (free : list Z) (tf : Z) : Prop := {
  tm_pt : pt_ok m root free;
  tm_int : interior_ok m root;
  tm_tramp : pte_at m root TRAMPOLINE = user_entry trampoline RX;
  tm_tf : ¬ table_page m root tf }.

Lemma tramp_frame m m' root free tf :
  page_ok tf → same_outside (bytes_of tf PGSIZE) m m' → tramp_map m root free tf →
  tramp_map m' root free tf ∧ ∀ va, pte_at m' root va = pte_at m root va.
Proof.
  intros Htf Hm [H1 H2 H3 H4]. set (s := mk_kmem m 0). set (s' := mk_kmem m' 0).
  assert (Hsame : ∀ p, table_page m root p → same_page p s s').
  { intros p Hp b Hb. apply Hm. unfold bytes_of. destruct (table_page_ok _ _ _ _ H1 Hp) as [Hpok _].
    assert (p ≠ tf) as Hne by (by intros ->). destruct (page_ok_disjoint p tf Hpok Htf Hne); lia. }
  assert (Hpte : ∀ va, pte_at m' root va = pte_at m root va) by (by apply (frame_pte s s' root free)).
  split; [|done]. split.
  - apply (frame_pt_ok s s' root free H1 Hsame). by left.
  - by apply (frame_interior s s' root free).
  - by rewrite Hpte.
  - intros Ht. apply H4. by apply (frame_table s s' root free H1 Hsame).
Qed.

Lemma root_bounds m root free : pt_ok m root free → 0 ≤ root < 2 ^ 56 ∧ root mod PGSIZE = 0.
Proof.
  intros Hok. destruct (pt_page _ _ _ Hok [] root) as [Hp _]; [split; [by apply Forall_nil|simpl; lia]|done|].
  destruct (page_ok_bounds _ Hp) as (? & ? & ?). split; [lia|done].
Qed.

Lemma translate_entry s root free tf va pa perm acc o :
  mode s = Supervisor → csrs s satp = MAKE_SATP root → tramp_map (ram s) root free tf →
  va mod PGSIZE = 0 → 0 ≤ va → va + PGSIZE ≤ MAXVA → pte_at (ram s) root va = user_entry pa perm → phys_page pa →
  perm = RW ∨ perm = RX → 0 ≤ o < PGSIZE → allowed acc perm = true → translate s acc (va + o) = Some (pa + o).
Proof.
  intros Hm Hs T Hal H0 Hmax Hpte (Hpa0 & Hpa1 & Hpa2) Hp Ho Hall.
  assert (E : (va + o) / PGSIZE * PGSIZE = va ∧ (va + o) mod PGSIZE = o) by (unfold PGSIZE in *; zdm). destruct E as [E1 E2].
  destruct (root_bounds _ _ _ (tm_pt _ _ _ _ T)) as [Hr1 Hr2].
  rewrite (translate_pte s root); [|split; [by rewrite Hm|split; [done|by split]]|apply T|lia]. cbv zeta.
  rewrite (pte_at_page (ram s) root va (va + o)) in Hpte by (unfold PGSIZE in *; rewrite ?MAXVA_eq in *; zdm).
  rewrite Hpte, Hm. set (sum := Z.testbit _ _).
  pose proof (mapped_view acc sum va pa perm (va + o)) as Hv. unfold mapped_pte in Hv. rewrite E1, Z.sub_diag, Z.add_0_r, Hall in Hv.
  unfold user_entry. cbv zeta in Hv. rewrite Hv by (done || lia). f_equal. lia.
Qed.

Lemma TRAMPOLINE_ok : TRAMPOLINE mod PGSIZE = 0 ∧ 0 ≤ TRAMPOLINE ∧ TRAMPOLINE + PGSIZE ≤ MAXVA.
Proof. by vm_compute. Qed.
Lemma TRAPFRAME_ok : TRAPFRAME mod PGSIZE = 0 ∧ 0 ≤ TRAPFRAME ∧ TRAPFRAME + PGSIZE ≤ MAXVA.
Proof. by vm_compute. Qed.
Lemma tramp_phys : phys_page trampoline.
Proof.
  destruct trampoline_ok as (H1 & H2 & H3). pose proof etext_ok. pose proof end_ok.
  unfold phys_page, PHYSTOP, KERNBASE, PGSIZE in *. split; [lia|]. split; [lia|done].
Qed.

(** A hart that runs the trampoline, with the page table at [root]. *)
Definition on_tramp (s : mach) (root : Z) (free : list Z) (tf : Z) : Prop :=
  mode s = Supervisor ∧ csrs s satp = MAKE_SATP root ∧ tramp_map (ram s) root free tf.

Lemma on_tramp_frame s s' root free tf :
  page_ok tf → mode s' = mode s → csrs s' satp = csrs s satp → same_outside (bytes_of tf PGSIZE) (ram s) (ram s') →
  on_tramp s root free tf → on_tramp s' root free tf.
Proof. intros Htf H1 H2 H3 (? & ? & T). split; [congruence|]. split; [congruence|]. by destruct (tramp_frame _ _ _ _ _ Htf H3 T). Qed.

Lemma fetches_tramp s root free tf :
  page_ok tf → on_tramp s root free tf → fetches (bytes_of tf PGSIZE) s TRAMPOLINE trampoline.
Proof.
  intros Htf H m Hm. destruct (on_tramp_frame s (set_ram m s) root free tf Htf eq_refl eq_refl Hm H) as (H1 & H2 & T).
  destruct TRAMPOLINE_ok as (? & ? & ?). rewrite <- (Z.add_0_r TRAMPOLINE), <- (Z.add_0_r trampoline).
  apply (translate_entry _ root free tf _ _ RX); try done; [apply T|apply tramp_phys|by right].
Qed.

Lemma window_tramp s root free tf n :
  page_ok tf → on_tramp s root free tf → pte_at (ram s) root TRAPFRAME = user_entry tf RW → n ≤ PGSIZE →
  window (bytes_of tf PGSIZE) s TRAPFRAME tf n.
Proof.
  intros Htf H Hpte Hn. destruct TRAPFRAME_ok as (Ha & Hb & Hc). destruct (page_ok_bounds tf Htf) as (? & ? & ?).
  split; [by vm_compute|]. split; [done|]. split; [rewrite MAXVA_eq in Hc; lia|].
  intros m o Hm Ho. destruct (on_tramp_frame s (set_ram m s) root free tf Htf eq_refl eq_refl Hm H) as (Hm1 & Hm2 & T).
  assert (pte_at m root TRAPFRAME = user_entry tf RW) as Hp by (destruct H as (_ & _ & T0); by rewrite (proj2 (tramp_frame _ _ _ _ _ Htf Hm T0))).
  split; apply (translate_entry _ root free tf TRAPFRAME tf RW); try done; (by left) || lia.
Qed.

(** ** uservec *)

(** [h1] has entered the kernel, from a trap after which the hart was in the
    state [h]. *)
Record trapped (tf kroot : Z) (h h1 : mach) : Prop := {
  tr_saved r o : (r, o) ∈ tf_regs → ld64 (ram h1) (tf + o) = gpr h r;
  tr_kept o : o ∈ [0; 8; 16; 24; 32] → ld64 (ram h1) (tf + o) = ld64 (ram h) (tf + o);
  tr_ram : same_outside (bytes_of tf tf_size) (ram h) (ram h1);
  tr_sp : gpr h1 sp = ld64 (ram h) (tf + 8);
  tr_tp : gpr h1 tp = ld64 (ram h) (tf + 32);
  tr_pc : pc h1 = ld64 (ram h) (tf + 16);
  tr_satp : csrs h1 satp = MAKE_SATP kroot ∧ mode h1 = mode h;
  tr_csrs c : c ≠ satp → c ≠ sscratch → csrs h1 c = csrs h c }.

Lemma user_frame : frame_ok tf_size user_regs.
Proof. by_dec. Qed.

(** The switch to the kernel's page table. *)
Lemma uservec_switch h root kroot free kfree tf :
  page_ok tf → on_tramp h root free tf → tramp_map (ram h) kroot kfree tf → gpr h t1 = MAKE_SATP kroot →
  wp (run TRAMPOLINE trampoline [SfenceVma; Csrw satp t1; SfenceVma; Jr t0]) (fun f h1 => f = Left ∧
    h1 = set_pc (gpr h t0) (set_csr satp (MAKE_SATP kroot) h)) h.
Proof.
  intros Htf H K Ht1. pose proof (fetches_tramp h root free tf Htf H) as Hf. destruct H as (Hm & _ & _).
  eapply wp_step; [exact Hf|]. apply wp_ret.
  eapply wp_step; [exact Hf|]. apply wp_bind, wp_gets. apply wp_bind. unfold csrw. apply wp_bind, wp_get.
  rewrite Hm. apply wp_modify, wp_ret. rewrite Ht1. cbn [csr_store].
  destruct (root_bounds _ _ _ (tm_pt _ _ _ _ K)) as [Hkr _]. rewrite warl_satp by done. set (h1 := set_csr satp _ h).
  assert (Hf1 : fetches (bytes_of tf PGSIZE) h1 TRAMPOLINE trampoline) by (by apply (fetches_tramp h1 kroot kfree tf Htf)).
  eapply wp_step; [exact Hf1|]. apply wp_ret. eapply wp_step; [exact Hf1|]. apply wp_bind, wp_gets. apply wp_bind, wp_modify, wp_ret. done.
Qed.

(** From the saving of a0 on. *)
Lemma uservec_enter h root kroot free kfree tf :
  page_ok tf → on_tramp h root free tf → pte_at (ram h) root TRAPFRAME = user_entry tf RW →
  tramp_map (ram h) kroot kfree tf → ld64 (ram h) (tf + 0) = MAKE_SATP kroot → gpr h a0 = TRAPFRAME →
  wp (run TRAMPOLINE trampoline [Csrr t0 sscratch; Sd t0 112 a0; Ld sp 8 a0; Ld tp 32 a0; Ld t0 16 a0; Ld t1 0 a0;
      SfenceVma; Csrw satp t1; SfenceVma; Jr t0])
    (fun f h1 => f = Left ∧ ram h1 = st64 (ram h) (tf + 112) (csrs h sscratch) ∧
      gpr h1 sp = ld64 (ram h) (tf + 8) ∧ gpr h1 tp = ld64 (ram h) (tf + 32) ∧ pc h1 = ld64 (ram h) (tf + 16) ∧
      csrs h1 = <[satp := MAKE_SATP kroot]> (csrs h) ∧ mode h1 = Supervisor) h.
Proof.
  intros Htf H Hpte K Hks Ha0. set (D := bytes_of tf PGSIZE). destruct (page_ok_bounds tf Htf) as (? & ? & ?).
  pose proof (fetches_tramp h root free tf Htf H) as Hf. pose proof (window_tramp h root free tf PGSIZE Htf H Hpte ltac:(lia)) as Hw.
  eapply (wp_step D); [exact Hf|]. apply wp_bind. unfold csrr. apply wp_bind, wp_get.
  rewrite (proj1 H). apply wp_ret, wp_bind, wp_modify, wp_ret. set (h1 := set_gpr t0 _ h).
  eapply (wp_sd D h1); [by apply (fetches_same D h)|by apply (window_same D h)|exact Ha0|lia|unfold PGSIZE; lia|done|].
  set (h2 := set_ram _ h1).
  assert (Hd2 : same_outside D (ram h) (ram h2)) by (intros b Hb; apply ld8_stn_out; unfold D, bytes_of, PGSIZE in Hb; lia).
  assert (Hv : ∀ o, o ∈ [0; 8; 16; 32] → ld64 (ram h2) (tf + o) = ld64 (ram h) (tf + o)).
  { intros o Ho. apply ld64_st64_ne. repeat (apply elem_of_cons in Ho as [->|Ho]); [lia..|by apply elem_of_nil in Ho]. }
  change [Ld sp 8 a0; Ld tp 32 a0; Ld t0 16 a0; Ld t1 0 a0; SfenceVma; Csrw satp t1; SfenceVma; Jr t0]
    with (restores a0 [(sp, 8); (tp, 32); (t0, 16); (t1, 0)] ++ [SfenceVma; Csrw satp t1; SfenceVma; Jr t0]).
  apply (run_restores D TRAMPOLINE trampoline a0 TRAPFRAME tf PGSIZE); [by apply (fetches_same D h)|by apply (window_same D h)|exact Ha0|by_dec| |].
  { apply Forall_forall. intros [r o] Hin. simpl. split; intros ->; revert Hin; by_dec. }
  set (h3 := set_gprs _ h2).
  assert (Hg : ∀ r o, (r, o) ∈ [(sp, 8); (tp, 32); (t0, 16); (t1, 0)] → gpr h3 r = ld64 (ram h) (tf + o)).
  { intros r o Hin. rewrite <- Hv; [apply loads_in; [by_dec|done]|]. repeat (apply elem_of_cons in Hin as [[= _ ->]|Hin]); [in_list..|by apply elem_of_nil in Hin]. }
  eapply wp_mono.
  { apply (uservec_switch h3 root kroot free kfree tf Htf); [by apply (on_tramp_frame h)|by apply (tramp_frame (ram h))|].
    rewrite (Hg t1 0) by by_dec. done. }
  cbv beta. intros f h4 [-> ->]. split; [done|]. split; [done|]. split; [apply (Hg sp 8); by_dec|]. split; [apply (Hg tp 32); by_dec|].
  split; [apply (Hg t0 16); by_dec|]. split; [done|apply H].
Qed.

Lemma uservec_spec h root kroot free kfree tf :
  page_ok tf → on_tramp h root free tf → pte_at (ram h) root TRAPFRAME = user_entry tf RW →
  tramp_map (ram h) kroot kfree tf → ld64 (ram h) tf = MAKE_SATP kroot → regs_ok (gpr h) →
  wp (run TRAMPOLINE trampoline uservec) (fun f h1 => f = Left ∧ trapped tf kroot h h1) h.
Proof.
  intros Htf H Hpte K Hks Hr. set (D := bytes_of tf PGSIZE). rewrite uservec_eq. destruct user_frame as [Hfr Hnd].
  pose proof (fetches_tramp h root free tf Htf H) as Hf. pose proof (window_tramp h root free tf tf_size Htf H Hpte ltac:(done)) as Hw.
  eapply (wp_step D); [exact Hf|]. apply wp_bind, wp_gets. apply wp_bind. unfold csrw. apply wp_bind, wp_get.
  rewrite (proj1 H). apply wp_modify, wp_ret. cbn [csr_store]. rewrite (warl_scratch sscratch _ (or_intror eq_refl)).
  set (h1 := set_csr sscratch _ h).
  eapply (wp_step D); [by apply (fetches_same D h)|]. apply wp_bind, wp_modify, wp_ret. change (u64 TRAPFRAME) with TRAPFRAME.
  set (h2 := set_gpr a0 TRAPFRAME h1).
  apply (run_saves D TRAMPOLINE trampoline a0 TRAPFRAME tf tf_size); [by apply (fetches_same D h)|by apply (window_same D h)|done| |done|].
  { intros b Hb. unfold D, bytes_of, tf_size, PGSIZE in *. lia. }
  set (h3 := set_ram _ h2).
  assert (Hm3 : same_outside (bytes_of tf tf_size) (ram h) (ram h3)) by (intros b Hb; by apply (ld8_stores_out _ _ _ _ tf_size)).
  assert (Hd3 : same_outside D (ram h) (ram h3)) by (intros b Hb; apply Hm3; unfold D, bytes_of, tf_size, PGSIZE in *; lia).
  assert (Hv : ∀ o, o ∈ [0; 8; 16; 24; 32] → ld64 (ram h3) (tf + o) = ld64 (ram h) (tf + o)).
  { intros o Ho. assert (o mod 8 = 0 ∧ o < 40) as [H8 H40] by (repeat (apply elem_of_cons in Ho as [->|Ho]); [done..|by apply elem_of_nil in Ho]).
    apply (ld64_stores_out _ _ _ _ tf_size); [by split|done|]. intros r Hin.
    pose proof (proj1 (Forall_forall (fun x => 40 ≤ x.2) user_regs) ltac:(by_dec) _ Hin). simpl in *. lia. }
  eapply wp_mono.
  { apply (uservec_enter h3 root kroot free kfree tf Htf); [by apply (on_tramp_frame h)| |by apply (tramp_frame (ram h))|by rewrite Hv, Z.add_0_r by in_list|done].
    destruct H as (_ & _ & T). by rewrite (proj2 (tramp_frame _ _ _ _ _ Htf Hd3 T)). }
  cbv beta. intros f h4 (-> & E1 & E2 & E3 & E4 & E5 & E6). split; [done|]. change (csrs h3 sscratch) with (gpr h a0) in E1. split.
  - intros r o [[= -> ->]|Hin]%elem_of_cons; rewrite E1; [rewrite ld64_st64_eq; by apply regs_u64|].
    rewrite ld64_st64_ne by (revert Hin; clear; intros Hin; pose proof (proj1 (Forall_forall (fun x => x.2 + 8 ≤ 112 ∨ 120 ≤ x.2) user_regs) ltac:(by_dec) _ Hin); simpl in *; lia).
    change (ram h3) with (stores tf (gpr h2) user_regs (ram h)). rewrite (ld64_stores_in tf (gpr h2) user_regs (ram h) tf_size r o (conj Hfr Hnd) Hin).
    unfold h2. rewrite gpr_set_ne by (intros ->; revert Hin; by_dec). by apply regs_u64.
  - intros o Ho. rewrite E1, ld64_st64_ne; [by apply Hv|]. repeat (apply elem_of_cons in Ho as [->|Ho]); [lia..|by apply elem_of_nil in Ho].
  - intros b Hb. rewrite E1. unfold st64. rewrite ld8_stn_out by (unfold bytes_of, tf_size in Hb; lia). by apply Hm3.
  - by rewrite E2, Hv by in_list.
  - by rewrite E3, Hv by in_list.
  - by rewrite E4, Hv by in_list.
  - rewrite E5, E6. split; [by apply fn_lookup_insert|symmetry; apply H].
  - intros c H1 H2. rewrite E5, fn_lookup_insert_ne by done. by apply fn_lookup_insert_ne.
Qed.

(** ** userret *)

(** [u] has returned to user space from [h]. *)
Record returned (tf root : Z) (h u : mach) : Prop := {
  rt_mode : mode u = User;
  rt_pc : pc u = csrs h sepc;
  rt_gpr r o : (r, o) ∈ tf_regs → gpr u r = ld64 (ram h) (tf + o);
  rt_zero : gpr u zero = gpr h zero;
  rt_ram : ram u = ram h;
  rt_satp : csrs u satp = MAKE_SATP root;
  rt_sie : Z.testbit (csrs u mstatus) b_SIE = Z.testbit (csrs h mstatus) b_SPIE }.

(** With the page table of the process: from the loading of the registers on. *)
Lemma userret_load h root free tf :
  page_ok tf → on_tramp h root free tf → pte_at (ram h) root TRAPFRAME = user_entry tf RW →
  gpr h a0 = TRAPFRAME → Z.testbit (csrs h mstatus) b_SPP = false →
  wp (run TRAMPOLINE trampoline (restores a0 user_regs ++ [Ld a0 112 a0; Sret])) (fun f u => f = Left ∧ returned tf root h u) h.
Proof.
  intros Htf H Hpte Ha0 Hspp. set (D := bytes_of tf PGSIZE). destruct user_frame as [Hfr Hnd].
  pose proof (fetches_tramp h root free tf Htf H) as Hf. pose proof (window_tramp h root free tf tf_size Htf H Hpte ltac:(done)) as Hw.
  destruct H as (Hm & Hs & _).
  apply (run_restores D TRAMPOLINE trampoline a0 TRAPFRAME tf tf_size); [done|done|done|done| |].
  { apply Forall_forall. intros [r o] Hin. simpl. split; intros ->; revert Hin; by_dec. }
  set (h1 := set_gprs _ h).
  assert (Hg : ∀ r, (∀ o, (r, o) ∉ user_regs) → gpr h1 r = gpr h r) by (intros r Hr; by apply loads_out).
  assert (Hl : ∀ r o, (r, o) ∈ user_regs → gpr h1 r = ld64 (ram h) (tf + o)) by (intros r o Hin; apply loads_in; [by_dec|done]).
  assert (E : mode h1 = mode h ∧ csrs h1 = csrs h ∧ ram h1 = ram h) by done.
  assert (Hf1 : fetches D h1 TRAMPOLINE trampoline) by (by apply (fetches_same D h)).
  assert (Hw1 : window D h1 TRAPFRAME tf tf_size) by (by apply (window_same D h)).
  clearbody h1. destruct E as (E1 & E2 & E3).
  eapply (wp_ld D h1); [exact Hf1|exact Hw1| |lia|done|done|]; [rewrite Hg; [done|intros o; by_dec]|]. set (h2 := set_gpr a0 _ h1).
  assert (E : mode h2 = mode h1 ∧ csrs h2 = csrs h1 ∧ ram h2 = ram h1) by done. destruct E as (E4 & E5 & E6).
  eapply (wp_step D); [by apply (fetches_same D h1)|]. apply wp_bind, wp_get.
  rewrite (bool_decide_false (mode h2 = User)) by (by rewrite E4, E1, Hm). apply wp_bind, wp_modify, wp_ret. split; [done|].
  destruct (sret_frame h2) as (F1 & F2 & F3).
  assert (Hg2 : ∀ r, r ≠ a0 → gpr h2 r = gpr h1 r) by (intros r Hr; unfold h2; by rewrite gpr_set_ne).
  assert (Ha2 : gpr h2 a0 = ld64 (ram h) (tf + 112)) by (unfold h2; by rewrite gpr_set_eq, E3).
  clearbody h2. split.
  - unfold do_sret. cbn [mode set_mode]. by rewrite E5, E2, Hspp.
  - unfold do_sret. cbn [pc set_mode set_pc]. by rewrite E5, E2.
  - intros r o [[= -> ->]|Hin]%elem_of_cons; rewrite F1; [done|]. rewrite Hg2 by (intros ->; revert Hin; by_dec). by apply Hl.
  - rewrite F1, Hg2 by done. apply Hg. intros o. by_dec.
  - by rewrite F2, E6, E3.
  - by rewrite F3, E5, E2.
  - unfold do_sret. cbn [csrs set_mode set_pc set_csr]. rewrite fn_lookup_insert. unfold b_SIE, b_SPIE, b_SPP in *.
    rewrite !testbit_set_bit by lia. rewrite E5, E2. done.
Qed.

Lemma userret_spec h root kroot free kfree tf :
  page_ok tf → on_tramp h kroot kfree tf → tramp_map (ram h) root free tf → pte_at (ram h) root TRAPFRAME = user_entry tf RW →
  gpr h a0 = MAKE_SATP root → Z.testbit (csrs h mstatus) b_SPP = false →
  wp (run TRAMPOLINE trampoline userret) (fun f u => f = Left ∧ returned tf root h u) h.
Proof.
  intros Htf H T Hpte Ha0 Hspp. rewrite userret_eq. set (D := bytes_of tf PGSIZE).
  pose proof (fetches_tramp h kroot kfree tf Htf H) as Hf. destruct H as (Hm & _ & _).
  eapply (wp_step D); [exact Hf|]. apply wp_ret.
  eapply (wp_step D); [exact Hf|]. apply wp_bind, wp_gets. apply wp_bind. unfold csrw. apply wp_bind, wp_get.
  rewrite Hm. apply wp_modify, wp_ret. rewrite Ha0. cbn [csr_store].
  destruct (root_bounds _ _ _ (tm_pt _ _ _ _ T)) as [Hr _]. rewrite warl_satp by done. set (h1 := set_csr satp _ h).
  assert (H1 : on_tramp h1 root free tf) by done.
  eapply (wp_step D); [by apply (fetches_tramp h1 root free tf)|]. apply wp_ret.
  eapply (wp_step D); [by apply (fetches_tramp h1 root free tf)|]. apply wp_bind, wp_modify, wp_ret.
  change (u64 TRAPFRAME) with TRAPFRAME. set (h2 := set_gpr a0 TRAPFRAME h1).
  eapply wp_mono; [apply (userret_load h2 root free tf); done|]. cbv beta. intros f u [-> [R1 R2 R3 R4 R5 R6 R7]]. by split.
Qed.
End trampoline.
