(* ===== verification/Spinlock.v ===== *)
(** * Spin locks (kernel/spinlock.c)

    A machine is a set of CPUs, each with its nesting count of disabled
    interrupts, and a set of locks.  The functions of spinlock.c are
    composed of the memory accesses that other CPUs can observe: the atomic
    swap on [lk->locked], and the stores to [lk->cpu] and [lk->locked].
    [lock_step] interleaves these accesses of all CPUs in any order; the
    theorems show mutual exclusion, that [holding] tells the truth in the
    presence of the races it has, and that interrupts stay off on a CPU that
    holds a lock. *)

From stdpp Require Import functions relations.
From S2P Require Import Prelude.

(** The fields of [struct cpu] that locks use, and the interrupt-enable bit
    of the CPU's sstatus register. *)
Record cpu := mk_cpu { noff : Z; intena : bool; sie : bool }.

(** [lcpu]: [lk->cpu], [None] for the null pointer. *)
Record spinlock := mk_spinlock { locked : Z; lcpu : option Z }.

Record machine := mk_machine { cpus : Z → cpu; locks : Z → spinlock }.

Definition upd_cpu (c : Z) (f : cpu → cpu) (m : machine) : machine :=
  mk_machine (alter f c (cpus m)) (locks m).
Definition upd_lock (k : Z) (f : spinlock → spinlock) (m : machine) : machine :=
  mk_machine (cpus m) (alter f k (locks m)).

Definition initlock (k : Z) : M machine unit := modify (upd_lock k (fun _ => mk_spinlock 0 None)).

(** Each function takes the number [c] of the CPU that runs it ([cpuid]). *)

(** [holding] reads [lk->locked] and then [lk->cpu]: two accesses, between
    which other CPUs run. *)
Definition read_locked (k : Z) : M machine Z := gets (fun m => locked (locks m k)).
Definition owner_is (c k l : Z) : M machine bool :=
  gets (fun m => negb (l =? 0) && bool_decide (lcpu (locks m k) = Some c)).
Definition holding (c k : Z) : M machine bool :=
  do l <- read_locked k; owner_is c k l.

Definition intr_on (b : cpu) : cpu := mk_cpu (noff b) (intena b) true.
Definition intr_off (b : cpu) : cpu := mk_cpu (noff b) (intena b) false.

Definition push_off (c : Z) : M machine unit :=
  do old <- gets (fun m => sie (cpus m c));
  do! modify (upd_cpu c intr_off);
  do n <- gets (fun m => noff (cpus m c));
  do! (if n =? 0 then modify (upd_cpu c (fun b => mk_cpu (noff b) old (sie b))) else ret tt);
  modify (upd_cpu c (fun b => mk_cpu (noff b + 1) (intena b) (sie b))).

Definition pop_off (c : Z) : M machine unit :=
  do on <- gets (fun m => sie (cpus m c));
  if on then panic "pop_off - interruptible"
  else
    do n <- gets (fun m => noff (cpus m c));
    if n <? 1 then panic "pop_off"
    else
      do! modify (upd_cpu c (fun b => mk_cpu (noff b - 1) (intena b) (sie b)));
      do b <- gets (fun m => cpus m c);
      if (noff b =? 0) && intena b then modify (upd_cpu c intr_on) else ret tt.

(** The accesses of [acquire] after [push_off] and the read of
    [lk->locked]: the rest of [holding] with the test on it, one atomic swap,
    and the store after a successful swap. *)
Definition acquire_check (c k l : Z) : M machine unit :=
  do h <- owner_is c k l;
  if h then panic "acquire" else ret tt.
Definition test_and_set (k : Z) : M machine Z :=
  do old <- gets (fun m => locked (locks m k));
  do! modify (upd_lock k (fun l => mk_spinlock 1 (lcpu l)));
  ret old.
Definition acquire_finish (c k : Z) : M machine unit :=
  modify (upd_lock k (fun l => mk_spinlock (locked l) (Some c))).

(** Run without other CPUs, [acquire] of a taken lock spins for ever. *)
Definition acquire (c k : Z) : M machine unit :=
  do! push_off c;
  do l <- read_locked k;
  do! acquire_check c k l;
  do old <- test_and_set k;
  if negb (old =? 0) then sleeps "spin" else acquire_finish c k.

(** [release] after the read of [lk->locked]: the rest of [holding], the
    store to [lk->cpu], the store to [lk->locked], [pop_off]. *)
Definition release_check (c k l : Z) : M machine unit :=
  do h <- owner_is c k l;
  if negb h then panic "release"
  else modify (upd_lock k (fun l => mk_spinlock (locked l) None)).
Definition lock_release (k : Z) : M machine unit :=
  modify (upd_lock k (fun l => mk_spinlock 0 (lcpu l))).
Definition release (c k : Z) : M machine unit :=
  do l <- read_locked k;
  do! release_check c k l;
  do! lock_release k;
  pop_off c.

(** ** Interleaving

    Where a CPU is: in code outside [acquire] and [release] ([Run]); in
    [acquire] of a lock after [push_off], after the read of [lk->locked], in
    the loop, past a successful swap; in [release] after the read, after the
    store to [lk->cpu], after the store to [lk->locked]; or stopped in
    [panic]. *)
Inductive where_at :=
| Run
| Entered (k : Z)
| Tested (k l : Z)
| Spinning (k : Z)
| Swapped (k : Z)
| RTested (k l : Z)
| Cleared (k : Z)
| Unlocked (k : Z)
| Halted (msg : string) (k : Z).

(** [owned c]: the locks that CPU [c] has acquired and not released. *)
Record sys := mk_sys { mach : machine; at_ : Z → where_at; owned : Z → list Z }.

Definition go (s : sys) (m : machine) (c : Z) (w : where_at) : sys :=
  mk_sys m (<[c:=w]> (at_ s)) (owned s).

Inductive lock_step (s : sys) : sys → Prop :=
| step_enter c k m' :
    at_ s c = Run → push_off c (mach s) = Ok (tt, m') → lock_step s (go s m' c (Entered k))
| step_test c k l :
    at_ s c = Entered k → read_locked k (mach s) = Ok (l, mach s) →
    lock_step s (go s (mach s) c (Tested k l))
| step_check c k l m' :
    at_ s c = Tested k l → acquire_check c k l (mach s) = Ok (tt, m') →
    lock_step s (go s m' c (Spinning k))
| step_check_panic c k l msg :
    at_ s c = Tested k l → acquire_check c k l (mach s) = Panic msg →
    lock_step s (go s (mach s) c (Halted msg k))
| step_spin c k old m' :
    at_ s c = Spinning k → test_and_set k (mach s) = Ok (old, m') → old ≠ 0 →
    lock_step s (go s m' c (Spinning k))
| step_swap c k m' :
    at_ s c = Spinning k → test_and_set k (mach s) = Ok (0, m') →
    lock_step s (go s m' c (Swapped k))
| step_finish c k m' :
    at_ s c = Swapped k → acquire_finish c k (mach s) = Ok (tt, m') →
    lock_step s (mk_sys m' (<[c:=Run]> (at_ s)) (<[c:=k :: owned s c]> (owned s)))
| step_rtest c k l :
    at_ s c = Run → read_locked k (mach s) = Ok (l, mach s) →
    lock_step s (go s (mach s) c (RTested k l))
| step_rcheck c k l m' :
    at_ s c = RTested k l → release_check c k l (mach s) = Ok (tt, m') →
    lock_step s (mk_sys m' (<[c:=Cleared k]> (at_ s))
                  (<[c:=filter (fun k' => k' ≠ k) (owned s c)]> (owned s)))
| step_rcheck_panic c k l msg :
    at_ s c = RTested k l → release_check c k l (mach s) = Panic msg →
    lock_step s (go s (mach s) c (Halted msg k))
| step_unlock c k m' :
    at_ s c = Cleared k → lock_release k (mach s) = Ok (tt, m') →
    lock_step s (go s m' c (Unlocked k))
| step_pop c k m' :
    at_ s c = Unlocked k → pop_off c (mach s) = Ok (tt, m') →
    lock_step s (go s m' c Run)
| step_pop_panic c k msg :
    at_ s c = Unlocked k → pop_off c (mach s) = Panic msg →
    lock_step s (go s (mach s) c (Halted msg k))
| step_intr c on :
    (* intr_on() and intr_off() in code that holds no lock *)
    at_ s c = Run → noff (cpus (mach s) c) = 0 →
    lock_step s (go s (upd_cpu c (if on : bool then intr_on else intr_off) (mach s)) c Run).

(** All locks initialised by [initlock], all CPUs outside the lock code. *)
Definition lock_init (s : sys) : Prop :=
  (∀ k, locks (mach s) k = mk_spinlock 0 None) ∧
  (∀ c, noff (cpus (mach s) c) = 0 ∧ at_ s c = Run ∧ owned s c = []).

(** ** The invariant *)

(** CPU [c] has the lock [k]: from its successful swap to its store of 0. *)
Definition has_lock (s : sys) (c k : Z) : Prop :=
  at_ s c = Swapped k ∨ at_ s c = Cleared k ∨ k ∈ owned s c.

(** Calls of [push_off] without their [pop_off], apart from owned locks. *)
Definition inside (w : where_at) : Z :=
  match w with
  | Entered _ | Tested _ _ | Spinning _ | Swapped _ | Cleared _ | Unlocked _ => 1
  | _ => 0
  end.

Record lock_inv (s : sys) : Prop := {
  li_locked : ∀ k, locked (locks (mach s) k) ≠ 0 ↔ ∃ c, has_lock s c k;
  li_excl : ∀ c c' k, has_lock s c k → has_lock s c' k → c = c';
  li_cpu : ∀ c k, lcpu (locks (mach s) k) = Some c ↔ k ∈ owned s c;
  li_nodup : ∀ c, NoDup (owned s c);
  li_transit : ∀ c k, at_ s c = Swapped k ∨ at_ s c = Cleared k → k ∉ owned s c;
  li_noff : ∀ c, Z.of_nat (length (owned s c)) + inside (at_ s c) ≤ noff (cpus (mach s) c) ∧
    ((∀ msg k, at_ s c ≠ Halted msg k) →
     noff (cpus (mach s) c) = Z.of_nat (length (owned s c)) + inside (at_ s c));
  li_off : ∀ c, 0 < noff (cpus (mach s) c) → sie (cpus (mach s) c) = false;
  li_tested : ∀ c k l, at_ s c = Tested k l ∨ at_ s c = RTested k l → k ∈ owned s c → l ≠ 0;
  li_halted : ∀ c msg k, at_ s c = Halted msg k →
    (msg = "acquire" ∧ k ∈ owned s c) ∨ (msg = "release" ∧ k ∉ owned s c)
}.

Lemma push_off_spec c m :
  ∃ m', push_off c m = Ok (tt, m') ∧ locks m' = locks m ∧
    (∀ d, d ≠ c → cpus m' d = cpus m d) ∧
    cpus m' c = mk_cpu (noff (cpus m c) + 1)
      (if noff (cpus m c) =? 0 then sie (cpus m c) else intena (cpus m c)) false.
Proof.
  unfold push_off, bind, gets, modify. cbn. rewrite fn_lookup_alter. cbn.
  destruct (noff (cpus m c) =? 0); cbn; eexists; (split; [reflexivity|]); cbn;
    rewrite !fn_lookup_alter; cbn;
    (split; [done|split; [|done]]); intros d Hd; by rewrite !fn_lookup_alter_ne.
Qed.

Lemma pop_off_spec c m :
  sie (cpus m c) = false → 1 ≤ noff (cpus m c) →
  ∃ m', pop_off c m = Ok (tt, m') ∧ locks m' = locks m ∧
    (∀ d, d ≠ c → cpus m' d = cpus m d) ∧
    cpus m' c = mk_cpu (noff (cpus m c) - 1) (intena (cpus m c))
      ((noff (cpus m c) =? 1) && intena (cpus m c)).
Proof.
  intros Hs Hn. unfold pop_off, bind, gets. rewrite Hs, (proj2 (Z.ltb_ge _ _) Hn). cbn.
  rewrite fn_lookup_alter. cbn.
  replace (noff (cpus m c) - 1 =? 0) with (noff (cpus m c) =? 1)
    by (destruct (Z.eqb_spec (noff (cpus m c)) 1), (Z.eqb_spec (noff (cpus m c) - 1) 0); lia).
  destruct (_ && _) eqn:E; cbn; eexists; (split; [reflexivity|]); cbn;
    (split; [done|split]).
  - intros d Hd. by rewrite !fn_lookup_alter_ne.
  - rewrite !fn_lookup_alter. done.
  - intros d Hd. by rewrite fn_lookup_alter_ne.
  - rewrite fn_lookup_alter, Hs. done.
Qed.

(** Case analysis on whose entry an updated function returns. *)
Ltac at_cases c d :=
  destruct (decide (c = d)) as [<-|];
  [rewrite ?fn_lookup_insert in *|rewrite ?fn_lookup_insert_ne in * by done].

(** A step of [c] that neither takes nor gives up a lock. *)
Lemma lock_inv_quiet s c w m' :
  lock_inv s →
  (∀ k, at_ s c ≠ Swapped k ∧ at_ s c ≠ Cleared k) → (∀ k, w ≠ Swapped k ∧ w ≠ Cleared k) →
  (∀ k, locked (locks m' k) ≠ 0 ↔ locked (locks (mach s) k) ≠ 0) →
  (∀ k, lcpu (locks m' k) = lcpu (locks (mach s) k)) →
  (∀ d, d ≠ c → cpus m' d = cpus (mach s) d) →
  Z.of_nat (length (owned s c)) + inside w ≤ noff (cpus m' c) →
  ((∀ msg k, w ≠ Halted msg k) → noff (cpus m' c) = Z.of_nat (length (owned s c)) + inside w) →
  (0 < noff (cpus m' c) → sie (cpus m' c) = false) →
  (∀ k l, w = Tested k l ∨ w = RTested k l → k ∈ owned s c → l ≠ 0) →
  (∀ msg k, w = Halted msg k →
    (msg = "acquire" ∧ k ∈ owned s c) ∨ (msg = "release" ∧ k ∉ owned s c)) →
  lock_inv (go s m' c w).
Proof.
  intros Hi Hat Hw Hlk Hcpu Hother Hn1 Hn2 Hoff Htest Hhalt.
  assert (Hhas : ∀ d k, has_lock (go s m' c w) d k ↔ has_lock s d k).
  { intros d k. unfold has_lock, go. cbn. at_cases c d; [|done].
    specialize (Hat k). specialize (Hw k). tauto. }
  split; cbn [go mach at_ owned].
  - intros k. rewrite Hlk, (li_locked s Hi k). by setoid_rewrite Hhas.
  - intros d d' k. rewrite !Hhas. apply (li_excl s Hi).
  - intros d k. rewrite Hcpu. apply (li_cpu s Hi).
  - apply (li_nodup s Hi).
  - intros d k. at_cases c d; [specialize (Hw k); tauto|]. apply (li_transit s Hi).
  - intros d. at_cases c d; [done|]. rewrite Hother by done. apply (li_noff s Hi).
  - intros d. destruct (decide (d = c)) as [->|]; [done|]. rewrite Hother by done.
    apply (li_off s Hi).
  - intros d k l. at_cases c d; [apply Htest|apply (li_tested s Hi)].
  - intros d msg k. at_cases c d; [apply Hhalt|apply (li_halted s Hi)].
Qed.

(** The steps that take or give up a lock. *)
Lemma lock_inv_swap s c k m' :
  lock_inv s → at_ s c = Spinning k → test_and_set k (mach s) = Ok (0, m') →
  lock_inv (go s m' c (Swapped k)).
Proof.
  intros Hi Hc Hm. injection Hm as Hfree <-.
  assert (Hno : ∀ d, ¬ has_lock s d k) by (intros d Hd; apply (li_locked s Hi k); eauto).
  assert (Hhas : ∀ d k', has_lock (go s (upd_lock k (fun l => mk_spinlock 1 (lcpu l)) (mach s))
      c (Swapped k)) d k' ↔ has_lock s d k' ∨ (d = c ∧ k' = k)).
  { intros d k'. unfold has_lock. cbn. at_cases c d; [rewrite Hc|]; naive_solver. }
  split; cbn [go mach at_ owned upd_lock cpus locks].
  - intros k'. setoid_rewrite Hhas. destruct (decide (k = k')) as [<-|].
    + rewrite fn_lookup_alter. cbn. split; [eauto|done].
    + rewrite fn_lookup_alter_ne, (li_locked s Hi) by done. naive_solver.
  - intros d d' k'. rewrite !Hhas. intros [?|[-> ->]] [?|[-> ?]]; subst; try done;
      solve [by apply (li_excl s Hi _ _ k')|by exfalso; eapply Hno].
  - intros d k'. destruct (decide (k = k')) as [<-|].
    + rewrite fn_lookup_alter. apply (li_cpu s Hi).
    + rewrite fn_lookup_alter_ne by done. apply (li_cpu s Hi).
  - apply (li_nodup s Hi).
  - intros d k'. at_cases c d; [|apply (li_transit s Hi)]. intros [[= <-]|?]; [|done].
    intros Hk. apply (Hno c). right. by right.
  - intros d. pose proof (li_noff s Hi d) as Hn. at_cases c d; [|done]. rewrite Hc in Hn.
    split; [apply Hn|]. intros _. by apply Hn.
  - apply (li_off s Hi).
  - intros d k' l. at_cases c d; [naive_solver|apply (li_tested s Hi)].
  - intros d msg k'. at_cases c d; [done|apply (li_halted s Hi)].
Qed.

Lemma lock_inv_finish s c k m' :
  lock_inv s → at_ s c = Swapped k → acquire_finish c k (mach s) = Ok (tt, m') →
  lock_inv (mk_sys m' (<[c:=Run]> (at_ s)) (<[c:=k :: owned s c]> (owned s))).
Proof.
  intros Hi Hc Hm. injection Hm as <-.
  assert (Hck : has_lock s c k) by (by left).
  assert (Hhas : ∀ d k', has_lock (mk_sys (upd_lock k (fun l => mk_spinlock (locked l) (Some c))
      (mach s)) (<[c:=Run]> (at_ s)) (<[c:=k :: owned s c]> (owned s))) d k' ↔ has_lock s d k').
  { intros d k'. unfold has_lock. cbn. at_cases c d; [rewrite Hc, elem_of_cons|done].
    naive_solver. }
  split; cbn [mach at_ owned upd_lock cpus locks].
  - intros k'. setoid_rewrite Hhas. rewrite <- (li_locked s Hi k').
    destruct (decide (k = k')) as [<-|];
      [by rewrite fn_lookup_alter|by rewrite fn_lookup_alter_ne].
  - intros d d' k'. rewrite !Hhas. apply (li_excl s Hi).
  - intros d k'. destruct (decide (k = k')) as [<-|].
    + rewrite fn_lookup_alter. cbn. at_cases c d; [set_solver by done|].
      split; [congruence|]. intros Hd. exfalso.
      assert (c = d) by (apply (li_excl s Hi c d k); [done|by right; right]). done.
    + rewrite fn_lookup_alter_ne, (li_cpu s Hi) by done. at_cases c d; [|done].
      rewrite elem_of_cons. naive_solver.
  - intros d. at_cases c d; [|apply (li_nodup s Hi)]. apply NoDup_cons.
    split; [apply (li_transit s Hi); by left|apply (li_nodup s Hi)].
  - intros d k'. at_cases c d; [naive_solver|apply (li_transit s Hi)].
  - intros d. pose proof (li_noff s Hi d) as [Hn1 Hn2]. at_cases c d; [|done].
    rewrite Hc in Hn1, Hn2. cbn [length inside] in *. rewrite Nat2Z.inj_succ.
    split; [lia|]. intros _. rewrite Hn2 by done. lia.
  - apply (li_off s Hi).
  - intros d k' l. at_cases c d; [naive_solver|apply (li_tested s Hi)].
  - intros d msg k'. at_cases c d; [done|apply (li_halted s Hi)].
Qed.

Lemma lock_inv_rcheck s c k l m' :
  lock_inv s → at_ s c = RTested k l → release_check c k l (mach s) = Ok (tt, m') →
  lock_inv (mk_sys m' (<[c:=Cleared k]> (at_ s))
             (<[c:=filter (fun k' => k' ≠ k) (owned s c)]> (owned s))).
Proof.
  intros Hi Hc Hm. unfold release_check, bind, owner_is, gets in Hm.
  destruct (negb (l =? 0) && bool_decide _) eqn:E; [|done].
  apply andb_prop in E as [_ E%bool_decide_eq_true_1]. injection Hm as <-.
  pose proof (proj1 (li_cpu s Hi c k) E) as Hown.
  assert (Hlen : length (owned s c) = S (length (filter (fun k' => k' ≠ k) (owned s c)))).
  { apply length_filter_ne; [apply (li_nodup s Hi)|done]. }
  assert (Hhas : ∀ d k', has_lock (mk_sys (upd_lock k (fun l => mk_spinlock (locked l) None)
      (mach s)) (<[c:=Cleared k]> (at_ s))
      (<[c:=filter (fun k' => k' ≠ k) (owned s c)]> (owned s))) d k' ↔ has_lock s d k').
  { intros d k'. unfold has_lock. cbn. at_cases c d; [|done].
    rewrite Hc, list_elem_of_filter. destruct (decide (k' = k)) as [->|]; naive_solver. }
  split; cbn [mach at_ owned upd_lock cpus locks].
  - intros k'. setoid_rewrite Hhas. rewrite <- (li_locked s Hi k').
    destruct (decide (k = k')) as [<-|];
      [by rewrite fn_lookup_alter|by rewrite fn_lookup_alter_ne].
  - intros d d' k'. rewrite !Hhas. apply (li_excl s Hi).
  - intros d k'. destruct (decide (k = k')) as [<-|].
    + rewrite fn_lookup_alter. cbn. at_cases c d; [rewrite list_elem_of_filter; naive_solver|].
      split; [done|]. intros Hd%(li_cpu s Hi). congruence.
    + rewrite fn_lookup_alter_ne, (li_cpu s Hi) by done. at_cases c d; [|done].
      rewrite list_elem_of_filter. naive_solver.
  - intros d. at_cases c d; [|apply (li_nodup s Hi)]. apply NoDup_filter, (li_nodup s Hi).
  - intros d k'. at_cases c d; [|apply (li_transit s Hi)].
    rewrite list_elem_of_filter. naive_solver.
  - intros d. pose proof (li_noff s Hi d) as [Hn1 Hn2]. at_cases c d; [|done].
    rewrite Hc in Hn1, Hn2. cbn [inside] in *. split; [lia|]. intros _. rewrite Hn2 by done. lia.
  - apply (li_off s Hi).
  - intros d k' l'. at_cases c d; [naive_solver|apply (li_tested s Hi)].
  - intros d msg k'. at_cases c d; [done|apply (li_halted s Hi)].
Qed.

Lemma lock_inv_unlock s c k m' :
  lock_inv s → at_ s c = Cleared k → lock_release k (mach s) = Ok (tt, m') →
  lock_inv (go s m' c (Unlocked k)).
Proof.
  intros Hi Hc Hm. injection Hm as <-.
  assert (Hck : has_lock s c k) by (right; by left).
  assert (Hhas : ∀ d k', has_lock (go s (upd_lock k (fun l => mk_spinlock 0 (lcpu l)) (mach s))
      c (Unlocked k)) d k' ↔ has_lock s d k' ∧ k' ≠ k).
  { intros d k'. destruct (decide (k' = k)) as [->|Hk].
    - split; [|naive_solver]. intros Hd. assert (has_lock s d k) as Hd'.
      { revert Hd. unfold has_lock. cbn. at_cases c d; naive_solver. }
      pose proof (li_excl s Hi c d k Hck Hd') as <-. revert Hd. unfold has_lock. cbn.
      rewrite fn_lookup_insert. intros [?|[?|Hk]]; [done..|].
      by apply (li_transit s Hi c k) in Hk; [|right].
    - unfold has_lock. cbn. at_cases c d; [rewrite Hc|]; naive_solver. }
  split; cbn [go mach at_ owned upd_lock cpus locks].
  - intros k'. setoid_rewrite Hhas. destruct (decide (k = k')) as [<-|].
    + rewrite fn_lookup_alter. cbn. naive_solver.
    + rewrite fn_lookup_alter_ne, (li_locked s Hi) by done. naive_solver.
  - intros d d' k'. rewrite !Hhas. intros [? _] [? _]. by apply (li_excl s Hi _ _ k').
  - intros d k'. rewrite <- (li_cpu s Hi). destruct (decide (k = k')) as [<-|];
      [by rewrite fn_lookup_alter|by rewrite fn_lookup_alter_ne].
  - apply (li_nodup s Hi).
  - intros d k'. at_cases c d; [naive_solver|apply (li_transit s Hi)].
  - intros d. pose proof (li_noff s Hi d) as Hn. at_cases c d; [|done]. rewrite Hc in Hn.
    split; [apply Hn|]. intros _. by apply Hn.
  - apply (li_off s Hi).
  - intros d k' l. at_cases c d; [naive_solver|apply (li_tested s Hi)].
  - intros d msg k'. at_cases c d; [done|apply (li_halted s Hi)].
Qed.

Lemma lock_inv_init s : lock_init s → lock_inv s.
Proof.
  intros [Hl Hc].
  assert (∀ c k, ¬ has_lock s c k) as Hno.
  { intros c k. unfold has_lock. destruct (Hc c) as (_ & -> & ->).
    rewrite elem_of_nil. naive_solver. }
  split.
  - intros k. rewrite Hl. naive_solver.
  - intros c c' k H. by apply Hno in H.
  - intros c k. rewrite Hl. destruct (Hc c) as (_ & _ & ->). by rewrite elem_of_nil.
  - intros c. destruct (Hc c) as (_ & _ & ->). constructor.
  - intros c k. destruct (Hc c) as (_ & -> & _). naive_solver.
  - intros c. destruct (Hc c) as (-> & -> & ->). done.
  - intros c. destruct (Hc c) as (-> & _). lia.
  - intros c k l. destruct (Hc c) as (_ & -> & _). naive_solver.
  - intros c msg k. by destruct (Hc c) as (_ & -> & _).
Qed.

Lemma lock_inv_step s s' : lock_inv s → lock_step s s' → lock_inv s'.
Proof.
  intros Hi Hs. destruct Hs as [c k m' Hc Hm|c k l Hc Hm|c k l m' Hc Hm|c k l msg Hc Hm|
    c k old m' Hc Hm Hold|c k m' Hc Hm|c k m' Hc Hm|c k l Hc Hm|c k l m' Hc Hm|c k l msg Hc Hm|
    c k m' Hc Hm|c k m' Hc Hm|c k msg Hc Hm|c on Hc Hn0];
    try (by eapply lock_inv_swap); try (by eapply lock_inv_finish);
    try (by eapply lock_inv_rcheck); try (by eapply lock_inv_unlock);
    pose proof (li_noff s Hi c) as [Hn1 Hn2]; rewrite Hc in Hn1, Hn2; cbn [inside] in *;
    specialize (Hn2 ltac:(done)).
  - destruct (push_off_spec c (mach s)) as (m1 & Heq & Hlk & Hoth & Hc').
    rewrite Hm in Heq. injection Heq as <-.
    apply lock_inv_quiet; rewrite ?Hc, ?Hlk, ?Hc'; try done; cbn; try lia; naive_solver.
  - injection Hm as <-. apply lock_inv_quiet; rewrite ?Hc; try done; cbn [inside]; try lia.
    + apply (li_off s Hi).
    + intros k' l [[= <- <-]|?] Hk; [|done]. apply (li_locked s Hi). exists c. by right; right.
  - unfold acquire_check, bind, owner_is, gets in Hm. case_test_in Hm; [done|..];
      injection Hm as <-; apply lock_inv_quiet; rewrite ?Hc; try done; cbn [inside];
      try lia; try apply (li_off s Hi); naive_solver.
  - unfold acquire_check, bind, owner_is, gets in Hm. case_test_in Hm; [|done..].
    injection Hm as <-. apply lock_inv_quiet; rewrite ?Hc; try done; cbn [inside]; try lia.
    + naive_solver.
    + apply (li_off s Hi).
    + naive_solver.
    + intros ? ? [= <- <-]. left. split; [done|]. apply (li_cpu s Hi).
      by apply bool_decide_eq_true_1 in H0.
  - injection Hm as <- <-. apply lock_inv_quiet; rewrite ?Hc; try done; cbn [inside upd_lock
      locks cpus]; try lia; try apply (li_off s Hi); try naive_solver.
    + intros k'. destruct (decide (k = k')) as [<-|];
        [by rewrite fn_lookup_alter|by rewrite fn_lookup_alter_ne].
    + intros k'. destruct (decide (k = k')) as [<-|];
        [by rewrite fn_lookup_alter|by rewrite fn_lookup_alter_ne].
  - injection Hm as <-. apply lock_inv_quiet; rewrite ?Hc; try done; cbn [inside]; try lia.
    + apply (li_off s Hi).
    + intros k' l [?|[= <- <-]] Hk; [done|]. apply (li_locked s Hi). exists c. by right; right.
  - unfold release_check, bind, owner_is, gets in Hm.
    destruct (negb (l =? 0) && bool_decide _) eqn:E; [done|].
    injection Hm as <-. apply lock_inv_quiet; rewrite ?Hc; try done; cbn [inside]; try lia.
    + apply (li_off s Hi).
    + naive_solver.
    + intros ? ? [= <- <-]. right. split; [done|]. intros Hk.
      pose proof (li_tested s Hi c k l (or_intror Hc) Hk).
      apply (li_cpu s Hi) in Hk. rewrite bool_decide_eq_true_2 in E by done.
      destruct (Z.eqb_spec l 0); done.
  - destruct (pop_off_spec c (mach s)) as (m1 & Heq & Hlk & Hoth & Hc');
      [apply (li_off s Hi); lia|lia|]. rewrite Hm in Heq. injection Heq as <-.
    apply lock_inv_quiet; rewrite ?Hc, ?Hlk, ?Hc'; try done; cbn [inside noff sie]; try lia;
      try naive_solver.
  - exfalso. destruct (pop_off_spec c (mach s)) as (m1 & Heq & _);
      [apply (li_off s Hi); lia|lia|]. by rewrite Hm in Heq.
  - apply lock_inv_quiet; rewrite ?Hc; try done; cbn [inside upd_cpu cpus];
      rewrite ?fn_lookup_alter; try (destruct on; cbn; lia); try naive_solver.
    intros d Hd. by rewrite fn_lookup_alter_ne.
Qed.

Lemma lock_inv_reach s0 s : lock_init s0 → rtc lock_step s0 s → lock_inv s.
Proof.
  intros H0 Hr. apply lock_inv_init in H0.
  induction Hr as [s|s1 s2 s3 Hs _ IH]; [done|]. by eapply IH, lock_inv_step.
Qed.

(** C15: mutual exclusion of spin locks, for any number of CPUs whose accesses
    to the locks interleave in any order.  A lock is owned by one CPU at a
    time, and interrupts are off there; [holding] answers whether the calling
    CPU owns the lock, though it reads the lock's two fields one after the
    other; an [acquire] panics only on a lock the CPU already owns, a
    [release] only on one it does not own, and the panics of [pop_off] are
    not reached; and a lock that no CPU has can be taken. *)
Theorem spinlock_mutual_exclusion s0 s :
  lock_init s0 → rtc lock_step s0 s →
  (∀ c c' k, k ∈ owned s c → k ∈ owned s c' → c = c') ∧
  (∀ c k, k ∈ owned s c → sie (cpus (mach s) c) = false) ∧
  (∀ c k, holding c k (mach s) = Ok (bool_decide (k ∈ owned s c), mach s)) ∧
  (∀ c msg k, at_ s c = Halted msg k →
    (msg = "acquire" ∧ k ∈ owned s c) ∨ (msg = "release" ∧ k ∉ owned s c)) ∧
  (∀ k, (∀ c, ¬ has_lock s c k) → ∃ m', test_and_set k (mach s) = Ok (0, m')).
Proof.
  intros H0 Hr. pose proof (lock_inv_reach s0 s H0 Hr) as Hi. repeat apply conj.
  - intros c c' k Hk Hk'. apply (li_excl s Hi c c' k); right; by right.
  - intros c k Hk. apply (li_off s Hi). destruct (li_noff s Hi c) as [Hn _].
    assert (owned s c ≠ []) by (by destruct (owned s c); [apply not_elem_of_nil in Hk|]).
    destruct (owned s c); [done|]. destruct (at_ s c); cbn in *; lia.
  - intros c k. unfold holding, bind, read_locked, owner_is, gets. do 2 f_equal.
    destruct (bool_decide_reflect (k ∈ owned s c)) as [Hk|Hk].
    + apply andb_true_intro. split; [|by apply bool_decide_eq_true_2, (li_cpu s Hi)].
      apply negb_true_iff, Z.eqb_neq. apply (li_locked s Hi). exists c. right. by right.
    + rewrite bool_decide_eq_false_2 by (by rewrite (li_cpu s Hi)). apply andb_false_r.
  - apply (li_halted s Hi).
  - intros k Hno. eexists. unfold test_and_set, bind, gets, modify, ret. repeat f_equal.
    destruct (Z.eq_dec (locked (locks (mach s) k)) 0) as [|Hl]; [done|].
    apply (li_locked s Hi) in Hl as [c Hc]. by apply Hno in Hc.
Qed.

(** ** Nesting of disabled interrupts *)

Fixpoint times {S} (n : nat) (f : M S unit) : M S unit :=
  match n with O => ret tt | S n' => do! f; times n' f end.

Lemma push_offs c n m :
  0 ≤ noff (cpus m c) →
  ∃ m', times (S n) (push_off c) m = Ok (tt, m') ∧
    noff (cpus m' c) = noff (cpus m c) + Z.of_nat (S n) ∧
    intena (cpus m' c) = (if noff (cpus m c) =? 0 then sie (cpus m c) else intena (cpus m c)) ∧
    sie (cpus m' c) = false.
Proof.
  revert m; induction n as [|n IH]; intros m Hn;
    destruct (push_off_spec c m) as (m1 & Hm1 & _ & _ & Hc); cbn [times];
    rewrite (bind_ok _ _ _ _ _ Hm1).
  - exists m1. rewrite Hc. cbn. done.
  - destruct (IH m1) as (m2 & Hm2 & Hn2 & Hi2 & Hs2); [rewrite Hc; cbn; lia|].
    exists m2. cbn [times] in Hm2. rewrite Hm2. split; [done|].
    rewrite Hn2, Hi2, Hc. cbn. rewrite (proj2 (Z.eqb_neq _ 0)) by lia. repeat split; lia || done.
Qed.

Lemma pop_offs c n m :
  sie (cpus m c) = false → Z.of_nat (S n) ≤ noff (cpus m c) →
  ∃ m', times (S n) (pop_off c) m = Ok (tt, m') ∧
    noff (cpus m' c) = noff (cpus m c) - Z.of_nat (S n) ∧
    sie (cpus m' c) = (noff (cpus m c) =? Z.of_nat (S n)) && intena (cpus m c).
Proof.
  revert m; induction n as [|n IH]; intros m Hs Hn;
    destruct (pop_off_spec c m Hs ltac:(lia)) as (m1 & Hm1 & _ & _ & Hc); cbn [times];
    rewrite (bind_ok _ _ _ _ _ Hm1).
  - exists m1. rewrite Hc. cbn. repeat split.
  - destruct (IH m1) as (m2 & Hm2 & Hn2 & Hs2).
    { rewrite Hc. cbn. by rewrite (proj2 (Z.eqb_neq _ 1)) by lia. }
    { rewrite Hc. cbn. lia. }
    exists m2. cbn [times] in Hm2. rewrite Hm2. split; [done|]. rewrite Hn2, Hs2, Hc. cbn.
    split; [lia|]. f_equal.
    destruct (Z.eqb_spec (noff (cpus m c) - 1) (Z.of_nat (S n))),
      (Z.eqb_spec (noff (cpus m c)) (Z.of_nat (S (S n)))); lia.
Qed.

(** [push_off] and [pop_off] are matched: [n] calls of the one are undone
    by [n] calls of the other, the nesting count and the interrupt-enable
    bit come back, and interrupts are off in between. *)
Theorem push_pop_off c n m :
  0 ≤ noff (cpus m c) → (0 < noff (cpus m c) → sie (cpus m c) = false) →
  ∃ m1 m2, times (S n) (push_off c) m = Ok (tt, m1) ∧ sie (cpus m1 c) = false ∧
    times (S n) (pop_off c) m1 = Ok (tt, m2) ∧
    noff (cpus m2 c) = noff (cpus m c) ∧ sie (cpus m2 c) = sie (cpus m c).
Proof.
  intros Hn Hs. destruct (push_offs c n m Hn) as (m1 & Hm1 & Hn1 & Hi1 & Hs1).
  destruct (pop_offs c n m1 Hs1 ltac:(lia)) as (m2 & Hm2 & Hn2 & Hs2).
  exists m1, m2. split; [done|]. split; [done|]. split; [done|]. split; [lia|].
  rewrite Hs2, Hn1, Hi1. destruct (Z.eqb_spec (noff (cpus m c)) 0) as [->|Hne].
  - by rewrite Z.add_0_l, Z.eqb_refl.
  - rewrite (proj2 (Z.eqb_neq _ _)) by lia. symmetry. apply Hs. lia.
Qed.

(** ** Examples *)

Definition sample_machine : machine :=
  mk_machine (fun _ => mk_cpu 0 false true) (fun _ => mk_spinlock 0 None).
Definition sample_sys : sys := mk_sys sample_machine (fun _ => Run) (fun _ => []).

(** CPU 0 takes lock 5. *)
Lemma spinlock_mutual_exclusion_witness :
  ∃ s, rtc lock_step sample_sys s ∧ owned s 0 = [5] ∧
    (∀ c, 5 ∈ owned s c → c = 0) ∧ holding 1 5 (mach s) = Ok (false, mach s).
Proof.
  assert (Hr : ∃ s, rtc lock_step sample_sys s ∧ owned s 0 = [5] ∧ owned s 1 = []).
  { eexists. split.
    - eapply rtc_l; [by apply (step_enter _ 0 5)|].
      eapply rtc_l; [by apply (step_test _ 0 5)|].
      eapply rtc_l; [by eapply (step_check _ 0 5)|].
      eapply rtc_l; [by apply (step_swap _ 0 5)|].
      eapply rtc_l; [by apply (step_finish _ 0 5)|]. apply rtc_refl.
    - by split. }
  destruct Hr as (s & Hr & Ho & Ho1). exists s.
  destruct (spinlock_mutual_exclusion sample_sys s) as (Hm & _ & Hh & _); [by split|done|].
  split; [done|]. split; [done|]. split.
  - intros c Hc. apply (Hm c 0 5 Hc). rewrite Ho. by left.
  - rewrite Hh, Ho1. done.
Defined.

Lemma push_pop_off_witness :
  ∃ m1 m2, times 2 (push_off 0) sample_machine = Ok (tt, m1) ∧ sie (cpus m1 0) = false ∧
    times 2 (pop_off 0) m1 = Ok (tt, m2) ∧
    noff (cpus m2 0) = 0 ∧ sie (cpus m2 0) = true.
Proof. apply (push_pop_off 0 1 sample_machine); cbn; lia. Defined.
