(* ===== verification/Sleeplock.v ===== *)
(** * Sleep locks (kernel/sleeplock.c)

    The spin lock [lk->lk] makes each part of the functions between
    [acquire(&lk->lk)], [sleep] and [release(&lk->lk)] atomic.  The functions
    below are these parts, over the fields of the lock; [sleep_step]
    interleaves the processes that use one lock. *)

From stdpp Require Import functions relations.
From S2P Require Import Prelude.

Record sleeplock := mk_sleeplock { slocked : Z; spid : Z }.

Definition initsleeplock : sleeplock := mk_sleeplock 0 0.

(** One evaluation of the loop condition of [acquiresleep] by the process
    with pid [mypid]: it sleeps on the lock, or takes it. *)
Definition acquiresleep (mypid : Z) : M sleeplock unit := fun lk =>
  if negb (slocked lk =? 0) then Sleeps "sleeplock" else Ok (tt, mk_sleeplock 1 mypid).

(** The processes sleeping on the lock are woken by the caller's
    [wakeup(lk)]. *)
Definition releasesleep : M sleeplock unit := fun _ => Ok (tt, mk_sleeplock 0 0).

Definition holdingsleep (mypid : Z) (lk : sleeplock) : bool :=
  negb (slocked lk =? 0) && (spid lk =? mypid).

(** ** Processes that use a lock

    A process is outside ([Out]), about to test the loop condition of
    [acquiresleep] ([Trying]), asleep in it ([Asleep]), or past it
    ([Owner]). *)
Inductive user_state := Out | Trying | Asleep | Owner.

Record slock_sys := mk_slock_sys { lk : sleeplock; users : Z → user_state }.

(** [wakeup(lk)]: every sleeper returns from [sleep] and tests again. *)
Definition wake (u : user_state) : user_state :=
  match u with Asleep => Trying | _ => u end.

Inductive sleep_step (s : slock_sys) : slock_sys → Prop :=
| sl_call p : users s p = Out → sleep_step s (mk_slock_sys (lk s) (<[p:=Trying]> (users s)))
| sl_take p lk' :
    users s p = Trying → acquiresleep p (lk s) = Ok (tt, lk') →
    sleep_step s (mk_slock_sys lk' (<[p:=Owner]> (users s)))
| sl_sleep p ch :
    users s p = Trying → acquiresleep p (lk s) = Sleeps ch →
    sleep_step s (mk_slock_sys (lk s) (<[p:=Asleep]> (users s)))
| sl_release p lk' :
    users s p = Owner → releasesleep (lk s) = Ok (tt, lk') →
    sleep_step s (mk_slock_sys lk' (fun q => wake (<[p:=Out]> (users s) q))).

Record slock_inv (s : slock_sys) : Prop := {
  sl_excl : ∀ p q, users s p = Owner → users s q = Owner → p = q;
  sl_owner : slocked (lk s) ≠ 0 → users s (spid (lk s)) = Owner;
  sl_locked : ∀ p, users s p = Owner → slocked (lk s) ≠ 0 ∧ spid (lk s) = p;
  sl_asleep : ∀ p, users s p = Asleep → slocked (lk s) ≠ 0
}.

Lemma slock_inv_step s s' : slock_inv s → sleep_step s s' → slock_inv s'.
Proof.
  intros Hi Hs. destruct Hs as [p Hp|p lk' Hp Hk|p ch Hp Hk|p lk' Hp Hk].
  - assert (∀ q w, w ≠ Trying → <[p:=Trying]> (users s) q = w ↔ users s q = w ∧ q ≠ p) as Hw.
    { intros q w Hne. destruct (decide (p = q)) as [->|];
        [rewrite fn_lookup_insert|rewrite fn_lookup_insert_ne by done]; naive_solver. }
    split; cbn [lk users].
    + intros q q' [? _]%Hw [? _]%Hw; [|done..]. by apply (sl_excl s Hi).
    + intros Hl. apply Hw; [done|]. pose proof (sl_owner s Hi Hl). split; [done|congruence].
    + intros q [Hq _]%Hw; [|done]. by apply (sl_locked s Hi).
    + intros q [Hq _]%Hw; [|done]. by apply (sl_asleep s Hi q).
  - unfold acquiresleep in Hk. destruct (Z.eqb_spec (slocked (lk s)) 0) as [H0|]; [|done].
    injection Hk as <-. split; cbn [lk users slocked spid].
    + intros q q'. destruct (decide (p = q)) as [<-|], (decide (p = q')) as [<-|]; [done|..];
        rewrite ?fn_lookup_insert, ?fn_lookup_insert_ne by done; intros H1 H2;
        [apply (sl_locked s Hi) in H2|apply (sl_locked s Hi) in H1..]; lia.
    + intros _. by rewrite fn_lookup_insert.
    + intros q. destruct (decide (p = q)) as [<-|]; [done|]. rewrite fn_lookup_insert_ne by done.
      intros [? _]%(sl_locked s Hi). lia.
    + done.
  - unfold acquiresleep in Hk. destruct (Z.eqb_spec (slocked (lk s)) 0) as [|H0]; [done|].
    assert (∀ q, <[p:=Asleep]> (users s) q = Owner ↔ users s q = Owner) as Hw.
    { intros q. destruct (decide (p = q)) as [<-|];
        [rewrite fn_lookup_insert; by rewrite Hp|by rewrite fn_lookup_insert_ne]. }
    split; cbn [lk users].
    + intros q q' H1%Hw H2%Hw. by apply (sl_excl s Hi).
    + intros Hl. by apply Hw, (sl_owner s Hi).
    + intros q Hq%Hw. by apply (sl_locked s Hi).
    + done.
  - injection Hk as <-.
    assert (∀ q, wake (<[p:=Out]> (users s) q) ≠ Owner) as Hw.
    { intros q. destruct (decide (p = q)) as [<-|]; [by rewrite fn_lookup_insert|].
      rewrite fn_lookup_insert_ne by done. destruct (users s q) eqn:E; try done.
      intros _. pose proof (sl_excl s Hi p q Hp E). done. }
    split; cbn [lk users slocked spid]; try done.
    + intros q q' H. by apply Hw in H.
    + intros q H. by apply Hw in H.
    + intros q. by destruct (<[p:=Out]> (users s) q).
Qed.

(** A sleep lock is owned by at most one process, [holdingsleep] answers
    true exactly for its owner, and no wakeup is lost: a process is asleep in
    [acquiresleep] only while some process owns the lock. *)
Theorem sleeplock_exclusive s :
  rtc sleep_step (mk_slock_sys initsleeplock (fun _ => Out)) s →
  (∀ p q, users s p = Owner → users s q = Owner → p = q) ∧
  (∀ p, holdingsleep p (lk s) = true ↔ users s p = Owner) ∧
  (∀ p, users s p = Asleep → ∃ q, users s q = Owner).
Proof.
  intros Hr. assert (Hi : slock_inv s).
  { remember (mk_slock_sys _ _) as s0 eqn:E0. assert (slock_inv s0) as H0 by (subst s0; done).
    clear E0. induction Hr as [|s1 s2 s3 Hs _ IH]; [done|]. by eapply IH, slock_inv_step. }
  split; [apply (sl_excl s Hi)|]. split.
  - intros p. unfold holdingsleep. destruct (Z.eqb_spec (slocked (lk s)) 0) as [H0|H0]; cbn.
    + split; [done|]. by intros [? _]%(sl_locked s Hi).
    + rewrite Z.eqb_eq. split; [intros <-; by apply (sl_owner s Hi)|].
      by intros [_ ?]%(sl_locked s Hi).
  - intros p Hp. exists (spid (lk s)). apply (sl_owner s Hi), (sl_asleep s Hi p Hp).
Qed.

(** Process 3 owns the lock, process 4 waits for it. *)
Lemma sleeplock_exclusive_witness :
  ∃ s, users s 4 = Asleep ∧ (∀ p, users s p = Owner → p = 3) ∧ holdingsleep 3 (lk s) = true.
Proof.
  assert (∃ s, rtc sleep_step (mk_slock_sys initsleeplock (fun _ => Out)) s ∧
    users s 4 = Asleep ∧ users s 3 = Owner) as (s & Hr & H4 & H3).
  { eexists. split.
    - eapply rtc_l; [by apply (sl_call _ 3)|].
      eapply rtc_l; [by apply (sl_take _ 3)|].
      eapply rtc_l; [by apply (sl_call _ 4)|].
      eapply rtc_l; [by eapply (sl_sleep _ 4)|]. apply rtc_refl.
    - by split. }
  destruct (sleeplock_exclusive s Hr) as (Hx & Hh & _).
  exists s. split; [done|]. split; [|by apply Hh]. intros p Hp. by apply Hx.
Defined.
