(* ===== verification/Bio.v ===== *)
(** * Buffer cache (kernel/bio.c)

    Buffers are numbered 0 to NBUF-1 and the list head is number NBUF, so a
    [struct buf*] is a number.  The least-recently-used list is kept in the
    [prev] and [next] fields as in the code.  The disk is an array of blocks
    together with the sequence of the writes it has performed, which the
    crash-safety theorems of the log cut at any point.

    [bcache.lock] makes [bget]'s search and the changes of [refcnt] and of the
    list atomic; the functions here run for one process, whose pid is part of
    the state, and end in [Sleeps] where it would wait for a buffer's lock. *)

From stdpp Require Import functions.
From S2P Require Import Prelude Mem Riscv Sleeplock.

(** The contents of a block: bytes 0 to BSIZE-1 of a memory. *)
Definition BSIZE : Z := 1024.
Definition block : Type := mem.

Record buf := mk_buf {
  valid : bool;      (* has data been read from disk? *)
  dev : Z;
  blockno : Z;
  lock : sleeplock;
  refcnt : Z;
  prev : Z;
  next : Z;
  data : block
}.

Definition set_valid v b := mk_buf v (dev b) (blockno b) (lock b) (refcnt b) (prev b) (next b) (data b).
Definition set_lock v b := mk_buf (valid b) (dev b) (blockno b) v (refcnt b) (prev b) (next b) (data b).
Definition set_refcnt v b := mk_buf (valid b) (dev b) (blockno b) (lock b) v (prev b) (next b) (data b).
Definition set_prev v b := mk_buf (valid b) (dev b) (blockno b) (lock b) (refcnt b) v (next b) (data b).
Definition set_next v b := mk_buf (valid b) (dev b) (blockno b) (lock b) (refcnt b) (prev b) v (data b).
Definition set_data v b := mk_buf (valid b) (dev b) (blockno b) (lock b) (refcnt b) (prev b) (next b) v.

(** Blocks by number, and the writes so far, oldest first. *)
Record disk := mk_disk { blocks : Z → block; writes : list (Z * block) }.

Record bio := mk_bio { bufs : Z → buf; dsk : disk; mypid : Z }.

Definition head : Z := NBUF.

Definition upd_buf (i : Z) (f : buf → buf) : M bio unit :=
  modify (fun s => mk_bio (alter f i (bufs s)) (dsk s) (mypid s)).
Definition the_buf (i : Z) : M bio buf := gets (fun s => bufs s i).

(** A transfer of BSIZE bytes between a buffer and the disk, as a completed
    request of [virtio_disk_rw] leaves it.  The driver does not look at
    [b->dev], and computes the sector number in 32 bits. *)
Definition disk_block (bn : Z) : Z := u32 (bn * (BSIZE / 512)) / (BSIZE / 512).
Definition virtio_disk_rw (i : Z) (write : bool) : M bio unit :=
  do b <- the_buf i;
  let bn := disk_block (blockno b) in
  if write
  then modify (fun s => mk_bio (bufs s)
         (mk_disk (<[bn := data b]> (blocks (dsk s))) (writes (dsk s) ++ [(bn, data b)])) (mypid s))
  else do d <- gets (fun s => blocks (dsk s) bn); upd_buf i (set_data d).

Definition buf_acquiresleep (i : Z) : M bio unit := fun s =>
  match acquiresleep (mypid s) (lock (bufs s i)) with
  | Ok (_, lk) => upd_buf i (set_lock lk) s
  | Panic msg => Panic msg
  | Sleeps ch => Sleeps ch
  | OutOfFuel => OutOfFuel
  end.
Definition buf_releasesleep (i : Z) : M bio unit := upd_buf i (set_lock (mk_sleeplock 0 0)).
Definition buf_holdingsleep (i : Z) : M bio bool :=
  gets (fun s => holdingsleep (mypid s) (lock (bufs s i))).

(** b->next->prev = b->prev; b->prev->next = b->next; *)
Definition unlink (b : Z) : M bio unit :=
  do x <- the_buf b;
  do! upd_buf (next x) (set_prev (prev x));
  do x <- the_buf b;
  upd_buf (prev x) (set_next (next x)).

(** b->next = bcache.head.next; b->prev = &bcache.head;
    bcache.head.next->prev = b; bcache.head.next = b; *)
Definition link_front (b : Z) : M bio unit :=
  do h <- the_buf head;
  do! upd_buf b (set_next (next h));
  do! upd_buf b (set_prev head);
  do h <- the_buf head;
  do! upd_buf (next h) (set_prev b);
  upd_buf head (set_next b).

(** The loop of [binit]: its body, and the iterations for the last [n]
    buffers. *)
Definition binit_body (b : Z) : M bio unit :=
  do h <- the_buf head;
  do! upd_buf b (set_next (next h));
  do! upd_buf b (set_prev head);
  do! upd_buf b (set_lock initsleeplock);
  do h <- the_buf head;
  do! upd_buf (next h) (set_prev b);
  upd_buf head (set_next b).
Fixpoint binit_loop (n : nat) : M bio unit :=
  match n with
  | O => ret tt
  | S n' => do! binit_body (NBUF - Z.of_nat n); binit_loop n'
  end.
Definition binit : M bio unit :=
  do! upd_buf head (set_prev head);
  do! upd_buf head (set_next head);
  binit_loop (Z.to_nat NBUF).

(** for(b = bcache.head.next; b != &bcache.head; b = b->next): the first
    buffer that caches the block. *)
Fixpoint bget_cached (fuel : nat) (b d bn : Z) : M bio (option Z) :=
  if b =? head then ret None
  else
    match fuel with
    | O => out_of_fuel
    | S f =>
        do x <- the_buf b;
        if (dev x =? d) && (blockno x =? bn) then ret (Some b)
        else bget_cached f (next x) d bn
    end.
(** for(b = bcache.head.prev; b != &bcache.head; b = b->prev): the least
    recently used buffer that is not in use. *)
Fixpoint bget_unused (fuel : nat) (b : Z) : M bio (option Z) :=
  if b =? head then ret None
  else
    match fuel with
    | O => out_of_fuel
    | S f =>
        do x <- the_buf b;
        if refcnt x =? 0 then ret (Some b) else bget_unused f (prev x)
    end.
Definition bget (d bn : Z) : M bio Z :=
  do h <- the_buf head;
  do r <- bget_cached (Z.to_nat NBUF) (next h) d bn;
  match r with
  | Some b =>
      do! upd_buf b (fun x => set_refcnt (u32 (refcnt x + 1)) x);
      do! buf_acquiresleep b;
      ret b
  | None =>
      do h <- the_buf head;
      do r <- bget_unused (Z.to_nat NBUF) (prev h);
      match r with
      | Some b =>
          do! upd_buf b (fun x =>
                mk_buf false d bn (lock x) 1 (prev x) (next x) (data x));
          do! buf_acquiresleep b;
          ret b
      | None => panic "bget: no buffers"
      end
  end.

Definition bread (d bn : Z) : M bio Z :=
  do b <- bget d bn;
  do x <- the_buf b;
  do! (if negb (valid x) then
         do! virtio_disk_rw b false;
         upd_buf b (set_valid true)
       else ret tt);
  ret b.

Definition bwrite (b : Z) : M bio unit :=
  do h <- buf_holdingsleep b;
  if negb h then panic "bwrite" else virtio_disk_rw b true.

Definition brelse (b : Z) : M bio unit :=
  do h <- buf_holdingsleep b;
  if negb h then panic "brelse"
  else
    do! buf_releasesleep b;
    do! upd_buf b (fun x => set_refcnt (u32 (refcnt x - 1)) x);
    do x <- the_buf b;
    if refcnt x =? 0 then
      do! unlink b;
      link_front b
    else ret tt.

Definition bpin (b : Z) : M bio unit :=
  upd_buf b (fun x => set_refcnt (u32 (refcnt x + 1)) x).
Definition bunpin (b : Z) : M bio unit :=
  upd_buf b (fun x => set_refcnt (u32 (refcnt x - 1)) x).

(** The running process stays the same. *)
Lemma upd_buf_pid i f : preserves mypid (upd_buf i f).
Proof. unfold upd_buf. frame. Qed.
Lemma buf_acquiresleep_pid i : preserves mypid (buf_acquiresleep i).
Proof.
  intros s a s'. unfold buf_acquiresleep. destruct (acquiresleep _ _) as [[? lk]| | |]; [|done..].
  apply upd_buf_pid.
Qed.
#[export] Hint Resolve upd_buf_pid buf_acquiresleep_pid : frame.
Lemma bget_cached_pid fuel b dv bn : preserves mypid (bget_cached fuel b dv bn).
Proof. revert b; induction fuel; intros b; cbn [bget_cached]; frame. Qed.
Lemma bget_unused_pid fuel b : preserves mypid (bget_unused fuel b).
Proof. revert b; induction fuel; intros b; cbn [bget_unused]; frame. Qed.
#[export] Hint Resolve bget_cached_pid bget_unused_pid : frame.
Lemma bread_pid dv bn : preserves mypid (bread dv bn).
Proof. unfold bread, bget, virtio_disk_rw, the_buf. frame. Qed.
Lemma brelse_pid i : preserves mypid (brelse i).
Proof. unfold brelse, buf_releasesleep, buf_holdingsleep, unlink, link_front, the_buf. frame. Qed.
Lemma bwrite_pid i : preserves mypid (bwrite i).
Proof. unfold bwrite, virtio_disk_rw, buf_holdingsleep, the_buf. frame. Qed.
Lemma bpin_pid i : preserves mypid (bpin i).
Proof. unfold bpin. frame. Qed.
Lemma bunpin_pid i : preserves mypid (bunpin i).
Proof. unfold bunpin. frame. Qed.
#[export] Hint Resolve bread_pid brelse_pid bwrite_pid bpin_pid bunpin_pid : frame.

(** ** The list of buffers *)

(** Neighbours in [l] point to each other. *)
Fixpoint linked (nx pv : Z → Z) (l : list Z) : Prop :=
  match l with
  | a :: (b :: _) as l' => nx a = b ∧ pv b = a ∧ linked nx pv l'
  | _ => True
  end.

Definition nexts (s : bio) (i : Z) : Z := next (bufs s i).
Definition prevs (s : bio) (i : Z) : Z := prev (bufs s i).

Definition buffers : list Z := map Z.of_nat (seq 0 (Z.to_nat NBUF)).

(** The list from the most recently used buffer to the least. *)
Definition lru (s : bio) (l : list Z) : Prop :=
  linked (nexts s) (prevs s) (head :: l ++ [head]) ∧ Permutation l buffers.

Lemma linked_ext nx pv nx' pv' l :
  (∀ a, a ∈ removelast l → nx' a = nx a) → (∀ a, a ∈ tail l → pv' a = pv a) →
  linked nx pv l → linked nx' pv' l.
Proof.
  induction l as [|a [|b l] IH]; intros Hn Hp; [done..|]. intros (Ha & Hb & Hl).
  cbn [linked]. split; [rewrite Hn by (by left); done|].
  split; [rewrite Hp by (by left); done|].
  apply IH; [|intros x Hx; apply Hp; by right|done]. intros x Hx. apply Hn. by right.
Qed.

Lemma linked_cons nx pv a b l :
  linked nx pv (a :: b :: l) ↔ nx a = b ∧ pv b = a ∧ linked nx pv (b :: l).
Proof. done. Qed.

Lemma linked_app nx pv l1 a b l2 :
  linked nx pv (l1 ++ a :: b :: l2) ↔
  linked nx pv (l1 ++ [a]) ∧ nx a = b ∧ pv b = a ∧ linked nx pv (b :: l2).
Proof.
  induction l1 as [|x [|y l1] IH]; [cbn; tauto|cbn; tauto|].
  change ((x :: y :: l1) ++ ?l) with (x :: y :: (l1 ++ l)).
  cbn [linked]. change (y :: l1 ++ ?l) with ((y :: l1) ++ l). rewrite IH. tauto.
Qed.

Lemma buffers_elem i : i ∈ buffers ↔ 0 ≤ i < NBUF.
Proof.
  unfold buffers. rewrite list_elem_of_In, in_map_iff. split.
  - intros (n & <- & Hn%in_seq). unfold NBUF, MAXOPBLOCKS in *. lia.
  - intros Hi. exists (Z.to_nat i). rewrite in_seq. unfold NBUF, MAXOPBLOCKS in *. lia.
Qed.

Lemma buffers_NoDup : NoDup buffers.
Proof. apply NoDup_fmap_2; [apply _|apply NoDup_seq]. Qed.

Lemma lru_elem s l i : lru s l → i ∈ l ↔ 0 ≤ i < NBUF.
Proof. intros [_ Hp]. by rewrite Hp, buffers_elem. Qed.

Lemma lru_NoDup s l : lru s l → NoDup l ∧ head ∉ l.
Proof.
  intros Hl. split; [destruct Hl as [_ ->]; apply buffers_NoDup|].
  rewrite (lru_elem _ _ _ Hl). unfold head. lia.
Qed.

Lemma bget_cached_find fuel a l d bn s :
  linked (nexts s) (prevs s) (a :: l ++ [head]) → head ∉ l → (length l ≤ fuel)%nat →
  bget_cached fuel (nexts s a) d bn s =
    Ok (find (fun i => (dev (bufs s i) =? d) && (blockno (bufs s i) =? bn)) l, s).
Proof.
  revert a l; induction fuel as [|f IH]; intros a [|b l] Hl Hh Hlen; cbn [length] in *;
    try lia; cbn [app linked] in Hl; destruct Hl as (Hn & _ & Hl); rewrite Hn;
    cbn [bget_cached find]; [by rewrite Z.eqb_refl..|].
  apply not_elem_of_cons in Hh as [Hh Hhl]. rewrite (proj2 (Z.eqb_neq b head)) by done.
  unfold bind, the_buf, gets. destruct (_ && _); [done|]. apply IH; [done..|lia].
Qed.

Lemma bget_unused_find fuel a l s :
  linked (nexts s) (prevs s) (head :: l ++ [a]) → head ∉ l → (length l ≤ fuel)%nat →
  bget_unused fuel (prevs s a) s = Ok (find (fun i => refcnt (bufs s i) =? 0) (rev l), s).
Proof.
  revert a l; induction fuel as [|f IH]; intros a l; destruct l as [|b l _] using rev_ind;
    intros Hl Hh Hlen; rewrite ?length_app in Hlen; cbn [length] in *; try lia;
    try (cbn [app linked] in Hl; by destruct Hl as (_ & -> & _)).
  rewrite <- app_assoc in Hl. cbn [app] in Hl. change (head :: l ++ b :: [a]) with
    ((head :: l) ++ b :: [a]) in Hl. apply linked_app in Hl as (Hl & _ & -> & _).
  rewrite not_elem_of_app, not_elem_of_cons in Hh. destruct Hh as (Hhl & Hb & _).
  cbn [bget_unused]. rewrite (proj2 (Z.eqb_neq b head)) by done.
  rewrite rev_app_distr. cbn [rev app find]. unfold bind, the_buf, gets.
  destruct (_ =? 0); [done|]. apply IH; [done..|lia].
Qed.

(** A change of the links only. *)
Definition payload (b : buf) := (valid b, dev b, blockno b, lock b, refcnt b, data b).
Definition links_only (s s' : bio) : Prop :=
  (∀ j, payload (bufs s' j) = payload (bufs s j)) ∧ dsk s' = dsk s ∧ mypid s' = mypid s.

Lemma links_only_trans s1 s2 s3 : links_only s1 s2 → links_only s2 s3 → links_only s1 s3.
Proof.
  intros (H1 & H2 & H3) (H1' & H2' & H3'). split; [|split; congruence].
  intros j. by rewrite H1', H1.
Qed.

Lemma alter_eq (f : buf → buf) (B : Z → buf) i j :
  alter f i B j = if decide (i = j) then f (B j) else B j.
Proof. unfold alter, fn_alter. by destruct (decide (i = j)) as [->|]. Qed.

Ltac link_eq :=
  cbn; rewrite ?alter_eq; repeat (destruct (decide _); cbn; rewrite ?alter_eq); subst; done || congruence.

Lemma unlink_eq b s :
  nexts s b ≠ b → ∃ s', unlink b s = Ok (tt, s') ∧ links_only s s' ∧
    (∀ j, nexts s' j = if decide (j = prevs s b) then nexts s b else nexts s j) ∧
    (∀ j, prevs s' j = if decide (j = nexts s b) then prevs s b else prevs s j).
Proof.
  intros Hb. unfold nexts, prevs in *. eexists. split; [reflexivity|].
  split; [split; [|by split]; intros j; unfold payload|split; intros j]; link_eq.
Qed.

Lemma link_front_eq b s :
  b ≠ head → ∃ s', link_front b s = Ok (tt, s') ∧ links_only s s' ∧
    (∀ j, nexts s' j = if decide (j = head) then b else
                       if decide (j = b) then nexts s head else nexts s j) ∧
    (∀ j, prevs s' j = if decide (j = nexts s head) then b else
                       if decide (j = b) then head else prevs s j).
Proof.
  intros Hb. unfold nexts, prevs in *. eexists. split; [reflexivity|].
  split; [split; [|by split]; intros j; unfold payload|split; intros j]; link_eq.
Qed.

Lemma removelast_app_one (l : list Z) x : removelast (l ++ [x]) = l.
Proof. apply removelast_last. Qed.

Lemma linked_unlink nx pv nx' pv' l1 b l2 :
  NoDup (l1 ++ b :: l2) → head ∉ l1 ++ b :: l2 →
  linked nx pv (head :: (l1 ++ b :: l2) ++ [head]) →
  (∀ j, nx' j = if decide (j = pv b) then nx b else nx j) →
  (∀ j, pv' j = if decide (j = nx b) then pv b else pv j) →
  linked nx' pv' (head :: (l1 ++ l2) ++ [head]).
Proof.
  intros Hnd Hh Hl Hnx Hpv. rewrite <- app_assoc in *. cbn [app] in Hl.
  apply NoDup_app in Hnd as (Hn1 & Hd & [Hb Hn2]%NoDup_cons).
  rewrite not_elem_of_app, not_elem_of_cons in Hh. destruct Hh as (Hh1 & Hhb & Hh2).
  destruct (exists_last (l := head :: l1)) as (A & p & HA); [done|].
  assert (Hp : p = head ∨ p ∈ l1).
  { rewrite <- elem_of_cons, HA. apply elem_of_app. right. by left. }
  assert (HnA : NoDup (A ++ [p])) by (rewrite <- HA; by apply NoDup_cons).
  assert (HpA : p ∉ A) by (apply NoDup_app in HnA as (_ & Hx & _); intros Hi; apply (Hx p Hi); by left).
  assert (∃ n R, l2 ++ [head] = n :: R) as (n & R & HR) by (destruct l2; eauto).
  assert (Hn : n ∈ l2 ∨ n = head).
  { rewrite <- list_elem_of_singleton, <- elem_of_app, HR. by left. }
  assert (HnR : NoDup (n :: R)).
  { rewrite <- HR. apply NoDup_app. split; [done|]. split; [|apply NoDup_singleton].
    by intros x Hx ->%list_elem_of_singleton. }
  change (head :: l1 ++ b :: l2 ++ [head]) with ((head :: l1) ++ b :: l2 ++ [head]) in Hl.
  change (head :: l1 ++ l2 ++ [head]) with ((head :: l1) ++ l2 ++ [head]).
  rewrite HA, HR, <- app_assoc in *. cbn [app] in *.
  apply linked_app in Hl as (HlA & Hpb & Hbp & HlB). cbn [linked] in HlB.
  destruct HlB as (Hbn & Hnb & HlR). rewrite Hbp, Hbn in *.
  apply linked_app. split; [|split; [|split]].
  - apply (linked_ext nx pv); [| |done].
    + intros a Ha. rewrite removelast_app_one in Ha. rewrite Hnx, decide_False; [done|].
      by intros ->.
    + intros a Ha. rewrite <- HA in Ha. cbn in Ha. rewrite Hpv, decide_False; [done|].
      intros ->. destruct Hn as [Hn| ->]; [|done]. apply (Hd n); [done|by right].
  - by rewrite Hnx, decide_True.
  - by rewrite Hpv, decide_True.
  - apply (linked_ext nx pv); [| |done].
    + intros a Ha. rewrite <- HR, removelast_app_one in Ha. rewrite Hnx, decide_False; [done|].
      intros ->. destruct Hp as [->|Hp]; [done|]. apply (Hd p); [done|by right].
    + intros a Ha. cbn in Ha. rewrite Hpv, decide_False; [done|].
      intros ->. by apply NoDup_cons in HnR as [? _].
Qed.

Lemma linked_front nx pv nx' pv' b l :
  NoDup l → b ∉ l → head ∉ l → b ≠ head →
  linked nx pv (head :: l ++ [head]) →
  (∀ j, nx' j = if decide (j = head) then b else if decide (j = b) then nx head else nx j) →
  (∀ j, pv' j = if decide (j = nx head) then b else if decide (j = b) then head else pv j) →
  linked nx' pv' (head :: (b :: l) ++ [head]).
Proof.
  intros Hnd Hb Hh Hbh Hl Hnx Hpv.
  assert (∃ n R, l ++ [head] = n :: R) as (n & R & HR) by (destruct l; eauto).
  assert (Hn : n ∈ l ∨ n = head).
  { rewrite <- list_elem_of_singleton, <- elem_of_app, HR. by left. }
  assert (HnR : n ∉ R).
  { assert (NoDup (n :: R)) as [? _]%NoDup_cons; [|done]. rewrite <- HR. apply NoDup_app.
    split; [done|]. split; [|apply NoDup_singleton]. by intros x Hx ->%list_elem_of_singleton. }
  assert (n ≠ b) as Hnb by (intros ->; by destruct Hn).
  assert (HRl : ∀ x, x ∈ R → x ∈ l ∨ x = head).
  { intros x Hx. rewrite <- list_elem_of_singleton, <- elem_of_app, HR. by right. }
  cbn [app] in *. rewrite HR in *. rewrite !linked_cons in *.
  destruct Hl as (Hn1 & Hn2 & HlR). rewrite Hn1 in *.
  split; [by rewrite Hnx, decide_True|]. split.
  { by rewrite Hpv, decide_False, decide_True. }
  split; [by rewrite Hnx, decide_False, decide_True|]. split; [by rewrite Hpv, decide_True|].
  apply (linked_ext nx pv); [| |done].
  - intros a Ha. rewrite <- HR, removelast_app_one in Ha.
    rewrite Hnx, !decide_False; [done|by intros ->..].
  - intros a Ha. cbn in Ha. rewrite Hpv, decide_False by (by intros ->).
    destruct (decide (a = b)) as [->|]; [|done].
    by destruct (HRl b Ha).
Qed.

(** Releasing a buffer moves it to the front. *)
Lemma move_front_spec s l b :
  lru s l → b ∈ l →
  wp (do! unlink b; link_front b)
     (fun _ s' => lru s' (b :: filter (fun x => x ≠ b) l) ∧ links_only s s') s.
Proof.
  intros Hlru Hb. destruct (lru_NoDup _ _ Hlru) as [Hnd Hh]. destruct Hlru as [Hl Hp].
  destruct (list_elem_of_split _ _ Hb) as (l1 & l2 & ->).
  assert (Hf : filter (fun x => x ≠ b) (l1 ++ b :: l2) = l1 ++ l2).
  { apply NoDup_app in Hnd as (_ & Hd & [Hb2 _]%NoDup_cons).
    rewrite filter_app, filter_cons_False by (intros ?; done).
    rewrite !filter_ne_notin; [done|done|]. intros Hb1. apply (Hd b); [done|by left]. }
  rewrite Hf.
  assert (Hnb : nexts s b ≠ b).
  { rewrite <- app_assoc in Hl. cbn [app] in Hl.
    change (head :: l1 ++ ?x) with ((head :: l1) ++ x) in Hl. cbn [app] in Hl.
    assert (∃ n R, l2 ++ [head] = n :: R) as (n & R & HR) by (destruct l2; eauto).
    rewrite HR in Hl. change (head :: l1 ++ b :: n :: R) with ((head :: l1) ++ b :: n :: R) in Hl.
    apply linked_app in Hl as (_ & -> & _). intros ->.
    assert (b ∈ l2 ++ [head]) as [?| ->%list_elem_of_singleton]%elem_of_app
      by (rewrite HR; by left); [|done].
    by apply NoDup_app in Hnd as (_ & _ & [? _]%NoDup_cons). }
  destruct (unlink_eq b s Hnb) as (s1 & Hu & Ho1 & Hn1 & Hp1).
  assert (b ≠ head) as Hbh by (by intros ->).
  destruct (link_front_eq b s1 Hbh) as (s2 & Hf2 & Ho2 & Hn2 & Hp2).
  unfold wp. rewrite (bind_ok _ _ _ _ _ Hu), Hf2.
  split; [|by eapply links_only_trans]. split.
  - rewrite not_elem_of_app, not_elem_of_cons in Hh.
    pose proof Hnd as (Hd1 & Hd & [Hb2 Hd2]%NoDup_cons)%NoDup_app.
    apply (linked_front (nexts s1) (prevs s1)); try done.
    + apply NoDup_app. split; [done|]. split; [|done]. intros x Hx Hx'. apply (Hd x); [done|by right].
    + rewrite not_elem_of_app. split; [|done]. intros Hb1. apply (Hd b); [done|by left].
    + rewrite not_elem_of_app. tauto.
    + apply (linked_unlink (nexts s) (prevs s) _ _ l1 b l2); try done.
      by rewrite not_elem_of_app, not_elem_of_cons.
  - rewrite <- Hp. apply Permutation_middle.
Qed.

(** ** Initialisation *)

Definition unlocked_payload (b : buf) := (valid b, dev b, blockno b, refcnt b, data b).

(** The buffers of [fresh] have had their locks initialised. *)
Definition init_bufs (fresh : Z → Prop) (s s' : bio) : Prop :=
  (∀ j, unlocked_payload (bufs s' j) = unlocked_payload (bufs s j)) ∧
  (∀ j, fresh j → lock (bufs s' j) = initsleeplock) ∧
  (∀ j, ¬ fresh j → lock (bufs s' j) = lock (bufs s j)) ∧
  dsk s' = dsk s ∧ mypid s' = mypid s.

Lemma binit_body_eq b s :
  b ≠ head → ∃ s', binit_body b s = Ok (tt, s') ∧ init_bufs (fun j => j = b) s s' ∧
    (∀ j, nexts s' j = if decide (j = head) then b else
                       if decide (j = b) then nexts s head else nexts s j) ∧
    (∀ j, prevs s' j = if decide (j = nexts s head) then b else
                       if decide (j = b) then head else prevs s j).
Proof.
  intros Hb. unfold nexts, prevs. eexists. split; [reflexivity|]. split; [|split; intros j; link_eq].
  split; [|split; [|split; [|by split]]]; intros j; unfold unlocked_payload; try intros Hj; link_eq.
Qed.

Lemma binit_loop_spec n s l :
  Z.of_nat n ≤ NBUF →
  linked (nexts s) (prevs s) (head :: l ++ [head]) → NoDup l →
  (∀ i, i ∈ l ↔ 0 ≤ i < NBUF - Z.of_nat n) →
  wp (binit_loop n) (fun _ s' => ∃ l',
    linked (nexts s') (prevs s') (head :: l' ++ [head]) ∧ NoDup l' ∧
    (∀ i, i ∈ l' ↔ 0 ≤ i < NBUF) ∧
    init_bufs (fun i => NBUF - Z.of_nat n ≤ i < NBUF) s s') s.
Proof.
  revert s l; induction n as [|n IH]; intros s l Hn Hl Hnd Hin; cbn [binit_loop].
  { exists l. rewrite Z.sub_0_r in *. do 3 (split; [done|]).
    split; [done|]. split; [intros; lia|done]. }
  set (b := NBUF - Z.of_nat (S n)) in *.
  destruct (binit_body_eq b s) as (s1 & Hs1 & (Hi1 & Hi2 & Hi3 & Hi4 & Hi5) & Hn1 & Hp1);
    [unfold b, head; lia|].
  apply wp_bind. unfold wp at 1. rewrite Hs1. eapply wp_mono.
  - apply (IH s1 (b :: l)); [lia| | |].
    + apply (linked_front (nexts s) (prevs s)); try done; rewrite ?Hin; unfold b, head; lia.
    + apply NoDup_cons. split; [rewrite Hin; unfold b; lia|done].
    + intros i. rewrite elem_of_cons, Hin. unfold b. lia.
  - intros ? s' (l' & Hl' & Hnd' & Hin' & (H1 & H2 & H3 & H4 & H5)). exists l'.
    do 3 (split; [done|]). split; [intros j; by rewrite H1, Hi1|]. split; [|split].
    + intros j Hj. destruct (decide (j = b)) as [->|].
      * rewrite H3 by (unfold b; lia). by apply Hi2.
      * apply H2. unfold b in *. lia.
    + intros j Hj. rewrite H3 by (unfold b in Hj; lia). apply Hi3. unfold b in *. lia.
    + split; congruence.
Qed.

Lemma binit_spec s :
  wp binit (fun _ s' => ∃ l, lru s' l ∧ init_bufs (fun i => 0 ≤ i < NBUF) s s') s.
Proof.
  unfold binit. apply wp_bind, wp_modify, wp_bind, wp_modify.
  set (s1 := mk_bio _ _ _). eapply wp_mono.
  - apply (binit_loop_spec _ s1 []); [done| |constructor|].
    + unfold nexts, prevs, s1. cbn. rewrite !alter_eq, !decide_True by done. done.
    + intros i. split; [by intros ?%not_elem_of_nil|]. unfold NBUF, MAXOPBLOCKS. cbn. lia.
  - intros ? s' (l & Hl & Hnd & Hin & Hi). exists l. split.
    + split; [done|]. apply NoDup_Permutation; [done|apply buffers_NoDup|].
      intros i. by rewrite Hin, buffers_elem.
    + destruct Hi as (H1 & H2 & H3 & H4 & H5). split; [|split; [|split; [|by split]]].
      * intros j. rewrite H1. unfold s1, unlocked_payload. link_eq.
      * intros j Hj. apply H2. done.
      * intros j Hj. rewrite H3 by done. unfold s1. link_eq.
Qed.
