(* ===== verification/BioSpec.v ===== *)
(** * What the buffer cache promises (kernel/bio.c): theorems

    A client of the cache sees the blocks of one device: [cur bn] is the
    current contents of block [bn], whether it is cached or on disk.  A
    client locks blocks with [bread], changes the data of blocks it has
    locked, and pins blocks so that their contents stay in the cache until
    they are written.  [cache] relates the buffers to this view. *)

From stdpp Require Import functions.
From S2P Require Import Prelude Mem Riscv Sleeplock Bio.

Section cache.
Context (d : Z).

Definition is_buf (s : bio) (i bn : Z) : Prop :=
  0 ≤ i < NBUF ∧ dev (bufs s i) = d ∧ blockno (bufs s i) = bn.

(** [held]: the blocks locked by the running process; [pinned]: the blocks
    pinned in the cache. *)
Record cache (s : bio) (held pinned : list Z) (cur : Z → block) : Prop := {
  c_lru : ∃ l, lru s l;
  c_uniq : ∀ i j bn, is_buf s i bn → is_buf s j bn → i = j;
  c_ref : ∀ i bn, is_buf s i bn → refcnt (bufs s i) =
    Z.b2z (bool_decide (bn ∈ held)) + Z.b2z (bool_decide (bn ∈ pinned));
  c_free : ∀ i, 0 ≤ i < NBUF → dev (bufs s i) ≠ d →
    refcnt (bufs s i) = 0 ∧ lock (bufs s i) = mk_sleeplock 0 0;
  c_lock : ∀ i bn, is_buf s i bn → lock (bufs s i) =
    if decide (bn ∈ held) then mk_sleeplock 1 (mypid s) else mk_sleeplock 0 0;
  c_valid : ∀ i bn, is_buf s i bn → bn ∈ held ∨ bn ∈ pinned → valid (bufs s i) = true;
  c_data : ∀ i bn, is_buf s i bn → valid (bufs s i) = true → data (bufs s i) = cur bn;
  c_in : ∀ bn, bn ∈ held ∨ bn ∈ pinned → ∃ i, is_buf s i bn;
  c_clean : ∀ bn, bn ∉ held → bn ∉ pinned → cur bn = blocks (dsk s) bn;
  c_range : ∀ i bn, is_buf s i bn → 0 ≤ bn < 2 ^ 31;
  c_held : NoDup held;
  c_pinned : NoDup pinned
}.

#[global] Instance cache_proper s :
  Proper (Permutation ==> Permutation ==> eq ==> iff) (cache s).
Proof.
  assert (∀ held held' pinned pinned' cur, Permutation held held' → Permutation pinned pinned' →
    cache s held pinned cur → cache s held' pinned' cur) as H.
  { intros held held' pinned pinned' cur Hh Hp Hc.
    destruct Hc as [H1 H2 H3 H4 H5 H6 H7 H8 H9 H10 H11 H12].
    split; try done; repeat setoid_rewrite <- Hh; repeat setoid_rewrite <- Hp; try done.
    - intros i bn Hi. rewrite (H3 i bn Hi). f_equal; f_equal; apply bool_decide_ext; by rewrite ?Hh, ?Hp.
    - intros i bn Hi. rewrite (H5 i bn Hi). apply decide_ext. by rewrite Hh. }
  intros h h' Hh p p' Hp c c' ->. split; apply H; done.
Qed.

Lemma disk_block_small bn : 0 ≤ bn < 2 ^ 31 → disk_block bn = bn.
Proof.
  intros Hb. unfold disk_block, BSIZE. rewrite u32_small by (change (1024 / 512) with 2; lia).
  apply Z.div_mul. done.
Qed.

(** Fewer blocks are in use than there are buffers: one can be recycled. *)
Lemma cache_unused s held pinned cur l :
  cache s held pinned cur → lru s l → Z.of_nat (length held + length pinned) < NBUF →
  find (fun i => refcnt (bufs s i) =? 0) (rev l) ≠ None.
Proof.
  intros Hc Hl Hlen Hnone. pose proof (find_none _ _ Hnone) as Hall.
  assert (Hb : ∀ i, i ∈ l → is_buf s i (blockno (bufs s i)) ∧
             blockno (bufs s i) ∈ held ++ pinned).
  { intros i Hi. pose proof (proj1 (lru_elem _ _ i Hl) Hi) as Hr.
    assert (refcnt (bufs s i) ≠ 0) as Hne.
    { apply Z.eqb_neq, Hall. rewrite <- in_rev. by apply list_elem_of_In. }
    assert (dev (bufs s i) = d) as Hd.
    { destruct (decide (dev (bufs s i) = d)) as [|Hd]; [done|]. by apply (c_free _ _ _ _ Hc i Hr) in Hd as [? _]. }
    assert (is_buf s i (blockno (bufs s i))) as Hib by done. split; [done|].
    rewrite (c_ref _ _ _ _ Hc i _ Hib) in Hne. rewrite elem_of_app.
    destruct (bool_decide_reflect (blockno (bufs s i) ∈ held)); [by left|].
    destruct (bool_decide_reflect (blockno (bufs s i) ∈ pinned)); [by right|done]. }
  assert (length ((fun i => blockno (bufs s i)) <$> l) ≤ length (held ++ pinned))%nat as Hle.
  { apply submseteq_length, NoDup_submseteq.
    - apply NoDup_fmap_2_strong; [|apply (lru_NoDup _ _ Hl)]. intros i j Hi Hj Heq.
      apply (c_uniq _ _ _ _ Hc i j (blockno (bufs s i))); [by apply Hb|].
      rewrite Heq. by apply Hb.
    - intros bn (i & -> & Hi)%list_elem_of_fmap. by apply Hb. }
  rewrite length_fmap, length_app in Hle. destruct Hl as [_ Hp].
  apply Permutation_length in Hp. rewrite Hp in Hle. unfold buffers in Hle.
  rewrite length_map, length_seq in Hle. lia.
Qed.

Lemma lru_ext s s' l :
  (∀ j, nexts s' j = nexts s j) → (∀ j, prevs s' j = prevs s j) → lru s l → lru s' l.
Proof. intros Hn Hp [Hl ?]. split; [|done]. by apply (linked_ext (nexts s) (prevs s)). Qed.

(** [s'] differs from [s] in the payload of buffer [i] only. *)
Definition upd_at (s : bio) (i : Z) (b : buf) (s' : bio) : Prop :=
  bufs s' i = b ∧ prev b = prev (bufs s i) ∧ next b = next (bufs s i) ∧
  (∀ j, j ≠ i → bufs s' j = bufs s j) ∧ mypid s' = mypid s.

Lemma upd_at_lru s i b s' l : upd_at s i b s' → lru s l → lru s' l.
Proof.
  intros (Hi & Hp & Hn & Ho & _). apply lru_ext; intros j; unfold nexts, prevs;
    (destruct (decide (j = i)) as [->|]; [by rewrite Hi|by rewrite Ho]).
Qed.

Lemma bget_spec s held pinned cur bn :
  cache s held pinned cur → bn ∉ held →
  bn ∈ pinned ∨ Z.of_nat (length held + length pinned) < NBUF →
  wp (bget d bn) (fun i s' => 0 ≤ i < NBUF ∧ dsk s' = dsk s ∧ ∃ b, upd_at s i b s' ∧
    let x := bufs s i in
    (is_buf s i bn ∧
       b = mk_buf (valid x) d bn (mk_sleeplock 1 (mypid s))
             (1 + Z.b2z (bool_decide (bn ∈ pinned))) (prev x) (next x) (data x)) ∨
    ((∀ j, ¬ is_buf s j bn) ∧ refcnt x = 0 ∧
       b = mk_buf false d bn (mk_sleeplock 1 (mypid s)) 1 (prev x) (next x) (data x))) s.
Proof.
  intros Hc Hbn Hroom. destruct (c_lru _ _ _ _ Hc) as [l Hl].
  destruct (lru_NoDup _ _ Hl) as [Hnd Hh].
  assert (length l = Z.to_nat NBUF) as Hlen.
  { destruct Hl as [_ ->%Permutation_length]. unfold buffers. by rewrite length_map, length_seq. }
  unfold bget. apply wp_bind, wp_gets, wp_bind. unfold wp at 1.
  change (next (bufs s head)) with (nexts s head).
  rewrite (bget_cached_find _ head l) by (try apply Hl; try done; lia).
  destruct (find _ l) as [i|] eqn:Ef.
  - apply find_some in Ef as [Hin Hm]. destruct_bool_tests.
    apply list_elem_of_In, (lru_elem _ _ _ Hl) in Hin. assert (is_buf s i bn) as Hib by done.
    pose proof (c_lock _ _ _ _ Hc i bn Hib) as Hlk. rewrite decide_False in Hlk by done.
    pose proof (c_ref _ _ _ _ Hc i bn Hib) as Hr. rewrite bool_decide_eq_false_2 in Hr by done.
    apply wp_bind, wp_modify, wp_bind. unfold wp, buf_acquiresleep. cbn.
    rewrite alter_eq, decide_True by done. cbn [lock set_refcnt]. rewrite Hlk. cbn.
    split; [done|]. split; [done|]. eexists. split.
    + split; [reflexivity|]. cbn. rewrite !alter_eq, !decide_True by done. cbn.
      do 2 (split; [done|]). split; [|done]. intros j Hj. by rewrite !alter_eq, !decide_False.
    + left. split; [done|]. cbn. rewrite !alter_eq, !decide_True by done.
      unfold set_lock, set_refcnt. cbn. rewrite Hr. subst.
      f_equal; [done|]. rewrite u32_small; destruct (bool_decide _); cbn; lia.
  - apply wp_bind, wp_gets, wp_bind. unfold wp at 1. change (prev (bufs s head)) with (prevs s head).
    rewrite (bget_unused_find _ head l) by (try apply Hl; try done; lia).
    assert (Hno : ∀ j, ¬ is_buf s j bn).
    { intros j (Hj & Hd & Hb). pose proof (find_none _ _ Ef j) as Hf. cbv beta in Hf.
      rewrite Hd, Hb, !Z.eqb_refl in Hf. apply diff_true_false, Hf.
      by apply list_elem_of_In, (lru_elem _ _ _ Hl). }
    destruct (find _ (rev l)) as [i|] eqn:Eu.
    + apply find_some in Eu as [Hin H0]. destruct_bool_tests.
      rewrite <- in_rev in Hin. apply list_elem_of_In, (lru_elem _ _ _ Hl) in Hin.
      assert (lock (bufs s i) = mk_sleeplock 0 0) as Hlk.
      { destruct (decide (dev (bufs s i) = d)) as [Hd|Hd]; [|by apply (c_free _ _ _ _ Hc)].
        assert (is_buf s i (blockno (bufs s i))) as Hib by done.
        rewrite (c_lock _ _ _ _ Hc i _ Hib). apply decide_False. intros Hh'.
        rewrite (c_ref _ _ _ _ Hc i _ Hib), bool_decide_eq_true_2 in H0 by done.
        destruct (bool_decide (blockno (bufs s i) ∈ pinned)); cbn in H0; lia. }
      apply wp_bind, wp_modify, wp_bind. unfold wp, buf_acquiresleep. cbn.
      rewrite alter_eq, decide_True by done. cbn [lock]. rewrite Hlk. cbn.
      split; [done|]. split; [done|]. eexists. split.
      * split; [reflexivity|]. cbn. rewrite !alter_eq, !decide_True by done. cbn.
        do 2 (split; [done|]). split; [|done]. intros j Hj. by rewrite !alter_eq, !decide_False.
      * right. split; [done|]. split; [done|]. cbn. by rewrite !alter_eq, !decide_True by done.
    + exfalso. destruct Hroom as [Hp|Hroom].
      * destruct (c_in _ _ _ _ Hc bn) as [i Hi]; [by right|]. by apply (Hno i).
      * by apply (cache_unused s held pinned cur l Hc Hl Hroom).
Qed.

(** The state in which [bread] returns. *)
Lemma cache_take s held pinned cur i bn s' :
  cache s held pinned cur → bn ∉ held → 0 ≤ bn < 2 ^ 31 → 0 ≤ i < NBUF → dsk s' = dsk s →
  upd_at s i (mk_buf true d bn (mk_sleeplock 1 (mypid s)) (1 + Z.b2z (bool_decide (bn ∈ pinned)))
                (prev (bufs s i)) (next (bufs s i)) (cur bn)) s' →
  is_buf s i bn ∨ ((∀ j, ¬ is_buf s j bn) ∧ refcnt (bufs s i) = 0) →
  cache s' (bn :: held) pinned cur.
Proof.
  intros Hc Hbn Hr Hi Hd Hu Hcase. pose proof Hu as (Hbi & _ & _ & Ho & Hpid).
  assert (Hib : ∀ j bn', is_buf s' j bn' ↔ (j = i ∧ bn' = bn) ∨ (j ≠ i ∧ is_buf s j bn')).
  { intros j bn'. unfold is_buf. destruct (decide (j = i)) as [->|Hj].
    - rewrite Hbi. cbn. naive_solver.
    - rewrite Ho by done. naive_solver. }
  assert (Hne : ∀ j bn', j ≠ i → is_buf s j bn' → bn' ≠ bn).
  { intros j bn' Hj Hjb ->. destruct Hcase as [Hcase|[Hcase _]]; [|by apply (Hcase j)].
    apply Hj. by apply (c_uniq _ _ _ _ Hc j i bn). }
  assert (Hel : ∀ j bn', j ≠ i → is_buf s j bn' → bn' ∈ bn :: held ↔ bn' ∈ held).
  { intros j bn' Hj Hjb. rewrite elem_of_cons. specialize (Hne j bn' Hj Hjb). naive_solver. }
  split.
  - destruct (c_lru _ _ _ _ Hc) as [l Hl]. exists l. by eapply upd_at_lru.
  - intros j k bn'. rewrite !Hib. intros [[-> ->]|[Hj Hjb]] [[-> ?]|[Hk Hkb]]; subst; try done.
    + by apply Hne in Hkb.
    + by apply Hne in Hjb.
    + by apply (c_uniq _ _ _ _ Hc j k bn').
  - intros j bn' [[-> ->]|[Hj Hjb]]%Hib.
    + rewrite Hbi. cbn. rewrite (bool_decide_eq_true_2 (bn ∈ bn :: held)) by (by left). done.
    + rewrite Ho, (c_ref _ _ _ _ Hc j bn' Hjb) by done. f_equal. f_equal.
      apply bool_decide_ext. by rewrite (Hel j).
  - intros j Hj Hdj. destruct (decide (j = i)) as [->|Hji]; [by rewrite Hbi in Hdj|].
    rewrite Ho in * by done. by apply (c_free _ _ _ _ Hc).
  - intros j bn' [[-> ->]|[Hj Hjb]]%Hib.
    + rewrite Hbi. cbn. by rewrite decide_True, Hpid by (by left).
    + rewrite Ho, (c_lock _ _ _ _ Hc j bn' Hjb), Hpid by done. apply decide_ext.
      by rewrite (Hel j).
  - intros j bn' [[-> ->]|[Hj Hjb]]%Hib; [by rewrite Hbi|].
    rewrite Ho, (Hel j) by done. by apply (c_valid _ _ _ _ Hc).
  - intros j bn' [[-> ->]|[Hj Hjb]]%Hib; [by rewrite Hbi|].
    rewrite Ho by done. by apply (c_data _ _ _ _ Hc).
  - intros bn' Hb'. destruct (decide (bn' = bn)) as [->|Hb]; [exists i; apply Hib; by left|].
    rewrite elem_of_cons in Hb'. destruct (c_in _ _ _ _ Hc bn') as [j Hj]; [naive_solver|].
    exists j. apply Hib. right. split; [|done]. intros ->.
    destruct Hcase as [(_ & _ & ?)|[_ H0]]; [destruct Hj as (_ & _ & ?); congruence|].
    rewrite (c_ref _ _ _ _ Hc i bn' Hj) in H0.
    destruct (bool_decide_reflect (bn' ∈ held)), (bool_decide_reflect (bn' ∈ pinned));
      cbn in H0; try lia; naive_solver.
  - intros bn' [_ H1]%not_elem_of_cons H2. rewrite Hd. by apply (c_clean _ _ _ _ Hc).
  - intros j bn' [[-> ->]|[Hj Hjb]]%Hib; [done|]. by apply (c_range _ _ _ _ Hc j).
  - apply NoDup_cons. split; [done|apply (c_held _ _ _ _ Hc)].
  - apply (c_pinned _ _ _ _ Hc).
Qed.

(** Buffers of the blocks in use stay where they are. *)
Definition stays (held pinned : list Z) (s s' : bio) : Prop :=
  ∀ j bn, bn ∈ held ∨ bn ∈ pinned → is_buf s j bn → is_buf s' j bn.

Lemma cache_data s held pinned cur i bn :
  cache s held pinned cur → is_buf s i bn → bn ∈ held → data (bufs s i) = cur bn.
Proof.
  intros Hc Hi Hh. apply (c_data _ _ _ _ Hc i bn Hi), (c_valid _ _ _ _ Hc i bn Hi). by left.
Qed.

Lemma bread_spec s held pinned cur bn :
  cache s held pinned cur → 0 ≤ bn < 2 ^ 31 → bn ∉ held →
  bn ∈ pinned ∨ Z.of_nat (length held + length pinned) < NBUF →
  wp (bread d bn) (fun i s' => cache s' (bn :: held) pinned cur ∧ is_buf s' i bn ∧
    stays held pinned s s' ∧ dsk s' = dsk s) s.
Proof.
  intros Hc Hr Hbn Hroom. unfold bread. apply wp_bind.
  eapply wp_mono; [by apply (bget_spec s held pinned cur)|].
  intros i s1 (Hi & Hd1 & b & Hu1 & Hcase). cbv zeta in Hcase.
  assert (Hdb : disk_block bn = bn) by (by apply disk_block_small).
  pose proof Hu1 as (Hb1 & Hp1 & Hn1 & Ho1 & Hm1).
  apply wp_bind, wp_gets. rewrite Hb1.
  set (b' := mk_buf true d bn (mk_sleeplock 1 (mypid s)) (1 + Z.b2z (bool_decide (bn ∈ pinned)))
               (prev (bufs s i)) (next (bufs s i)) (cur bn)).
  assert (Hget : is_buf s i bn ∨ ((∀ j, ¬ is_buf s j bn) ∧ refcnt (bufs s i) = 0)).
  { destruct Hcase as [[? _]|(? & ? & _)]; [by left|by right]. }
  assert (Hstay : ∀ s', upd_at s i b' s' → stays held pinned s s').
  { intros s' (Hbi & _ & _ & Ho & _) j bn' Hb' Hj. destruct (decide (j = i)) as [->|].
    - destruct Hget as [Hg|[_ H0]].
      + destruct Hj as (_ & Hjd & Hjb), Hg as (_ & _ & Hgb). split; [done|]. rewrite Hbi.
        cbn. split; [done|]. congruence.
      + exfalso. rewrite (c_ref _ _ _ _ Hc i bn' Hj) in H0.
        destruct (bool_decide_reflect (bn' ∈ held)), (bool_decide_reflect (bn' ∈ pinned));
          cbn in H0; try lia; naive_solver.
    - unfold is_buf. by rewrite Ho. }
  assert (Hfin : ∀ s', upd_at s i b' s' → dsk s' = dsk s →
    cache s' (bn :: held) pinned cur ∧ is_buf s' i bn ∧ stays held pinned s s' ∧ dsk s' = dsk s).
  { intros s' Hu Hd. split; [by apply (cache_take s held pinned cur i bn)|].
    split; [|split; [by apply Hstay|done]]. destruct Hu as (Hbi & _). unfold is_buf.
    by rewrite Hbi. }
  destruct (valid b) eqn:Hv; cbn [negb]; apply wp_bind.
  - do 2 apply wp_ret. apply Hfin; [|done].
    assert (b = b') as ->; [|done]. destruct Hcase as [[Hib ->]|(_ & _ & ->)]; [|done].
    cbn in Hv. unfold b'. rewrite Hv. f_equal. by apply (c_data _ _ _ _ Hc).
  - unfold virtio_disk_rw, the_buf.
    apply wp_bind, wp_bind, wp_gets. cbv zeta. apply wp_bind, wp_gets, wp_modify, wp_modify, wp_ret.
    apply Hfin; [|done].
    assert (Hbb : blockno (bufs s1 i) = bn) by (rewrite Hb1; by destruct Hcase as [[_ ->]|(_ & _ & ->)]).
    assert (bn ∉ pinned) as Hnp.
    { intros Hp. destruct Hcase as [[Hib ->]|(Hno & _)].
      - cbn in Hv. rewrite (c_valid _ _ _ _ Hc i bn Hib) in Hv; [done|by right].
      - destruct (c_in _ _ _ _ Hc bn) as [j Hj]; [by right|]. by apply (Hno j). }
    split; [|split; [done|split; [done|split; [|done]]]].
    + cbn. rewrite !alter_eq, !decide_True by done. rewrite Hb1 in *. cbn.
      unfold b', set_valid, set_data. cbn. rewrite Hd1, Hbb, Hdb.
      rewrite <- (c_clean _ _ _ _ Hc) by done. rewrite bool_decide_eq_false_2 by done.
      by destruct Hcase as [[_ ->]|(_ & _ & ->)]; cbn; rewrite ?bool_decide_eq_false_2.
    + intros j Hj. cbn. rewrite !alter_eq, !decide_False by done. by apply Ho1.
Qed.

(** A change to the buffer of one block. *)
Lemma cache_upd s held pinned cur i bn b' s' held' pinned' cur' :
  cache s held pinned cur → is_buf s i bn → upd_at s i b' s' → dev b' = d → blockno b' = bn →
  (∀ bn', bn' ≠ bn → (bn' ∈ held' ↔ bn' ∈ held) ∧ (bn' ∈ pinned' ↔ bn' ∈ pinned) ∧
     cur' bn' = cur bn' ∧ blocks (dsk s') bn' = blocks (dsk s) bn') →
  refcnt b' = Z.b2z (bool_decide (bn ∈ held')) + Z.b2z (bool_decide (bn ∈ pinned')) →
  lock b' = (if decide (bn ∈ held') then mk_sleeplock 1 (mypid s) else mk_sleeplock 0 0) →
  valid b' = true → data b' = cur' bn →
  (bn ∉ held' → bn ∉ pinned' → cur' bn = blocks (dsk s') bn) →
  NoDup held' → NoDup pinned' → cache s' held' pinned' cur'.
Proof.
  intros Hc Hi Hu Hd Hb Hoth Hr Hl Hv Hdat Hcl Hnh Hnp. pose proof Hu as (Hbi & _ & _ & Ho & Hpid).
  assert (Hib : ∀ j bn', is_buf s' j bn' ↔ (j = i ∧ bn' = bn) ∨ (j ≠ i ∧ bn' ≠ bn ∧ is_buf s j bn')).
  { intros j bn'. destruct (decide (j = i)) as [->|Hj].
    - unfold is_buf. rewrite Hbi, Hb. destruct Hi as (? & ? & ?). naive_solver.
    - assert (is_buf s j bn' → bn' ≠ bn).
      { intros Hj' ->. apply Hj. by apply (c_uniq _ _ _ _ Hc j i bn). }
      unfold is_buf in *. rewrite Ho by done. naive_solver. }
  split.
  - destruct (c_lru _ _ _ _ Hc) as [l Hlru]. exists l. by eapply upd_at_lru.
  - intros j k bn'. rewrite !Hib. intros [[-> ->]|(Hj & Hjn & Hjb)] [[-> ?]|(Hk & Hkn & Hkb)]; try done.
    by apply (c_uniq _ _ _ _ Hc j k bn').
  - intros j bn' [[-> ->]|(Hj & Hjn & Hjb)]%Hib; [by rewrite Hbi|].
    rewrite Ho, (c_ref _ _ _ _ Hc j bn' Hjb) by done. destruct (Hoth bn' Hjn) as (H1 & H2 & _).
    f_equal; f_equal; by apply bool_decide_ext.
  - intros j Hj Hdj. destruct (decide (j = i)) as [->|Hji]; [by rewrite Hbi in Hdj|].
    rewrite Ho in * by done. by apply (c_free _ _ _ _ Hc).
  - intros j bn' [[-> ->]|(Hj & Hjn & Hjb)]%Hib; [by rewrite Hbi, Hpid|].
    rewrite Ho, (c_lock _ _ _ _ Hc j bn' Hjb), Hpid by done. apply decide_ext.
    by destruct (Hoth bn' Hjn) as (-> & _).
  - intros j bn' [[-> ->]|(Hj & Hjn & Hjb)]%Hib; [by rewrite Hbi|].
    destruct (Hoth bn' Hjn) as (-> & -> & _). rewrite Ho by done. by apply (c_valid _ _ _ _ Hc).
  - intros j bn' [[-> ->]|(Hj & Hjn & Hjb)]%Hib; [by rewrite Hbi|].
    destruct (Hoth bn' Hjn) as (_ & _ & -> & _). rewrite Ho by done. by apply (c_data _ _ _ _ Hc).
  - intros bn' Hb'. destruct (decide (bn' = bn)) as [->|Hbn]; [exists i; apply Hib; by left|].
    destruct (Hoth bn' Hbn) as (H1 & H2 & _). rewrite H1, H2 in Hb'.
    destruct (c_in _ _ _ _ Hc bn' Hb') as [j Hj].
    exists j. apply Hib. right. split; [|done]. intros ->. destruct Hj as (_ & _ & ?), Hi as (_ & _ & ?).
    congruence.
  - intros bn' H1 H2. destruct (decide (bn' = bn)) as [->|Hbn]; [by apply Hcl|].
    destruct (Hoth bn' Hbn) as (E1 & E2 & -> & ->). rewrite E1, E2 in *. by apply (c_clean _ _ _ _ Hc).
  - intros j bn' [[-> ->]|(Hj & Hjn & Hjb)]%Hib; [by apply (c_range _ _ _ _ Hc i)|].
    by apply (c_range _ _ _ _ Hc j).
  - done.
  - done.
Qed.

Lemma upd_buf_at s i f :
  prev (f (bufs s i)) = prev (bufs s i) → next (f (bufs s i)) = next (bufs s i) →
  upd_at s i (f (bufs s i)) (mk_bio (alter f i (bufs s)) (dsk s) (mypid s)).
Proof.
  intros Hp Hn. split; [cbn; by rewrite alter_eq, decide_True|]. do 2 (split; [done|]).
  split; [|done]. intros j Hj. cbn. by rewrite alter_eq, decide_False.
Qed.

Lemma is_buf_upd s i b' s' j bn :
  upd_at s i b' s' → dev b' = dev (bufs s i) → blockno b' = blockno (bufs s i) →
  is_buf s j bn → is_buf s' j bn.
Proof.
  intros (Hi & _ & _ & Ho & _) Hd Hb Hj. destruct (decide (j = i)) as [->|].
  - destruct Hj as (? & ? & ?). split; [done|]. rewrite Hi. split; congruence.
  - unfold is_buf. by rewrite Ho.
Qed.

(** Writing the data of a locked buffer. *)
Lemma set_data_spec s held pinned cur i bn f :
  cache s held pinned cur → is_buf s i bn → bn ∈ held →
  wp (upd_buf i (fun x => set_data (f (data x)) x))
     (fun _ s' => cache s' held pinned (<[bn := f (cur bn)]> cur) ∧
        (∀ j bn', is_buf s j bn' → is_buf s' j bn') ∧ dsk s' = dsk s) s.
Proof.
  intros Hc Hi Hh. apply wp_modify.
  pose proof (upd_buf_at s i (fun x => set_data (f (data x)) x) eq_refl eq_refl) as Hu.
  split; [|split; [|done]].
  - eapply cache_upd; [exact Hc|exact Hi|exact Hu|apply Hi|apply Hi|..]; cbn.
    + intros bn' Hne. by rewrite fn_lookup_insert_ne.
    + by apply (c_ref _ _ _ _ Hc).
    + by apply (c_lock _ _ _ _ Hc).
    + apply (c_valid _ _ _ _ Hc i bn); [done|by left].
    + rewrite fn_lookup_insert. f_equal. by apply (cache_data s held pinned).
    + done.
    + apply (c_held _ _ _ _ Hc).
    + apply (c_pinned _ _ _ _ Hc).
  - intros j bn'. by apply (is_buf_upd s i _ _ j bn' Hu).
Qed.

Lemma buf_held s held pinned cur i bn :
  cache s held pinned cur → is_buf s i bn → bn ∈ held →
  buf_holdingsleep i s = Ok (true, s).
Proof.
  intros Hc Hi Hh. unfold buf_holdingsleep, gets. rewrite (c_lock _ _ _ _ Hc i bn Hi), decide_True by done.
  unfold holdingsleep. cbn. by rewrite Z.eqb_refl.
Qed.

Definition disk_write (bn : Z) (v : block) (dk : disk) : disk :=
  mk_disk (<[bn := v]> (blocks dk)) (writes dk ++ [(bn, v)]).

Lemma bwrite_spec s held pinned cur i bn :
  cache s held pinned cur → is_buf s i bn → bn ∈ held →
  wp (bwrite i) (fun _ s' => cache s' held pinned cur ∧ bufs s' = bufs s ∧
    dsk s' = disk_write bn (cur bn) (dsk s)) s.
Proof.
  intros Hc Hi Hh. unfold bwrite. apply wp_bind. unfold wp at 1. rewrite (buf_held s held pinned cur i bn) by done.
  cbn [negb]. unfold virtio_disk_rw. apply wp_bind, wp_gets. cbv zeta. apply wp_modify.
  pose proof (c_range _ _ _ _ Hc i bn Hi) as Hr. pose proof Hi as (_ & _ & ->).
  rewrite disk_block_small, (cache_data s held pinned cur i bn) by done.
  split; [|by split].
  eapply (cache_upd s held pinned cur i bn (bufs s i)); [done|done|..|apply Hc|apply Hc]; cbn.
  - split; [done|]. do 2 (split; [done|]). by split.
  - apply Hi.
  - apply Hi.
  - intros bn' Hne. by rewrite fn_lookup_insert_ne.
  - by apply (c_ref _ _ _ _ Hc).
  - by apply (c_lock _ _ _ _ Hc).
  - apply (c_valid _ _ _ _ Hc i bn); [done|by left].
  - by apply (cache_data s held pinned).
  - done.
Qed.

Lemma bpin_spec s held pinned cur i bn :
  cache s held pinned cur → is_buf s i bn → bn ∈ held → bn ∉ pinned →
  wp (bpin i) (fun _ s' => cache s' held (bn :: pinned) cur ∧
    (∀ j bn', is_buf s j bn' → is_buf s' j bn') ∧ dsk s' = dsk s) s.
Proof.
  intros Hc Hi Hh Hp. apply wp_modify.
  pose proof (upd_buf_at s i (fun x => set_refcnt (u32 (refcnt x + 1)) x) eq_refl eq_refl) as Hu.
  split; [|split; [|done]].
  - eapply (cache_upd s held pinned cur i bn); [done|done|exact Hu|apply Hi|apply Hi|..]; cbn.
    + intros bn' Hne. rewrite elem_of_cons. naive_solver.
    + rewrite (c_ref _ _ _ _ Hc i bn) by done.
      rewrite (bool_decide_eq_true_2 (bn ∈ held)), (bool_decide_eq_false_2 (bn ∈ pinned)) by done.
      by rewrite (bool_decide_eq_true_2 (bn ∈ bn :: pinned)) by (by left).
    + by apply (c_lock _ _ _ _ Hc).
    + apply (c_valid _ _ _ _ Hc i bn); [done|by left].
    + by apply (cache_data s held pinned).
    + done.
    + apply (c_held _ _ _ _ Hc).
    + apply NoDup_cons. split; [done|apply (c_pinned _ _ _ _ Hc)].
  - intros j bn'. by apply (is_buf_upd s i _ _ j bn' Hu).
Qed.

Lemma bunpin_spec s held pinned cur i bn :
  cache s held (bn :: pinned) cur → is_buf s i bn → bn ∈ held →
  wp (bunpin i) (fun _ s' => cache s' held pinned cur ∧
    (∀ j bn', is_buf s j bn' → is_buf s' j bn') ∧ dsk s' = dsk s) s.
Proof.
  intros Hc Hi Hh. apply wp_modify. pose proof (c_pinned _ _ _ _ Hc) as [Hp Hnp]%NoDup_cons.
  pose proof (upd_buf_at s i (fun x => set_refcnt (u32 (refcnt x - 1)) x) eq_refl eq_refl) as Hu.
  split; [|split; [|done]].
  - eapply (cache_upd s held (bn :: pinned) cur i bn); [done|done|exact Hu|apply Hi|apply Hi|..]; cbn.
    + intros bn' Hne. rewrite elem_of_cons. naive_solver.
    + rewrite (c_ref _ _ _ _ Hc i bn) by done.
      rewrite (bool_decide_eq_true_2 (bn ∈ held)), (bool_decide_eq_false_2 (bn ∈ pinned)) by done.
      by rewrite (bool_decide_eq_true_2 (bn ∈ bn :: pinned)) by (by left).
    + by apply (c_lock _ _ _ _ Hc).
    + apply (c_valid _ _ _ _ Hc i bn); [done|by left].
    + by apply (cache_data s held (bn :: pinned)).
    + done.
    + apply (c_held _ _ _ _ Hc).
    + done.
  - intros j bn'. by apply (is_buf_upd s i _ _ j bn' Hu).
Qed.

Lemma payload_inv b b' :
  payload b' = payload b → valid b' = valid b ∧ dev b' = dev b ∧ blockno b' = blockno b ∧
  lock b' = lock b ∧ refcnt b' = refcnt b ∧ data b' = data b.
Proof. unfold payload. intros [=]. tauto. Qed.

Lemma cache_links s held pinned cur s' l :
  cache s held pinned cur → links_only s s' → lru s' l → cache s' held pinned cur.
Proof.
  intros Hc (Hpl & Hd & Hm) Hl.
  assert (Hib : ∀ j bn, is_buf s' j bn ↔ is_buf s j bn).
  { intros j bn. unfold is_buf. by destruct (payload_inv _ _ (Hpl j)) as (_ & -> & -> & _). }
  split; try apply Hc; try (rewrite ?Hd; setoid_rewrite Hib; apply Hc); eauto.
  - intros i bn Hi%Hib. destruct (payload_inv _ _ (Hpl i)) as (_ & _ & _ & _ & -> & _).
    by apply Hc.
  - intros i Hi. destruct (payload_inv _ _ (Hpl i)) as (_ & -> & _ & -> & -> & _). by apply Hc.
  - intros i bn Hi%Hib. destruct (payload_inv _ _ (Hpl i)) as (_ & _ & _ & -> & _).
    rewrite Hm. by apply Hc.
  - intros i bn Hi%Hib. destruct (payload_inv _ _ (Hpl i)) as (-> & _). by apply Hc.
  - intros i bn Hi%Hib. destruct (payload_inv _ _ (Hpl i)) as (-> & _ & _ & _ & _ & ->).
    by apply Hc.
  - rewrite Hd. apply Hc.
Qed.

(** A block is released clean, or pinned. *)
Lemma brelse_spec s held pinned cur i bn :
  cache s (bn :: held) pinned cur → is_buf s i bn →
  bn ∈ pinned ∨ cur bn = blocks (dsk s) bn →
  wp (brelse i) (fun _ s' => cache s' held pinned cur ∧
    (∀ j bn', is_buf s j bn' → is_buf s' j bn') ∧ dsk s' = dsk s) s.
Proof.
  intros Hc Hi Hcl. pose proof (c_held _ _ _ _ Hc) as [Hnh Hnd]%NoDup_cons.
  assert (bn ∈ bn :: held) as Hh by (by left).
  unfold brelse. apply wp_bind. unfold wp at 1. rewrite (buf_held s (bn :: held) pinned cur i bn) by done.
  cbn [negb]. apply wp_bind, wp_modify, wp_bind, wp_modify. apply wp_bind, wp_gets.
  set (s2 := mk_bio _ _ _).
  set (b' := mk_buf (valid (bufs s i)) (dev (bufs s i)) (blockno (bufs s i)) (mk_sleeplock 0 0)
    (Z.b2z (bool_decide (bn ∈ pinned))) (prev (bufs s i)) (next (bufs s i)) (data (bufs s i))).
  assert (Hu : upd_at s i b' s2).
  { split; [|split; [done|split; [done|split; [|done]]]].
    - unfold s2. cbn. rewrite !alter_eq, !decide_True by done. unfold set_lock, set_refcnt. cbn.
      rewrite (c_ref _ _ _ _ Hc i bn), (bool_decide_eq_true_2 (bn ∈ bn :: held)) by done.
      unfold b'. f_equal. rewrite u32_small; destruct (bool_decide _); cbn; lia.
    - intros j Hj. unfold s2. cbn. by rewrite !alter_eq, !decide_False. }
  assert (Hc2 : cache s2 held pinned cur).
  { eapply (cache_upd s (bn :: held) pinned cur i bn); [done|done|exact Hu|apply Hi|apply Hi|..]; cbn.
    - intros bn' Hne. rewrite elem_of_cons. naive_solver.
    - by rewrite (bool_decide_eq_false_2 (bn ∈ held)).
    - by rewrite decide_False.
    - apply (c_valid _ _ _ _ Hc i bn); [done|by left].
    - by apply (cache_data s (bn :: held) pinned).
    - intros _ Hnp. by destruct Hcl.
    - done.
    - apply (c_pinned _ _ _ _ Hc). }
  assert (Hst : ∀ j bn', is_buf s j bn' → is_buf s2 j bn') by
    (intros j bn'; by apply (is_buf_upd s i _ _ j bn' Hu)).
  case_test; [|by apply wp_ret].
  destruct (c_lru _ _ _ _ Hc2) as [l Hl].
  eapply wp_mono; [apply (move_front_spec s2 l i Hl)|].
  - apply (lru_elem _ _ _ Hl). apply Hi.
  - intros ? s3 [Hl3 Ho3]. split; [by eapply cache_links|]. split; [|apply Ho3].
    intros j bn' Hj%Hst. destruct Ho3 as [Hpl _]. unfold is_buf in *.
    by destruct (payload_inv _ _ (Hpl j)) as (_ & -> & -> & _).
Qed.

(** After [binit] every block is as on disk. *)
Lemma binit_cache s :
  d ≠ 0 → (∀ i, bufs s i = mk_buf false 0 0 (mk_sleeplock 0 0) 0 0 0 (fun _ => 0)) →
  wp binit (fun _ s' => cache s' [] [] (blocks (dsk s)) ∧ dsk s' = dsk s) s.
Proof.
  intros Hd Hz. eapply wp_mono; [apply binit_spec|].
  intros ? s' (l & Hl & (H1 & H2 & _ & H4 & _)). split; [|done].
  assert (Hno : ∀ i bn, ¬ is_buf s' i bn).
  { intros i bn (_ & Hdv & _). specialize (H1 i). rewrite Hz in H1. unfold unlocked_payload in H1.
    cbn in H1. injection H1 as _ ? _ _ _. congruence. }
  split; try (intros i bn Hi; by apply Hno in Hi); try constructor; eauto.
  - intros i j bn Hi. by apply Hno in Hi.
  - specialize (H1 i). rewrite Hz in H1. unfold unlocked_payload in H1. cbn in H1. by injection H1.
  - by intros bn [?%not_elem_of_nil|?%not_elem_of_nil].
  - by rewrite H4.
Qed.

End cache.
