(* ===== verification/Virtio.v ===== *)
(** * The disk driver (kernel/virtio_disk.c, kernel/virtio.h)

    The driver and the device share descriptors and two rings.  The functions
    of the driver hold [vdisk_lock] from [acquire] to [release] or to
    [sleep]; [virtio_disk_rw] is modelled as the sections between these
    points.  The device is the one of the virtio specification: it takes the
    chains made available in their order, and completes those it has taken in
    any order, with the transfer done and status 0.

    An address in a descriptor is that of a command header, of the data of a
    buffer, or of a status byte. *)

From stdpp Require Import functions relations.
From S2P Require Import Prelude Mem Ring Riscv Kalloc Vm Bio.

Definition NUM : Z := 8.
Definition VRING_DESC_F_NEXT : Z := 1.
Definition VRING_DESC_F_WRITE : Z := 2.
Definition VIRTIO_BLK_T_IN : Z := 0.
Definition VIRTIO_BLK_T_OUT : Z := 1.

Inductive daddr := Null | OpsAt (i : Z) | DataAt (b : Z) | StatusAt (i : Z).
Record virtq_desc := mk_desc { d_addr : daddr; d_len : Z; d_flags : Z; d_next : Z }.
Record virtio_blk_req := mk_req { r_type : Z; r_reserved : Z; r_sector : Z }.
Inductive vchan := FreeChan | BufChan (b : Z).
#[export] Instance vchan_eq : EqDecision vchan.
Proof. solve_decision. Defined.

(** [struct disk], the rings, the fields of buffers the driver uses, who
    sleeps on what, and the device: how far it has read the avail ring, the
    chains it has taken, and the blocks of the disk. *)
Record vdisk := mk_vdisk {
  desc : Z → virtq_desc; free : Z → bool; vused_idx : Z; info_b : Z → option Z; info_status : Z → Z;
  ops : Z → virtio_blk_req;
  avail_idx : Z; avail_ring : Z → Z; used_ring_idx : Z; used_ring : Z → Z;
  b_disk : Z → bool; b_blockno : Z → Z; b_data : Z → block; vasleep : Z → option vchan;
  seen : Z; taken : list Z; vblocks : Z → block
}.

Definition set_desc i v s := mk_vdisk (<[i := v]> (desc s)) (free s) (vused_idx s) (info_b s) (info_status s) (ops s)
  (avail_idx s) (avail_ring s) (used_ring_idx s) (used_ring s) (b_disk s) (b_blockno s) (b_data s) (vasleep s)
  (seen s) (taken s) (vblocks s).
Definition set_free i v s := mk_vdisk (desc s) (<[i := v]> (free s)) (vused_idx s) (info_b s) (info_status s) (ops s)
  (avail_idx s) (avail_ring s) (used_ring_idx s) (used_ring s) (b_disk s) (b_blockno s) (b_data s) (vasleep s)
  (seen s) (taken s) (vblocks s).
Definition set_vused_idx v s := mk_vdisk (desc s) (free s) v (info_b s) (info_status s) (ops s)
  (avail_idx s) (avail_ring s) (used_ring_idx s) (used_ring s) (b_disk s) (b_blockno s) (b_data s) (vasleep s)
  (seen s) (taken s) (vblocks s).
Definition set_info_b i v s := mk_vdisk (desc s) (free s) (vused_idx s) (<[i := v]> (info_b s)) (info_status s) (ops s)
  (avail_idx s) (avail_ring s) (used_ring_idx s) (used_ring s) (b_disk s) (b_blockno s) (b_data s) (vasleep s)
  (seen s) (taken s) (vblocks s).
Definition set_info_status i v s := mk_vdisk (desc s) (free s) (vused_idx s) (info_b s) (<[i := v]> (info_status s)) (ops s)
  (avail_idx s) (avail_ring s) (used_ring_idx s) (used_ring s) (b_disk s) (b_blockno s) (b_data s) (vasleep s)
  (seen s) (taken s) (vblocks s).
Definition set_ops i v s := mk_vdisk (desc s) (free s) (vused_idx s) (info_b s) (info_status s) (<[i := v]> (ops s))
  (avail_idx s) (avail_ring s) (used_ring_idx s) (used_ring s) (b_disk s) (b_blockno s) (b_data s) (vasleep s)
  (seen s) (taken s) (vblocks s).
Definition set_avail idx ring s := mk_vdisk (desc s) (free s) (vused_idx s) (info_b s) (info_status s) (ops s)
  idx ring (used_ring_idx s) (used_ring s) (b_disk s) (b_blockno s) (b_data s) (vasleep s)
  (seen s) (taken s) (vblocks s).
Definition set_used idx ring s := mk_vdisk (desc s) (free s) (vused_idx s) (info_b s) (info_status s) (ops s)
  (avail_idx s) (avail_ring s) idx ring (b_disk s) (b_blockno s) (b_data s) (vasleep s)
  (seen s) (taken s) (vblocks s).
Definition set_b_disk b v s := mk_vdisk (desc s) (free s) (vused_idx s) (info_b s) (info_status s) (ops s)
  (avail_idx s) (avail_ring s) (used_ring_idx s) (used_ring s) (<[b := v]> (b_disk s)) (b_blockno s) (b_data s) (vasleep s)
  (seen s) (taken s) (vblocks s).
Definition set_b_data b v s := mk_vdisk (desc s) (free s) (vused_idx s) (info_b s) (info_status s) (ops s)
  (avail_idx s) (avail_ring s) (used_ring_idx s) (used_ring s) (b_disk s) (b_blockno s) (<[b := v]> (b_data s)) (vasleep s)
  (seen s) (taken s) (vblocks s).
Definition set_b_blockno b v s := mk_vdisk (desc s) (free s) (vused_idx s) (info_b s) (info_status s) (ops s)
  (avail_idx s) (avail_ring s) (used_ring_idx s) (used_ring s) (b_disk s) (<[b := v]> (b_blockno s)) (b_data s) (vasleep s)
  (seen s) (taken s) (vblocks s).
Definition set_vasleep v s := mk_vdisk (desc s) (free s) (vused_idx s) (info_b s) (info_status s) (ops s)
  (avail_idx s) (avail_ring s) (used_ring_idx s) (used_ring s) (b_disk s) (b_blockno s) (b_data s) v
  (seen s) (taken s) (vblocks s).
Definition set_taken sn tk s := mk_vdisk (desc s) (free s) (vused_idx s) (info_b s) (info_status s) (ops s)
  (avail_idx s) (avail_ring s) (used_ring_idx s) (used_ring s) (b_disk s) (b_blockno s) (b_data s) (vasleep s)
  sn tk (vblocks s).
Definition set_vblock n v s := mk_vdisk (desc s) (free s) (vused_idx s) (info_b s) (info_status s) (ops s)
  (avail_idx s) (avail_ring s) (used_ring_idx s) (used_ring s) (b_disk s) (b_blockno s) (b_data s) (vasleep s)
  (seen s) (taken s) (<[n := v]> (vblocks s)).

Definition vwakeup (c : vchan) : M vdisk unit :=
  modify (fun s => set_vasleep (fun q => if decide (vasleep s q = Some c) then None else vasleep s q) s).
Definition vsleep (me : Z) (c : vchan) : M vdisk unit :=
  modify (fun s => set_vasleep (<[me := Some c]> (vasleep s)) s).

(** ** Descriptors *)

Fixpoint alloc_desc_loop (n : nat) : M vdisk Z :=
  match n with
  | O => ret (-1)
  | S n' =>
      let i := NUM - Z.of_nat n in
      do f <- gets (fun s => free s i);
      if (f : bool) then do! modify (set_free i false); ret i else alloc_desc_loop n'
  end.
Definition alloc_desc : M vdisk Z := alloc_desc_loop (Z.to_nat NUM).

Definition free_desc (i : Z) : M vdisk unit :=
  if NUM <=? i then panic "free_desc 1"
  else
    do f <- gets (fun s => free s i);
    if (f : bool) then panic "free_desc 2"
    else
      do! modify (set_desc i (mk_desc Null 0 0 0));
      do! modify (set_free i true);
      vwakeup FreeChan.

Fixpoint free_chain (fuel : nat) (i : Z) : M vdisk unit :=
  match fuel with
  | O => out_of_fuel
  | S f =>
      do d <- gets (fun s => desc s i);
      do! free_desc i;
      if negb (Z.land (d_flags d) VRING_DESC_F_NEXT =? 0) then free_chain f (d_next d) else ret tt
  end.

Fixpoint free_descs (l : list Z) : M vdisk unit :=
  match l with [] => ret tt | i :: l => do! free_desc i; free_descs l end.
(** The descriptors allocated so far are [got], the [n] others are to be
    allocated. *)
Fixpoint alloc3_loop (n : nat) (got : list Z) : M vdisk (option (list Z)) :=
  match n with
  | O => ret (Some got)
  | S n' =>
      do i <- alloc_desc;
      if i <? 0 then do! free_descs got; ret None else alloc3_loop n' (got ++ [i])
  end.
Definition alloc3_desc : M vdisk (option (list Z)) := alloc3_loop 3 [].

(** ** Requests *)

(** Format the descriptors [i0], [i1], [i2], record the buffer, and make the
    chain available. *)
Definition submit (b : Z) (write : bool) (i0 i1 i2 : Z) : M vdisk unit :=
  do bn <- gets (fun s => b_blockno s b);
  do! modify (set_ops i0 (mk_req (if write then VIRTIO_BLK_T_OUT else VIRTIO_BLK_T_IN) 0 (u32 (bn * (BSIZE / 512)))));
  do! modify (set_desc i0 (mk_desc (OpsAt i0) 16 VRING_DESC_F_NEXT i1));
  do! modify (set_desc i1 (mk_desc (DataAt b) BSIZE
                (Z.lor (if write then 0 else VRING_DESC_F_WRITE) VRING_DESC_F_NEXT) i2));
  do! modify (set_info_status i0 0xff);
  do! modify (set_desc i2 (mk_desc (StatusAt i0) 1 VRING_DESC_F_WRITE 0));
  do! modify (set_b_disk b true);
  do! modify (set_info_b i0 (Some b));
  do! modify (fun s => set_avail (avail_idx s) (<[avail_idx s mod NUM := i0]> (avail_ring s)) s);
  modify (fun s => set_avail (u16 (avail_idx s + 1)) (avail_ring s) s).

(** virtio_disk_rw up to the wait for the device: the head of the chain, or
    nothing when the process sleeps until descriptors are free. *)
Definition rw_start (me b : Z) (write : bool) : M vdisk (option Z) :=
  do idx <- alloc3_desc;
  match idx with
  | Some [i0; i1; i2] => do! submit b write i0 i1 i2; ret (Some i0)
  | _ => do! vsleep me FreeChan; ret None
  end.
(** A test of while(b->disk == 1) and the rest: whether the function
    returns. *)
Definition rw_wait (me b i0 : Z) : M vdisk bool :=
  do d <- gets (fun s => b_disk s b);
  if (d : bool) then do! vsleep me (BufChan b); ret false
  else
    do! modify (set_info_b i0 None);
    do! free_chain (Z.to_nat NUM) i0;
    ret true.

(** The device has at most NUM chains. *)
Fixpoint intr_loop (fuel : nat) : M vdisk unit :=
  do s <- get;
  if negb (vused_idx s =? used_ring_idx s) then
    match fuel with
    | O => out_of_fuel
    | S f =>
        let id := used_ring s (vused_idx s mod NUM) in
        if negb (info_status s id =? 0) then panic "virtio_disk_intr status"
        else
          match info_b s id with
          | None => panic "kerneltrap"
          | Some b =>
              do! modify (set_b_disk b false);
              do! vwakeup (BufChan b);
              do! modify (fun s => set_vused_idx (u16 (vused_idx s + 1)) s);
              intr_loop f
          end
    end
  else ret tt.
Definition virtio_disk_intr : M vdisk unit := intr_loop (Z.to_nat NUM).

(** ** The device *)

(** Take the next available chain. *)
Definition dev_take (s : vdisk) : option vdisk :=
  if seen s =? avail_idx s then None
  else Some (set_taken (u16 (seen s + 1)) (taken s ++ [avail_ring s (seen s mod NUM)]) s).

(** Carry out the chain with head [i], and put it on the used ring. *)
Definition transfer (i : Z) (s : vdisk) : option vdisk :=
  let h := desc s i in
  let d := desc s (d_next h) in
  let st := desc s (d_next d) in
  match d_addr h, d_addr d, d_addr st with
  | OpsAt o, DataAt b, StatusAt j =>
      let n := r_sector (ops s o) / (BSIZE / 512) in
      let s1 := if r_type (ops s o) =? VIRTIO_BLK_T_OUT then set_vblock n (b_data s b) s
                else set_b_data b (vblocks s n) s in
      Some (set_info_status j 0 s1)
  | _, _, _ => None
  end.
Definition dev_finish (i : Z) (s : vdisk) : option vdisk :=
  match transfer i s with
  | None => None
  | Some s =>
      Some (set_used (u16 (used_ring_idx s + 1)) (<[used_ring_idx s mod NUM := i]> (used_ring s))
        (set_taken (seen s) (filter (.≠ i) (taken s)) s))
  end.

(** ** Initialisation *)

(** [reads r] is what the device answers to a read of register [r]; the
    writes to the registers are recorded. *)
Record vboot := mk_vboot { vb_mem : kmem; vb_writes : list (Z * Z) }.
Definition vb_on_mem {A} (c : M kmem A) : M vboot A := lift vb_mem (fun s m => mk_vboot m (vb_writes s)) c.
Definition wr (r v : Z) : M vboot unit := modify (fun s => mk_vboot (vb_mem s) (vb_writes s ++ [(r, u32 v)])).

Definition features_off : list Z := [5; 7; 11; 12; 27; 29; 28].
Definition virtio_disk_init {KI : KernelImage} (reads : Z → Z) : M vboot (Z * Z * Z) :=
  if negb (reads 0x000 =? 0x74726976) || negb (reads 0x004 =? 2) || negb (reads 0x008 =? 2)
     || negb (reads 0x00c =? 0x554d4551) then panic "could not find virtio disk"
  else
    do! wr 0x070 0;
    do! wr 0x070 1;
    do! wr 0x070 3;
    let features := foldl (fun f b => Z.land f (Z.lnot (Z.shiftl 1 b))) (reads 0x010) features_off in
    do! wr 0x020 features;
    do! wr 0x070 11;
    let status := reads 0x070 in
    if Z.land status 8 =? 0 then panic "virtio disk FEATURES_OK unset"
    else
      do! wr 0x030 0;
      if negb (reads 0x044 =? 0) then panic "virtio disk should not be ready"
      else if reads 0x034 =? 0 then panic "virtio disk has no queue 0"
      else if reads 0x034 <? NUM then panic "virtio disk max queue too short"
      else
        do desc <- vb_on_mem kalloc;
        do avail <- vb_on_mem kalloc;
        do used <- vb_on_mem kalloc;
        if (desc =? 0) || (avail =? 0) || (used =? 0) then panic "virtio disk kalloc"
        else
          do! vb_on_mem (memset desc 0 PGSIZE);
          do! vb_on_mem (memset avail 0 PGSIZE);
          do! vb_on_mem (memset used 0 PGSIZE);
          do! wr 0x038 NUM;
          do! wr 0x080 desc;
          do! wr 0x084 (Z.shiftr desc 32);
          do! wr 0x090 avail;
          do! wr 0x094 (Z.shiftr avail 32);
          do! wr 0x0a0 used;
          do! wr 0x0a4 (Z.shiftr used 32);
          do! wr 0x044 1;
          do! wr 0x070 (Z.lor status 4);
          ret (desc, avail, used).

(** The state it leaves: zeroed queues, all descriptors free. *)
Definition vdisk0 (blocks data : Z → block) (blockno : Z → Z) : vdisk :=
  mk_vdisk (fun _ => mk_desc Null 0 0 0) (fun i => (0 <=? i) && (i <? NUM)) 0 (fun _ => None) (fun _ => 0)
    (fun _ => mk_req 0 0 0) 0 (fun _ => 0) 0 (fun _ => 0) (fun _ => false) blockno data (fun _ => None) 0 [] blocks.
