(* ===== verification/VirtioSpec.v ===== *)
(** * The disk driver implements block transfers

    Requests of several processes, the interrupt handler and the device in
    any order: descriptors are never shared, no check of the driver panics,
    and every request carries out one transfer before it returns, as
    [virtio_disk_rw] of the buffer cache does it in one step. *)

From stdpp Require Import functions relations.
From S2P Require Import Prelude Mem Ring Riscv Kalloc Vm Sleeplock Bio Virtio.

(** ** The system *)

(** A call of [virtio_disk_rw] that has submitted its chain; [q_done]: the
    device has carried it out. *)
Record req := mk_rq { q_b : Z; q_write : bool; q_i0 : Z; q_i1 : Z; q_i2 : Z; q_done : bool }.
#[export] Instance req_eq : EqDecision req.
Proof. solve_decision. Defined.
Definition rdescs (r : req) : list Z := [q_i0 r; q_i1 r; q_i2 r].
Definition blk (s : vdisk) (b : Z) : Z := disk_block (b_blockno s b).
Definition set_done (i : Z) (r : req) : req :=
  if q_i0 r =? i then mk_rq (q_b r) (q_write r) (q_i0 r) (q_i1 r) (q_i2 r) true else r.

Record vsys := mk_vsys { vd : vdisk; reqs : list req }.

(** A buffer is used by one call at a time, and no two buffers hold the same
    block: the sleep lock of the buffer and the buffer cache see to it. *)
Definition idle (b : Z) (x : vsys) : Prop := ∀ r, r ∈ reqs x → q_b r ≠ b.
Definition startable (b : Z) (x : vsys) : Prop :=
  ∀ r, r ∈ reqs x → q_b r ≠ b ∧ blk (vd x) (q_b r) ≠ blk (vd x) b.

Inductive vstep : vsys → vsys → Prop :=
  | vs_start me b w x i0 s' :
      startable b x → rw_start me b w (vd x) = Ok (Some i0, s') →
      vstep x (mk_vsys s' (mk_rq b w i0 (d_next (desc s' i0)) (d_next (desc s' (d_next (desc s' i0)))) false :: reqs x))
  | vs_full me b w x s' :
      startable b x → rw_start me b w (vd x) = Ok (None, s') → vstep x (mk_vsys s' (reqs x))
  | vs_wait me r x s' :
      r ∈ reqs x → rw_wait me (q_b r) (q_i0 r) (vd x) = Ok (false, s') → vstep x (mk_vsys s' (reqs x))
  | vs_return me r l1 l2 x s' :
      reqs x = l1 ++ r :: l2 → rw_wait me (q_b r) (q_i0 r) (vd x) = Ok (true, s') → vstep x (mk_vsys s' (l1 ++ l2))
  | vs_intr x s' : virtio_disk_intr (vd x) = Ok (tt, s') → vstep x (mk_vsys s' (reqs x))
  | vs_take x s' : dev_take (vd x) = Some s' → vstep x (mk_vsys s' (reqs x))
  | vs_finish i x s' :
      i ∈ taken (vd x) → dev_finish i (vd x) = Some s' → vstep x (mk_vsys s' (map (set_done i) (reqs x)))
  | vs_data b v x : idle b x → vstep x (mk_vsys (set_b_data b v (vd x)) (reqs x))
  | vs_blockno b n x : idle b x → vstep x (mk_vsys (set_b_blockno b n (vd x)) (reqs x)).

(** ** Allocating and freeing descriptors *)

Lemma alloc_desc_spec s :
  (∃ i, 0 ≤ i < NUM ∧ free s i = true ∧ alloc_desc s = Ok (i, set_free i false s)) ∨
  ((∀ i, 0 ≤ i < NUM → free s i = false) ∧ alloc_desc s = Ok (-1, s)).
Proof.
  assert (H : ∀ n, (n ≤ Z.to_nat NUM)%nat →
    (∃ i, NUM - Z.of_nat n ≤ i < NUM ∧ free s i = true ∧ alloc_desc_loop n s = Ok (i, set_free i false s)) ∨
    ((∀ i, NUM - Z.of_nat n ≤ i < NUM → free s i = false) ∧ alloc_desc_loop n s = Ok (-1, s))).
  { induction n as [|n IH]; intros Hn.
    - right. split; [lia|done].
    - cbn [alloc_desc_loop]. unfold gets, bind at 1 3.
      destruct (free s (NUM - Z.of_nat (S n))) eqn:E.
      + left. exists (NUM - Z.of_nat (S n)). split; [lia|]. done.
      + destruct IH as [(i & Hi & Hf & ->)|[Hf ->]]; [lia| |].
        * left. exists i. split; [lia|]. done.
        * right. split; [|done]. intros i Hi. destruct (decide (i = NUM - Z.of_nat (S n))) as [->|]; [done|].
          apply Hf. lia. }
  destruct (H (Z.to_nat NUM)) as [(i & Hi & Hf & E)|[Hf E]]; [done| |].
  - left. exists i. unfold NUM in *. split; [lia|]. done.
  - right. split; [|done]. intros i Hi. apply Hf. unfold NUM in *. lia.
Qed.

(** The state after [free_desc i]. *)
Definition wake_free (s : vdisk) : vdisk :=
  set_vasleep (fun q => if decide (vasleep s q = Some FreeChan) then None else vasleep s q) s.
Definition freed (i : Z) (s : vdisk) : vdisk := wake_free (set_free i true (set_desc i (mk_desc Null 0 0 0) s)).

Lemma free_desc_spec s i : i < NUM → free s i = false → free_desc i s = Ok (tt, freed i s).
Proof.
  intros Hi Hf. unfold free_desc. destruct (Z.leb_spec NUM i); [lia|].
  unfold gets, bind, modify, vwakeup. rewrite Hf. done.
Qed.

(** A state that differs in free descriptors and woken processes only. *)
Record same_reqs (s s' : vdisk) : Prop := {
  sr_free i : free s' i = free s i;
  sr_desc i : free s i = false → desc s' i = desc s i;
  sr_sleep p c : vasleep s' p = Some c → vasleep s p = Some c;
  sr_rest : vused_idx s' = vused_idx s ∧ info_b s' = info_b s ∧ info_status s' = info_status s ∧ ops s' = ops s ∧
    avail_idx s' = avail_idx s ∧ avail_ring s' = avail_ring s ∧ used_ring_idx s' = used_ring_idx s ∧
    used_ring s' = used_ring s ∧ b_disk s' = b_disk s ∧ b_blockno s' = b_blockno s ∧ b_data s' = b_data s ∧
    seen s' = seen s ∧ taken s' = taken s ∧ vblocks s' = vblocks s
}.

Lemma same_reqs_refl s : same_reqs s s.
Proof. by repeat split. Qed.
Lemma same_reqs_trans s1 s2 s3 : same_reqs s1 s2 → same_reqs s2 s3 → same_reqs s1 s3.
Proof.
  intros [Hf Hd Hs Hr] [Hf' Hd' Hs' Hr']. split.
  - intros i. by rewrite Hf'.
  - intros i Hi. rewrite Hd', Hd; [done..|]. by rewrite Hf.
  - eauto.
  - clear -Hr Hr'. intuition congruence.
Qed.

Lemma freed_same s s' i :
  free s i = true → same_reqs s (set_free i true s') → same_reqs s (freed i s').
Proof.
  intros Hf [Hf' Hd Hs Hr]. split.
  - exact Hf'.
  - intros j Hj. cbn. rewrite fn_lookup_insert_ne by congruence. apply (Hd j Hj).
  - intros p c. cbn. case_decide; [done|]. apply (Hs p c).
  - exact Hr.
Qed.

Ltac fn_solve := cbn; repeat first [rewrite fn_lookup_insert | rewrite fn_lookup_insert_ne by congruence]; cbn.

Lemma alloc3_spec s :
  (∃ i0 i1 i2, NoDup [i0; i1; i2] ∧ (∀ i, i ∈ [i0; i1; i2] → 0 ≤ i < NUM ∧ free s i = true) ∧
     alloc3_desc s = Ok (Some [i0; i1; i2], set_free i2 false (set_free i1 false (set_free i0 false s)))) ∨
  (∃ l s', (length l ≤ 2)%nat ∧ (∀ i, 0 ≤ i < NUM → free s i = true → In i l) ∧ same_reqs s s' ∧
     alloc3_desc s = Ok (None, s')).
Proof.
  assert (Hneg : ∀ i, 0 ≤ i → (i <? 0) = false) by (intros; lia).
  destruct (alloc_desc_spec s) as [(i0 & H0 & F0 & E0)|[Hn E0]].
  2:{ right. exists [], s. split; [cbn; lia|]. split; [intros i Hi Hf; rewrite Hn in Hf by done; done|].
      split; [apply same_reqs_refl|]. unfold alloc3_desc. cbn. unfold bind. rewrite E0. done. }
  set (s1 := set_free i0 false s) in *.
  destruct (alloc_desc_spec s1) as [(i1 & H1 & F1 & E1)|[Hn E1]].
  2:{ right. exists [i0], (freed i0 s1). split; [cbn; lia|]. split; [|split].
      - intros i Hi Hf. destruct (decide (i = i0)) as [->|Hne]; [by left|].
        specialize (Hn i Hi). cbn in Hn. rewrite fn_lookup_insert_ne in Hn by done. congruence.
      - apply freed_same; [done|]. split; [|done..]. intros i. cbn.
        destruct (decide (i = i0)) as [->|]; by fn_solve.
      - unfold alloc3_desc. cbn [alloc3_loop app]. unfold bind. rewrite E0, Hneg, E1 by lia. cbn [Z.ltb Z.compare free_descs].
        unfold bind. rewrite free_desc_spec by (try lia; subst s1; fn_solve; done). done. }
  set (s2 := set_free i1 false s1) in *.
  assert (Hne : i1 ≠ i0). { intros ->. subst s1. cbn in F1. by rewrite fn_lookup_insert in F1. }
  assert (F1' : free s i1 = true). { subst s1. cbn in F1. by rewrite fn_lookup_insert_ne in F1. }
  destruct (alloc_desc_spec s2) as [(i2 & H2 & F2 & E2)|[Hn E2]].
  - left. exists i0, i1, i2.
    assert (i2 ≠ i0 ∧ i2 ≠ i1) as [].
    { subst s1 s2. cbn in F2. split; intros ->; rewrite ?fn_lookup_insert in F2; try done.
      rewrite fn_lookup_insert_ne, fn_lookup_insert in F2 by done. done. }
    assert (F2' : free s i2 = true). { subst s1 s2. cbn in F2. by rewrite !fn_lookup_insert_ne in F2. }
    split; [|split].
    + repeat constructor; set_solver.
    + intros i Hi. repeat (apply elem_of_cons in Hi as [->|Hi]); try done. set_solver.
    + unfold alloc3_desc. cbn [alloc3_loop app]. unfold bind. rewrite E0, Hneg, E1, Hneg, E2, Hneg by lia. done.
  - right. exists [i0; i1], (freed i1 (freed i0 s2)). split; [cbn; lia|]. split; [|split].
    + intros i Hi Hf. destruct (decide (i = i0)); [left; done|]. destruct (decide (i = i1)); [right; left; done|].
      specialize (Hn i Hi). subst s1 s2. cbn in Hn. rewrite !fn_lookup_insert_ne in Hn by done. congruence.
    + apply freed_same; [done|]. subst s1 s2. split; [| | |done].
      * intros i. cbn. destruct (decide (i = i1)) as [->|]; [by fn_solve|].
        destruct (decide (i = i0)) as [->|]; by fn_solve.
      * intros i Hi. cbn. by rewrite fn_lookup_insert_ne by congruence.
      * intros p c. cbn. by case_decide.
    + unfold alloc3_desc. cbn [alloc3_loop app]. unfold bind. rewrite E0, Hneg, E1, Hneg, E2 by lia.
      cbn [Z.ltb Z.compare free_descs]. unfold bind.
      rewrite free_desc_spec by (try lia; subst s1 s2; fn_solve; done).
      rewrite free_desc_spec by (try lia; subst s1 s2; fn_solve; done). done.
Qed.

(** ** The invariant

    [q], [u] and [f] are the heads of the chains that are on the avail ring,
    on the used ring, and seen by the interrupt handler; the device has the
    others. *)

Definition chain_ok (s : vdisk) (r : req) : Prop :=
  desc s (q_i0 r) = mk_desc (OpsAt (q_i0 r)) 16 VRING_DESC_F_NEXT (q_i1 r) ∧
  desc s (q_i1 r) = mk_desc (DataAt (q_b r)) BSIZE
    (Z.lor (if q_write r then 0 else VRING_DESC_F_WRITE) VRING_DESC_F_NEXT) (q_i2 r) ∧
  desc s (q_i2 r) = mk_desc (StatusAt (q_i0 r)) 1 VRING_DESC_F_WRITE 0.
Definition req_ok (s : vdisk) (r : req) : Prop :=
  chain_ok s r ∧
  ops s (q_i0 r) = mk_req (if q_write r then VIRTIO_BLK_T_OUT else VIRTIO_BLK_T_IN) 0
    (u32 (b_blockno s (q_b r) * (BSIZE / 512))) ∧
  info_b s (q_i0 r) = Some (q_b r).

Definition all_descs (rs : list req) : list Z := concat (map rdescs rs).
Definition len (l : list Z) : Z := Z.of_nat (length l).

Record vinv (s : vdisk) (rs : list req) (q u f : list Z) : Prop := {
  vi_nodup : NoDup (all_descs rs);
  vi_range i : i ∈ all_descs rs → 0 ≤ i < NUM;
  vi_free i : 0 ≤ i < NUM → free s i = false ↔ i ∈ all_descs rs;
  vi_desc r : r ∈ rs → req_ok s r;
  vi_bufs : NoDup (map q_b rs);
  vi_blocks : NoDup (map (fun r => blk s (q_b r)) rs);
  vi_heads : map q_i0 rs ≡ₚ q ++ taken s ++ u ++ f;
  vi_avail : seg NUM (avail_ring s) (seen s) (len q) = q ∧ avail_idx s = u16 (seen s + len q) ∧ 0 ≤ seen s < 2 ^ 16;
  vi_used : seg NUM (used_ring s) (vused_idx s) (len u) = u ∧ used_ring_idx s = u16 (vused_idx s + len u) ∧
            0 ≤ vused_idx s < 2 ^ 16;
  vi_disk r : r ∈ rs → b_disk s (q_b r) = false ↔ q_i0 r ∈ f;
  vi_done r : r ∈ rs → q_done r = true ↔ q_i0 r ∈ u ++ f;
  vi_moved r : r ∈ rs → q_done r = true →
    info_status s (q_i0 r) = 0 ∧ b_data s (q_b r) = vblocks s (blk s (q_b r));
  vi_sleep_b p b : vasleep s p = Some (BufChan b) → ∃ r, r ∈ rs ∧ q_b r = b ∧ q_i0 r ∉ f;
  vi_sleep_f p : vasleep s p = Some FreeChan → (2 ≤ length rs)%nat
}.

Lemma vinv_same s s' rs q u f : same_reqs s s' → vinv s rs q u f → vinv s' rs q u f.
Proof.
  intros [Hf Hd Hs Hr] I. destruct Hr as (E1 & E2 & E3 & E4 & E5 & E6 & E7 & E8 & E9 & E10 & E11 & E12 & E13 & E14).
  assert (Hin : ∀ r i, r ∈ rs → i ∈ rdescs r → desc s' i = desc s i).
  { intros r i Hr Hi. assert (i ∈ all_descs rs).
    { unfold all_descs. apply list_elem_of_In, in_concat. exists (rdescs r).
      split; apply list_elem_of_In; [by apply list_elem_of_fmap_2|done]. }
    apply Hd. by apply (vi_free _ _ _ _ _ I); [apply (vi_range _ _ _ _ _ I)|]. }
  destruct I. split; unfold blk; rewrite ?E1, ?E3, ?E5, ?E6, ?E7, ?E8, ?E9, ?E10, ?E11, ?E12, ?E13, ?E14; try done.
  - intros i Hi. by rewrite Hf, vi_free0.
  - intros r Hr. destruct (vi_desc0 r Hr) as ((H1 & H2 & H3) & H4 & H5).
    assert (Hi : ∀ i, i ∈ rdescs r → desc s' i = desc s i) by (intros i; by apply Hin).
    unfold req_ok, chain_ok. rewrite !Hi by (unfold rdescs; set_solver). by rewrite E2, E4, E10.
  - intros p b Hp. apply (vi_sleep_b0 p b). by apply Hs.
  - intros p Hp. apply (vi_sleep_f0 p). by apply Hs.
Qed.

(** At most two requests: they have three of the eight descriptors each. *)
Lemma length_all_descs rs : length (all_descs rs) = (3 * length rs)%nat.
Proof. unfold all_descs. induction rs as [|r rs IH]; [done|]. cbn. rewrite IH. lia. Qed.
Lemma vinv_few s rs q u f : vinv s rs q u f → (length rs ≤ 2)%nat.
Proof.
  intros I. pose proof (length_all_descs rs) as Hl.
  assert (all_descs rs ⊆+ seqZ 0 NUM) as Hs.
  { apply NoDup_submseteq; [apply I|]. intros i Hi%(vi_range _ _ _ _ _ I). apply elem_of_seqZ. lia. }
  apply submseteq_length in Hs. rewrite length_seqZ in Hs. unfold NUM in Hs. lia.
Qed.
(** With less than three descriptors free there are two. *)
Lemma vinv_full s rs q u f l :
  vinv s rs q u f → (length l ≤ 2)%nat → (∀ i, 0 ≤ i < NUM → free s i = true → In i l) → (2 ≤ length rs)%nat.
Proof.
  intros I Hl Hfree. pose proof (length_all_descs rs) as Hd.
  assert (seqZ 0 NUM ⊆+ all_descs rs ++ l) as Hs.
  { apply NoDup_submseteq; [apply NoDup_seqZ|]. intros i Hi%elem_of_seqZ. apply elem_of_app.
    destruct (free s i) eqn:E; [right; apply list_elem_of_In, Hfree; [lia|done]|].
    left. by apply (vi_free _ _ _ _ _ I); [lia|]. }
  apply submseteq_length in Hs. rewrite length_app, length_seqZ in Hs. unfold NUM in Hs. lia.
Qed.

Lemma desc_in r rs i : r ∈ rs → i ∈ rdescs r → i ∈ all_descs rs.
Proof.
  intros Hr Hi. unfold all_descs. apply list_elem_of_In, in_concat. exists (rdescs r).
  split; apply list_elem_of_In; [by apply list_elem_of_fmap_2|done].
Qed.
Lemma head_in s rs q u f i : vinv s rs q u f → i ∈ q ++ taken s ++ u ++ f → ∃ r, r ∈ rs ∧ q_i0 r = i.
Proof.
  intros I Hi. rewrite <- (vi_heads _ _ _ _ _ I) in Hi. apply list_elem_of_fmap in Hi as (r & -> & Hr). eauto.
Qed.
Lemma head_desc s rs q u f i : vinv s rs q u f → i ∈ q ++ taken s ++ u ++ f → i ∈ all_descs rs.
Proof. intros I Hi. destruct (head_in _ _ _ _ _ _ I Hi) as (r & Hr & <-). apply (desc_in r); [done|]. unfold rdescs. set_solver. Qed.

Lemma u16_mod x : u16 x mod NUM = x mod NUM.
Proof. unfold u16, NUM. apply wrap_mod; [lia| |lia]. by exists 8192. Qed.
Lemma len_few s rs q u f : vinv s rs q u f → len q + len (taken s) + len u + len f ≤ 2.
Proof.
  intros I. pose proof (vinv_few _ _ _ _ _ I) as Hn. pose proof (Permutation_length (vi_heads _ _ _ _ _ I)) as Hl.
  rewrite length_map, !length_app in Hl. unfold len. lia.
Qed.

(** The state after [submit]. *)
Definition submitted (b : Z) (w : bool) (i0 i1 i2 : Z) (s : vdisk) : vdisk :=
  mk_vdisk
    (<[i2 := mk_desc (StatusAt i0) 1 VRING_DESC_F_WRITE 0]>
      (<[i1 := mk_desc (DataAt b) BSIZE (Z.lor (if w then 0 else VRING_DESC_F_WRITE) VRING_DESC_F_NEXT) i2]>
        (<[i0 := mk_desc (OpsAt i0) 16 VRING_DESC_F_NEXT i1]> (desc s))))
    (free s) (vused_idx s) (<[i0 := Some b]> (info_b s)) (<[i0 := 0xff]> (info_status s))
    (<[i0 := mk_req (if w then VIRTIO_BLK_T_OUT else VIRTIO_BLK_T_IN) 0 (u32 (b_blockno s b * (BSIZE / 512)))]> (ops s))
    (u16 (avail_idx s + 1)) (<[avail_idx s mod NUM := i0]> (avail_ring s)) (used_ring_idx s) (used_ring s)
    (<[b := true]> (b_disk s)) (b_blockno s) (b_data s) (vasleep s) (seen s) (taken s) (vblocks s).
Lemma submit_spec b w i0 i1 i2 s : submit b w i0 i1 i2 s = Ok (tt, submitted b w i0 i1 i2 s).
Proof. reflexivity. Qed.

Lemma start_inv s rs q u f b w i0 i1 i2 :
  vinv s rs q u f → startable b (mk_vsys s rs) → NoDup [i0; i1; i2] →
  (∀ i, i ∈ [i0; i1; i2] → 0 ≤ i < NUM ∧ free s i = true) →
  vinv (submitted b w i0 i1 i2 (set_free i2 false (set_free i1 false (set_free i0 false s))))
    (mk_rq b w i0 i1 i2 false :: rs) (q ++ [i0]) u f.
Proof.
  intros I Hst Hnd Hfr. pose proof (len_few _ _ _ _ _ I) as Hfew.
  assert (Hnew : ∀ i, i ∈ [i0; i1; i2] → i ∉ all_descs rs).
  { intros i Hi Hin. destruct (Hfr i Hi) as [Hr Hf]. apply (vi_free _ _ _ _ _ I) in Hin; [congruence|done]. }
  assert (Hh : i0 ∉ q ++ taken s ++ u ++ f).
  { intros Hi. apply (Hnew i0); [set_solver|]. by eapply head_desc. }
  assert (H01 : i0 ≠ i1 ∧ i0 ≠ i2 ∧ i1 ≠ i2). { repeat rewrite NoDup_cons in Hnd. set_solver. }
  destruct H01 as (H01 & H02 & H12).
  assert (Hold : ∀ r i, r ∈ rs → i ∈ rdescs r → i ≠ i0 ∧ i ≠ i1 ∧ i ≠ i2).
  { intros r i Hr Hi. pose proof (desc_in r rs i Hr Hi). repeat split; intros ->; eapply Hnew; try done; set_solver. }
  assert (Hold0 : ∀ r, r ∈ rs → q_i0 r ≠ i0).
  { intros r Hr. apply (Hold r); [done|]. unfold rdescs. set_solver. }
  destruct I. split.
  - change (NoDup ([i0; i1; i2] ++ all_descs rs)). apply NoDup_app. split; [done|]. split; [exact Hnew|done].
  - intros i [Hi|Hi]%elem_of_app; [by apply Hfr|by apply vi_range0].
  - intros i Hi. cbn -[all_descs]. change (i ∈ all_descs (_ :: rs)) with (i ∈ [i0; i1; i2] ++ all_descs rs).
    rewrite elem_of_app. destruct (decide (i ∈ [i0; i1; i2])) as [Hin|Hin].
    + assert (Hc : i = i2 ∨ i = i1 ∨ i = i0) by set_solver.
      destruct Hc as [-> | [-> | ->]]; fn_solve; tauto.
    + assert (i ≠ i0 ∧ i ≠ i1 ∧ i ≠ i2) as (? & ? & ?) by set_solver. fn_solve. rewrite vi_free0 by done. tauto.
  - intros r [->|Hr]%elem_of_cons.
    + unfold req_ok, chain_ok. cbn. repeat split; by fn_solve.
    + destruct (vi_desc0 r Hr) as ((H1 & H2 & H3) & H4 & H5). pose proof (Hold r) as Hr'.
      destruct (Hr' (q_i0 r) Hr) as (? & ? & ?); [unfold rdescs; set_solver|].
      destruct (Hr' (q_i1 r) Hr) as (? & ? & ?); [unfold rdescs; set_solver|].
      destruct (Hr' (q_i2 r) Hr) as (? & ? & ?); [unfold rdescs; set_solver|].
      unfold req_ok, chain_ok. cbn. repeat split; by fn_solve.
  - cbn. constructor; [|done]. intros (r & -> & Hr)%list_elem_of_fmap. by apply (Hst r).
  - cbn. constructor; [|done]. intros (r & E & Hr)%list_elem_of_fmap. by apply (Hst r Hr).
  - cbn. rewrite vi_heads0. rewrite <- app_assoc. apply Permutation_middle.
  - cbn. destruct vi_avail0 as (E1 & E2 & E3). unfold len in *. rewrite length_app. cbn [length].
    replace (Z.of_nat (length q + 1)) with (Z.of_nat (length q) + 1) by lia.
    rewrite E2, u16_mod, seg_snoc by (unfold NUM; lia). rewrite E1. split; [done|]. split; [|done].
    unfold u16. rewrite Z.add_mod_idemp_l by lia. f_equal. lia.
  - done.
  - intros r [->|Hr]%elem_of_cons; cbn.
    + fn_solve. split; [done|]. intros ?. destruct Hh. set_solver.
    + destruct (Hst r Hr) as [? _]. fn_solve. by apply vi_disk0.
  - intros r [->|Hr]%elem_of_cons; cbn; [|by apply vi_done0]. split; [done|]. intros ?. destruct Hh. set_solver.
  - intros r [->|Hr]%elem_of_cons; cbn; [done|]. intros Hd. destruct (vi_moved0 r Hr Hd) as [? ?].
    pose proof (Hold0 r Hr). by fn_solve.
  - intros p b' Hp. destruct (vi_sleep_b0 p b' Hp) as (r & ? & ? & ?). exists r. split; [by right|done].
  - intros p Hp. cbn. pose proof (vi_sleep_f0 p Hp). lia.
Qed.

Lemma all_descs_perm rs rs' : rs ≡ₚ rs' → all_descs rs ≡ₚ all_descs rs'.
Proof.
  unfold all_descs. induction 1 as [|r l l' _ IH|r1 r2 l|l1 l2 l3 _ IH1 _ IH2]; cbn [map concat]; [done| | |].
  - by rewrite IH.
  - rewrite !app_assoc. by rewrite (Permutation_app_comm (rdescs r2)).
  - by rewrite IH1.
Qed.
Lemma vinv_perm s rs rs' q u f : rs ≡ₚ rs' → vinv s rs q u f → vinv s rs' q u f.
Proof.
  intros Hp I. pose proof (all_descs_perm _ _ Hp) as Hd.
  assert (Hin : ∀ r, r ∈ rs' → r ∈ rs) by (intros r; by rewrite Hp).
  destruct I. split; try done; try (intros r Hr%Hin; auto; fail).
  - by rewrite <- Hd.
  - intros i. rewrite <- Hd. apply vi_range0.
  - intros i. rewrite <- Hd. apply vi_free0.
  - by rewrite <- Hp.
  - by rewrite <- Hp.
  - by rewrite <- Hp.
  - intros p b Hb. destruct (vi_sleep_b0 p b Hb) as (r & Hr & ?). exists r. by rewrite <- Hp.
  - intros p Hb. rewrite <- Hp. by apply (vi_sleep_f0 p).
Qed.

Lemma nodup_heads rs : NoDup (all_descs rs) → NoDup (map q_i0 rs).
Proof.
  unfold all_descs. induction rs as [|r rs IH]; [constructor|]. cbn [map concat].
  intros (_ & Hn & Hr)%NoDup_app. constructor; [|by apply IH].
  intros (r' & E & Hr')%list_elem_of_fmap. apply (Hn (q_i0 r)); [unfold rdescs; set_solver|].
  rewrite E. apply (desc_in r'); [done|]. unfold rdescs. set_solver.
Qed.

Lemma perm_filter (i : Z) l : NoDup l → i ∈ l → l ≡ₚ i :: filter (.≠ i) l.
Proof.
  intros Hn Hi. apply NoDup_Permutation; [done| |].
  - constructor; [|by apply NoDup_filter]. rewrite list_elem_of_filter. tauto.
  - intros j. rewrite elem_of_cons, list_elem_of_filter. destruct (decide (j = i)); naive_solver.
Qed.

Lemma free_chain_step n i s :
  i < NUM → free s i = false →
  free_chain (S n) i s =
    if negb (Z.land (d_flags (desc s i)) VRING_DESC_F_NEXT =? 0)
    then free_chain n (d_next (desc s i)) (freed i s) else Ok (tt, freed i s).
Proof.
  intros Hi Hf. cbn [free_chain]. unfold bind, gets. rewrite free_desc_spec by done. by case_match.
Qed.
Lemma free_chain_spec s r :
  chain_ok s r → NoDup (rdescs r) → (∀ i, i ∈ rdescs r → i < NUM ∧ free s i = false) →
  free_chain (Z.to_nat NUM) (q_i0 r) s = Ok (tt, freed (q_i2 r) (freed (q_i1 r) (freed (q_i0 r) s))).
Proof.
  intros (D0 & D1 & D2) Hnd Hf. change (Z.to_nat NUM) with 8%nat.
  assert (H01 : q_i0 r ≠ q_i1 r ∧ q_i0 r ≠ q_i2 r ∧ q_i1 r ≠ q_i2 r).
  { unfold rdescs in Hnd. repeat rewrite NoDup_cons in Hnd. set_solver. }
  destruct H01 as (H01 & H02 & H12).
  assert (∀ i, i ∈ rdescs r → i < NUM) as Hlt by (intros i Hi; by apply Hf).
  assert (∀ i, i ∈ rdescs r → free s i = false) as Hfr by (intros i Hi; by apply Hf).
  unfold rdescs in *. set (i0 := q_i0 r) in *. set (i1 := q_i1 r) in *. set (i2 := q_i2 r) in *.
  clearbody i0 i1 i2.
  rewrite free_chain_step by (first [apply Hlt|apply Hfr]; set_solver). rewrite D0. cbn [d_flags d_next].
  change (negb (Z.land VRING_DESC_F_NEXT VRING_DESC_F_NEXT =? 0)) with true. cbn iota.
  rewrite free_chain_step; [|apply Hlt; set_solver|cbn; rewrite fn_lookup_insert_ne by done; apply Hfr; set_solver].
  replace (desc (freed i0 s) i1) with (desc s i1) by (cbn; by rewrite fn_lookup_insert_ne).
  rewrite D1. cbn [d_flags d_next].
  replace (negb _) with true by (by destruct (q_write r)).
  rewrite free_chain_step; [|apply Hlt; set_solver|cbn; rewrite !fn_lookup_insert_ne by done; apply Hfr; set_solver].
  replace (desc (freed i1 (freed i0 s)) i2) with (desc s i2) by (cbn; by rewrite !fn_lookup_insert_ne).
  by rewrite D2.
Qed.

Lemma return_inv s r rs q u f :
  vinv s (r :: rs) q u f → b_disk s (q_b r) = false →
  ∃ s', free_chain (Z.to_nat NUM) (q_i0 r) (set_info_b (q_i0 r) None s) = Ok (tt, s') ∧
        vinv s' rs q u (filter (.≠ q_i0 r) f) ∧
        b_data s' = b_data s ∧ vblocks s' = vblocks s ∧ b_blockno s' = b_blockno s.
Proof.
  intros I Hd.
  assert (Hf : q_i0 r ∈ f) by (by apply (vi_disk _ _ _ _ _ I); [left|]).
  assert (Hnd0 : NoDup (rdescs r) ∧ (∀ i, i ∈ rdescs r → i ∉ all_descs rs) ∧ NoDup (all_descs rs)).
  { apply NoDup_app. exact (vi_nodup _ _ _ _ _ I). }
  destruct Hnd0 as (Hndr & Hdis & Hndrs).
  assert (Hr : ∀ i, i ∈ rdescs r → i < NUM ∧ free (set_info_b (q_i0 r) None s) i = false).
  { intros i Hi. assert (i ∈ all_descs (r :: rs)) by (apply (desc_in r); [by left|done]).
    pose proof (vi_range _ _ _ _ _ I i ltac:(done)). split; [lia|]. by apply (vi_free _ _ _ _ _ I). }
  assert (Hdesc : ∀ r', r' ∈ rs → ∀ i, i ∈ rdescs r' → i ≠ q_i0 r ∧ i ≠ q_i1 r ∧ i ≠ q_i2 r).
  { intros r' Hr' i Hi. pose proof (desc_in r' rs i Hr' Hi).
    repeat split; intros ->; eapply Hdis; try done; unfold rdescs; set_solver. }
  set (s1 := set_info_b (q_i0 r) None s) in *.
  exists (freed (q_i2 r) (freed (q_i1 r) (freed (q_i0 r) s1))). split; [|split; [|done]].
  { apply free_chain_spec; [|done|exact Hr]. apply (vi_desc _ _ _ _ _ I r). by left. }
  pose proof (nodup_heads _ (vi_nodup _ _ _ _ _ I)) as Hnh.
  pose proof (vi_heads _ _ _ _ _ I) as Hp. rewrite Hp in Hnh.
  assert (Hnf : NoDup f). { rewrite !app_assoc in Hnh. by apply NoDup_app in Hnh as (_ & _ & ?). }
  assert (Hothers : ∀ r', r' ∈ rs → q_i0 r' ≠ q_i0 r).
  { intros r' Hr'. apply (Hdesc r' Hr'). unfold rdescs. set_solver. }
  destruct I. subst s1. split; cbn -[all_descs]; try done.
  - intros i Hi. apply vi_range0. change (i ∈ rdescs r ++ all_descs rs). apply elem_of_app. by right.
  - intros i Hi. specialize (vi_free0 i Hi). change (all_descs (r :: rs)) with (rdescs r ++ all_descs rs) in vi_free0.
    rewrite elem_of_app in vi_free0. destruct (decide (i ∈ rdescs r)) as [Hin|Hin].
    + assert (Hc : i = q_i2 r ∨ i = q_i1 r ∨ i = q_i0 r) by (unfold rdescs in Hin; set_solver).
      assert (Hne : i ∉ all_descs rs) by (by apply Hdis).
      destruct (decide (i = q_i2 r)); [subst i; by fn_solve|].
      destruct (decide (i = q_i1 r)); [subst i; by fn_solve|].
      destruct Hc as [?|[?|?]]; [done..|]. subst i. by fn_solve.
    + assert (i ≠ q_i0 r ∧ i ≠ q_i1 r ∧ i ≠ q_i2 r) as (? & ? & ?) by (unfold rdescs in Hin; set_solver).
      fn_solve. rewrite vi_free0. tauto.
  - intros r' Hr'. destruct (vi_desc0 r') as ((H1 & H2 & H3) & H4 & H5); [by right|].
    pose proof (Hdesc r' Hr') as Hd'.
    destruct (Hd' (q_i0 r')) as (? & ? & ?); [unfold rdescs; set_solver|].
    destruct (Hd' (q_i1 r')) as (? & ? & ?); [unfold rdescs; set_solver|].
    destruct (Hd' (q_i2 r')) as (? & ? & ?); [unfold rdescs; set_solver|].
    unfold req_ok, chain_ok. cbn. repeat split; by fn_solve.
  - by inversion vi_bufs0.
  - by inversion vi_blocks0.
  - apply (Permutation_cons_inv (a := q_i0 r)). etrans; [exact Hp|].
    rewrite (perm_filter (q_i0 r) f) at 1 by done. rewrite !app_assoc. symmetry. apply Permutation_middle.
  - intros r' Hr'. rewrite list_elem_of_filter, (vi_disk0 r') by (by right). pose proof (Hothers r' Hr'). tauto.
  - intros r' Hr'. rewrite (vi_done0 r') by (by right). rewrite !elem_of_app, list_elem_of_filter.
    pose proof (Hothers r' Hr'). tauto.
  - intros r' Hr'. apply vi_moved0. by right.
  - intros p b Hs. repeat case_decide; try done. destruct (vi_sleep_b0 p b Hs) as (r' & Hr' & <- & Hn).
    exists r'. apply elem_of_cons in Hr' as [->|Hr']; [done|]. split; [done|]. split; [done|].
    rewrite list_elem_of_filter. tauto.
  - intros p. repeat case_decide; done.
Qed.

(** ** Steps of the driver and of the device *)

Lemma wait_inv s rs q u f me r :
  vinv s rs q u f → r ∈ rs → b_disk s (q_b r) = true →
  vinv (set_vasleep (<[me := Some (BufChan (q_b r))]> (vasleep s)) s) rs q u f.
Proof.
  intros I Hr Hd. assert (Hf : q_i0 r ∉ f). { intros Hf%(vi_disk _ _ _ _ _ I); [congruence|done]. }
  destruct I. split; try done; cbn.
  - intros p b. destruct (decide (p = me)) as [->|]; fn_solve; [|apply vi_sleep_b0].
    intros [= <-]. by exists r.
  - intros p. destruct (decide (p = me)) as [->|]; fn_solve; [done|apply vi_sleep_f0].
Qed.

Lemma full_inv s s' rs q u f me l :
  vinv s rs q u f → same_reqs s s' → (length l ≤ 2)%nat → (∀ i, 0 ≤ i < NUM → free s i = true → In i l) →
  vinv (set_vasleep (<[me := Some FreeChan]> (vasleep s')) s') rs q u f.
Proof.
  intros I Hs Hl Hf. pose proof (vinv_full _ _ _ _ _ l I Hl Hf) as H2.
  apply (vinv_same _ _ _ _ _ _ Hs) in I. destruct I. split; try done; cbn.
  intros p b. destruct (decide (p = me)) as [->|]; fn_solve; [done|apply vi_sleep_b0].
Qed.

Lemma take_inv s s' rs q u f :
  vinv s rs q u f → dev_take s = Some s' → ∃ q', vinv s' rs q' u f ∧
    b_data s' = b_data s ∧ vblocks s' = vblocks s ∧ b_blockno s' = b_blockno s.
Proof.
  intros I. pose proof (len_few _ _ _ _ _ I) as Hfew. unfold dev_take.
  destruct (Z.eqb_spec (seen s) (avail_idx s)) as [|Hne]; [done|]. intros [= <-].
  destruct (vi_avail _ _ _ _ _ I) as (E1 & E2 & E3).
  destruct q as [|i q'].
  { exfalso. apply Hne. rewrite E2. unfold u16, len. cbn [length]. rewrite Z.add_0_r, Z.mod_small; lia. }
  exists q'. split; [|done].
  assert (Hl : len (i :: q') = len q' + 1) by (unfold len; cbn [length]; lia).
  rewrite Hl in E1, E2, Hfew. unfold len in *.
  rewrite seg_cons in E1 by (unfold NUM; lia). injection E1 as Ei Eq.
  replace (Z.of_nat (length q') + 1 - 1) with (Z.of_nat (length q')) in Eq by lia.
  destruct I. split; try done; cbn -[seg].
  - rewrite Ei. etrans; [exact vi_heads0|]. cbn. rewrite <- (app_assoc (taken s)). cbn.
    rewrite (app_assoc q'), (app_assoc q'). apply Permutation_middle.
  - unfold len. split; [|split].
    + etrans; [|exact Eq]. apply seg_mod; [unfold NUM; lia|]. apply u16_mod.
    + rewrite E2. unfold u16. rewrite Z.add_mod_idemp_l by lia. f_equal. lia.
    + unfold u16. apply Z.mod_pos_bound. lia.
Qed.

Lemma set_done_same i r :
  q_b (set_done i r) = q_b r ∧ q_write (set_done i r) = q_write r ∧ q_i0 (set_done i r) = q_i0 r ∧
  rdescs (set_done i r) = rdescs r.
Proof. unfold set_done. by case_match. Qed.

Lemma transfer_spec s r :
  req_ok s r →
  transfer (q_i0 r) s = Some (set_info_status (q_i0 r) 0
    (if q_write r then set_vblock (blk s (q_b r)) (b_data s (q_b r)) s
     else set_b_data (q_b r) (vblocks s (blk s (q_b r))) s)).
Proof.
  intros ((H1 & H2 & H3) & H4 & H5). unfold transfer. rewrite H1. cbn [d_next d_addr].
  rewrite H2. cbn [d_next d_addr]. rewrite H3. cbn [d_addr]. rewrite H4. cbn [r_type r_sector].
  by destruct (q_write r).
Qed.

(** Requests of different buffers have different heads and blocks. *)
Lemma nodup_map_ne {A} (g : req → A) rs r r' :
  NoDup (map g rs) → r ∈ rs → r' ∈ rs → r' ≠ r → g r' ≠ g r.
Proof.
  induction rs as [|x rs IH]; [set_solver|]. cbn. intros [Hx Hn]%NoDup_cons Hr Hr' Hne.
  apply elem_of_cons in Hr as [->|Hr], Hr' as [->|Hr']; try done.
  - intros E. apply Hx. rewrite <- E. by apply list_elem_of_fmap_2.
  - intros E. apply Hx. rewrite E. by apply list_elem_of_fmap_2.
  - by apply IH.
Qed.

(** The state after the transfer, with the data and the blocks it leaves. *)
Definition finished (i : Z) (data blocks : Z → block) (s : vdisk) : vdisk :=
  mk_vdisk (desc s) (free s) (vused_idx s) (info_b s) (<[i := 0]> (info_status s)) (ops s)
    (avail_idx s) (avail_ring s) (u16 (used_ring_idx s + 1)) (<[used_ring_idx s mod NUM := i]> (used_ring s))
    (b_disk s) (b_blockno s) data (vasleep s) (seen s) (filter (.≠ i) (taken s)) blocks.

Lemma finished_inv s r rs q u f data' blocks' :
  vinv s rs q u f → r ∈ rs → q_i0 r ∈ taken s →
  (∀ b, b ≠ q_b r → data' b = b_data s b) → (∀ n, n ≠ blk s (q_b r) → blocks' n = vblocks s n) →
  data' (q_b r) = blocks' (blk s (q_b r)) →
  vinv (finished (q_i0 r) data' blocks' s) (map (set_done (q_i0 r)) rs) q (u ++ [q_i0 r]) f.
Proof.
  intros I Hr Ht Hd Hb Heq. pose proof (len_few _ _ _ _ _ I) as Hfew.
  pose proof (nodup_heads _ (vi_nodup _ _ _ _ _ I)) as Hnh0.
  pose proof Hnh0 as Hnh. rewrite (vi_heads _ _ _ _ _ I) in Hnh.
  apply NoDup_app in Hnh as (_ & _ & Hnh). apply NoDup_app in Hnh as (Hnt & Hnu & _).
  specialize (Hnu _ Ht). set (i := q_i0 r) in *.
  assert (Hmap : ∀ r', r' ∈ map (set_done i) rs → ∃ r0, r0 ∈ rs ∧ r' = set_done i r0).
  { intros r' (r0 & -> & H0)%list_elem_of_fmap. eauto. }
  assert (Hds : all_descs (map (set_done i) rs) = all_descs rs).
  { unfold all_descs. rewrite map_map. f_equal. apply map_ext. intros a. by destruct (set_done_same i a) as (_ & _ & _ & ->). }
  assert (Hq : ∀ {A} (g : req → A), (∀ a, g (set_done i a) = g a) → map g (map (set_done i) rs) = map g rs).
  { intros A g Hg. rewrite map_map. by apply map_ext. }
  assert (Hsame : ∀ r0, r0 ∈ rs → q_i0 r0 = i → r0 = r).
  { intros r0 H0 E. destruct (decide (r0 = r)) as [|Hn]; [done|].
    by destruct (nodup_map_ne q_i0 rs r r0 Hnh0 Hr H0 Hn). }
  destruct I. split; cbn -[all_descs]; rewrite ?Hds, ?Hq; try done.
  - intros r' (r0 & H0 & ->)%Hmap. destruct (vi_desc0 r0 H0) as ((H1 & H2 & H3) & H4 & H5).
    unfold set_done. destruct (q_i0 r0 =? i); exact (conj (conj H1 (conj H2 H3)) (conj H4 H5)).
  - intros a. by destruct (set_done_same i a) as (-> & _).
  - intros a. unfold blk. by destruct (set_done_same i a) as (-> & _).
  - rewrite vi_heads0. rewrite (perm_filter i (taken s)) at 1 by done. apply Permutation_app_head.
    generalize (filter (.≠ i) (taken s)) as t. intros t. rewrite <- (app_assoc u [i] f). cbn [app].
    rewrite (app_assoc t u (i :: f)), (app_assoc t u f). apply Permutation_middle.
  - intros a. by destruct (set_done_same i a) as (_ & _ & -> & _).
  - destruct vi_used0 as (E1 & E2 & E3). unfold len in *. rewrite length_app. cbn [length].
    replace (Z.of_nat (length u + 1)) with (Z.of_nat (length u) + 1) by lia.
    rewrite E2, u16_mod, seg_snoc by (unfold NUM; lia). rewrite E1. split; [done|]. split; [|done].
    unfold u16. rewrite Z.add_mod_idemp_l by lia. f_equal. lia.
  - intros r' (r0 & H0 & ->)%Hmap. destruct (set_done_same i r0) as (-> & _ & -> & _). by apply vi_disk0.
  - intros r' (r0 & H0 & ->)%Hmap. destruct (set_done_same i r0) as (_ & _ & -> & _).
    rewrite <- app_assoc, elem_of_app. cbn. rewrite elem_of_cons. pose proof (vi_done0 r0 H0) as Hd0.
    rewrite elem_of_app in Hd0. unfold set_done. destruct (Z.eqb_spec (q_i0 r0) i) as [E|E]; cbn; tauto.
  - intros r' (r0 & H0 & ->)%Hmap. destruct (set_done_same i r0) as (-> & _ & -> & _). unfold set_done.
    change (blk (finished i data' blocks' s) (q_b r0)) with (blk s (q_b r0)).
    destruct (Z.eqb_spec (q_i0 r0) i) as [E|E].
    + pose proof (Hsame r0 H0 E) as ->. intros _. by rewrite E, fn_lookup_insert.
    + intros Hdn. destruct (vi_moved0 r0 H0 Hdn) as [M1 M2]. rewrite fn_lookup_insert_ne by done.
      assert (r0 ≠ r) as Hn by (intros ->; done). split; [done|].
      rewrite Hd by (by apply (nodup_map_ne q_b rs)).
      rewrite Hb by (by apply (nodup_map_ne (fun x => blk s (q_b x)) rs)). done.
  - intros p b Hs. destruct (vi_sleep_b0 p b Hs) as (r0 & H0 & <- & Hn). exists (set_done i r0).
    destruct (set_done_same i r0) as (-> & _ & -> & _). split; [by apply list_elem_of_fmap_2|]. done.
  - intros p Hs. rewrite length_map. by apply (vi_sleep_f0 p).
Qed.

Lemma finish_inv s r rs q u f :
  vinv s rs q u f → r ∈ rs → q_i0 r ∈ taken s →
  ∃ s', dev_finish (q_i0 r) s = Some s' ∧
        vinv s' (map (set_done (q_i0 r)) rs) q (u ++ [q_i0 r]) f ∧ b_blockno s' = b_blockno s ∧
        (if q_write r then b_data s' = b_data s ∧ vblocks s' = <[blk s (q_b r) := b_data s (q_b r)]> (vblocks s)
         else b_data s' = <[q_b r := vblocks s (blk s (q_b r))]> (b_data s) ∧ vblocks s' = vblocks s).
Proof.
  intros I Hr Ht. unfold dev_finish. rewrite transfer_spec by (by apply (vi_desc _ _ _ _ _ I)).
  destruct (q_write r); (eexists; split; [reflexivity|split; [|done]]).
  - apply (finished_inv s r rs q u f (b_data s) (<[blk s (q_b r) := b_data s (q_b r)]> (vblocks s)) I Hr Ht); [done| |by rewrite fn_lookup_insert].
    intros n Hn. by rewrite fn_lookup_insert_ne.
  - apply (finished_inv s r rs q u f (<[q_b r := vblocks s (blk s (q_b r))]> (b_data s)) (vblocks s) I Hr Ht); [|done|by rewrite fn_lookup_insert].
    intros n Hn. by rewrite fn_lookup_insert_ne.
Qed.

(** One iteration of the interrupt handler. *)
Definition noticed (b : Z) (s : vdisk) : vdisk :=
  set_vused_idx (u16 (vused_idx s + 1))
    (set_vasleep (fun p => if decide (vasleep s p = Some (BufChan b)) then None else vasleep s p) (set_b_disk b false s)).

Lemma noticed_inv s rs q i u f r :
  vinv s rs q (i :: u) f → r ∈ rs → q_i0 r = i → vinv (noticed (q_b r) s) rs q u (i :: f).
Proof.
  intros I Hr <-. pose proof (len_few _ _ _ _ _ I) as Hfew.
  assert (Hother : ∀ r', r' ∈ rs → r' ≠ r → q_b r' ≠ q_b r ∧ q_i0 r' ≠ q_i0 r).
  { intros r' Hr' Hn. split; apply (nodup_map_ne _ rs); try done; [apply I|by apply nodup_heads, I]. }
  assert (Hlen : len (q_i0 r :: u) = len u + 1) by (unfold len; cbn [length]; lia).
  destruct I. rewrite Hlen in *. unfold len in *. split; cbn -[seg]; try done.
  - rewrite vi_heads0. do 2 apply Permutation_app_head. cbn. apply Permutation_middle.
  - destruct vi_used0 as (E1 & E2 & E3). unfold len. rewrite seg_cons in E1 by (unfold NUM; lia). injection E1 as _ E1.
    replace (Z.of_nat (length u) + 1 - 1) with (Z.of_nat (length u)) in E1 by lia. split; [|split].
    + etrans; [|exact E1]. apply seg_mod; [unfold NUM; lia|]. apply u16_mod.
    + rewrite E2. unfold u16. rewrite Z.add_mod_idemp_l by lia. f_equal. lia.
    + unfold u16. apply Z.mod_pos_bound. lia.
  - intros r' Hr'. rewrite elem_of_cons. destruct (decide (r' = r)) as [->|Hn].
    + rewrite fn_lookup_insert. tauto.
    + destruct (Hother r' Hr' Hn). rewrite fn_lookup_insert_ne by done. rewrite vi_disk0 by done. tauto.
  - intros r' Hr'. rewrite vi_done0 by done. cbn. rewrite !elem_of_cons, !elem_of_app, elem_of_cons. tauto.
  - intros p b. case_decide as Hd; [done|]. intros Hb. destruct (vi_sleep_b0 p b Hb) as (r' & Hr' & <- & Hn).
    exists r'. split; [done|]. split; [done|]. intros [E|?]%elem_of_cons; [|done].
    destruct (decide (r' = r)) as [->|Hne]; [done|]. by destruct (Hother r' Hr' Hne).
  - intros p. case_decide; [done|]. apply vi_sleep_f0.
Qed.

Lemma intr_inv fuel s rs q u f :
  vinv s rs q u f → (length u ≤ fuel)%nat →
  ∃ s' f', intr_loop fuel s = Ok (tt, s') ∧ vinv s' rs q [] f' ∧
    b_data s' = b_data s ∧ vblocks s' = vblocks s ∧ b_blockno s' = b_blockno s.
Proof.
  revert s u f. induction fuel as [|fuel IH]; intros s u f I Hl; destruct u as [|i u]; cbn in Hl; try lia.
  1,2: exists s, f; split; [|done]; cbn; unfold bind, get;
    destruct (vi_used _ _ _ _ _ I) as (_ & -> & H); unfold len, u16; cbn [length];
    rewrite Z.add_0_r, Z.mod_small, Z.eqb_refl by lia; done.
  pose proof (len_few _ _ _ _ _ I) as Hfew.
  destruct (head_in _ _ _ _ _ i I) as (r & Hr & Hi); [set_solver|].
  assert (Hdone : q_done r = true). { apply (vi_done _ _ _ _ _ I); [done|]. rewrite Hi. set_solver. }
  destruct (vi_moved _ _ _ _ _ I r Hr Hdone) as [Hs _].
  destruct (vi_desc _ _ _ _ _ I r Hr) as (_ & _ & Hb).
  destruct (vi_used _ _ _ _ _ I) as (E1 & E2 & E3).
  rewrite seg_cons in E1 by (unfold NUM, len; cbn [length]; lia). injection E1 as E1 _.
  destruct (IH (noticed (q_b r) s) u (i :: f)) as (s' & f' & E & I' & Hrest); [by apply noticed_inv|lia|].
  exists s', f'. split; [|done]. cbn [intr_loop]. unfold bind at 1, get.
  destruct (Z.eqb_spec (vused_idx s) (used_ring_idx s)) as [E0|_].
  { exfalso. rewrite E2 in E0. unfold len, u16 in *. cbn [length] in *.
    destruct (decide (vused_idx s + Z.of_nat (S (length u)) < 2 ^ 16)).
    - rewrite Z.mod_small in E0; lia.
    - rewrite <- (Z_mod_plus_full _ (-1)), Z.mod_small in E0; lia. }
  cbn [negb]. rewrite E1, <- Hi, Hs. cbn [Z.eqb negb]. rewrite Hb. exact E.
Qed.

(** ** Refinement

    What the callers see: requests that have been made, each of which is
    carried out in one step of the buffer cache's [virtio_disk_rw] before it
    returns. *)

Record astate := mk_astate {
  a_data : Z → block; a_blocks : Z → block; a_blockno : Z → Z; a_reqs : list (Z * bool * bool)
}.
Definition as_bio (a : astate) : bio :=
  mk_bio (fun b => mk_buf true 0 (a_blockno a b) initsleeplock 0 0 0 (a_data a b)) (mk_disk (a_blocks a) []) 0.

Inductive astep : astate → astate → Prop :=
  | as_start b w a :
      (∀ x, x ∈ a_reqs a → x.1.1 ≠ b) →
      astep a (mk_astate (a_data a) (a_blocks a) (a_blockno a) ((b, w, false) :: a_reqs a))
  | as_perform b w l1 l2 a t :
      a_reqs a = l1 ++ (b, w, false) :: l2 → virtio_disk_rw b w (as_bio a) = Ok (tt, t) →
      astep a (mk_astate (fun b => data (bufs t b)) (blocks (dsk t)) (a_blockno a) (l1 ++ (b, w, true) :: l2))
  | as_return b w l1 l2 a :
      a_reqs a = l1 ++ (b, w, true) :: l2 →
      astep a (mk_astate (a_data a) (a_blocks a) (a_blockno a) (l1 ++ l2))
  | as_data b v a :
      (∀ x, x ∈ a_reqs a → x.1.1 ≠ b) →
      astep a (mk_astate (<[b := v]> (a_data a)) (a_blocks a) (a_blockno a) (a_reqs a))
  | as_blockno b n a :
      (∀ x, x ∈ a_reqs a → x.1.1 ≠ b) →
      astep a (mk_astate (a_data a) (a_blocks a) (<[b := n]> (a_blockno a)) (a_reqs a)).

Definition call_of (r : req) : Z * bool * bool := (q_b r, q_write r, q_done r).
Record refines (x : vsys) (a : astate) : Prop := {
  rf_data b : a_data a b = b_data (vd x) b;
  rf_blocks n : a_blocks a n = vblocks (vd x) n;
  rf_blockno b : a_blockno a b = b_blockno (vd x) b;
  rf_reqs : a_reqs a = map call_of (reqs x)
}.
Definition good (x : vsys) (a : astate) : Prop := refines x a ∧ ∃ q u f, vinv (vd x) (reqs x) q u f.

Lemma refines_same x a s' :
  refines x a → b_data s' = b_data (vd x) → vblocks s' = vblocks (vd x) → b_blockno s' = b_blockno (vd x) →
  refines (mk_vsys s' (reqs x)) a.
Proof. intros [H1 H2 H3 H4] E1 E2 E3. split; cbn; rewrite ?E1, ?E2, ?E3; done. Qed.

Lemma set_done_other i rs : (∀ r, r ∈ rs → q_i0 r ≠ i) → map (set_done i) rs = rs.
Proof.
  induction rs as [|r rs IH]; [done|]. intros H. cbn. rewrite IH by (intros; apply H; by right). f_equal.
  unfold set_done. destruct (Z.eqb_spec (q_i0 r) i); [|done]. by destruct (H r); [left|].
Qed.

Lemma rw_abs a b w :
  ∃ t, virtio_disk_rw b w (as_bio a) = Ok (tt, t) ∧
    (∀ b', data (bufs t b') =
       if w then a_data a b' else (<[b := a_blocks a (disk_block (a_blockno a b))]> (a_data a) : Z → block) b') ∧
    (∀ n, blocks (dsk t) n =
       if w then (<[disk_block (a_blockno a b) := a_data a b]> (a_blocks a) : Z → block) n else a_blocks a n).
Proof.
  destruct w; (eexists; split; [cbv [virtio_disk_rw the_buf gets bind modify upd_buf]; reflexivity|]); (split; [|done]); intros b'; cbn; [done|].
  destruct (decide (b' = b)) as [->|].
  - by rewrite fn_lookup_alter, fn_lookup_insert.
  - by rewrite fn_lookup_alter_ne, fn_lookup_insert_ne.
Qed.

(** The device carries out a request. *)
Lemma finish_refines x a q u f r s' :
  refines x a → vinv (vd x) (reqs x) q u f → r ∈ reqs x → q_i0 r ∈ taken (vd x) →
  dev_finish (q_i0 r) (vd x) = Some s' →
  ∃ a', astep a a' ∧ good (mk_vsys s' (map (set_done (q_i0 r)) (reqs x))) a'.
Proof.
  intros Hrf I Hr Ht E. destruct (finish_inv _ r _ _ _ _ I Hr Ht) as (s1 & E1 & I' & Hbn & Hw).
  assert (s1 = s') as -> by congruence. clear E1.
  pose proof (nodup_heads _ (vi_nodup _ _ _ _ _ I)) as Hnh.
  assert (Hnd : q_done r = false).
  { destruct (q_done r) eqn:Ed; [|done]. apply (vi_done _ _ _ _ _ I r Hr) in Ed.
    rewrite (vi_heads _ _ _ _ _ I) in Hnh. apply NoDup_app in Hnh as (_ & _ & Hnh).
    apply NoDup_app in Hnh as (_ & Hn & _). by destruct (Hn _ Ht). }
  destruct (list_elem_of_split _ _ Hr) as (l1 & l2 & El). rewrite El in *.
  rewrite map_app in Hnh. cbn in Hnh. apply NoDup_app in Hnh as (_ & Hn1 & Hnh). apply NoDup_cons in Hnh as [Hn2 _].
  assert (El' : map (set_done (q_i0 r)) (l1 ++ r :: l2) = l1 ++ set_done (q_i0 r) r :: l2).
  { rewrite map_app. cbn. rewrite !set_done_other; [done| |].
    - intros r' Hr' E'. apply Hn2. rewrite <- E'. by apply list_elem_of_fmap_2.
    - intros r' Hr' E'. apply (Hn1 (q_i0 r')); [by apply list_elem_of_fmap_2|]. rewrite E'. by left. }
  destruct Hrf as [H1 H2 H3 H4]. rewrite El, map_app in H4. cbn in H4. unfold call_of at 2 in H4. rewrite Hnd in H4.
  destruct (rw_abs a (q_b r) (q_write r)) as (t & Et & Hd & Hb).
  eexists. split; [by apply (as_perform (q_b r) (q_write r) _ _ a t H4 Et)|].
  split; [|by exists q, (u ++ [q_i0 r]), f].
  unfold blk in Hw. split; cbn; rewrite ?El'.
  - intros b. rewrite Hd, ?H2, H3. destruct (q_write r), Hw as [-> _]; [done|].
    destruct (decide (b = q_b r)) as [->|]; [by rewrite !fn_lookup_insert|by rewrite !fn_lookup_insert_ne].
  - intros n. rewrite Hb, H3. destruct (q_write r), Hw as [_ ->]; [|done].
    destruct (decide (n = disk_block (b_blockno (vd x) (q_b r)))) as [->|];
      [by rewrite !fn_lookup_insert|by rewrite !fn_lookup_insert_ne].
  - by rewrite Hbn.
  - rewrite map_app. cbn. do 2 f_equal. unfold call_of, set_done. by rewrite Z.eqb_refl.
Qed.

(** How [rw_start] ends. *)
Lemma rw_start_spec s rs q u f me b w :
  vinv s rs q u f → startable b (mk_vsys s rs) →
  (∃ i0 i1 i2 s', rw_start me b w s = Ok (Some i0, s') ∧ d_next (desc s' i0) = i1 ∧ d_next (desc s' i1) = i2 ∧
     b_data s' = b_data s ∧ vblocks s' = vblocks s ∧ b_blockno s' = b_blockno s ∧
     vinv s' (mk_rq b w i0 i1 i2 false :: rs) (q ++ [i0]) u f) ∨
  (∃ s', rw_start me b w s = Ok (None, s') ∧
     b_data s' = b_data s ∧ vblocks s' = vblocks s ∧ b_blockno s' = b_blockno s ∧ vinv s' rs q u f).
Proof.
  intros I Hst. destruct (alloc3_spec s) as [(i0 & i1 & i2 & Hnd & Hfr & E)|(l & s1 & Hl & Hf & Hs & E)].
  - left. exists i0, i1, i2. eexists. split; [unfold rw_start, bind at 1; rewrite E; reflexivity|].
    assert (H01 : i0 ≠ i1 ∧ i0 ≠ i2 ∧ i1 ≠ i2). { repeat rewrite NoDup_cons in Hnd. set_solver. }
    destruct H01 as (? & ? & ?). pose proof (start_inv _ _ _ _ _ b w i0 i1 i2 I Hst Hnd Hfr) as I'.
    split; [cbn; by fn_solve|]. split; [cbn; by fn_solve|]. done.
  - right. eexists. split; [unfold rw_start, bind at 1; rewrite E; reflexivity|].
    destruct (sr_rest _ _ Hs) as (_ & _ & _ & _ & _ & _ & _ & _ & _ & E1 & E2 & _ & _ & E3). cbn.
    split; [done|]. split; [done|]. split; [done|]. by apply (full_inv s s1 rs q u f me l).
Qed.

Lemma rw_wait_spec s r l1 l2 q u f me :
  vinv s (l1 ++ r :: l2) q u f →
  ∃ d s' f', rw_wait me (q_b r) (q_i0 r) s = Ok (d, s') ∧
    b_data s' = b_data s ∧ vblocks s' = vblocks s ∧ b_blockno s' = b_blockno s ∧
    (d = true → q_done r = true) ∧ vinv s' (if d : bool then l1 ++ l2 else l1 ++ r :: l2) q u f'.
Proof.
  intros I. assert (Hr : r ∈ l1 ++ r :: l2) by set_solver.
  assert (I1 : vinv s (r :: l1 ++ l2) q u f) by (eapply vinv_perm; [symmetry; apply Permutation_middle|done]).
  unfold rw_wait, bind, gets. destruct (b_disk s (q_b r)) eqn:Hd.
  - eexists false, _, f. split; [reflexivity|]. do 4 (split; [done|]). by apply wait_inv.
  - destruct (return_inv _ _ _ _ _ _ I1 Hd) as (s' & E & I' & Hrest). cbn [modify].
    exists true, s', (filter (.≠ q_i0 r) f). unfold modify. rewrite E. split; [done|].
    destruct Hrest as (D1 & D2 & D3). split; [done|]. split; [done|]. split; [done|]. split; [|done]. intros _. apply (vi_done _ _ _ _ _ I r Hr), elem_of_app. right.
    by apply (vi_disk _ _ _ _ _ I).
Qed.

Lemma vinv_in_split (r : req) x : r ∈ reqs x → ∃ l1 l2, reqs x = l1 ++ r :: l2.
Proof. apply list_elem_of_split. Qed.

Lemma blockno_inv x q u f b n :
  idle b x → vinv (vd x) (reqs x) q u f → vinv (set_b_blockno b n (vd x)) (reqs x) q u f.
Proof.
  intros Hb I. assert (Hblk : ∀ r, r ∈ reqs x → b_blockno (set_b_blockno b n (vd x)) (q_b r) = b_blockno (vd x) (q_b r)).
  { intros r Hr. cbn. apply fn_lookup_insert_ne. intros E. apply (Hb r Hr). congruence. }
  destruct I. split; try done.
  - intros r Hr. destruct (vi_desc0 r Hr) as ((H1 & H2 & H3) & H4 & H5).
    unfold req_ok, chain_ok. rewrite Hblk by done. cbn. done.
  - assert (Em : map (fun r => blk (set_b_blockno b n (vd x)) (q_b r)) (reqs x) = map (fun r => blk (vd x) (q_b r)) (reqs x)).
    { apply map_ext_in. intros r Hr%list_elem_of_In. unfold blk. by rewrite Hblk. }
    by rewrite Em.
  - intros r Hr Hd. unfold blk. rewrite Hblk by done. by apply vi_moved0.
Qed.

Lemma step_good x x' a : good x a → vstep x x' → ∃ a', rtc astep a a' ∧ good x' a'.
Proof.
  intros [Hrf (q & u & f & I)] Hst. destruct Hst as
    [me b w x i0 s' Hs E|me b w x s' Hs E|me r x s' Hr E|me r l1 l2 x s' El E|x s' E|x s' E|i x s' Hi E|b v x Hb|b n x Hb].
  - destruct (rw_start_spec _ _ _ _ _ me b w I Hs) as [(j0 & i1 & i2 & s1 & E1 & H1 & H2 & D1 & D2 & D3 & I')|(s1 & E1 & _)];
      rewrite E in E1; [|done]. injection E1 as <- <-. rewrite H1, H2.
    eexists. split; [apply rtc_once, (as_start b w a)|].
    + rewrite (rf_reqs _ _ Hrf). intros y (r & -> & Hr)%list_elem_of_fmap. by apply Hs.
    + destruct Hrf as [F1 F2 F3 F4]. split; [|by eexists _, _, _].
      split; cbn; rewrite ?D1, ?D2, ?D3; try done. by rewrite F4.
  - destruct (rw_start_spec _ _ _ _ _ me b w I Hs) as [(j0 & i1 & i2 & s1 & E1 & _)|(s1 & E1 & D1 & D2 & D3 & I')];
      rewrite E in E1; [done|]. injection E1 as <-.
    exists a. split; [apply rtc_refl|]. split; [by apply refines_same|by exists q, u, f].
  - destruct (vinv_in_split r x Hr) as (l1 & l2 & El). rewrite El in I.
    destruct (rw_wait_spec _ _ _ _ _ _ _ me I) as (d & s1 & f' & E1 & D1 & D2 & D3 & _ & I').
    rewrite E in E1. injection E1 as <- <-. exists a. split; [apply rtc_refl|].
    split; [by apply refines_same|]. exists q, u, f'. cbn. by rewrite El.
  - rewrite El in I. destruct (rw_wait_spec _ _ _ _ _ _ _ me I) as (d & s1 & f' & E1 & D1 & D2 & D3 & Hd & I').
    rewrite E in E1. injection E1 as <- <-. specialize (Hd eq_refl). destruct Hrf as [F1 F2 F3 F4].
    rewrite El, map_app in F4. cbn in F4. unfold call_of at 2 in F4. rewrite Hd in F4.
    eexists. split; [apply rtc_once; by eapply as_return|]. split; [|by exists q, u, f'].
    split; cbn; rewrite ?D1, ?D2, ?D3; try done. by rewrite map_app.
  - destruct (intr_inv (Z.to_nat NUM) _ _ _ _ _ I) as (s1 & f' & E1 & I' & D1 & D2 & D3).
    { pose proof (len_few _ _ _ _ _ I). unfold len, NUM in *. lia. }
    unfold virtio_disk_intr in E. rewrite E in E1. injection E1 as <-.
    exists a. split; [apply rtc_refl|]. split; [by apply refines_same|by exists q, [], f'].
  - destruct (take_inv _ _ _ _ _ _ I E) as (q' & I' & D1 & D2 & D3).
    exists a. split; [apply rtc_refl|]. split; [by apply refines_same|by exists q', u, f].
  - destruct (head_in _ _ _ _ _ i I) as (r & Hr & <-); [rewrite !elem_of_app; tauto|].
    destruct (finish_refines x a q u f r s' Hrf I Hr Hi E) as (a' & Ha & Hg). exists a'. split; [by apply rtc_once|done].
  - eexists. split; [apply rtc_once, (as_data b v a)|].
    + rewrite (rf_reqs _ _ Hrf). intros y (r & -> & Hr)%list_elem_of_fmap. by apply Hb.
    + destruct Hrf as [F1 F2 F3 F4]. split.
      * split; cbn; try done. intros b'. destruct (decide (b' = b)) as [->|]; by fn_solve.
      * exists q, u, f. destruct I. split; try done. cbn. intros r Hr. rewrite fn_lookup_insert_ne; [by apply vi_moved0|].
        apply not_eq_sym. intros E. by apply (Hb r Hr).
  - eexists. split; [apply rtc_once, (as_blockno b n a)|].
    + rewrite (rf_reqs _ _ Hrf). intros y (r & -> & Hr)%list_elem_of_fmap. by apply Hb.
    + destruct Hrf as [F1 F2 F3 F4]. split.
      * split; cbn; try done. intros b'. destruct (decide (b' = b)) as [->|]; by fn_solve.
      * exists q, u, f. cbn. by apply (blockno_inv x).
Qed.

(** The system after [virtio_disk_init]. *)
Definition vsys0 (blocks data : Z → block) (blockno : Z → Z) : vsys := mk_vsys (vdisk0 blocks data blockno) [].
Definition astate0 (blocks data : Z → block) (blockno : Z → Z) : astate := mk_astate data blocks blockno [].

Lemma good0 blocks data blockno : good (vsys0 blocks data blockno) (astate0 blocks data blockno).
Proof.
  split; [done|]. exists [], [], []. split; cbn; try done; try set_solver.
  - constructor.
  - intros i Hi. unfold NUM in *. split; [|set_solver].
    destruct (Z.leb_spec 0 i); [|lia]. destruct (Z.ltb_spec i 8); [done|lia].
  - constructor.
  - constructor.
Qed.

Lemma reachable_good blocks data blockno x :
  rtc vstep (vsys0 blocks data blockno) x →
  ∃ a, rtc astep (astate0 blocks data blockno) a ∧ good x a.
Proof.
  intros Hr. assert (Hg : ∃ a, rtc astep (astate0 blocks data blockno) a ∧ good (vsys0 blocks data blockno) a).
  { eexists. split; [apply rtc_refl|apply good0]. }
  induction Hr as [|x x1 x' Hs _ IH]; [done|]. apply IH. destruct Hg as (a & Ha & Hg).
  destruct (step_good x x1 a Hg Hs) as (a' & Ha' & Hg'). exists a'. split; [by etrans|done].
Qed.


(** A read of block 3 into buffer 7: submitted by process 1, which goes to
    sleep, and taken by the device. *)
Definition read0 : vdisk := vdisk0 (fun n _ => n) (fun _ _ => 0) (fun _ => 3).
Definition read1 : vdisk := after_run (rw_start 1 7 false) read0.
Definition read_req : req := mk_rq 7 false 0 (d_next (desc read1 0)) (d_next (desc read1 (d_next (desc read1 0)))) false.
Definition read2 : vdisk := after_run (rw_wait 1 7 0) read1.
Definition read3 : vdisk := set_taken (u16 (seen read2 + 1)) (taken read2 ++ [avail_ring read2 (seen read2 mod NUM)]) read2.

