(* ===== verification/Log.v ===== *)
(** * Write-ahead log (kernel/log.c): the operations

    The log runs on top of the buffer cache.  [log.lock] makes [begin_op],
    [log_write] and the two critical sections of [end_op] atomic; a process
    that would sleep in [begin_op] ends in [Sleeps], and [wakeup] makes
    sleepers test their condition again, so it does not change this state. *)

From stdpp Require Import functions.
From S2P Require Import Prelude Mem Riscv Sleeplock Bio.

(** The fields of [struct log] and of its [struct logheader]: [lh_block] is
    the array [lh.block] of LOGSIZE entries. *)
Record log := mk_log {
  start : Z; size : Z; outstanding : Z; committing : bool; ldev : Z;
  lh_n : Z; lh_block : Z → Z
}.

Definition set_lh_n v l := mk_log (start l) (size l) (outstanding l) (committing l) (ldev l) v (lh_block l).
Definition set_lh_block i v l :=
  mk_log (start l) (size l) (outstanding l) (committing l) (ldev l) (lh_n l) (<[i := v]> (lh_block l)).
Definition set_outstanding v l :=
  mk_log (start l) (size l) v (committing l) (ldev l) (lh_n l) (lh_block l).
Definition set_committing v l :=
  mk_log (start l) (size l) (outstanding l) v (ldev l) (lh_n l) (lh_block l).

Record lstate := mk_lstate { lbio : bio; lg : log }.

Definition on_bio {A} (c : M bio A) : M lstate A := lift lbio (fun t b => mk_lstate b (lg t)) c.
Definition the_log : M lstate log := gets lg.
Definition upd_log (f : log → log) : M lstate unit := modify (fun t => mk_lstate (lbio t) (f (lg t))).
Definition the_data (b : Z) : M lstate block := gets (fun t => data (bufs (lbio t) b)).
Definition put_data (b : Z) (f : block → block) : M lstate unit :=
  on_bio (upd_buf b (fun x => set_data (f (data x)) x)).

(** The header block: [n] at offset 0, [block[i]] at offset 4 + 4*i. *)
Definition sizeof_logheader : Z := 4 + 4 * LOGSIZE.

(** One iteration of [install_trans] and of [write_log], and the loops from
    [tail] to [lh.n]; the bound is the number of iterations left. *)
Definition install_one (tail : Z) (recovering : bool) : M lstate unit :=
  do l <- the_log;
  do lbuf <- on_bio (bread (ldev l) (u32 (start l + tail + 1)));
  do dbuf <- on_bio (bread (ldev l) (u32 (lh_block l tail)));
  do v <- the_data lbuf;
  do! put_data dbuf (fun _ => v);
  do! on_bio (bwrite dbuf);
  do! (if negb recovering then on_bio (bunpin dbuf) else ret tt);
  do! on_bio (brelse lbuf);
  on_bio (brelse dbuf).
Fixpoint install_trans_loop (fuel : nat) (tail : Z) (recovering : bool) : M lstate unit :=
  do l <- the_log;
  if tail <? lh_n l then
    match fuel with
    | O => out_of_fuel
    | S f => do! install_one tail recovering; install_trans_loop f (tail + 1) recovering
    end
  else ret tt.
Definition install_trans (recovering : bool) : M lstate unit :=
  do l <- the_log; install_trans_loop (Z.to_nat (lh_n l)) 0 recovering.

Definition write_log_one (tail : Z) : M lstate unit :=
  do l <- the_log;
  do to <- on_bio (bread (ldev l) (u32 (start l + tail + 1)));
  do from <- on_bio (bread (ldev l) (u32 (lh_block l tail)));
  do v <- the_data from;
  do! put_data to (fun _ => v);
  do! on_bio (bwrite to);
  do! on_bio (brelse from);
  on_bio (brelse to).
Fixpoint write_log_loop (fuel : nat) (tail : Z) : M lstate unit :=
  do l <- the_log;
  if tail <? lh_n l then
    match fuel with
    | O => out_of_fuel
    | S f => do! write_log_one tail; write_log_loop f (tail + 1)
    end
  else ret tt.
Definition write_log : M lstate unit :=
  do l <- the_log; write_log_loop (Z.to_nat (lh_n l)) 0.

(** for (i = 0; i < log.lh.n; i++) log.lh.block[i] = lh->block[i];  for the
    last [k] entries of [lh.n]. *)
Fixpoint read_blocks (k : nat) (n : Z) (hb : block) : M lstate unit :=
  match k with
  | O => ret tt
  | S k' =>
      let i := n - Z.of_nat k in
      do! upd_log (set_lh_block i (i32 (ld32 hb (4 + 4 * i))));
      read_blocks k' n hb
  end.
Definition read_head : M lstate unit :=
  do l <- the_log;
  do b <- on_bio (bread (ldev l) (u32 (start l)));
  do hb <- the_data b;
  let n := i32 (ld32 hb 0) in
  do! upd_log (set_lh_n n);
  do! read_blocks (Z.to_nat n) n hb;
  on_bio (brelse b).

(** for (i = 0; i < log.lh.n; i++) hb->block[i] = log.lh.block[i]; *)
Fixpoint write_blocks (k : nat) (n : Z) (bl : Z → Z) (hb : block) : block :=
  match k with
  | O => hb
  | S k' =>
      let i := n - Z.of_nat k in
      write_blocks k' n bl (st32 hb (4 + 4 * i) (bl i))
  end.
Definition write_head : M lstate unit :=
  do l <- the_log;
  do b <- on_bio (bread (ldev l) (u32 (start l)));
  do! put_data b (fun hb =>
        write_blocks (Z.to_nat (lh_n l)) (lh_n l) (lh_block l) (st32 hb 0 (lh_n l)));
  do! on_bio (bwrite b);
  on_bio (brelse b).

Definition recover_from_log : M lstate unit :=
  do! read_head;
  do! install_trans true;
  do! upd_log (set_lh_n 0);
  write_head.

(** [logstart] and [nlog] are fields of the superblock. *)
Definition initlog (dev logstart nlog : Z) : M lstate unit :=
  if BSIZE <=? sizeof_logheader then panic "initlog: too big logheader"
  else
    do! upd_log (fun l => mk_log (i32 logstart) (i32 nlog) (outstanding l) (committing l) dev
                            (lh_n l) (lh_block l));
    recover_from_log.

Definition begin_op : M lstate unit :=
  do l <- the_log;
  if committing l then sleeps "log"
  else if LOGSIZE <? lh_n l + (outstanding l + 1) * MAXOPBLOCKS then sleeps "log"
  else upd_log (set_outstanding (outstanding l + 1)).

Definition commit : M lstate unit :=
  do l <- the_log;
  if 0 <? lh_n l then
    do! write_log;
    do! write_head;
    do! install_trans false;
    do! upd_log (set_lh_n 0);
    write_head
  else ret tt.

(** [end_op]: its first critical section, which tells whether to commit, and
    the rest. *)
Definition end_op_enter : M lstate bool :=
  do! upd_log (fun l => set_outstanding (outstanding l - 1) l);
  do l <- the_log;
  if committing l then panic "log.committing"
  else if outstanding l =? 0 then do! upd_log (set_committing true); ret true
  else ret false.
Definition end_op : M lstate unit :=
  do do_commit <- end_op_enter;
  if do_commit then
    do! commit;
    upd_log (set_committing false)
  else ret tt.

(** The index at which the search for a logged block stops; [k] entries of
    [n] are left. *)
Fixpoint log_find (k : nat) (n : Z) (bl : Z → Z) (bn : Z) : Z :=
  match k with
  | O => n
  | S k' => let i := n - Z.of_nat k in if bl i =? bn then i else log_find k' n bl bn
  end.
(** [lh.block] holds ints: storing [b->blockno] converts it. *)
Definition log_write (b : Z) : M lstate unit :=
  do l <- the_log;
  if (LOGSIZE <=? lh_n l) || (size l - 1 <=? lh_n l) then panic "too big a transaction"
  else if outstanding l <? 1 then panic "log_write outside of trans"
  else
    do x <- on_bio (the_buf b);
    let i := log_find (Z.to_nat (lh_n l)) (lh_n l) (fun j => u32 (lh_block l j)) (blockno x) in
    do! upd_log (set_lh_block i (i32 (blockno x)));
    if i =? lh_n l then
      do! on_bio (bpin b);
      upd_log (fun l => set_lh_n (lh_n l + 1) l)
    else ret tt.

(** The running process stays the same. *)
Definition log_pid (t : lstate) : Z := mypid (lbio t).
Lemma on_bio_pid {A} (c : M bio A) : preserves mypid c → preserves log_pid (on_bio c).
Proof. intros Hc. apply preserves_lift. intros t s a s' <- H. by apply Hc in H. Qed.
Lemma upd_log_pid f : preserves log_pid (upd_log f).
Proof. unfold upd_log. frame. Qed.
#[export] Hint Resolve on_bio_pid upd_log_pid : frame.
Lemma log_write_pid b : preserves log_pid (log_write b).
Proof. unfold log_write, the_log, the_buf. frame. Qed.
#[export] Hint Resolve log_write_pid : frame.
