(* ===== verification/LogSpec.v ===== *)
(** * Crash safety of the log (kernel/log.c): theorems

    The disk performs its writes one block at a time and in order; a crash
    leaves the disk after some prefix of them, and loses everything else.
    The theorems show that [commit] is atomic and durable with respect to
    such crashes, also when the recovery that [initlog] does at boot crashes
    again, any number of times. *)

From stdpp Require Import functions.
From S2P Require Import Prelude Mem Riscv Sleeplock Bio BioSpec Log.

(** The contents of the disk after a sequence of writes. *)
Definition apply_writes (D : Z → block) (ws : list (Z * block)) : Z → block :=
  foldl (fun D w => <[w.1 := w.2]> D) D ws.

Definition wrote (dk : disk) (ws : list (Z * block)) (dk' : disk) : Prop :=
  dk' = mk_disk (apply_writes (blocks dk) ws) (writes dk ++ ws).

Lemma wrote_nil dk : wrote dk [] dk.
Proof. unfold wrote. rewrite app_nil_r. by destruct dk. Qed.

Lemma wrote_app dk1 ws1 dk2 ws2 dk3 :
  wrote dk1 ws1 dk2 → wrote dk2 ws2 dk3 → wrote dk1 (ws1 ++ ws2) dk3.
Proof.
  unfold wrote, apply_writes. intros -> ->. cbn. by rewrite foldl_app, app_assoc.
Qed.

Lemma wrote_one dk bn v : wrote dk [(bn, v)] (disk_write bn v dk).
Proof. done. Qed.

Lemma apply_writes_out D ws bn : bn ∉ ws.*1 → apply_writes D ws bn = D bn.
Proof.
  unfold apply_writes. revert D; induction ws as [|[b v] ws IH]; intros D; cbn; [done|].
  intros [Hb Hws]%not_elem_of_cons. rewrite IH by done. by rewrite fn_lookup_insert_ne.
Qed.

(** Writes that give every block they touch the value [f bn]. *)
Lemma apply_writes_in D ws bn f :
  (∀ b v, (b, v) ∈ ws → v = f b) → bn ∈ ws.*1 → apply_writes D ws bn = f bn.
Proof.
  unfold apply_writes. intros Hf. induction ws as [|[b v] ws IH] using rev_ind.
  { by intros ?%not_elem_of_nil. }
  rewrite foldl_app, fmap_app, elem_of_app. cbn. rewrite list_elem_of_singleton.
  intros Hin. destruct (decide (b = bn)) as [->|Hne].
  - rewrite fn_lookup_insert. apply Hf, elem_of_app. right. by left.
  - rewrite fn_lookup_insert_ne by done. apply IH; [|naive_solver].
    intros b' v' Hb'. apply Hf, elem_of_app. by left.
Qed.

Lemma wp_on_bio {A} (c : M bio A) Q t :
  wp c (fun a b' => Q a (mk_lstate b' (lg t))) (lbio t) → wp (on_bio c) Q t.
Proof. apply (wp_lift lbio (fun t b => mk_lstate b (lg t))). Qed.

(** ** The header block *)

Definition hdr_n (hb : block) : Z := i32 (ld32 hb 0).
Definition hdr_block (hb : block) (i : Z) : Z := i32 (ld32 hb (4 + 4 * i)).

Lemma write_blocks_out k n bl hb a :
  0 ≤ n → a + 4 ≤ 4 + 4 * (n - Z.of_nat k) ∨ 4 + 4 * n ≤ a →
  ld32 (write_blocks k n bl hb) a = ld32 hb a.
Proof.
  intros Hn. revert hb; induction k as [|k IH]; intros hb Ha; cbn [write_blocks]; [done|].
  rewrite IH by lia. apply (ldn_stn_out 4 4). lia.
Qed.

Lemma write_blocks_in k n bl hb i :
  0 ≤ n → n - Z.of_nat k ≤ i < n →
  ld32 (write_blocks k n bl hb) (4 + 4 * i) = u32 (bl i).
Proof.
  intros Hn. revert hb; induction k as [|k IH]; intros hb Hi; cbn [write_blocks]; [lia|].
  destruct (decide (i = n - Z.of_nat (S k))) as [->|].
  - rewrite write_blocks_out by lia. apply ld32_st32_eq.
  - apply IH. lia.
Qed.

(** What [write_head] puts in the header block. *)
Definition make_hdr (n : Z) (bl : Z → Z) (hb : block) : block :=
  write_blocks (Z.to_nat n) n bl (st32 hb 0 n).

Lemma make_hdr_n n bl hb : 0 ≤ n < 2 ^ 31 → hdr_n (make_hdr n bl hb) = n.
Proof.
  intros Hn. unfold hdr_n, make_hdr. rewrite write_blocks_out by lia.
  rewrite ld32_st32_eq, i32_u32. apply i32_small. lia.
Qed.

Lemma make_hdr_block n bl hb i :
  0 ≤ i < n → - 2 ^ 31 ≤ bl i < 2 ^ 31 → hdr_block (make_hdr n bl hb) i = bl i.
Proof.
  intros Hi Hb. unfold hdr_block, make_hdr. rewrite write_blocks_in by lia.
  rewrite i32_u32. by apply i32_small.
Qed.

(** ** Commit *)

Section commit.
(** The device, the first block of the log and its number of blocks. *)
Context (d st sz : Z).
Context (Hd : d ≠ 0) (Hst : 0 ≤ st) (Hend : st + sz < 2 ^ 31) (Hsz : 1 ≤ sz ≤ LOGSIZE).

(** Blocks of the log, and blocks that may be logged. *)
Definition in_log (bn : Z) : Prop := st ≤ bn < st + sz.
Definition home (bn : Z) : Prop := 0 ≤ bn < 2 ^ 31 ∧ ¬ in_log bn.

(** The blocks from entry [j] on. *)
Definition logged_from (l : log) (j : Z) : list Z := lh_block l <$> seqZ j (lh_n l - j).
Definition logged (l : log) : list Z := logged_from l 0.

Record log_ok (l : log) : Prop := {
  lo_start : start l = st;
  lo_size : size l = sz;
  lo_dev : ldev l = d;
  lo_n : 0 ≤ lh_n l ≤ sz - 1;
  lo_home : ∀ i, 0 ≤ i < lh_n l → home (lh_block l i);
  lo_nodup : NoDup (logged l)
}.

Lemma log_ok_n l : log_ok l → 0 ≤ lh_n l < NBUF ∧ lh_n l < LOGSIZE.
Proof. intros H. pose proof (lo_n l H). unfold NBUF, LOGSIZE, MAXOPBLOCKS in *. lia. Qed.

Lemma logged_elem l j b : b ∈ logged_from l j ↔ ∃ i, j ≤ i < lh_n l ∧ b = lh_block l i.
Proof.
  unfold logged_from. rewrite list_elem_of_fmap. setoid_rewrite elem_of_seqZ.
  split; intros (i & ? & ?); exists i; (split; [|done || lia]); lia || done.
Qed.

Lemma logged_length l j : 0 ≤ j ≤ lh_n l → Z.of_nat (length (logged_from l j)) = lh_n l - j.
Proof. intros. unfold logged_from. rewrite length_fmap, length_seqZ. lia. Qed.

Lemma logged_cons l j :
  0 ≤ j < lh_n l → logged_from l j = lh_block l j :: logged_from l (j + 1).
Proof.
  intros. unfold logged_from. rewrite seqZ_cons by lia. cbn. repeat f_equal; lia.
Qed.

Lemma logged_nil l : logged_from l (lh_n l) = [].
Proof. unfold logged_from. by rewrite Z.sub_diag. Qed.

Lemma logged_inj l i j :
  log_ok l → 0 ≤ i < lh_n l → 0 ≤ j < lh_n l → lh_block l i = lh_block l j → i = j.
Proof.
  intros Hl Hi Hj He. pose proof (lo_nodup l Hl) as Hnd. unfold logged, logged_from in Hnd.
  rewrite Z.sub_0_r in Hnd. apply (NoDup_lookup _ (Z.to_nat i) (Z.to_nat j) (lh_block l i)) in Hnd.
  - lia.
  - rewrite list_lookup_fmap, lookup_seqZ_lt by lia. cbn. do 2 f_equal. lia.
  - rewrite list_lookup_fmap, lookup_seqZ_lt by lia. cbn. rewrite He. do 2 f_equal. lia.
Qed.

Lemma log_block_addr l i :
  log_ok l → 0 ≤ i < lh_n l →
  u32 (start l + i + 1) = st + i + 1 ∧ in_log (st + i + 1) ∧ st + i + 1 ≠ st ∧
  0 ≤ st + i + 1 < 2 ^ 31.
Proof.
  intros Hl Hi. pose proof (lo_n l Hl). rewrite (lo_start l Hl), u32_small by lia.
  unfold in_log. lia.
Qed.

Lemma log_home_addr l i :
  log_ok l → 0 ≤ i < lh_n l →
  u32 (lh_block l i) = lh_block l i ∧ 0 ≤ lh_block l i < 2 ^ 31 ∧ ¬ in_log (lh_block l i).
Proof.
  intros Hl Hi. destruct (lo_home l Hl i Hi) as [? ?]. split; [apply u32_small; lia|done].
Qed.

Lemma write_log_one_spec t cur tail :
  cache d (lbio t) [] (logged (lg t)) cur → log_ok (lg t) → 0 ≤ tail < lh_n (lg t) →
  wp (write_log_one tail) (fun _ t' => lg t' = lg t ∧
    cache d (lbio t') [] (logged (lg t)) (<[st + tail + 1 := cur (lh_block (lg t) tail)]> cur) ∧
    wrote (dsk (lbio t)) [(st + tail + 1, cur (lh_block (lg t) tail))] (dsk (lbio t'))) t.
Proof.
  intros Hc Hl Ht. destruct (log_block_addr _ _ Hl Ht) as (Ha & Hin & Hns & Hr).
  destruct (log_home_addr _ _ Hl Ht) as (Hb & Hbr & Hbh). set (b := lh_block (lg t) tail) in *.
  assert (Hbp : b ∈ logged (lg t)) by (apply logged_elem; exists tail; done).
  assert (Hne : b ≠ st + tail + 1) by (intros E; by rewrite E in Hbh).
  unfold write_log_one. apply wp_bind, wp_gets, wp_bind, wp_on_bio.
  rewrite (lo_dev _ Hl), Ha. eapply wp_mono.
  { apply (bread_spec d _ [] (logged (lg t)) cur); [done|done|apply not_elem_of_nil|right].
    unfold logged. cbn [length]. pose proof (logged_length (lg t) 0) as Hlen.
    pose proof (log_ok_n _ Hl). lia. }
  intros ito s1 (Hc1 & Hi1 & _ & Hd1). apply wp_bind, wp_on_bio. cbn [lbio lg]. fold b. rewrite Hb.
  eapply wp_mono.
  { apply (bread_spec d s1 [st + tail + 1] (logged (lg t)) cur); [done|done| |by left].
    by rewrite list_elem_of_singleton. }
  intros ifr s2 (Hc2 & Hi2 & Hst2 & Hd2). apply (Hst2 ito (st + tail + 1)) in Hi1;
    [|left; by left].
  apply wp_bind, wp_gets, wp_bind, wp_on_bio. cbn [lbio lg]. eapply wp_mono.
  { apply (set_data_spec d s2 [b; st + tail + 1] (logged (lg t)) cur ito (st + tail + 1)
             (fun _ => data (bufs s2 ifr))); [done|done|right; by left]. }
  intros ? s3 (Hc3 & Hst3 & Hd3). cbv beta in Hc3.
  rewrite (cache_data d s2 _ _ _ ifr b Hc2 Hi2) in Hc3 by (by left).
  apply wp_bind, wp_on_bio. cbn [lbio lg]. eapply wp_mono.
  { apply (bwrite_spec d s3 _ _ _ ito (st + tail + 1) Hc3); [by apply Hst3|right; by left]. }
  intros ? s4 (Hc4 & Hb4 & Hd4). rewrite fn_lookup_insert in Hd4.
  assert (Hst4 : ∀ j bn, is_buf d s2 j bn → is_buf d s4 j bn).
  { intros j bn Hj%Hst3. unfold is_buf in *. by rewrite Hb4. }
  apply wp_bind, wp_on_bio. cbn [lbio lg]. eapply wp_mono.
  { apply (brelse_spec d s4 [st + tail + 1] (logged (lg t)) _ ifr b Hc4); [by apply Hst4|by left]. }
  intros ? s5 (Hc5 & Hst5 & Hd5). apply wp_on_bio. cbn [lbio lg]. eapply wp_mono.
  { apply (brelse_spec d s5 [] (logged (lg t)) _ ito (st + tail + 1) Hc5);
      [by apply Hst5, Hst4|right]. rewrite Hd5, Hd4. cbn. by rewrite !fn_lookup_insert. }
  intros ? s6 (Hc6 & _ & Hd6). cbn [lbio lg]. split; [done|]. split; [done|].
  rewrite Hd6, Hd5, Hd4, Hd3, Hd2, Hd1. apply wrote_one.
Qed.

Definition log_writes (l : log) (cur : Z → block) (j : Z) : list (Z * block) :=
  (fun i => (st + i + 1, cur (lh_block l i))) <$> seqZ j (lh_n l - j).

Lemma write_log_loop_spec fuel t cur j :
  cache d (lbio t) [] (logged (lg t)) cur → log_ok (lg t) →
  0 ≤ j ≤ lh_n (lg t) → lh_n (lg t) - j ≤ Z.of_nat fuel →
  wp (write_log_loop fuel j) (fun _ t' => lg t' = lg t ∧ ∃ cur',
    cache d (lbio t') [] (logged (lg t)) cur' ∧
    (∀ b, b < st + j + 1 ∨ st + lh_n (lg t) + 1 ≤ b → cur' b = cur b) ∧
    (∀ i, j ≤ i < lh_n (lg t) → cur' (st + i + 1) = cur (lh_block (lg t) i)) ∧
    wrote (dsk (lbio t)) (log_writes (lg t) cur j) (dsk (lbio t'))) t.
Proof.
  revert t cur j; induction fuel as [|f IH]; intros t cur j Hc Hl Hj Hf;
    cbn [write_log_loop]; apply wp_bind, wp_gets; case_test; try lia.
  1, 3: assert (j = lh_n (lg t)) as -> by lia; apply wp_ret; split; [done|];
    exists cur; split; [done|]; split; [done|]; split; [lia|];
    unfold log_writes; rewrite Z.sub_diag; apply wrote_nil.
  pose proof (log_block_addr _ j Hl ltac:(lia)) as (_ & Hin & _).
  apply wp_bind. eapply wp_mono; [apply write_log_one_spec; done || lia|].
  intros ? t1 (Hg1 & Hc1 & Hw1). rewrite <- Hg1 in Hc1.
  eapply wp_mono; [apply (IH t1 _ (j + 1) Hc1); rewrite ?Hg1; done || lia|].
  intros ? t2 (Hg2 & cur' & Hc2 & Hout & Hins & Hw2). rewrite Hg1 in *.
  assert (Hhome : ∀ i, 0 ≤ i < lh_n (lg t) → st + j + 1 ≠ lh_block (lg t) i).
  { intros i Hi Heq. destruct (lo_home _ Hl i Hi) as [_ Hn]. apply Hn. by rewrite <- Heq. }
  split; [congruence|]. exists cur'. split; [done|]. split; [|split].
  - intros b Hb. rewrite Hout by lia. apply fn_lookup_insert_ne. lia.
  - intros i Hi. destruct (decide (i = j)) as [->|].
    + rewrite Hout by lia. apply fn_lookup_insert.
    + rewrite Hins by lia. apply fn_lookup_insert_ne, Hhome. lia.
  - replace (log_writes (lg t) cur j) with
      ([(st + j + 1, cur (lh_block (lg t) j))] ++
       log_writes (lg t) (<[st + j + 1:=cur (lh_block (lg t) j)]> cur) (j + 1)).
    { by eapply wrote_app. }
    unfold log_writes. rewrite (seqZ_cons j) by lia. cbn. f_equal.
    replace (Z.pred (lh_n (lg t) - j)) with (lh_n (lg t) - (j + 1)) by lia.
    apply list_fmap_ext. intros k i [Hi Hk]%lookup_seqZ. f_equal.
    apply fn_lookup_insert_ne, Hhome. lia.
Qed.

Lemma write_head_spec t cur pinned :
  cache d (lbio t) [] pinned cur → start (lg t) = st → ldev (lg t) = d → st ∉ pinned →
  Z.of_nat (length pinned) < NBUF → 0 ≤ lh_n (lg t) →
  let H := make_hdr (lh_n (lg t)) (lh_block (lg t)) (cur st) in
  wp write_head (fun _ t' => lg t' = lg t ∧
    cache d (lbio t') [] pinned (<[st := H]> cur) ∧
    wrote (dsk (lbio t)) [(st, H)] (dsk (lbio t'))) t.
Proof.
  intros Hc Hs Hdv Hp Hlen Hn H. unfold write_head. apply wp_bind, wp_gets, wp_bind, wp_on_bio.
  rewrite Hs, Hdv, u32_small by lia. eapply wp_mono.
  { apply (bread_spec d _ [] pinned cur); [done|lia|apply not_elem_of_nil|right]. cbn. lia. }
  intros ib s1 (Hc1 & Hi1 & _ & Hd1). apply wp_bind, wp_on_bio. cbn [lbio lg]. eapply wp_mono.
  { apply (set_data_spec d s1 [st] pinned cur ib st (fun hb => make_hdr _ _ hb)); [done|done|by left]. }
  intros ? s2 (Hc2 & Hst2 & Hd2). cbv beta in Hc2. fold H in Hc2.
  apply wp_bind, wp_on_bio. cbn [lbio lg]. eapply wp_mono.
  { apply (bwrite_spec d s2 _ _ _ ib st Hc2); [by apply Hst2|by left]. }
  intros ? s3 (Hc3 & Hb3 & Hd3). rewrite fn_lookup_insert in Hd3.
  apply wp_on_bio. cbn [lbio lg]. eapply wp_mono.
  { apply (brelse_spec d s3 [] pinned _ ib st Hc3).
    - apply Hst2 in Hi1. unfold is_buf in *. by rewrite Hb3.
    - right. rewrite Hd3. cbn. by rewrite !fn_lookup_insert. }
  intros ? s4 (Hc4 & _ & Hd4). cbn [lbio lg]. split; [done|]. split; [done|].
  rewrite Hd4, Hd3, Hd2, Hd1. apply wrote_one.
Qed.

Lemma install_one_spec t cur tail (recovering : bool) P :
  let b := lh_block (lg t) tail in
  cache d (lbio t) [] (if recovering then P else b :: P) cur →
  log_ok (lg t) → 0 ≤ tail < lh_n (lg t) → st + tail + 1 ∉ P → b ∉ P →
  Z.of_nat (length P) < NBUF - 1 →
  wp (install_one tail recovering) (fun _ t' => lg t' = lg t ∧
    cache d (lbio t') [] P (<[b := cur (st + tail + 1)]> cur) ∧
    wrote (dsk (lbio t)) [(b, cur (st + tail + 1))] (dsk (lbio t'))) t.
Proof.
  intros b Hc Hl Ht HlP HbP Hlen. destruct (log_block_addr _ _ Hl Ht) as (Ha & Hin & Hns & Hr).
  destruct (log_home_addr _ _ Hl Ht) as (Hb & Hbr & Hbh). fold b in Hb, Hbr, Hbh.
  assert (Hne : b ≠ st + tail + 1) by (intros E; by rewrite E in Hbh).
  set (Q := if recovering then P else b :: P) in *.
  assert (HlQ : st + tail + 1 ∉ Q).
  { unfold Q. destruct recovering; [done|]. rewrite not_elem_of_cons. by split. }
  assert (Z.of_nat (length Q) < NBUF ∧ (b ∈ Q ∨ Z.of_nat (length Q) < NBUF - 1)) as [HQ1 HQ2].
  { unfold Q. destruct recovering; cbn [length]; [lia|]. split; [lia|left; by left]. }
  pose proof (c_clean _ _ _ _ _ Hc (st + tail + 1) (not_elem_of_nil _) HlQ) as Hlclean.
  unfold install_one. apply wp_bind, wp_gets, wp_bind, wp_on_bio.
  rewrite (lo_dev _ Hl), Ha. eapply wp_mono.
  { apply (bread_spec d _ [] Q cur); [done|done|apply not_elem_of_nil|right]. done. }
  intros il s1 (Hc1 & Hi1 & _ & Hd1). apply wp_bind, wp_on_bio. cbn [lbio lg]. fold b. rewrite Hb.
  eapply wp_mono.
  { apply (bread_spec d s1 [st + tail + 1] Q cur); [done|done|by rewrite list_elem_of_singleton|].
    destruct HQ2; [by left|right; cbn [length]; lia]. }
  intros ib s2 (Hc2 & Hi2 & Hst2 & Hd2). apply (Hst2 il (st + tail + 1)) in Hi1;
    [|left; by left].
  apply wp_bind, wp_gets, wp_bind, wp_on_bio. cbn [lbio lg]. eapply wp_mono.
  { apply (set_data_spec d s2 [b; st + tail + 1] Q cur ib b (fun _ => data (bufs s2 il)));
      [done|done|by left]. }
  intros ? s3 (Hc3 & Hst3 & Hd3). cbv beta in Hc3.
  rewrite (cache_data d s2 _ _ _ il (st + tail + 1) Hc2 Hi1) in Hc3 by (right; by left).
  set (cur' := <[b:=cur (st + tail + 1)]> cur) in *.
  apply wp_bind, wp_on_bio. cbn [lbio lg]. eapply wp_mono.
  { apply (bwrite_spec d s3 _ _ _ ib b Hc3); [by apply Hst3|by left]. }
  intros ? s4 (Hc4 & Hb4 & Hd4).
  assert (cur' b = cur (st + tail + 1)) as Hcb by apply fn_lookup_insert. rewrite Hcb in Hd4.
  assert (Hst4 : ∀ j bn, is_buf d s2 j bn → is_buf d s4 j bn).
  { intros j bn Hj%Hst3. unfold is_buf in *. by rewrite Hb4. }
  assert (Hdisk : dsk s4 = disk_write b (cur (st + tail + 1)) (dsk (lbio t))) by congruence.
  apply wp_bind. apply (wp_mono _ (fun _ t5 => lg t5 = lg t ∧
    cache d (lbio t5) [b; st + tail + 1] P cur' ∧ dsk (lbio t5) = dsk s4 ∧
    ∀ j bn, is_buf d s4 j bn → is_buf d (lbio t5) j bn)).
  { unfold Q in *. destruct recovering; cbn [negb]; [by apply wp_ret|].
    apply wp_on_bio. eapply wp_mono.
    - apply (bunpin_spec d s4 [b; st + tail + 1] P cur' ib b Hc4); [by apply Hst4|by left].
    - intros ? s5 (? & ? & ?). done. }
  intros ? t5 (Hg5 & Hc5 & Hd5 & Hst5). apply wp_bind, wp_on_bio. eapply wp_mono.
  { rewrite (Permutation_swap (st + tail + 1) b []) in Hc5.
    apply (brelse_spec d (lbio t5) [b] P cur' il (st + tail + 1) Hc5); [by apply Hst5, Hst4|right].
    rewrite Hd5, Hdisk. cbn. unfold cur'. by rewrite !fn_lookup_insert_ne. }
  intros ? s6 (Hc6 & Hst6 & Hd6). apply wp_on_bio. cbn [lbio lg]. eapply wp_mono.
  { apply (brelse_spec d s6 [] P cur' ib b Hc6); [by apply Hst6, Hst5, Hst4|right].
    rewrite Hd6, Hd5, Hdisk. cbn. rewrite Hcb. by rewrite fn_lookup_insert. }
  intros ? s7 (Hc7 & _ & Hd7). cbn [lbio lg]. split; [done|]. split; [done|].
  rewrite Hd7, Hd6, Hd5, Hdisk. apply wrote_one.
Qed.

Definition install_writes (l : log) (cur : Z → block) (j : Z) : list (Z * block) :=
  (fun i => (lh_block l i, cur (st + i + 1))) <$> seqZ j (lh_n l - j).

Lemma install_trans_loop_spec fuel t cur j (recovering : bool) :
  cache d (lbio t) [] (if recovering then [] else logged_from (lg t) j) cur → log_ok (lg t) →
  0 ≤ j ≤ lh_n (lg t) → lh_n (lg t) - j ≤ Z.of_nat fuel →
  wp (install_trans_loop fuel j recovering) (fun _ t' => lg t' = lg t ∧ ∃ cur',
    cache d (lbio t') [] [] cur' ∧
    (∀ b, b ∉ logged_from (lg t) j → cur' b = cur b) ∧
    (∀ i, j ≤ i < lh_n (lg t) → cur' (lh_block (lg t) i) = cur (st + i + 1)) ∧
    wrote (dsk (lbio t)) (install_writes (lg t) cur j) (dsk (lbio t'))) t.
Proof.
  revert t cur j; induction fuel as [|f IH]; intros t cur j Hc Hl Hj Hf;
    cbn [install_trans_loop]; apply wp_bind, wp_gets; case_test; try lia.
  1, 3: assert (j = lh_n (lg t)) as -> by lia; apply wp_ret; split; [done|];
    exists cur; rewrite logged_nil in Hc; split; [by destruct recovering|]; split; [done|];
    split; [lia|]; unfold install_writes; rewrite Z.sub_diag; apply wrote_nil.
  assert (Hjn : 0 ≤ j < lh_n (lg t)) by lia. rewrite (logged_cons _ _ Hjn) in *.
  pose proof (log_ok_n _ Hl) as Hn.
  set (P := if recovering then [] else logged_from (lg t) (j + 1)).
  assert (Hlog : ∀ i k, 0 ≤ i < lh_n (lg t) → 0 ≤ k < lh_n (lg t) → lh_block (lg t) k ≠ st + i + 1).
  { intros i k Hi Hk Heq. destruct (lo_home _ Hl k Hk) as [_ Hnot]. apply Hnot.
    rewrite Heq. by apply (log_block_addr _ i Hl). }
  assert (Hnj : lh_block (lg t) j ∉ logged_from (lg t) (j + 1)).
  { rewrite logged_elem. intros (i & Hi & Heq). apply (logged_inj _ j i Hl) in Heq; lia. }
  apply wp_bind. eapply wp_mono.
  { apply (install_one_spec t cur j recovering P); try done; unfold P; destruct recovering; try done.
    - apply not_elem_of_nil.
    - rewrite logged_elem. intros (i & Hi & Heq). apply (Hlog j i); [lia..|done].
    - apply not_elem_of_nil.
    - rewrite logged_length by lia. lia. }
  intros ? t1 (Hg1 & Hc1 & Hw1).
  eapply wp_mono.
  { apply (IH t1 (<[lh_block (lg t) j:=cur (st + j + 1)]> cur) (j + 1)); rewrite ?Hg1; [exact Hc1|done|lia|lia]. }
  intros ? t2 (Hg2 & cur' & Hc2 & Hout & Hins & Hw2). rewrite Hg1 in *.
  split; [congruence|]. exists cur'. split; [done|]. split; [|split].
  - intros b [Hb1 Hb2]%not_elem_of_cons. rewrite Hout by done. by apply fn_lookup_insert_ne.
  - intros i Hi. destruct (decide (i = j)) as [->|].
    + rewrite Hout by done. apply fn_lookup_insert.
    + rewrite Hins by lia. apply fn_lookup_insert_ne, Hlog; lia.
  - replace (install_writes (lg t) cur j) with
      ([(lh_block (lg t) j, cur (st + j + 1))] ++
       install_writes (lg t) (<[lh_block (lg t) j:=cur (st + j + 1)]> cur) (j + 1)).
    { by eapply wrote_app. }
    unfold install_writes. rewrite (seqZ_cons j) by lia. cbn. f_equal.
    replace (Z.pred (lh_n (lg t) - j)) with (lh_n (lg t) - (j + 1)) by lia.
    apply list_fmap_ext. intros k i [Hi Hk]%lookup_seqZ. f_equal.
    apply fn_lookup_insert_ne, Hlog; lia.
Qed.

(** The writes of a commit: the log, its header, the home blocks, an empty
    header. *)
Definition commit_writes (l : log) (cur : Z → block) (H1 H2 : block) : list (Z * block) :=
  log_writes l cur 0 ++ [(st, H1)] ++
  ((fun i => (lh_block l i, cur (lh_block l i))) <$> seqZ 0 (lh_n l)) ++ [(st, H2)].

Lemma st_not_logged l : log_ok l → st ∉ logged l.
Proof.
  intros Hl. unfold logged. rewrite logged_elem. intros (i & Hi & Heq).
  destruct (lo_home _ Hl i) as [_ Hn]; [lia|]. apply Hn. rewrite <- Heq. unfold in_log. lia.
Qed.

Lemma commit_spec t cur :
  cache d (lbio t) [] (logged (lg t)) cur → log_ok (lg t) → 0 < lh_n (lg t) →
  wp commit (fun _ t' => lg t' = set_lh_n 0 (lg t) ∧ ∃ H1 H2 cur',
    cache d (lbio t') [] [] cur' ∧ (∀ b, ¬ in_log b → cur' b = cur b) ∧
    cur' st = H2 ∧ hdr_n H2 = 0 ∧ hdr_n H1 = lh_n (lg t) ∧
    (∀ i, 0 ≤ i < lh_n (lg t) → hdr_block H1 i = lh_block (lg t) i) ∧
    wrote (dsk (lbio t)) (commit_writes (lg t) cur H1 H2) (dsk (lbio t'))) t.
Proof.
  intros Hc Hl Hn. pose proof (log_ok_n _ Hl) as Hn'. pose proof (st_not_logged _ Hl) as Hstl.
  assert (Hin_st : in_log st) by (unfold in_log; lia).
  assert (Hlen : Z.of_nat (length (logged (lg t))) < NBUF)
    by (unfold logged; rewrite logged_length by lia; lia).
  unfold commit. apply wp_bind, wp_gets. rewrite (proj2 (Z.ltb_lt _ _) Hn).
  apply wp_bind. unfold write_log. apply wp_bind, wp_gets.
  eapply wp_mono; [apply (write_log_loop_spec _ t cur 0 Hc Hl); lia|].
  intros ? t1 (Hg1 & cur1 & Hc1 & Hout1 & Hin1 & Hw1).
  apply wp_bind. eapply wp_mono.
  { apply (write_head_spec t1 cur1 (logged (lg t)) Hc1); rewrite ?Hg1; try apply Hl; done || lia. }
  intros ? t2 (Hg2 & Hc2 & Hw2). rewrite Hg1 in Hg2, Hc2, Hw2.
  set (H1 := make_hdr _ _ _) in *. set (cur2 := <[st:=H1]> cur1) in *.
  apply wp_bind. unfold install_trans. apply wp_bind, wp_gets.
  eapply wp_mono.
  { apply (install_trans_loop_spec _ t2 cur2 0 false); rewrite ?Hg2; done || lia. }
  intros ? t3 (Hg3 & cur3 & Hc3 & Hout3 & Hin3 & Hw3). rewrite Hg2 in *.
  apply wp_bind, wp_modify. eapply wp_mono.
  { eapply (write_head_spec (mk_lstate (lbio t3) (set_lh_n 0 (lg t3))) cur3 []); cbn; rewrite ?Hg3;
      [exact Hc3|apply Hl|apply Hl|apply not_elem_of_nil|done|done]. }
  cbn [lbio lg]. rewrite Hg3. intros ? t4 (Hg4 & Hc4 & Hw4).
  set (H2 := make_hdr (lh_n (set_lh_n 0 _)) _ _) in *.
  split; [done|]. exists H1, H2, (<[st:=H2]> cur3).
  assert (Hcur2 : ∀ i, 0 ≤ i < lh_n (lg t) → cur2 (st + i + 1) = cur (lh_block (lg t) i)).
  { intros i Hi. unfold cur2. rewrite fn_lookup_insert_ne by lia. apply Hin1. lia. }
  split; [done|]. split; [|split; [|split; [|split; [|split]]]].
  - intros b Hb. rewrite fn_lookup_insert_ne by (intros ->; done).
    destruct (decide (b ∈ logged (lg t))) as [Hbl|Hbl].
    + unfold logged in Hbl. apply logged_elem in Hbl as (i & Hi & ->).
      rewrite Hin3, Hcur2 by lia. done.
    + rewrite Hout3 by done. unfold cur2. rewrite fn_lookup_insert_ne by (intros ->; done).
      apply Hout1. unfold in_log in Hb. pose proof (lo_n _ Hl). lia.
  - apply fn_lookup_insert.
  - apply make_hdr_n. done.
  - apply make_hdr_n. unfold NBUF, MAXOPBLOCKS in *. lia.
  - intros i Hi. apply make_hdr_block; [lia|]. destruct (lo_home _ Hl i Hi). lia.
  - unfold commit_writes. eapply wrote_app; [exact Hw1|]. eapply wrote_app; [exact Hw2|].
    eapply wrote_app; [|exact Hw4].
    replace (_ <$> seqZ 0 (lh_n (lg t))) with (install_writes (lg t) cur2 0); [exact Hw3|].
    unfold install_writes. rewrite Z.sub_0_r. apply list_fmap_ext.
    intros k i [Hi Hk]%lookup_seqZ. f_equal. apply Hcur2. lia.
Qed.

(** ** Recovery *)

(** What recovery makes of block [b] of a disk. *)
Definition recovered (D : Z → block) (b : Z) : block :=
  match find (fun i => hdr_block (D st) i =? b) (seqZ 0 (hdr_n (D st))) with
  | Some i => D (st + i + 1)
  | None => D b
  end.

Definition valid_hdr (D : Z → block) : Prop :=
  0 ≤ hdr_n (D st) ≤ sz - 1 ∧
  (∀ i, 0 ≤ i < hdr_n (D st) → home (hdr_block (D st) i)) ∧
  (∀ i j, 0 ≤ i < hdr_n (D st) → 0 ≤ j < hdr_n (D st) →
     hdr_block (D st) i = hdr_block (D st) j → i = j).

(** A disk that holds the file system [C], once recovered. *)
Definition holds (D C : Z → block) : Prop :=
  valid_hdr D ∧ ∀ b, home b → recovered D b = C b.

Lemma recovered_logged D i :
  valid_hdr D → 0 ≤ i < hdr_n (D st) → recovered D (hdr_block (D st) i) = D (st + i + 1).
Proof.
  intros (_ & _ & Hinj) Hi. unfold recovered.
  destruct (find _ _) as [j|] eqn:E.
  - apply find_some in E as [Hj He]. destruct_bool_tests.
    apply list_elem_of_In, elem_of_seqZ in Hj. by apply Hinj in He as ->; [|lia|lia].
  - exfalso. pose proof (find_none _ _ E i) as Hf. cbv beta in Hf. rewrite Z.eqb_refl in Hf.
    apply diff_true_false, Hf. apply list_elem_of_In, elem_of_seqZ. lia.
Qed.

Lemma recovered_other D b :
  (∀ i, 0 ≤ i < hdr_n (D st) → hdr_block (D st) i ≠ b) → recovered D b = D b.
Proof.
  intros Hb. unfold recovered. destruct (find _ _) as [j|] eqn:E; [|done].
  apply find_some in E as [Hj He]. destruct_bool_tests.
  apply list_elem_of_In, elem_of_seqZ in Hj. exfalso. apply (Hb j); [lia|done].
Qed.

Lemma holds_clean D C :
  hdr_n (D st) = 0 → (∀ b, home b → D b = C b) → holds D C.
Proof.
  intros H0 HD. split.
  - unfold valid_hdr. rewrite H0. split; [lia|]. split; intros; lia.
  - intros b Hb. rewrite recovered_other; [by apply HD|]. rewrite H0. intros; lia.
Qed.

(** A disk on which the header lists blocks whose logged contents are the
    ones of [C], and whose other home blocks are those of [C]. *)
Lemma holds_logged D C :
  valid_hdr D →
  (∀ i, 0 ≤ i < hdr_n (D st) → D (st + i + 1) = C (hdr_block (D st) i)) →
  (∀ b, home b → (∀ i, 0 ≤ i < hdr_n (D st) → hdr_block (D st) i ≠ b) → D b = C b) →
  holds D C.
Proof.
  intros Hv Hlog Hother. split; [done|]. intros b Hb.
  destruct (decide (b ∈ hdr_block (D st) <$> seqZ 0 (hdr_n (D st)))) as [Hin|Hnin].
  - apply list_elem_of_fmap in Hin as (i & -> & Hi%elem_of_seqZ).
    rewrite recovered_logged by (done || lia). apply Hlog. lia.
  - assert (Hne : ∀ i, 0 ≤ i < hdr_n (D st) → hdr_block (D st) i ≠ b).
    { intros i Hi Heq. apply Hnin, list_elem_of_fmap. exists i. split; [done|].
      apply elem_of_seqZ. lia. }
    rewrite recovered_other by done. by apply Hother.
Qed.

Lemma holds_logged_inv D C :
  holds D C →
  (∀ i, 0 ≤ i < hdr_n (D st) → D (st + i + 1) = C (hdr_block (D st) i)) ∧
  (∀ b, home b → (∀ i, 0 ≤ i < hdr_n (D st) → hdr_block (D st) i ≠ b) → D b = C b).
Proof.
  intros [Hv HC]. split.
  - intros i Hi. rewrite <- HC by (by apply Hv). by rewrite recovered_logged.
  - intros b Hb Hne. rewrite <- HC by done. by rewrite recovered_other.
Qed.

(** Writing home blocks with the contents of [C] changes nothing. *)
Lemma holds_writes D C ws :
  holds D C → (∀ b v, (b, v) ∈ ws → home b ∧ v = C b) → holds (apply_writes D ws) C.
Proof.
  intros HD Hws. assert (Hst' : ∀ b, in_log b → apply_writes D ws b = D b).
  { intros b Hb. apply apply_writes_out. intros (w & -> & Hw)%list_elem_of_fmap.
    destruct w as [b' v]. apply Hws in Hw as [[_ Hn] _]. done. }
  assert (in_log st) as Hin by (unfold in_log; lia).
  destruct (holds_logged_inv D C HD) as [Hlog Hother]. destruct HD as [Hv _].
  apply holds_logged; unfold valid_hdr; rewrite (Hst' st Hin).
  - done.
  - intros i Hi. rewrite Hst'; [by apply Hlog|]. destruct Hv as (Hn & _). unfold in_log. lia.
  - intros b Hb Hne. destruct (decide (b ∈ ws.*1)) as [Hbw|Hbw].
    + apply (apply_writes_in D ws b C); [|done]. intros b' v Hw. by apply Hws in Hw as [_ ->].
    + rewrite apply_writes_out by done. by apply Hother.
Qed.

(** The log after [read_head]. *)
Lemma read_blocks_spec k n hb t :
  0 ≤ n - Z.of_nat k →
  wp (read_blocks k n hb) (fun _ t' => lbio t' = lbio t ∧
    start (lg t') = start (lg t) ∧ size (lg t') = size (lg t) ∧ ldev (lg t') = ldev (lg t) ∧
    lh_n (lg t') = lh_n (lg t) ∧ outstanding (lg t') = outstanding (lg t) ∧
    committing (lg t') = committing (lg t) ∧
    ∀ i, lh_block (lg t') i =
      if decide (n - Z.of_nat k ≤ i < n) then hdr_block hb i else lh_block (lg t) i) t.
Proof.
  revert t; induction k as [|k IH]; intros t Hk; cbn [read_blocks].
  - apply wp_ret. do 7 (split; [done|]). intros i. by rewrite decide_False by lia.
  - apply wp_bind, wp_modify. eapply wp_mono; [apply IH; lia|].
    intros ? t' (H1 & H2 & H3 & H4 & H5 & H6 & H7 & Hb). cbn in *. do 7 (split; [done|]).
    intros i. rewrite Hb. destruct (decide (i = n - Z.of_nat (S k))) as [->|].
    + rewrite decide_False, decide_True by lia. by rewrite fn_lookup_insert.
    + rewrite fn_lookup_insert_ne by lia.
      destruct (decide (n - Z.of_nat k ≤ i < n)), (decide (n - Z.of_nat (S k) ≤ i < n)); lia || done.
Qed.

Lemma valid_hdr_log l D :
  valid_hdr D → start l = st → size l = sz → ldev l = d → lh_n l = hdr_n (D st) →
  (∀ i, 0 ≤ i < hdr_n (D st) → lh_block l i = hdr_block (D st) i) → log_ok l.
Proof.
  intros (Hn & Hh & Hinj) H1 H2 H3 H4 Hb. split; try done.
  - by rewrite H4.
  - intros i. rewrite H4. intros Hi. rewrite Hb by done. by apply Hh.
  - unfold logged, logged_from. rewrite H4, Z.sub_0_r. apply NoDup_fmap_2_strong; [|apply NoDup_seqZ].
    intros i j Hi%elem_of_seqZ Hj%elem_of_seqZ. rewrite !Hb by lia. apply Hinj; lia.
Qed.

(** The boot sequence as far as the log is concerned, on a disk [D]. *)
Definition zero_buf : buf := mk_buf false 0 0 (mk_sleeplock 0 0) 0 0 0 (fun _ => 0).
Definition zero_log : log := mk_log 0 0 0 false 0 0 (fun _ => 0).
Definition boot (D : Z → block) : lstate :=
  mk_lstate (mk_bio (fun _ => zero_buf) (mk_disk D []) 1) zero_log.
Definition boot_recover : M lstate unit := do! on_bio binit; initlog d st sz.

(** initlog() on a disk [D], with nothing in the cache that is not on it. *)
Lemma initlog_run t D :
  valid_hdr D → cache d (lbio t) [] [] D → blocks (dsk (lbio t)) = D →
  wp (initlog d st sz) (fun _ t' => ∃ l cur' H2,
    log_ok l ∧ lh_n l = hdr_n (D st) ∧
    (∀ i, 0 ≤ i < hdr_n (D st) → lh_block l i = hdr_block (D st) i) ∧
    lg t' = set_lh_n 0 l ∧ outstanding l = outstanding (lg t) ∧ committing l = committing (lg t) ∧
    cache d (lbio t') [] [] cur' ∧ cur' st = H2 ∧ hdr_n H2 = 0 ∧
    (∀ b, b ≠ st → b ∉ logged l → cur' b = D b) ∧
    (∀ i, 0 ≤ i < lh_n l → cur' (lh_block l i) = D (st + i + 1)) ∧
    wrote (dsk (lbio t)) (install_writes l D 0 ++ [(st, H2)]) (dsk (lbio t'))) t.
Proof.
  intros Hv Hc1 Hd1. pose proof Hv as (Hn & Hh & Hinj).
  unfold initlog. change (BSIZE <=? sizeof_logheader) with false. cbv iota.
  apply wp_bind, wp_modify. cbn [lg lbio]. unfold recover_from_log, read_head.
  apply wp_bind, wp_bind, wp_gets, wp_bind, wp_on_bio. cbn [lg lbio start ldev].
  rewrite !i32_small by lia. rewrite u32_small by lia. eapply wp_mono.
  { apply (bread_spec d (lbio t) [] [] D); [done|lia|apply not_elem_of_nil|by right]. }
  intros ib s2 (Hc2 & Hi2 & _ & Hd2). apply wp_bind, wp_gets. cbn [lbio lg].
  rewrite (cache_data d s2 _ _ _ ib st Hc2 Hi2) by (by left). fold (hdr_n (D st)).
  apply wp_bind, wp_modify. cbn [lbio lg]. apply wp_bind. eapply wp_mono.
  { apply read_blocks_spec. lia. }
  cbn [lbio lg start size ldev lh_n outstanding committing set_lh_n].
  intros ? t3 (Hb3 & H3a & H3b & H3c & H3d & H3e & H3f & Hblk).
  assert (Hb3' : ∀ i, 0 ≤ i < hdr_n (D st) → lh_block (lg t3) i = hdr_block (D st) i).
  { intros i Hi. by rewrite Hblk, decide_True by lia. }
  assert (Hl3 : log_ok (lg t3)) by (by apply (valid_hdr_log _ D)).
  apply wp_on_bio. rewrite Hb3. eapply wp_mono.
  { apply (brelse_spec d s2 [] [] D ib st Hc2 Hi2). right. by rewrite Hd2, Hd1. }
  intros ? s4 (Hc4 & _ & Hd4). cbn [lbio lg]. apply wp_bind. unfold install_trans.
  apply wp_bind, wp_gets. eapply wp_mono.
  { apply (install_trans_loop_spec _ (mk_lstate s4 (lg t3)) D 0 true); cbn [lbio lg];
      rewrite ?H3d; done || lia. }
  cbn [lbio lg]. intros ? t5 (Hg5 & cur5 & Hc5 & Hout5 & Hin5 & Hw5).
  apply wp_bind, wp_modify. eapply wp_mono.
  { eapply (write_head_spec (mk_lstate (lbio t5) (set_lh_n 0 (lg t5))) cur5 []); cbn; rewrite ?Hg5;
      [exact Hc5|apply Hl3|apply Hl3|apply not_elem_of_nil|done|done]. }
  cbn [lbio lg]. rewrite Hg5. intros ? t6 (Hg6 & Hc6 & Hw6).
  eexists (lg t3), _, _. do 6 (split; [done|]). split; [exact Hc6|].
  split; [by rewrite fn_lookup_insert|]. split; [by apply make_hdr_n|]. split; [|split].
  - intros b Hb Hbl. rewrite fn_lookup_insert_ne by done. by apply Hout5.
  - intros i Hi. rewrite fn_lookup_insert_ne; [by apply Hin5|]. intros Heq.
    destruct (lo_home _ Hl3 i Hi) as [_ Hx]. apply Hx. unfold in_log. lia.
  - eapply wrote_app; [|exact Hw6]. rewrite Hd4, Hd2 in Hw5. exact Hw5.
Qed.

Lemma boot_recover_run D :
  valid_hdr D →
  wp boot_recover (fun _ t' => ∃ l cur' H2,
    log_ok l ∧ lh_n l = hdr_n (D st) ∧
    (∀ i, 0 ≤ i < hdr_n (D st) → lh_block l i = hdr_block (D st) i) ∧
    lg t' = set_lh_n 0 l ∧ outstanding l = 0 ∧ committing l = false ∧
    cache d (lbio t') [] [] cur' ∧ cur' st = H2 ∧ hdr_n H2 = 0 ∧
    (∀ b, b ≠ st → b ∉ logged l → cur' b = D b) ∧
    (∀ i, 0 ≤ i < lh_n l → cur' (lh_block l i) = D (st + i + 1)) ∧
    wrote (mk_disk D []) (install_writes l D 0 ++ [(st, H2)]) (dsk (lbio t'))) (boot D).
Proof.
  intros Hv. unfold boot_recover. apply wp_bind, wp_on_bio.
  eapply wp_mono; [by apply (binit_cache d)|]. cbn [lbio lg boot dsk blocks]. intros ? s1 [Hc1 Hd1].
  eapply wp_mono; [apply (initlog_run (mk_lstate s1 zero_log) D Hv); cbn [lbio]; [done|by rewrite Hd1]|].
  cbn [lbio lg]. rewrite Hd1. done.
Qed.

(** Every prefix of a sequence that ends in [w]. *)
Lemma take_app_one {A} k (l : list A) w :
  take k (l ++ [w]) = take k l ∨ take k (l ++ [w]) = l ++ [w].
Proof.
  destruct (decide (k ≤ length l)%nat).
  - left. by apply take_app_le.
  - right. apply take_ge. rewrite length_app. cbn. lia.
Qed.

Lemma recover_spec D C :
  holds D C →
  wp boot_recover (fun _ t' =>
    (∃ cur', cache d (lbio t') [] [] cur' ∧ ∀ b, home b → cur' b = C b) ∧
    log_ok (lg t') ∧ lh_n (lg t') = 0 ∧ outstanding (lg t') = 0 ∧ committing (lg t') = false ∧
    hdr_n (blocks (dsk (lbio t')) st) = 0 ∧
    (∃ ws, wrote (mk_disk D []) ws (dsk (lbio t')) ∧
       ∀ k, holds (apply_writes D (take k ws)) C)) (boot D).
Proof.
  intros HD. destruct (holds_logged_inv D C HD) as [Hlog Hother]. pose proof HD as [Hv HC].
  eapply wp_mono; [by apply boot_recover_run|].
  intros ? t' (l & cur' & H2 & Hl & Hn & Hb & Hg & Ho & Hcm & Hc & Hcst & H20 & Hout & Hins & Hw).
  assert (Hcur : ∀ b, home b → cur' b = C b).
  { intros b Hbh. destruct (decide (b ∈ logged l)) as [Hbl|Hbl].
    - apply logged_elem in Hbl as (i & Hi & ->). rewrite Hins, Hb, <- Hlog by lia. done.
    - rewrite Hout; [|intros ->; apply Hbh; unfold in_log; lia|done]. apply Hother; [done|].
      intros i Hi Heq. apply Hbl, logged_elem. exists i. rewrite Hn, Hb by lia. by split; [lia|]. }
  assert (Hws : ∀ b v, (b, v) ∈ install_writes l D 0 → home b ∧ v = C b).
  { intros b v Hbv. apply list_elem_of_fmap in Hbv as (i & [= -> ->] & Hi%elem_of_seqZ).
    split; [apply (lo_home _ Hl); lia|]. rewrite Hb, <- Hlog by lia. done. }
  assert (Hfin : ∀ b, blocks (dsk (lbio t')) b = cur' b).
  { intros b. symmetry. apply (c_clean _ _ _ _ _ Hc); apply not_elem_of_nil. }
  split; [by exists cur'|]. rewrite Hg. split; [|do 3 (split; [done|])].
  { destruct Hl as [? ? ? ? ? ?]. split; cbn; try done; [lia|intros; lia|constructor]. }
  split; [by rewrite Hfin, Hcst|]. eexists. split; [exact Hw|]. intros k.
  destruct (take_app_one k (install_writes l D 0) (st, H2)) as [-> | ->].
  - apply holds_writes; [done|]. intros b v Hbv. apply Hws. by eapply subseteq_take.
  - unfold wrote in Hw. cbn [blocks] in Hw.
    assert (Hfin' : ∀ b, apply_writes D (install_writes l D 0 ++ [(st, H2)]) b = cur' b).
    { intros b. rewrite <- Hfin, Hw. done. }
    apply holds_clean; [by rewrite Hfin', Hcst|]. intros b Hbh. by rewrite Hfin', Hcur.
Qed.

(** Boots until one recovery completes; each earlier one crashes after [k] of
    its writes. *)
Inductive reboot (D : Z → block) (t' : lstate) : Prop :=
| reboot_done : boot_recover (boot D) = Ok (tt, t') → reboot D t'
| reboot_crash k t :
    boot_recover (boot D) = Ok (tt, t) →
    reboot (apply_writes D (take k (writes (dsk (lbio t))))) t' → reboot D t'.

Lemma reboot_holds D C t :
  holds D C → reboot D t → ∀ b, home b → blocks (dsk (lbio t)) b = C b.
Proof.
  intros HD Hr. induction Hr as [D t Hb|D t' k t Hb Hr IH].
  - destruct (wp_elim _ _ _ _ _ (recover_spec D C HD) Hb) as ((cur & Hc & Hcur) & _).
    intros b Hbh. rewrite <- Hcur by done. symmetry.
    apply (c_clean _ _ _ _ _ Hc); apply not_elem_of_nil.
  - apply IH. destruct (wp_elim _ _ _ _ _ (recover_spec D C HD) Hb) as (_ & _ & _ & _ & _ & _ & Hw).
    destruct Hw as (ws & -> & Hk). apply Hk.
Qed.

Lemma reboot_exists D C : holds D C → ∃ t, reboot D t.
Proof.
  intros HD. destruct (proj1 (wp_ok _ _ _) (recover_spec D C HD)) as ([] & t & Hb & _).
  exists t. by apply reboot_done.
Qed.

Lemma apply_writes_app D ws1 ws2 :
  apply_writes D (ws1 ++ ws2) = apply_writes (apply_writes D ws1) ws2.
Proof. unfold apply_writes. apply foldl_app. Qed.

(** The disk once the log and its header are written. *)
Lemma commit_point l D cur H1 :
  log_ok l → (∀ b, b ∉ logged l → cur b = D b) → hdr_n H1 = lh_n l →
  (∀ i, 0 ≤ i < lh_n l → hdr_block H1 i = lh_block l i) →
  holds (apply_writes D (log_writes l cur 0 ++ [(st, H1)])) cur.
Proof.
  intros Hl Hcl Hn Hb. rewrite apply_writes_app. set (D1 := apply_writes D (log_writes l cur 0)).
  change (apply_writes D1 [(st, H1)]) with (<[st:=H1]> D1). pose proof (lo_n l Hl) as Hnl.
  assert (Hw : ∀ b, b ∈ (log_writes l cur 0).*1 → ∃ i, 0 ≤ i < lh_n l ∧ b = st + i + 1).
  { intros b ([b' v] & -> & (i & [= -> ->] & Hi%elem_of_seqZ)%list_elem_of_fmap)%list_elem_of_fmap.
    exists i. cbn. lia. }
  apply holds_logged; unfold valid_hdr; rewrite fn_lookup_insert, Hn.
  - split; [lia|]. split.
    + intros i Hi. rewrite Hb by done. by apply (lo_home l Hl).
    + intros i j Hi Hj. rewrite !Hb by done. by apply logged_inj.
  - intros i Hi. rewrite fn_lookup_insert_ne by lia. rewrite Hb by done.
    unfold D1. rewrite (apply_writes_in D (log_writes l cur 0) (st + i + 1)
      (fun b => cur (lh_block l (b - st - 1)))).
    + do 2 f_equal. lia.
    + intros b v Hbv. apply list_elem_of_fmap in Hbv as (j & [= -> ->] & _). do 2 f_equal. lia.
    + apply list_elem_of_fmap. exists (st + i + 1, cur (lh_block l i)). split; [done|].
      apply list_elem_of_fmap. exists i. split; [done|]. apply elem_of_seqZ. lia.
  - intros b Hbh Hne. rewrite fn_lookup_insert_ne by (intros <-; apply Hbh; unfold in_log; lia).
    unfold D1. rewrite apply_writes_out.
    + symmetry. apply Hcl. unfold logged. rewrite logged_elem. intros (i & Hi & ->).
      apply (Hne i Hi). by apply Hb.
    + intros (i & Hi & ->)%Hw. apply Hbh. unfold in_log. lia.
Qed.

(** Every prefix of the writes of a commit leaves the old file system or the
    new one; all of them the new one. *)
Lemma commit_prefix l D cur H1 H2 k :
  log_ok l → (∀ b, b ∉ logged l → cur b = D b) → hdr_n (D st) = 0 → hdr_n H1 = lh_n l →
  hdr_n H2 = 0 → (∀ i, 0 ≤ i < lh_n l → hdr_block H1 i = lh_block l i) →
  let ws := commit_writes l cur H1 H2 in
  (holds (apply_writes D (take k ws)) D ∧ (k < length ws)%nat) ∨
  holds (apply_writes D (take k ws)) cur.
Proof.
  intros Hl Hcl H0 Hn HH2 Hb ws. set (A := log_writes l cur 0).
  set (B := (fun i => (lh_block l i, cur (lh_block l i))) <$> seqZ 0 (lh_n l)).
  assert (HB : ∀ b v, (b, v) ∈ B → home b ∧ v = cur b).
  { intros b v (i & [= -> ->] & Hi%elem_of_seqZ)%list_elem_of_fmap.
    split; [|done]. apply (lo_home l Hl). lia. }
  assert (Hpt : holds (apply_writes D (A ++ [(st, H1)])) cur) by (by apply commit_point).
  assert (Hws : ws = A ++ (st, H1) :: B ++ [(st, H2)]) by done.
  destruct (decide (k ≤ length A)%nat) as [Hk|Hk].
  - left. rewrite Hws, take_app_le by done. split; [|rewrite length_app; cbn; lia].
    assert (HA : ∀ b, b = st ∨ home b → apply_writes D (take k A) b = D b).
    { intros b Hbh. apply apply_writes_out. intros ([b' v] & -> & Hbv)%list_elem_of_fmap.
      apply subseteq_take in Hbv. apply list_elem_of_fmap in Hbv as (i & [= -> ->] & Hi%elem_of_seqZ).
      destruct (log_block_addr l i Hl) as (_ & Hin & Hne & _); [lia|].
      destruct Hbh as [Hbh|[_ Hbh]]; done. }
    apply holds_clean; [by rewrite HA by (by left)|]. intros b Hbh. apply HA. by right.
  - right. rewrite Hws, take_app_ge by lia.
    destruct (k - length A)%nat as [|k'] eqn:Ek; [lia|]. cbn [take].
    replace (A ++ (st, H1) :: take k' (B ++ [(st, H2)])) with
      ((A ++ [(st, H1)]) ++ take k' (B ++ [(st, H2)])) by (by rewrite <- app_assoc).
    rewrite apply_writes_app. set (D1 := apply_writes D (A ++ [(st, H1)])) in *.
    destruct (take_app_one k' B (st, H2)) as [-> | ->].
    + apply holds_writes; [done|]. intros b v Hbv. apply HB. by eapply subseteq_take.
    + rewrite apply_writes_app. change (apply_writes ?E [(st, H2)]) with (<[st:=H2]> E).
      apply holds_clean; [by rewrite fn_lookup_insert|]. intros b Hbh.
      rewrite fn_lookup_insert_ne by (intros <-; apply Hbh; unfold in_log; lia).
      destruct (decide (b ∈ B.*1)) as [HbB|HbB].
      * apply (apply_writes_in D1 B b cur); [|done]. intros b' v Hw. by apply HB in Hw as [_ ->].
      * rewrite apply_writes_out by done. apply (holds_logged_inv D1 cur Hpt); [done|].
        assert (D1 st = H1) as ->.
        { unfold D1. rewrite apply_writes_app. apply fn_lookup_insert. }
        rewrite Hn. intros i Hi Heq. apply HbB, list_elem_of_fmap.
        exists (lh_block l i, cur (lh_block l i)). rewrite Hb in Heq by done. split; [done|].
        apply list_elem_of_fmap. exists i. split; [done|]. apply elem_of_seqZ. lia.
Qed.

(** What a crash during [commit] leaves on disk. *)
Lemma commit_crash t cur :
  cache d (lbio t) [] (logged (lg t)) cur → log_ok (lg t) →
  hdr_n (blocks (dsk (lbio t)) st) = 0 →
  ∃ t' ws, commit t = Ok (tt, t') ∧ writes (dsk (lbio t')) = writes (dsk (lbio t)) ++ ws ∧
    ∀ k, let D := apply_writes (blocks (dsk (lbio t))) (take k ws) in
    (holds D (blocks (dsk (lbio t))) ∧ (k < length ws)%nat) ∨ holds D cur.
Proof.
  intros Hc Hl H0. assert (Hcl : ∀ b, b ∉ logged (lg t) → cur b = blocks (dsk (lbio t)) b).
  { intros b Hb. apply (c_clean _ _ _ _ _ Hc); [apply not_elem_of_nil|done]. }
  destruct (decide (0 < lh_n (lg t))) as [Hn|Hn].
  - destruct (proj1 (wp_ok _ _ _) (commit_spec t cur Hc Hl Hn)) as
      ([] & t' & Ht & _ & H1 & H2 & cur' & _ & _ & _ & HH2 & HH1 & Hb & Hw).
    exists t', (commit_writes (lg t) cur H1 H2). split; [done|]. split; [by rewrite Hw|].
    intros k. by apply commit_prefix.
  - exists t, []. split; [|split; [by rewrite app_nil_r|]].
    { unfold commit, bind, the_log, gets. by rewrite (proj2 (Z.ltb_ge _ _)) by lia. }
    intros k D. right. unfold D. rewrite take_nil. apply holds_clean; [done|].
    intros b Hb. symmetry. apply Hcl. unfold logged. rewrite logged_elem. intros (i & Hi & _). lia.
Qed.

(** [commit] is atomic and durable.  Started with the modified blocks
    pinned in the cache and an empty log on disk, it succeeds; if the machine
    crashes after any number of its disk writes, and then during any number
    of recoveries, the recovery that completes leaves every block outside
    the log either as it was on disk before the commit or, for all blocks
    together, as it was in the cache; and when all writes were done, as it
    was in the cache.  Recovery always completes. *)
Theorem commit_crash_safe t cur :
  cache d (lbio t) [] (logged (lg t)) cur → log_ok (lg t) →
  hdr_n (blocks (dsk (lbio t)) st) = 0 →
  ∃ t' ws, commit t = Ok (tt, t') ∧ writes (dsk (lbio t')) = writes (dsk (lbio t)) ++ ws ∧
    ∀ k, let D := apply_writes (blocks (dsk (lbio t))) (take k ws) in
    (∃ tr, reboot D tr) ∧
    ∀ tr, reboot D tr →
      ((∀ b, home b → blocks (dsk (lbio tr)) b = blocks (dsk (lbio t)) b) ∧ (k < length ws)%nat) ∨
      (∀ b, home b → blocks (dsk (lbio tr)) b = cur b).
Proof.
  intros Hc Hl H0. destruct (commit_crash t cur Hc Hl H0) as (t' & ws & Ht & Hw & Hk).
  exists t', ws. split; [done|]. split; [done|]. intros k D.
  destruct (Hk k) as [[Hh Hlt]|Hh]; (split; [by eapply reboot_exists|]); intros tr Hr.
  - left. split; [by apply (reboot_holds _ _ _ Hh)|done].
  - right. by apply (reboot_holds _ _ _ Hh).
Qed.

(** ** Transactions *)

(** The contents of a block as the file system sees it. *)
Definition view (s : bio) (bn : Z) : block :=
  match find (fun i => (dev (bufs s i) =? d) && ((blockno (bufs s i) =? bn) && valid (bufs s i)))
          buffers with
  | Some i => data (bufs s i)
  | None => blocks (dsk s) bn
  end.

Lemma view_cache s held pinned cur bn : cache d s held pinned cur → view s bn = cur bn.
Proof.
  intros Hc. unfold view. destruct (find _ buffers) as [i|] eqn:E.
  - apply find_some in E as [Hi E]. destruct_bool_tests.
    apply list_elem_of_In, buffers_elem in Hi. by apply (c_data _ _ _ _ _ Hc).
  - symmetry. pose proof (find_none _ _ E) as Hno.
    assert (Hn : (bn ∉ held) ∧ (bn ∉ pinned)).
    { apply Decidable.not_or. intros Hin. destruct (c_in _ _ _ _ _ Hc bn Hin) as [i Hi].
      pose proof (c_valid _ _ _ _ _ Hc i bn Hi Hin) as Hv. destruct Hi as (Hr & Hdv & Hb).
      apply diff_true_false. rewrite <- (Hno i).
      - by rewrite Hdv, Hb, Hv, !Z.eqb_refl.
      - by apply list_elem_of_In, buffers_elem. }
    apply (c_clean _ _ _ _ _ Hc); apply Hn.
Qed.

Lemma log_find_spec k n bl bn :
  0 ≤ n - Z.of_nat k →
  let i := log_find k n bl bn in
  (i = n ∧ ∀ j, n - Z.of_nat k ≤ j < n → bl j ≠ bn) ∨ (n - Z.of_nat k ≤ i < n ∧ bl i = bn).
Proof.
  induction k as [|k IH]; intros Hk i; unfold i; cbn [log_find]; [left; split; [done|lia]|].
  case_test; [right; split; [lia|done]|].
  destruct IH as [[-> Hno]|[Hr He]]; [lia|left|right].
  - split; [done|]. intros j Hj. destruct (decide (j = n - Z.of_nat (S k))) as [->|]; [done|].
    apply Hno. lia.
  - split; [lia|done].
Qed.

Lemma log_write_spec t held cur i bn :
  cache d (lbio t) held (logged (lg t)) cur → log_ok (lg t) → is_buf d (lbio t) i bn →
  bn ∈ held → home bn → lh_n (lg t) < sz - 1 → 1 ≤ outstanding (lg t) →
  wp (log_write i) (fun _ t' => ∃ l', lg t' = l' ∧
    cache d (lbio t') held (logged l') cur ∧ log_ok l' ∧
    (∀ b, b ∈ logged l' ↔ b = bn ∨ b ∈ logged (lg t)) ∧
    lh_n l' = lh_n (lg t) + (if decide (bn ∈ logged (lg t)) then 0 else 1) ∧
    outstanding l' = outstanding (lg t) ∧ committing l' = committing (lg t) ∧
    (∀ j bn', is_buf d (lbio t) j bn' → is_buf d (lbio t') j bn') ∧
    dsk (lbio t') = dsk (lbio t)) t.
Proof.
  intros Hc Hl Hi Hh Hbh Hn Ho. pose proof (log_ok_n _ Hl) as [Hn1 Hn2].
  unfold log_write. apply wp_bind, wp_gets. rewrite (lo_size _ Hl).
  rewrite (proj2 (Z.leb_gt _ _)), (proj2 (Z.leb_gt (sz - 1) _)), (proj2 (Z.ltb_ge _ _)) by lia.
  cbn [orb]. apply wp_bind, wp_on_bio, wp_gets. cbn [lbio lg]. destruct Hbh as [Hbr Hbl].
  assert (blockno (bufs (lbio t) i) = bn) as -> by apply Hi.
  set (k := log_find _ _ _ _). rewrite i32_small by lia.
  apply wp_bind, wp_modify. cbn [lbio lg].
  destruct (log_find_spec (Z.to_nat (lh_n (lg t))) (lh_n (lg t)) (fun j => u32 (lh_block (lg t) j)) bn)
    as [[Hk Hno]|[Hk Heq]]; [lia| |]; fold k in Hk.
  - rewrite Hk, Z.eqb_refl.
    assert (Hnin : bn ∉ logged (lg t)).
    { unfold logged. rewrite logged_elem. intros (j & Hj & ->). apply (Hno j); [lia|].
      apply (log_home_addr _ j Hl Hj). }
    apply wp_bind, wp_on_bio. eapply wp_mono; [by apply (bpin_spec d _ held (logged (lg t)) cur i bn)|].
    intros ? s1 (Hc1 & Hst1 & Hd1). apply wp_modify. cbn [lbio lg]. set (l' := set_lh_n _ _).
    assert (Hlg : logged l' = logged (lg t) ++ [bn]).
    { unfold logged, logged_from, l'. cbn [set_lh_n set_lh_block lh_n lh_block].
      rewrite !Z.sub_0_r, seqZ_app, fmap_app by lia. f_equal.
      - apply list_fmap_ext. intros j x [Hx Hj]%lookup_seqZ. apply fn_lookup_insert_ne. lia.
      - rewrite Z.add_0_l, seqZ_cons by lia. cbn. by rewrite fn_lookup_insert. }
    exists l'. split; [done|]. split; [by rewrite Hlg, Permutation_app_comm|]. split; [|split].
    + split; try apply Hl; [cbn; lia| |].
      * cbn [l' set_lh_n set_lh_block lh_n lh_block]. intros j Hj.
        destruct (decide (j = lh_n (lg t))) as [->|]; [by rewrite fn_lookup_insert|].
        rewrite fn_lookup_insert_ne by lia. apply (lo_home _ Hl). lia.
      * rewrite Hlg, Permutation_app_comm. apply NoDup_cons. split; [done|apply (lo_nodup _ Hl)].
    + intros b. rewrite Hlg, elem_of_app, list_elem_of_singleton. tauto.
    + rewrite decide_False by done. done.
  - rewrite (proj2 (Z.eqb_neq _ _)) by lia. apply wp_ret.
    assert (Hbk : lh_block (lg t) k = bn).
    { rewrite <- Heq. symmetry. apply (log_home_addr _ k Hl). lia. }
    assert (Hin : bn ∈ logged (lg t)).
    { apply logged_elem. exists k. split; [lia|done]. }
    cbn [lbio lg]. set (l' := set_lh_block _ _ _).
    assert (Hlb : ∀ j, lh_block l' j = lh_block (lg t) j).
    { intros j. unfold l'. cbn. destruct (decide (k = j)) as [<-|];
        [by rewrite fn_lookup_insert|by rewrite fn_lookup_insert_ne]. }
    assert (Hlg : logged l' = logged (lg t)).
    { apply list_fmap_ext. intros j x _. apply Hlb. }
    exists l'. split; [done|]. rewrite Hlg. split; [done|]. split; [|split].
    + split; try apply Hl; [|by rewrite Hlg; apply Hl]. intros j. rewrite Hlb. apply (lo_home _ Hl).
    + intros b. split; [by right|]. by intros [->|].
    + rewrite decide_True by done. split; [cbn; lia|]. done.
Qed.

End commit.
