(* ===== verification/LogTx.v ===== *)
(** * Transactions (kernel/log.c): theorems

    File-system calls run between [begin_op] and [end_op]; several can be
    outstanding, and their updates of blocks interleave.  [run] is any such
    sequence of steps after a boot.  The theorems show that a crash never
    exposes a part of the calls since the last commit, and how much the log
    can hold. *)

From stdpp Require Import functions.
From S2P Require Import Prelude Mem Riscv Sleeplock Bio BioSpec Log LogSpec.

Section transactions.
Context (d st sz : Z).
Context (Hd : d ≠ 0) (Hst : 0 ≤ st) (Hend : st + sz < 2 ^ 31) (Hsz : 1 ≤ sz ≤ LOGSIZE).

#[local] Abbreviation home := (home st sz).
#[local] Abbreviation log_ok := (log_ok d st sz).
#[local] Abbreviation holds := (holds st sz).
#[local] Abbreviation boot_recover := (boot_recover d st sz).
#[local] Abbreviation reboot := (reboot d st sz).
#[local] Abbreviation view := (view d).

(** One update of a block, as the comment on [log_write] describes it: bread,
    modify the data, log_write, brelse. *)
Definition update (bn : Z) (f : block → block) : M lstate unit :=
  do i <- on_bio (bread d bn);
  do! put_data i f;
  do! log_write i;
  on_bio (brelse i).

(** [run t C]: the state [t] is reached by steps of file-system calls after a
    boot, and [C] is the file system at the last commit. *)
Inductive run : lstate → (Z → block) → Prop :=
| run_boot D C t : holds D C → boot_recover (boot D) = Ok (tt, t) → run t C
| run_begin t C t' : run t C → begin_op t = Ok (tt, t') → run t' C
| run_update t C t' bn f :
    run t C → home bn → 1 ≤ outstanding (lg t) → update bn f t = Ok (tt, t') → run t' C
| run_end t C t' :
    run t C → 1 ≤ outstanding (lg t) → end_op t = Ok (tt, t') →
    run t' (if outstanding (lg t) =? 1 then view (lbio t) else C).

(** The state between the steps; [cur] is the file system as the calls see
    it. *)
Record tx_inv (t : lstate) (C cur : Z → block) : Prop := {
  tx_cache : cache d (lbio t) [] (logged (lg t)) cur;
  tx_log : log_ok (lg t);
  tx_hdr : hdr_n (blocks (dsk (lbio t)) st) = 0;
  tx_committing : committing (lg t) = false;
  tx_outstanding : 0 ≤ outstanding (lg t);
  tx_empty : outstanding (lg t) = 0 → lh_n (lg t) = 0;
  tx_disk : ∀ b, home b → blocks (dsk (lbio t)) b = C b
}.

Lemma update_begin t cur bn f :
  cache d (lbio t) [] (logged (lg t)) cur → log_ok (lg t) → home bn →
  wp (do i <- on_bio (bread d bn); do! put_data i f; ret i)
     (fun i t' => lg t' = lg t ∧
        cache d (lbio t') [bn] (logged (lg t)) (<[bn := f (cur bn)]> cur) ∧
        is_buf d (lbio t') i bn ∧ dsk (lbio t') = dsk (lbio t)) t.
Proof.
  intros Hc Hl [Hbr Hbl]. pose proof (log_ok_n _ _ _ Hsz _ Hl) as [Hn _].
  apply wp_bind, wp_on_bio. eapply wp_mono.
  { apply (bread_spec d _ [] (logged (lg t)) cur bn Hc Hbr (not_elem_of_nil _)). right.
    unfold logged. cbn [length]. pose proof (logged_length (lg t) 0). lia. }
  intros i s1 (Hc1 & Hi1 & _ & Hd1). apply wp_bind, wp_on_bio. eapply wp_mono.
  { apply (set_data_spec d s1 [bn] (logged (lg t)) cur i bn f Hc1 Hi1). by left. }
  intros ? s2 (Hc2 & Hs2 & Hd2). apply wp_ret. cbn [lbio lg].
  split; [done|]. split; [done|]. split; [by apply Hs2|congruence].
Qed.

Lemma update_split bn f t i t1 :
  (do i <- on_bio (bread d bn); do! put_data i f; ret i) t = Ok (i, t1) →
  update bn f t = (do! log_write i; on_bio (brelse i)) t1.
Proof.
  unfold update. intros (j & t2 & Hb & (? & t3 & Hp & Hr)%bind_ok_inv)%bind_ok_inv.
  injection Hr as -> ->. by rewrite (bind_ok _ _ _ _ _ Hb), (bind_ok _ _ _ _ _ Hp).
Qed.

Lemma update_spec t cur bn f :
  cache d (lbio t) [] (logged (lg t)) cur → log_ok (lg t) → home bn →
  lh_n (lg t) < sz - 1 → 1 ≤ outstanding (lg t) →
  wp (update bn f) (fun _ t' =>
    cache d (lbio t') [] (logged (lg t')) (<[bn := f (cur bn)]> cur) ∧ log_ok (lg t') ∧
    (∀ b, b ∈ logged (lg t') ↔ b = bn ∨ b ∈ logged (lg t)) ∧
    lh_n (lg t') = lh_n (lg t) + (if decide (bn ∈ logged (lg t)) then 0 else 1) ∧
    outstanding (lg t') = outstanding (lg t) ∧ committing (lg t') = committing (lg t) ∧
    dsk (lbio t') = dsk (lbio t)) t.
Proof.
  intros Hc Hl Hb Hn Ho.
  destruct (proj1 (wp_ok _ _ _) (update_begin t cur bn f Hc Hl Hb)) as
    (i & t1 & Hi & Hg1 & Hc1 & Hi1 & Hd1).
  eapply wp_same; [by apply (update_split _ _ _ _ _ Hi)|].
  apply wp_bind. rewrite <- Hg1 in *. eapply wp_mono.
  { apply (log_write_spec d st sz Hsz t1 [bn] _ i bn Hc1 Hl Hi1); [by left|done..]. }
  intros ? t2 (l' & Hg2 & Hc2 & Hl2 & Hin & Hn2 & Ho2 & Hcm2 & Hst2 & Hd2).
  apply wp_on_bio. eapply wp_mono.
  { apply (brelse_spec d (lbio t2) [] (logged l') _ i bn Hc2); [by apply Hst2|left].
    apply Hin. by left. }
  intros ? s3 (Hc3 & _ & Hd3). cbn [lbio lg]. rewrite Hg2. do 6 (split; [done|]). congruence.
Qed.

(** The log is full: no room for another [log_write]. *)
Lemma update_full t cur bn f :
  cache d (lbio t) [] (logged (lg t)) cur → log_ok (lg t) → home bn → lh_n (lg t) = sz - 1 →
  update bn f t = Panic "too big a transaction".
Proof.
  intros Hc Hl Hb Hn.
  destruct (proj1 (wp_ok _ _ _) (update_begin t cur bn f Hc Hl Hb)) as
    (i & t1 & Hi & Hg1 & Hc1 & Hi1 & Hd1).
  rewrite (update_split _ _ _ _ _ Hi). unfold log_write, bind, the_log, gets. rewrite Hg1.
  rewrite (lo_size _ _ _ _ Hl), Hn, (Z.leb_refl (sz - 1)), orb_true_r. done.
Qed.

(** ** Steps *)

Lemma log_ok_fields l o c :
  log_ok l → log_ok (set_committing c (set_outstanding o l)).
Proof. intros Hl. split; apply Hl. Qed.

Lemma begin_op_ok t t' :
  begin_op t = Ok (tt, t') →
  committing (lg t) = false ∧ lh_n (lg t) + (outstanding (lg t) + 1) * MAXOPBLOCKS ≤ LOGSIZE ∧
  t' = mk_lstate (lbio t) (set_outstanding (outstanding (lg t) + 1) (lg t)).
Proof.
  unfold begin_op, bind, the_log, gets. destruct (committing (lg t)); [done|].
  case_test; [done|]. by intros [= <-].
Qed.

(** The state in which the last outstanding call commits. *)
Definition to_commit (t : lstate) : lstate :=
  mk_lstate (lbio t) (set_committing true (set_outstanding 0 (lg t))).

Lemma end_op_last t :
  outstanding (lg t) = 1 → committing (lg t) = false →
  end_op t = (do! commit; upd_log (set_committing false)) (to_commit t).
Proof.
  intros Ho Hc. unfold end_op, end_op_enter, bind, upd_log, modify, the_log, gets. cbn.
  by rewrite Hc, Ho.
Qed.

Lemma end_op_more t :
  1 < outstanding (lg t) → committing (lg t) = false →
  end_op t = Ok (tt, mk_lstate (lbio t) (set_outstanding (outstanding (lg t) - 1) (lg t))).
Proof.
  intros Ho Hc. unfold end_op, end_op_enter, bind, upd_log, modify, the_log, gets. cbn.
  by rewrite Hc, (proj2 (Z.eqb_neq _ 0)) by lia.
Qed.

Lemma in_log_st : in_log st sz st.
Proof. unfold in_log. lia. Qed.

Lemma end_op_commits t C cur :
  tx_inv t C cur → outstanding (lg t) = 1 →
  wp end_op (fun _ t' => ∃ C' cur', tx_inv t' C' cur' ∧ (∀ b, home b → C' b = cur b)) t.
Proof.
  intros Hi Ho. eapply wp_same; [by apply end_op_last; [|apply Hi]|]. apply wp_bind.
  assert (Hl1 : log_ok (lg (to_commit t))) by (by apply log_ok_fields, Hi).
  assert (Hc1 : cache d (lbio (to_commit t)) [] (logged (lg (to_commit t))) cur) by apply Hi.
  destruct (decide (0 < lh_n (lg t))) as [Hn|Hn].
  - eapply wp_mono; [by apply (commit_spec d st sz Hst Hend Hsz (to_commit t) cur)|].
    intros ? t2 (Hg2 & H1 & H2 & cur2 & Hc2 & Hcur2 & Hst2 & HH2 & _). apply wp_modify.
    exists cur2, cur2. cbn [lbio lg]. rewrite Hg2.
    assert (Hclean : ∀ b, blocks (dsk (lbio t2)) b = cur2 b).
    { intros b. symmetry. apply (c_clean _ _ _ _ _ Hc2); apply not_elem_of_nil. }
    split; [|intros b [_ Hb]; by apply Hcur2]. split; cbn [lbio lg]; rewrite ?Hg2; try done.
    + split; cbn; try apply Hl1; [pose proof Hsz; lia|intros; lia|constructor].
    + by rewrite Hclean, Hst2.
  - assert (lh_n (lg t) = 0) as H0 by (pose proof (lo_n _ _ _ _ (tx_log _ _ _ Hi)); lia).
    apply (wp_mono _ (fun _ t2 => t2 = to_commit t)).
    { unfold wp, commit, bind, the_log, gets. cbn. by rewrite H0. }
    intros ? t2 ->. apply wp_modify. exists C, cur. split.
    + split; try apply Hi; try done. by apply (log_ok_fields (lg t) 0 false), Hi.
    + intros b Hb. rewrite <- (tx_disk _ _ _ Hi) by done. symmetry.
      apply (c_clean _ _ _ _ _ Hc1); [apply not_elem_of_nil|]. unfold logged.
      rewrite logged_elem. cbn. rewrite H0. intros (i & Hr & _). lia.
Qed.

Lemma run_inv t C : run t C → ∃ cur, tx_inv t C cur.
Proof.
  induction 1 as [D C t HD Hb|t C t' _ [cur Hi] Hb|t C t' bn f _ [cur Hi] Hbh Ho Hu|t C t' _ [cur Hi] Ho He].
  - destruct (wp_elim _ _ _ _ _ (recover_spec d st sz Hd Hst Hend Hsz D C HD) Hb) as
      ((cur & Hc & Hcur) & Hl & Hn & Ho & Hcm & Hh & _).
    clear Hb. exists cur. assert (Hlg : logged (lg t) = []).
    { unfold logged, logged_from. by rewrite Hn. }
    split; try done; [by rewrite Hlg|lia|]. intros b Hbh. rewrite <- Hcur by done. symmetry.
    apply (c_clean _ _ _ _ _ Hc); apply not_elem_of_nil.
  - apply begin_op_ok in Hb as (_ & _ & ->). exists cur. pose proof (tx_outstanding _ _ _ Hi).
    split; try apply Hi; [by apply (log_ok_fields (lg t) _ (committing (lg t))), Hi|cbn; lia..].
  - exists (<[bn := f (cur bn)]> cur).
    destruct (decide (lh_n (lg t) < sz - 1)) as [Hn|Hn].
    + destruct (wp_elim _ _ _ _ _ (update_spec t cur bn f (tx_cache _ _ _ Hi) (tx_log _ _ _ Hi)
        Hbh Hn Ho) Hu) as (Hc & Hl & _ & _ & Ho' & Hcm & Hds). clear Hu.
      split; try done; rewrite ?Hds, ?Ho', ?Hcm; try apply Hi; lia.
    + pose proof (lo_n _ _ _ _ (tx_log _ _ _ Hi)).
      rewrite (update_full t cur bn f (tx_cache _ _ _ Hi) (tx_log _ _ _ Hi) Hbh) in Hu by lia.
      discriminate Hu.
  - case_test.
    + destruct (wp_elim _ _ _ _ _ (end_op_commits t C cur Hi E) He) as (C' & cur' & Hi' & HC).
      clear He.
      exists cur'. destruct Hi' as [? ? ? ? ? ? Hdisk]. split; try done. intros b Hb.
      rewrite Hdisk, HC by done. symmetry. apply (view_cache _ _ _ _ _ _ (tx_cache _ _ _ Hi)).
    + rewrite (end_op_more t) in He by (apply Hi || lia). injection He as <-. exists cur.
      split; try apply Hi; [by apply (log_ok_fields (lg t) _ (committing (lg t))), Hi|cbn; lia..].
Qed.

(** ** Theorems *)

(** C1: group commit.  After any interleaving of file-system calls, the
    [end_op] of a call succeeds.  If the machine crashes during it (or right
    before it), at any disk write, and possibly again during recoveries, the
    disk comes back holding the file system of the last commit, or that of
    all calls that have run up to now, and the latter only if no other call
    is outstanding: a part of a call is never exposed, nor a call that others
    may still depend on.  After the [end_op] of the last outstanding call its
    effects survive crashes. *)
Theorem transactions_atomic t C :
  run t C → 1 ≤ outstanding (lg t) →
  let C' := if outstanding (lg t) =? 1 then view (lbio t) else C in
  ∃ t' ws, end_op t = Ok (tt, t') ∧ writes (dsk (lbio t')) = writes (dsk (lbio t)) ++ ws ∧
    ∀ k, let D := apply_writes (blocks (dsk (lbio t))) (take k ws) in
    (∃ tr, reboot D tr) ∧
    ∀ tr, reboot D tr →
      ((∀ b, home b → blocks (dsk (lbio tr)) b = C b) ∧ (k < length ws)%nat) ∨
      (∀ b, home b → blocks (dsk (lbio tr)) b = C' b).
Proof.
  intros Hr Ho C'. destruct (run_inv t C Hr) as [cur Hi]. unfold C'. case_test.
  - assert (Hl1 : log_ok (lg (to_commit t))) by (by apply log_ok_fields, Hi).
    assert (Hc1 : cache d (lbio (to_commit t)) [] (logged (lg (to_commit t))) cur) by apply Hi.
    destruct (commit_crash d st sz Hst Hend Hsz (to_commit t) cur Hc1 Hl1 (tx_hdr _ _ _ Hi))
      as (t1 & ws & Hc & Hw & Hk).
    exists (mk_lstate (lbio t1) (set_committing false (lg t1))), ws. split; [|split; [done|]].
    { rewrite (end_op_last t E (tx_committing _ _ _ Hi)), (bind_ok _ _ _ _ _ Hc). done. }
    intros k. destruct (Hk k) as [[Hh Hlt]|Hh];
      (split; [by apply (reboot_exists d st sz Hd Hst Hend Hsz _ _ Hh)|]); intros tr Htr;
      pose proof (reboot_holds d st sz Hd Hst Hend Hsz _ _ _ Hh Htr) as Hres.
    + left. split; [|done]. intros b Hb. rewrite Hres by done. by apply (tx_disk _ _ _ Hi).
    + right. intros b Hb. rewrite Hres by done. symmetry.
      apply (view_cache _ _ _ _ _ _ (tx_cache _ _ _ Hi)).
  - eexists _, []. split; [apply end_op_more; [lia|apply Hi]|].
    split; [by rewrite app_nil_r|]. intros k. rewrite take_nil.
    assert (Hh : holds (blocks (dsk (lbio t))) C).
    { apply holds_clean; [done|apply (tx_hdr _ _ _ Hi)|apply (tx_disk _ _ _ Hi)]. }
    split; [by apply (reboot_exists d st sz Hd Hst Hend Hsz _ _ Hh)|]. intros tr Htr. right.
    by apply (reboot_holds d st sz Hd Hst Hend Hsz _ _ _ Hh Htr).
Qed.

(** Updates of the blocks of a list, one after the other. *)
Fixpoint updates (bs : list Z) : M lstate unit :=
  match bs with
  | [] => ret tt
  | bn :: bs' => do! update bn (fun x => x); updates bs'
  end.

Lemma updates_full t cur bs :
  cache d (lbio t) [] (logged (lg t)) cur → log_ok (lg t) → 1 ≤ outstanding (lg t) →
  NoDup (bs ++ logged (lg t)) → (∀ b, b ∈ bs → home b) →
  sz - 1 < lh_n (lg t) + Z.of_nat (length bs) →
  updates bs t = Panic "too big a transaction".
Proof.
  revert t cur; induction bs as [|bn bs IH]; intros t cur Hc Hl Ho Hnd Hh Hlen; cbn [updates].
  - pose proof (lo_n _ _ _ _ Hl). cbn in Hlen. lia.
  - cbn [app] in Hnd. apply NoDup_cons in Hnd as [Hnin Hnd].
    rewrite not_elem_of_app in Hnin. destruct Hnin as [Hn1 Hn2].
    pose proof (lo_n _ _ _ _ Hl). cbn [length] in Hlen.
    destruct (decide (lh_n (lg t) < sz - 1)) as [Hlt|Hge].
    + destruct (proj1 (wp_ok _ _ _) (update_spec t cur bn (fun x => x) Hc Hl (Hh bn ltac:(by left)) Hlt Ho))
        as ([] & t1 & Ht1 & Hc1 & Hl1 & Hin & Hn & Ho1 & _).
      rewrite (bind_ok _ _ _ _ _ Ht1). rewrite decide_False in Hn by done.
      apply (IH t1 _ Hc1 Hl1); [lia| |intros b Hb; apply Hh; by right|lia].
      apply NoDup_app in Hnd as (Hd1 & Hdis & _). apply NoDup_app. split; [done|].
      split; [|apply (lo_nodup _ _ _ _ Hl1)]. intros b Hb [->|Hb']%Hin; [done|]. by apply (Hdis b).
    + unfold bind. rewrite (update_full t cur); [done..|apply Hh; by left|lia].
Qed.

(** C20: the room that [begin_op] reserves is not there when the log has
    LOGSIZE blocks, as mkfs makes it: one of them is the header, so
    [log_write] admits LOGSIZE-1 blocks.  Three calls are let in on an empty
    log; if they update MAXOPBLOCKS blocks each, as each is allowed to, the
    last update panics. *)
Theorem log_reservation_too_large t C bs :
  run t C → outstanding (lg t) = 0 → sz = LOGSIZE →
  NoDup bs → (∀ b, b ∈ bs → home b) → Z.of_nat (length bs) = 3 * MAXOPBLOCKS →
  (do! begin_op; do! begin_op; do! begin_op; updates bs) t = Panic "too big a transaction".
Proof.
  intros Hr Ho Hs Hnd Hh Hlen. destruct (run_inv t C Hr) as [cur Hi].
  pose proof (tx_empty _ _ _ Hi Ho) as H0.
  assert (Hb : ∀ o, 0 ≤ o ≤ 2 → begin_op (mk_lstate (lbio t) (set_outstanding o (lg t))) =
    Ok (tt, mk_lstate (lbio t) (set_outstanding (o + 1) (lg t)))).
  { intros o Hor. unfold begin_op, bind, the_log, gets. cbn. rewrite (tx_committing _ _ _ Hi), H0.
    rewrite (proj2 (Z.ltb_ge _ _)); [done|]. unfold LOGSIZE, MAXOPBLOCKS. lia. }
  assert (t = mk_lstate (lbio t) (set_outstanding 0 (lg t))) as Ht.
  { destruct t as [b l]. cbn in *. f_equal. destruct l. cbn in *. by subst. }
  rewrite Ht, (bind_ok _ _ _ _ _ (Hb 0 ltac:(lia))), (bind_ok _ _ _ _ _ (Hb (0 + 1) ltac:(lia))).
  rewrite (bind_ok _ _ _ _ _ (Hb (0 + 1 + 1) ltac:(lia))).
  apply (updates_full _ cur); cbn.
  - apply Hi.
  - by apply (log_ok_fields (lg t) _ (committing (lg t))), Hi.
  - lia.
  - unfold logged, logged_from. cbn. rewrite H0. by rewrite app_nil_r.
  - done.
  - unfold LOGSIZE, MAXOPBLOCKS in *. lia.
Qed.

End transactions.

(** ** Examples: device 1, a log of 30 blocks from block 2 on, an empty disk *)

Definition sample_disk : Z → block := fun _ _ => 0.

Lemma sample_holds : holds 2 30 sample_disk sample_disk.
Proof. by apply holds_clean. Qed.

Lemma sample_boot :
  ∃ t, boot_recover 1 2 30 (boot sample_disk) = Ok (tt, t) ∧ outstanding (lg t) = 0.
Proof.
  destruct (proj1 (wp_ok _ _ _) (recover_spec 1 2 30 ltac:(lia) ltac:(lia) ltac:(lia)
    ltac:(unfold LOGSIZE, MAXOPBLOCKS; lia) _ _ sample_holds)) as ([] & t & Hb & Hrest).
  exists t. split; [exact Hb|]. apply Hrest.
Qed.

(** A call has begun and has updated block 50. *)
Lemma sample_update :
  ∃ t cur, run 1 2 30 t sample_disk ∧ outstanding (lg t) = 1 ∧ tx_inv 1 2 30 t sample_disk cur ∧
    50 ∈ logged (lg t).
Proof.
  destruct sample_boot as (t0 & Hb0 & Ho0).
  assert (Hr0 : run 1 2 30 t0 sample_disk) by (by eapply run_boot, Hb0; apply sample_holds).
  clear Hb0. assert (Hsz : 1 ≤ 30 ≤ LOGSIZE) by (unfold LOGSIZE, MAXOPBLOCKS; lia).
  destruct (run_inv 1 2 30 ltac:(lia) ltac:(lia) ltac:(lia) Hsz t0 _ Hr0) as [cur0 Hi0].
  assert (Hbeg : begin_op t0 = Ok (tt, mk_lstate (lbio t0) (set_outstanding 1 (lg t0)))).
  { unfold begin_op, bind, the_log, gets. rewrite (tx_committing _ _ _ _ _ _ Hi0), Ho0.
    rewrite (tx_empty _ _ _ _ _ _ Hi0 Ho0). done. }
  set (t1 := mk_lstate (lbio t0) (set_outstanding 1 (lg t0))) in *.
  assert (Hr1 : run 1 2 30 t1 sample_disk) by (by eapply run_begin, Hbeg). clear Hbeg.
  destruct (run_inv 1 2 30 ltac:(lia) ltac:(lia) ltac:(lia) Hsz t1 _ Hr1) as [cur1 Hi1].
  destruct (proj1 (wp_ok _ _ _) (update_spec 1 2 30 Hsz t1 cur1 50 (fun b => st8 b 0 7)
    (tx_cache _ _ _ _ _ _ Hi1) (tx_log _ _ _ _ _ _ Hi1) ltac:(unfold home, in_log; lia)
    ltac:(cbn; rewrite (tx_empty _ _ _ _ _ _ Hi0 Ho0); lia) ltac:(cbn; lia)))
    as ([] & t2 & Hu & _ & _ & Hin & _ & Ho2 & _).
  assert (Hr2 : run 1 2 30 t2 sample_disk).
  { eapply (run_update 1 2 30 t1); [done| |cbn; lia|exact Hu]. unfold home, in_log. lia. }
  clear Hu. destruct (run_inv 1 2 30 ltac:(lia) ltac:(lia) ltac:(lia) Hsz t2 _ Hr2) as [cur2 Hi2].
  exists t2, cur2. split; [exact Hr2|]. split; [exact Ho2|]. split; [exact Hi2|]. apply Hin. by left.
Qed.

Lemma commit_crash_safe_witness :
  ∃ t t' ws, 50 ∈ logged (lg t) ∧ commit t = Ok (tt, t') ∧
    writes (dsk (lbio t')) = writes (dsk (lbio t)) ++ ws ∧
    ∃ tr, reboot 1 2 30 (apply_writes (blocks (dsk (lbio t))) (take 1 ws)) tr.
Proof.
  destruct sample_update as (t & cur & _ & _ & Hi & Hin).
  destruct (commit_crash_safe 1 2 30 ltac:(lia) ltac:(lia) ltac:(lia)
    ltac:(unfold LOGSIZE, MAXOPBLOCKS; lia) t cur (tx_cache _ _ _ _ _ _ Hi) (tx_log _ _ _ _ _ _ Hi)
    (tx_hdr _ _ _ _ _ _ Hi)) as (t' & ws & Hc & Hw & Hk).
  exists t, t', ws. split; [exact Hin|]. split; [exact Hc|]. split; [exact Hw|]. apply (Hk 1%nat).
Defined.

Lemma transactions_atomic_witness :
  ∃ t t' ws, 50 ∈ logged (lg t) ∧ end_op t = Ok (tt, t') ∧
    writes (dsk (lbio t')) = writes (dsk (lbio t)) ++ ws ∧
    ∃ tr, reboot 1 2 30 (apply_writes (blocks (dsk (lbio t))) (take 1 ws)) tr.
Proof.
  destruct sample_update as (t & cur & Hr & Ho & _ & Hin).
  destruct (transactions_atomic 1 2 30 ltac:(lia) ltac:(lia) ltac:(lia)
    ltac:(unfold LOGSIZE, MAXOPBLOCKS; lia) t sample_disk Hr ltac:(lia)) as (t' & ws & Hc & Hw & Hk).
  exists t, t', ws. split; [exact Hin|]. split; [exact Hc|]. split; [exact Hw|]. apply (Hk 1%nat).
Defined.

Lemma log_reservation_too_large_witness :
  ∃ t, (do! begin_op; do! begin_op; do! begin_op; updates 1 (seqZ 50 30)) t =
    Panic "too big a transaction".
Proof.
  destruct sample_boot as (t0 & Hb0 & Ho0). exists t0.
  apply (log_reservation_too_large 1 2 30 ltac:(lia) ltac:(lia) ltac:(lia)
    ltac:(unfold LOGSIZE, MAXOPBLOCKS; lia) t0 sample_disk); [|exact Ho0|reflexivity|..].
  - by eapply run_boot, Hb0; apply sample_holds.
  - apply NoDup_seqZ.
  - intros b Hb%elem_of_seqZ. unfold home, in_log. lia.
  - rewrite length_seqZ. reflexivity.
Defined.
