(* ===== verification/Fs.v ===== *)
(** * File system (kernel/fs.c): the operations

    Blocks, inodes, directories and path names, on top of the log.  A
    [struct inode*] is an index of the inode table; where the code uses a
    null pointer the result is an [option].  [itable.lock] makes [iget],
    [idup] and the reference counting of [iput] atomic.  A directory entry
    on the kernel stack is a list of 16 bytes, a path a list of bytes whose
    end is the terminating NUL.  Messages on the console are not part of
    the state. *)

From stdpp Require Import functions.
From S2P Require Import Prelude Mem Kstring Riscv Kalloc Vm Sleeplock Bio Log.

(** ** On-disk format (kernel/fs.h) *)

Definition ROOTINO : Z := 1.
Definition FSMAGIC : Z := 0x10203040.
Definition NDIRECT : Z := 12.
Definition NINDIRECT : Z := BSIZE / 4.
Definition MAXFILE : Z := NDIRECT + NINDIRECT.
Definition BPB : Z := BSIZE * 8.
Definition DIRSIZ : Z := 14.
Definition T_DIR : Z := 1.
Definition T_FILE : Z := 2.
Definition T_DEVICE : Z := 3.

Record superblock := mk_sb {
  sb_magic : Z; sb_size : Z; sb_nblocks : Z; sb_ninodes : Z;
  sb_nlog : Z; sb_logstart : Z; sb_inodestart : Z; sb_bmapstart : Z
}.

(** The offsets of the fields of [struct dinode]: type, major, minor and
    nlink are shorts, size and addrs[NDIRECT+1] are uints. *)
Definition sizeof_dinode : Z := 64.
Definition IPB : Z := BSIZE / sizeof_dinode.
Definition IBLOCK (i : Z) (s : superblock) : Z := u32 (i / IPB + sb_inodestart s).
Definition BBLOCK (b : Z) (s : superblock) : Z := u32 (b / BPB + sb_bmapstart s).

(** [struct dirent]: inum, a ushort, and name[DIRSIZ]. *)
Definition sizeof_dirent : Z := 16.

(** ** State *)

Record inode := mk_inode {
  i_dev : Z; i_inum : Z; i_ref : Z; i_lock : sleeplock; i_valid : bool;
  i_type : Z; i_major : Z; i_minor : Z; i_nlink : Z; i_size : Z; i_addrs : Z → Z
}.

Definition set_ref v i := mk_inode (i_dev i) (i_inum i) v (i_lock i) (i_valid i) (i_type i)
  (i_major i) (i_minor i) (i_nlink i) (i_size i) (i_addrs i).
Definition set_ilock v i := mk_inode (i_dev i) (i_inum i) (i_ref i) v (i_valid i) (i_type i)
  (i_major i) (i_minor i) (i_nlink i) (i_size i) (i_addrs i).
Definition set_ivalid v i := mk_inode (i_dev i) (i_inum i) (i_ref i) (i_lock i) v (i_type i)
  (i_major i) (i_minor i) (i_nlink i) (i_size i) (i_addrs i).
Definition set_type v i := mk_inode (i_dev i) (i_inum i) (i_ref i) (i_lock i) (i_valid i) v
  (i_major i) (i_minor i) (i_nlink i) (i_size i) (i_addrs i).
Definition set_nlink v i := mk_inode (i_dev i) (i_inum i) (i_ref i) (i_lock i) (i_valid i) (i_type i)
  (i_major i) (i_minor i) v (i_size i) (i_addrs i).
Definition set_isize v i := mk_inode (i_dev i) (i_inum i) (i_ref i) (i_lock i) (i_valid i) (i_type i)
  (i_major i) (i_minor i) (i_nlink i) v (i_addrs i).
Definition set_addr k v i := mk_inode (i_dev i) (i_inum i) (i_ref i) (i_lock i) (i_valid i) (i_type i)
  (i_major i) (i_minor i) (i_nlink i) (i_size i) (<[k := v]> (i_addrs i)).
Definition set_major_minor a b i := mk_inode (i_dev i) (i_inum i) (i_ref i) (i_lock i) (i_valid i)
  (i_type i) a b (i_nlink i) (i_size i) (i_addrs i).

(** The log and what is below it, the superblock, the inode table, physical
    memory, and of the running process its page table and current
    directory. *)
Record fs := mk_fs {
  flog : lstate; sb : superblock; itab : Z → inode;
  fkmem : kmem; upt : Z; cwd : Z
}.

Definition on_log {A} (c : M lstate A) : M fs A :=
  lift flog (fun s l => mk_fs l (sb s) (itab s) (fkmem s) (upt s) (cwd s)) c.
Definition on_mem {A} (c : M kmem A) : M fs A :=
  lift fkmem (fun s m => mk_fs (flog s) (sb s) (itab s) m (upt s) (cwd s)) c.
Definition upd_inode (ip : Z) (f : inode → inode) : M fs unit :=
  modify (fun s => mk_fs (flog s) (sb s) (alter f ip (itab s)) (fkmem s) (upt s) (cwd s)).
Definition the_inode (ip : Z) : M fs inode := gets (fun s => itab s ip).

(** [bread], [log_write], [brelse] and accesses to [bp->data]. *)
Definition bread_ (dv bn : Z) : M fs Z := on_log (on_bio (bread dv bn)).
Definition brelse_ (bp : Z) : M fs unit := on_log (on_bio (brelse bp)).
Definition log_write_ (bp : Z) : M fs unit := on_log (log_write bp).
Definition bdata (bp : Z) : M fs block := on_log (the_data bp).
Definition put_bdata (bp : Z) (f : block → block) : M fs unit := on_log (put_data bp f).
Definition my_pid : M fs Z := gets (fun s => mypid (lbio (flog s))).

(** ** Superblock and blocks *)

Definition readsb (dv : Z) : M fs unit :=
  do bp <- bread_ dv 1;
  do d <- bdata bp;
  do! modify (fun s => mk_fs (flog s)
        (mk_sb (ld32 d 0) (ld32 d 4) (ld32 d 8) (ld32 d 12)
               (ld32 d 16) (ld32 d 20) (ld32 d 24) (ld32 d 28))
        (itab s) (fkmem s) (upt s) (cwd s));
  brelse_ bp.

Definition fsinit (dv : Z) : M fs unit :=
  do! readsb dv;
  do s <- gets sb;
  if negb (sb_magic s =? FSMAGIC) then panic "invalid file system"
  else on_log (initlog dv (sb_logstart s) (sb_nlog s)).

Definition bzero (dv bno : Z) : M fs unit :=
  do bp <- bread_ dv bno;
  do! put_bdata bp (fun d => fill d 0 0 BSIZE);
  do! log_write_ bp;
  brelse_ bp.

(** Is bit [bi] of a bitmap block set?  m = 1 << (bi % 8);
    bp->data[bi/8] & m *)
Definition bit_mask (bi : Z) : Z := Z.shiftl 1 (bi mod 8).
Definition bit_set (d : block) (bi : Z) : bool :=
  negb (Z.land (ld8 d (bi / 8)) (bit_mask bi) =? 0).

(** The inner loop of [balloc]: the first clear bit from [bi] on. *)
Fixpoint balloc_scan (fuel : nat) (bi b size : Z) (d : block) : option Z :=
  match fuel with
  | O => None
  | S f =>
      if (bi <? BPB) && (b + bi <? size) then
        if negb (bit_set d bi) then Some bi else balloc_scan f (bi + 1) b size d
      else None
  end.
Fixpoint balloc_loop (fuel : nat) (dv b : Z) : M fs Z :=
  do s <- gets sb;
  if b <? sb_size s then
    match fuel with
    | O => out_of_fuel
    | S f =>
        do bp <- bread_ dv (BBLOCK b s);
        do d <- bdata bp;
        match balloc_scan (Z.to_nat BPB) 0 b (sb_size s) d with
        | Some bi =>
            do! put_bdata bp (fun d => st8 d (bi / 8) (Z.lor (ld8 d (bi / 8)) (bit_mask bi)));
            do! log_write_ bp;
            do! brelse_ bp;
            do! bzero dv (b + bi);
            ret (b + bi)
        | None => do! brelse_ bp; balloc_loop f dv (b + BPB)
        end
    end
  else ret 0.
Definition balloc (dv : Z) : M fs Z :=
  do s <- gets sb; balloc_loop (Z.to_nat (sb_size s / BPB + 1)) dv 0.

Definition bfree (dv b : Z) : M fs unit :=
  do s <- gets sb;
  do bp <- bread_ dv (BBLOCK b s);
  let bi := b mod BPB in
  do d <- bdata bp;
  if negb (bit_set d bi) then panic "freeing free block"
  else
    do! put_bdata bp (fun d => st8 d (bi / 8) (Z.land (ld8 d (bi / 8)) (u8 (Z.lnot (bit_mask bi)))));
    do! log_write_ bp;
    brelse_ bp.

(** ** Inodes *)

Fixpoint iinit_loop (n : nat) : M fs unit :=
  match n with
  | O => ret tt
  | S n' => do! upd_inode (NINODE - Z.of_nat n) (set_ilock initsleeplock); iinit_loop n'
  end.
Definition iinit : M fs unit := iinit_loop (Z.to_nat NINODE).

(** The position of an inode in its block, and its fields there. *)
Definition dinode_off (i : Z) : Z := i mod IPB * sizeof_dinode.
Definition d_type (d : block) (o : Z) : Z := i16 (ld16 d o).
Definition d_major (d : block) (o : Z) : Z := i16 (ld16 d (o + 2)).
Definition d_minor (d : block) (o : Z) : Z := i16 (ld16 d (o + 4)).
Definition d_nlink (d : block) (o : Z) : Z := i16 (ld16 d (o + 6)).
Definition d_size (d : block) (o : Z) : Z := ld32 d (o + 8).
Definition d_addr (d : block) (o k : Z) : Z := ld32 d (o + 12 + 4 * k).

(** The search of [iget] from entry [NINODE - n] on; [empty] is the first
    free entry so far. *)
Fixpoint iget_scan (n : nat) (dv num : Z) (empty : option Z) (tab : Z → inode) : option Z * option Z :=
  match n with
  | O => (None, empty)
  | S n' =>
      let ip := NINODE - Z.of_nat n in
      let x := tab ip in
      if (0 <? i_ref x) && ((i_dev x =? dv) && (i_inum x =? num)) then (Some ip, empty)
      else
        let empty' := if bool_decide (empty = None) && (i_ref x =? 0) then Some ip else empty in
        iget_scan n' dv num empty' tab
  end.
Definition iget (dv num : Z) : M fs Z :=
  do tab <- gets itab;
  match iget_scan (Z.to_nat NINODE) dv num None tab with
  | (Some ip, _) => do! upd_inode ip (fun x => set_ref (i_ref x + 1) x); ret ip
  | (None, None) => panic "iget: no inodes"
  | (None, Some ip) =>
      do! upd_inode ip (fun x => mk_inode dv num 1 (i_lock x) false (i_type x) (i_major x)
                                   (i_minor x) (i_nlink x) (i_size x) (i_addrs x));
      ret ip
  end.

(** for(inum = 1; inum < sb.ninodes; inum++) *)
Fixpoint ialloc_loop (fuel : nat) (dv num type : Z) : M fs (option Z) :=
  do s <- gets sb;
  if num <? sb_ninodes s then
    match fuel with
    | O => out_of_fuel
    | S f =>
        do bp <- bread_ dv (IBLOCK num s);
        do d <- bdata bp;
        let o := dinode_off num in
        if d_type d o =? 0 then
          do! put_bdata bp (fun d => st16 (fill d o 0 sizeof_dinode) o type);
          do! log_write_ bp;
          do! brelse_ bp;
          do ip <- iget dv num;
          ret (Some ip)
        else
          do! brelse_ bp;
          ialloc_loop f dv (num + 1) type
    end
  else ret None.
Definition ialloc (dv type : Z) : M fs (option Z) :=
  do s <- gets sb; ialloc_loop (Z.to_nat (sb_ninodes s)) dv 1 type.

(** memmove(dip->addrs, ip->addrs, sizeof(ip->addrs)), the last [k] of the
    NDIRECT+1 entries. *)
Fixpoint store_addrs (k : nat) (o : Z) (a : Z → Z) (d : block) : block :=
  match k with
  | O => d
  | S k' =>
      let i := NDIRECT + 1 - Z.of_nat k in
      store_addrs k' o a (st32 d (o + 12 + 4 * i) (a i))
  end.
Definition store_dinode (o : Z) (x : inode) (d : block) : block :=
  let d := st16 d o (i_type x) in
  let d := st16 d (o + 2) (i_major x) in
  let d := st16 d (o + 4) (i_minor x) in
  let d := st16 d (o + 6) (i_nlink x) in
  let d := st32 d (o + 8) (i_size x) in
  store_addrs (Z.to_nat (NDIRECT + 1)) o (i_addrs x) d.
Definition iupdate (ip : Z) : M fs unit :=
  do x <- the_inode ip;
  do s <- gets sb;
  do bp <- bread_ (i_dev x) (IBLOCK (i_inum x) s);
  do! put_bdata bp (store_dinode (dinode_off (i_inum x)) x);
  do! log_write_ bp;
  brelse_ bp.

Definition idup (ip : Z) : M fs Z :=
  do! upd_inode ip (fun x => set_ref (i_ref x + 1) x); ret ip.

Definition inode_acquiresleep (ip : Z) : M fs unit :=
  do x <- the_inode ip;
  do pid <- my_pid;
  match acquiresleep pid (i_lock x) with
  | Ok (_, lk) => upd_inode ip (set_ilock lk)
  | Panic msg => panic msg
  | Sleeps ch => sleeps ch
  | OutOfFuel => out_of_fuel
  end.
Definition inode_releasesleep (ip : Z) : M fs unit :=
  upd_inode ip (set_ilock (mk_sleeplock 0 0)).

Definition ilock (ip : Z) : M fs unit :=
  do x <- the_inode ip;
  if i_ref x <? 1 then panic "ilock"
  else
    do! inode_acquiresleep ip;
    do x <- the_inode ip;
    if negb (i_valid x) then
      do s <- gets sb;
      do bp <- bread_ (i_dev x) (IBLOCK (i_inum x) s);
      do d <- bdata bp;
      let o := dinode_off (i_inum x) in
      do! upd_inode ip (fun x => mk_inode (i_dev x) (i_inum x) (i_ref x) (i_lock x) (i_valid x)
            (d_type d o) (d_major d o) (d_minor d o) (d_nlink d o) (d_size d o) (d_addr d o));
      do! brelse_ bp;
      do! upd_inode ip (set_ivalid true);
      do x <- the_inode ip;
      if i_type x =? 0 then panic "ilock: no type" else ret tt
    else ret tt.

Definition iunlock (ip : Z) : M fs unit :=
  do x <- the_inode ip;
  do pid <- my_pid;
  if negb (holdingsleep pid (i_lock x)) || (i_ref x <? 1) then panic "iunlock"
  else inode_releasesleep ip.

(** ** Inode content *)

(** The loop of [itrunc] over the direct blocks, and over the entries of the
    indirect block, whose data are read from the buffer [bp]. *)
Fixpoint itrunc_direct (k : nat) (ip : Z) : M fs unit :=
  match k with
  | O => ret tt
  | S k' =>
      let i := NDIRECT - Z.of_nat k in
      do x <- the_inode ip;
      do! (if negb (i_addrs x i =? 0) then
             do! bfree (i_dev x) (i_addrs x i);
             upd_inode ip (set_addr i 0)
           else ret tt);
      itrunc_direct k' ip
  end.
Fixpoint itrunc_indirect (k : nat) (dv bp : Z) : M fs unit :=
  match k with
  | O => ret tt
  | S k' =>
      let j := NINDIRECT - Z.of_nat k in
      do d <- bdata bp;
      do! (if negb (ld32 d (4 * j) =? 0) then bfree dv (ld32 d (4 * j)) else ret tt);
      itrunc_indirect k' dv bp
  end.
Definition itrunc (ip : Z) : M fs unit :=
  do! itrunc_direct (Z.to_nat NDIRECT) ip;
  do x <- the_inode ip;
  do! (if negb (i_addrs x NDIRECT =? 0) then
         do bp <- bread_ (i_dev x) (i_addrs x NDIRECT);
         do! itrunc_indirect (Z.to_nat NINDIRECT) (i_dev x) bp;
         do! brelse_ bp;
         do! bfree (i_dev x) (i_addrs x NDIRECT);
         upd_inode ip (set_addr NDIRECT 0)
       else ret tt);
  do! upd_inode ip (set_isize 0);
  iupdate ip.

Definition iput (ip : Z) : M fs unit :=
  do x <- the_inode ip;
  do! (if (i_ref x =? 1) && (i_valid x && (i_nlink x =? 0)) then
         do! inode_acquiresleep ip;
         do! itrunc ip;
         do! upd_inode ip (set_type 0);
         do! iupdate ip;
         do! upd_inode ip (set_ivalid false);
         inode_releasesleep ip
       else ret tt);
  upd_inode ip (fun x => set_ref (i_ref x - 1) x).

Definition iunlockput (ip : Z) : M fs unit := do! iunlock ip; iput ip.

(** The disk block of the [bn]th block of a file, allocated if there is
    none; 0 if that fails. *)
Definition bmap (ip bn : Z) : M fs Z :=
  do x <- the_inode ip;
  if bn <? NDIRECT then
    let addr := i_addrs x bn in
    if addr =? 0 then
      do addr <- balloc (i_dev x);
      if addr =? 0 then ret 0
      else do! upd_inode ip (set_addr bn addr); ret addr
    else ret addr
  else
    let bn := bn - NDIRECT in
    if bn <? NINDIRECT then
      do addr <- (let addr := i_addrs x NDIRECT in
                  if addr =? 0 then
                    do addr <- balloc (i_dev x);
                    if addr =? 0 then ret 0
                    else do! upd_inode ip (set_addr NDIRECT addr); ret addr
                  else ret addr);
      if addr =? 0 then ret 0
      else
        do bp <- bread_ (i_dev x) addr;
        do d <- bdata bp;
        do addr <- (let addr := ld32 d (4 * bn) in
                    if addr =? 0 then
                      do addr <- balloc (i_dev x);
                      do! (if negb (addr =? 0) then
                             do! put_bdata bp (fun d => st32 d (4 * bn) addr);
                             log_write_ bp
                           else ret tt);
                      ret addr
                    else ret addr);
        do! brelse_ bp;
        ret addr
    else panic "bmap: out of range".

Record stat := mk_stat { st_dev : Z; st_ino : Z; st_type : Z; st_nlink : Z; st_size : Z }.
Definition stati (ip : Z) : M fs stat :=
  do x <- the_inode ip;
  ret (mk_stat (i32 (i_dev x)) (i_inum x) (i_type x) (i_nlink x) (i_size x)).

(** ** Reading and writing files

    [either_copyout] and [either_copyin] of kernel/proc.c.  A destination is
    a user address, the address of a page of physical memory, or a variable
    of the caller, which receives the bytes as part of the result; a source
    is a user address or a variable of the caller. *)
Inductive dest := UserDst (va : Z) | PhysDst (pa : Z) | LocalDst.
Inductive source := UserSrc (va : Z) | LocalSrc (bytes : list Z).

Definition dest_add (d : dest) (m : Z) : dest :=
  match d with
  | UserDst va => UserDst (u64 (va + m))
  | PhysDst pa => PhysDst (u64 (pa + m))
  | LocalDst => LocalDst
  end.
Definition source_add (s : source) (m : Z) : source :=
  match s with
  | UserSrc va => UserSrc (u64 (va + m))
  | LocalSrc bytes => LocalSrc (drop (Z.to_nat m) bytes)
  end.

Definition either_copyout (d : dest) (bytes : list Z) : M fs Z :=
  match d with
  | UserDst va => do pt <- gets upt; on_mem (copyout pt va bytes (Z.of_nat (length bytes)))
  | PhysDst pa => do! on_mem (modify (fun s => set_memory (store_bytes (memory s) pa bytes) s)); ret 0
  | LocalDst => ret 0
  end.
(** The result with the bytes copied. *)
Definition either_copyin (s : source) (len : Z) : M fs (Z * list Z) :=
  match s with
  | UserSrc va => do pt <- gets upt; on_mem (copyin pt va len)
  | LocalSrc bytes => ret (0, take (Z.to_nat len) bytes)
  end.

(** The loop of [readi].  The result is [tot], with the bytes copied to a
    destination; each iteration copies at least one byte, so [n - tot]
    bounds their number. *)
Fixpoint readi_loop (fuel : nat) (ip : Z) (dst : dest) (off n tot : Z) : M fs (Z * list Z) :=
  if tot <? n then
    match fuel with
    | O => out_of_fuel
    | S f =>
        do addr <- bmap ip (off / BSIZE);
        if addr =? 0 then ret (tot, [])
        else
          do x <- the_inode ip;
          do bp <- bread_ (i_dev x) addr;
          let m := Z.min (n - tot) (BSIZE - off mod BSIZE) in
          do d <- bdata bp;
          let bytes := load_bytes d (off mod BSIZE) m in
          do r <- either_copyout dst bytes;
          if r =? -1 then do! brelse_ bp; ret (-1, bytes)
          else
            do! brelse_ bp;
            do '(tot', rest) <- readi_loop f ip (dest_add dst m) (u32 (off + m)) n (tot + m);
            ret (tot', bytes ++ rest)
    end
  else ret (tot, []).
Definition readi (ip : Z) (dst : dest) (off n : Z) : M fs (Z * list Z) :=
  do x <- the_inode ip;
  if (i_size x <? off) || (u32 (off + n) <? off) then ret (0, [])
  else
    let n := if i_size x <? u32 (off + n) then i_size x - off else n in
    do '(tot, bytes) <- readi_loop (Z.to_nat n) ip dst off n 0;
    ret (i32 tot, bytes).

(** The loop of [writei], which returns [tot] and [off].  When the copy from
    user memory fails, the bytes of the pages before the fault are in the
    buffer already. *)
Fixpoint writei_loop (fuel : nat) (ip : Z) (src : source) (off n tot : Z) : M fs (Z * Z) :=
  if tot <? n then
    match fuel with
    | O => out_of_fuel
    | S f =>
        do addr <- bmap ip (off / BSIZE);
        if addr =? 0 then ret (tot, off)
        else
          do x <- the_inode ip;
          do bp <- bread_ (i_dev x) addr;
          let m := Z.min (n - tot) (BSIZE - off mod BSIZE) in
          do '(r, bytes) <- either_copyin src m;
          do! put_bdata bp (fun d => store_bytes d (off mod BSIZE) bytes);
          if r =? -1 then do! brelse_ bp; ret (tot, off)
          else
            do! log_write_ bp;
            do! brelse_ bp;
            writei_loop f ip (source_add src m) (u32 (off + m)) n (tot + m)
    end
  else ret (tot, off).
Definition writei (ip : Z) (src : source) (off n : Z) : M fs Z :=
  do x <- the_inode ip;
  if (i_size x <? off) || (u32 (off + n) <? off) then ret (-1)
  else if MAXFILE * BSIZE <? u32 (off + n) then ret (-1)
  else
    do '(tot, off) <- writei_loop (Z.to_nat n) ip src off n 0;
    do x <- the_inode ip;
    do! (if i_size x <? off then upd_inode ip (set_isize off) else ret tt);
    do! iupdate ip;
    ret (i32 tot).

(** ** Directories *)

(** A string or a field of bytes as memory. *)
Definition bytes_mem (l : list Z) : mem := store_bytes (fun _ => 0) 0 l.

Definition namecmp (s t : list Z) : Z := strncmp (bytes_mem s) 0 (bytes_mem t) 0 DIRSIZ.

Definition de_inum (de : list Z) : Z := ld16 (bytes_mem de) 0.
Definition de_name (de : list Z) : list Z := drop 2 de.

(** The result is the entry of the inode table with the offset of the
    directory entry. *)
Fixpoint dirlookup_loop (fuel : nat) (dp : Z) (name : list Z) (off : Z) : M fs (option (Z * Z)) :=
  do x <- the_inode dp;
  if off <? i_size x then
    match fuel with
    | O => out_of_fuel
    | S f =>
        do '(r, de) <- readi dp LocalDst off sizeof_dirent;
        if negb (r =? sizeof_dirent) then panic "dirlookup read"
        else if de_inum de =? 0 then dirlookup_loop f dp name (u32 (off + sizeof_dirent))
        else if namecmp name (de_name de) =? 0 then
          do ip <- iget (i_dev x) (de_inum de);
          ret (Some (ip, off))
        else dirlookup_loop f dp name (u32 (off + sizeof_dirent))
    end
  else ret None.
Definition dirlookup (dp : Z) (name : list Z) : M fs (option (Z * Z)) :=
  do x <- the_inode dp;
  if negb (i_type x =? T_DIR) then panic "dirlookup not DIR"
  else dirlookup_loop (Z.to_nat (i_size x / sizeof_dirent + 1)) dp name 0.

(** The offset of the first empty entry, or the end of the directory. *)
Fixpoint dirlink_loop (fuel : nat) (dp off : Z) : M fs Z :=
  do x <- the_inode dp;
  if off <? i_size x then
    match fuel with
    | O => out_of_fuel
    | S f =>
        do '(r, de) <- readi dp LocalDst off sizeof_dirent;
        if negb (r =? sizeof_dirent) then panic "dirlink read"
        else if de_inum de =? 0 then ret off
        else dirlink_loop f dp (off + sizeof_dirent)
    end
  else ret off.
(** strncpy(de.name, name, DIRSIZ); de.inum = inum; *)
Definition make_dirent (name : list Z) (inum : Z) : list Z :=
  load_bytes (st16 (fun _ => 0) 0 inum) 0 2 ++
  load_bytes (strncpy (fun _ => 0) 0 (bytes_mem name) 0 DIRSIZ) 0 DIRSIZ.
Definition dirlink (dp : Z) (name : list Z) (inum : Z) : M fs Z :=
  do r <- dirlookup dp name;
  match r with
  | Some (ip, _) => do! iput ip; ret (-1)
  | None =>
      do x <- the_inode dp;
      do off <- dirlink_loop (Z.to_nat (i_size x / sizeof_dirent + 1)) dp 0;
      do r <- writei dp (LocalSrc (make_dirent name inum)) off sizeof_dirent;
      if negb (r =? sizeof_dirent) then ret (-1) else ret 0
  end.

(** ** Paths *)

Definition slash : Z := 47.

(** while( *path == '/') path++; *)
Fixpoint skip_slashes (path : list Z) : list Z :=
  match path with
  | c :: p => if c =? slash then skip_slashes p else path
  | [] => []
  end.
(** while( *path != '/' && *path != 0) path++; the element and the rest. *)
Fixpoint span_elem (path : list Z) : list Z * list Z :=
  match path with
  | c :: p => if c =? slash then ([], path) else let '(e, r) := span_elem p in (c :: e, r)
  | [] => ([], [])
  end.
(** The rest of the path and the new contents of [name], a buffer of DIRSIZ
    bytes; [None] for the null pointer. *)
Definition skipelem (path name : list Z) : option (list Z * list Z) :=
  let path := skip_slashes path in
  match path with
  | [] => None
  | _ =>
      let '(s, path) := span_elem path in
      let len := length s in
      let name :=
        if (Z.to_nat DIRSIZ <=? len)%nat then take (Z.to_nat DIRSIZ) s
        else s ++ [0] ++ drop (len + 1) name in
      Some (skip_slashes path, name)
  end.

(** The loop of [namex]; every iteration consumes an element of the path. *)
Fixpoint namex_loop (fuel : nat) (ip : Z) (path name : list Z) (nameiparent : bool)
    : M fs (option Z * list Z) :=
  match skipelem path name with
  | None =>
      if nameiparent then do! iput ip; ret (None, name) else ret (Some ip, name)
  | Some (path, name) =>
      match fuel with
      | O => out_of_fuel
      | S f =>
          do! ilock ip;
          do x <- the_inode ip;
          if negb (i_type x =? T_DIR) then do! iunlockput ip; ret (None, name)
          else if nameiparent && bool_decide (path = []) then do! iunlock ip; ret (Some ip, name)
          else
            do r <- dirlookup ip name;
            match r with
            | None => do! iunlockput ip; ret (None, name)
            | Some (next, _) => do! iunlockput ip; namex_loop f next path name nameiparent
            end
      end
  end.
Definition namex (path : list Z) (nameiparent : bool) (name : list Z) : M fs (option Z * list Z) :=
  do ip <- (if hd 0 path =? slash then iget ROOTDEV ROOTINO
            else do c <- gets cwd; idup c);
  namex_loop (length path) ip path name nameiparent.

Definition namei (path : list Z) : M fs (option Z) :=
  do '(ip, _) <- namex path false (repeat 0 (Z.to_nat DIRSIZ)); ret ip.
Definition nameiparent (path name : list Z) : M fs (option Z * list Z) := namex path true name.
