(* ===== verification/FsTx.v ===== *)
(** * Blocks inside a transaction: rules for file-system code

    The file system works on blocks through [bread], changes of [bp->data],
    [log_write] and [brelse].  [tx] is the state of the layers below during a
    transaction, seen from the file system: the current contents of blocks,
    the blocks it has locked, those it has changed and not yet logged, and
    the room left in the log.  The rules below are all that the proofs of
    the file system use of these layers. *)

From stdpp Require Import functions.
From S2P Require Import Prelude Mem Riscv Kalloc Sleeplock Bio BioSpec Log LogSpec Fs.

(** Two states that agree on everything above the log. *)
Definition same_top (s s' : fs) : Prop :=
  sb s' = sb s ∧ itab s' = itab s ∧ fkmem s' = fkmem s ∧ upt s' = upt s ∧ cwd s' = cwd s ∧
  mypid (lbio (flog s')) = mypid (lbio (flog s)).

Lemma same_top_refl s : same_top s s.
Proof. repeat split. Qed.
Lemma same_top_trans s1 s2 s3 : same_top s1 s2 → same_top s2 s3 → same_top s1 s3.
Proof. unfold same_top. intuition congruence. Qed.

(** Chains of steps. *)
Ltac top := repeat first [apply same_top_refl | eassumption | eapply same_top_trans; [eassumption|]].

Section fstx.
Context (d st sz : Z).
Context (Hsz : 1 ≤ sz ≤ LOGSIZE).

(** [held]: locked blocks; [dirty]: those changed but not logged; [L]: blocks
    known to be in the log; [cur]: the contents of blocks; [room]: a lower
    bound of how many more blocks fit in the log. *)
Record tx (s : fs) (held dirty L : list Z) (cur : Z → block) (room : Z) : Prop := {
  t_cache : cache d (lbio (flog s)) held (logged (lg (flog s))) cur;
  t_log : log_ok d st sz (lg (flog s));
  t_open : 1 ≤ outstanding (lg (flog s));
  t_room : room ≤ sz - 1 - lh_n (lg (flog s));
  t_logged : ∀ bn, bn ∈ L → bn ∈ logged (lg (flog s));
  t_clean : ∀ bn, bn ∈ held → bn ∉ dirty →
    bn ∈ logged (lg (flog s)) ∨ cur bn = blocks (dsk (lbio (flog s))) bn
}.

Definition at_buf (s : fs) (bp bn : Z) : Prop := is_buf d (lbio (flog s)) bp bn.

Lemma wp_on_log {A} (c : M lstate A) Q s :
  wp c (fun a l => Q a (mk_fs l (sb s) (itab s) (fkmem s) (upt s) (cwd s))) (flog s) →
  wp (on_log c) Q s.
Proof. apply (wp_lift flog (fun s l => mk_fs l (sb s) (itab s) (fkmem s) (upt s) (cwd s))). Qed.

Lemma tx_weaken s held dirty L L' cur r r' :
  tx s held dirty L cur r → (∀ b, b ∈ L' → b ∈ L) → r' ≤ r → tx s held dirty L' cur r'.
Proof. intros [? ? ? ? ? ?] ? ?. split; auto. lia. Qed.

(** Logging a block that is in the log already takes no room. *)
Definition cost (L : list Z) (bn : Z) : Z := if decide (bn ∈ L) then 0 else 1.

Lemma cost_range L bn : 0 ≤ cost L bn ≤ 1.
Proof. unfold cost. case_decide; lia. Qed.

Lemma wp_on_log_bio {A} (c : M bio A) Q s :
  preserves mypid c →
  wp c (fun a b => ∀ s', same_top s s' → lg (flog s') = lg (flog s) → lbio (flog s') = b → Q a s')
     (lbio (flog s)) →
  wp (on_log (on_bio c)) Q s.
Proof.
  intros Hp Hw. apply wp_on_log, wp_on_bio. apply (wp_frame mypid) in Hw; [|done].
  eapply wp_mono; [exact Hw|]. intros a b [HQ Hm]. apply HQ; [|done..].
  repeat split; try done.
Qed.

(** Steps that lock no block and unlock none keep buffers in their places. *)
Definition keep_bufs (s s' : fs) : Prop := ∀ j b, at_buf s j b → at_buf s' j b.

Lemma bread_tx s held dirty L cur r bn :
  tx s held dirty L cur r → Z.of_nat (length held) ≤ r → 0 ≤ bn < 2 ^ 31 → bn ∉ held →
  wp (bread_ d bn) (fun bp s' => tx s' (bn :: held) dirty L cur r ∧ at_buf s' bp bn ∧
    (∀ j b, b ∈ held → at_buf s j b → at_buf s' j b) ∧ same_top s s') s.
Proof.
  intros Ht Hr Hbn Hh. pose proof (log_ok_n _ _ _ Hsz _ (t_log _ _ _ _ _ _ Ht)) as [Hn _].
  pose proof (t_room _ _ _ _ _ _ Ht) as Hroom.
  apply wp_on_log_bio; [auto with frame|]. eapply wp_mono.
  { apply (bread_spec d _ held (logged (lg (flog s))) cur bn (t_cache _ _ _ _ _ _ Ht) Hbn Hh). right.
    unfold logged. pose proof (logged_length (lg (flog s)) 0 ltac:(lia)) as Hlen.
    unfold NBUF, LOGSIZE, MAXOPBLOCKS in *. lia. }
  intros bp b (Hc & Hi & Hst & Hd) s' Hs Hl Hb. unfold at_buf. rewrite Hb.
  split; [|split; [done|split; [|done]]].
  - destruct Ht as [Htc Htl Hto Htr HtL Htcl]. split; rewrite ?Hb, ?Hl; try done.
    intros b' [->|Hb']%elem_of_cons Hnd; [|rewrite Hd; by apply Htcl].
    destruct (decide (bn ∈ logged (lg (flog s)))); [by left|right].
    rewrite Hd. by apply (c_clean _ _ _ _ _ Htc).
  - intros j b' Hb' Hj. apply Hst; [by left|done].
Qed.

Lemma bdata_tx s held dirty L cur r bp bn :
  tx s held dirty L cur r → at_buf s bp bn → bn ∈ held →
  wp (bdata bp) (fun v s' => v = cur bn ∧ s' = s) s.
Proof.
  intros Ht Hb Hh. apply wp_on_log, wp_gets.
  split; [by apply (cache_data d _ held _ _ bp bn (t_cache _ _ _ _ _ _ Ht))|by destruct s].
Qed.

Lemma put_tx s held dirty L cur r bp bn f :
  tx s held dirty L cur r → at_buf s bp bn → bn ∈ held →
  wp (put_bdata bp f) (fun _ s' => tx s' held (bn :: dirty) L (<[bn := f (cur bn)]> cur) r ∧
    keep_bufs s s' ∧ same_top s s') s.
Proof.
  intros Ht Hb Hh. apply wp_on_log_bio; [auto with frame|]. eapply wp_mono.
  { apply (set_data_spec d _ held _ cur bp bn f (t_cache _ _ _ _ _ _ Ht) Hb Hh). }
  intros ? b (Hc & Hst & Hd) s' Hs Hl Hbio. unfold keep_bufs, at_buf. rewrite Hbio.
  split; [|done]. destruct Ht as [Htc Htl Hto Htr HtL Htcl]. split; rewrite ?Hbio, ?Hl; try done.
  intros b' Hb' [Hne Hnd]%not_elem_of_cons. rewrite Hd, fn_lookup_insert_ne by done. by apply Htcl.
Qed.

Lemma log_write_tx s held dirty L cur r bp bn dirty' :
  tx s held dirty L cur r → at_buf s bp bn → bn ∈ held → home st sz bn → 1 ≤ r →
  (∀ b, b ∈ dirty → b = bn ∨ b ∈ dirty') →
  wp (log_write_ bp) (fun _ s' => tx s' held dirty' (bn :: L) cur (r - cost L bn) ∧ keep_bufs s s' ∧ same_top s s') s.
Proof.
  intros Ht Hb Hh Hbh Hr Hdirty. apply wp_on_log. destruct Ht as [Htc Htl Hto Htr HtL Htcl].
  eapply wp_mono.
  { apply (wp_frame log_pid); [apply log_write_pid|].
    apply (log_write_spec d st sz Hsz (flog s) held cur bp bn); try done; lia. }
  intros ? t [(l' & Hg & Hc & Hl & Hin & Hn & Ho & Hcm & Hst & Hd) Hpid]. unfold log_pid in Hpid.
  split; [|split; [done|]].
  - split; cbn [flog]; rewrite ?Hg; try done; [lia| | |].
    + rewrite Hn. unfold cost. specialize (HtL bn). do 2 case_decide; try lia. tauto.
    + intros b [->|Hb']%elem_of_cons; apply Hin; [by left|right; by apply HtL].
    + intros b Hb' Hnd. destruct (decide (b = bn)) as [->|Hne]; [left; apply Hin; by left|].
      rewrite Hd. destruct (Htcl b Hb') as [Hlg|Hcl].
      * intros Hx. destruct (Hdirty b Hx); done.
      * left. apply Hin. by right.
      * by right.
  - repeat split; try done.
Qed.

Lemma brelse_tx s held dirty L cur r bp bn :
  tx s (bn :: held) dirty L cur r → at_buf s bp bn → bn ∉ dirty →
  wp (brelse_ bp) (fun _ s' => tx s' held dirty L cur r ∧ keep_bufs s s' ∧ same_top s s') s.
Proof.
  intros Ht Hb Hnd. apply wp_on_log_bio; [auto with frame|].
  destruct Ht as [Htc Htl Hto Htr HtL Htcl]. eapply wp_mono.
  { apply (brelse_spec d _ held _ cur bp bn Htc Hb). apply Htcl; [by left|done]. }
  intros ? b (Hc & Hst & Hd) s' Hs Hl Hbio. unfold keep_bufs, at_buf. rewrite Hbio.
  split; [|done]. split; rewrite ?Hbio, ?Hl, ?Hd; try done.
  intros b' Hb' Hnd'. apply Htcl; [by right|done].
Qed.

(** bread, change the data, log_write, brelse. *)
Lemma update_tx s held L cur r bn f :
  tx s held [] L cur r → Z.of_nat (length held) ≤ r → 1 ≤ r → home st sz bn → bn ∉ held →
  wp (do bp <- bread_ d bn; do! put_bdata bp f; do! log_write_ bp; brelse_ bp)
     (fun _ s' => tx s' held [] (bn :: L) (<[bn := f (cur bn)]> cur) (r - cost L bn) ∧
        (∀ j b, b ∈ held → at_buf s j b → at_buf s' j b) ∧ same_top s s') s.
Proof.
  intros Ht Hr Hr1 Hbn Hh. apply wp_bind. eapply wp_mono; [apply bread_tx; try done; apply Hbn|].
  intros bp s1 (Ht1 & Hb1 & Hk1 & Hs1). apply wp_bind.
  eapply wp_mono; [apply (put_tx s1 _ _ _ _ _ bp bn f Ht1 Hb1); by left|].
  intros ? s2 (Ht2 & Hk2 & Hs2). apply wp_bind. eapply wp_mono.
  { apply (log_write_tx s2 _ _ _ _ _ bp bn [] Ht2 (Hk2 _ _ Hb1)); [by left|done..|].
    intros b ->%list_elem_of_singleton. by left. }
  intros ? s3 (Ht3 & Hk3 & Hs3). eapply wp_mono.
  { apply (brelse_tx s3 held [] _ _ _ bp bn Ht3); [by apply Hk3, Hk2|apply not_elem_of_nil]. }
  intros ? s4 (Ht4 & Hk4 & Hs4). split; [done|]. split.
  - intros j b Hb Hj. by apply Hk4, Hk3, Hk2, Hk1.
  - top.
Qed.

End fstx.

(** A system call that has just begun, on a clean cache: the current contents
    are those on disk. *)
Lemma fresh_tx d st sz D B it m pt dir :
  d ≠ 0 → 1 ≤ sz → ∃ s, tx d st sz s [] [] [] D (sz - 1) ∧ sb s = B ∧ itab s = it ∧
    fkmem s = m ∧ upt s = pt ∧ cwd s = dir.
Proof.
  intros Hd Hsz.
  destruct (proj1 (wp_ok _ _ _) (binit_cache d (mk_bio (fun _ => zero_buf) (mk_disk D []) 1) Hd
    ltac:(done))) as ([] & b & _ & Hc & Hdsk).
  exists (mk_fs (mk_lstate b (set_outstanding 1 (mk_log st sz 0 false d 0 (fun _ => 0)))) B it m pt dir).
  split; [|done]. split; cbn; try done; try lia.
  split; cbn; try done; try lia. constructor.
Qed.

