(* ===== verification/FsBlock.v ===== *)
(** * Allocation of disk blocks (kernel/fs.c: bzero, balloc, bfree): theorems

    The bitmap on disk is the set of blocks in use.  [balloc] takes a block
    that was not in use, [bfree] gives one back, and neither touches anything
    else but the contents of the block that [balloc] returns. *)

From stdpp Require Import functions.
From S2P Require Import Prelude Mem Riscv Kalloc Sleeplock Bio BioSpec Log LogSpec Fs FsTx.

(** ** Bits *)

Lemma bit_mask_testbit bi k : 0 ≤ k → Z.testbit (bit_mask bi) k = (k =? bi mod 8).
Proof.
  intros Hk. unfold bit_mask. assert (0 ≤ bi mod 8 < 8) as Hm by zdm.
  rewrite Z.shiftl_spec by done. destruct (Z.eqb_spec k (bi mod 8)) as [->|Hne].
  - by rewrite Z.sub_diag.
  - destruct (decide (k < bi mod 8)); [by rewrite Z.testbit_neg_r by lia|].
    apply Z.bits_above_log2; cbn; lia.
Qed.

Lemma bit_set_testbit (b : block) bi :
  bit_set b bi = Z.testbit (ld8 b (bi / 8)) (bi mod 8).
Proof.
  unfold bit_set. assert (0 ≤ bi mod 8 < 8) as Hm by zdm.
  destruct (Z.testbit (ld8 b (bi / 8)) (bi mod 8)) eqn:E.
  - apply negb_true_iff, Z.eqb_neq. intros H0.
    apply (f_equal (fun x => Z.testbit x (bi mod 8))) in H0.
    rewrite Z.land_spec, E, bit_mask_testbit, Z.eqb_refl, Z.testbit_0_l in H0 by lia. done.
  - apply negb_false_iff, Z.eqb_eq. apply Z.bits_inj'. intros k Hk.
    rewrite Z.land_spec, bit_mask_testbit, Z.testbit_0_l by done.
    destruct (Z.eqb_spec k (bi mod 8)) as [->|]; [by rewrite E|apply andb_false_r].
Qed.

(** A byte of the bitmap replaced by one whose bits are [g]. *)
Lemma bit_set_st8 (b : block) v g bi bj :
  0 ≤ bi → 0 ≤ bj → (∀ k, 0 ≤ k < 8 → Z.testbit v k = g k) →
  bit_set (st8 b (bi / 8) v) bj = if bj / 8 =? bi / 8 then g (bj mod 8) else bit_set b bj.
Proof.
  intros Hi Hj Hg. rewrite !bit_set_testbit. destruct (Z.eqb_spec (bj / 8) (bi / 8)) as [->|Hne].
  - rewrite ld8_st8_eq. change 256 with (2 ^ 8). rewrite Z.mod_pow2_bits_low by zdm. apply Hg. zdm.
  - by rewrite ld8_st8_ne.
Qed.

Lemma bit_set_mark (b : block) bi bj :
  0 ≤ bi → 0 ≤ bj →
  bit_set (st8 b (bi / 8) (Z.lor (ld8 b (bi / 8)) (bit_mask bi))) bj = (bj =? bi) || bit_set b bj.
Proof.
  intros Hi Hj. rewrite (bit_set_st8 b _ (fun k => Z.testbit (ld8 b (bi / 8)) k || (k =? bi mod 8)))
    by (done || (intros k Hk; rewrite Z.lor_spec, bit_mask_testbit by lia; done)).
  destruct (Z.eqb_spec (bj / 8) (bi / 8)) as [E|E].
  - rewrite <- E, <- bit_set_testbit.
    destruct (Z.eqb_spec bj bi), (Z.eqb_spec (bj mod 8) (bi mod 8));
      rewrite ?orb_true_r, ?orb_false_r; cbn; try done; exfalso; zdm.
  - destruct (Z.eqb_spec bj bi) as [->|]; done.
Qed.

Lemma bit_set_clear (b : block) bi bj :
  0 ≤ bi → 0 ≤ bj →
  bit_set (st8 b (bi / 8) (Z.land (ld8 b (bi / 8)) (u8 (Z.lnot (bit_mask bi))))) bj
  = negb (bj =? bi) && bit_set b bj.
Proof.
  intros Hi Hj.
  rewrite (bit_set_st8 b _ (fun k => Z.testbit (ld8 b (bi / 8)) k && negb (k =? bi mod 8))); try done.
  2: { intros k Hk. unfold u8. rewrite Z.land_spec, Z.mod_pow2_bits_low by lia.
       by rewrite Z.lnot_spec, bit_mask_testbit by lia. }
  destruct (Z.eqb_spec (bj / 8) (bi / 8)) as [E|E].
  - rewrite <- E, <- bit_set_testbit.
    destruct (Z.eqb_spec bj bi), (Z.eqb_spec (bj mod 8) (bi mod 8));
      rewrite ?andb_true_r, ?andb_false_r; cbn; try done; exfalso; zdm.
  - destruct (Z.eqb_spec bj bi) as [->|]; done.
Qed.

Lemma balloc_scan_spec fuel bi b size (d : block) :
  BPB - bi ≤ Z.of_nat fuel →
  match balloc_scan fuel bi b size d with
  | Some bi' => bi ≤ bi' < BPB ∧ b + bi' < size ∧ bit_set d bi' = false ∧
                ∀ j, bi ≤ j < bi' → bit_set d j = true
  | None => ∀ j, bi ≤ j < BPB → b + j < size → bit_set d j = true
  end.
Proof.
  revert bi; induction fuel as [|f IH]; intros bi Hf; cbn [balloc_scan].
  { intros. lia. }
  case_test; [|intros j; lia..]. case_test; [split; [lia|]; do 2 (split; [done|]); intros; lia|]. specialize (IH (bi + 1) ltac:(lia)).
  destruct (balloc_scan f (bi + 1) b size d) as [bi'|].
  - destruct IH as (H1 & H2 & H3 & H4). split; [lia|]. do 2 (split; [done|]).
    intros j Hj. destruct (decide (j = bi)) as [->|]; [done|]. apply H4. lia.
  - intros j Hj Hs. destruct (decide (j = bi)) as [->|]; [done|]. apply IH; lia.
Qed.

(** ** Layout of the disk

    [ boot block | super block | log | inode blocks | free bit map | data blocks ] *)
Section layout.
Context (B : superblock).

Definition datastart : Z := sb_bmapstart B + ((sb_size B - 1) / BPB + 1).

Record layout_ok : Prop := {
  l_log : 2 ≤ sb_logstart B ∧ 1 ≤ sb_nlog B ≤ LOGSIZE ∧
          sb_logstart B + sb_nlog B ≤ sb_inodestart B;
  l_inodes : 1 ≤ sb_ninodes B ∧ sb_inodestart B + sb_ninodes B / IPB + 1 ≤ sb_bmapstart B;
  l_data : datastart ≤ sb_size B < 2 ^ 31
}.

Definition is_iblock (bn : Z) : Prop := sb_inodestart B ≤ bn < sb_bmapstart B.
Definition is_bitmap (bn : Z) : Prop := sb_bmapstart B ≤ bn < datastart.
Definition is_data (bn : Z) : Prop := datastart ≤ bn < sb_size B.

(** The block [b] is marked as in use. *)
Definition used (cur : Z → block) (b : Z) : bool := bit_set (cur (BBLOCK b B)) (b mod BPB).

(** All blocks but data blocks are marked. *)
Definition meta_used (cur : Z → block) : Prop :=
  ∀ b, 0 ≤ b < datastart → used cur b = true.
End layout.

Section blocks.
Context (d : Z) (B : superblock) (HB : layout_ok B).
#[local] Abbreviation st := (sb_logstart B).
#[local] Abbreviation sz := (sb_nlog B).
#[local] Abbreviation tx := (tx d st sz).
#[local] Abbreviation at_buf := (at_buf d).

Lemma layout_sz : 1 ≤ sz ≤ LOGSIZE.
Proof. apply HB. Qed.

Lemma layout_home bn : sb_inodestart B ≤ bn < sb_size B → home st sz bn.
Proof. intros Hb. destruct HB as [(? & ? & ?) [? ?] [? ?]]. unfold home, in_log. lia. Qed.

Lemma size_pos : 0 < sb_bmapstart B ∧ 0 < sb_size B ∧ sb_inodestart B < sb_bmapstart B.
Proof.
  destruct HB as [(? & ? & ?) [? ?] [? ?]]. unfold datastart in *. unfold IPB in *.
  change (BSIZE / sizeof_dinode) with 16 in *. change BPB with 8192 in *. zdm.
Qed.

Lemma BBLOCK_eq b :
  0 ≤ b < sb_size B → BBLOCK b B = b / BPB + sb_bmapstart B ∧ is_bitmap B (BBLOCK b B).
Proof.
  intros Hb. destruct HB as [_ _ [? ?]]. pose proof size_pos as (? & ? & ?).
  assert (b / BPB + sb_bmapstart B < datastart B) by (unfold datastart; change BPB with 8192; zdm).
  assert (0 ≤ b / BPB) by (change BPB with 8192; zdm).
  unfold BBLOCK. rewrite u32_small by lia. unfold is_bitmap. lia.
Qed.

Lemma data_home b : is_data B b → home st sz b.
Proof. intros Hb. apply layout_home. pose proof size_pos. unfold is_data, datastart in *.
  assert (0 ≤ (sb_size B - 1) / BPB) by (change BPB with 8192; zdm). lia. Qed.

Lemma bitmap_home b : is_bitmap B b → home st sz b.
Proof.
  intros Hb. apply layout_home. pose proof size_pos. destruct HB as [_ _ [? ?]].
  unfold is_bitmap in *. lia.
Qed.

Lemma data_not_bitmap b b' : is_data B b → is_bitmap B b' → b ≠ b'.
Proof. unfold is_data, is_bitmap. lia. Qed.

(** Bits of a bitmap block, changed by [f] at the bit of [b]. *)
Lemma used_upd cur b b' f (v : bool) :
  0 ≤ b < sb_size B → 0 ≤ b' < sb_size B →
  (∀ bj, 0 ≤ bj → bit_set (f (cur (BBLOCK b B))) bj =
     if bj =? b mod BPB then v else bit_set (cur (BBLOCK b B)) bj) →
  used B (<[BBLOCK b B := f (cur (BBLOCK b B))]> cur) b' = if b' =? b then v else used B cur b'.
Proof.
  intros Hb Hb' Hf. unfold used. destruct (BBLOCK_eq b Hb) as [E _], (BBLOCK_eq b' Hb') as [E' _].
  assert (0 ≤ b' mod BPB) by (change BPB with 8192; zdm).
  destruct (decide (BBLOCK b B = BBLOCK b' B)) as [Heq|Hne].
  - rewrite <- Heq, fn_lookup_insert, Hf by done.
    destruct (Z.eqb_spec (b' mod BPB) (b mod BPB)), (Z.eqb_spec b' b); try done; exfalso;
      change BPB with 8192 in *; subst; try done; zdm.
  - rewrite fn_lookup_insert_ne by done. destruct (Z.eqb_spec b' b) as [->|]; done.
Qed.

(** Blocks other than bitmap blocks do not matter for [used]. *)
Lemma used_ext cur cur' b :
  0 ≤ b < sb_size B → (∀ bn, is_bitmap B bn → cur' bn = cur bn) → used B cur' b = used B cur b.
Proof. intros Hb Hc. unfold used. rewrite Hc; [done|]. by apply BBLOCK_eq. Qed.

(** Locked blocks that allocation does not touch: no bitmap blocks, and data
    blocks only if they are in use. *)
Definition held_ok (cur : Z → block) (held : list Z) : Prop :=
  ∀ x, x ∈ held → ¬ is_bitmap B x ∧ (is_data B x → used B cur x = true).

(** [cur'] is [cur] with the block [b] marked and zeroed. *)
Definition allocated (cur : Z → block) (b : Z) (cur' : Z → block) : Prop :=
  (∀ x, 0 ≤ x < sb_size B → used B cur' x = (x =? b) || used B cur x) ∧
  (∀ a, 0 ≤ a < BSIZE → ld8 (cur' b) a = 0) ∧
  (∀ bn, bn ≠ b → ¬ is_bitmap B bn → cur' bn = cur bn).

Definition keep_held (held : list Z) (s s' : fs) : Prop :=
  ∀ j x, x ∈ held → at_buf s j x → at_buf s' j x.

Lemma bzero_spec s held L cur r bno :
  tx s held [] L cur r → Z.of_nat (length held) ≤ r → 1 ≤ r → home st sz bno → bno ∉ held →
  wp (bzero d bno) (fun _ s' => tx s' held [] (bno :: L) (<[bno := fill (cur bno) 0 0 BSIZE]> cur)
      (r - cost L bno) ∧
    keep_held held s s' ∧ same_top s s') s.
Proof.
  intros. by apply (update_tx d st sz layout_sz s held L cur r bno (fun x => fill x 0 0 BSIZE)).
Qed.

Definition balloc_post (s : fs) (held L : list Z) (cur : Z → block) (r b : Z) (s' : fs) : Prop :=
  same_top s s' ∧ keep_held held s s' ∧
  ((b = 0 ∧ tx s' held [] L cur r ∧ ∀ x, 0 ≤ x < sb_size B → used B cur x = true) ∨
   (is_data B b ∧ used B cur b = false ∧
    ∃ cur', tx s' held [] (b :: BBLOCK b B :: L) cur' (r - cost L (BBLOCK b B) - 1) ∧
      allocated cur b cur')).

Lemma balloc_loop_spec fuel s held L cur r b :
  tx s held [] L cur r → sb s = B → 2 ≤ r → Z.of_nat (length held) + 1 ≤ r →
  meta_used B cur → held_ok cur held → 0 ≤ b → b mod BPB = 0 →
  (∀ x, 0 ≤ x < b → x < sb_size B → used B cur x = true) →
  sb_size B - b ≤ Z.of_nat fuel * BPB →
  wp (balloc_loop fuel d b) (balloc_post s held L cur r) s.
Proof.
  revert s b; induction fuel as [|f IH]; intros s b Ht Hsb Hr Hlen Hmeta Hheld Hb Hal Hbefore Hfuel;
    cbn [balloc_loop]; apply wp_bind, wp_gets; rewrite Hsb;
    (case_test; [|apply wp_ret; split; [apply same_top_refl|]; split; [by intros ? ?|];
       left; split; [done|]; split; [done|]; intros x Hx; apply Hbefore; lia]); [lia|].
  assert (Hbr : 0 ≤ b < sb_size B) by lia. destruct (BBLOCK_eq b Hbr) as [HE Hbm].
  pose proof (bitmap_home _ Hbm) as Hbh.
  assert (Hnh : BBLOCK b B ∉ held) by (intros Hx; by apply Hheld in Hx as [? _]).
  apply wp_bind. eapply wp_mono.
  { apply (bread_tx d st sz layout_sz s held [] L cur r); [done|lia|apply Hbh|done]. }
  intros bp s1 (Ht1 & Hb1 & Hk1 & Hs1). apply wp_bind.
  eapply wp_mono; [apply (bdata_tx d st sz s1 _ _ _ _ _ bp _ Ht1 Hb1); by left|].
  intros dat s1' [-> ->]. assert (HBPB : BPB = 8192) by done.
  pose proof (balloc_scan_spec (Z.to_nat BPB) 0 b (sb_size B) (cur (BBLOCK b B)) ltac:(lia)) as Hscan.
  assert (Husd : ∀ j, 0 ≤ j < BPB → b + j < sb_size B →
            BBLOCK (b + j) B = BBLOCK b B ∧ (b + j) mod BPB = j).
  { intros j Hj Hj'. destruct (BBLOCK_eq (b + j)) as [-> _]; [lia|]. rewrite HE, HBPB in *. zdm. }
  destruct (balloc_scan _ 0 b (sb_size B) _) as [bi|].
  - destruct Hscan as (Hbi & Hbis & Hclear & _). destruct (Husd bi Hbi Hbis) as [HEb Hmod].
    assert (Hunused : used B cur (b + bi) = false) by (unfold used; by rewrite HEb, Hmod).
    assert (Hdata : is_data B (b + bi)).
    { unfold is_data. split; [|done]. destruct (decide (datastart B ≤ b + bi)); [done|].
      exfalso. rewrite Hmeta in Hunused; [done|lia]. }
    apply wp_bind. eapply wp_mono; [apply (put_tx d st sz s1 _ _ _ _ _ bp _ _ Ht1 Hb1); by left|].
    intros ? s2 (Ht2 & Hk2 & Hs2). apply wp_bind. eapply wp_mono.
    { apply (log_write_tx d st sz layout_sz s2 _ _ _ _ _ bp _ [] Ht2 (Hk2 _ _ Hb1)); [by left|done|lia|].
      intros x ->%list_elem_of_singleton. by left. }
    intros ? s3 (Ht3 & Hk3 & Hs3). pose proof (cost_range L (BBLOCK b B)) as Hcost.
    apply wp_bind. eapply wp_mono.
    { apply (brelse_tx d st sz s3 held [] _ _ _ bp _ Ht3); [by apply Hk3, Hk2|apply not_elem_of_nil]. }
    intros ? s4 (Ht4 & Hk4 & Hs4). apply wp_bind. eapply wp_mono.
    { apply (bzero_spec s4 held _ _ _ (b + bi) Ht4); [lia|lia|by apply data_home|].
      intros Hx. apply Hheld in Hx as [_ Hx]. rewrite Hx in Hunused; done. }
    intros ? s5 (Ht5 & Hk5 & Hs5). apply wp_ret. split; [top|].
    split; [intros j x Hx Hj; by apply Hk5, Hk4, Hk3, Hk2, Hk1|].
    right. do 2 (split; [done|]). eexists. split.
    { rewrite HEb. apply (tx_weaken _ _ _ _ _ _ _ _ _ _ _ Ht5); [done|]. unfold cost. do 2 case_decide; lia. }
    assert (HneB : b + bi ≠ BBLOCK b B) by (by apply data_not_bitmap).
    split; [|split].
    + intros x Hx. etrans.
      * apply (used_ext (<[BBLOCK b B := st8 (cur (BBLOCK b B)) (bi / 8)
          (Z.lor (ld8 (cur (BBLOCK b B)) (bi / 8)) (bit_mask bi))]> cur) _ x Hx).
        intros bn Hbn. apply fn_lookup_insert_ne. by apply data_not_bitmap.
      * pose proof (used_upd cur (b + bi) x (fun dd => st8 dd (bi / 8)
          (Z.lor (ld8 dd (bi / 8)) (bit_mask bi))) true ltac:(lia) Hx) as Hup.
        rewrite HEb, Hmod in Hup. etrans; [apply Hup|by destruct (x =? b + bi)].
        intros bj Hbj. rewrite bit_set_mark by lia. by destruct (bj =? bi).
    + intros o Ho. rewrite fn_lookup_insert. by rewrite ld8_fill_in by lia.
    + intros bn Hne Hnb. rewrite !fn_lookup_insert_ne; [done|by intros <-|done].
  - apply wp_bind. eapply wp_mono.
    { apply (brelse_tx d st sz s1 held [] _ _ _ bp _ Ht1 Hb1), not_elem_of_nil. }
    intros ? s2 (Ht2 & Hk2 & Hs2). pose proof (same_top_trans _ _ _ Hs1 Hs2) as Hs12.
    eapply wp_mono.
    + apply (IH s2 (b + BPB) Ht2); try done; try lia.
      * destruct Hs12 as [-> _]. done.
      * rewrite HBPB in *. zdm.
      * intros x Hx Hxs. destruct (decide (x < b)); [apply Hbefore; lia|].
        destruct (Husd (x - b)) as [H1 H2]; [lia..|]. replace (b + (x - b)) with x in * by lia.
        unfold used. rewrite H1, H2. apply Hscan; lia.
    + intros b' s' (Hs' & Hk' & Hres). split; [top|].
      split; [|done]. intros j x Hx Hj. by apply Hk', Hk2, Hk1.
Qed.

Lemma balloc_spec s held L cur r :
  tx s held [] L cur r → sb s = B → 2 ≤ r → Z.of_nat (length held) + 1 ≤ r →
  meta_used B cur → held_ok cur held →
  wp (balloc d) (balloc_post s held L cur r) s.
Proof.
  intros Ht Hsb Hr Hlen Hmeta Hheld. unfold balloc. apply wp_bind, wp_gets. rewrite Hsb.
  pose proof size_pos as (_ & Hs & _). apply balloc_loop_spec; try done; try lia.
  change BPB with 8192. zdm.
Qed.

(** [cur'] is [cur] with the block [b] no longer marked. *)
Definition freed (cur : Z → block) (b : Z) (cur' : Z → block) : Prop :=
  (∀ x, 0 ≤ x < sb_size B → used B cur' x = negb (x =? b) && used B cur x) ∧
  (∀ bn, ¬ is_bitmap B bn → cur' bn = cur bn).

Lemma bfree_spec s held L cur r b :
  tx s held [] L cur r → sb s = B → 1 ≤ r → Z.of_nat (length held) ≤ r →
  (∀ x, x ∈ held → ¬ is_bitmap B x) → 0 ≤ b < sb_size B → used B cur b = true →
  wp (bfree d b) (fun _ s' => same_top s s' ∧ keep_held held s s' ∧
    ∃ cur', tx s' held [] (BBLOCK b B :: L) cur' (r - cost L (BBLOCK b B)) ∧ freed cur b cur') s.
Proof.
  intros Ht Hsb Hr Hlen Hheld Hb Hu. destruct (BBLOCK_eq b Hb) as [HE Hbm].
  pose proof (bitmap_home _ Hbm) as Hbh.
  assert (Hnh : BBLOCK b B ∉ held) by (intros Hx; by apply Hheld in Hx).
  unfold bfree. apply wp_bind, wp_gets. rewrite Hsb. apply wp_bind. eapply wp_mono.
  { apply (bread_tx d st sz layout_sz s held [] L cur r); [done|lia|apply Hbh|done]. }
  intros bp s1 (Ht1 & Hb1 & Hk1 & Hs1). cbv zeta. apply wp_bind.
  eapply wp_mono; [apply (bdata_tx d st sz s1 _ _ _ _ _ bp _ Ht1 Hb1); by left|].
  intros dat s1' [-> ->]. fold (used B cur b). rewrite Hu. cbn [negb].
  apply wp_bind. eapply wp_mono; [apply (put_tx d st sz s1 _ _ _ _ _ bp _ _ Ht1 Hb1); by left|].
  intros ? s2 (Ht2 & Hk2 & Hs2). apply wp_bind. eapply wp_mono.
  { apply (log_write_tx d st sz layout_sz s2 _ _ _ _ _ bp _ [] Ht2 (Hk2 _ _ Hb1)); [by left|done|lia|].
    intros x ->%list_elem_of_singleton. by left. }
  intros ? s3 (Ht3 & Hk3 & Hs3). eapply wp_mono.
  { apply (brelse_tx d st sz s3 held [] _ _ _ bp _ Ht3); [by apply Hk3, Hk2|apply not_elem_of_nil]. }
  intros ? s4 (Ht4 & Hk4 & Hs4). split; [top|].
  split; [intros j x Hx Hj; by apply Hk4, Hk3, Hk2, Hk1|]. eexists. split; [exact Ht4|]. split.
  - intros x Hx. assert (0 ≤ b mod BPB) by (change BPB with 8192; zdm).
    etrans; [apply (used_upd cur b x (fun dd => st8 dd (b mod BPB / 8) (Z.land (ld8 dd (b mod BPB / 8))
      (u8 (Z.lnot (bit_mask (b mod BPB)))))) false); [done|done|]|by destruct (x =? b)].
    intros bj Hbj. rewrite bit_set_clear by lia. by destruct (bj =? b mod BPB).
  - intros bn Hnb. apply fn_lookup_insert_ne. by intros <-.
Qed.

Lemma bfree_panics s held L cur r b :
  tx s held [] L cur r → sb s = B → Z.of_nat (length held) ≤ r →
  (∀ x, x ∈ held → ¬ is_bitmap B x) → 0 ≤ b < sb_size B → used B cur b = false →
  bfree d b s = Panic "freeing free block".
Proof.
  intros Ht Hsb Hlen Hheld Hb Hu. destruct (BBLOCK_eq b Hb) as [HE Hbm].
  assert (Hnh : BBLOCK b B ∉ held) by (intros Hx; by apply Hheld in Hx).
  destruct (proj1 (wp_ok _ _ _) (bread_tx d st sz layout_sz s held [] L cur r (BBLOCK b B) Ht Hlen
    (proj1 (bitmap_home _ Hbm)) Hnh)) as (bp & s1 & Hr & Ht1 & Hb1 & _).
  destruct (proj1 (wp_ok _ _ _) (bdata_tx d st sz s1 _ _ _ _ _ bp _ Ht1 Hb1 ltac:(by left)))
    as (dat & s2 & Hdat & -> & ->).
  unfold bfree, bind at 1, gets. rewrite Hsb, (bind_ok _ _ _ _ _ Hr). cbv zeta.
  rewrite (bind_ok _ _ _ _ _ Hdat). fold (used B cur b). by rewrite Hu.
Qed.

End blocks.
