(* ===== verification/FsFile.v ===== *)
(** * Contents of files (kernel/fs.c: bmap, readi, writei): theorems

    The contents of a file are the bytes of its blocks, found through the
    direct addresses of the inode and its indirect block.  [readi] returns
    the bytes of the file, [writei] changes the bytes it is asked to change
    and no others, of this file or of another one. *)

From stdpp Require Import functions.
From S2P Require Import Prelude Mem Riscv Kalloc Sleeplock Bio BioSpec Log LogSpec Fs FsTx FsBlock.

Section file.
Context (d : Z) (B : superblock) (HB : layout_ok B).
#[local] Abbreviation st := (sb_logstart B).
#[local] Abbreviation sz := (sb_nlog B).
#[local] Abbreviation tx := (tx d st sz).
#[local] Abbreviation at_buf := (at_buf d).
#[local] Abbreviation Lsz := (layout_sz B HB).

(** ** The blocks of a file *)

(** The address of the [k]th block, 0 if there is none. *)
Definition baddr (cur : Z → block) (x : inode) (k : Z) : Z :=
  if k <? NDIRECT then i_addrs x k
  else if i_addrs x NDIRECT =? 0 then 0
  else ld32 (cur (i_addrs x NDIRECT)) (4 * (k - NDIRECT)).

(** The byte at offset [o]; a block that is not there reads as zeroes. *)
Definition fbyte (cur : Z → block) (x : inode) (o : Z) : Z :=
  let a := baddr cur x (o / BSIZE) in
  if a =? 0 then 0 else ld8 (cur a) (o mod BSIZE).

(** A data block in use. *)
Definition live (cur : Z → block) (a : Z) : Prop := is_data B a ∧ used B cur a = true.

Record file_ok (cur : Z → block) (x : inode) : Prop := {
  fo_dev : i_dev x = d;
  fo_size : 0 ≤ i_size x ≤ MAXFILE * BSIZE;
  fo_ind : i_addrs x NDIRECT = 0 ∨ live cur (i_addrs x NDIRECT);
  fo_addr : ∀ k, 0 ≤ k < MAXFILE → baddr cur x k = 0 ∨ live cur (baddr cur x k);
  fo_inj : ∀ k k', 0 ≤ k < MAXFILE → 0 ≤ k' < MAXFILE →
    baddr cur x k = baddr cur x k' → baddr cur x k ≠ 0 → k = k';
  fo_ind_ne : ∀ k, 0 ≤ k < MAXFILE → baddr cur x k ≠ 0 → baddr cur x k ≠ i_addrs x NDIRECT
}.

(** The file has all blocks below its size. *)
Definition no_holes (cur : Z → block) (x : inode) : Prop :=
  ∀ k, 0 ≤ k → k * BSIZE < i_size x → baddr cur x k ≠ 0.

Lemma consts : NDIRECT = 12 ∧ NINDIRECT = 256 ∧ MAXFILE = 268 ∧ BSIZE = 1024.
Proof. done. Qed.

Lemma is_data_range y : is_data B y → 0 < y < sb_size B.
Proof.
  intros Hy. pose proof (size_pos B HB). unfold is_data, datastart in Hy.
  assert (0 ≤ (sb_size B - 1) / BPB) by (change BPB with 8192; zdm). lia.
Qed.

Lemma live_range cur a : live cur a → 0 < a < 2 ^ 31 ∧ home st sz a ∧ ¬ is_bitmap B a.
Proof.
  intros [Ha _]. pose proof (data_home B HB a Ha) as Hh. pose proof (size_pos B HB).
  split; [|split; [done|]].
  - pose proof (l_data _ HB). apply is_data_range in Ha. lia.
  - intros Hb. by apply (data_not_bitmap B a a Ha Hb).
Qed.

(** A change of the layers below the inode table. *)
Lemma tx_flog s s' held dirty L cur r : flog s' = flog s → tx s held dirty L cur r → tx s' held dirty L cur r.
Proof. intros E [? ? ? ? ? ?]. split; rewrite ?E; done. Qed.

(** ** bmap *)

(** The block is there: [bmap] finds it and changes nothing. *)
Lemma bmap_hit s L cur r ip bn :
  tx s [] [] L cur r → 0 ≤ r → file_ok cur (itab s ip) → 0 ≤ bn < MAXFILE →
  baddr cur (itab s ip) bn ≠ 0 →
  wp (bmap ip bn) (fun a s' => a = baddr cur (itab s ip) bn ∧ tx s' [] [] L cur r ∧ same_top s s') s.
Proof.
  intros Ht Hr Hf Hbn Hne. pose proof consts as (H12 & H256 & H268 & _).
  unfold bmap. apply wp_bind, wp_gets. unfold baddr in *. case_test.
  - rewrite (proj2 (Z.eqb_neq _ 0)) by done. apply wp_ret. split; [done|]. split; [done|].
    apply same_top_refl.
  - destruct (i_addrs (itab s ip) NDIRECT =? 0) eqn:Ei; [done|]. destruct_bool_tests.
    rewrite (proj2 (Z.ltb_lt (bn - NDIRECT) NINDIRECT)) by lia. apply wp_bind, wp_ret.
    rewrite (proj2 (Z.eqb_neq (i_addrs _ _) 0)) by done.
    destruct (fo_ind _ _ Hf) as [?|Hl]; [done|]. destruct (live_range _ _ Hl) as (Hlr & _ & _).
    rewrite (fo_dev _ _ Hf). apply wp_bind. eapply wp_mono.
    { apply (bread_tx d st sz Lsz s [] [] L cur r); [done|cbn; lia|lia|apply not_elem_of_nil]. }
    intros bp s1 (Ht1 & Hb1 & _ & Hs1). apply wp_bind.
    eapply wp_mono; [apply (bdata_tx d st sz s1 _ _ _ _ _ bp _ Ht1 Hb1); by left|].
    intros dat s1' [-> ->]. rewrite (proj2 (Z.eqb_neq (ld32 _ _) 0)) by done.
    apply wp_bind, wp_ret, wp_bind. eapply wp_mono.
    { apply (brelse_tx d st sz s1 [] [] _ _ _ bp _ Ht1 Hb1), not_elem_of_nil. }
    intros ? s2 (Ht2 & _ & Hs2). apply wp_ret. split; [done|]. split; [done|]. top.
Qed.

(** ** readi *)

Definition fbytes (cur : Z → block) (x : inode) (off n : Z) : list Z :=
  map (fun i => fbyte cur x (off + Z.of_nat i)) (seq 0 (Z.to_nat n)).

Lemma fbytes_app cur x off n k :
  0 ≤ n → 0 ≤ k → fbytes cur x off (n + k) = fbytes cur x off n ++ fbytes cur x (off + n) k.
Proof.
  intros. unfold fbytes. rewrite Z2Nat.inj_add, seq_app, map_app by lia. f_equal.
  rewrite Nat.add_0_l. rewrite <- (Nat.add_0_r (Z.to_nat n)) at 1.
  rewrite <- fmap_add_seq, map_map. apply map_ext. intros i. f_equal. lia.
Qed.

Lemma length_fbytes cur x off n : length (fbytes cur x off n) = Z.to_nat n.
Proof. unfold fbytes. by rewrite length_map, length_seq. Qed.

(** Bytes of one block. *)
Lemma fbytes_block cur x off n :
  0 ≤ off → 0 ≤ n → off mod BSIZE + n ≤ BSIZE → baddr cur x (off / BSIZE) ≠ 0 →
  load_bytes (cur (baddr cur x (off / BSIZE))) (off mod BSIZE) n = fbytes cur x off n.
Proof.
  intros Ho Hn Hfit Hne. pose proof consts as (_ & _ & _ & HBS). rewrite HBS in *.
  unfold load_bytes, fbytes. apply map_ext_in. intros i Hi%in_seq. unfold fbyte. rewrite HBS.
  replace ((off + Z.of_nat i) / 1024) with (off / 1024) by zdm.
  rewrite (proj2 (Z.eqb_neq _ 0)) by done. f_equal. zdm.
Qed.

Lemma readi_loop_spec fuel s L cur r ip off n tot :
  tx s [] [] L cur r → 0 ≤ r → file_ok cur (itab s ip) → no_holes cur (itab s ip) →
  0 ≤ off → tot ≤ n → off + (n - tot) ≤ i_size (itab s ip) → n - tot ≤ Z.of_nat fuel →
  wp (readi_loop fuel ip LocalDst off n tot) (fun p s' =>
    p = (n, fbytes cur (itab s ip) off (n - tot)) ∧ tx s' [] [] L cur r ∧ same_top s s') s.
Proof.
  revert s off tot; induction fuel as [|f IH]; intros s off tot Ht Hr Hf Hnh Hoff Htn Hend Hfuel;
    cbn [readi_loop]; (case_test; [|apply wp_ret; assert (tot = n) as -> by lia;
      rewrite Z.sub_diag; split; [done|]; split; [done|apply same_top_refl]]); [lia|].
  pose proof consts as (_ & _ & H268 & HBS). pose proof (fo_size _ _ Hf) as Hsz.
  assert (Hk : 0 ≤ off / BSIZE < MAXFILE) by (rewrite HBS, H268 in *; zdm).
  assert (Hne : baddr cur (itab s ip) (off / BSIZE) ≠ 0).
  { apply Hnh; [lia|]. rewrite HBS in *. zdm. }
  apply wp_bind. eapply wp_mono; [by apply (bmap_hit s L cur r)|].
  intros a s1 (-> & Ht1 & Hs1). rewrite (proj2 (Z.eqb_neq _ 0)) by done.
  assert (Hit : itab s1 = itab s) by apply Hs1.
  destruct (fo_addr _ _ Hf _ Hk) as [?|Hl]; [done|]. destruct (live_range _ _ Hl) as (Hlr & _).
  apply wp_bind, wp_gets. rewrite Hit, (fo_dev _ _ Hf). apply wp_bind. eapply wp_mono.
  { apply (bread_tx d st sz Lsz s1 [] [] L cur r); [done|cbn; lia|lia|apply not_elem_of_nil]. }
  intros bp s2 (Ht2 & Hb2 & _ & Hs2). cbv zeta. apply wp_bind.
  eapply wp_mono; [apply (bdata_tx d st sz s2 _ _ _ _ _ bp _ Ht2 Hb2); by left|].
  intros dat s2' [-> ->]. set (m := Z.min (n - tot) (BSIZE - off mod BSIZE)).
  assert (Hm : 0 < m ≤ n - tot ∧ off mod BSIZE + m ≤ BSIZE) by (unfold m; rewrite HBS; zdm).
  rewrite (fbytes_block cur (itab s ip)) by (done || lia).
  unfold either_copyout. apply wp_bind, wp_ret. change (0 =? -1) with false. cbv iota.
  apply wp_bind. eapply wp_mono.
  { apply (brelse_tx d st sz s2 [] [] _ _ _ bp _ Ht2 Hb2), not_elem_of_nil. }
  intros ? s3 (Ht3 & _ & Hs3). assert (Hs : same_top s s3) by top.
  assert (Hit3 : itab s3 = itab s) by apply Hs.
  cbn [dest_add]. rewrite (u32_small (off + m)) by (rewrite H268, HBS in *; lia).
  apply wp_bind. eapply wp_mono.
  { apply (IH s3 (off + m) (tot + m) Ht3 Hr); rewrite ?Hit3; try done; lia. }
  intros [t rest] s4 (Heq & Ht4 & Hs4). rewrite Hit3 in Heq. injection Heq as -> ->.
  apply wp_ret. split; [|split; [done|top]].
  f_equal. rewrite <- fbytes_app by lia. f_equal. lia.
Qed.

Lemma readi_spec s L cur r ip off n :
  tx s [] [] L cur r → 0 ≤ r → file_ok cur (itab s ip) → no_holes cur (itab s ip) →
  0 ≤ off < 2 ^ 31 → 0 ≤ n < 2 ^ 31 →
  let x := itab s ip in
  let len := if i_size x <? off then 0 else Z.min n (i_size x - off) in
  wp (readi ip LocalDst off n) (fun p s' =>
    p = (len, fbytes cur x off len) ∧ tx s' [] [] L cur r ∧ same_top s s') s.
Proof.
  intros Ht Hr Hf Hnh Hoff Hn x len. pose proof consts as (_ & _ & H268 & HBS).
  pose proof (fo_size _ _ Hf) as Hsz. fold x in Hsz.
  unfold readi. apply wp_bind, wp_gets. fold x. unfold len.
  destruct (i_size x <? off) eqn:E1; destruct_bool_tests; cbn [orb].
  { apply wp_ret. split; [done|]. split; [done|apply same_top_refl]. }
  rewrite u32_small, (proj2 (Z.ltb_ge _ _)) by lia.
  set (n' := if i_size x <? off + n then i_size x - off else n).
  assert (Hn' : n' = Z.min n (i_size x - off)) by (unfold n'; case_test; lia).
  rewrite Hn'. apply wp_bind. eapply wp_mono.
  { apply (readi_loop_spec _ s L cur r ip off _ 0 Ht Hr Hf Hnh); fold x; lia. }
  intros [t bytes] s' (Heq & Ht' & Hs'). fold x in Heq. injection Heq as -> ->. apply wp_ret.
  rewrite Z.sub_0_r, i32_small by (rewrite H268, HBS in *; lia). done.
Qed.

(** ** Growing a file *)

(** [a] is a block of the file, or not. *)
Definition owns (cur : Z → block) (x : inode) (a : Z) : Prop :=
  a = i_addrs x NDIRECT ∨ ∃ k, 0 ≤ k < MAXFILE ∧ baddr cur x k = a.
Definition foreign (cur : Z → block) (x : inode) (a : Z) : Prop :=
  a ≠ i_addrs x NDIRECT ∧ ∀ k, 0 ≤ k < MAXFILE → baddr cur x k ≠ a.

(** What a file knows of the disk: the marks, and the contents of its own
    blocks. *)
Lemma baddr_ext cur cur' x k :
  (i_addrs x NDIRECT ≠ 0 → ∀ o, 0 ≤ o < BSIZE →
     ld8 (cur' (i_addrs x NDIRECT)) o = ld8 (cur (i_addrs x NDIRECT)) o) →
  0 ≤ k < MAXFILE → baddr cur' x k = baddr cur x k.
Proof.
  intros Hi Hk. pose proof consts as (H12 & _ & H268 & HBS). unfold baddr. case_test; [done|].
  case_test; [done|]. apply (ldn_ext 4). intros o Ho. apply Hi; [done|]. rewrite H12, H268, HBS in *. lia.
Qed.

Lemma file_ok_ext cur cur' x :
  file_ok cur x →
  (∀ a, live cur a → live cur' a) →
  (∀ a, live cur a → owns cur x a → cur' a = cur a) →
  file_ok cur' x ∧ (∀ k, 0 ≤ k < MAXFILE → baddr cur' x k = baddr cur x k) ∧
  (∀ o, 0 ≤ o < MAXFILE * BSIZE → fbyte cur' x o = fbyte cur x o).
Proof.
  intros Hf Hlive Hsame.
  assert (Hb : ∀ k, 0 ≤ k < MAXFILE → baddr cur' x k = baddr cur x k).
  { intros k Hk. apply baddr_ext; [|done]. intros Hi o _. destruct (fo_ind _ _ Hf) as [?|Hl]; [done|].
    rewrite Hsame; [done..|]. by left. }
  split; [|split; [done|]].
  - split; try apply Hf.
    + destruct (fo_ind _ _ Hf); [by left|right; auto].
    + intros k Hk. rewrite Hb by done. destruct (fo_addr _ _ Hf k Hk); [by left|right; auto].
    + intros k k' Hk Hk'. rewrite !Hb by done. by apply (fo_inj _ _ Hf).
    + intros k Hk. rewrite Hb by done. by apply (fo_ind_ne _ _ Hf).
  - intros o Ho. pose proof consts as (_ & _ & _ & HBS). unfold fbyte.
    assert (0 ≤ o / BSIZE < MAXFILE) as Hk by (rewrite HBS in *; zdm).
    rewrite Hb by done. case_test; [done|].
    destruct (fo_addr _ _ Hf _ Hk) as [?|Hl]; [done|]. rewrite Hsame; [done..|].
    right. by exists (o / BSIZE).
Qed.

Lemma allocated_live cur a cur1 :
  is_data B a → used B cur a = false → allocated B cur a cur1 →
  live cur1 a ∧ (∀ y, live cur y → live cur1 y ∧ cur1 y = cur y ∧ y ≠ a) ∧
  (meta_used B cur → meta_used B cur1).
Proof.
  intros Ha Hu (Hmark & _ & Hsame). assert (Hr : ∀ y, is_data B y → 0 ≤ y < sb_size B).
  { intros y Hy. apply is_data_range in Hy. lia. }
  split; [|split].
  - split; [done|]. by rewrite Hmark, Z.eqb_refl by auto.
  - intros y Hy. pose proof (live_range cur y Hy) as (_ & _ & Hnb). destruct Hy as [Hyd Hyu].
    assert (y ≠ a) by (intros ->; congruence).
    split; [split; [done|]; by rewrite Hmark, Hyu, orb_true_r by auto|]. split; [|done].
    by apply Hsame.
  - intros Hm b Hb. destruct HB as [_ _ [? ?]]. by rewrite Hmark, Hm, orb_true_r by lia.
Qed.

(** A block that was not in use is not a block of any file. *)
Lemma unused_foreign cur x a :
  file_ok cur x → is_data B a → used B cur a = false → foreign cur x a.
Proof.
  intros Hf Ha Hu. assert (a ≠ 0) as Ha0.
  { apply is_data_range in Ha. lia. }
  split.
  - intros ->. destruct (fo_ind _ _ Hf) as [?|[_ Hx]]; congruence.
  - intros k Hk <-. destruct (fo_addr _ _ Hf k Hk) as [?|[_ Hx]]; congruence.
Qed.

(** A fresh block becomes the [bn]th block, [cur'] and [x'] being the state
    with its address entered. *)
Lemma file_ok_attach cur cur' x x' bn a :
  file_ok cur x → 0 ≤ bn < MAXFILE → baddr cur x bn = 0 → live cur a → foreign cur x a →
  (∀ o, 0 ≤ o < BSIZE → ld8 (cur a) o = 0) →
  i_dev x' = i_dev x → i_size x' = i_size x → i_addrs x' NDIRECT = i_addrs x NDIRECT →
  (∀ y, live cur y → live cur' y) → (∀ y, live cur y → y ≠ i_addrs x NDIRECT → cur' y = cur y) →
  (∀ k, 0 ≤ k < MAXFILE → baddr cur' x' k = if k =? bn then a else baddr cur x k) →
  file_ok cur' x' ∧ (∀ o, 0 ≤ o < MAXFILE * BSIZE → fbyte cur' x' o = fbyte cur x o).
Proof.
  intros Hf Hbn H0 Hla [Hai Hak] Hz Hdv Hsz Hind Hlive Hsame Hb. split.
  - split; rewrite ?Hdv, ?Hsz, ?Hind; try apply Hf.
    + destruct (fo_ind _ _ Hf); [by left|right; auto].
    + intros k Hk. rewrite Hb by done. case_test; [right; auto|].
      destruct (fo_addr _ _ Hf k Hk); [by left|right; auto].
    + intros k k' Hk Hk'. rewrite !Hb by done. do 2 case_test; subst; try done.
      * intros Heq. by apply Hak in Hk'.
      * intros Heq. by apply Hak in Hk.
      * by apply (fo_inj _ _ Hf).
    + intros k Hk. rewrite Hb by done. case_test; [done|]. by apply (fo_ind_ne _ _ Hf).
  - intros o Ho. pose proof consts as (_ & _ & _ & HBS). unfold fbyte.
    assert (0 ≤ o / BSIZE < MAXFILE) as Hk by (rewrite HBS in *; zdm).
    rewrite Hb by done. destruct (Z.eqb_spec (o / BSIZE) bn) as [E|E].
    + rewrite E, H0. cbn. destruct (live_range _ _ Hla) as (Ha & _).
      rewrite (proj2 (Z.eqb_neq a 0)) by lia. rewrite Hsame by done. apply Hz. rewrite HBS. zdm.
    + case_test; [done|]. destruct (fo_addr _ _ Hf _ Hk) as [?|Hl]; [done|]. rewrite Hsame; [done|done|].
      by apply (fo_ind_ne _ _ Hf).
Qed.

(** Everything but the bitmap and data blocks that were not in use stays. *)
Definition others_same (cur cur' : Z → block) (except : Z) : Prop :=
  (∀ y, 0 ≤ y < sb_size B → used B cur y = true → used B cur' y = true) ∧
  (∀ y, ¬ is_bitmap B y → (is_data B y → used B cur y = true) → y ≠ except → cur' y = cur y).

(** [a] has been allocated next to the file [x]. *)
Record fresh_for (cur : Z → block) (x : inode) (a : Z) (cur1 : Z → block) : Prop := {
  ff_file : file_ok cur1 x;
  ff_addr : ∀ k, 0 ≤ k < MAXFILE → baddr cur1 x k = baddr cur x k;
  ff_bytes : ∀ o, 0 ≤ o < MAXFILE * BSIZE → fbyte cur1 x o = fbyte cur x o;
  ff_live : live cur1 a;
  ff_foreign : foreign cur1 x a;
  ff_zero : ∀ o, 0 ≤ o < BSIZE → ld8 (cur1 a) o = 0;
  ff_meta : meta_used B cur1;
  ff_same : ∀ e, others_same cur cur1 e;
  ff_held : ∀ y, live cur y → live cur1 y ∧ cur1 y = cur y ∧ y ≠ a;
  ff_new : used B cur a = false
}.

Lemma fresh_for_alloc cur x a cur1 :
  file_ok cur x → meta_used B cur → is_data B a → used B cur a = false →
  allocated B cur a cur1 → fresh_for cur x a cur1.
Proof.
  intros Hf Hm Ha Hu Hal. destruct (allocated_live cur a cur1 Ha Hu Hal) as (Hla & Hlv & Hmeta).
  pose proof (unused_foreign cur x a Hf Ha Hu) as [Hf1 Hf2].
  destruct (file_ok_ext cur cur1 x Hf) as (Hf' & Hb' & Hby); [intros y Hy; by apply Hlv|intros y Hy _; by apply Hlv|].
  destruct Hal as (Hmark & Hz & Hsame).
  split; auto.
  - split; [done|]. intros k Hk. rewrite Hb' by done. by apply Hf2.
  - intros e. split.
    + intros y Hy Hyu. by rewrite Hmark, Hyu, orb_true_r.
    + intros y Hnb Hd _. apply Hsame; [|done]. intros ->. rewrite Hd in Hu; done.
Qed.

(** For disks whose bitmap is one block, as FSSIZE makes them. *)
Context (Hone : sb_size B ≤ BPB).

Lemma BBLOCK_one b : 0 ≤ b < sb_size B → BBLOCK b B = sb_bmapstart B.
Proof.
  intros Hb. destruct (BBLOCK_eq B HB b Hb) as [-> _]. rewrite Z.div_small by lia. done.
Qed.

(** Log entries that growing the file may still need for the bitmap block and
    for the indirect block, and the room left without them. *)
Definition ind_cost (L : list Z) (x : inode) : Z :=
  if i_addrs x NDIRECT =? 0 then 1 else cost L (i_addrs x NDIRECT).
Definition eff (L : list Z) (x : inode) (r : Z) : Z :=
  r - cost L (sb_bmapstart B) - ind_cost L x.

Lemma cost_mono L L' bn : (∀ b, b ∈ L → b ∈ L') → cost L' bn ≤ cost L bn.
Proof. intros H. unfold cost. specialize (H bn). do 2 case_decide; try lia. tauto. Qed.

Lemma ind_cost_range L x : 0 ≤ ind_cost L x ≤ 1.
Proof. unfold ind_cost. case_test; [lia|apply cost_range]. Qed.

Lemma balloc_file s held L cur r x :
  tx s held [] L cur r → sb s = B → 2 ≤ r → Z.of_nat (length held) + 1 ≤ r →
  meta_used B cur → file_ok cur x → (∀ y, y ∈ held → live cur y) →
  wp (balloc d) (fun a s1 => same_top s s1 ∧ keep_held d held s s1 ∧
    ((a = 0 ∧ tx s1 held [] L cur r ∧ ∀ y, 0 ≤ y < sb_size B → used B cur y = true) ∨
     (∃ cur1, tx s1 held [] (a :: sb_bmapstart B :: L) cur1 (r - cost L (sb_bmapstart B) - 1) ∧
        fresh_for cur x a cur1))) s.
Proof.
  intros Ht Hsb Hr Hlen Hm Hf Hheld. eapply wp_mono.
  { apply (balloc_spec d B HB s held L cur r); try done. intros y Hy. specialize (Hheld y Hy).
    pose proof (live_range cur y Hheld) as (_ & _ & Hnb). split; [done|]. intros _. apply Hheld. }
  intros a s1 (Hs & Hk & Hcase). split; [done|]. split; [done|].
  destruct Hcase as [?|(Ha & Hu & cur1 & Ht1 & Hal)]; [by left|right].
  exists cur1. rewrite BBLOCK_one in Ht1.
  - split; [done|]. by apply fresh_for_alloc.
  - apply is_data_range in Ha. lia.
Qed.

(** ** Attaching a fresh block *)

Definition same_fields (x x' : inode) : Prop :=
  i_dev x' = i_dev x ∧ i_inum x' = i_inum x ∧ i_ref x' = i_ref x ∧ i_lock x' = i_lock x ∧
  i_valid x' = i_valid x ∧ i_type x' = i_type x ∧ i_major x' = i_major x ∧
  i_minor x' = i_minor x ∧ i_nlink x' = i_nlink x ∧ i_size x' = i_size x.

Lemma attach_direct cur x bn a cur1 :
  fresh_for cur x a cur1 → 0 ≤ bn < NDIRECT → baddr cur x bn = 0 →
  let x' := set_addr bn a x in
  file_ok cur1 x' ∧ (∀ o, 0 ≤ o < MAXFILE * BSIZE → fbyte cur1 x' o = fbyte cur x o) ∧
  (∀ k, 0 ≤ k < MAXFILE → baddr cur1 x' k = if k =? bn then a else baddr cur x k).
Proof.
  intros Hff Hbn H0 x'. pose proof consts as (H12 & _ & H268 & _).
  assert (Hb : ∀ k, 0 ≤ k < MAXFILE → baddr cur1 x' k = if k =? bn then a else baddr cur x k).
  { intros k Hk. rewrite <- (ff_addr _ _ _ _ Hff k Hk). unfold baddr, x'. cbn [set_addr i_addrs].
    rewrite (fn_lookup_insert_ne _ bn NDIRECT) by lia.
    destruct (Z.eqb_spec k bn) as [->|Hne].
    - by rewrite (proj2 (Z.ltb_lt _ _)), fn_lookup_insert by lia.
    - by rewrite fn_lookup_insert_ne by done. }
  assert (H01 : baddr cur1 x bn = 0) by (rewrite (ff_addr _ _ _ _ Hff) by lia; done).
  destruct (file_ok_attach cur1 cur1 x x' bn a (ff_file _ _ _ _ Hff) ltac:(lia) H01
    (ff_live _ _ _ _ Hff) (ff_foreign _ _ _ _ Hff) (ff_zero _ _ _ _ Hff)) as [Hf' Hby]; try done.
  - unfold x'. cbn. apply fn_lookup_insert_ne. lia.
  - intros k Hk. rewrite Hb by done. case_test; [done|]. symmetry. by apply (ff_addr _ _ _ _ Hff).
  - split; [done|]. split; [|done]. intros o Ho. rewrite Hby by done. by apply (ff_bytes _ _ _ _ Hff).
Qed.

(** A fresh block becomes the indirect block. *)
Lemma attach_indirect cur x a cur1 :
  fresh_for cur x a cur1 → i_addrs x NDIRECT = 0 →
  let x' := set_addr NDIRECT a x in
  file_ok cur1 x' ∧ (∀ o, 0 ≤ o < MAXFILE * BSIZE → fbyte cur1 x' o = fbyte cur x o) ∧
  (∀ k, 0 ≤ k < MAXFILE → baddr cur1 x' k = baddr cur x k).
Proof.
  intros Hff H0 x'. pose proof consts as (H12 & _ & H268 & HBS).
  destruct (live_range _ _ (ff_live _ _ _ _ Hff)) as (Har & _).
  assert (Hb1 : ∀ k, 0 ≤ k < MAXFILE → baddr cur1 x' k = baddr cur1 x k).
  { intros k Hk. unfold baddr, x'. cbn [set_addr i_addrs].
    destruct (k <? NDIRECT) eqn:E; destruct_bool_tests; [by rewrite fn_lookup_insert_ne by lia|].
    rewrite fn_lookup_insert, H0, (proj2 (Z.eqb_neq a 0)) by lia. cbn.
    etrans; [|apply (ldn_fill_zero 4 (cur1 a) 0 BSIZE (4 * (k - NDIRECT)));
      rewrite ?HBS, ?H12, ?H268 in *; lia].
    apply (ldn_ext 4). intros o Ho. rewrite (ff_zero _ _ _ _ Hff), ld8_fill_in
      by (rewrite HBS, H12, H268 in *; lia). done. }
  assert (Hb : ∀ k, 0 ≤ k < MAXFILE → baddr cur1 x' k = baddr cur x k).
  { intros k Hk. rewrite Hb1 by done. by apply (ff_addr _ _ _ _ Hff). }
  pose proof (ff_file _ _ _ _ Hff) as Hf.
  split; [|split; [|done]].
  - split; try apply Hf.
    + right. unfold x'. cbn. rewrite fn_lookup_insert. apply Hff.
    + intros k Hk. rewrite Hb1 by done. by apply (fo_addr _ _ Hf).
    + intros k k' Hk Hk'. rewrite !Hb1 by done. by apply (fo_inj _ _ Hf).
    + intros k Hk. rewrite Hb1 by done. unfold x'. cbn. rewrite fn_lookup_insert. intros _.
      by apply (ff_foreign _ _ _ _ Hff).
  - intros o Ho. rewrite <- (ff_bytes _ _ _ _ Hff) by done. unfold fbyte.
    rewrite Hb1; [done|]. rewrite HBS in *. zdm.
Qed.

(** A fresh block is entered in the indirect block. *)
Lemma attach_entry cur x bn a cur1 :
  fresh_for cur x a cur1 → NDIRECT ≤ bn < MAXFILE → baddr cur x bn = 0 → i_addrs x NDIRECT ≠ 0 →
  let ind := i_addrs x NDIRECT in
  let cur2 := <[ind := st32 (cur1 ind) (4 * (bn - NDIRECT)) a]> cur1 in
  file_ok cur2 x ∧ (∀ o, 0 ≤ o < MAXFILE * BSIZE → fbyte cur2 x o = fbyte cur x o) ∧
  (∀ k, 0 ≤ k < MAXFILE → baddr cur2 x k = if k =? bn then a else baddr cur x k) ∧
  meta_used B cur2 ∧ others_same cur cur2 ind.
Proof.
  intros Hff Hbn H0 Hind ind cur2. pose proof consts as (H12 & _ & H268 & HBS).
  destruct (live_range _ _ (ff_live _ _ _ _ Hff)) as (Har & _).
  pose proof (ff_file _ _ _ _ Hff) as Hf. destruct (fo_ind _ _ Hf) as [?|Hli]; [done|].
  destruct (live_range _ _ Hli) as (_ & _ & Hnb). fold ind in Hli, Hnb.
  assert (Hu : ∀ y, 0 ≤ y < sb_size B → used B cur2 y = used B cur1 y).
  { intros y Hy. apply (used_ext B HB cur1 cur2 y Hy). intros b Hb. apply fn_lookup_insert_ne.
    by intros <-. }
  assert (Hlv : ∀ y, live cur1 y → live cur2 y).
  { intros y [Hy1 Hy2]. split; [done|]. rewrite Hu; [done|].
    apply is_data_range in Hy1. lia. }
  assert (Hb : ∀ k, 0 ≤ k < MAXFILE → baddr cur2 x k = if k =? bn then a else baddr cur1 x k).
  { intros k Hk. unfold baddr. fold ind. destruct (Z.eqb_spec k bn) as [->|Hne].
    - rewrite (proj2 (Z.ltb_ge _ _)), (proj2 (Z.eqb_neq ind 0)) by (done || lia).
      unfold cur2. rewrite fn_lookup_insert, ld32_st32_eq. apply u32_small. lia.
    - case_test; [done|]. case_test; [done|]. unfold cur2. rewrite fn_lookup_insert.
      apply (ldn_stn_out 4 4). lia. }
  assert (H01 : baddr cur1 x bn = 0) by (rewrite (ff_addr _ _ _ _ Hff) by lia; done).
  destruct (file_ok_attach cur1 cur2 x x bn a Hf ltac:(lia) H01
    (ff_live _ _ _ _ Hff) (ff_foreign _ _ _ _ Hff) (ff_zero _ _ _ _ Hff)) as [Hf' Hby]; try done.
  - intros y Hy Hne. by apply fn_lookup_insert_ne.
  - split; [done|]. split; [intros o Ho; rewrite Hby by done; by apply (ff_bytes _ _ _ _ Hff)|].
    split; [intros k Hk; by rewrite Hb, (ff_addr _ _ _ _ Hff)|]. split.
    + intros b Hbr. destruct HB as [_ _ [? ?]]. rewrite Hu by lia. by apply (ff_meta _ _ _ _ Hff).
    + destruct (ff_same _ _ _ _ Hff ind) as [Ho1 Ho2]. split.
      * intros y Hy Hyu. rewrite Hu by done. by apply Ho1.
      * intros y H1 H2 H3. unfold cur2. rewrite fn_lookup_insert_ne by done. by apply Ho2.
Qed.

(** ** bmap, allocating *)

(** Only the entry [ip] of the inode table may differ above the log. *)
Definition top_but (ip : Z) (s s' : fs) : Prop :=
  sb s' = sb s ∧ fkmem s' = fkmem s ∧ upt s' = upt s ∧ cwd s' = cwd s ∧
  mypid (lbio (flog s')) = mypid (lbio (flog s)) ∧ ∀ j, j ≠ ip → itab s' j = itab s j.

Lemma same_top_but ip s s' : same_top s s' → top_but ip s s'.
Proof. intros (H1 & H2 & H3 & H4 & H5 & H6). repeat split; try done. by rewrite H2. Qed.
Lemma top_but_trans ip s1 s2 s3 : top_but ip s1 s2 → top_but ip s2 s3 → top_but ip s1 s3.
Proof.
  intros (H1 & H2 & H3 & H4 & H5 & H6) (H1' & H2' & H3' & H4' & H5' & H6').
  repeat split; try congruence. intros j Hj. by rewrite H6', H6.
Qed.

Lemma same_fields_trans x1 x2 x3 : same_fields x1 x2 → same_fields x2 x3 → same_fields x1 x3.
Proof. unfold same_fields. intuition congruence. Qed.

(** Nothing but the file [x] has changed, [cur'] and [x'] being the state
    after the change: blocks in use stay in use, blocks of other files keep
    their contents and do not become blocks of the file, and so do all blocks
    that are neither data nor bitmap. *)
Record outside (cur : Z → block) (x : inode) (cur' : Z → block) (x' : inode) : Prop := {
  out_used : ∀ y, 0 ≤ y < sb_size B → used B cur y = true → used B cur' y = true;
  out_meta : ∀ y, ¬ is_bitmap B y → ¬ is_data B y → cur' y = cur y;
  out_live : ∀ y, live cur y → foreign cur x y → cur' y = cur y ∧ foreign cur' x' y
}.

Lemma outside_live cur x cur' x' y : outside cur x cur' x' → live cur y → live cur' y.
Proof.
  intros [Hu _ _] [Hd Hy]. split; [done|]. apply Hu; [|done]. apply is_data_range in Hd. lia.
Qed.

Lemma outside_refl cur x x' :
  (∀ y, foreign cur x y → foreign cur x' y) → outside cur x cur x'.
Proof. intros. split; auto. Qed.

Lemma outside_trans cur x cur1 x1 cur2 x2 :
  outside cur x cur1 x1 → outside cur1 x1 cur2 x2 → outside cur x cur2 x2.
Proof.
  intros H1 H2. split.
  - intros y Hy Hu. apply H2; [done|]. by apply H1.
  - intros y Hb Hd. etrans; [by apply H2|by apply H1].
  - intros y Hl Hf. destruct (out_live _ _ _ _ H1 y Hl Hf) as [E1 F1].
    destruct (out_live _ _ _ _ H2 y (outside_live _ _ _ _ _ H1 Hl) F1) as [E2 F2].
    split; [congruence|done].
Qed.

Lemma outside_intro cur x cur' x' e :
  others_same cur cur' e → is_data B e → (∀ y, live cur y → foreign cur x y → y ≠ e) →
  (∀ y, live cur y → foreign cur x y → foreign cur' x' y) → outside cur x cur' x'.
Proof.
  intros [Hu Ho] He Hne Hfo. split; [done| |].
  - intros y Hb Hd. apply Ho; [done..|]. by intros ->.
  - intros y Hl Hf. split; [|auto]. destruct (live_range _ _ Hl) as (_ & _ & Hb).
    apply Ho; [done|intros _; apply Hl|auto].
Qed.

(** The file [ip] has possibly more blocks, and its contents are [g]. *)
Record grown (ip : Z) (s : fs) (L : list Z) (cur : Z → block) (s' : fs) (L' : list Z)
    (cur' : Z → block) (r' : Z) (g : Z → Z) : Prop := {
  gr_tx : tx s' [] [] L' cur' r';
  gr_top : top_but ip s s';
  gr_fields : same_fields (itab s ip) (itab s' ip);
  gr_file : file_ok cur' (itab s' ip);
  gr_meta : meta_used B cur';
  gr_bytes : ∀ o, 0 ≤ o < MAXFILE * BSIZE → fbyte cur' (itab s' ip) o = g o;
  gr_addr : ∀ k, 0 ≤ k < MAXFILE → baddr cur (itab s ip) k ≠ 0 →
    baddr cur' (itab s' ip) k = baddr cur (itab s ip) k;
  gr_out : outside cur (itab s ip) cur' (itab s' ip);
  gr_logged : ∀ b, b ∈ L → b ∈ L'
}.

Lemma grown_refl ip s L cur r s' :
  tx s' [] [] L cur r → file_ok cur (itab s ip) → meta_used B cur → same_top s s' →
  grown ip s L cur s' L cur r (fbyte cur (itab s ip)).
Proof.
  intros Ht Hf Hm Hs. assert (Hit : itab s' = itab s) by apply Hs.
  split; rewrite ?Hit; try done. by apply same_top_but.
Qed.

Lemma grown_trans ip s L cur s1 L1 cur1 r1 g1 s2 L2 cur2 r2 g2 :
  grown ip s L cur s1 L1 cur1 r1 g1 → grown ip s1 L1 cur1 s2 L2 cur2 r2 g2 →
  grown ip s L cur s2 L2 cur2 r2 g2.
Proof.
  intros [T1 P1 F1 K1 M1 Y1 A1 O1 G1] [T2 P2 F2 K2 M2 Y2 A2 O2 G2]. split; auto.
  - by eapply top_but_trans.
  - by eapply same_fields_trans.
  - intros k Hk Hne. rewrite A2; [by apply A1|done|]. by rewrite A1.
  - by eapply outside_trans.
Qed.

Lemma grown_bytes ip s L cur s' L' cur' r' g g' :
  grown ip s L cur s' L' cur' r' g → (∀ o, 0 ≤ o < MAXFILE * BSIZE → g o = g' o) →
  grown ip s L cur s' L' cur' r' g'.
Proof. intros [? ? ? ? ? Hb ? ? ?] Hg. split; auto. intros o Ho. by rewrite Hb, Hg. Qed.

(** What [bmap] leaves: a block of the file, or no block because the disk is
    full; one more log entry is charged at most, that of the block itself. *)
Definition bmap_post (s : fs) (L : list Z) (cur : Z → block) (r ip bn a : Z) (s' : fs) : Prop :=
  ∃ L' cur' r', grown ip s L cur s' L' cur' r' (fbyte cur (itab s ip)) ∧
  ((a = 0 ∧ (∀ y, 0 ≤ y < sb_size B → used B cur' y = true) ∧
      eff L (itab s ip) r ≤ eff L' (itab s' ip) r') ∨
   (a ≠ 0 ∧ a = baddr cur' (itab s' ip) bn ∧
      eff L (itab s ip) r - 1 ≤ eff L' (itab s' ip) r' - cost L' a)).

Lemma eff_room L x r : eff L x r ≤ r.
Proof. unfold eff. pose proof (cost_range L (sb_bmapstart B)). pose proof (ind_cost_range L x). lia. Qed.

Lemma bmap_direct s L cur r ip bn :
  tx s [] [] L cur r → sb s = B → 3 ≤ eff L (itab s ip) r → meta_used B cur →
  file_ok cur (itab s ip) → 0 ≤ bn < NDIRECT → baddr cur (itab s ip) bn = 0 →
  wp (do addr <- balloc d;
      if addr =? 0 then ret 0 else do! upd_inode ip (set_addr bn addr); ret addr)
     (bmap_post s L cur r ip bn) s.
Proof.
  intros Ht Hsb He Hm Hf Hbn H0. pose proof (eff_room L (itab s ip) r).
  apply wp_bind. eapply wp_mono.
  { apply (balloc_file s [] L cur r (itab s ip)); try done; [lia|cbn; lia|].
    intros y Hy. by apply not_elem_of_nil in Hy. }
  intros a s1 (Hs1 & _ & Hcase). assert (Hit : itab s1 = itab s) by apply Hs1.
  destruct Hcase as [(-> & Ht1 & Hall)|(cur1 & Ht1 & Hff)].
  - apply wp_ret. exists L, cur, r. split; [by apply grown_refl|]. left. by rewrite Hit.
  - destruct (live_range _ _ (ff_live _ _ _ _ Hff)) as (Ha & _).
    rewrite (proj2 (Z.eqb_neq a 0)) by lia. apply wp_bind, wp_modify, wp_ret.
    set (s2 := mk_fs _ _ _ _ _ _). set (x' := set_addr bn a (itab s ip)).
    assert (Hx : itab s2 ip = x') by (unfold s2; cbn; by rewrite fn_lookup_alter, Hit).
    destruct (attach_direct cur (itab s ip) bn a cur1 Hff Hbn H0) as (Hf2 & Hby & Hba).
    pose proof consts as (H12 & _ & H268 & _).
    exists (a :: sb_bmapstart B :: L), cur1, (r - cost L (sb_bmapstart B) - 1). split.
    + split; rewrite ?Hx; try done.
      * by apply (tx_flog s1).
      * apply (top_but_trans ip s s1); [by apply same_top_but|]. repeat split.
        intros j Hj. unfold s2. cbn. by rewrite fn_lookup_alter_ne.
      * apply Hff.
      * intros k Hk Hne. fold x' in Hba. rewrite Hba by done.
        destruct (Z.eqb_spec k bn) as [->|]; done.
      * apply (outside_intro _ _ _ _ a (ff_same _ _ _ _ Hff a)); [apply Hff| |].
        { intros y Hy _. by apply (ff_held _ _ _ _ Hff). }
        intros y Hy [Hy1 Hy2]. apply (ff_held _ _ _ _ Hff) in Hy as (_ & _ & Hya). split.
        { unfold x'. cbn. rewrite fn_lookup_insert_ne by lia. done. }
        intros k Hk. fold x' in Hba. rewrite Hba by done. case_test; [done|auto].
      * intros b Hb. right. by right.
    + right. split; [lia|]. rewrite Hx. fold x' in Hba. rewrite Hba, Z.eqb_refl by lia.
      split; [done|]. unfold eff, ind_cost, x'. cbn [set_addr i_addrs].
      rewrite (fn_lookup_insert_ne _ bn NDIRECT) by lia.
      assert (cost (a :: sb_bmapstart B :: L) a = 0) as ->
        by (unfold cost; rewrite decide_True by (by left); done).
      assert (cost (a :: sb_bmapstart B :: L) (sb_bmapstart B) = 0) as ->
        by (unfold cost; rewrite decide_True by (right; by left); done).
      pose proof (cost_mono L (a :: sb_bmapstart B :: L) (i_addrs (itab s ip) NDIRECT)
        ltac:(intros b Hb; right; by right)). case_test; lia.
Qed.

(** The indirect block, allocated if there is none. *)
Lemma bmap_indirect s L cur r ip :
  tx s [] [] L cur r → sb s = B → 3 ≤ eff L (itab s ip) r → meta_used B cur →
  file_ok cur (itab s ip) →
  wp (let addr := i_addrs (itab s ip) NDIRECT in
      if addr =? 0 then
        do addr <- balloc d;
        if addr =? 0 then ret 0 else do! upd_inode ip (set_addr NDIRECT addr); ret addr
      else ret addr)
     (fun a s1 => ∃ L1 cur1 r1, grown ip s L cur s1 L1 cur1 r1 (fbyte cur (itab s ip)) ∧
        eff L (itab s ip) r ≤ eff L1 (itab s1 ip) r1 ∧
        ((a = 0 ∧ ∀ y, 0 ≤ y < sb_size B → used B cur1 y = true) ∨
         (a ≠ 0 ∧ a = i_addrs (itab s1 ip) NDIRECT)) ∧
        ∀ k, 0 ≤ k < MAXFILE → baddr cur1 (itab s1 ip) k = baddr cur (itab s ip) k) s.
Proof.
  intros Ht Hsb He Hm Hf. pose proof (eff_room L (itab s ip) r). cbv zeta.
  destruct (i_addrs (itab s ip) NDIRECT =? 0) eqn:E; destruct_bool_tests.
  2: { apply wp_ret. exists L, cur, r. split; [by apply grown_refl; [..|apply same_top_refl]|].
       split; [done|]. split; [by right|done]. }
  apply wp_bind. eapply wp_mono.
  { apply (balloc_file s [] L cur r (itab s ip)); try done; [lia|cbn; lia|].
    intros y Hy. by apply not_elem_of_nil in Hy. }
  intros a s1 (Hs1 & _ & Hcase). assert (Hit : itab s1 = itab s) by apply Hs1.
  destruct Hcase as [(-> & Ht1 & Hall)|(cur1 & Ht1 & Hff)].
  - apply wp_ret. exists L, cur, r. split; [by apply grown_refl|]. rewrite Hit. split; [done|].
    split; [by left|done].
  - destruct (live_range _ _ (ff_live _ _ _ _ Hff)) as (Ha & _).
    rewrite (proj2 (Z.eqb_neq a 0)) by lia. apply wp_bind, wp_modify, wp_ret.
    set (s2 := mk_fs _ _ _ _ _ _). set (x' := set_addr NDIRECT a (itab s ip)).
    assert (Hx : itab s2 ip = x') by (unfold s2; cbn; by rewrite fn_lookup_alter, Hit).
    destruct (attach_indirect cur (itab s ip) a cur1 Hff E) as (Hf2 & Hby & Hba).
    fold x' in Hf2, Hby, Hba.
    exists (a :: sb_bmapstart B :: L), cur1, (r - cost L (sb_bmapstart B) - 1). split.
    + split; rewrite ?Hx; try done.
      * by apply (tx_flog s1).
      * apply (top_but_trans ip s s1); [by apply same_top_but|]. repeat split.
        intros j Hj. unfold s2. cbn. by rewrite fn_lookup_alter_ne.
      * apply Hff.
      * intros k Hk Hne. by apply Hba.
      * apply (outside_intro _ _ _ _ a (ff_same _ _ _ _ Hff a)); [apply Hff| |].
        { intros y Hy _. by apply (ff_held _ _ _ _ Hff). }
        intros y Hy [Hy1 Hy2]. apply (ff_held _ _ _ _ Hff) in Hy as (_ & _ & Hya). split.
        { unfold x'. cbn. by rewrite fn_lookup_insert. }
        intros k Hk. rewrite Hba by done. auto.
      * intros b Hb. right. by right.
    + rewrite Hx. split; [|split; [|done]].
      * unfold eff, ind_cost, x'. cbn [set_addr i_addrs]. rewrite fn_lookup_insert, E.
        rewrite (proj2 (Z.eqb_neq a 0)) by lia. cbn.
        assert (cost (a :: sb_bmapstart B :: L) a = 0) as ->
          by (unfold cost; rewrite decide_True by (by left); done).
        assert (cost (a :: sb_bmapstart B :: L) (sb_bmapstart B) = 0) as ->
          by (unfold cost; rewrite decide_True by (right; by left); done). lia.
      * right. split; [lia|]. unfold x'. cbn. by rewrite fn_lookup_insert.
Qed.

Lemma cost_in L bn : bn ∈ L → cost L bn = 0.
Proof. intros. unfold cost. by rewrite decide_True. Qed.

Lemma bmap_entry_post s L cur r ip bn a cur1 s' :
  fresh_for cur (itab s ip) a cur1 → NDIRECT ≤ bn < MAXFILE → baddr cur (itab s ip) bn = 0 →
  let ind := i_addrs (itab s ip) NDIRECT in
  let L1 := a :: sb_bmapstart B :: L in
  ind ≠ 0 → same_top s s' →
  tx s' [] [] (ind :: L1) (<[ind := st32 (cur1 ind) (4 * (bn - NDIRECT)) a]> cur1)
    (r - cost L (sb_bmapstart B) - 1 - cost L1 ind) →
  bmap_post s L cur r ip bn a s'.
Proof.
  intros Hff Hbn H0 ind L1 Hi Hs Ht. assert (Hit : itab s' = itab s) by apply Hs.
  destruct (live_range _ _ (ff_live _ _ _ _ Hff)) as (Ha & _).
  destruct (attach_entry cur (itab s ip) bn a cur1 Hff Hbn H0 Hi) as (Hf2 & Hby & Hba & Hm2 & Ho2).
  fold ind in Hf2, Hby, Hba, Hm2, Ho2. set (cur2 := <[ind := _]> cur1) in *.
  eexists _, cur2, _. split.
  - split; rewrite ?Hit; [exact Ht|..]; try done.
    + by apply same_top_but.
    + intros k Hk Hne. rewrite Hba by done. destruct (Z.eqb_spec k bn) as [->|]; done.
    + apply (outside_intro _ _ _ _ ind Ho2); [|by intros y _ [? _]|].
      { destruct (fo_ind _ _ Hf2) as [?|[? _]]; done. }
      intros y Hy [Hy1 Hy2]. apply (ff_held _ _ _ _ Hff) in Hy as (_ & _ & Hya). split; [done|].
      intros k Hk. rewrite Hba by done. case_test; [done|auto].
    + intros b Hb. do 2 right. by right.
  - right. split; [lia|]. rewrite Hit. pose proof consts as (H12 & _).
    rewrite Hba, Z.eqb_refl by lia. split; [done|]. unfold eff, ind_cost. fold ind.
    rewrite (proj2 (Z.eqb_neq ind 0)) by done.
    rewrite (cost_in (ind :: L1)), (cost_in (ind :: L1) ind), (cost_in (ind :: L1) a)
      by (unfold L1; rewrite !elem_of_cons; auto).
    pose proof (cost_mono L L1 ind ltac:(intros b Hb; right; by right)). lia.
Qed.

(** An entry of the indirect block that is 0 gets a fresh block. *)
Lemma bmap_entry s L cur r ip bn :
  tx s [] [] L cur r → sb s = B → 3 ≤ eff L (itab s ip) r → meta_used B cur →
  file_ok cur (itab s ip) → NDIRECT ≤ bn < MAXFILE → baddr cur (itab s ip) bn = 0 →
  i_addrs (itab s ip) NDIRECT ≠ 0 →
  wp (do bp <- bread_ d (i_addrs (itab s ip) NDIRECT);
      do dat <- bdata bp;
      do addr <- (let addr := ld32 dat (4 * (bn - NDIRECT)) in
                  if addr =? 0 then
                    do addr <- balloc d;
                    do! (if negb (addr =? 0) then
                           do! put_bdata bp (fun dat => st32 dat (4 * (bn - NDIRECT)) addr);
                           log_write_ bp
                         else ret tt);
                    ret addr
                  else ret addr);
      do! brelse_ bp;
      ret addr) (bmap_post s L cur r ip bn) s.
Proof.
  intros Ht Hsb He Hm Hf Hbn H0 Hi. set (ind := i_addrs (itab s ip) NDIRECT) in *.
  assert (He' : eff L (itab s ip) r = r - cost L (sb_bmapstart B) - cost L ind)
    by (unfold eff, ind_cost; fold ind; by rewrite (proj2 (Z.eqb_neq ind 0))).
  pose proof (cost_range L (sb_bmapstart B)). pose proof (cost_range L ind).
  destruct (fo_ind _ _ Hf) as [?|Hli]; [done|]. fold ind in Hli.
  destruct (live_range _ _ Hli) as (Hir & Hih & _).
  apply wp_bind. eapply wp_mono.
  { apply (bread_tx d st sz Lsz s [] [] L cur r); [done|cbn; lia|lia|apply not_elem_of_nil]. }
  intros bp s1 (Ht1 & Hb1 & _ & Hs1). apply wp_bind.
  eapply wp_mono; [apply (bdata_tx d st sz s1 _ _ _ _ _ bp _ Ht1 Hb1); by left|].
  intros dat s1' [-> ->]. cbv zeta. replace (ld32 (cur ind) (4 * (bn - NDIRECT))) with 0.
  2: { symmetry. etrans; [|exact H0]. unfold baddr. fold ind.
       by rewrite (proj2 (Z.ltb_ge _ _)), (proj2 (Z.eqb_neq ind 0)) by (done || lia). }
  change (0 =? 0) with true. cbv iota. apply wp_bind, wp_bind. eapply wp_mono.
  { apply (balloc_file s1 [ind] L cur r (itab s ip)); try done; [|lia|cbn; lia|].
    - rewrite <- Hsb. apply Hs1.
    - by intros y ->%list_elem_of_singleton. }
  intros a s2 (Hs2 & Hk2 & Hcase). pose proof (Hk2 bp ind ltac:(by left) Hb1) as Hb2.
  destruct Hcase as [(-> & Ht2 & Hall)|(cur1 & Ht2 & Hff)].
  - cbn [negb Z.eqb]. apply wp_bind, wp_ret, wp_ret, wp_bind. eapply wp_mono.
    { apply (brelse_tx d st sz s2 [] [] _ _ _ bp _ Ht2 Hb2), not_elem_of_nil. }
    intros ? s3 (Ht3 & _ & Hs3). apply wp_ret. assert (Hs : same_top s s3) by top.
    assert (Hit : itab s3 = itab s) by apply Hs.
    exists L, cur, r. split; [by apply grown_refl|]. left. rewrite Hit. done.
  - destruct (live_range _ _ (ff_live _ _ _ _ Hff)) as (Ha & _).
    rewrite (proj2 (Z.eqb_neq a 0)) by lia. cbn [negb]. apply wp_bind, wp_bind.
    eapply wp_mono; [apply (put_tx d st sz s2 _ _ _ _ _ bp ind _ Ht2 Hb2); by left|].
    intros ? s3 (Ht3 & Hk3 & Hs3). set (L1 := a :: sb_bmapstart B :: L) in *.
    pose proof (cost_mono L L1 ind ltac:(intros b Hb; right; by right)).
    pose proof (cost_range L1 ind). eapply wp_mono.
    { apply (log_write_tx d st sz Lsz s3 _ _ _ _ _ bp ind [] Ht3 (Hk3 _ _ Hb2));
        [by left|done|lia|]. intros b ->%list_elem_of_singleton. by left. }
    intros ? s4 (Ht4 & Hk4 & Hs4). apply wp_ret, wp_bind. eapply wp_mono.
    { apply (brelse_tx d st sz s4 [] [] _ _ _ bp ind Ht4); [by apply Hk4, Hk3|apply not_elem_of_nil]. }
    intros ? s5 (Ht5 & _ & Hs5). apply wp_ret. assert (Hs : same_top s s5) by top.
    by apply (bmap_entry_post s L cur r ip bn a cur1 s5).
Qed.

(** The [bn]th block of a file, allocated if it is not there. *)
Lemma bmap_spec s L cur r ip bn :
  tx s [] [] L cur r → sb s = B → 3 ≤ eff L (itab s ip) r → meta_used B cur →
  file_ok cur (itab s ip) → 0 ≤ bn < MAXFILE →
  wp (bmap ip bn) (bmap_post s L cur r ip bn) s.
Proof.
  intros Ht Hsb He Hm Hf Hbn. pose proof (eff_room L (itab s ip) r).
  destruct (Z.eq_dec (baddr cur (itab s ip) bn) 0) as [H0|Hne].
  2: { eapply wp_mono; [by apply (bmap_hit s L cur r); try done; lia|].
       intros a s1 (-> & Ht1 & Hs1). assert (Hit : itab s1 = itab s) by apply Hs1.
       exists L, cur, r. split; [by apply grown_refl|]. right. rewrite Hit.
       pose proof (cost_range L (baddr cur (itab s ip) bn)). split; [done|]. split; [done|lia]. }
  pose proof consts as (H12 & H256 & H268 & _).
  unfold bmap. apply wp_bind, wp_gets. rewrite (fo_dev _ _ Hf).
  destruct (bn <? NDIRECT) eqn:E; destruct_bool_tests.
  { assert (i_addrs (itab s ip) bn = 0) as ->
      by (unfold baddr in H0; by rewrite (proj2 (Z.ltb_lt _ _)) in H0).
    cbn [Z.eqb]. apply bmap_direct; done || lia. }
  cbv zeta. rewrite (proj2 (Z.ltb_lt (bn - NDIRECT) NINDIRECT)) by lia.
  apply wp_bind. eapply wp_mono; [by apply (bmap_indirect s L cur r ip)|].
  intros ind s1 (L1 & cur1 & r1 & Hg & He1 & Hcase & Hba).
  destruct Hcase as [(-> & Hall)|(Hi & ->)].
  { apply wp_ret. exists L1, cur1, r1. split; [done|]. by left. }
  rewrite (proj2 (Z.eqb_neq (i_addrs _ _) 0)) by done. pose proof Hg as [T1 P1 F1 K1 M1 Y1 A1 O1 G1].
  eapply wp_mono.
  { apply (bmap_entry s1 L1 cur1 r1 ip bn); try done; try lia; [|by rewrite Hba].
    rewrite <- Hsb. apply P1. }
  intros a s2 (L2 & cur2 & r2 & Hg2 & Hres). exists L2, cur2, r2.
  split.
  { eapply grown_bytes; [by eapply grown_trans|]. intros o Ho. by apply Y1. }
  destruct Hres as [(? & ? & ?)|(? & ? & ?)]; [left|right].
  - split; [done|]. split; [done|lia].
  - split; [done|]. split; [done|lia].
Qed.

End file.
