(* ===== verification/FsWrite.v ===== *)
(** * Writing to files (kernel/fs.c: writei, iupdate): theorems

    [writei] stores bytes at an offset of a file, allocating the blocks it
    needs, and writes the inode back.  The contents of the file afterwards
    are the old ones with the bytes stored; no other file changes; the log
    has room for it if the caller keeps to the limit of filewrite. *)

From stdpp Require Import functions.
From S2P Require Import Prelude Mem Riscv Kalloc Sleeplock Bio BioSpec Log LogSpec Fs FsTx FsBlock FsFile.

(** ** Bytes stored in pieces *)

Lemma store_bytes_app m off l1 l2 o :
  store_bytes (store_bytes m off l1) (off + Z.of_nat (length l1)) l2 o = store_bytes m off (l1 ++ l2) o.
Proof.
  unfold store_bytes. rewrite length_app, Nat2Z.inj_add.
  destruct (decide (o < off + Z.of_nat (length l1))) as [H1|H1].
  - rewrite (proj2 (Z.leb_gt (off + Z.of_nat (length l1)) o)) by lia. cbn [andb].
    destruct (decide (off ≤ o)) as [H2|H2].
    + rewrite (proj2 (Z.leb_le off o)), !(proj2 (Z.ltb_lt _ _)) by lia. cbn [andb].
      by rewrite app_nth1 by lia.
    + by rewrite (proj2 (Z.leb_gt off o)) by lia.
  - rewrite (proj2 (Z.leb_le (off + Z.of_nat (length l1)) o)) by lia.
    rewrite (proj2 (Z.leb_le off o)), (proj2 (Z.ltb_ge o (off + Z.of_nat (length l1)))) by lia.
    cbn [andb]. rewrite <- Z.add_assoc. case_test; [|done].
    rewrite app_nth2 by lia. do 2 f_equal. lia.
Qed.

Section write.
Context (d : Z) (B : superblock) (HB : layout_ok B) (Hone : sb_size B ≤ BPB).
#[local] Abbreviation st := (sb_logstart B).
#[local] Abbreviation sz := (sb_nlog B).
#[local] Abbreviation tx := (tx d st sz).
#[local] Abbreviation Lsz := (layout_sz B HB).
#[local] Abbreviation file_ok := (file_ok d B).
#[local] Abbreviation live := (live B).
#[local] Abbreviation outside := (outside B).

(** Blocks in use and marks do not depend on the contents of data blocks. *)
Lemma used_data cur a v y : is_data B a → 0 ≤ y < sb_size B →
  used B (<[a := v]> cur) y = used B cur y.
Proof.
  intros Ha Hy. apply (used_ext B HB); [done|]. intros b Hb. apply fn_lookup_insert_ne.
  by apply (data_not_bitmap B).
Qed.
Lemma live_data cur a v y : is_data B a → live (<[a := v]> cur) y ↔ live cur y.
Proof.
  intros Ha. split; intros [Hy Hu]; (split; [done|]); [rewrite <- Hu; symmetry|rewrite <- Hu];
    apply used_data; try done; apply (is_data_range B HB) in Hy; lia.
Qed.

(** Bytes stored in one block of the file. *)
Lemma store_block cur x off l :
  file_ok cur x → meta_used B cur → 0 ≤ off →
  off + Z.of_nat (length l) ≤ MAXFILE * BSIZE → off mod BSIZE + Z.of_nat (length l) ≤ BSIZE →
  let a := baddr cur x (off / BSIZE) in
  let cur' := <[a := store_bytes (cur a) (off mod BSIZE) l]> cur in
  a ≠ 0 → off / BSIZE < MAXFILE →
  file_ok cur' x ∧ meta_used B cur' ∧ outside cur x cur' x ∧
  (∀ k, 0 ≤ k < MAXFILE → baddr cur' x k = baddr cur x k) ∧
  (∀ o, 0 ≤ o < MAXFILE * BSIZE → fbyte cur' x o = store_bytes (fbyte cur x) off l o).
Proof.
  intros Hf Hm Hoff Hend Hfit a cur' Ha Hk. pose proof consts as (_ & _ & H268 & HBS).
  assert (Hk0 : 0 ≤ off / BSIZE) by (rewrite HBS; zdm).
  destruct (fo_addr _ _ _ _ Hf (off / BSIZE) ltac:(lia)) as [?|[Had Hau]]; [done|]. fold a in Had, Hau.
  assert (Hb : ∀ k, 0 ≤ k < MAXFILE → baddr cur' x k = baddr cur x k).
  { intros k Hk'. apply baddr_ext; [|done]. intros Hi o _. unfold cur'.
    rewrite fn_lookup_insert_ne; [done|]. by apply (fo_ind_ne _ _ _ _ Hf). }
  split; [|split; [|split; [|split; [done|]]]].
  - split; try apply Hf.
    + destruct (fo_ind _ _ _ _ Hf); [by left|right; by apply live_data].
    + intros k Hk'. rewrite Hb by done. destruct (fo_addr _ _ _ _ Hf k Hk'); [by left|right; by apply live_data].
    + intros k k' Hk1 Hk2. rewrite !Hb by done. by apply (fo_inj _ _ _ _ Hf).
    + intros k Hk'. rewrite Hb by done. by apply (fo_ind_ne _ _ _ _ Hf).
  - intros b Hbr. pose proof (l_data _ HB). unfold cur'. rewrite used_data by (done || lia). by apply Hm.
  - split.
    + intros y Hy Hu. unfold cur'. by rewrite used_data.
    + intros y _ Hy. apply fn_lookup_insert_ne. by intros <-.
    + intros y Hy [Hy1 Hy2]. split; [apply fn_lookup_insert_ne, (Hy2 (off / BSIZE)); lia|]. split; [done|].
      intros k Hk'. rewrite Hb by done. auto.
  - intros o Ho. unfold fbyte at 1. rewrite Hb by (rewrite HBS in *; zdm).
    destruct (Z.eq_dec (o / BSIZE) (off / BSIZE)) as [Eb|Eb].
    + rewrite Eb. fold a. rewrite (proj2 (Z.eqb_neq a 0)) by done. unfold cur'.
      rewrite fn_lookup_insert. unfold store_bytes at 2. case_test.
      * rewrite ld8_store_bytes_in by (rewrite HBS in *; zdm). do 2 f_equal. rewrite HBS in *. zdm.
      * rewrite ld8_store_bytes_out by (rewrite HBS in *; zdm). unfold fbyte. fold a.
        rewrite Eb. fold a. by rewrite (proj2 (Z.eqb_neq a 0)).
      * rewrite ld8_store_bytes_out by (rewrite HBS in *; zdm). unfold fbyte.
        rewrite Eb. fold a. by rewrite (proj2 (Z.eqb_neq a 0)).
    + trans (fbyte cur x o).
      * unfold fbyte. case_test; [done|]. unfold cur'. rewrite fn_lookup_insert_ne; [done|].
        intros E2. apply Eb. symmetry. apply (fo_inj _ _ _ _ Hf); try done; rewrite ?HBS in *; zdm.
      * unfold store_bytes. case_test; [exfalso; rewrite HBS in *; zdm|done..].
Qed.
#[local] Abbreviation grown := (grown d B).
#[local] Abbreviation eff := (eff B).

Lemma eff_logged L x r a : eff L x r - cost L a ≤ eff (a :: L) x (r - cost L a).
Proof.
  unfold FsFile.eff, ind_cost.
  pose proof (cost_mono L (a :: L) (sb_bmapstart B) ltac:(intros; by right)).
  pose proof (cost_mono L (a :: L) (i_addrs x NDIRECT) ltac:(intros; by right)).
  case_test; lia.
Qed.

(** Bytes copied into a block of the file, and the block logged. *)
Lemma write_block s L cur r ip off l :
  tx s [] [] L cur r → 1 ≤ r → file_ok cur (itab s ip) → meta_used B cur → 0 ≤ off →
  off + Z.of_nat (length l) ≤ MAXFILE * BSIZE → off mod BSIZE + Z.of_nat (length l) ≤ BSIZE →
  let a := baddr cur (itab s ip) (off / BSIZE) in
  a ≠ 0 → off / BSIZE < MAXFILE →
  wp (do bp <- bread_ d a;
      do! put_bdata bp (fun dat => store_bytes dat (off mod BSIZE) l);
      do! log_write_ bp;
      brelse_ bp) (fun _ s' => ∃ cur',
    grown ip s L cur s' (a :: L) cur' (r - cost L a) (store_bytes (fbyte cur (itab s ip)) off l) ∧
    itab s' = itab s ∧ ∀ k, 0 ≤ k < MAXFILE → baddr cur' (itab s ip) k = baddr cur (itab s ip) k) s.
Proof.
  intros Ht Hr Hf Hm Hoff Hend Hfit a Ha Hk.
  destruct (store_block cur (itab s ip) off l Hf Hm Hoff Hend Hfit Ha Hk) as (Hf' & Hm' & Ho & Hb & Hby).
  fold a in Hf', Hm', Ho, Hb, Hby.
  assert (Hk0 : 0 ≤ off / BSIZE) by (change BSIZE with 1024; zdm).
  destruct (fo_addr _ _ _ _ Hf (off / BSIZE) ltac:(lia)) as [?|Hl]; [done|]. fold a in Hl.
  destruct (live_range _ HB _ _ Hl) as (Har & Hah & _).
  eapply wp_mono.
  { apply (update_tx d st sz Lsz s [] L cur r a); try done; [cbn; lia|apply not_elem_of_nil]. }
  intros ? s' (Ht' & _ & Hs'). assert (Hit : itab s' = itab s) by apply Hs'.
  eexists. split; [|done]. split; rewrite ?Hit; [exact Ht'|..]; try done.
  - by apply same_top_but.
  - intros k Hk' _. by apply Hb.
  - intros b Hbl. by right.
Qed.

(** Blocks below offset [n] are there. *)
Definition present (cur : Z → block) (x : inode) (n : Z) : Prop :=
  ∀ k, 0 ≤ k → k * BSIZE < n → baddr cur x k ≠ 0.

(** Number of blocks that [n] bytes at [off] touch. *)
Definition nblk (off n : Z) : Z := if n =? 0 then 0 else (off + n - 1) / BSIZE - off / BSIZE + 1.

Lemma nblk_step off n m :
  0 ≤ off → 0 < n → m = Z.min n (BSIZE - off mod BSIZE) → nblk (off + m) (n - m) + 1 ≤ nblk off n.
Proof. intros Ho Hn ->. unfold nblk. change BSIZE with 1024. do 2 case_test; zdm. Qed.

Lemma wp_then {S A C} (c1 : M S A) (c2 c3 c4 : A → M S unit) (k : M S C) Q s :
  wp (do x <- c1; do! c2 x; do! c3 x; c4 x) (fun _ s' => wp k Q s') s →
  wp (do x <- c1; do! c2 x; do! c3 x; do! c4 x; k) Q s.
Proof.
  unfold wp, bind. destruct (c1 s) as [[x s1]| | |]; try done.
  destruct (c2 x s1) as [[? s2]| | |]; try done. destruct (c3 x s2) as [[? s3]| | |]; try done.
  by destruct (c4 x s3) as [[? s4]| | |].
Qed.

Definition writei_post (s : fs) (L : list Z) (cur : Z → block) (r ip : Z) (l : list Z) (off n tot : Z)
    (p : Z * Z) (s' : fs) : Prop :=
  ∃ L' cur' r' w, p = (tot + w, off + w) ∧ 0 ≤ w ≤ n - tot ∧
  grown ip s L cur s' L' cur' r'
    (store_bytes (fbyte cur (itab s ip)) off (take (Z.to_nat w) l)) ∧
  (tot + w < n → ∀ y, 0 ≤ y < sb_size B → used B cur' y = true) ∧
  present cur' (itab s' ip) (off + w) ∧
  eff L (itab s ip) r - nblk off (n - tot) ≤ eff L' (itab s' ip) r'.

Lemma present_step cur x cur' x' off m :
  0 ≤ off → 0 < m → off mod BSIZE + m ≤ BSIZE → off + m ≤ MAXFILE * BSIZE → present cur x off →
  (∀ k, 0 ≤ k < MAXFILE → baddr cur x k ≠ 0 → baddr cur' x' k ≠ 0) →
  baddr cur' x' (off / BSIZE) ≠ 0 → present cur' x' (off + m).
Proof.
  intros Hoff Hm Hfit Hend Hp Hmono Hne k Hk0 Hk. change BSIZE with 1024 in *. change MAXFILE with 268 in *.
  destruct (decide (k * 1024 < off)) as [Hlt|Hge].
  - apply Hmono; [lia|]. by apply Hp.
  - by replace k with (off / 1024) by zdm.
Qed.

Lemma store_bytes_ext m m' a l o : m o = m' o → store_bytes m a l o = store_bytes m' a l o.
Proof. intros E. unfold store_bytes. by rewrite E. Qed.

(** Nothing more is written. *)
Lemma writei_post_stop s L cur r ip l off n tot s' L' cur' r' :
  grown ip s L cur s' L' cur' r' (fbyte cur (itab s ip)) → tot ≤ n → 0 ≤ off →
  present cur (itab s ip) off → off ≤ MAXFILE * BSIZE →
  (tot < n → ∀ y, 0 ≤ y < sb_size B → used B cur' y = true) →
  eff L (itab s ip) r ≤ eff L' (itab s' ip) r' →
  writei_post s L cur r ip l off n tot (tot, off) s'.
Proof.
  intros Hg Htn Hoff Hp Hend Hall He. exists L', cur', r', 0. rewrite !Z.add_0_r.
  split; [done|]. split; [lia|]. split.
  { eapply grown_bytes; [done|]. intros o _. unfold store_bytes.
    change (take (Z.to_nat 0) l) with (@nil Z). change (Z.of_nat (length [])) with 0.
    case_test; [lia|done..]. }
  split; [done|]. split.
  - intros k Hk0 Hk. change BSIZE with 1024 in *. change MAXFILE with 268 in *.
    rewrite (gr_addr _ _ _ _ _ _ _ _ _ _ _ Hg); [by apply Hp|change MAXFILE with 268; lia|by apply Hp].
  - assert (0 ≤ nblk off (n - tot)); [|lia]. unfold nblk. change BSIZE with 1024. case_test; zdm.
Qed.

(** The bytes [take m l] are written, then the rest. *)
Lemma writei_post_cons s L cur r ip l off n tot m s1 L1 cur1 r1 p s' :
  grown ip s L cur s1 L1 cur1 r1 (store_bytes (fbyte cur (itab s ip)) off (take (Z.to_nat m) l)) →
  Z.of_nat (length l) = n - tot → 0 < n - tot → 0 ≤ off → m = Z.min (n - tot) (BSIZE - off mod BSIZE) →
  eff L (itab s ip) r - 1 ≤ eff L1 (itab s1 ip) r1 →
  writei_post s1 L1 cur1 r1 ip (drop (Z.to_nat m) l) (off + m) n (tot + m) p s' →
  writei_post s L cur r ip l off n tot p s'.
Proof.
  intros Hg Hlen Hn Hoff Hm He (L' & cur' & r' & w & -> & Hw & Hg' & Hfull & Hp & He').
  assert (Hm0 : 0 < m ≤ n - tot) by (subst m; change BSIZE with 1024; zdm).
  exists L', cur', r', (m + w). split; [f_equal; lia|]. split; [lia|]. split.
  - eapply grown_bytes; [by eapply grown_trans|]. intros o Ho.
    rewrite (store_bytes_ext _ _ _ _ o (gr_bytes _ _ _ _ _ _ _ _ _ _ _ Hg o Ho)).
    replace (off + m) with (off + Z.of_nat (length (take (Z.to_nat m) l)))
      by (rewrite length_take; lia).
    rewrite store_bytes_app. f_equal. rewrite Z2Nat.inj_add by lia. by rewrite take_take_drop.
  - split; [intros; apply Hfull; lia|]. split; [by replace (off + (m + w)) with (off + m + w) by lia|].
    pose proof (nblk_step off (n - tot) m Hoff Hn Hm). replace (n - tot - m) with (n - (tot + m)) in * by lia.
    lia.
Qed.

Lemma writei_loop_spec fuel s L cur r ip l off n tot :
  tx s [] [] L cur r → sb s = B → file_ok cur (itab s ip) → meta_used B cur →
  present cur (itab s ip) off → 0 ≤ off → tot ≤ n → off + (n - tot) ≤ MAXFILE * BSIZE →
  Z.of_nat (length l) = n - tot → n - tot ≤ Z.of_nat fuel →
  nblk off (n - tot) + 2 ≤ eff L (itab s ip) r →
  wp (writei_loop fuel ip (LocalSrc l) off n tot) (writei_post s L cur r ip l off n tot) s.
Proof.
  revert s L cur r l off tot; induction fuel as [|f IH];
    intros s L cur r l off tot Ht Hsb Hf Hm Hp Hoff Htn Hend Hlen Hfuel Heff; cbn [writei_loop].
  all: destruct (Z.ltb_spec tot n) as [Hlt|Hge]; try lia.
  1,3: apply wp_ret, writei_post_stop with L cur r; try (done || lia); by apply grown_refl.
  set (m := Z.min (n - tot) (BSIZE - off mod BSIZE)).
  assert (Hm' : 0 < m ≤ n - tot ∧ off mod BSIZE + m ≤ BSIZE) by (unfold m; change BSIZE with 1024; zdm).
  assert (Hk : 0 ≤ off / BSIZE < MAXFILE)
    by (change BSIZE with 1024 in *; change MAXFILE with 268 in *; zdm).
  pose proof (nblk_step off (n - tot) m Hoff ltac:(lia) eq_refl) as Hnb.
  assert (0 ≤ nblk (off + m) (n - tot - m)) as Hnb0
    by (unfold nblk; change BSIZE with 1024; case_test; zdm).
  apply wp_bind. eapply wp_mono.
  { apply (bmap_spec d B HB Hone s L cur r ip (off / BSIZE)); try done. lia. }
  intros a s1 (L1 & cur1 & r1 & Hg & Hcase). pose proof Hg as [T1 P1 F1 K1 M1 Y1 A1 O1 G1].
  destruct Hcase as [(-> & Hall & He1)|(Ha & -> & He1)].
  { apply wp_ret, writei_post_stop with L1 cur1 r1; try done; lia. }
  set (a := baddr cur1 (itab s1 ip) (off / BSIZE)) in *.
  rewrite (proj2 (Z.eqb_neq a 0)) by done. apply wp_bind, wp_gets. rewrite (fo_dev _ _ _ _ K1).
  cbv zeta. fold m. cbn [either_copyin].
  pose proof (eff_room B L1 (itab s1 ip) r1). pose proof (cost_range L1 a).
  eapply (wp_same _ (do bp <- bread_ d a;
    do! put_bdata bp (fun dat => store_bytes dat (off mod BSIZE) (take (Z.to_nat m) l));
    do! log_write_ bp; do! brelse_ bp;
    writei_loop f ip (source_add (LocalSrc l) m) (u32 (off + m)) n (tot + m))); [done|].
  apply wp_then. eapply wp_mono.
  { apply (write_block s1 L1 cur1 r1 ip off (take (Z.to_nat m) l)); try done; rewrite ?length_take; lia. }
  intros ? s2 (cur2 & Hg2 & Hit & Hb2). fold a in Hg2.
  pose proof (eff_logged L1 (itab s1 ip) r1 a).
  assert (Hg' : grown ip s L cur s2 (a :: L1) cur2 (r1 - cost L1 a)
    (store_bytes (fbyte cur (itab s ip)) off (take (Z.to_nat m) l))).
  { eapply grown_bytes; [by eapply grown_trans|]. intros o Ho. apply store_bytes_ext. by apply Y1. }
  rewrite u32_small by (change BSIZE with 1024 in *; change MAXFILE with 268 in *; lia).
  pose proof Hg2 as [T2 P2 F2 K2 M2 Y2 A2 O2 G2]. cbn [source_add].
  eapply wp_mono.
  { apply (IH s2 (a :: L1) cur2 (r1 - cost L1 a)); try done; rewrite ?length_drop, ?Hit; try lia.
    - rewrite <- Hsb. etrans; [apply P2|apply P1].
    - apply (present_step cur (itab s ip) cur2 _ off m); try done; try lia.
      + intros k Hk' Hne. rewrite Hb2, A1 by done. done.
      + by rewrite Hb2.
    - replace (n - (tot + m)) with (n - tot - m) by lia. lia. }
  intros p s' Hpost. by eapply writei_post_cons; [..|exact Hpost]; try done; rewrite ?Hit; try lia.
Qed.

(** ** iupdate *)

Lemma IBLOCK_eq i : 0 ≤ i < sb_ninodes B → is_iblock B (IBLOCK i B).
Proof.
  intros Hi. pose proof (size_pos B HB). destruct HB as [(? & ? & ?) [? ?] [? ?]].
  unfold is_iblock, IBLOCK, datastart, IPB in *. change (BSIZE / sizeof_dinode) with 16 in *.
  assert (0 ≤ (sb_size B - 1) / BPB) by (change BPB with 8192; zdm).
  rewrite u32_small by zdm. zdm.
Qed.

Lemma iblock_other i : 0 ≤ i < sb_ninodes B →
  home st sz (IBLOCK i B) ∧ ¬ is_bitmap B (IBLOCK i B) ∧ ¬ is_data B (IBLOCK i B).
Proof.
  intros Hi%IBLOCK_eq. pose proof (l_data _ HB). unfold is_iblock, is_bitmap, is_data in *.
  assert (sb_bmapstart B < datastart B)
    by (pose proof (size_pos B HB); unfold datastart; change BPB with 8192; zdm).
  split; [|lia]. apply (layout_home B HB). lia.
Qed.

Lemma iupdate_spec s L cur r ip :
  tx s [] [] L cur r → sb s = B → 1 ≤ r → i_dev (itab s ip) = d →
  0 ≤ i_inum (itab s ip) < sb_ninodes B →
  let x := itab s ip in
  let ib := IBLOCK (i_inum x) B in
  wp (iupdate ip) (fun _ s' =>
    tx s' [] [] (ib :: L) (<[ib := store_dinode (dinode_off (i_inum x)) x (cur ib)]> cur) (r - cost L ib) ∧
    same_top s s') s.
Proof.
  intros Ht Hsb Hr Hd Hi x ib. unfold iupdate. apply wp_bind, wp_gets, wp_bind, wp_gets.
  fold x. rewrite Hsb. unfold x. rewrite Hd. fold x. fold ib.
  destruct (iblock_other _ Hi) as (Hh & _). fold x ib in Hh. eapply wp_mono.
  { apply (update_tx d st sz Lsz s [] L cur r ib); try done; [cbn; lia|apply not_elem_of_nil]. }
  intros ? s' (Ht' & _ & Hs'). done.
Qed.

(** A change of a block that is neither data nor bitmap. *)
Lemma other_block cur x b v :
  ¬ is_bitmap B b → ¬ is_data B b → file_ok cur x →
  file_ok (<[b := v]> cur) x ∧ (∀ k, 0 ≤ k < MAXFILE → baddr (<[b := v]> cur) x k = baddr cur x k) ∧
  (∀ o, 0 ≤ o < MAXFILE * BSIZE → fbyte (<[b := v]> cur) x o = fbyte cur x o) ∧
  (∀ y, 0 ≤ y < sb_size B → used B (<[b := v]> cur) y = used B cur y).
Proof.
  intros Hb Hd Hf.
  assert (Hu : ∀ y, 0 ≤ y < sb_size B → used B (<[b := v]> cur) y = used B cur y).
  { intros y Hy. apply (used_ext B HB); [done|]. intros a Ha. apply fn_lookup_insert_ne. by intros ->. }
  destruct (file_ok_ext d B cur (<[b := v]> cur) x Hf) as (H1 & H2 & H3); [| |done].
  - intros y [Hy Hyu]. split; [done|]. pose proof (is_data_range B HB y Hy).
    rewrite Hu by lia. done.
  - intros y [Hy _] _. apply fn_lookup_insert_ne. by intros ->.
Qed.

(** ** writei *)

(** The file [ip] after [w] bytes of [l] have been written at [off]. *)
Record wrote_file (s : fs) (cur : Z → block) (ip : Z) (l : list Z) (off w : Z)
    (s' : fs) (cur' : Z → block) : Prop := {
  wf_top : top_but ip s s';
  wf_file : file_ok cur' (itab s' ip);
  wf_meta : meta_used B cur';
  wf_holes : no_holes cur' (itab s' ip);
  wf_size : i_size (itab s' ip) = Z.max (i_size (itab s ip)) (off + w);
  wf_fields : same_fields (set_isize (i_size (itab s' ip)) (itab s ip)) (itab s' ip);
  wf_bytes : ∀ o, 0 ≤ o < MAXFILE * BSIZE →
    fbyte cur' (itab s' ip) o = store_bytes (fbyte cur (itab s ip)) off (take (Z.to_nat w) l) o;
  wf_used : ∀ y, 0 ≤ y < sb_size B → used B cur y = true → used B cur' y = true;
  wf_inode : let ib := IBLOCK (i_inum (itab s ip)) B in
    cur' ib = store_dinode (dinode_off (i_inum (itab s ip))) (itab s' ip) (cur ib);
  wf_other : ∀ y, ¬ is_bitmap B y → ¬ is_data B y → y ≠ IBLOCK (i_inum (itab s ip)) B → cur' y = cur y;
  wf_live : ∀ y, live cur y → foreign cur (itab s ip) y →
    cur' y = cur y ∧ foreign cur' (itab s' ip) y
}.

Lemma file_ok_size cur x v :
  file_ok cur x → 0 ≤ v ≤ MAXFILE * BSIZE → file_ok cur (set_isize v x).
Proof. intros [? ? ? ? ? ?] Hv. by split. Qed.

(** if(off > ip->size) ip->size = off. *)
Lemma set_size_spec s L cur r ip off :
  tx s [] [] L cur r →
  wp (if i_size (itab s ip) <? off then upd_inode ip (set_isize off) else ret tt) (fun _ s' =>
    tx s' [] [] L cur r ∧ top_but ip s s' ∧
    itab s' ip = set_isize (Z.max (i_size (itab s ip)) off) (itab s ip)) s.
Proof.
  intros Ht. case_test.
  - apply wp_modify. split; [by apply (tx_flog d B s)|]. split.
    + repeat split. intros j Hj. cbn. by rewrite fn_lookup_alter_ne.
    + cbn. rewrite fn_lookup_alter, Z.max_r by lia. done.
  - apply wp_ret. split; [done|]. split; [by apply same_top_but, same_top_refl|].
    rewrite Z.max_l by lia. by destruct (itab s ip).
Qed.

(** The loop, the new size and the inode on disk together. *)
Lemma wrote_file_intro s L cur ip l off w s1 L1 cur1 r1 s' :
  let x1 := itab s1 ip in
  let x' := set_isize (Z.max (i_size x1) (off + w)) x1 in
  let ib := IBLOCK (i_inum x') B in
  no_holes cur (itab s ip) → i_size (itab s ip) ≤ MAXFILE * BSIZE →
  0 ≤ i_inum (itab s ip) < sb_ninodes B → 0 ≤ off + w ≤ MAXFILE * BSIZE →
  grown ip s L cur s1 L1 cur1 r1 (store_bytes (fbyte cur (itab s ip)) off (take (Z.to_nat w) l)) →
  present cur1 x1 (off + w) → top_but ip s1 s' → itab s' ip = x' →
  wrote_file s cur ip l off w s' (<[ib := store_dinode (dinode_off (i_inum x')) x' (cur1 ib)]> cur1).
Proof.
  intros x1 x' ib Hnh Hsz0 Hin Hend Hg Hp Htop Hx. destruct Hg as [T1 P1 F1 K1 M1 Y1 A1 O1 G1].
  assert (Hinum : i_inum x' = i_inum (itab s ip)) by apply F1.
  assert (Hsize : i_size x1 = i_size (itab s ip)) by apply F1.
  destruct (iblock_other (i_inum x') ltac:(rewrite Hinum; done)) as (_ & Hnb & Hnd). fold ib in Hnb, Hnd.
  set (v := store_dinode _ _ _).
  assert (Hf' : file_ok cur1 x') by (apply file_ok_size; [done|]; lia).
  destruct (other_block cur1 x' ib v Hnb Hnd Hf') as (Hf2 & Hb2 & Hy2 & Hu2).
  assert (Hlive : ∀ y, live cur y → y ≠ ib) by (intros y [Hy _] ->; done).
  split; rewrite ?Hx; try done.
  - by eapply top_but_trans.
  - intros b Hb. pose proof (l_data _ HB). rewrite Hu2 by lia. by apply M1.
  - intros k Hk0 Hk. change (i_size x') with (Z.max (i_size x1) (off + w)) in Hk.
    assert (k < MAXFILE) by (change BSIZE with 1024 in *; change MAXFILE with 268 in *; lia).
    rewrite Hb2 by lia. change (baddr cur1 x1 k ≠ 0). destruct (decide (k * BSIZE < off + w)); [by apply Hp|].
    rewrite A1; [apply Hnh; lia|lia|apply Hnh; lia].
  - by rewrite <- Hsize.
  - by destruct F1 as (? & ? & ? & ? & ? & ? & ? & ? & ? & ?).
  - intros o Ho. rewrite Hy2 by done. by apply Y1.
  - intros y Hy Hu. rewrite Hu2 by done. by apply O1.
  - cbn zeta. rewrite <- Hinum. fold ib. rewrite fn_lookup_insert. unfold v.
    by rewrite (out_meta _ _ _ _ _ O1) by done.
  - intros y Hy1 Hy3 Hne. rewrite <- Hinum in Hne. rewrite fn_lookup_insert_ne by done. by apply O1.
  - intros y Hl Hfo. destruct (out_live _ _ _ _ _ O1 y Hl Hfo) as [E1 [E2 E3]].
    rewrite fn_lookup_insert_ne by (by apply not_eq_sym, Hlive). split; [done|]. split; [done|].
    intros k Hk. rewrite Hb2 by done. by apply E3.
Qed.

Lemma writei_spec s L cur r ip l off :
  let n := Z.of_nat (length l) in
  tx s [] [] L cur r → sb s = B → file_ok cur (itab s ip) → no_holes cur (itab s ip) →
  meta_used B cur → 0 ≤ i_inum (itab s ip) < sb_ninodes B →
  0 ≤ off ≤ i_size (itab s ip) → off + n ≤ MAXFILE * BSIZE →
  nblk off n + 2 ≤ eff L (itab s ip) r →
  wp (writei ip (LocalSrc l) off n) (fun w s' => 0 ≤ w ≤ n ∧ ∃ L' cur' r',
    tx s' [] [] L' cur' r' ∧ 1 ≤ r' ∧ wrote_file s cur ip l off w s' cur' ∧
    (w < n → ∀ y, 0 ≤ y < sb_size B → used B cur' y = true)) s.
Proof.
  intros n Ht Hsb Hf Hnh Hm Hin Hoff Hend Heff. pose proof (fo_size _ _ _ _ Hf) as Hsz.
  assert (Hmax : MAXFILE * BSIZE = 274432) by done.
  unfold writei. apply wp_bind, wp_gets. rewrite u32_small by lia.
  rewrite (proj2 (Z.ltb_ge _ off)), (proj2 (Z.ltb_ge (off + n) off)) by lia. cbn [orb].
  rewrite (proj2 (Z.ltb_ge _ (off + n))) by lia. apply wp_bind. eapply wp_mono.
  { apply (writei_loop_spec _ s L cur r ip l off n 0); try done; try lia.
    - intros k Hk0 Hk. apply Hnh; lia.
    - by rewrite Z.sub_0_r. }
  intros [tot off'] s1 (L1 & cur1 & r1 & w & Heq & Hw & Hg & Hfull & Hp & He1).
  injection Heq as -> ->. rewrite Z.add_0_l, Z.sub_0_r in *.
  pose proof Hg as [T1 P1 F1 K1 M1 Y1 A1 O1 G1].
  apply wp_bind, wp_gets, wp_bind. eapply wp_mono; [by apply (set_size_spec s1 L1 cur1 r1 ip (off + w))|].
  intros ? s2 (T2 & P2 & Hx2). pose proof (eff_room B L1 (itab s1 ip) r1).
  set (x' := set_isize (Z.max (i_size (itab s1 ip)) (off + w)) (itab s1 ip)) in *.
  assert (Hi : i_inum x' = i_inum (itab s ip)) by apply F1.
  apply wp_bind. eapply wp_mono.
  { apply (iupdate_spec s2 L1 cur1 r1 ip T2); rewrite ?Hx2, ?Hi; try done; [|lia|].
    - rewrite <- Hsb. etrans; [apply P2|apply P1].
    - apply (fo_dev _ _ _ _ K1). }
  intros ? s3 (T3 & P3). rewrite Hx2 in T3. apply wp_ret.
  rewrite i32_small by lia. split; [lia|]. eexists _, _, _. split; [exact T3|].
  pose proof (cost_range L1 (IBLOCK (i_inum x') B)). split; [lia|]. split.
  - apply (wrote_file_intro s L cur ip l off w s1 L1 cur1 r1 s3); try done; try lia.
    + eapply top_but_trans; [done|]. by apply same_top_but.
    + etrans; [|exact Hx2]. by rewrite (proj1 (proj2 P3)).
  - intros Hlt y Hy. rewrite (used_ext B HB cur1); [by apply Hfull|done|].
    intros b Hb. apply fn_lookup_insert_ne. intros <-. rewrite Hi in Hb.
    by apply (proj1 (proj2 (iblock_other _ Hin))).
Qed.

End write.
