(* ===== verification/FsProps.v ===== *)
(** * The file system as its callers see it

    Allocation of blocks and their release cancel, no block is freed twice;
    what is written to a file is what is read from it afterwards, and another
    file does not change. *)

From stdpp Require Import functions.
From S2P Require Import Prelude Mem Riscv Kalloc Sleeplock Bio BioSpec Log LogSpec Fs FsTx FsBlock FsFile FsWrite.

(** ** A small disk: 100 blocks, the log from block 2 on, inodes from 32 on,
    the bitmap in block 34 *)

Definition sample_sb : superblock := mk_sb FSMAGIC 100 65 16 30 2 32 34.

Definition sample_blocks : Z → block :=
  fun b o => if b =? 34 then if o <? 4 then 255 else if o =? 4 then 7 else 0 else 0.

Lemma sample_layout : layout_ok sample_sb.
Proof. split; repeat split; by vm_compute. Qed.

Lemma sample_used b :
  0 ≤ b < 100 → used sample_sb sample_blocks b = (b <? 35).
Proof.
  intros Hb. apply eqb_prop.
  assert (forallb (fun b => eqb (used sample_sb sample_blocks b) (b <? 35)) (seqZ 0 100) = true) as H
    by (vm_compute; reflexivity).
  rewrite forallb_forall in H. apply H, list_elem_of_In, elem_of_seqZ. lia.
Qed.

Lemma sample_meta : meta_used sample_sb sample_blocks.
Proof.
  intros b Hb. change (datastart sample_sb) with 35 in Hb. rewrite sample_used by lia.
  apply Z.ltb_lt. lia.
Qed.

(** An empty file. *)
Definition sample_inode (inum : Z) : inode :=
  mk_inode 1 inum 1 (mk_sleeplock 1 1) true T_FILE 0 0 1 0 (fun _ => 0).

Lemma sample_file inum : file_ok 1 sample_sb sample_blocks (sample_inode inum).
Proof.
  assert (∀ k, baddr sample_blocks (sample_inode inum) k = 0) as Hz
    by (intros k; unfold baddr; cbn; by case_test).
  split; try done; cbn; try lia; try by left.
  intros k k' _ _. by rewrite Hz.
Qed.

Lemma sample_state : ∃ s, tx 1 2 30 s [] [] [] sample_blocks 29 ∧ sb s = sample_sb ∧
  itab s = sample_inode.
Proof.
  destruct (fresh_tx 1 2 30 sample_blocks sample_sb sample_inode (mk_kmem (fun _ => 0) 0) 0 0 ltac:(lia) ltac:(lia))
    as (s & Ht & Hsb & Hit & _). by exists s.
Qed.

(** ** Blocks *)

(** Allocating a block and freeing it again gives back the same set of
    blocks in use and changes no other block; a block that was allocated was
    a data block not in use, and allocation fails only if every block of the
    disk is in use. *)
Theorem balloc_bfree d B s L cur r :
  layout_ok B → tx d (sb_logstart B) (sb_nlog B) s [] [] L cur r → sb s = B → 3 ≤ r →
  meta_used B cur →
  wp (do b <- balloc d; do! (if b =? 0 then ret tt else bfree d b); ret b) (fun b s' =>
    ∃ L' cur' r', tx d (sb_logstart B) (sb_nlog B) s' [] [] L' cur' r' ∧
    (∀ y, 0 ≤ y < sb_size B → used B cur' y = used B cur y) ∧
    (∀ y, y ≠ b → ¬ is_bitmap B y → cur' y = cur y) ∧
    (b = 0 → ∀ y, 0 ≤ y < sb_size B → used B cur y = true) ∧
    (b ≠ 0 → is_data B b ∧ used B cur b = false)) s.
Proof.
  intros HB Ht Hsb Hr Hm. apply wp_bind. eapply wp_mono.
  { apply (balloc_spec d B HB s [] L cur r); try done; [lia|cbn; lia|].
    by intros x Hx%not_elem_of_nil. }
  intros b s1 (Hs1 & _ & [(-> & Ht1 & Hall)|(Hb & Hu & cur1 & Ht1 & Hmark & Hz & Hsame)]).
  { apply wp_bind, wp_ret, wp_ret. exists L, cur, r. done. }
  pose proof (is_data_range B HB b Hb). rewrite (proj2 (Z.eqb_neq b 0)) by lia.
  pose proof (cost_range L (BBLOCK b B)). apply wp_bind. eapply wp_mono.
  { apply (bfree_spec d B HB s1 [] _ cur1 _ b Ht1); [|lia|cbn; lia| |lia|].
    - rewrite <- Hsb. apply Hs1.
    - by intros x Hx%not_elem_of_nil.
    - by rewrite Hmark, Z.eqb_refl by lia. }
  intros ? s2 (_ & _ & cur2 & Ht2 & Hfree & Hkeep). apply wp_ret. eexists _, cur2, _.
  split; [exact Ht2|]. split; [|split; [|split; [lia|done]]].
  - intros y Hy. rewrite Hfree, Hmark by done. destruct (Z.eqb_spec y b) as [->|]; [by rewrite Hu|done].
  - intros y Hne Hnb. rewrite Hkeep by done. by apply Hsame.
Qed.

Lemma balloc_bfree_witness :
  ∃ s b s', (do b <- balloc 1; do! (if b =? 0 then ret tt else bfree 1 b); ret b) s = Ok (b, s') ∧
    b ≠ 0 ∧ used sample_sb sample_blocks b = false.
Proof.
  destruct sample_state as (s & Ht & Hsb & _). exists s.
  destruct (proj1 (wp_ok _ _ _) (balloc_bfree 1 sample_sb s [] sample_blocks 29 sample_layout Ht Hsb
    ltac:(lia) sample_meta)) as (b & s' & Hrun & L' & cur' & r' & _ & _ & _ & Hfull & Hnew).
  exists b, s'. split; [exact Hrun|]. destruct (Z.eq_dec b 0) as [->|Hb].
  - specialize (Hfull eq_refl 50 ltac:(cbn; lia)). by rewrite sample_used in Hfull by lia.
  - split; [exact Hb|]. by apply Hnew.
Defined.

(** ** Files *)

Section files.
Context (d : Z) (B : superblock) (HB : layout_ok B) (Hone : sb_size B ≤ BPB).
#[local] Abbreviation tx := (tx d (sb_logstart B) (sb_nlog B)).

(** A file [ip] that a call may write [n] bytes to at [off], inside a
    transaction with room for it. *)
Record can_write (s : fs) (L : list Z) (cur : Z → block) (r ip off n : Z) : Prop := {
  cw_tx : tx s [] [] L cur r;
  cw_sb : sb s = B;
  cw_file : file_ok d B cur (itab s ip);
  cw_holes : no_holes cur (itab s ip);
  cw_meta : meta_used B cur;
  cw_inum : 0 ≤ i_inum (itab s ip) < sb_ninodes B;
  cw_off : 0 ≤ off ≤ i_size (itab s ip);
  cw_end : off + n ≤ MAXFILE * BSIZE;
  cw_room : nblk off n + 2 ≤ eff B L (itab s ip) r
}.

(** The room that MAXOPBLOCKS guarantees is enough for the writes that
    filewrite makes, of 3*BSIZE bytes at most. *)
Lemma room_enough L x r off n :
  0 ≤ off → 0 ≤ n ≤ 3 * BSIZE → MAXOPBLOCKS ≤ r → nblk off n + 2 ≤ eff B L x r.
Proof.
  intros Hoff Hn Hr. unfold eff. pose proof (cost_range L (sb_bmapstart B)).
  pose proof (ind_cost_range L x). assert (nblk off n ≤ 4); [|unfold MAXOPBLOCKS in *; lia].
  unfold nblk. change BSIZE with 1024 in *. case_test; zdm.
Qed.

Lemma can_write_spec s L cur r ip l off :
  can_write s L cur r ip off (Z.of_nat (length l)) →
  wp (writei ip (LocalSrc l) off (Z.of_nat (length l))) (fun w s' =>
    0 ≤ w ≤ Z.of_nat (length l) ∧ ∃ L' cur' r',
    tx s' [] [] L' cur' r' ∧ 1 ≤ r' ∧ wrote_file d B s cur ip l off w s' cur' ∧
    (w < Z.of_nat (length l) → ∀ y, 0 ≤ y < sb_size B → used B cur' y = true)) s.
Proof. intros [? ? ? ? ? ? ? ? ?]. by apply (writei_spec d B HB Hone s L cur r). Qed.

Lemma fbytes_written cur x cur' x' off l w :
  Forall (fun v => 0 ≤ v < 256) l → 0 ≤ off → 0 ≤ w ≤ Z.of_nat (length l) →
  off + w ≤ MAXFILE * BSIZE →
  (∀ o, 0 ≤ o < MAXFILE * BSIZE →
    fbyte cur' x' o = store_bytes (fbyte cur x) off (take (Z.to_nat w) l) o) →
  fbytes cur' x' off w = take (Z.to_nat w) l.
Proof.
  intros Hl Hoff Hw Hend Hb. set (l' := take (Z.to_nat w) l) in *.
  assert (Hlen : Z.of_nat (length l') = w) by (unfold l'; rewrite length_take; lia).
  etrans; [|apply (load_store_bytes (fbyte cur x) off l'); by apply Forall_take].
  unfold fbytes, load_bytes. rewrite Hlen. apply map_ext_in. intros i Hi%in_seq.
  rewrite Hb by lia. unfold ld8, store_bytes.
  rewrite (proj2 (Z.leb_le _ _)), (proj2 (Z.ltb_lt _ _)) by lia. cbn [andb].
  symmetry. apply Z.mod_mod. lia.
Qed.


(** No block of [x2] is a block of [x]. *)
Definition disjoint_files (cur : Z → block) (x x2 : inode) : Prop :=
  ∀ a, live B cur a → owns cur x2 a → foreign cur x a.

Lemma wrote_file_other s cur ip l off w s' cur' x2 :
  wrote_file d B s cur ip l off w s' cur' → file_ok d B cur x2 →
  disjoint_files cur (itab s ip) x2 →
  file_ok d B cur' x2 ∧ (∀ k, 0 ≤ k < MAXFILE → baddr cur' x2 k = baddr cur x2 k) ∧
  (∀ o, 0 ≤ o < MAXFILE * BSIZE → fbyte cur' x2 o = fbyte cur x2 o).
Proof.
  intros Hw Hf Hd. apply (file_ok_ext d B); [done| |].
  - intros a [Ha Hu]. split; [done|]. pose proof (is_data_range B HB a Ha).
    apply (wf_used _ _ _ _ _ _ _ _ _ _ Hw); [lia|done].
  - intros a Ha Ho. by apply (wf_live _ _ _ _ _ _ _ _ _ _ Hw), Hd.
Qed.

(** C3: Writing to one file leaves another one as it is: reading a file that
    has no block in common with it gives the bytes it had before. *)
Theorem writei_isolation s L cur r ip l off ip2 off2 n2 :
  can_write s L cur r ip off (Z.of_nat (length l)) → ip2 ≠ ip →
  file_ok d B cur (itab s ip2) → no_holes cur (itab s ip2) →
  disjoint_files cur (itab s ip) (itab s ip2) → 0 ≤ off2 < 2 ^ 31 → 0 ≤ n2 < 2 ^ 31 →
  let len := if i_size (itab s ip2) <? off2 then 0 else Z.min n2 (i_size (itab s ip2) - off2) in
  wp (do _ <- writei ip (LocalSrc l) off (Z.of_nat (length l)); readi ip2 LocalDst off2 n2)
     (fun p _ => p = (len, fbytes cur (itab s ip2) off2 len)) s.
Proof.
  intros Hc Hne Hf Hnh Hd Ho2 Hn2 len. apply wp_bind.
  eapply wp_mono; [by apply (can_write_spec s L cur r)|].
  intros w s1 (_ & L1 & cur1 & r1 & Ht1 & Hr1 & Hw & _).
  destruct (wrote_file_other _ _ _ _ _ _ _ _ (itab s ip2) Hw Hf Hd) as (Hf1 & Hb1 & Hy1).
  assert (Hit : itab s1 ip2 = itab s ip2) by (by apply (wf_top _ _ _ _ _ _ _ _ _ _ Hw)).
  pose proof (fo_size _ _ _ _ Hf) as Hsz. assert (Hmax : MAXFILE * BSIZE = 274432) by done.
  eapply wp_mono.
  { apply (readi_spec d B HB s1 L1 cur1 r1 ip2 off2 n2 Ht1); rewrite ?Hit; try done; try lia.
    intros k Hk0 Hk. rewrite Hb1; [by apply Hnh|].
    change BSIZE with 1024 in *. change MAXFILE with 268 in *. lia. }
  intros p s2 (-> & _). rewrite Hit. fold len. f_equal. unfold fbytes. apply map_ext_in.
  intros i Hi%in_seq. apply Hy1. unfold len in Hi. case_test_in Hi; lia.
Qed.
End files.

(** ** Examples: writing to an empty file *)

Lemma sample_can_write s n : 0 ≤ n ≤ 3 * BSIZE →
  tx 1 2 30 s [] [] [] sample_blocks 29 → sb s = sample_sb → itab s = sample_inode →
  can_write 1 sample_sb s [] sample_blocks 29 1 0 n.
Proof.
  intros Hn Ht Hsb Hit. split; rewrite ?Hit; try done.
  - apply sample_file.
  - intros k Hk0 Hk. change (k * 1024 < 0) in Hk. lia.
  - apply sample_meta.
  - change BSIZE with 1024 in *. change MAXFILE with 268. lia.
  - apply room_enough; [lia|done|unfold MAXOPBLOCKS; lia].
Qed.


Lemma writei_isolation_witness :
  ∃ s p s', (do _ <- writei 1 (LocalSrc [104; 105]) 0 2; readi 2 LocalDst 0 10) s = Ok (p, s') ∧
    p = (0, []).
Proof.
  destruct sample_state as (s & Ht & Hsb & Hit). exists s.
  destruct (proj1 (wp_ok _ _ _) (writei_isolation 1 sample_sb sample_layout ltac:(by vm_compute) s []
    sample_blocks 29 1 [104; 105] 0 2 0 10 (sample_can_write s 2 ltac:(by vm_compute) Ht Hsb Hit)
    ltac:(lia) ltac:(rewrite Hit; apply sample_file)
    ltac:(rewrite Hit; intros k Hk0 Hk; change (k * 1024 < 0) in Hk; lia)
    ltac:(rewrite Hit; intros a Ha _; split; [intros ->|intros k Hk <-];
      apply (live_range _ sample_layout) in Ha; unfold baddr in Ha; cbn in Ha; try case_test_in Ha; lia)
    ltac:(lia) ltac:(lia))) as (p & s' & Hrun & Hp).
  exists p, s'. split; [exact Hrun|]. by rewrite Hp, Hit.
Defined.
