(* ===== verification/FsDir.v ===== *)
(** * Directories (kernel/fs.c: dirlookup, dirlink, iget): theorems

    A directory is a file of entries; the ones whose inode number is not 0
    map names, cut at DIRSIZ bytes, to inodes.  [dirlookup] is the lookup of
    this map and [dirlink] its insertion. *)

From stdpp Require Import functions.
From S2P Require Import Prelude Mem Kstring Riscv Kalloc Sleeplock Bio BioSpec Log LogSpec Fs FsTx FsBlock FsFile FsWrite FsProps.

(** ** Entries *)

(** A name as namecmp() sees it. *)
Definition name_of (l : list Z) : list Z := cstrn (Z.to_nat DIRSIZ) (bytes_mem l) 0.

Lemma namecmp_zero s t : namecmp s t = 0 ↔ name_of s = name_of t.
Proof. apply strncmp_zero. Qed.

Abbreviation entry := (Z * list Z)%type.
Definition entry_of (de : list Z) : entry := (de_inum de, name_of (de_name de)).

(** The index and the inode of the first entry with the name. *)
Fixpoint find_entry (nm : list Z) (k : Z) (l : list entry) : option (Z * Z) :=
  match l with
  | [] => None
  | (i, n) :: l' => if negb (i =? 0) && bool_decide (n = nm) then Some (k, i) else find_entry nm (k + 1) l'
  end.
(** The index of the first empty entry, or the number of entries. *)
Fixpoint first_empty (k : Z) (l : list entry) : Z :=
  match l with
  | [] => k
  | (i, _) :: l' => if i =? 0 then k else first_empty (k + 1) l'
  end.

(** [dirlink]: the entry replaces an empty one or is appended. *)
Definition link_entry (e : entry) (l : list entry) : list entry :=
  let k := Z.to_nat (first_empty 0 l) in take k l ++ e :: drop (S k) l.

Lemma find_entry_app nm k l1 l2 :
  find_entry nm k (l1 ++ l2) =
  match find_entry nm k l1 with Some r => Some r | None => find_entry nm (k + Z.of_nat (length l1)) l2 end.
Proof.
  revert k; induction l1 as [|[i n] l1 IH]; intros k; cbn [app find_entry length]; [by rewrite Z.add_0_r|].
  case_test; [done|..]; rewrite IH; by replace (k + 1 + Z.of_nat (length l1)) with (k + Z.of_nat (S (length l1))) by lia.
Qed.

Lemma first_empty_spec k l :
  k ≤ first_empty k l ≤ k + Z.of_nat (length l) ∧
  (first_empty k l < k + Z.of_nat (length l) → ∃ n, l !! Z.to_nat (first_empty k l - k) = Some (0, n)).
Proof.
  revert k; induction l as [|[i n] l IH]; intros k; cbn [first_empty length]; [split; lia|]. case_test.
  - split; [lia|]. intros _. rewrite Z.sub_diag. exists n. by subst i.
  - destruct (IH (k + 1)) as [H1 H2]. split; [lia|]. intros Hlt. destruct H2 as [m Hm]; [lia|].
    exists m. replace (Z.to_nat (first_empty (k + 1) l - k)) with (S (Z.to_nat (first_empty (k + 1) l - (k + 1)))) by lia. done.
Qed.

(** After the insertion of a new name it is found, and other names as
    before. *)
Lemma find_link_same nm i l :
  i ≠ 0 → find_entry nm 0 l = None → find_entry nm 0 (link_entry (i, nm) l) = Some (first_empty 0 l, i).
Proof.
  intros Hi Hn. unfold link_entry. destruct (first_empty_spec 0 l) as [Hr _]. set (k := first_empty 0 l) in *.
  rewrite <- (take_drop (Z.to_nat k) l), find_entry_app in Hn. rewrite find_entry_app.
  destruct (find_entry nm 0 (take (Z.to_nat k) l)); [done|]. cbn [find_entry].
  rewrite (proj2 (Z.eqb_neq i 0)), bool_decide_eq_true_2 by done. cbn. f_equal. f_equal. rewrite length_take. lia.
Qed.
Lemma find_link_other nm nm' i l :
  nm' ≠ nm → find_entry nm' 0 (link_entry (i, nm) l) = find_entry nm' 0 l.
Proof.
  intros Hne. unfold link_entry. destruct (first_empty_spec 0 l) as [Hr Hz]. set (k := first_empty 0 l) in *.
  replace (find_entry nm' 0 l) with (find_entry nm' 0 (take (Z.to_nat k) l ++ drop (Z.to_nat k) l)) by (by rewrite take_drop).
  rewrite !find_entry_app.
  destruct (find_entry nm' 0 (take (Z.to_nat k) l)); [done|]. cbn [find_entry].
  rewrite (bool_decide_eq_false_2 (nm = nm')) by congruence. rewrite andb_false_r.
  destruct (decide (k < Z.of_nat (length l))) as [Hlt|Hge].
  - destruct (Hz Hlt) as [n Hn]. rewrite Z.sub_0_r in Hn. rewrite (drop_S _ _ _ Hn). done.
  - rewrite (drop_ge l (S (Z.to_nat k))), (drop_ge l (Z.to_nat k)) by lia. done.
Qed.

Lemma cstrn_ext n m m' p : (∀ b, p ≤ b < p + Z.of_nat n → ld8 m b = ld8 m' b) → cstrn n m p = cstrn n m' p.
Proof.
  revert p; induction n as [|n IH]; intros p H; cbn [cstrn]; [done|].
  rewrite H, IH by (intros; try apply H; lia). done.
Qed.

(** The entry that dirlink() makes. *)
Lemma entry_of_make name i :
  0 ≤ i < 2 ^ 16 → entry_of (make_dirent name i) = (i, name_of name).
Proof.
  intros Hi. unfold entry_of, make_dirent, de_inum, de_name, name_of.
  assert (Hlen : length (load_bytes (st16 (λ _ : Z, 0) 0 i) 0 2) = 2%nat) by apply length_load_bytes.
  f_equal.
  - unfold ld16, bytes_mem. rewrite <- (ldn_ext 2 (st16 (fun _ => 0) 0 i)).
    + rewrite ld16_st16_eq. unfold u16. by rewrite Z.mod_small.
    + intros b Hb. rewrite ld8_store_bytes_in by (rewrite length_app, Hlen; lia).
      rewrite app_nth1, nth_load_bytes by lia. replace (0 + Z.of_nat _) with b by lia.
      rewrite Z.mod_small; [done|apply ld8_range].
  - rewrite drop_app_length' by done. set (m := strncpy _ _ _ _ _).
    assert (Hs : cstrn (Z.to_nat DIRSIZ) m 0 = cstrn (Z.to_nat DIRSIZ) (bytes_mem name) 0) by (by apply strncpy_string).
    rewrite <- Hs. apply cstrn_ext. intros b Hb. unfold bytes_mem.
    rewrite ld8_store_bytes_in by (rewrite length_load_bytes; lia).
    rewrite nth_load_bytes by lia. replace (0 + Z.of_nat _) with b by lia. rewrite Z.mod_small; [done|apply ld8_range].
Qed.

(** ** iget *)

Lemma iget_scan_spec n dv num empty tab :
  Z.of_nat n ≤ NINODE →
  match iget_scan n dv num empty tab with
  | (Some ip, _) => NINODE - Z.of_nat n ≤ ip < NINODE ∧ 0 < i_ref (tab ip) ∧ i_dev (tab ip) = dv ∧ i_inum (tab ip) = num
  | (None, Some e) => empty = Some e ∨ NINODE - Z.of_nat n ≤ e < NINODE ∧ i_ref (tab e) = 0
  | (None, None) => empty = None ∧ ∀ ip, NINODE - Z.of_nat n ≤ ip < NINODE → i_ref (tab ip) ≠ 0
  end.
Proof.
  revert empty; induction n as [|n IH]; intros empty Hn; cbn [iget_scan].
  { destruct empty; [by left|]. split; [done|]. intros; lia. }
  set (ip := NINODE - Z.of_nat (S n)).
  destruct ((0 <? i_ref (tab ip)) && ((i_dev (tab ip) =? dv) && (i_inum (tab ip) =? num))) eqn:E.
  { destruct_bool_tests. split; [lia|done]. }
  clear E. set (e' := if _ && _ then Some ip else empty).
  assert (He : e' = empty ∧ (empty ≠ None ∨ i_ref (tab ip) ≠ 0) ∨ empty = None ∧ e' = Some ip ∧ i_ref (tab ip) = 0).
  { unfold e'. destruct empty as [e|]; [left; by split; [|left]|]. rewrite bool_decide_eq_true_2 by done. cbn [andb].
    destruct (Z.eqb_spec (i_ref (tab ip)) 0); [by right|left; by split; [|right]]. }
  clearbody e'. specialize (IH e' ltac:(lia)). destruct (iget_scan n dv num e' tab) as [[ip'|] [e|]].
  - destruct IH as [? ?]. split; [lia|done].
  - destruct IH as [? ?]. split; [lia|done].
  - destruct IH as [-> | [? ?]]; [|right; split; [lia|done]].
    destruct He as [[-> _]|(-> & [= ->] & ?)]; [by left|right; split; [lia|done]].
  - destruct IH as [-> IH2]. destruct He as [[<- [?|?]]|(_ & ? & _)]; [done| |done]. split; [done|].
    intros j Hj. destruct (decide (j = ip)) as [->|]; [done|apply IH2; lia].
Qed.

(** The table has the inode, or room for it. *)
Definition has_room (s : fs) : Prop := ∃ ip, 0 ≤ ip < NINODE ∧ i_ref (itab s ip) = 0.

(** The entry [ip] has been given to the caller; nothing else of it or of
    another entry in use has changed. *)
Record got (dv num : Z) (s : fs) (ip : Z) (s' : fs) : Prop := {
  g_range : 0 ≤ ip < NINODE;
  g_dev : i_dev (itab s' ip) = dv;
  g_inum : i_inum (itab s' ip) = num;
  g_ref : 1 ≤ i_ref (itab s' ip);
  g_log : flog s' = flog s;
  g_sb : sb s' = sb s;
  g_others : ∀ j, j ≠ ip → itab s' j = itab s j;
  g_same : 0 < i_ref (itab s ip) → itab s' ip = set_ref (i_ref (itab s ip) + 1) (itab s ip);
  g_fresh : i_ref (itab s ip) ≤ 0 →
    i_ref (itab s' ip) = 1 ∧ i_valid (itab s' ip) = false ∧ i_lock (itab s' ip) = i_lock (itab s ip)
}.

Lemma iget_wp s dv num (Q : Z → fs → Prop) :
  has_room s → (∀ ip s', got dv num s ip s' → Q ip s') → wp (iget dv num) Q s.
Proof.
  intros (e & He & Hfree) HQ. unfold iget. apply wp_bind, wp_gets.
  pose proof (iget_scan_spec (Z.to_nat NINODE) dv num None (itab s) ltac:(done)) as Hs.
  destruct (iget_scan (Z.to_nat NINODE) dv num None (itab s)) as [[ip|] [f|]].
  1,2: destruct Hs as (Hr & Href & Hdev & Hnum); apply wp_bind, wp_modify, wp_ret, HQ; split; cbn [itab flog sb];
      rewrite ?fn_lookup_alter; cbn; try done; try lia; intros; by rewrite fn_lookup_alter_ne.
  - destruct Hs as [?|[Hr Href]]; [done|]. apply wp_bind, wp_modify, wp_ret, HQ.
    split; cbn [itab flog sb]; rewrite ?fn_lookup_alter; cbn; try done; try lia; intros; by rewrite fn_lookup_alter_ne.
  - destruct Hs as [_ Hs]. exfalso. by apply (Hs e); [|done].
Qed.

Section dir.
Context (d : Z) (B : superblock) (HB : layout_ok B) (Hone : sb_size B ≤ BPB).
#[local] Abbreviation tx := (tx d (sb_logstart B) (sb_nlog B)).

(** ** The directory in a file *)

Definition dir_entry (cur : Z → block) (x : inode) (k : Z) : entry := entry_of (fbytes cur x (16 * k) 16).
Definition entries_from (cur : Z → block) (x : inode) (k : Z) : list entry :=
  map (dir_entry cur x) (seqZ k (i_size x / 16 - k)).
Definition dir_view (cur : Z → block) (x : inode) : list entry := entries_from cur x 0.

Record is_dir (cur : Z → block) (x : inode) : Prop := {
  id_file : file_ok d B cur x;
  id_holes : no_holes cur x;
  id_type : i_type x = T_DIR;
  id_size : i_size x mod 16 = 0
}.

Lemma entries_from_step cur x k :
  0 ≤ k < i_size x / 16 → entries_from cur x k = dir_entry cur x k :: entries_from cur x (k + 1).
Proof.
  intros Hk. unfold entries_from. rewrite (seqZ_cons k) by lia. cbn [map].
  by replace (Z.pred (i_size x / 16 - k)) with (i_size x / 16 - (k + 1)) by lia.
Qed.
Lemma entries_from_end cur x k : i_size x / 16 ≤ k → entries_from cur x k = [].
Proof. intros Hk. unfold entries_from. by rewrite seqZ_nil by lia. Qed.

(** Reading one entry. *)
Lemma read_entry_wp s L cur r dp k (Q : Z * list Z → fs → Prop) :
  tx s [] [] L cur r → 0 ≤ r → is_dir cur (itab s dp) → 0 ≤ k < i_size (itab s dp) / 16 →
  (∀ s', tx s' [] [] L cur r → same_top s s' → Q (sizeof_dirent, fbytes cur (itab s dp) (16 * k) 16) s') →
  wp (readi dp LocalDst (16 * k) sizeof_dirent) Q s.
Proof.
  intros Ht Hr [Hf Hn _ Hs] Hk HQ. pose proof (fo_size _ _ _ _ Hf) as Hsz. change (MAXFILE * BSIZE) with 274432 in Hsz.
  assert (16 * k + 16 ≤ i_size (itab s dp)) by zdm.
  eapply wp_mono; [apply (readi_spec d B HB s L cur r dp (16 * k) sizeof_dirent Ht Hr Hf Hn); unfold sizeof_dirent; lia|].
  intros p s' (-> & Ht' & Hs'). rewrite (proj2 (Z.ltb_ge _ _)) by lia. unfold sizeof_dirent in *.
  rewrite Z.min_l by lia. by apply HQ.
Qed.

(** ** dirlookup *)

(** The outcome of a search: nothing, or the inode of the entry. *)
Definition search_result (Q : option (Z * Z) → fs → Prop) (found : option (Z * Z)) (s : fs) : Prop :=
  match found with
  | None => Q None s
  | Some (j, i) => wp (do ip <- iget d i; ret (Some (ip, 16 * j))) Q s
  end.

Lemma dirlookup_loop_wp fuel s L cur r dp name k Q :
  tx s [] [] L cur r → 0 ≤ r → is_dir cur (itab s dp) → 0 ≤ k ≤ i_size (itab s dp) / 16 →
  i_size (itab s dp) / 16 - k ≤ Z.of_nat fuel →
  (∀ s', tx s' [] [] L cur r → same_top s s' →
     search_result Q (find_entry (name_of name) k (entries_from cur (itab s dp) k)) s') →
  wp (dirlookup_loop fuel dp name (16 * k)) Q s.
Proof.
  revert s k; induction fuel as [|f IH]; intros s k Ht Hr Hd Hk Hf HQ; cbn [dirlookup_loop].
  all: pose proof (id_size _ _ Hd) as Hs; apply wp_bind, wp_gets.
  { assert (k = i_size (itab s dp) / 16) as -> by lia. rewrite (proj2 (Z.ltb_ge _ _)) by zdm. apply wp_ret.
    rewrite entries_from_end in HQ by lia. apply HQ; [done|apply same_top_refl]. }
  destruct (decide (k = i_size (itab s dp) / 16)) as [->|Hne].
  { rewrite (proj2 (Z.ltb_ge _ _)) by zdm. apply wp_ret.
    rewrite entries_from_end in HQ by lia. apply HQ; [done|apply same_top_refl]. }
  rewrite (proj2 (Z.ltb_lt _ _)) by zdm.
  apply wp_bind, (read_entry_wp s L cur r); [done..|lia|]. intros s1 Ht1 Hs1. rewrite Z.eqb_refl. cbn [negb].
  assert (Hit : itab s1 = itab s) by apply Hs1.
  rewrite entries_from_step in HQ by lia. pose proof (fo_size _ _ _ _ (id_file _ _ Hd)) as Hsz. change (MAXFILE * BSIZE) with 274432 in Hsz.
  assert (Hoff : u32 (16 * k + sizeof_dirent) = 16 * (k + 1)).
  { unfold sizeof_dirent. rewrite u32_small by zdm. lia. }
  assert (Hnext : (∀ s', tx s' [] [] L cur r → same_top s s' → search_result Q
      (find_entry (name_of name) (k + 1) (entries_from cur (itab s dp) (k + 1))) s') →
    wp (dirlookup_loop f dp name (16 * (k + 1))) Q s1).
  { intros HQ'. apply IH; rewrite ?Hit; try done; try lia. intros s' Ht' Hs'. apply HQ'; [done|top]. }
  rewrite Hoff. unfold dir_entry, entry_of in HQ. set (de := fbytes cur (itab s dp) (16 * k) 16) in *. cbn [find_entry] in HQ.
  destruct (Z.eqb_spec (de_inum de) 0) as [E|E]; [by apply Hnext|]. cbn [negb andb] in HQ.
  destruct (Z.eqb_spec (namecmp name (de_name de)) 0) as [En|En].
  - apply namecmp_zero in En. rewrite bool_decide_eq_true_2 in HQ by done.
    rewrite (fo_dev _ _ _ _ (id_file _ _ Hd)). by apply HQ.
  - rewrite namecmp_zero in En. rewrite bool_decide_eq_false_2 in HQ by congruence. by apply Hnext.
Qed.

Lemma dirlookup_wp s L cur r dp name Q :
  tx s [] [] L cur r → 0 ≤ r → is_dir cur (itab s dp) →
  (∀ s', tx s' [] [] L cur r → same_top s s' → search_result Q (find_entry (name_of name) 0 (dir_view cur (itab s dp))) s') →
  wp (dirlookup dp name) Q s.
Proof.
  intros Ht Hr Hd HQ. unfold dirlookup. apply wp_bind, wp_gets. rewrite (id_type _ _ Hd), Z.eqb_refl. cbn [negb].
  pose proof (fo_size _ _ _ _ (id_file _ _ Hd)) as Hsz.
  change 0 with (16 * 0). apply (dirlookup_loop_wp _ s L cur r); try done; unfold sizeof_dirent; zdm.
Qed.

(** ** dirlink *)

Lemma dirlink_loop_wp fuel s L cur r dp k (Q : Z → fs → Prop) :
  tx s [] [] L cur r → 0 ≤ r → is_dir cur (itab s dp) → 0 ≤ k ≤ i_size (itab s dp) / 16 →
  i_size (itab s dp) / 16 - k ≤ Z.of_nat fuel →
  (∀ s', tx s' [] [] L cur r → same_top s s' → Q (16 * first_empty k (entries_from cur (itab s dp) k)) s') →
  wp (dirlink_loop fuel dp (16 * k)) Q s.
Proof.
  revert s k; induction fuel as [|f IH]; intros s k Ht Hr Hd Hk Hf HQ; cbn [dirlink_loop].
  all: pose proof (id_size _ _ Hd) as Hs; apply wp_bind, wp_gets.
  { assert (k = i_size (itab s dp) / 16) as -> by lia. rewrite (proj2 (Z.ltb_ge _ _)) by zdm. apply wp_ret.
    rewrite entries_from_end in HQ by lia. apply HQ; [done|apply same_top_refl]. }
  destruct (decide (k = i_size (itab s dp) / 16)) as [->|Hne].
  { rewrite (proj2 (Z.ltb_ge _ _)) by zdm. apply wp_ret.
    rewrite entries_from_end in HQ by lia. apply HQ; [done|apply same_top_refl]. }
  rewrite (proj2 (Z.ltb_lt _ _)) by zdm.
  apply wp_bind, (read_entry_wp s L cur r); [done..|lia|]. intros s1 Ht1 Hs1. rewrite Z.eqb_refl. cbn [negb].
  assert (Hit : itab s1 = itab s) by apply Hs1. rewrite entries_from_step in HQ by lia.
  unfold dir_entry, entry_of in HQ. set (de := fbytes cur (itab s dp) (16 * k) 16) in *. cbn [first_empty] in HQ.
  destruct (Z.eqb_spec (de_inum de) 0) as [E|E]; [apply wp_ret; by apply HQ|].
  replace (16 * k + sizeof_dirent) with (16 * (k + 1)) by (unfold sizeof_dirent; lia).
  apply IH; rewrite ?Hit; try done; try lia. intros s' Ht' Hs'. apply HQ; [done|top].
Qed.

(** A directory that a call may add an entry to, inside a transaction. *)
Record dir_writable (s : fs) (L : list Z) (cur : Z → block) (r dp : Z) : Prop := {
  dw_tx : tx s [] [] L cur r;
  dw_sb : sb s = B;
  dw_dir : is_dir cur (itab s dp);
  dw_meta : meta_used B cur;
  dw_inum : 0 ≤ i_inum (itab s dp) < sb_ninodes B;
  dw_max : i_size (itab s dp) + 16 ≤ MAXFILE * BSIZE;
  dw_room : MAXOPBLOCKS ≤ r
}.

Lemma length_dir_view cur x : 0 ≤ i_size x → Z.of_nat (length (dir_view cur x)) = i_size x / 16.
Proof. intros Hx. unfold dir_view, entries_from. rewrite length_map, length_seqZ. zdm. Qed.

Lemma fbytes_ext cur x cur' x' off n :
  (∀ o, off ≤ o < off + n → fbyte cur' x' o = fbyte cur x o) → fbytes cur' x' off n = fbytes cur x off n.
Proof. intros H. unfold fbytes. apply map_ext_in. intros i Hi%in_seq. apply H. lia. Qed.

Lemma take_seqZ n k : 0 ≤ k ≤ n → take (Z.to_nat k) (seqZ 0 n) = seqZ 0 k.
Proof.
  intros Hk. replace n with (k + (n - k)) by lia. rewrite seqZ_app by lia. apply take_app_length'.
  rewrite length_seqZ. lia.
Qed.
Lemma drop_seqZ n k : 0 ≤ k ≤ n → drop (S (Z.to_nat k)) (seqZ 0 n) = seqZ (k + 1) (Z.max (n - k - 1) 0).
Proof.
  intros Hk. destruct (decide (k = n)) as [->|].
  - rewrite drop_ge by (rewrite length_seqZ; lia). by rewrite seqZ_nil by lia.
  - replace n with (k + 1 + (n - k - 1)) at 1 by lia. rewrite seqZ_app by lia. rewrite drop_app_length'.
    + by rewrite Z.max_l, Z.add_0_l by lia.
    + rewrite length_seqZ. lia.
Qed.

(** The entries after 16 bytes have been written at entry [k]. *)
Lemma dir_view_written cur x cur' x' k l :
  0 ≤ k ≤ i_size x / 16 → i_size x mod 16 = 0 → length l = 16%nat → Forall (fun v => 0 ≤ v < 256) l →
  0 ≤ i_size x → i_size x + 16 ≤ MAXFILE * BSIZE → i_size x' = Z.max (i_size x) (16 * k + 16) →
  (∀ o, 0 ≤ o < MAXFILE * BSIZE → fbyte cur' x' o = store_bytes (fbyte cur x) (16 * k) l o) →
  dir_view cur' x' = take (Z.to_nat k) (dir_view cur x) ++ entry_of l :: drop (S (Z.to_nat k)) (dir_view cur x).
Proof.
  intros Hk Hmod Hl Hb Hx Hmax Hsz Hby. unfold dir_view, entries_from. rewrite !Z.sub_0_r.
  set (n := i_size x / 16) in *. set (n' := i_size x' / 16).
  assert (Hn' : n' = k + 1 + Z.max (n - k - 1) 0) by (unfold n', n in *; rewrite Hsz; zdm).
  assert (Hother : ∀ j, 0 ≤ j < Z.max n (k + 1) → j ≠ k → dir_entry cur' x' j = dir_entry cur x j).
  { intros j Hj Hne. unfold dir_entry. apply (f_equal entry_of), fbytes_ext. intros o Ho.
    assert (0 ≤ o < MAXFILE * BSIZE) by (unfold n in *; zdm). rewrite Hby by done. unfold store_bytes. rewrite Hl.
    case_test; [lia|done..]. }
  assert (Hthis : dir_entry cur' x' k = entry_of l).
  { unfold dir_entry. apply (f_equal entry_of). assert (Htake : take (Z.to_nat 16) l = l) by (apply take_ge; rewrite Hl; done).
    rewrite <- Htake. apply (fbytes_written cur x _ _ _ l 16); try done; [lia|rewrite Hl; done|unfold n in *; zdm|]. by rewrite Htake. }
  rewrite Hn', firstn_map, skipn_map, take_seqZ, drop_seqZ by lia.
  rewrite seqZ_app, (seqZ_app 0 k 1), !map_app, !Z.add_0_l, <- app_assoc by lia.
  change (seqZ k 1) with [Z.of_nat 0 + k]. cbn [map app]. rewrite Z.add_0_l, Hthis.
  rewrite (map_ext_in _ (dir_entry cur x) (seqZ 0 k)), (map_ext_in _ (dir_entry cur x) (seqZ (k + 1) _)); [done|..];
    intros j Hj%list_elem_of_In%elem_of_seqZ; apply Hother; lia.
Qed.

Lemma make_dirent_bytes name i : length (make_dirent name i) = 16%nat ∧ Forall (fun v => 0 ≤ v < 256) (make_dirent name i).
Proof.
  unfold make_dirent. split; [by rewrite length_app, !length_load_bytes|].
  apply Forall_app. split; apply load_bytes_range.
Qed.

(** The directory after [dirlink], and what it leaves alone. *)
Record linked (s : fs) (cur : Z → block) (dp : Z) (e : entry) (s' : fs) (cur' : Z → block) : Prop := {
  lk_top : top_but dp s s';
  lk_ref : i_ref (itab s' dp) = i_ref (itab s dp);
  lk_dir : is_dir cur' (itab s' dp);
  lk_view : dir_view cur' (itab s' dp) = link_entry e (dir_view cur (itab s dp))
}.

Lemma linked_intro s cur dp name i s1 s' cur' :
  is_dir cur (itab s dp) → i_size (itab s dp) + 16 ≤ MAXFILE * BSIZE → 0 ≤ i < 2 ^ 16 → same_top s s1 →
  wrote_file d B s1 cur dp (make_dirent name i) (16 * first_empty 0 (dir_view cur (itab s dp))) 16 s' cur' →
  linked s cur dp (i, name_of name) s' cur'.
Proof.
  intros [Hf Hn Hty Hmod] Hmax Hi Hs1 [T F _ H S Fl By _ _ _ _].
  assert (Hit : itab s1 = itab s) by apply Hs1. rewrite Hit in *. pose proof (fo_size _ _ _ _ Hf) as Hsz.
  destruct (make_dirent_bytes name i) as [Hl Hb]. pose proof (length_dir_view cur (itab s dp) ltac:(lia)) as Hlen.
  destruct (first_empty_spec 0 (dir_view cur (itab s dp))) as [Hk _]. set (k := first_empty 0 (dir_view cur (itab s dp))) in *.
  destruct Fl as (_ & _ & Fref & _ & _ & Fty & _).
  split.
  - eapply top_but_trans; [by apply same_top_but|done].
  - exact Fref.
  - split; [done|done|by rewrite Fty|]. rewrite S. zdm.
  - unfold link_entry. fold k. rewrite <- (entry_of_make name i Hi).
    apply (dir_view_written cur (itab s dp)); try done; try lia.
Qed.

Lemma dirlink_spec s L cur r dp name i :
  dir_writable s L cur r dp → find_entry (name_of name) 0 (dir_view cur (itab s dp)) = None → 0 < i < 2 ^ 16 →
  wp (dirlink dp name i) (fun v s' => ∃ L' cur' r', tx s' [] [] L' cur' r' ∧ 1 ≤ r' ∧
    (v = 0 ∧ linked s cur dp (i, name_of name) s' cur' ∨
     v = -1 ∧ ∀ y, 0 ≤ y < sb_size B → used B cur' y = true)) s.
Proof.
  intros [Ht Hsb Hd Hm Hi Hmax Hroom] Hnone Hinum. unfold dirlink. apply wp_bind.
  apply (dirlookup_wp s L cur r); [done|unfold MAXOPBLOCKS in *; lia|done|]. rewrite Hnone. intros s1 Ht1 Hs1. cbn [search_result].
  assert (Hit1 : itab s1 = itab s) by apply Hs1. apply wp_bind, wp_gets. apply wp_bind. rewrite Hit1.
  pose proof (fo_size _ _ _ _ (id_file _ _ Hd)) as Hsz. pose proof (length_dir_view cur (itab s dp) ltac:(lia)) as Hlen.
  set (fuel := Z.to_nat _). change (dirlink_loop fuel dp 0) with (dirlink_loop fuel dp (16 * 0)). unfold fuel.
  apply (dirlink_loop_wp _ s1 L cur r); rewrite ?Hit1; try done; try (unfold sizeof_dirent; zdm).
  { unfold MAXOPBLOCKS in *. lia. }
  fold (dir_view cur (itab s dp)). intros s2 Ht2 Hs2.
  destruct (first_empty_spec 0 (dir_view cur (itab s dp))) as [Hk _]. set (k := first_empty 0 (dir_view cur (itab s dp))) in *.
  assert (Hs02 : same_top s s2) by top. assert (Hit2 : itab s2 = itab s) by apply Hs02.
  destruct (make_dirent_bytes name i) as [Hl Hb].
  replace sizeof_dirent with (Z.of_nat (length (make_dirent name i))) by (by rewrite Hl).
  assert (16 * k ≤ i_size (itab s dp)) by (pose proof (id_size _ _ Hd); zdm).
  apply wp_bind. eapply wp_mono.
  { apply (can_write_spec d B HB Hone s2 L cur r). split; rewrite ?Hit2, ?Hl; try done; try lia; try apply Hd.
    - rewrite <- Hsb. apply Hs02.
    - apply room_enough; [lia|done|done]. }
  rewrite Hl. intros w s3 (Hw & L3 & cur3 & r3 & Ht3 & Hr3 & Hwf & Hfull). destruct (decide (w = 16)) as [->|Hne].
  - rewrite Z.eqb_refl. cbn [negb]. apply wp_ret. exists L3, cur3, r3. split; [done|]. split; [done|]. left. split; [done|].
    apply (linked_intro s cur dp name i s2); try done; lia.
  - rewrite (proj2 (Z.eqb_neq w _)) by done. apply wp_ret. exists L3, cur3, r3. split; [done|]. split; [done|]. right.
    split; [done|]. apply Hfull. lia.
Qed.

(** ** The directory as a map *)

(** What dirlookup() makes of a search that finds the inode [i], or
    nothing. *)
Definition looked_up (found : option Z) (q : option (Z * Z)) (s : fs) : Prop :=
  match found with
  | None => q = None
  | Some i => ∃ ip off, q = Some (ip, off) ∧ 0 ≤ ip < NINODE ∧
      i_dev (itab s ip) = d ∧ i_inum (itab s ip) = i ∧ 1 ≤ i_ref (itab s ip)
  end.

Lemma dirlookup_spec s L cur r dp name :
  tx s [] [] L cur r → 0 ≤ r → is_dir cur (itab s dp) → has_room s →
  wp (dirlookup dp name) (fun q s' => tx s' [] [] L cur r ∧
    looked_up (snd <$> find_entry (name_of name) 0 (dir_view cur (itab s dp))) q s') s.
Proof.
  intros Ht Hr Hd Hroom. apply (dirlookup_wp s L cur r); [done..|]. intros s1 Ht1 Hs1.
  assert (Hit : itab s1 = itab s) by apply Hs1.
  destruct (find_entry _ _ _) as [[j i]|]; cbn [search_result fmap option_fmap option_map snd]; [|done].
  apply wp_bind, iget_wp; [unfold has_room; by rewrite Hit|]. intros ip s2 [G1 G2 G3 G4 G5 _ _ _ _]. apply wp_ret.
  split; [by apply (tx_flog d B s1 s2)|]. exists ip, (16 * j). done.
Qed.
End dir.

(** C4: Directories are maps from names, cut at DIRSIZ bytes, to inodes.
    dirlink() of a name that is not there returns 0, or -1 if the disk is
    full; if it returns 0, dirlookup() finds the new inode under the name and
    under every other name what it found before. *)
Theorem dirlink_dirlookup d B s L cur r dp name i name2 :
  layout_ok B → sb_size B ≤ BPB → dir_writable d B s L cur r dp → has_room s →
  find_entry (name_of name) 0 (dir_view cur (itab s dp)) = None → 0 < i < 2 ^ 16 →
  wp (do v <- dirlink dp name i;
      do q <- (if v =? 0 then dirlookup dp name2 else ret None);
      ret (v, q)) (fun '(v, q) s' =>
    v = 0 ∧ looked_up d (if bool_decide (name_of name2 = name_of name) then Some i
                         else snd <$> find_entry (name_of name2) 0 (dir_view cur (itab s dp))) q s' ∨
    v = -1 ∧ ∃ L' cur' r', tx d (sb_logstart B) (sb_nlog B) s' [] [] L' cur' r' ∧
      ∀ y, 0 ≤ y < sb_size B → used B cur' y = true) s.
Proof.
  intros HB Hone Hw Hroom Hnone Hi. apply wp_bind. eapply wp_mono; [by apply (dirlink_spec d B HB Hone s L cur r)|].
  intros v s1 (L1 & cur1 & r1 & Ht1 & Hr1 & [[-> [T Rf D V]]|[-> Hfull]]); apply wp_bind.
  - change (0 =? 0) with true. cbv iota. eapply wp_mono.
    { apply (dirlookup_spec d B HB s1 L1 cur1 r1 dp name2); try done; [lia|].
      destruct Hroom as (e & He & Hfree). exists e. split; [done|]. destruct (decide (e = dp)) as [->|]; [by rewrite Rf|].
      destruct T as (_ & _ & _ & _ & _ & Hit). by rewrite Hit. }
    intros q s2 [_ Hq]. apply wp_ret. left. split; [done|]. rewrite V in Hq. case_bool_decide as E.
    + rewrite E, find_link_same in Hq by (done || lia). exact Hq.
    + rewrite find_link_other in Hq by done. exact Hq.
  - change (-1 =? 0) with false. cbv iota. apply wp_ret, wp_ret. right. split; [done|]. by exists L1, cur1, r1.
Qed.

(** An empty directory with inode 1, and no other inode in the table. *)
Definition sample_dir (ip : Z) : inode :=
  mk_inode 1 ip (if ip =? 1 then 1 else 0) (mk_sleeplock 0 0) true T_DIR 0 0 1 0 (fun _ => 0).

Lemma sample_dir_ok : is_dir 1 sample_sb sample_blocks (sample_dir 1).
Proof.
  split; [|intros k Hk0 Hk; change (k * 1024 < 0) in Hk; lia|done|done].
  destruct (sample_file 1) as [H1 H2 H3 H4 H5 H6]. by split.
Qed.

Lemma dirlink_dirlookup_witness :
  ∃ s v q s', (do v <- dirlink 1 [97; 98] 7;
      do q <- (if v =? 0 then dirlookup 1 [97; 98] else ret None);
      ret (v, q)) s = Ok ((v, q), s') ∧ (v = 0 → ∃ ip off, q = Some (ip, off) ∧ i_inum (itab s' ip) = 7).
Proof.
  destruct (fresh_tx 1 2 30 sample_blocks sample_sb sample_dir (mk_kmem (fun _ => 0) 0) 0 0 ltac:(lia) ltac:(lia))
    as (s & Ht & Hsb & Hit & _). exists s.
  destruct (proj1 (wp_ok _ _ _) (dirlink_dirlookup 1 sample_sb s [] sample_blocks 29 1 [97; 98] 7 [97; 98] sample_layout
    ltac:(by vm_compute)
    ltac:(split; rewrite ?Hit; [done|done|apply sample_dir_ok|apply sample_meta|cbn; lia|by vm_compute|unfold MAXOPBLOCKS; lia])
    ltac:(exists 2; rewrite Hit; split; [by vm_compute|done])
    ltac:(by rewrite Hit) ltac:(lia))) as ([v q] & s' & Hrun & Hres).
  exists v, q, s'. split; [exact Hrun|]. intros ->.
  destruct Hres as [[_ Hq]|[? _]]; [|lia]. rewrite bool_decide_eq_true_2 in Hq by done.
  destruct Hq as (ip & off & Hq & _ & _ & Hi & _). by exists ip, off.
Defined.
