(* ===== verification/Mkfs.v ===== *)
(** * mkfs: the program that makes the first disk image (mkfs/mkfs.c)

    The image is a file of the host, a sequence of sectors; a read behind its
    end dies, a write there makes it longer.  The files to put into the image
    are given with the pieces in which the host's read() returns them.
    assert() and die() end the program. *)

From stdpp Require Import functions.
From S2P Require Import Prelude Mem Riscv Kalloc Sleeplock Bio BioSpec Log LogSpec Fs FsTx FsBlock FsFile.

Definition NINODES : Z := 200.
Definition nbitmap : Z := FSSIZE / (BSIZE * 8) + 1.
Definition ninodeblocks : Z := NINODES / IPB + 1.
Definition nlog : Z := LOGSIZE.
Definition nmeta : Z := 2 + nlog + ninodeblocks + nbitmap.
Definition nblocks : Z := FSSIZE - nmeta.
(** The numbers are stored with xint and xshort, in the byte order of the
    disk, which is that of [st32] and [st16]. *)
Definition the_sb : superblock :=
  mk_sb FSMAGIC FSSIZE nblocks NINODES nlog 2 (2 + nlog) (2 + nlog + ninodeblocks).

(** ** State *)

(** [struct dinode]; [di_addrs k] for 0 <= k <= NDIRECT. *)
Record dinode := mk_din { di_type : Z; di_major : Z; di_minor : Z; di_nlink : Z; di_size : Z; di_addrs : Z → Z }.
Definition set_dsize (v : Z) (x : dinode) : dinode :=
  mk_din (di_type x) (di_major x) (di_minor x) (di_nlink x) v (di_addrs x).
Definition set_daddr (k v : Z) (x : dinode) : dinode :=
  mk_din (di_type x) (di_major x) (di_minor x) (di_nlink x) (di_size x) (<[k := v]> (di_addrs x)).

(** The image with its length in sectors, and the next inode and block that
    are free. *)
Record mst := mk_mst { image : Z → block; sectors : Z; freeinode : Z; freeblock : Z }.

(** ** Sectors and inodes *)

(** lseek(fsfd, sec * BSIZE, 0), a uint. *)
Definition sector (sec : Z) : Z := u32 (sec * BSIZE) / BSIZE.
Definition rsect (sec : Z) : M mst block :=
  do s <- get; if sector sec <? sectors s then ret (image s (sector sec)) else panic "read".
Definition wsect (sec : Z) (buf : block) : M mst unit :=
  modify (fun s => mk_mst (<[sector sec := buf]> (image s)) (Z.max (sectors s) (sector sec + 1)) (freeinode s) (freeblock s)).

Definition load_din (o : Z) (buf : block) : dinode :=
  mk_din (ld16 buf o) (ld16 buf (o + 2)) (ld16 buf (o + 4)) (ld16 buf (o + 6)) (ld32 buf (o + 8)) (fun k => ld32 buf (o + 12 + 4 * k)).
Definition store_din (o : Z) (x : dinode) (buf : block) : block :=
  let buf := st16 buf o (di_type x) in
  let buf := st16 buf (o + 2) (di_major x) in
  let buf := st16 buf (o + 4) (di_minor x) in
  let buf := st16 buf (o + 6) (di_nlink x) in
  let buf := st32 buf (o + 8) (di_size x) in
  store_addrs (Z.to_nat (NDIRECT + 1)) o (di_addrs x) buf.

Definition winode (inum : Z) (ip : dinode) : M mst unit :=
  let bn := IBLOCK inum the_sb in
  do buf <- rsect bn;
  wsect bn (store_din (dinode_off inum) ip buf).
Definition rinode (inum : Z) : M mst dinode :=
  do buf <- rsect (IBLOCK inum the_sb);
  ret (load_din (dinode_off inum) buf).

(** freeinode++ and freeblock++ *)
Definition next_inode : M mst Z :=
  do i <- gets freeinode;
  do! modify (fun s => mk_mst (image s) (sectors s) (u32 (freeinode s + 1)) (freeblock s));
  ret i.
Definition next_block : M mst Z :=
  do b <- gets freeblock;
  do! modify (fun s => mk_mst (image s) (sectors s) (freeinode s) (u32 (freeblock s + 1)));
  ret b.

Definition ialloc (type : Z) : M mst Z :=
  do inum <- next_inode;
  do! winode inum (mk_din type 0 0 1 0 (fun _ => 0));
  ret inum.

(** ** Appending to a file *)

(** The block for [fbn], with the inode, which may have a new address. *)
Definition block_for (din : dinode) (fbn : Z) : M mst (Z * dinode) :=
  if fbn <? NDIRECT then
    if di_addrs din fbn =? 0 then do b <- next_block; ret (b, set_daddr fbn b din)
    else ret (di_addrs din fbn, din)
  else
    do din <- (if di_addrs din NDIRECT =? 0 then do b <- next_block; ret (set_daddr NDIRECT b din) else ret din);
    do ind <- rsect (di_addrs din NDIRECT);
    if ld32 ind (4 * (fbn - NDIRECT)) =? 0 then
      do b <- next_block;
      do! wsect (di_addrs din NDIRECT) (st32 ind (4 * (fbn - NDIRECT)) b);
      ret (b, din)
    else ret (ld32 ind (4 * (fbn - NDIRECT)), din).

(** [p]: the bytes that are left. *)
Fixpoint iappend_loop (fuel : nat) (din : dinode) (off : Z) (p : list Z) : M mst (dinode * Z) :=
  match p with
  | [] => ret (din, off)
  | _ =>
      match fuel with
      | O => out_of_fuel
      | S f =>
          let fbn := off / BSIZE in
          if negb (fbn <? MAXFILE) then panic "assert"
          else
            do '(x, din) <- block_for din fbn;
            let n1 := Z.min (Z.of_nat (length p)) ((fbn + 1) * BSIZE - off) in
            do buf <- rsect x;
            do! wsect x (store_bytes buf (off - fbn * BSIZE) (take (Z.to_nat n1) p));
            iappend_loop f din (off + n1) (drop (Z.to_nat n1) p)
      end
  end.
Definition iappend (inum : Z) (p : list Z) : M mst unit :=
  do din <- rinode inum;
  do '(din, off) <- iappend_loop (length p) din (di_size din) p;
  winode inum (set_dsize off din).

(** ** The bitmap *)

Fixpoint mark (n : nat) (i : Z) (buf : block) : block :=
  match n with
  | O => buf
  | S n' => mark n' (i + 1) (st8 buf (i / 8) (Z.lor (ld8 buf (i / 8)) (Z.shiftl 1 (i mod 8))))
  end.
Definition balloc (used : Z) : M mst unit :=
  if negb (used <? BSIZE * 8) then panic "assert"
  else wsect (sb_bmapstart the_sb) (mark (Z.to_nat used) 0 (fun _ => 0)).

(** ** main *)

Definition dirent (inum : Z) (name : list Z) : list Z :=
  load_bytes (st16 (fun _ => 0) 0 inum) 0 2 ++ take (Z.to_nat DIRSIZ) (name ++ repeat 0 (Z.to_nat DIRSIZ)).

Definition user_dir : list Z := [117; 115; 101; 114; 47].
(** Without user/ in front, and then without a leading _. *)
Definition strip_dir (arg : list Z) : list Z := if decide (take 5 arg = user_dir) then drop 5 arg else arg.
Definition strip_mark (name : list Z) : list Z := match name with 95 :: l => l | _ => name end.

Fixpoint append_all (inum : Z) (pieces : list (list Z)) : M mst unit :=
  match pieces with [] => ret tt | p :: l => do! iappend inum p; append_all inum l end.

(** [arg] with what reading the file returns, if it can be opened. *)
Fixpoint add_files (rootino : Z) (files : list (list Z * option (list (list Z)))) : M mst unit :=
  match files with
  | [] => ret tt
  | (arg, contents) :: l =>
      let shortname := strip_dir arg in
      if bool_decide (47 ∈ shortname) then panic "assert"
      else
        match contents with
        | None => panic "die"
        | Some pieces =>
            do inum <- ialloc T_FILE;
            do! iappend rootino (dirent inum (strip_mark shortname));
            do! append_all inum pieces;
            add_files rootino l
        end
  end.

Fixpoint zero_sectors (n : nat) (i : Z) : M mst unit :=
  match n with O => ret tt | S n' => do! wsect i (fun _ => 0); zero_sectors n' (i + 1) end.

Definition sb_block : block :=
  let B := the_sb in
  st32 (st32 (st32 (st32 (st32 (st32 (st32 (st32 (fun _ => 0) 0 (sb_magic B)) 4 (sb_size B)) 8 (sb_nblocks B))
    12 (sb_ninodes B)) 16 (sb_nlog B)) 20 (sb_logstart B)) 24 (sb_inodestart B)) 28 (sb_bmapstart B).

Definition main (files : list (list Z * option (list (list Z)))) : M mst unit :=
  do! modify (fun s => mk_mst (image s) (sectors s) (freeinode s) nmeta);
  do! zero_sectors (Z.to_nat FSSIZE) 0;
  do! wsect 1 sb_block;
  do rootino <- ialloc T_DIR;
  if negb (rootino =? ROOTINO) then panic "assert"
  else
    do! iappend rootino (dirent rootino [46]);
    do! iappend rootino (dirent rootino [46; 46]);
    do! add_files rootino files;
    do din <- rinode rootino;
    do! winode rootino (set_dsize (u32 ((di_size din / BSIZE + 1) * BSIZE)) din);
    do b <- gets freeblock;
    balloc b.

(** The state in which the program starts: open() has truncated the image, so
    nothing of [junk] can be read. *)
Definition before_main (junk : Z → block) : mst := mk_mst junk 0 1 0.
