(* ===== verification/MkfsSpec.v ===== *)
(** * The image that mkfs makes (mkfs/mkfs.c): theorems

    The image is a file system as the kernel expects it: the kernel's own
    predicates on the layout of the disk, the bitmap and the blocks of files
    hold of it, and its files have the contents that mkfs was given. *)

From stdpp Require Import functions.
From S2P Require Import Prelude Mem Riscv Kalloc Sleeplock Bio BioSpec Log LogSpec Fs FsTx FsBlock FsFile FsProps Mkfs.

(** ** The files of an image *)

(** The inode as ilock() loads it. *)
Definition as_inode (d inum : Z) (x : dinode) : inode :=
  mk_inode d inum 1 initsleeplock true (i16 (di_type x)) (i16 (di_major x)) (i16 (di_minor x)) (i16 (di_nlink x))
    (di_size x) (di_addrs x).
Definition dinode_of (cur : Z → block) (inum : Z) : dinode := load_din (dinode_off inum) (cur (IBLOCK inum the_sb)).

(** The blocks for [n] bytes, without and with the indirect block. *)
Definition data_blocks (n : Z) : Z := (n + BSIZE - 1) / BSIZE.
Definition blocks_for (n : Z) : Z := data_blocks n + (if NDIRECT <? data_blocks n then 1 else 0).

(** The first [m] blocks of a file are there and no others, all of them
    below [fb]. *)
Record has_blocks (cur : Z → block) (fb : Z) (x : inode) (m : Z) : Prop := {
  hb_max : 0 ≤ m ≤ MAXFILE;
  hb_in : ∀ k, 0 ≤ k < m → nmeta ≤ baddr cur x k < fb;
  hb_out : ∀ k, m ≤ k < MAXFILE → baddr cur x k = 0;
  hb_ind : if NDIRECT <? m then nmeta ≤ i_addrs x NDIRECT < fb else i_addrs x NDIRECT = 0;
  hb_inj : ∀ k k', 0 ≤ k < m → 0 ≤ k' < m → baddr cur x k = baddr cur x k' → k = k';
  hb_ne : ∀ k, 0 ≤ k < m → baddr cur x k ≠ i_addrs x NDIRECT
}.

(** The bytes of the file are [c], followed by zeroes. *)
Definition holds (cur : Z → block) (x : inode) (c : list Z) : Prop :=
  ∀ o, 0 ≤ o < MAXFILE * BSIZE → fbyte cur x o = nth (Z.to_nat o) c 0.

Definition block_of (cur : Z → block) (x : inode) (b : Z) : Prop := b ≠ 0 ∧ owns cur x b.

Lemma mconsts : nmeta = 46 ∧ FSSIZE = 2000 ∧ NINODES = 200.
Proof. done. Qed.

Lemma has_blocks_range cur fb x m b : has_blocks cur fb x m → block_of cur x b → nmeta ≤ b < fb.
Proof.
  intros Hb [Hne [->|(k & Hk & <-)]].
  - pose proof (hb_ind _ _ _ _ Hb) as Hi. case_test_in Hi; done || lia.
  - destruct (decide (k < m)); [by apply Hb; lia|]. by rewrite (hb_out _ _ _ _ Hb) in Hne by lia.
Qed.

(** Only the addresses and the blocks of the file count. *)
Lemma baddr_frame cur cur' x x' k :
  (∀ j, 0 ≤ j ≤ NDIRECT → i_addrs x' j = i_addrs x j) →
  (∀ b, block_of cur x b → cur' b = cur b) → 0 ≤ k → baddr cur' x' k = baddr cur x k.
Proof.
  intros Ha Hc Hk. unfold baddr. rewrite (Ha NDIRECT) by done. case_test; [apply Ha; lia|].
  case_test; [done|]. rewrite Hc; [done|]. split; [done|by left].
Qed.

Lemma owns_frame cur cur' x x' b :
  (∀ j, 0 ≤ j ≤ NDIRECT → i_addrs x' j = i_addrs x j) →
  (∀ k, 0 ≤ k < MAXFILE → baddr cur' x' k = baddr cur x k) → block_of cur' x' b ↔ block_of cur x b.
Proof.
  intros Ha Hk. unfold block_of, owns. rewrite (Ha NDIRECT) by done.
  split; intros [? [?|(k & ? & ?)]]; (split; [done|]); [by left|right|by left|right]; exists k; by rewrite ?Hk in * by done.
Qed.

Lemma file_frame cur cur' fb fb' x x' m :
  has_blocks cur fb x m → fb ≤ fb' →
  (∀ j, 0 ≤ j ≤ NDIRECT → i_addrs x' j = i_addrs x j) →
  (∀ b, block_of cur x b → cur' b = cur b) →
  has_blocks cur' fb' x' m ∧ (∀ c, holds cur x c → holds cur' x' c) ∧
  (∀ b, block_of cur' x' b ↔ block_of cur x b).
Proof.
  intros Hb Hfb Ha Hc. assert (Hk : ∀ k, 0 ≤ k → baddr cur' x' k = baddr cur x k) by (intros; by apply baddr_frame).
  split; [|split].
  - destruct Hb as [H1 H2 H3 H4 H5 H6]. split; rewrite ?(Ha NDIRECT) by done; try done.
    + intros k Hk'. rewrite Hk by lia. specialize (H2 k Hk'). lia.
    + intros k Hk'. rewrite Hk by lia. auto.
    + case_test; [lia|done].
    + intros k k' ??. rewrite !Hk by lia. auto.
    + intros k ?. rewrite Hk by lia. auto.
  - intros c Hh o Ho. rewrite <- Hh by done. unfold fbyte. pose proof consts as (_ & _ & H268 & HBS).
    assert (0 ≤ o / BSIZE < MAXFILE) by (rewrite HBS, H268 in *; zdm).
    rewrite Hk by lia. case_test; [done|]. rewrite Hc; [done|]. split; [done|]. right. by exists (o / BSIZE).
  - intros b. apply owns_frame; [done|]. intros k ?. apply Hk. lia.
Qed.

(** A new block at the end of the file, and possibly a new indirect block. *)
Lemma has_blocks_attach cur fb x m cur' fb' x' a :
  has_blocks cur fb x m → nmeta ≤ fb → m < MAXFILE → fb ≤ a < fb' →
  (∀ k, 0 ≤ k < MAXFILE → baddr cur' x' k = if k =? m then a else baddr cur x k) →
  (if NDIRECT <? m + 1 then nmeta ≤ i_addrs x' NDIRECT < fb' else i_addrs x' NDIRECT = 0) →
  i_addrs x' NDIRECT ≠ a → (i_addrs x' NDIRECT = i_addrs x NDIRECT ∨ fb ≤ i_addrs x' NDIRECT) →
  has_blocks cur' fb' x' (m + 1).
Proof.
  intros [H1 H2 H3 H4 H5 H6] Hfb Hm Ha Hk Hi Hia Hio.
  split; [lia| | |done| |].
  - intros k Hk'. rewrite Hk by lia. case_test; [lia|]. specialize (H2 k ltac:(lia)). lia.
  - intros k Hk'. rewrite Hk by lia. case_test; [lia|]. apply H3. lia.
  - intros k k' Hk1 Hk2. rewrite !Hk by lia.
    destruct (Z.eqb_spec k m), (Z.eqb_spec k' m); intros; try lia.
    + specialize (H2 k' ltac:(lia)). lia.
    + specialize (H2 k ltac:(lia)). lia.
    + apply H5; done || lia.
  - intros k Hk'. rewrite Hk by lia. case_test; [by apply not_eq_sym|].
    destruct Hio as [->|?]; [apply H6; lia|]. specialize (H2 k ltac:(lia)). lia.
Qed.

Lemma holds_attach cur x m cur' x' a c :
  (∀ k, 0 ≤ k < MAXFILE → baddr cur' x' k = if k =? m then a else baddr cur x k) →
  baddr cur x m = 0 → (∀ o, 0 ≤ o < BSIZE → ld8 (cur' a) o = 0) →
  (∀ k, 0 ≤ k < MAXFILE → k ≠ m → baddr cur x k ≠ 0 → cur' (baddr cur x k) = cur (baddr cur x k)) →
  holds cur x c → holds cur' x' c.
Proof.
  intros Hk Hm Hz Hs Hh o Ho. rewrite <- Hh by done. unfold fbyte. pose proof consts as (_ & _ & H268 & HBS).
  assert (0 ≤ o / BSIZE < MAXFILE) by (rewrite HBS, H268 in *; zdm).
  rewrite Hk by done. destruct (Z.eqb_spec (o / BSIZE) m) as [E|E].
  - rewrite E, Hm, Z.eqb_refl. case_test; [done|]. apply Hz. rewrite HBS. zdm.
  - case_test; [done|]. by rewrite Hs.
Qed.

(** Bytes written behind the end. *)
Lemma holds_app cur fb x m c p :
  let off := Z.of_nat (length c) in
  let a := baddr cur x (off / BSIZE) in
  has_blocks cur fb x m → off / BSIZE < m →
  off mod BSIZE + Z.of_nat (length p) ≤ BSIZE → Forall (fun v => 0 ≤ v < 256) p →
  holds cur x c → holds (<[a := store_bytes (cur a) (off - off / BSIZE * BSIZE) p]> cur) x (c ++ p).
Proof.
  intros off a Hb' Hm Hfit Hp Hh. pose proof consts as (_ & _ & H268 & HBS). pose proof mconsts as (Hnm & _).
  pose proof (hb_max _ _ _ _ Hb') as Hmax.
  assert (Hoff : 0 ≤ off / BSIZE) by (rewrite HBS; zdm).
  pose proof (hb_in _ _ _ _ Hb' (off / BSIZE) ltac:(lia)) as Ha. fold a in Ha.
  assert (Hk : ∀ k, 0 ≤ k < MAXFILE → baddr (<[a := store_bytes (cur a) (off - off / BSIZE * BSIZE) p]> cur) x k = baddr cur x k).
  { intros k Hk. apply baddr_ext; [|done]. intros _ o _. rewrite fn_lookup_insert_ne; [done|].
    apply (hb_ne _ _ _ _ Hb'). lia. }
  intros o Ho. assert (Hob : 0 ≤ o / BSIZE < MAXFILE) by (rewrite HBS, H268 in *; zdm).
  specialize (Hh o Ho). unfold fbyte in *. rewrite Hk by done.
  destruct (decide (o / BSIZE = off / BSIZE)) as [E|E].
  - rewrite E in *. fold a in Hh |- *. rewrite (proj2 (Z.eqb_neq a 0)) in Hh |- * by lia.
    rewrite fn_lookup_insert. rewrite HBS in *. destruct (decide (off ≤ o < off + Z.of_nat (length p))) as [Hin|Hout].
    + rewrite ld8_store_bytes_in by zdm. rewrite app_nth2 by lia.
      replace (Z.to_nat (o mod 1024 - _)) with (Z.to_nat o - length c)%nat by zdm.
      apply Z.mod_small. rewrite Forall_forall in Hp. apply Hp, list_elem_of_In, nth_In. lia.
    + rewrite ld8_store_bytes_out, Hh by zdm. destruct (decide (o < off)).
      * by rewrite app_nth1 by lia.
      * rewrite !nth_overflow; [done|rewrite ?length_app; lia..].
  - assert (nth (Z.to_nat o) (c ++ p) 0 = nth (Z.to_nat o) c 0) as ->.
    { rewrite HBS in *. destruct (decide (o < off)); [by rewrite app_nth1 by lia|].
      rewrite !nth_overflow; [done|lia|]. rewrite length_app. zdm. }
    rewrite <- Hh. case_test; [done|]. rewrite fn_lookup_insert_ne; [done|]. intros Heq. apply E.
    destruct (decide (o / BSIZE < m)); [|by rewrite (hb_out _ _ _ _ Hb') in E0 by lia].
    apply (hb_inj _ _ _ _ Hb'); done || lia.
Qed.

(** ** Appending *)

Lemma ldn_zero n m a : (∀ b, a ≤ b < a + Z.of_nat n → ld8 m b = 0) → ldn n m a = 0.
Proof.
  revert a; induction n as [|n IH]; intros a H; cbn [ldn]; [done|].
  rewrite H, IH by (intros; try apply H; lia). done.
Qed.

Lemma sector_small b : 0 ≤ b < FSSIZE → sector b = b.
Proof. intros Hb. unfold sector. rewrite u32_small; unfold FSSIZE, BSIZE in *; zdm. Qed.

Lemma rsect_wp b s (Q : block → mst → Prop) :
  0 ≤ b < FSSIZE → sectors s = FSSIZE → Q (image s b) s → wp (rsect b) Q s.
Proof.
  intros Hb Hs HQ. unfold rsect. apply wp_bind, wp_get. rewrite sector_small, Hs by done.
  rewrite (proj2 (Z.ltb_lt _ _)) by lia. by apply wp_ret.
Qed.

Definition set_image (f : (Z → block) → Z → block) (s : mst) : mst :=
  mk_mst (f (image s)) (sectors s) (freeinode s) (freeblock s).

Lemma wsect_wp b v s (Q : unit → mst → Prop) :
  0 ≤ b < FSSIZE → sectors s = FSSIZE → Q tt (set_image (<[b := v]>) s) → wp (wsect b v) Q s.
Proof.
  intros Hb Hs HQ. unfold wsect. apply wp_modify. unfold set_image in HQ.
  rewrite sector_small by done. by rewrite Z.max_l by lia.
Qed.

Definition set_freeblock (v : Z) (s : mst) : mst := mk_mst (image s) (sectors s) (freeinode s) v.

Lemma next_block_wp s (Q : Z → mst → Prop) :
  0 ≤ freeblock s < FSSIZE → Q (freeblock s) (set_freeblock (freeblock s + 1) s) → wp next_block Q s.
Proof.
  intros Hb HQ. unfold next_block. apply wp_bind, wp_gets, wp_bind, wp_modify, wp_ret.
  rewrite u32_small by (unfold FSSIZE in *; lia). exact HQ.
Qed.

(** The state while the file of [x] grows: [R] are the blocks of the other
    files, [s0] is the state in which iappend() began. *)
Section append.
Context (d inum : Z) (s0 : mst) (R : Z → Prop) (HR : ∀ b, R b → b < freeblock s0).
#[local] Abbreviation ino := (as_inode d inum).

Record appending (s : mst) (din : dinode) (m : Z) (c : list Z) : Prop := {
  ap_sectors : sectors s = FSSIZE;
  ap_fi : freeinode s = freeinode s0;
  ap_fb : freeblock s0 ≤ freeblock s;
  ap_meta : nmeta ≤ freeblock s;
  ap_zero : ∀ b o, freeblock s ≤ b < FSSIZE → 0 ≤ o < BSIZE → ld8 (image s b) o = 0;
  ap_blocks : has_blocks (image s) (freeblock s) (ino din) m;
  ap_holds : holds (image s) (ino din) c;
  ap_apart : ∀ b, block_of (image s) (ino din) b → ¬ R b;
  ap_keep : ∀ b, b < nmeta ∨ R b → image s b = image s0 b
}.

Definition same_attrs (x y : dinode) : Prop :=
  di_type x = di_type y ∧ di_major x = di_major y ∧ di_minor x = di_minor y ∧ di_nlink x = di_nlink y.

(** A fresh block behind the end: what every way to get one shares. *)
Lemma appending_attach s din m c s' din' a :
  appending s din m c → m < MAXFILE → freeblock s ≤ a < freeblock s' → freeblock s' ≤ FSSIZE →
  sectors s' = FSSIZE → freeinode s' = freeinode s →
  (∀ k, 0 ≤ k < MAXFILE → baddr (image s') (ino din') k = if k =? m then a else baddr (image s) (ino din) k) →
  (if NDIRECT <? m + 1 then nmeta ≤ di_addrs din' NDIRECT < freeblock s' else di_addrs din' NDIRECT = 0) →
  di_addrs din' NDIRECT ≠ a →
  (di_addrs din' NDIRECT = di_addrs din NDIRECT ∨ freeblock s ≤ di_addrs din' NDIRECT) →
  (∀ b, b = 0 ∨ b ≠ di_addrs din' NDIRECT → image s' b = image s b) →
  appending s' din' (m + 1) c.
Proof.
  intros [H1 H2 H3 H4 H5 H6 H7 H8 H9] Hm Ha Hfs Hs Hi Hk Hind Hne Hio Hsame.
  pose proof (has_blocks_attach _ _ _ _ _ _ _ _ H6 H4 Hm Ha Hk Hind Hne Hio) as Hb'.
  pose proof mconsts as (Hnm & _). pose proof (hb_max _ _ _ _ H6) as Hmax.
  assert (Hi0 : ∀ b, b < freeblock s0 ∧ R b ∨ b < nmeta ∨ freeblock s' ≤ b → b = di_addrs din' NDIRECT → b = 0).
  { intros b Hb ->. case_test_in Hind; [|done]. destruct Hb as [[Hb1 Hb2]|[?|?]]; [|lia..].
    destruct Hio as [Hio|?]; [|lia]. destruct (decide (di_addrs din' NDIRECT = 0)); [done|].
    exfalso. apply (H8 (di_addrs din' NDIRECT)); [|done]. split; [done|]. left. exact Hio. }
  split; try done; try lia.
  - intros b o Hb Ho. rewrite Hsame; [apply H5; lia|]. right. intros E. assert (b = 0) by (apply (Hi0 b); [lia|done]). lia.
  - eapply holds_attach; [exact Hk|apply H6; lia| | |exact H7].
    + intros o Ho. rewrite Hsame by (right; done). apply H5; lia.
    + intros k Hk1 Hk2 Hk3. apply Hsame. right. intros E.
      assert (Hkm : 0 ≤ k < m) by (split; [lia|]; destruct (decide (k < m)); [done|];
        exfalso; apply Hk3, H6; lia).
      pose proof (hb_ne _ _ _ _ Hb' k ltac:(lia)) as Hn. rewrite Hk in Hn by done.
      case_test_in Hn; [lia|]. done.
  - intros b [Hb0 [Hb|(k & Hk1 & Hk2)]] HRb.
    + apply Hb0, (Hi0 b); [|done]. left. split; [by apply HR|done].
    + rewrite Hk in Hk2 by done. pose proof (HR b HRb). case_test_in Hk2; [lia|].
      apply (H8 b); [|done]. split; [done|]. right. by exists k.
  - intros b Hb. rewrite Hsame; [by apply H9|].
    destruct (decide (b = di_addrs din' NDIRECT)) as [E|E]; [left|by right].
    apply (Hi0 b); [|done]. destruct Hb as [?|Hb]; [lia|]. left. auto.
Qed.

Definition got_block (s : mst) (din : dinode) (fbn : Z) (c : list Z) (more : Z) : Z * dinode → mst → Prop :=
  fun '(a, din') s' =>
    appending s' din' (fbn + 1) c ∧ a = baddr (image s') (ino din') fbn ∧ same_attrs din' din ∧
    di_size din' = di_size din ∧ freeblock s' = freeblock s + more.

Lemma got_block_there s din fbn c a :
  appending s din (fbn + 1) c → a = baddr (image s) (ino din) fbn → got_block s din fbn c 0 (a, din) s.
Proof. intros. split; [done|]. split; [done|]. split; [done|]. split; [done|]. lia. Qed.

Lemma block_for_direct s din m c fbn :
  appending s din m c → 0 ≤ fbn < NDIRECT → m = fbn ∨ m = fbn + 1 →
  freeblock s + (if m =? fbn then 1 else 0) ≤ FSSIZE →
  wp (block_for din fbn) (got_block s din fbn c (if m =? fbn then 1 else 0)) s.
Proof.
  intros Ha Hf Hm Hroom. pose proof consts as (H12 & _ & H268 & _). pose proof mconsts as (Hnm & _).
  pose proof (ap_meta _ _ _ _ Ha) as Hmeta. pose proof (ap_blocks _ _ _ _ Ha) as Hb.
  assert (Hd : di_addrs din fbn = baddr (image s) (ino din) fbn).
  { unfold baddr. by rewrite (proj2 (Z.ltb_lt _ _)) by lia. }
  unfold block_for. rewrite (proj2 (Z.ltb_lt _ _)) by lia. destruct Hm as [->| ->].
  - rewrite Z.eqb_refl in *. rewrite Hd, (hb_out _ _ _ _ Hb) by lia. rewrite Z.eqb_refl.
    apply wp_bind, next_block_wp; [lia|]. apply wp_ret.
    pose proof (hb_ind _ _ _ _ Hb) as Hi. rewrite (proj2 (Z.ltb_ge _ _)) in Hi by lia. cbn in Hi.
    assert (Hn : <[fbn := freeblock s]> (di_addrs din) NDIRECT = 0) by (rewrite fn_lookup_insert_ne by lia; done).
    split; [|split; [|done]].
    + eapply appending_attach; [exact Ha|lia|split; [reflexivity|cbn; lia]|cbn; lia|apply Ha|done| | | | |done]; cbn [di_addrs set_daddr].
      * intros k Hk. unfold baddr. cbn [i_addrs as_inode di_addrs set_daddr image set_freeblock]. rewrite Hn, Hi. change (0 =? 0) with true. cbv iota.
        destruct (Z.eqb_spec k fbn) as [->|]; [by rewrite (proj2 (Z.ltb_lt _ _)), fn_lookup_insert by lia|].
        case_test; [|done]. by rewrite fn_lookup_insert_ne.
      * rewrite Hn. by rewrite (proj2 (Z.ltb_ge _ _)) by lia.
      * rewrite Hn. lia.
      * left. by rewrite Hn, Hi.
    + unfold baddr. rewrite (proj2 (Z.ltb_lt _ _)) by lia. cbn. by rewrite fn_lookup_insert.
  - rewrite (proj2 (Z.eqb_neq (fbn + 1) fbn)) by lia. pose proof (hb_in _ _ _ _ Hb fbn ltac:(lia)) as Hr.
    rewrite Hd, (proj2 (Z.eqb_neq _ 0)) by lia. apply wp_ret. by apply got_block_there.
Qed.

(** The indirect block is [i], and its entry for [fbn] is empty. *)
Lemma append_indirect s1 s din din1 c fbn :
  appending s din fbn c → NDIRECT ≤ fbn < MAXFILE →
  (∀ k, 0 ≤ k < NDIRECT → di_addrs din1 k = di_addrs din k) →
  image s1 = image s → sectors s1 = FSSIZE → freeinode s1 = freeinode s →
  freeblock s ≤ freeblock s1 < FSSIZE → nmeta ≤ di_addrs din1 NDIRECT < freeblock s1 →
  (di_addrs din1 NDIRECT = di_addrs din NDIRECT ∨ fbn = NDIRECT ∧ di_addrs din1 NDIRECT = freeblock s) →
  ld32 (image s (di_addrs din1 NDIRECT)) (4 * (fbn - NDIRECT)) = 0 →
  let i := di_addrs din1 NDIRECT in
  let s' := set_image (<[i := st32 (image s i) (4 * (fbn - NDIRECT)) (freeblock s1)]>) (set_freeblock (freeblock s1 + 1) s1) in
  appending s' din1 (fbn + 1) c ∧ freeblock s1 = baddr (image s') (ino din1) fbn.
Proof.
  intros Ha Hf Hd Him Hs Hfi Hfb Hi Hio He i s'. pose proof consts as (H12 & _ & H268 & _).
  pose proof mconsts as (Hnm & HF & _). pose proof (ap_blocks _ _ _ _ Ha) as Hb.
  assert (Hk : ∀ k, 0 ≤ k < MAXFILE →
    baddr (image s') (ino din1) k = if k =? fbn then freeblock s1 else baddr (image s) (ino din) k).
  { intros k Hk. unfold baddr. cbn [i_addrs as_inode image s' set_image set_freeblock]. fold i. rewrite Him.
    case_test; [rewrite Hd by lia; by rewrite (proj2 (Z.eqb_neq k fbn)) by lia|].
    rewrite (proj2 (Z.eqb_neq i 0)), fn_lookup_insert by lia.
    destruct (Z.eqb_spec k fbn) as [->|Hne]; [rewrite ld32_st32_eq, u32_small; lia|].
    unfold ld32, st32 in *. rewrite ldn_stn_out by lia. destruct Hio as [Hio|[Ef Hio]].
    - unfold i. rewrite Hio. case_test; [|done]. rewrite Hio in Hi. lia.
    - pose proof (hb_ind _ _ _ _ Hb) as Hi0. rewrite (proj2 (Z.ltb_ge _ _)) in Hi0 by lia. cbn in Hi0. rewrite Hi0.
      change (0 =? 0) with true. cbv iota. apply ldn_zero. intros o Ho. unfold i. rewrite Hio.
      apply (ap_zero _ _ _ _ Ha); change BSIZE with 1024; lia. }
  split.
  - eapply appending_attach; [exact Ha|lia| | | | |exact Hk| | | |];
      cbn [sectors freeinode freeblock s' set_image set_freeblock image]; try done; try lia.
    + rewrite (proj2 (Z.ltb_lt _ _)) by lia. lia.
    + intros b [->|Hne]; rewrite Him; apply fn_lookup_insert_ne; fold i; done || lia.
  - by rewrite Hk, Z.eqb_refl by lia.
Qed.

Lemma block_for_indirect s din m c fbn :
  appending s din m c → NDIRECT ≤ fbn < MAXFILE → m = fbn ∨ m = fbn + 1 →
  let more := if m =? fbn then if fbn =? NDIRECT then 2 else 1 else 0 in
  freeblock s + more ≤ FSSIZE →
  wp (block_for din fbn) (got_block s din fbn c more) s.
Proof.
  intros Ha Hf Hm more Hroom. pose proof consts as (H12 & _ & H268 & _). pose proof mconsts as (Hnm & _).
  pose proof (ap_meta _ _ _ _ Ha) as Hmeta. pose proof (ap_blocks _ _ _ _ Ha) as Hb.
  pose proof (hb_ind _ _ _ _ Hb) as Hi. cbn [i_addrs as_inode] in Hi.
  unfold block_for. rewrite (proj2 (Z.ltb_ge _ _)) by lia. destruct (decide (m = NDIRECT)) as [->|Hne].
  - assert (fbn = NDIRECT) as -> by lia. unfold more in *. rewrite Z.eqb_refl in *.
    rewrite (proj2 (Z.ltb_ge _ _)) in Hi by lia. rewrite Hi, Z.eqb_refl.
    apply wp_bind, wp_bind, next_block_wp; [lia|]. apply wp_ret, wp_bind.
    cbn [di_addrs set_daddr]. rewrite fn_lookup_insert.
    apply rsect_wp; [lia|apply Ha|]. cbn [image set_freeblock].
    assert (He : ld32 (image s (freeblock s)) (4 * (NDIRECT - NDIRECT)) = 0).
    { apply ldn_zero. intros o Ho. apply (ap_zero _ _ _ _ Ha); change BSIZE with 1024; lia. }
    assert (Hda : ∀ k, 0 ≤ k < NDIRECT → di_addrs (set_daddr NDIRECT (freeblock s) din) k = di_addrs din k).
    { intros k Hk. cbn [di_addrs set_daddr]. apply fn_lookup_insert_ne. lia. }
    rewrite He, Z.eqb_refl. apply wp_bind, next_block_wp; [cbn; lia|]. apply wp_bind, wsect_wp; [lia|apply Ha|].
    apply wp_ret. split; [|split; [|split; [done|split; [done|cbn; lia]]]].
    all: pose proof (append_indirect (set_freeblock (freeblock s + 1) s) s din (set_daddr NDIRECT (freeblock s) din) c NDIRECT
      Ha ltac:(lia) Hda eq_refl (ap_sectors _ _ _ _ Ha) eq_refl) as Hai.
    all: cbn [di_addrs set_daddr freeblock set_freeblock] in Hai; rewrite fn_lookup_insert in Hai.
    all: destruct Hai as [H1 H2]; [lia|lia|right; done|done|done].
  - rewrite (proj2 (Z.ltb_lt _ _)) in Hi by lia. rewrite (proj2 (Z.eqb_neq _ 0)) by lia.
    apply wp_bind, wp_ret, wp_bind. assert (freeblock s ≤ FSSIZE) by (unfold more in Hroom; repeat case_test_in Hroom; lia).
    apply rsect_wp; [lia|apply Ha|].
    assert (Hd : ld32 (image s (di_addrs din NDIRECT)) (4 * (fbn - NDIRECT)) = baddr (image s) (ino din) fbn).
    { unfold baddr. rewrite (proj2 (Z.ltb_ge _ _)) by lia. cbn. by rewrite (proj2 (Z.eqb_neq _ 0)) by lia. }
    destruct Hm as [->| ->].
    + unfold more in *. rewrite Z.eqb_refl, (proj2 (Z.eqb_neq fbn NDIRECT)) in * by lia.
      assert (Hz : baddr (image s) (ino din) fbn = 0) by (apply Hb; lia). rewrite Hd, Hz, Z.eqb_refl.
      apply wp_bind, next_block_wp; [lia|]. apply wp_bind, wsect_wp; [lia|apply Ha|]. apply wp_ret.
      destruct (append_indirect s s din din c fbn Ha Hf); try done; [apply Ha|lia|by left|by rewrite Hd].
    + unfold more in *. rewrite (proj2 (Z.eqb_neq (fbn + 1) fbn)) by lia.
      pose proof (hb_in _ _ _ _ Hb fbn ltac:(lia)). rewrite Hd, (proj2 (Z.eqb_neq _ 0)) by lia.
      apply wp_ret. by apply got_block_there.
Qed.

Lemma block_for_spec s din m c fbn :
  appending s din m c → 0 ≤ fbn < MAXFILE → m = fbn ∨ m = fbn + 1 →
  let more := if m =? fbn then if fbn =? NDIRECT then 2 else 1 else 0 in
  freeblock s + more ≤ FSSIZE →
  wp (block_for din fbn) (got_block s din fbn c more) s.
Proof.
  intros Ha Hf Hm more Hroom. destruct (decide (fbn < NDIRECT)).
  - unfold more in *. rewrite (proj2 (Z.eqb_neq fbn NDIRECT)) in * by lia. apply (block_for_direct s din m); done || lia.
  - apply (block_for_indirect s din m); done || lia.
Qed.

(** The bytes [p], which end in the same block, are stored in it. *)
Lemma appending_store s din fbn c p :
  let off := Z.of_nat (length c) in
  let a := baddr (image s) (ino din) fbn in
  appending s din (fbn + 1) c → fbn = off / BSIZE → off mod BSIZE + Z.of_nat (length p) ≤ BSIZE →
  Forall (fun v => 0 ≤ v < 256) p →
  appending (set_image (<[a := store_bytes (image s a) (off - fbn * BSIZE) p]>) s) din (fbn + 1) (c ++ p).
Proof.
  intros off a Ha Hf Hfit Hp. pose proof mconsts as (Hnm & _). pose proof consts as (_ & _ & _ & HBS).
  assert (0 ≤ fbn) by (subst fbn; rewrite HBS; zdm).
  destruct Ha as [H1 H2 H3 H4 H5 H6 H7 H8 H9].
  pose proof (hb_in _ _ _ _ H6 fbn ltac:(lia)) as Hr. fold a in Hr.
  pose proof (hb_ne _ _ _ _ H6 fbn ltac:(lia)) as Hn. fold a in Hn.
  pose proof (hb_max _ _ _ _ H6) as Hmax.
  assert (Hk : ∀ k, 0 ≤ k < MAXFILE →
    baddr (image (set_image (<[a := store_bytes (image s a) (off - fbn * BSIZE) p]>) s)) (ino din) k = baddr (image s) (ino din) k).
  { intros k Hk. apply baddr_ext; [|done]. intros _ o _. cbn [image set_image]. by rewrite fn_lookup_insert_ne. }
  assert (Ho : block_of (image s) (ino din) a) by (split; [lia|]; right; exists fbn; split; [lia|done]).
  split; try done.
  - intros b o Hb Hoo. cbn [image set_image freeblock] in *. rewrite fn_lookup_insert_ne by lia. by apply H5.
  - destruct H6 as [G1 G2 G3 G4 G5 G6]. split; try done.
    + intros k ?. rewrite Hk by lia. by apply G2.
    + intros k ?. rewrite Hk by lia. by apply G3.
    + intros k k' ??. rewrite !Hk by lia. by apply G5.
    + intros k ?. rewrite Hk by lia. by apply G6.
  - unfold a. subst fbn. apply (holds_app _ (freeblock s) _ (off / BSIZE + 1)); try done. fold off. lia.
  - intros b Hb. apply H8. by apply (owns_frame (image s) _ (ino din) (ino din)) in Hb.
  - intros b Hb. cbn [image set_image]. rewrite fn_lookup_insert_ne; [by apply H9|]. intros <-.
    destruct Hb as [?|Hb]; [lia|]. by apply (H8 a).
Qed.

Lemma data_blocks_step n k :
  0 ≤ n → 0 < k → n mod BSIZE + k ≤ BSIZE → data_blocks (n + k) = n / BSIZE + 1.
Proof. unfold data_blocks, BSIZE. intros. zdm. Qed.
Lemma data_blocks_cases n : 0 ≤ n → data_blocks n = n / BSIZE ∨ data_blocks n = n / BSIZE + 1.
Proof. unfold data_blocks, BSIZE. intros. zdm. Qed.
Lemma data_blocks_mono n k : n ≤ k → data_blocks n ≤ data_blocks k.
Proof. unfold data_blocks, BSIZE. intros. zdm. Qed.

Lemma blocks_for_mono n k : n ≤ k → blocks_for n ≤ blocks_for k.
Proof. intros H%data_blocks_mono. unfold blocks_for. repeat case_test; lia. Qed.
Lemma blocks_for_step n k :
  0 ≤ n → 0 < k → n mod BSIZE + k ≤ BSIZE →
  blocks_for (n + k) - blocks_for n =
  if data_blocks n =? n / BSIZE then if n / BSIZE =? NDIRECT then 2 else 1 else 0.
Proof.
  intros Hn Hk Hf. unfold blocks_for. rewrite data_blocks_step by done.
  destruct (data_blocks_cases n Hn) as [-> | ->]; repeat case_test; lia.
Qed.

Lemma iappend_loop_spec fuel s din c p :
  let off := Z.of_nat (length c) in
  let all := off + Z.of_nat (length p) in
  appending s din (data_blocks off) c → (length p ≤ fuel)%nat → Forall (fun v => 0 ≤ v < 256) p →
  all ≤ MAXFILE * BSIZE → freeblock s + (blocks_for all - blocks_for off) ≤ FSSIZE →
  wp (iappend_loop fuel din off p) (fun '(din', off') s' =>
    appending s' din' (data_blocks all) (c ++ p) ∧ off' = all ∧ same_attrs din' din ∧
    freeblock s' = freeblock s + (blocks_for all - blocks_for off)) s.
Proof.
  revert s din c p; induction fuel as [|f IH]; intros s din c p off all Ha Hfuel Hp Hmax Hroom.
  all: destruct p as [|v p']; [apply wp_ret; unfold all; cbn [length]; rewrite Z.add_0_r, app_nil_r;
    split; [done|]; split; [done|]; split; [done|lia]|].
  { cbn in Hfuel. lia. }
  cbn [iappend_loop]. set (p := v :: p') in *. assert (Hlen : (0 < length p)%nat) by (cbn; lia). clearbody p.
  pose proof consts as (_ & _ & H268 & HBS). pose proof mconsts as (Hnm & _).
  assert (Hf : 0 ≤ off / BSIZE < MAXFILE) by (rewrite HBS, H268 in *; zdm).
  rewrite (proj2 (Z.ltb_lt _ _)) by lia. cbn [negb].
  set (n1 := Z.min (Z.of_nat (length p)) ((off / BSIZE + 1) * BSIZE - off)).
  assert (Hn1 : 0 < n1 ≤ Z.of_nat (length p) ∧ off mod BSIZE + n1 ≤ BSIZE) by (unfold n1; rewrite HBS in *; zdm).
  set (q := take (Z.to_nat n1) p). assert (Hq : Z.of_nat (length q) = n1) by (unfold q; rewrite length_take; lia).
  pose proof (blocks_for_step off n1 ltac:(lia) ltac:(lia) ltac:(lia)) as Hmore.
  pose proof (blocks_for_mono (off + n1) all ltac:(lia)) as Hle.
  apply wp_bind. eapply wp_mono.
  { apply (block_for_spec s din _ c (off / BSIZE) Ha Hf).
    - destruct (data_blocks_cases off); [lia|by left|by right].
    - rewrite <- Hmore. lia. }
  intros [a din1] s1 (Ha1 & -> & Hat & _ & Hfb). rewrite <- Hmore in Hfb.
  pose proof (ap_blocks _ _ _ _ Ha1) as Hb1. pose proof (hb_in _ _ _ _ Hb1 (off / BSIZE) ltac:(lia)) as Hr.
  apply wp_bind, rsect_wp; [lia|apply Ha1|]. apply wp_bind, wsect_wp; [lia|apply Ha1|].
  apply (appending_store s1 din1 _ c q) in Ha1; [|done|fold off; lia|by apply Forall_take].
  fold off in Ha1. rewrite <- (data_blocks_step off n1) in Ha1 by lia.
  assert (Hoff : off + n1 = Z.of_nat (length (c ++ q))) by (rewrite length_app; lia).
  assert (Hall : off + n1 + Z.of_nat (length (drop (Z.to_nat n1) p)) = all) by (rewrite length_drop; lia).
  rewrite Hoff in *. eapply wp_mono.
  { apply IH; rewrite ?Hall; [exact Ha1|rewrite length_drop; lia|by apply Forall_drop|done|cbn [freeblock set_image]; lia]. }
  intros [din2 off2] s2 (Ha2 & -> & Hat2 & Hfb2). rewrite Hall in *.
  rewrite <- app_assoc in Ha2. unfold q in Ha2. rewrite take_drop in Ha2.
  split; [done|]. split; [done|]. split; [|cbn [freeblock set_image] in Hfb2; lia].
  unfold same_attrs in *. intuition congruence.
Qed.
End append.

(** ** Inodes *)

Lemma ld8_store_addrs_out k o a m b :
  (k ≤ 13)%nat → b < o + 12 ∨ o + 64 ≤ b → ld8 (store_addrs k o a m) b = ld8 m b.
Proof.
  revert m; induction k as [|k IH]; intros m Hk Hb; cbn [store_addrs]; [done|].
  rewrite IH by lia. unfold st32. apply ld8_stn_out. unfold NDIRECT. lia.
Qed.
Lemma ld32_store_addrs k o a m j :
  (k ≤ 13)%nat → 0 ≤ j ≤ NDIRECT →
  ld32 (store_addrs k o a m) (o + 12 + 4 * j) =
  if NDIRECT + 1 - Z.of_nat k <=? j then u32 (a j) else ld32 m (o + 12 + 4 * j).
Proof.
  revert m; induction k as [|k IH]; intros m Hk Hj; cbn [store_addrs].
  { rewrite (proj2 (Z.leb_gt _ _)) by lia. done. }
  rewrite IH by lia. set (i := NDIRECT + 1 - Z.of_nat (S k)).
  destruct (Z.leb_spec (NDIRECT + 1 - Z.of_nat k) j), (Z.leb_spec i j); try done; try lia.
  - assert (j = i) as -> by lia. apply ld32_st32_eq.
  - apply (ldn_stn_out 4 4). lia.
Qed.

Lemma ld8_store_din_out o x m b : b < o ∨ o + 64 ≤ b → ld8 (store_din o x m) b = ld8 m b.
Proof.
  intros Hb. unfold store_din. change (Z.to_nat (NDIRECT + 1)) with 13%nat.
  rewrite ld8_store_addrs_out by lia.
  unfold st16, st32. by rewrite !ld8_stn_out by lia.
Qed.

Definition same_din (x y : dinode) : Prop :=
  same_attrs x y ∧ di_size x = di_size y ∧ ∀ k, 0 ≤ k ≤ NDIRECT → di_addrs x k = di_addrs y k.

(** The fields as they are stored, at their widths. *)
Definition wrapped (x : dinode) : dinode :=
  mk_din (u16 (di_type x)) (u16 (di_major x)) (u16 (di_minor x)) (u16 (di_nlink x)) (u32 (di_size x)) (fun k => u32 (di_addrs x k)).

Lemma load_store_din o x m : same_din (load_din o (store_din o x m)) (wrapped x).
Proof.
  assert (Hld : ∀ n b, b + Z.of_nat n ≤ o + 12 → ldn n (store_din o x m) b =
    ldn n (st32 (st16 (st16 (st16 (st16 m o (di_type x)) (o + 2) (di_major x)) (o + 4) (di_minor x)) (o + 6) (di_nlink x)) (o + 8) (di_size x)) b).
  { intros n b Hb. apply ldn_ext. intros i Hi. apply (ld8_store_addrs_out 13); lia. }
  split; [split; [|split; [|split]]|split]; cbn [di_type di_major di_minor di_nlink di_size load_din wrapped].
  - unfold ld16. rewrite Hld by lia. unfold st32, st16. rewrite !ldn_stn_out by lia. apply (ldn_stn_eq 2).
  - unfold ld16. rewrite Hld by lia. unfold st32, st16. rewrite 3!ldn_stn_out by lia. apply (ldn_stn_eq 2).
  - unfold ld16. rewrite Hld by lia. unfold st32, st16. rewrite 2!ldn_stn_out by lia. apply (ldn_stn_eq 2).
  - unfold ld16. rewrite Hld by lia. unfold st32, st16. rewrite ldn_stn_out by lia. apply (ldn_stn_eq 2).
  - unfold ld32. rewrite Hld by lia. apply (ldn_stn_eq 4).
  - intros k Hk. cbn [di_addrs load_din]. unfold store_din. change (Z.to_nat (NDIRECT + 1)) with 13%nat.
    rewrite ld32_store_addrs by lia. by rewrite (proj2 (Z.leb_le _ _)) by (unfold NDIRECT in *; lia).
Qed.

Lemma load_din_ext o m m' :
  (∀ b, o ≤ b < o + 64 → ld8 m' b = ld8 m b) → same_din (load_din o m') (load_din o m).
Proof.
  intros H. split; [split; [|split; [|split]]|split; [|intros k Hk]]; apply ldn_ext; intros b Hb; apply H;
    unfold NDIRECT in *; lia.
Qed.

Lemma iblock_range i : 0 ≤ i < NINODES → 32 ≤ IBLOCK i the_sb < 45.
Proof. intros Hi. unfold IBLOCK, NINODES in *. change (sb_inodestart the_sb) with 32. change IPB with 16. rewrite u32_small; zdm. Qed.

Lemma winode_wp i x s (Q : unit → mst → Prop) :
  0 ≤ i < NINODES → sectors s = FSSIZE →
  Q tt (set_image (<[IBLOCK i the_sb := store_din (dinode_off i) x (image s (IBLOCK i the_sb))]>) s) → wp (winode i x) Q s.
Proof.
  intros Hi Hs HQ. pose proof (iblock_range i Hi). pose proof mconsts as (_ & HF & _). unfold winode.
  apply wp_bind, rsect_wp; [lia|done|]. apply wsect_wp; [lia|done|done].
Qed.
Lemma rinode_wp i s (Q : dinode → mst → Prop) :
  0 ≤ i < NINODES → sectors s = FSSIZE → Q (dinode_of (image s) i) s → wp (rinode i) Q s.
Proof.
  intros Hi Hs HQ. pose proof (iblock_range i Hi). pose proof mconsts as (_ & HF & _). unfold rinode.
  apply wp_bind, rsect_wp; [lia|done|]. by apply wp_ret.
Qed.

(** After the inode [i] has been written. *)
Lemma dinode_of_written i x cur :
  same_din (dinode_of (<[IBLOCK i the_sb := store_din (dinode_off i) x (cur (IBLOCK i the_sb))]> cur) i) (wrapped x).
Proof. unfold dinode_of. rewrite fn_lookup_insert. apply load_store_din. Qed.
Lemma dinode_of_other i j x cur :
  0 ≤ i < NINODES → 0 ≤ j < NINODES → i ≠ j →
  same_din (dinode_of (<[IBLOCK i the_sb := store_din (dinode_off i) x (cur (IBLOCK i the_sb))]> cur) j) (dinode_of cur j).
Proof.
  intros Hi Hj Hne. unfold dinode_of. destruct (decide (IBLOCK i the_sb = IBLOCK j the_sb)) as [E|E].
  - rewrite E, fn_lookup_insert. apply load_din_ext. intros b Hb. apply ld8_store_din_out.
    unfold IBLOCK, dinode_off, NINODES in *. change (sb_inodestart the_sb) with 32 in *.
    change IPB with 16 in *. change sizeof_dinode with 64 in *. rewrite !u32_small in E by zdm. zdm.
  - rewrite fn_lookup_insert_ne by done. by apply load_din_ext.
Qed.

(** ** The tree of files *)

Section tree.
Context (d : Z).

Definition inode_of (cur : Z → block) (i : Z) : inode := as_inode d i (dinode_of cur i).

(** The inode [i] is a file with one link and the contents [c]. *)
Record file_in (cur : Z → block) (fb i : Z) (c : list Z) : Prop := {
  fi_blocks : has_blocks cur fb (inode_of cur i) (data_blocks (Z.of_nat (length c)));
  fi_holds : holds cur (inode_of cur i) c;
  fi_size : i_size (inode_of cur i) = Z.of_nat (length c);
  fi_type : i_type (inode_of cur i) = if i =? ROOTINO then T_DIR else T_FILE;
  fi_nlink : i_nlink (inode_of cur i) = 1
}.

(** The image under construction: the inodes below [freeinode] are the files
    [C], the blocks from [freeblock] on and the inodes from [freeinode] on
    have not been touched. *)
Record tree (s : mst) (C : Z → list Z) : Prop := {
  t_sectors : sectors s = FSSIZE;
  t_fb : nmeta ≤ freeblock s;
  t_fi : 1 ≤ freeinode s ≤ NINODES;
  t_zero : ∀ b o, freeblock s ≤ b < FSSIZE → 0 ≤ o < BSIZE → ld8 (image s b) o = 0;
  t_files : ∀ i, 1 ≤ i < freeinode s → file_in (image s) (freeblock s) i (C i);
  t_apart : ∀ i j b, 1 ≤ i < freeinode s → 1 ≤ j < freeinode s → i ≠ j →
    block_of (image s) (inode_of (image s) i) b → ¬ block_of (image s) (inode_of (image s) j) b;
  t_free : ∀ i, freeinode s ≤ i < NINODES → di_type (dinode_of (image s) i) = 0;
  t_super : image s 1 = sb_block;
  t_log : ∀ b o, 2 ≤ b < 32 → 0 ≤ o < BSIZE → ld8 (image s b) o = 0
}.

Lemma data_blocks_nonneg n : 0 ≤ n → 0 ≤ data_blocks n.
Proof. unfold data_blocks, BSIZE. intros. zdm. Qed.

Lemma has_blocks_addrs cur fb x m k :
  has_blocks cur fb x m → 0 ≤ fb ≤ FSSIZE → 0 ≤ k ≤ NDIRECT → u32 (i_addrs x k) = i_addrs x k.
Proof.
  intros Hb Hfb Hk. pose proof mconsts as (Hnm & HF & _). pose proof consts as (H12 & _ & H268 & _).
  pose proof (hb_max _ _ _ _ Hb). apply u32_small. destruct (decide (k = NDIRECT)) as [->|].
  - pose proof (hb_ind _ _ _ _ Hb) as Hi. case_test_in Hi; lia.
  - assert (i_addrs x k = baddr cur x k) as -> by (unfold baddr; by rewrite (proj2 (Z.ltb_lt _ _)) by lia).
    destruct (decide (k < m)); [pose proof (hb_in _ _ _ _ Hb k ltac:(lia)); lia|].
    rewrite (hb_out _ _ _ _ Hb) by lia. lia.
Qed.

Lemma same_din_addrs i x y :
  same_din x y → ∀ k, 0 ≤ k ≤ NDIRECT → i_addrs (as_inode d i x) k = i_addrs (as_inode d i y) k.
Proof. intros (_ & _ & H). exact H. Qed.

(** Nothing of the file [i] has changed. *)
Lemma file_in_frame cur cur' fb fb' i c :
  file_in cur fb i c → fb ≤ fb' → same_din (dinode_of cur' i) (dinode_of cur i) →
  (∀ b, block_of cur (inode_of cur i) b → cur' b = cur b) →
  file_in cur' fb' i c ∧ (∀ b, block_of cur' (inode_of cur' i) b ↔ block_of cur (inode_of cur i) b).
Proof.
  intros [H1 H2 H3 H4 H5] Hfb Hd Hc.
  destruct (file_frame cur cur' fb fb' _ _ _ H1 Hfb (same_din_addrs i _ _ Hd) Hc) as (G1 & G2 & G3).
  split; [|exact G3]. destruct Hd as ((E1 & _ & _ & E4) & E5 & _).
  split; [exact G1|by apply G2|..]; cbn in *; by rewrite ?E1, ?E4, ?E5.
Qed.

(** The blocks of the other files. *)
Definition others (s : mst) (inum b : Z) : Prop :=
  ∃ j, 1 ≤ j < freeinode s ∧ j ≠ inum ∧ block_of (image s) (inode_of (image s) j) b.

Lemma others_range s C inum b : tree s C → others s inum b → nmeta ≤ b < freeblock s.
Proof. intros Ht (j & Hj & _ & Hb). eapply has_blocks_range; [apply (t_files _ _ Ht j Hj)|done]. Qed.

Lemma tree_appending s C inum :
  tree s C → 1 ≤ inum < freeinode s →
  appending d inum s (others s inum) s (dinode_of (image s) inum) (data_blocks (Z.of_nat (length (C inum)))) (C inum).
Proof.
  intros Ht Hi. destruct (t_files _ _ Ht inum Hi) as [H1 H2 H3 _ _].
  split; try done; try apply Ht.
  intros b Hb (j & Hj & Hne & Hb'). by apply (t_apart _ _ Ht j inum b).
Qed.

(** The inode of the file that has grown is written back: the other files. *)
Lemma others_kept s0 C inum s din m c cur' :
  tree s0 C → 1 ≤ inum < freeinode s0 → appending d inum s0 (others s0 inum) s din m c →
  (∀ b, nmeta ≤ b → cur' b = image s b) →
  (∀ j, 0 ≤ j < NINODES → j ≠ inum → same_din (dinode_of cur' j) (dinode_of (image s) j)) →
  ∀ j, 1 ≤ j < freeinode s0 → j ≠ inum → file_in cur' (freeblock s) j (C j) ∧
    (∀ b, block_of cur' (inode_of cur' j) b ↔ block_of (image s0) (inode_of (image s0) j) b).
Proof.
  intros Ht Hi [_ _ H3 H4 _ _ _ _ H9] Hout Hoth j Hj Hne. pose proof mconsts as (Hnm & HF & HN).
  pose proof (t_fi _ _ Ht) as Hfi.
  apply (file_in_frame (image s0) _ (freeblock s0)); [by apply Ht|done| |].
  - unfold dinode_of at 2. rewrite <- (H9 (IBLOCK j the_sb)) by (pose proof (iblock_range j ltac:(lia)); lia).
    apply Hoth; [lia|done].
  - intros b Hb. assert (Ho : others s0 inum b) by (exists j; done). pose proof (others_range _ _ _ _ Ht Ho).
    rewrite Hout, H9 by (lia || by right). done.
Qed.

Lemma i16_u16 v : i16 (u16 v) = i16 v.
Proof.
  unfold i16, sext, u16. change (2 ^ (16 - 1)) with (2 ^ 15). f_equal.
  by rewrite Z.add_mod_idemp_l by lia.
Qed.

(** The file itself. *)
Lemma grown_file s0 C inum s din c cur' n :
  tree s0 C → 1 ≤ inum < freeinode s0 →
  appending d inum s0 (others s0 inum) s din (data_blocks (Z.of_nat (length c))) c → freeblock s ≤ FSSIZE →
  same_attrs din (dinode_of (image s0) inum) → n = Z.of_nat (length c) →
  (∀ b, nmeta ≤ b → cur' b = image s b) → same_din (dinode_of cur' inum) (wrapped (set_dsize n din)) →
  file_in cur' (freeblock s) inum c ∧
  (∀ b, block_of cur' (inode_of cur' inum) b ↔ block_of (image s) (as_inode d inum din) b).
Proof.
  intros Ht Hi [_ _ H3 H4 _ H6 H7 _ _] Hfs Hat -> Hout Hmine. pose proof mconsts as (Hnm & HF & HN).
  pose proof consts as (_ & _ & H268 & HBS).
  destruct (file_frame (image s) cur' (freeblock s) (freeblock s) (as_inode d inum din) (inode_of cur' inum) _ H6)
    as (G1 & G2 & G3); [done| | |].
  { intros k Hk. rewrite (same_din_addrs inum _ _ Hmine) by done. apply (has_blocks_addrs _ _ _ _ k H6); lia. }
  { intros b Hb. apply Hout. pose proof (has_blocks_range _ _ _ _ _ H6 Hb). lia. }
  split; [|done]. destruct (t_files _ _ Ht inum Hi) as [_ _ _ F4 F5]. pose proof (hb_max _ _ _ _ H6) as Hmax.
  destruct Hmine as ((E1 & _ & _ & E4) & E5 & _), Hat as (A1 & _ & _ & A4).
  split; [done|by apply G2|..]; cbn in *.
  - rewrite E5, u32_small; [done|]. unfold data_blocks in Hmax. rewrite H268, HBS in Hmax. zdm.
  - by rewrite E1, i16_u16, A1.
  - by rewrite E4, i16_u16, A4.
Qed.

Lemma tree_write s0 C inum s din c n :
  tree s0 C → 1 ≤ inum < freeinode s0 →
  appending d inum s0 (others s0 inum) s din (data_blocks (Z.of_nat (length c))) c → freeblock s ≤ FSSIZE →
  same_attrs din (dinode_of (image s0) inum) → n = Z.of_nat (length c) →
  tree (set_image (<[IBLOCK inum the_sb := store_din (dinode_off inum) (set_dsize n din) (image s (IBLOCK inum the_sb))]>) s)
    (<[inum := c]> C).
Proof.
  intros Ht Hi Ha Hfs Hat Hn. pose proof mconsts as (Hnm & HF & HN). pose proof (t_fi _ _ Ht) as Hfi.
  pose proof (iblock_range inum ltac:(lia)) as Hib. unfold set_image.
  set (cur' := <[IBLOCK inum the_sb := store_din (dinode_off inum) (set_dsize n din) (image s (IBLOCK inum the_sb))]> (image s)).
  assert (Hout : ∀ b, b ≠ IBLOCK inum the_sb → cur' b = image s b) by (intros b Hb; by apply fn_lookup_insert_ne).
  assert (Hmine : same_din (dinode_of cur' inum) (wrapped (set_dsize n din))) by apply dinode_of_written.
  assert (Hoth : ∀ j, 0 ≤ j < NINODES → j ≠ inum → same_din (dinode_of cur' j) (dinode_of (image s) j))
    by (intros j Hj Hne; apply dinode_of_other; lia).
  clearbody cur'. assert (Hhi : ∀ b, nmeta ≤ b → cur' b = image s b) by (intros; apply Hout; lia).
  destruct (grown_file _ _ _ _ _ _ cur' n Ht Hi Ha Hfs Hat Hn Hhi Hmine) as [Hf Hfb].
  pose proof (others_kept _ _ _ _ _ _ _ cur' Ht Hi Ha Hhi Hoth) as Hk.
  destruct Ha as [H1 H2 H3 H4 H5 H6 H7 H8 H9].
  split; cbn [image freeblock freeinode sectors]; rewrite ?H2; try done.
  - intros b o Hb Ho. rewrite Hout by lia. by apply H5.
  - intros j Hj. destruct (decide (j = inum)) as [->|Hne]; [by rewrite fn_lookup_insert|].
    rewrite fn_lookup_insert_ne by done. by apply Hk.
  - intros i j b Hi' Hj Hne. destruct (decide (i = inum)) as [->|]; [|destruct (decide (j = inum)) as [->|]].
    + rewrite Hfb, (proj2 (Hk j Hj ltac:(lia))). intros Hb Hb'. apply (H8 b Hb). by exists j.
    + rewrite Hfb, (proj2 (Hk i Hi' ltac:(lia))). intros Hb Hb'. apply (H8 b Hb'). by exists i.
    + rewrite (proj2 (Hk j Hj ltac:(lia))), (proj2 (Hk i Hi' ltac:(lia))). by apply Ht.
  - intros i Hi'. destruct (Hoth i ltac:(lia) ltac:(lia)) as ((-> & _) & _). unfold dinode_of.
    rewrite H9 by (pose proof (iblock_range i ltac:(lia)); lia). by apply Ht.
  - rewrite Hout, H9 by lia. apply Ht.
  - intros b o Hb Ho. rewrite Hout, H9 by lia. by apply (t_log _ _ Ht).
Qed.

Lemma iappend_spec s C inum p :
  tree s C → 1 ≤ inum < freeinode s → Forall (fun v => 0 ≤ v < 256) p →
  let off := Z.of_nat (length (C inum)) in
  let all := off + Z.of_nat (length p) in
  all ≤ MAXFILE * BSIZE → freeblock s + (blocks_for all - blocks_for off) ≤ FSSIZE →
  wp (iappend inum p) (fun _ s' =>
    tree s' (<[inum := C inum ++ p]> C) ∧ freeinode s' = freeinode s ∧
    freeblock s' = freeblock s + (blocks_for all - blocks_for off)) s.
Proof.
  intros Ht Hi Hp off all Hmax Hroom. pose proof (t_fi _ _ Ht) as Hfi. unfold iappend.
  apply wp_bind, rinode_wp; [lia|apply Ht|].
  assert (Hsz : di_size (dinode_of (image s) inum) = off) by apply (fi_size _ _ _ _ (t_files _ _ Ht inum Hi)).
  rewrite Hsz. apply wp_bind. eapply wp_mono.
  { apply (iappend_loop_spec d inum s (others s inum)); [|by apply tree_appending|done..].
    intros b Hb. apply (others_range _ _ _ _ Ht Hb). }
  intros [din off'] s1 (Ha & -> & Hat & Hfb). apply winode_wp; [lia|apply Ha|].
  split; [|split; [apply Ha|exact Hfb]].
  assert (Hlen : all = Z.of_nat (length (C inum ++ p))) by (rewrite length_app; lia).
  eapply tree_write; [exact Ht|exact Hi| |rewrite Hfb; exact Hroom|exact Hat|exact Hlen]. by rewrite <- Hlen.
Qed.

Lemma fresh_file cur fb i x :
  same_din (dinode_of cur i) (wrapped (mk_din x 0 0 1 0 (fun _ => 0))) →
  i16 x = (if i =? ROOTINO then T_DIR else T_FILE) →
  file_in cur fb i [] ∧ ∀ b, ¬ block_of cur (inode_of cur i) b.
Proof.
  intros ((E1 & _ & _ & E4) & E5 & E6) Ht.
  assert (Hz : ∀ k, 0 ≤ k → baddr cur (inode_of cur i) k = 0).
  { intros k Hk. unfold baddr. cbn [inode_of as_inode i_addrs]. rewrite (E6 NDIRECT) by done. case_test; [|done].
    by rewrite E6 by lia. }
  split; [split|].
  - change (data_blocks _) with 0. split; try done; try (intros; lia).
    + intros k Hk. apply Hz. lia.
    + cbn [inode_of as_inode i_addrs]. by rewrite E6.
  - intros o Ho. unfold fbyte. rewrite Hz; [|unfold BSIZE in *; zdm]. by destruct (Z.to_nat o).
  - exact E5.
  - cbn [inode_of as_inode i_type]. by rewrite E1, <- Ht, <- (i16_u16 x).
  - cbn [inode_of as_inode i_nlink]. by rewrite E4.
  - intros b [Hne [->|(k & Hk & <-)]]; [|by apply Hne, Hz; lia].
    apply Hne. cbn [inode_of as_inode i_addrs]. by rewrite E6.
Qed.

Lemma ialloc_spec s C type :
  tree s C → freeinode s < NINODES → i16 type = (if freeinode s =? ROOTINO then T_DIR else T_FILE) →
  wp (ialloc type) (fun i s' => i = freeinode s ∧ tree s' (<[i := []]> C) ∧
    freeinode s' = freeinode s + 1 ∧ freeblock s' = freeblock s) s.
Proof.
  intros Ht Hn Hty. pose proof mconsts as (Hnm & HF & HN). pose proof (t_fi _ _ Ht) as Hfi. unfold ialloc, next_inode.
  apply wp_bind, wp_bind, wp_gets, wp_bind, wp_modify, wp_ret, wp_bind. set (i := freeinode s) in *.
  pose proof (iblock_range i ltac:(lia)) as Hib.
  apply winode_wp; [lia|apply Ht|]. apply wp_ret. split; [done|]. unfold set_image. cbn [image sectors freeinode freeblock].
  rewrite u32_small by lia. split; [|done].
  set (din := mk_din type 0 0 1 0 (fun _ => 0)).
  set (cur' := <[IBLOCK i the_sb := store_din (dinode_off i) din (image s (IBLOCK i the_sb))]> (image s)).
  assert (Hout : ∀ b, b ≠ IBLOCK i the_sb → cur' b = image s b) by (intros b Hb; by apply fn_lookup_insert_ne).
  assert (Hmine : same_din (dinode_of cur' i) (wrapped din)) by apply dinode_of_written.
  assert (Hoth : ∀ j, 0 ≤ j < NINODES → j ≠ i → same_din (dinode_of cur' j) (dinode_of (image s) j))
    by (intros j Hj Hne; apply dinode_of_other; lia).
  clearbody cur'. destruct (fresh_file cur' (freeblock s) i type Hmine Hty) as [Hf Hfb].
  assert (Hk : ∀ j, 1 ≤ j < i → file_in cur' (freeblock s) j (C j) ∧
    (∀ b, block_of cur' (inode_of cur' j) b ↔ block_of (image s) (inode_of (image s) j) b)).
  { intros j Hj. pose proof (t_files _ _ Ht j Hj) as Hfj. apply (file_in_frame _ _ (freeblock s)); [done|done|apply Hoth; lia|].
    intros b Hb. apply Hout. pose proof (has_blocks_range _ _ _ _ _ (fi_blocks _ _ _ _ Hfj) Hb). lia. }
  split; cbn [image freeblock freeinode sectors]; try apply Ht; try lia.
  - intros b o Hb Ho. rewrite Hout by (pose proof (t_fb _ _ Ht); lia). by apply (t_zero _ _ Ht).
  - intros j Hj. destruct (decide (j = i)) as [->|]; [by rewrite fn_lookup_insert|].
    rewrite fn_lookup_insert_ne by done. apply Hk. lia.
  - intros a b x Ha Hb Hne. destruct (decide (a = i)) as [->|]; [by intros ?%Hfb|].
    destruct (decide (b = i)) as [->|]; [by intros _ ?%Hfb|].
    rewrite (proj2 (Hk a ltac:(lia))), (proj2 (Hk b ltac:(lia))). apply Ht; done || (fold i; lia).
  - intros j Hj. destruct (Hoth j ltac:(lia) ltac:(lia)) as ((-> & _) & _). apply (t_free _ _ Ht). fold i. lia.
  - rewrite Hout by lia. apply Ht.
  - intros b o Hb Ho. rewrite Hout by lia. by apply (t_log _ _ Ht).
Qed.

Lemma tree_ext s C C' : (∀ i, 1 ≤ i < freeinode s → C' i = C i) → tree s C → tree s C'.
Proof. intros HC [H1 H2 H3 H4 H5 H6 H7 H8 H9]. split; try done. intros i Hi. rewrite HC by done. by apply H5. Qed.

Lemma append_all_spec pieces s C inum :
  tree s C → 1 ≤ inum < freeinode s → Forall (Forall (fun v => 0 ≤ v < 256)) pieces →
  let off := Z.of_nat (length (C inum)) in
  let all := off + Z.of_nat (length (concat pieces)) in
  all ≤ MAXFILE * BSIZE → freeblock s + (blocks_for all - blocks_for off) ≤ FSSIZE →
  wp (append_all inum pieces) (fun _ s' =>
    tree s' (<[inum := C inum ++ concat pieces]> C) ∧ freeinode s' = freeinode s ∧
    freeblock s' = freeblock s + (blocks_for all - blocks_for off)) s.
Proof.
  revert s C; induction pieces as [|p l IH]; intros s C Ht Hi Hp; cbn [append_all concat]; intros Hmax Hroom.
  { apply wp_ret. cbn [length]. rewrite app_nil_r, Z.add_0_r. split; [|split; [done|lia]].
    apply (tree_ext s C); [|done]. intros i _. destruct (decide (i = inum)) as [->|]; [by rewrite fn_lookup_insert|].
    by rewrite fn_lookup_insert_ne. }
  apply Forall_cons in Hp as [Hp Hl]. rewrite length_app in Hmax, Hroom |- *.
  set (off := Z.of_nat (length (C inum))) in *. set (mid := off + Z.of_nat (length p)).
  replace (off + Z.of_nat (length p + length (concat l))) with (mid + Z.of_nat (length (concat l))) in * by lia.
  pose proof (blocks_for_mono mid (mid + Z.of_nat (length (concat l))) ltac:(lia)).
  apply wp_bind. eapply wp_mono; [apply (iappend_spec s C inum p Ht Hi Hp); fold off; fold mid; lia|].
  intros _ s1 (Ht1 & Hi1 & Hb1). fold off mid in Hb1.
  assert (Hc : (<[inum := C inum ++ p]> C) inum = C inum ++ p) by apply fn_lookup_insert.
  assert (Hmid : Z.of_nat (length (C inum ++ p)) = mid) by (rewrite length_app; lia).
  eapply wp_mono; [apply (IH s1 _ Ht1); rewrite ?Hc, ?Hmid, ?Hi1; done || lia|].
  intros _ s2 (Ht2 & Hi2 & Hb2). rewrite Hc, Hmid in *. split; [|lia].
  eapply tree_ext; [|exact Ht2]. intros i _. destruct (decide (i = inum)) as [->|].
  - by rewrite !fn_lookup_insert, app_assoc.
  - by rewrite !fn_lookup_insert_ne.
Qed.
End tree.

(** ** What main() is given *)

Definition input : Type := list Z * option (list (list Z)).
Definition contents (f : input) : list Z := match f.2 with Some ps => concat ps | None => [] end.
Definition entry_name (f : input) : list Z := strip_mark (strip_dir f.1).

Definition is_byte (v : Z) : Prop := 0 ≤ v < 256.
(** The file can be opened, its name has no slash left, and it is not too
    long. *)
Definition good_input (f : input) : Prop :=
  (47 ∉ strip_dir (fst f)) ∧ Forall is_byte f.1 ∧
  (∃ ps, f.2 = Some ps ∧ Forall (Forall is_byte) ps) ∧ Z.of_nat (length (contents f)) ≤ MAXFILE * BSIZE.

(** The directory entries of the files, which get the inodes from [i] on. *)
Fixpoint entries (i : Z) (files : list input) : list Z :=
  match files with [] => [] | f :: l => dirent i (entry_name f) ++ entries (i + 1) l end.
Fixpoint file_blocks (files : list input) : Z :=
  match files with [] => 0 | f :: l => blocks_for (Z.of_nat (length (contents f))) + file_blocks l end.

(** The contents after the files have been added. *)
Fixpoint add_contents (C : Z → list Z) (i : Z) (files : list input) : Z → list Z :=
  match files with
  | [] => C
  | f :: l => add_contents (<[i := contents f]> (<[ROOTINO := C ROOTINO ++ dirent i (entry_name f)]> C)) (i + 1) l
  end.

Lemma length_dirent i name : length (dirent i name) = 16%nat.
Proof.
  unfold dirent. rewrite length_app, length_load_bytes, length_take, length_app, repeat_length.
  change (Z.to_nat DIRSIZ) with 14%nat. change (Z.to_nat 2) with 2%nat. lia.
Qed.
Lemma length_entries i files : length (entries i files) = (16 * length files)%nat.
Proof.
  revert i; induction files as [|f l IH]; intros i; cbn [entries length]; [done|].
  rewrite length_app, length_dirent, IH. lia.
Qed.
Lemma dirent_bytes i name : Forall is_byte name → Forall is_byte (dirent i name).
Proof.
  intros Hn. unfold dirent. apply Forall_app. split; [apply load_bytes_range|]. apply Forall_take, Forall_app.
  split; [done|]. apply Forall_forall. intros x Hx. apply list_elem_of_In, repeat_spec in Hx as ->. unfold is_byte. lia.
Qed.
Lemma name_bytes f : Forall is_byte f.1 → Forall is_byte (entry_name f).
Proof.
  intros H. assert (Hd : Forall is_byte (strip_dir f.1)) by (unfold strip_dir; case_decide; [by apply Forall_drop|done]).
  unfold entry_name, strip_mark. repeat case_match; try done. by inversion Hd.
Qed.
Lemma file_blocks_nonneg files : 0 ≤ file_blocks files.
Proof.
  induction files as [|f l IH]; cbn [file_blocks]; [lia|].
  pose proof (blocks_for_mono 0 (Z.of_nat (length (contents f))) ltac:(lia)). change (blocks_for 0) with 0 in *. lia.
Qed.

Section make.
Context (d : Z).

(** One file: its inode, its entry in the root directory, its bytes. *)
Lemma add_file_wp s C name ps k (Q : unit → mst → Prop) :
  tree d s C → 1 < freeinode s < NINODES → Forall is_byte name → Forall (Forall is_byte) ps →
  let i := freeinode s in
  let off := Z.of_nat (length (C ROOTINO)) in
  let n := Z.of_nat (length (concat ps)) in
  let fb := freeblock s + (blocks_for (off + 16) - blocks_for off) + blocks_for n in
  off + 16 ≤ MAXFILE * BSIZE → n ≤ MAXFILE * BSIZE → fb ≤ FSSIZE →
  (∀ s', tree d s' (<[i := concat ps]> (<[ROOTINO := C ROOTINO ++ dirent i name]> C)) →
     freeinode s' = i + 1 → freeblock s' = fb → wp k Q s') →
  wp (do inum <- ialloc T_FILE; do! iappend ROOTINO (dirent inum name); do! append_all inum ps; k) Q s.
Proof.
  intros Ht Hi Hn Hp i off n fb Hmax Hnmax Hroom Hk.
  pose proof (blocks_for_mono off (off + 16) ltac:(lia)). pose proof (blocks_for_mono 0 n ltac:(lia)).
  change (blocks_for 0) with 0 in *. assert (Hroot : i ≠ ROOTINO) by (unfold ROOTINO; lia).
  apply wp_bind. eapply wp_mono.
  { apply (ialloc_spec d s C); [done|lia|]. by rewrite (proj2 (Z.eqb_neq _ _)) by done. }
  intros j s1 (-> & Ht1 & Hi1 & Hb1). fold i in Ht1, Hi1 |- *. set (C1 := <[i := []]> C) in *.
  assert (HC1 : C1 ROOTINO = C ROOTINO) by by apply fn_lookup_insert_ne.
  set (de := dirent i _) in *. assert (Hde : Z.of_nat (length de) = 16) by (unfold de; by rewrite length_dirent).
  apply wp_bind. eapply wp_mono.
  { apply (iappend_spec d s1 C1 ROOTINO de Ht1); [unfold ROOTINO; lia|by apply dirent_bytes| |];
      rewrite HC1, Hde; fold off; lia. }
  intros _ s2 (Ht2 & Hi2 & Hb2). rewrite HC1, Hde in *. fold off in Hb2.
  set (C2 := <[ROOTINO := C ROOTINO ++ de]> C1) in *.
  assert (HC2 : C2 i = []) by (unfold C2; rewrite fn_lookup_insert_ne by done; apply fn_lookup_insert).
  apply wp_bind. eapply wp_mono.
  { apply (append_all_spec d ps s2 C2 i Ht2); [lia|done|..]; rewrite HC2; fold n; [done|].
    change (Z.of_nat (length [])) with 0. change (blocks_for 0) with 0. rewrite Z.add_0_l. lia. }
  intros _ s3 (Ht3 & Hi3 & Hb3). rewrite HC2 in *. cbn [app] in Ht3. fold n in Hb3.
  change (Z.of_nat (length [])) with 0 in Hb3. change (blocks_for 0) with 0 in Hb3. rewrite Z.add_0_l in Hb3.
  apply Hk; [|lia|unfold fb; lia]. eapply tree_ext; [|exact Ht3]. intros x _. unfold C2, C1.
  destruct (decide (x = i)) as [->|]; [by rewrite !fn_lookup_insert|].
  rewrite !(fn_lookup_insert_ne _ i x) by done. destruct (decide (x = ROOTINO)) as [->|]; [by rewrite !fn_lookup_insert|].
  by rewrite !fn_lookup_insert_ne.
Qed.

Lemma add_files_spec files s C :
  tree d s C → 1 < freeinode s → Forall good_input files → freeinode s + Z.of_nat (length files) ≤ NINODES →
  let off := Z.of_nat (length (C ROOTINO)) in
  let all := off + 16 * Z.of_nat (length files) in
  all ≤ MAXFILE * BSIZE → freeblock s + (blocks_for all - blocks_for off) + file_blocks files ≤ FSSIZE →
  wp (add_files ROOTINO files) (fun _ s' =>
    tree d s' (add_contents C (freeinode s) files) ∧ freeinode s' = freeinode s + Z.of_nat (length files) ∧
    freeblock s' = freeblock s + (blocks_for all - blocks_for off) + file_blocks files) s.
Proof.
  revert s C; induction files as [|f l IH]; intros s C Ht Hfi Hg Hn;
    cbn [add_files add_contents file_blocks length] in *; intros Hmax Hroom.
  { apply wp_ret. split; [done|]. split; [lia|]. cbv zeta. change (16 * Z.of_nat 0) with 0. rewrite !Z.add_0_r, Z.sub_diag. lia. }
  apply Forall_cons in Hg as [(Hsl & Hby & (ps & Hps & Hpb) & Hlen) Hl]. destruct f as [arg c]. cbn [fst snd] in *. subst c.
  rewrite bool_decide_eq_false_2 by done. change (strip_mark _) with (entry_name (arg, Some ps)).
  change (contents _) with (concat ps) in *.
  set (off := Z.of_nat (length (C ROOTINO))) in *. set (i := freeinode s) in *.
  replace (off + 16 * Z.of_nat (S (length l))) with (off + 16 + 16 * Z.of_nat (length l)) in * by lia.
  pose proof (blocks_for_mono (off + 16) (off + 16 + 16 * Z.of_nat (length l)) ltac:(lia)). pose proof (file_blocks_nonneg l).
  set (C' := <[i := concat ps]> _).
  apply (add_file_wp s C); fold off; try done; try lia.
  { by apply name_bytes. }
  fold i C'. intros s1 Ht1 Hi1 Hb1.
  assert (HC : Z.of_nat (length (C' ROOTINO)) = off + 16).
  { unfold C'. rewrite fn_lookup_insert_ne, fn_lookup_insert by (unfold ROOTINO; lia). rewrite length_app, length_dirent. lia. }
  eapply wp_mono; [apply (IH s1 C' Ht1); rewrite ?HC, ?Hi1; done || lia|].
  intros _ s2 (Ht2 & Hi2 & Hb2). rewrite HC, Hi1 in *. split; [done|]. lia.
Qed.

(** ** The finished image *)

Lemma layout_the_sb : layout_ok the_sb ∧ datastart the_sb = nmeta.
Proof. split; [|done]. split; vm_compute; intuition congruence. Qed.

Lemma mark_bits n i (buf : block) b :
  0 ≤ i → 0 ≤ b → bit_set (mark n i buf) b = (i <=? b) && (b <? i + Z.of_nat n) || bit_set buf b.
Proof.
  revert i buf; induction n as [|n IH]; intros i buf Hi Hb; cbn [mark].
  { destruct (i <=? b) eqn:E1, (b <? i + Z.of_nat 0) eqn:E2; try done. destruct_bool_tests. lia. }
  rewrite IH by lia. change (Z.shiftl 1 (i mod 8)) with (bit_mask i). rewrite bit_set_mark by done.
  destruct (Z.eqb_spec b i), (Z.leb_spec (i + 1) b), (Z.leb_spec i b), (Z.ltb_spec b (i + 1 + Z.of_nat n)),
    (Z.ltb_spec b (i + Z.of_nat (S n))); try lia; done.
Qed.

(** The bitmap marks the blocks below [fb]. *)
Definition marked (cur : Z → block) (fb : Z) : Prop := ∀ b, 0 ≤ b < FSSIZE → used the_sb cur b = (b <? fb).

Lemma balloc_marked cur fb :
  0 ≤ fb → marked (<[sb_bmapstart the_sb := mark (Z.to_nat fb) 0 (fun _ => 0)]> cur) fb.
Proof.
  intros Hfb b Hb. unfold used, BBLOCK. change BPB with 8192. unfold FSSIZE in Hb.
  rewrite (Z.div_small b), Z.mod_small by lia. change (u32 (0 + sb_bmapstart the_sb)) with (sb_bmapstart the_sb).
  rewrite fn_lookup_insert, mark_bits by lia. rewrite (proj2 (Z.leb_le 0 b)) by lia.
  replace (bit_set _ b) with false; [rewrite orb_false_r; cbn [andb]; do 2 f_equal; lia|].
  rewrite bit_set_testbit. symmetry. apply Z.testbit_0_l.
Qed.

Lemma has_blocks_ok cur fb x m :
  has_blocks cur fb x m → fb ≤ FSSIZE → marked cur fb → i_dev x = d → 0 ≤ i_size x ≤ MAXFILE * BSIZE →
  file_ok d the_sb cur x.
Proof.
  intros [H1 H2 H3 H4 H5 H6] Hfb Hm Hd Hs. pose proof mconsts as (Hnm & HF & _).
  assert (Hl : ∀ b, nmeta ≤ b < fb → live the_sb cur b).
  { intros b Hb. split; [|rewrite Hm by lia; apply Z.ltb_lt; lia].
    unfold is_data. rewrite (proj2 layout_the_sb). change (sb_size the_sb) with FSSIZE. lia. }
  assert (Hc : ∀ k, 0 ≤ k < MAXFILE → baddr cur x k ≠ 0 → 0 ≤ k < m).
  { intros k Hk Hne. destruct (decide (k < m)); [lia|]. destruct Hne. apply H3. lia. }
  split; try done.
  - case_test_in H4; [right; by apply Hl|by left].
  - intros k Hk. destruct (decide (baddr cur x k = 0)); [by left|right]. by apply Hl, H2, Hc.
  - intros k k' Hk Hk' E Hne. apply H5; [by apply Hc|apply Hc; congruence|done].
  - intros k Hk Hne. by apply H6, Hc.
Qed.

Lemma holds_bytes cur x c n :
  holds cur x c → Z.of_nat (length c) ≤ n ≤ MAXFILE * BSIZE →
  fbytes cur x 0 n = c ++ repeat 0 (Z.to_nat n - length c).
Proof.
  intros Hh Hn. apply nth_ext with (d := 0) (d' := 0).
  { rewrite length_fbytes, length_app, repeat_length. lia. }
  intros i Hi. rewrite length_fbytes in Hi. unfold fbytes.
  rewrite nth_indep with (d' := fbyte cur x (0 + Z.of_nat 0)) by (rewrite length_map, length_seq; lia).
  rewrite (map_nth (fun i => fbyte cur x (0 + Z.of_nat i))), seq_nth by lia. rewrite Hh by lia.
  replace (Z.to_nat _) with i by lia. destruct (decide (i < length c)%nat); [by rewrite app_nth1|].
  rewrite app_nth2, nth_repeat, nth_overflow by lia. done.
Qed.

Lemma has_blocks_holes cur fb x (c : list Z) :
  has_blocks cur fb x (data_blocks (Z.of_nat (length c))) → i_size x ≤ MAXFILE * BSIZE →
  no_holes cur x ↔ i_size x ≤ data_blocks (Z.of_nat (length c)) * BSIZE.
Proof.
  intros Hb Hs. pose proof mconsts as (Hnm & _). pose proof consts as (_ & _ & H268 & HBS). set (m := data_blocks _) in *.
  pose proof (hb_max _ _ _ _ Hb). split.
  - intros Hn. destruct (decide (i_size x ≤ m * BSIZE)); [done|]. destruct (Hn m); [lia|lia|].
    apply Hb. rewrite HBS, H268 in *. lia.
  - intros Hle k Hk Hks E. pose proof (hb_in _ _ _ _ Hb k ltac:(rewrite HBS in *; lia)). lia.
Qed.

Definition root_entries (files : list input) : list Z :=
  dirent ROOTINO [46] ++ dirent ROOTINO [46; 46] ++ entries 2 files.
Definition image_blocks (files : list input) : Z :=
  nmeta + blocks_for (16 * (Z.of_nat (length files) + 2)) + file_blocks files.

(** The files fit: inodes and blocks suffice. *)
Definition fits (files : list input) : Prop :=
  Forall good_input files ∧ Z.of_nat (length files) + 2 ≤ NINODES ∧ image_blocks files ≤ FSSIZE.

(** The inode [i] of the image is a file of the kernel with the contents [c],
    possibly with zeroes behind them. *)
Record has_file (cur : Z → block) (i type : Z) (c : list Z) : Prop := {
  hf_ok : file_ok d the_sb cur (inode_of d cur i);
  hf_type : i_type (inode_of d cur i) = type;
  hf_nlink : i_nlink (inode_of d cur i) = 1;
  hf_bytes : let n := i_size (inode_of d cur i) in
    fbytes cur (inode_of d cur i) 0 n = c ++ repeat 0 (Z.to_nat n - length c)
}.

Record made (cur : Z → block) (files : list input) : Prop := {
  md_super : cur 1 = sb_block;
  md_log : ∀ b o, 2 ≤ b < 32 → 0 ≤ o < BSIZE → ld8 (cur b) o = 0;
  md_used : marked cur (image_blocks files);
  md_files : ∀ t f, files !! t = Some f → let i := Z.of_nat t + 2 in
    has_file cur i T_FILE (contents f) ∧ no_holes cur (inode_of d cur i) ∧
    i_size (inode_of d cur i) = Z.of_nat (length (contents f));
  md_root : has_file cur ROOTINO T_DIR (root_entries files) ∧
    i_size (inode_of d cur ROOTINO) = (Z.of_nat (length (root_entries files)) / BSIZE + 1) * BSIZE ∧
    (no_holes cur (inode_of d cur ROOTINO) ↔ (Z.of_nat (length files) + 2) mod 64 ≠ 0);
  md_apart : ∀ i j, 1 ≤ i < Z.of_nat (length files) + 2 → 1 ≤ j < Z.of_nat (length files) + 2 → i ≠ j →
    disjoint_files the_sb cur (inode_of d cur i) (inode_of d cur j);
  md_free : ∀ i, Z.of_nat (length files) + 2 ≤ i < NINODES → i_type (inode_of d cur i) = 0
}.

Lemma add_contents_below files C i j : j < i → j ≠ ROOTINO → add_contents C i files j = C j.
Proof.
  revert C i; induction files as [|f l IH]; intros C i Hj Hr; cbn [add_contents]; [done|].
  rewrite IH by lia. by rewrite !fn_lookup_insert_ne by lia.
Qed.
Lemma add_contents_root files C i : 1 < i → add_contents C i files ROOTINO = C ROOTINO ++ entries i files.
Proof.
  revert C i; induction files as [|f l IH]; intros C i Hi; cbn [add_contents entries]; [by rewrite app_nil_r|].
  rewrite IH by lia. rewrite fn_lookup_insert_ne, fn_lookup_insert by (unfold ROOTINO; lia). by rewrite app_assoc.
Qed.
Lemma add_contents_file files C i t f :
  1 < i → files !! t = Some f → add_contents C i files (i + Z.of_nat t) = contents f.
Proof.
  revert C i t; induction files as [|g l IH]; intros C i t Hi Ht; [done|]. cbn [add_contents].
  destruct t as [|t]; cbn in Ht.
  - injection Ht as ->. rewrite Z.add_0_r, add_contents_below by (unfold ROOTINO; lia). apply fn_lookup_insert.
  - replace (i + Z.of_nat (S t)) with (i + 1 + Z.of_nat t) by lia. apply IH; done || lia.
Qed.

Lemma root_length files : Z.of_nat (length (root_entries files)) = 16 * (Z.of_nat (length files) + 2).
Proof. unfold root_entries. rewrite !length_app, !length_dirent, length_entries. lia. Qed.

Section finish.
Context (s : mst) (C : Z → list Z) (Ht : tree d s C) (Hfs : freeblock s ≤ FSSIZE).
#[local] Abbreviation cur := (image s).

(** The size of the root directory is changed and the bitmap written. *)
Definition root_size : Z := (Z.of_nat (length (C ROOTINO)) / BSIZE + 1) * BSIZE.
Context (cur2 : Z → block).
Context (Hhi : ∀ b, nmeta ≤ b → cur2 b = cur b).
Context (Hoth : ∀ j, 0 ≤ j < NINODES → j ≠ ROOTINO → same_din (dinode_of cur2 j) (dinode_of cur j)).
Context (Hroot : same_din (dinode_of cur2 ROOTINO) (wrapped (set_dsize root_size (dinode_of cur ROOTINO)))).
Context (Hmark : marked cur2 (freeblock s)).

Lemma finish_blocks i :
  1 ≤ i < freeinode s →
  has_blocks cur2 (freeblock s) (inode_of d cur2 i) (data_blocks (Z.of_nat (length (C i)))) ∧
  MkfsSpec.holds cur2 (inode_of d cur2 i) (C i) ∧
  (∀ b, block_of cur2 (inode_of d cur2 i) b ↔ block_of cur (inode_of d cur i) b).
Proof.
  intros Hi. pose proof (t_fi _ _ _ Ht) as Hfi. destruct (t_files _ _ _ Ht i Hi) as [H1 H2 _ _ _].
  destruct (file_frame cur cur2 (freeblock s) (freeblock s) _ (inode_of d cur2 i) _ H1) as (G1 & G2 & G3); [done| | |auto].
  - destruct (decide (i = ROOTINO)) as [->|]; [|apply same_din_addrs, Hoth; lia].
    intros k Hk. unfold inode_of at 1. rewrite (same_din_addrs d _ _ _ Hroot) by done.
    apply (has_blocks_addrs _ _ _ _ k H1); [|done]. pose proof (t_fb _ _ _ Ht). pose proof mconsts as (? & _). lia.
  - intros b Hb. apply Hhi. by apply (has_blocks_range _ _ _ _ _ H1 Hb).
Qed.

Lemma finish_file i :
  1 ≤ i < freeinode s → Z.of_nat (length (C i)) ≤ i_size (inode_of d cur2 i) ≤ MAXFILE * BSIZE →
  i_type (inode_of d cur2 i) = i_type (inode_of d cur i) → i_nlink (inode_of d cur2 i) = i_nlink (inode_of d cur i) →
  has_file cur2 i (if i =? ROOTINO then T_DIR else T_FILE) (C i).
Proof.
  intros Hi Hs Hty Hnl. destruct (finish_blocks i Hi) as (G1 & G2 & _). destruct (t_files _ _ _ Ht i Hi) as [_ _ _ F4 F5].
  split; [|congruence..|].
  - apply (has_blocks_ok _ (freeblock s) _ _ G1 Hfs Hmark); [done|lia].
  - by apply holds_bytes.
Qed.

Lemma finish_apart i j :
  1 ≤ i < freeinode s → 1 ≤ j < freeinode s → i ≠ j →
  disjoint_files the_sb cur2 (inode_of d cur2 i) (inode_of d cur2 j).
Proof.
  intros Hi Hj Hne a Ha Ho. assert (a ≠ 0) as Ha0.
  { destruct Ha as [Ha _]. pose proof (is_data_range the_sb (proj1 layout_the_sb) a Ha). lia. }
  assert (Hb : block_of cur2 (inode_of d cur2 j) a) by done.
  apply (proj2 (proj2 (finish_blocks j Hj))) in Hb.
  assert (Hn : ¬ block_of cur2 (inode_of d cur2 i) a).
  { rewrite (proj2 (proj2 (finish_blocks i Hi))). intros Hb'. by apply (t_apart _ _ _ Ht i j a). }
  split; [intros E|intros k Hk E]; apply Hn; (split; [done|]); [by left|right; by exists k].
Qed.

Lemma finish_plain i :
  1 ≤ i < freeinode s → i ≠ ROOTINO → Z.of_nat (length (C i)) ≤ MAXFILE * BSIZE →
  has_file cur2 i T_FILE (C i) ∧ no_holes cur2 (inode_of d cur2 i) ∧ i_size (inode_of d cur2 i) = Z.of_nat (length (C i)).
Proof.
  intros Hi Hir Hlen. pose proof (t_fi _ _ _ Ht) as Hn. pose proof consts as (_ & _ & _ & HBS).
  destruct (Hoth i ltac:(lia) Hir) as ((E1 & _ & _ & E4) & E5 & _).
  assert (Hsz : i_size (inode_of d cur2 i) = Z.of_nat (length (C i))).
  { rewrite <- (fi_size _ _ _ _ _ (t_files _ _ _ Ht i Hi)). exact E5. }
  pose proof (finish_file i Hi) as Hf. rewrite (proj2 (Z.eqb_neq i ROOTINO) Hir) in Hf. split; [|split; [|done]].
  - apply Hf; [lia|..]; cbn [inode_of as_inode i_type i_nlink]; congruence.
  - apply (has_blocks_holes _ (freeblock s) _ (C i)); [by apply finish_blocks|lia|]. rewrite Hsz.
    unfold data_blocks. rewrite HBS. zdm.
Qed.

Lemma finish_root n :
  1 < freeinode s → Z.of_nat (length (C ROOTINO)) = 16 * n → 0 ≤ n ≤ NINODES →
  has_file cur2 ROOTINO T_DIR (C ROOTINO) ∧ i_size (inode_of d cur2 ROOTINO) = root_size ∧
  (no_holes cur2 (inode_of d cur2 ROOTINO) ↔ n mod 64 ≠ 0).
Proof.
  intros Hfi Hc Hn. pose proof consts as (_ & _ & H268 & HBS). pose proof mconsts as (_ & _ & HN).
  assert (Hi : 1 ≤ ROOTINO < freeinode s) by (unfold ROOTINO; lia).
  assert (Hrs : 16 * n ≤ root_size ≤ MAXFILE * BSIZE) by (unfold root_size; rewrite Hc, H268, HBS; zdm).
  destruct Hroot as ((E1 & _ & _ & E4) & E5 & _).
  assert (Hsz : i_size (inode_of d cur2 ROOTINO) = root_size).
  { cbn [inode_of as_inode i_size]. rewrite E5. apply u32_small. cbn [set_dsize di_size]. rewrite H268, HBS in *. lia. }
  split; [|split; [done|]].
  - apply (finish_file ROOTINO Hi); rewrite ?Hsz, ?Hc; [done|..]; cbn [inode_of as_inode i_type i_nlink];
      rewrite ?E1, ?E4; apply i16_u16.
  - rewrite (has_blocks_holes _ (freeblock s) _ (C ROOTINO)), Hsz, Hc; [|by apply finish_blocks|lia].
    unfold root_size, data_blocks. rewrite Hc, HBS. split; intros; zdm.
Qed.

Lemma finish_made files :
  Forall good_input files → freeinode s = Z.of_nat (length files) + 2 → freeblock s = image_blocks files →
  C ROOTINO = root_entries files → (∀ t f, files !! t = Some f → C (2 + Z.of_nat t) = contents f) →
  (∀ b, b < 32 → cur2 b = cur b) → made cur2 files.
Proof.
  intros Hg Hfi Hfb HC1 HC2 Hlow. pose proof (t_fi _ _ _ Ht) as Hn. pose proof (root_length files) as Hrl.
  split.
  - rewrite Hlow by lia. apply Ht.
  - intros b o Hb Ho. rewrite Hlow by lia. by apply (t_log _ _ _ Ht).
  - by rewrite <- Hfb.
  - intros t f Htf i. pose proof (lookup_lt_Some _ _ _ Htf) as Hlt.
    pose proof (proj1 (Forall_lookup _ _) Hg t f Htf) as (_ & _ & _ & Hlen).
    assert (Hc : C i = contents f) by (rewrite <- (HC2 t f Htf); f_equal; lia). rewrite <- Hc in *.
    apply finish_plain; unfold ROOTINO; done || lia.
  - rewrite <- HC1 in *. destruct (finish_root (Z.of_nat (length files) + 2)) as (? & ? & ?); done || lia.
  - intros i j Hi Hj. apply finish_apart; lia.
  - intros i Hi. destruct (Hoth i ltac:(lia) ltac:(unfold ROOTINO; lia)) as ((E1 & _) & _).
    cbn [inode_of as_inode i_type]. rewrite E1, (t_free _ _ _ Ht) by lia. done.
Qed.
End finish.

(** ** main *)

Lemma zero_sectors_spec n i s :
  0 ≤ i → i + Z.of_nat n ≤ FSSIZE → sectors s = i →
  wp (zero_sectors n i) (fun _ s' => sectors s' = i + Z.of_nat n ∧ freeinode s' = freeinode s ∧ freeblock s' = freeblock s ∧
    ∀ b, image s' b = if (i <=? b) && (b <? i + Z.of_nat n) then (fun _ => 0) else image s b) s.
Proof.
  revert i s; induction n as [|n IH]; intros i s Hi Hn Hs; cbn [zero_sectors].
  { apply wp_ret. split; [lia|]. split; [done|]. split; [done|]. intros b. case_test; done || lia. }
  apply wp_bind, wp_modify. rewrite sector_small by lia. eapply wp_mono; [apply IH; cbn [sectors]; lia|].
  cbn [freeinode freeblock image]. intros _ s' (H1 & H2 & H3 & H4). split; [lia|]. split; [done|]. split; [done|].
  intros b. rewrite H4. destruct (decide (b = i)) as [->|Hne]; [rewrite fn_lookup_insert|rewrite fn_lookup_insert_ne by done];
    repeat case_test; done || (destruct_bool_tests; lia).
Qed.

Lemma tree_empty s :
  sectors s = FSSIZE → freeinode s = 1 → freeblock s = nmeta → image s 1 = sb_block →
  (∀ b, 0 ≤ b < FSSIZE → b ≠ 1 → image s b = fun _ => 0) → tree d s (fun _ => []).
Proof.
  intros H1 H2 H3 H4 H5. pose proof mconsts as (Hnm & HF & HN). split; rewrite ?H2, ?H3; try done; try lia.
  - intros b o Hb Ho. by rewrite H5 by lia.
  - intros i Hi. unfold dinode_of. pose proof (iblock_range i ltac:(lia)). rewrite H5 by lia. by apply ldn_zero.
  - intros b o Hb Ho. by rewrite H5 by lia.
Qed.

Lemma finish_spec s C files :
  tree d s C → Forall good_input files → image_blocks files ≤ FSSIZE →
  freeinode s = Z.of_nat (length files) + 2 → freeblock s = image_blocks files →
  C ROOTINO = root_entries files → (∀ t f, files !! t = Some f → C (2 + Z.of_nat t) = contents f) →
  wp (do din <- rinode ROOTINO;
      do! winode ROOTINO (set_dsize (u32 ((di_size din / BSIZE + 1) * BSIZE)) din);
      do b <- gets freeblock;
      balloc b) (fun _ s' => sectors s' = FSSIZE ∧ made (image s') files) s.
Proof.
  intros Ht Hg Hfs Hfi Hfb HC1 HC2. pose proof mconsts as (Hnm & HF & HN). pose proof consts as (_ & _ & _ & HBS).
  pose proof (t_fi _ _ _ Ht) as Hn. pose proof (root_length files) as Hrl.
  assert (Hri : 0 ≤ ROOTINO < NINODES) by done. pose proof (iblock_range ROOTINO Hri) as Hib.
  apply wp_bind, rinode_wp; [done|apply Ht|]. apply wp_bind, winode_wp; [done|apply Ht|].
  assert (Hsz : di_size (dinode_of (image s) ROOTINO) = Z.of_nat (length (C ROOTINO))).
  { apply (fi_size d _ (freeblock s)), (t_files _ _ _ Ht). unfold ROOTINO. lia. }
  rewrite Hsz, u32_small by (rewrite HC1, Hrl, HBS; zdm). fold (root_size C).
  apply wp_bind, wp_gets. cbn [freeblock set_image]. unfold balloc.
  rewrite (proj2 (Z.ltb_lt _ _)) by (change (BSIZE * 8) with 8192; lia). cbn [negb].
  apply wsect_wp; [change (sb_bmapstart the_sb) with 45; lia|apply Ht|]. split; [apply Ht|]. cbn [image set_image].
  set (cur1 := <[IBLOCK ROOTINO the_sb := store_din (dinode_off ROOTINO) (set_dsize (root_size C) (dinode_of (image s) ROOTINO))
    (image s (IBLOCK ROOTINO the_sb))]> (image s)).
  set (cur2 := <[sb_bmapstart the_sb := _]> cur1). change (sb_bmapstart the_sb) with 45 in *.
  assert (H12 : ∀ b, b ≠ 45 → cur2 b = cur1 b) by (intros b Hb; by apply fn_lookup_insert_ne).
  assert (Hd : ∀ j, 0 ≤ j < NINODES → dinode_of cur2 j = dinode_of cur1 j).
  { intros j Hj. unfold dinode_of. rewrite H12; [done|]. pose proof (iblock_range j Hj). lia. }
  apply (finish_made s C Ht); try done; rewrite ?Hfb; try done; try (intros b Hb; rewrite H12 by lia; apply fn_lookup_insert_ne; lia).
  - intros j Hj Hne. rewrite Hd by done. apply dinode_of_other; done || lia.
  - rewrite Hd by done. apply dinode_of_written.
  - rewrite <- Hfb. apply balloc_marked. pose proof (t_fb _ _ _ Ht). lia.
Qed.

(** The root directory with its two first entries. *)
Lemma root_wp s k (Q : unit → mst → Prop) :
  tree d s (fun _ => []) → freeinode s = 1 → freeblock s = nmeta →
  (∀ s' C, tree d s' C → C ROOTINO = dirent ROOTINO [46] ++ dirent ROOTINO [46; 46] →
     freeinode s' = 2 → freeblock s' = nmeta + 1 → wp (k ROOTINO) Q s') →
  wp (do rootino <- ialloc T_DIR;
      if negb (rootino =? ROOTINO) then panic "assert"
      else do! iappend rootino (dirent rootino [46]); do! iappend rootino (dirent rootino [46; 46]); k rootino) Q s.
Proof.
  intros Ht Hfi Hfb Hk. pose proof mconsts as (Hnm & HF & HN). apply wp_bind. eapply wp_mono.
  { apply (ialloc_spec d s _ T_DIR Ht); [lia|by rewrite Hfi]. }
  intros i s1 (-> & Ht1 & Hi1 & Hb1). rewrite Hfi in *. change (negb (1 =? ROOTINO)) with false. cbv iota.
  change 1 with ROOTINO in Ht1 |- *. set (C1 := <[ROOTINO := []]> _) in Ht1.
  assert (HC1 : C1 ROOTINO = []) by apply fn_lookup_insert.
  assert (Hby : ∀ l, Forall is_byte l → Forall is_byte (dirent ROOTINO l)) by (intros; by apply dirent_bytes).
  apply wp_bind. eapply wp_mono.
  { apply (iappend_spec d s1 C1 ROOTINO _ Ht1); rewrite ?HC1, ?length_dirent; [unfold ROOTINO; lia| |done|].
    - apply Hby. repeat constructor; lia.
    - change (blocks_for _ - blocks_for _) with 1. lia. }
  intros _ s2 (Ht2 & Hi2 & Hb2). rewrite HC1, length_dirent in *. change (blocks_for _ - blocks_for _) with 1 in Hb2.
  set (C2 := <[ROOTINO := _]> C1) in Ht2. assert (HC2 : C2 ROOTINO = dirent ROOTINO [46]) by apply fn_lookup_insert.
  apply wp_bind. eapply wp_mono.
  { apply (iappend_spec d s2 C2 ROOTINO _ Ht2); rewrite ?HC2, ?length_dirent; [unfold ROOTINO; lia| |done|].
    - apply Hby. repeat constructor; lia.
    - change (blocks_for _ - blocks_for _) with 0. lia. }
  intros _ s3 (Ht3 & Hi3 & Hb3). rewrite HC2, !length_dirent in *. change (blocks_for _ - blocks_for _) with 0 in Hb3.
  apply (Hk s3 _ Ht3); [apply fn_lookup_insert|lia|lia].
Qed.

Lemma main_spec junk files :
  fits files →
  wp (main files) (fun _ s' => sectors s' = FSSIZE ∧ made (image s') files) (before_main junk).
Proof.
  intros (Hg & Hn & Hroom). pose proof mconsts as (Hnm & HF & HN). unfold main. apply wp_bind, wp_modify, wp_bind.
  eapply wp_mono; [apply zero_sectors_spec; [lia|by rewrite Z2Nat.id by lia|done]|].
  rewrite Z2Nat.id by lia. cbn [sectors freeinode freeblock image before_main].
  intros _ s1 (H1 & H2 & H3 & H4). apply wp_bind, wsect_wp; [lia|done|].
  apply root_wp.
  { apply tree_empty; try done. cbn [image set_image]. intros b Hb Hne.
    rewrite fn_lookup_insert_ne by done. rewrite H4. case_test; done || lia. }
  { done. } { done. }
  intros s2 C Ht HC Hfi Hfb. pose proof (length_dirent ROOTINO [46]) as L1. pose proof (length_dirent ROOTINO [46; 46]) as L2.
  assert (HL : Z.of_nat (length (C ROOTINO)) = 32) by (rewrite HC, length_app; lia).
  assert (Hall : 32 + 16 * Z.of_nat (length files) = 16 * (Z.of_nat (length files) + 2)) by lia.
  assert (Hib : nmeta + 1 + (blocks_for (16 * (Z.of_nat (length files) + 2)) - blocks_for 32) + file_blocks files = image_blocks files)
    by (unfold image_blocks; change (blocks_for 32) with 1; lia).
  apply wp_bind. eapply wp_mono.
  { apply (add_files_spec files s2 C Ht); rewrite ?HL, ?Hfi, ?Hfb, ?Hall, ?Hib; try done; try lia.
    pose proof consts as (_ & _ & -> & ->). lia. }
  intros _ s3 (Ht3 & Hi3 & Hb3). rewrite HL, Hall, Hfb, Hfi, Hib in *.
  apply (finish_spec s3 _ files Ht3); try done; [lia|..].
  - rewrite add_contents_root, HC by lia. unfold root_entries. by rewrite <- app_assoc.
  - intros t f Htf. apply add_contents_file; [lia|done].
Qed.
End make.

(** C6: mkfs turns files that fit (inodes and blocks suffice, names without a
    slash behind user/) into an image that the kernel's own invariants
    describe: superblock and empty log in place, exactly the blocks that were
    handed out marked in the bitmap, every file with one link, all its blocks
    and the bytes it was given, the root directory with an entry for each file
    under its name without user/ and _, no block in two files, and the other
    inodes free.  The root directory lacks its last block exactly if its
    entries fill a whole number of blocks. *)
Theorem mkfs_image d junk files :
  fits files →
  wp (main files) (fun _ s' => sectors s' = FSSIZE ∧ made d (image s') files) (before_main junk).
Proof. apply main_spec. Qed.

Definition sample_files : list input :=
  [([117; 115; 101; 114; 47; 95; 99; 97; 116], Some [[127; 69; 76; 70]; [1; 2]]); ([82; 69; 65; 68; 77; 69], Some [])].

Lemma sample_fits : fits sample_files.
Proof.
  assert (Hb : ∀ l, forallb (fun v => (0 <=? v) && (v <? 256)) l = true → Forall is_byte l).
  { intros l Hl. apply Forall_forall. intros v Hv%list_elem_of_In.
    pose proof (proj1 (forallb_forall _ _) Hl v Hv) as Hv'. cbv beta in Hv'. destruct_bool_tests.
    unfold is_byte. lia. }
  split; [|split; [done|vm_compute; congruence]].
  repeat apply Forall_cons_2; [| |apply Forall_nil_2].
  all: split; [apply (bool_decide_unpack _); vm_compute; exact I|]; split; [by apply Hb|]; split; [|vm_compute; congruence].
  all: eexists; split; [done|]; repeat first [apply Forall_nil_2 | apply Forall_cons_2]; unfold is_byte; lia.
Qed.

Lemma mkfs_image_witness :
  fits sample_files ∧
  wp (main sample_files) (fun _ s' => sectors s' = FSSIZE ∧ made 1 (image s') sample_files) (before_main (fun _ _ => 90)).
Proof. split; [exact sample_fits|apply mkfs_image, sample_fits]. Defined.
