(* ===== verification/FsBoot.v ===== *)
(** * The file system from boot on (kernel/fs.c: iinit, readsb, fsinit, iget, ilock)

    On a disk with a sound superblock and an empty log, the kernel finds the
    superblock, recovers the log, and afterwards reads from the files what is
    on the disk.  The image that mkfs makes is such a disk: what mkfs was
    given is what the kernel reads. *)

From stdpp Require Import functions.
From S2P Require Import Prelude Mem Kstring Riscv Kalloc Sleeplock Bio BioSpec Log LogSpec Fs FsTx FsBlock FsFile FsProps FsDir Mkfs MkfsSpec.

(** What main() and the first process do for the file system:
    binit(); iinit(); fsinit(ROOTDEV). *)
Definition fs_boot (dv : Z) : M fs unit :=
  do! on_log (on_bio binit);
  do! iinit;
  fsinit dv.

(** Memory at boot, with [D] on the disk. *)
Record at_boot (D : Z → block) (s : fs) : Prop := {
  ab_bufs : ∀ i, bufs (lbio (flog s)) i = zero_buf;
  ab_disk : blocks (dsk (lbio (flog s))) = D;
  ab_log : lg (flog s) = zero_log;
  ab_inodes : ∀ ip, i_ref (itab s ip) = 0 ∧ i_lock (itab s ip) = mk_sleeplock 0 0
}.

Section boot.
Context (d : Z) (Hd : d ≠ 0) (B : superblock) (HB : layout_ok B).
#[local] Abbreviation st := (sb_logstart B).
#[local] Abbreviation sz := (sb_nlog B).

(** The superblock on the disk, and the log empty. *)
Record mountable (D : Z → block) : Prop := {
  mo_super : mk_sb (ld32 (D 1) 0) (ld32 (D 1) 4) (ld32 (D 1) 8) (ld32 (D 1) 12)
                   (ld32 (D 1) 16) (ld32 (D 1) 20) (ld32 (D 1) 24) (ld32 (D 1) 28) = B;
  mo_magic : sb_magic B = FSMAGIC;
  mo_log : hdr_n (D st) = 0
}.

(** No transaction is running, no inode is in use, and the blocks are those
    of [cur]. *)
Record mounted (s : fs) (cur : Z → block) : Prop := {
  mt_sb : sb s = B;
  mt_cache : cache d (lbio (flog s)) [] [] cur;
  mt_log : log_ok d st sz (lg (flog s));
  mt_n : lh_n (lg (flog s)) = 0;
  mt_outstanding : outstanding (lg (flog s)) = 0;
  mt_committing : committing (lg (flog s)) = false;
  mt_inodes : ∀ ip, i_ref (itab s ip) = 0 ∧ i_lock (itab s ip) = mk_sleeplock 0 0
}.

Lemma iinit_spec n s :
  (∀ ip, i_ref (itab s ip) = 0 ∧ i_lock (itab s ip) = mk_sleeplock 0 0) →
  wp (iinit_loop n) (fun _ s' => flog s' = flog s ∧
    ∀ ip, i_ref (itab s' ip) = 0 ∧ i_lock (itab s' ip) = mk_sleeplock 0 0) s.
Proof.
  revert s; induction n as [|n IH]; intros s Hi; cbn [iinit_loop]; [by apply wp_ret|].
  apply wp_bind, wp_modify. apply (IH (mk_fs _ _ _ _ _ _)). cbn [itab]. intros ip.
  destruct (decide (ip = NINODE - Z.of_nat (S n))) as [->|Hne].
  - rewrite fn_lookup_alter. cbn. split; [apply Hi|done].
  - rewrite fn_lookup_alter_ne by done. apply Hi.
Qed.

Lemma fs_boot_spec D s :
  mountable D → at_boot D s →
  wp (fs_boot d) (fun _ s' => ∃ cur, mounted s' cur ∧ ∀ b, b ≠ st → cur b = D b) s.
Proof.
  intros [Hsup Hmag Hlog] [Hbufs Hdisk Hlg Hino]. pose proof (l_log _ HB) as (Hl1 & Hl2 & Hl3).
  pose proof (l_inodes _ HB) as [Hi1 Hi2]. pose proof (l_data _ HB) as Hdt.
  assert (Hlim : st + sz < 2 ^ 31).
  { assert (0 ≤ sb_ninodes B / IPB) by (change IPB with 16; zdm).
    assert (sb_bmapstart B ≤ datastart B); [|lia]. unfold datastart. change BPB with 8192.
    pose proof (size_pos B HB). zdm. }
  unfold fs_boot. apply wp_bind, wp_on_log, wp_on_bio. eapply wp_mono; [by apply (binit_cache d)|].
  rewrite Hdisk, Hlg. intros _ b1 [Hc1 Hd1]. cbn [flog lbio lg].
  apply wp_bind. unfold iinit. eapply wp_mono; [by apply iinit_spec|]. cbn [flog].
  intros _ s2 [Hf2 Hi2']. unfold fsinit, readsb. apply wp_bind, wp_bind, wp_on_log, wp_on_bio. rewrite Hf2. cbn [lbio lg].
  eapply wp_mono; [apply (bread_spec d b1 [] [] D 1 Hc1); [lia|apply not_elem_of_nil|by right]|].
  intros bp b3 (Hc3 & Hb3 & _ & Hd3). cbn [flog lbio lg]. apply wp_bind, wp_on_log, wp_gets. cbn [flog lbio].
  rewrite (cache_data d b3 _ _ _ bp 1 Hc3 Hb3) by (by left). rewrite Hsup.
  apply wp_bind, wp_modify, wp_on_log, wp_on_bio. cbn [flog lbio lg].
  eapply wp_mono; [apply (brelse_spec d b3 [] [] D bp 1 Hc3 Hb3); right; by rewrite Hd3, Hd1, Hdisk|].
  intros _ b4 (Hc4 & _ & Hd4). apply wp_bind, wp_gets. cbn [sb flog lbio lg]. rewrite Hmag, Z.eqb_refl. cbn [negb].
  apply wp_on_log. cbn [flog].
  eapply wp_mono.
  { apply (initlog_run d st sz); cbn [lbio]; try done; try lia.
    - unfold valid_hdr. rewrite Hlog. split; [lia|]. split; intros; lia.
    - by rewrite Hd4, Hd3, Hd1. }
  cbn [lg lbio]. rewrite Hlog.
  intros _ t5 (l & cur & H2 & Hl & Hn & _ & Hg & Ho & Hcm & Hc & _ & _ & Hout & _). exists cur. split.
  - split; cbn [sb flog itab]; rewrite ?Hg; try done.
    destruct Hl as [? ? ? ? ? ?]. split; cbn; try done; [lia|intros; lia|constructor].
  - intros b Hb. apply Hout; [done|]. unfold logged. rewrite logged_elem. intros (i & Hi & _). lia.
Qed.

(** ** Reading a file *)

(** As exec() does: begin_op(), an inode, ilock(ip), readi(ip, ...). *)
Definition read_inode (i off n : Z) : M fs (Z * list Z) :=
  do! on_log begin_op;
  do ip <- iget d i;
  do! ilock ip;
  readi ip LocalDst off n.

Lemma iget_scan_free n dv num empty tab :
  (∀ ip, i_ref (tab ip) = 0) →
  iget_scan n dv num empty tab =
  (None, match empty with Some e => Some e | None => if decide (n = O) then None else Some (NINODE - Z.of_nat n) end).
Proof.
  intros Hf. revert empty; induction n as [|n IH]; intros empty; cbn [iget_scan]; [by destruct empty|].
  rewrite Hf. change (0 <? 0) with false. change (0 =? 0) with true. cbn [andb]. rewrite IH.
  by destruct empty.
Qed.

(** The inode in the table after iget() and ilock(). *)
Definition locked (pid : Z) (cur : Z → block) (i : Z) : inode :=
  let y := cur (IBLOCK i B) in
  let o := dinode_off i in
  mk_inode d i 1 (mk_sleeplock 1 pid) true (d_type y o) (d_major y o) (d_minor y o) (d_nlink y o) (d_size y o) (d_addr y o).
Definition pid_of (s : fs) : Z := mypid (lbio (flog s)).

Lemma ilock_spec s L cur r ip i :
  tx d st sz s [] [] L cur r → 0 ≤ r → sb s = B → 0 ≤ IBLOCK i B < 2 ^ 31 →
  i_ref (itab s ip) = 1 → i_lock (itab s ip) = mk_sleeplock 0 0 → i_valid (itab s ip) = false →
  i_dev (itab s ip) = d → i_inum (itab s ip) = i → d_type (cur (IBLOCK i B)) (dinode_off i) ≠ 0 →
  wp (ilock ip) (fun _ s' => tx d st sz s' [] [] L cur r ∧ itab s' ip = locked (pid_of s) cur i ∧
    (∀ j, j ≠ ip → itab s' j = itab s j) ∧ sb s' = B ∧ pid_of s' = pid_of s) s.
Proof.
  intros Ht Hr Hsb Hib Href Hlk Hval Hdev Hnum Hty. unfold ilock.
  apply wp_bind, wp_gets. rewrite Href. change (1 <? 1) with false. cbv iota.
  apply wp_bind. unfold inode_acquiresleep. apply wp_bind, wp_gets, wp_bind, wp_gets. rewrite Hlk. cbn [acquiresleep slocked].
  change (negb (0 =? 0)) with false. cbv iota. apply wp_modify.
  set (s1 := mk_fs _ _ _ _ _ _). assert (Ht1 : tx d st sz s1 [] [] L cur r) by (by apply (tx_flog d B s s1)).
  assert (Hx1 : itab s1 ip = set_ilock (mk_sleeplock 1 (mypid (lbio (flog s)))) (itab s ip)) by (cbn; by rewrite fn_lookup_alter).
  assert (Ho1 : ∀ j, j ≠ ip → itab s1 j = itab s j) by (intros j Hj; cbn; by rewrite fn_lookup_alter_ne).
  assert (Hsb1 : sb s1 = B) by exact Hsb. assert (Hp1 : pid_of s1 = pid_of s) by done. clearbody s1.
  apply wp_bind, wp_gets. rewrite Hx1. cbn [i_valid i_dev i_inum set_ilock]. rewrite Hval, Hdev, Hnum. cbn [negb].
  apply wp_bind, wp_gets. rewrite Hsb1. apply wp_bind. eapply wp_mono.
  { apply (bread_tx d st sz (layout_sz B HB) s1 [] [] L cur r); [done|cbn; lia|done|apply not_elem_of_nil]. }
  intros bp s2 (Ht2 & Hb2 & _ & Hs2). apply wp_bind.
  eapply wp_mono; [apply (bdata_tx d st sz s2 _ _ _ _ _ bp _ Ht2 Hb2); by left|].
  intros dat s2' [-> ->]. cbv zeta. apply wp_bind, wp_modify. destruct Hs2 as (Hsb2 & Hit2 & _ & _ & _ & Hp2).
  set (y := cur (IBLOCK i B)) in *. set (o := dinode_off i) in *. set (s3 := mk_fs _ _ _ _ _ _).
  apply wp_bind. eapply wp_mono.
  { apply (brelse_tx d st sz s3 [] [] L cur r bp (IBLOCK i B)); [by apply (tx_flog d B s2 s3)|exact Hb2|apply not_elem_of_nil]. }
  intros _ s4 (Ht4 & _ & Hs4). destruct Hs4 as (Hsb4 & Hit4 & _ & _ & _ & Hp4).
  assert (Hx4 : itab s4 ip = set_ivalid false (locked (pid_of s) cur i)).
  { rewrite Hit4. cbn [itab s3]. rewrite fn_lookup_alter, Hit2, Hx1. cbn. rewrite Hdev, Hnum, Href, Hval. done. }
  apply wp_bind, wp_modify, wp_bind, wp_gets. cbn [itab]. rewrite fn_lookup_alter, Hx4. cbn [i_type set_ivalid locked].
  rewrite (proj2 (Z.eqb_neq _ 0)) by done. apply wp_ret. split; [by eapply (tx_flog d B s4)|]. cbn [itab sb].
  split; [by rewrite fn_lookup_alter, Hx4|]. split; [|split].
  - intros j Hj. rewrite fn_lookup_alter_ne, Hit4 by done. cbn [itab s3]. rewrite fn_lookup_alter_ne, Hit2 by done. by apply Ho1.
  - rewrite Hsb4. cbn [sb s3]. by rewrite Hsb2.
  - unfold pid_of. cbn [flog]. rewrite Hp4. cbn [flog s3]. by rewrite Hp2.
Qed.

Lemma loaded_ok cur x y :
  i_dev x = i_dev y → i_size x = i_size y → i_addrs x = i_addrs y →
  file_ok d B cur y → no_holes cur y → file_ok d B cur x ∧ no_holes cur x ∧ ∀ off n, fbytes cur x off n = fbytes cur y off n.
Proof.
  destruct x, y; cbn. intros -> -> ->. intros [H1 H2 H3 H4 H5 H6] Hn. split; [split; assumption|]. split; done.
Qed.

(** The inode of the disk, as in the theorems on files. *)
Definition disk_inode (cur : Z → block) (i : Z) : inode := locked 0 cur i.

(** A transaction has begun, and only the inode [ip] is in use: it stands for
    the inode [i] of the disk and has not been read. *)
Record opened (s : fs) (cur : Z → block) (ip i : Z) : Prop := {
  op_tx : tx d st sz s [] [] [] cur 0;
  op_sb : sb s = B;
  op_range : 0 ≤ ip < NINODE;
  op_dev : i_dev (itab s ip) = d;
  op_inum : i_inum (itab s ip) = i;
  op_ref : i_ref (itab s ip) = 1;
  op_lock : i_lock (itab s ip) = mk_sleeplock 0 0;
  op_valid : i_valid (itab s ip) = false;
  op_others : ∀ j, j ≠ ip → i_ref (itab s j) = 0 ∧ i_lock (itab s j) = mk_sleeplock 0 0
}.

(** A transaction has begun, and no inode is in use. *)
Record began (s : fs) (cur : Z → block) : Prop := {
  bg_tx : tx d st sz s [] [] [] cur 0;
  bg_sb : sb s = B;
  bg_inodes : ∀ ip, i_ref (itab s ip) = 0 ∧ i_lock (itab s ip) = mk_sleeplock 0 0
}.

Lemma begin_wp s cur (Q : unit → fs → Prop) :
  mounted s cur → (∀ s', began s' cur → Q tt s') → wp (on_log begin_op) Q s.
Proof.
  intros [Hsb Hc Hl Hn Ho Hcm Hino] HQ. pose proof (l_log _ HB) as (_ & Hz & _).
  apply wp_on_log. unfold begin_op. apply wp_bind, wp_gets. rewrite Hcm, Hn, Ho.
  change (LOGSIZE <? 0 + (0 + 1) * MAXOPBLOCKS) with false. cbv iota. apply wp_modify, HQ. split; [|done|done].
  split; cbn [flog lg lbio]; [|split; apply Hl|done|cbn; lia|by intros ? ?%not_elem_of_nil|by intros ? ?%not_elem_of_nil].
  unfold logged, logged_from. cbn. by rewrite Hn.
Qed.

Lemma iget_began_wp s cur i (Q : Z → fs → Prop) :
  began s cur → (∀ ip s', opened s' cur ip i → Q ip s') → wp (iget d i) Q s.
Proof.
  intros [Ht Hsb Hino] HQ.
  apply iget_wp; [exists 0; split; [done|apply Hino]|]. intros ip s2 [G1 G2 G3 G4 G5 G6 G7 _ G9].
  destruct (Hino ip) as [Hr Hk]. destruct (G9 ltac:(lia)) as (G9a & G9b & G9c). apply HQ. split; try done.
  - by apply (tx_flog d B s s2).
  - by rewrite G6.
  - by rewrite G9c.
  - intros j Hj. rewrite G7 by done. apply Hino.
Qed.

(** The file [i] of the disk can be read. *)
Record readable (cur : Z → block) (i : Z) : Prop := {
  rd_block : 0 ≤ IBLOCK i B < 2 ^ 31;
  rd_type : d_type (cur (IBLOCK i B)) (dinode_off i) ≠ 0;
  rd_ok : file_ok d B cur (disk_inode cur i);
  rd_holes : no_holes cur (disk_inode cur i)
}.

Lemma readable_locked cur i pid :
  readable cur i → file_ok d B cur (locked pid cur i) ∧ no_holes cur (locked pid cur i) ∧
  ∀ off n, fbytes cur (locked pid cur i) off n = fbytes cur (disk_inode cur i) off n.
Proof. intros [_ _ H1 H2]. by apply loaded_ok. Qed.

Definition read_len (cur : Z → block) (i off n : Z) : Z :=
  if i_size (disk_inode cur i) <? off then 0 else Z.min n (i_size (disk_inode cur i) - off).

Lemma ilock_readi_spec s cur ip i off n :
  opened s cur ip i → readable cur i → 0 ≤ off < 2 ^ 31 → 0 ≤ n < 2 ^ 31 →
  wp (do! ilock ip; readi ip LocalDst off n)
     (fun p _ => p = (read_len cur i off n, fbytes cur (disk_inode cur i) off (read_len cur i off n))) s.
Proof.
  intros [H1 H2 H3 H4 H5 H6 H7 H8 H9] Hrd Hoff Hn. apply wp_bind.
  eapply wp_mono; [apply (ilock_spec s [] cur 0 ip i); try done; apply Hrd|].
  intros _ s3 (Ht3 & Hx3 & _). destruct (readable_locked cur i (pid_of s) Hrd) as (Hf & Hnh & Hb). rewrite <- Hx3 in *.
  eapply wp_mono; [apply (readi_spec d B HB s3 [] cur 0 ip off n); done|].
  intros p s4 (-> & _). rewrite Hb. by rewrite Hx3.
Qed.

Lemma read_inode_spec s cur i off n :
  mounted s cur → readable cur i → 0 ≤ off < 2 ^ 31 → 0 ≤ n < 2 ^ 31 →
  wp (read_inode i off n)
     (fun p _ => p = (read_len cur i off n, fbytes cur (disk_inode cur i) off (read_len cur i off n))) s.
Proof.
  intros Hm Hrd Hoff Hn. unfold read_inode. apply wp_bind, (begin_wp s cur); [done|]. intros s1 H1.
  apply wp_bind, (iget_began_wp s1 cur i); [done|]. intros ip s2 H2. by apply ilock_readi_spec.
Qed.

(** ** Paths *)

Lemma cstrn_until_nul n m m' p k :
  0 ≤ k → (∀ b, p ≤ b ≤ p + k → ld8 m b = ld8 m' b) → ld8 m (p + k) = 0 → cstrn n m p = cstrn n m' p.
Proof.
  revert p k; induction n as [|n IH]; intros p k Hk H H0; cbn [cstrn]; [done|]. rewrite <- (H p) by lia.
  destruct (decide (k = 0)) as [->|]; [by rewrite Z.add_0_r in H0; rewrite H0|]. case_test; [done|]. f_equal.
  apply (IH (p + 1) (k - 1)); [lia|intros; apply H; lia|]. by replace (p + 1 + (k - 1)) with (p + k) by lia.
Qed.

Lemma ld8_bytes_mem l b : 0 ≤ b → ld8 (bytes_mem l) b = nth (Z.to_nat b) l 0 mod 256.
Proof.
  intros Hb. unfold bytes_mem. destruct (decide (b < Z.of_nat (length l))).
  - rewrite ld8_store_bytes_in by lia. by rewrite Z.sub_0_r.
  - rewrite ld8_store_bytes_out by lia. by rewrite nth_overflow by lia.
Qed.

(** The only element of a path. *)
Lemma skipelem_one nm name :
  nm ≠ [] → slash ∉ nm → ∃ name', skipelem (slash :: nm) name = Some ([], name') ∧ name_of name' = name_of nm.
Proof.
  intros Hne Hsl. unfold skipelem. cbn [skip_slashes]. change (slash =? slash) with true. cbv iota.
  assert (Hspan : ∀ l, slash ∉ l → span_elem l = (l, [])).
  { induction l as [|c l IH]; intros Hl; [done|]. apply not_elem_of_cons in Hl as [Hc Hl]. cbn [span_elem].
    rewrite (proj2 (Z.eqb_neq c slash)) by done. by rewrite IH. }
  destruct nm as [|c nm]; [done|]. cbn [skip_slashes]. pose proof Hsl as [Hc _]%not_elem_of_cons.
  rewrite (proj2 (Z.eqb_neq c slash)), Hspan by done. set (l := c :: nm) in *. cbn [skip_slashes]. eexists. split; [done|].
  unfold name_of. case_test.
  - apply cstrn_ext. intros b Hb. rewrite !ld8_bytes_mem by lia. f_equal. rewrite nth_lookup, lookup_take_lt, <- nth_lookup by lia. done.
  - change ([0] ++ drop (length l + 1) name) with (0 :: drop (length l + 1) name).
    apply (cstrn_until_nul _ _ _ _ (Z.of_nat (length l))); [lia| |].
    + intros b Hb. rewrite !ld8_bytes_mem by lia. f_equal. destruct (decide (b = Z.of_nat (length l))) as [->|].
      * rewrite Nat2Z.id, nth_middle. by rewrite nth_overflow.
      * by rewrite app_nth1 by lia.
    + rewrite ld8_bytes_mem, Z.add_0_l, Nat2Z.id, nth_middle by lia. done.
Qed.

(** iunlockput() of the last reference to an inode that has links. *)
Lemma iunlockput_wp s ip pid cur i (Q : unit → fs → Prop) :
  itab s ip = locked pid cur i → pid_of s = pid → i_nlink (disk_inode cur i) ≠ 0 →
  (∀ s', flog s' = flog s → sb s' = sb s → (∀ j, j ≠ ip → itab s' j = itab s j) →
     i_ref (itab s' ip) = 0 → i_lock (itab s' ip) = mk_sleeplock 0 0 → Q tt s') →
  wp (iunlockput ip) Q s.
Proof.
  intros Hx Hp Hnl HQ. unfold iunlockput, iunlock. apply wp_bind, wp_bind, wp_gets, wp_bind, wp_gets. fold (pid_of s). rewrite Hp, Hx.
  unfold holdingsleep, locked. cbn [i_lock i_ref slocked spid]. rewrite Z.eqb_refl. cbn [negb andb orb]. change (negb (1 =? 0)) with true. change (1 <? 1) with false. cbn [negb andb orb]. apply wp_modify.
  unfold iput. apply wp_bind, wp_gets. cbn [itab]. rewrite fn_lookup_alter, Hx. cbn [i_ref i_valid i_nlink set_ilock locked].
  cbn in Hnl. rewrite (proj2 (Z.eqb_neq _ 0)) by done. rewrite !andb_false_r. apply wp_bind, wp_ret, wp_modify, HQ; cbn [flog sb itab].
  - done.
  - done.
  - intros j Hj. by rewrite !fn_lookup_alter_ne.
  - rewrite !fn_lookup_alter, Hx. done.
  - rewrite !fn_lookup_alter. done.
Qed.

(** A path of one element from the root: the root directory is locked,
    searched, and released. *)
Lemma namei_spec s cur nm j i (Q : option Z → fs → Prop) :
  d = ROOTDEV → began s cur → nm ≠ [] → slash ∉ nm →
  readable cur ROOTINO → i_type (disk_inode cur ROOTINO) = T_DIR → i_nlink (disk_inode cur ROOTINO) ≠ 0 →
  i_size (disk_inode cur ROOTINO) mod 16 = 0 →
  find_entry (name_of nm) 0 (dir_view cur (disk_inode cur ROOTINO)) = Some (j, i) → i ≠ ROOTINO →
  (∀ ip s', opened s' cur ip i → Q (Some ip) s') →
  wp (namei (slash :: nm)) Q s.
Proof.
  intros Hdv Hbg Hne Hsl Hrd Hty Hnl Hmod Hfind Hi HQ. unfold namei, namex.
  apply wp_bind, wp_bind. cbn [hd]. change (slash =? slash) with true. cbv iota. rewrite <- Hdv.
  apply (iget_began_wp s cur ROOTINO); [done|]. intros ip s1 [O1 O2 O3 O4 O5 O6 O7 O8 O9].
  destruct (skipelem_one nm (repeat 0 (Z.to_nat DIRSIZ)) Hne Hsl) as (name & Hskip & Hname).
  cbn [length namex_loop]. rewrite Hskip.
  apply wp_bind. eapply wp_mono; [apply (ilock_spec s1 [] cur 0 ip ROOTINO); try done; apply Hrd|].
  intros _ s2 (Ht2 & Hx2 & Ho2 & Hsb2 & Hp2). set (pid := pid_of s1) in *.
  apply wp_bind, wp_gets. rewrite Hx2. change (i_type (locked pid cur ROOTINO)) with (i_type (disk_inode cur ROOTINO)).
  rewrite Hty. change (negb (T_DIR =? T_DIR)) with false. cbn [andb]. cbv iota.
  destruct (readable_locked cur ROOTINO pid Hrd) as (Hf & Hnh & _).
  apply wp_bind, (dirlookup_wp d B HB s2 [] cur 0); [done|done|rewrite Hx2; by split|].
  rewrite Hx2, Hname. change (dir_view cur (locked pid cur ROOTINO)) with (dir_view cur (disk_inode cur ROOTINO)). rewrite Hfind.
  intros s3 Ht3 (Hsb3 & Hit3 & _ & _ & _ & Hp3). cbn [search_result].
  apply wp_bind, iget_wp.
  { destruct (decide (ip = 0)) as [->|]; [exists 1|exists 0]; (split; [done|]); rewrite Hit3, Ho2 by done; by apply O9. }
  intros ip' s4 [G1 G2 G3 G4 G5 G6 G7 G8 G9]. rewrite Hit3 in *. apply wp_ret. cbv iota.
  assert (Hne' : ip' ≠ ip).
  { intros ->. rewrite Hx2 in G8. rewrite G8 in G3 by done. cbn in G3. done. }
  destruct (O9 ip' Hne') as [Hr' Hl']. rewrite Ho2 in G9 by done. destruct (G9 ltac:(lia)) as (G9a & G9b & G9c).
  apply wp_bind, (iunlockput_wp s4 ip pid cur ROOTINO); [by rewrite G7, Hx2| |done|].
  { unfold pid_of in *. by rewrite G5, Hp3, Hp2. }
  intros s5 U1 U2 U3 U4 U5. assert (Hloop : ∀ f, namex_loop f ip' [] name false = ret (Some ip', name)) by (by intros []).
  rewrite Hloop. apply wp_ret, wp_ret, HQ. split; rewrite ?(U3 ip') by done; try done.
  - by apply (tx_flog d B s3); [rewrite U1, G5|].
  - by rewrite U2, G6, Hsb3.
  - by rewrite G9c.
  - intros k Hk. destruct (decide (k = ip)) as [->|Hki]; [done|]. rewrite U3, G7, Ho2 by done. by apply O9.
Qed.

(** Reading a file by its path, as exec() does. *)
Definition read_path (path : list Z) (off n : Z) : M fs (option (Z * list Z)) :=
  do! on_log begin_op;
  do r <- namei path;
  match r with
  | None => ret None
  | Some ip => do p <- (do! ilock ip; readi ip LocalDst off n); ret (Some p)
  end.

Lemma read_path_spec s cur nm j i off n :
  d = ROOTDEV → mounted s cur → nm ≠ [] → slash ∉ nm →
  readable cur ROOTINO → i_type (disk_inode cur ROOTINO) = T_DIR → i_nlink (disk_inode cur ROOTINO) ≠ 0 →
  i_size (disk_inode cur ROOTINO) mod 16 = 0 →
  find_entry (name_of nm) 0 (dir_view cur (disk_inode cur ROOTINO)) = Some (j, i) → i ≠ ROOTINO →
  readable cur i → 0 ≤ off < 2 ^ 31 → 0 ≤ n < 2 ^ 31 →
  wp (read_path (slash :: nm) off n)
     (fun p _ => p = Some (read_len cur i off n, fbytes cur (disk_inode cur i) off (read_len cur i off n))) s.
Proof.
  intros Hdv Hm Hne Hsl Hrd Hty Hnl Hmod Hfind Hi Hrdi Hoff Hn. unfold read_path.
  apply wp_bind, (begin_wp s cur); [done|]. intros s1 H1.
  apply wp_bind, (namei_spec s1 cur nm j i); try done. intros ip s2 H2. apply wp_bind.
  eapply wp_mono; [by apply (ilock_readi_spec s2 cur ip i off n)|]. intros p s3 ->. by apply wp_ret.
Qed.
End boot.

(** ** The image of mkfs *)

Section mkfs.
Context (d : Z) (Hd : d ≠ 0).

Lemma made_mountable D files : made d D files → mountable the_sb D.
Proof.
  intros Hm. split; [|done|].
  - rewrite (md_super _ _ _ Hm). reflexivity.
  - change (sb_logstart the_sb) with 2. unfold hdr_n. assert (ld32 (D 2) 0 = 0) as ->; [|done].
    apply ldn_zero. intros o Ho. apply (md_log _ _ _ Hm); [done|]. change BSIZE with 1024. lia.
Qed.

(** *** The root directory *)

Lemma dir_view_chunks cur x k es :
  0 ≤ k → Forall (fun e => length e = 16%nat) es → fbytes cur x (16 * k) (16 * Z.of_nat (length es)) = concat es →
  map (dir_entry cur x) (seqZ k (Z.of_nat (length es))) = map entry_of es.
Proof.
  revert k; induction es as [|e es IH]; intros k Hk Hl Hb; [done|]. apply Forall_cons in Hl as [He Hl]. cbn [length concat map] in *.
  replace (16 * Z.of_nat (S (length es))) with (16 + 16 * Z.of_nat (length es)) in Hb by lia.
  rewrite fbytes_app in Hb by lia. apply app_inj_1 in Hb as [Hb1 Hb2]; [|by rewrite length_fbytes, He].
  rewrite seqZ_cons by lia. cbn [map]. unfold dir_entry at 1. rewrite Hb1. f_equal.
  replace (Z.pred (Z.of_nat (S (length es)))) with (Z.of_nat (length es)) by lia. apply IH; [lia|done|].
  by replace (16 * Z.succ k) with (16 * k + 16) by lia.
Qed.

Lemma entry_of_dirent i name : 0 ≤ i < 2 ^ 16 → entry_of (dirent i name) = (i, name_of name).
Proof.
  intros Hi. unfold entry_of, dirent, de_inum, de_name, name_of.
  assert (Hlen : length (load_bytes (st16 (λ _ : Z, 0) 0 i) 0 2) = 2%nat) by apply length_load_bytes. f_equal.
  - unfold ld16. rewrite <- (ldn_ext 2 (st16 (fun _ => 0) 0 i)).
    + rewrite ld16_st16_eq. unfold u16. by rewrite Z.mod_small.
    + intros b Hb. rewrite ld8_bytes_mem by lia. rewrite app_nth1, nth_load_bytes by lia.
      replace (0 + Z.of_nat _) with b by lia. rewrite Z.mod_small; [done|apply ld8_range].
  - rewrite drop_app_length' by done. apply cstrn_ext. intros b Hb. rewrite !ld8_bytes_mem by lia. f_equal.
    rewrite nth_lookup, lookup_take_lt, <- nth_lookup by lia. destruct (decide (b < Z.of_nat (length name))).
    + by rewrite app_nth1 by lia.
    + rewrite app_nth2, nth_repeat, nth_overflow by lia. done.
Qed.

Fixpoint file_entries (i : Z) (files : list input) : list (list Z) :=
  match files with [] => [] | f :: l => dirent i (entry_name f) :: file_entries (i + 1) l end.
Lemma concat_file_entries i files : concat (file_entries i files) = entries i files.
Proof. revert i; induction files as [|f l IH]; intros i; [done|]. cbn. by rewrite IH. Qed.
Lemma length_file_entries i files : length (file_entries i files) = length files.
Proof. revert i; induction files as [|f l IH]; intros i; [done|]. cbn. by rewrite IH. Qed.
Lemma file_entries_16 i files : Forall (fun e => length e = 16%nat) (file_entries i files).
Proof. revert i; induction files as [|f l IH]; intros i; constructor; [apply length_dirent|apply IH]. Qed.

(** The first file with a name. *)
Lemma find_file i files t f nm k rest :
  0 < i → i + Z.of_nat (length files) < 2 ^ 16 → files !! t = Some f → name_of (entry_name f) = nm →
  (∀ t' f', (t' < t)%nat → files !! t' = Some f' → name_of (entry_name f') ≠ nm) →
  find_entry nm k (map entry_of (file_entries i files) ++ rest) = Some (k + Z.of_nat t, i + Z.of_nat t).
Proof.
  revert i t k; induction files as [|g l IH]; intros i t k Hi Hmax Ht Hnm Hfirst; [done|]. cbn [length] in Hmax.
  cbn [file_entries map app find_entry]. rewrite entry_of_dirent by lia. rewrite (proj2 (Z.eqb_neq i 0)) by lia. cbn [negb andb].
  destruct t as [|t]; cbn in Ht.
  - injection Ht as ->. rewrite bool_decide_eq_true_2 by done. by rewrite !Z.add_0_r.
  - rewrite bool_decide_eq_false_2 by (apply (Hfirst O g); [lia|done]).
    rewrite (IH (i + 1) t (k + 1)); try done; try lia; [do 2 f_equal; lia|].
    intros t' f' Hlt Hf'. apply (Hfirst (S t') f'); [lia|done].
Qed.

(** A file of the image, in the cache of a kernel that has booted. *)
Lemma has_file_cached D cur i type c :
  0 ≤ i < NINODES → has_file d D i type c → type ≠ 0 → (∀ b, b ≠ sb_logstart the_sb → cur b = D b) →
  no_holes D (inode_of d D i) →
  let x := disk_inode d the_sb cur i in
  i_size x = i_size (inode_of d D i) ∧ i_type x = type ∧ i_nlink x = 1 ∧ readable d the_sb cur i ∧
  fbytes cur x 0 (i_size x) = c ++ repeat 0 (Z.to_nat (i_size x) - length c).
Proof.
  change (sb_logstart the_sb) with 2. intros Hi [Hok Hty Hnl Hb] Hne Hcur Hnh x. pose proof (iblock_range i Hi) as Hib.
  pose proof consts as (_ & _ & H268 & HBS).
  destruct (file_ok_ext d the_sb D cur (inode_of d D i) Hok) as (Hok' & Hba & Hby).
  { intros a [Ha Hu]. split; [done|]. unfold used in *. rewrite Hcur; [done|].
    assert (0 ≤ a < 2000) by (apply (is_data_range the_sb (proj1 layout_the_sb)) in Ha; change (sb_size the_sb) with 2000 in Ha; lia).
    unfold BBLOCK. change BPB with 8192. rewrite Z.div_small by lia. done. }
  { intros a Ha _. apply Hcur. pose proof (live_range the_sb (proj1 layout_the_sb) _ _ Ha) as (_ & [_ Hin] & _).
    intros ->. apply Hin. done. }
  assert (Hnh' : no_holes cur (inode_of d D i)).
  { intros j Hj Hjs. rewrite Hba; [by apply Hnh|]. pose proof (fo_size _ _ _ _ Hok). rewrite H268, HBS in *. lia. }
  assert (Hcb : cur (IBLOCK i the_sb) = D (IBLOCK i the_sb)) by (apply Hcur; lia).
  assert (Hsz : i_size x = i_size (inode_of d D i)) by (unfold x, disk_inode, locked; by rewrite Hcb).
  destruct (loaded_ok d the_sb cur x (inode_of d D i)) as (H1 & H2 & H3); try done; [unfold x, disk_inode, locked; by rewrite Hcb|].
  assert (Hty' : i_type x = type) by (rewrite <- Hty; unfold x, disk_inode, locked; by rewrite Hcb).
  split; [done|]. split; [done|]. split; [rewrite <- Hnl; unfold x, disk_inode, locked; by rewrite Hcb|].
  split; [split; [lia|by rewrite <- Hty' in Hne|done|done]|].
  cbv zeta in Hb. rewrite H3, Hsz, <- Hb. unfold fbytes. apply map_ext_in. intros j Hj%in_seq. apply Hby.
  pose proof (fo_size _ _ _ _ Hok). lia.
Qed.

Lemma take_fbytes cur x off n m :
  0 ≤ n → 0 ≤ m → take (Z.to_nat n) (fbytes cur x off m) = fbytes cur x off (Z.min n m).
Proof.
  intros Hn Hm. destruct (decide (n ≤ m)).
  - rewrite Z.min_l by lia. replace m with (n + (m - n)) by lia. rewrite fbytes_app by lia.
    rewrite take_app_le by (rewrite length_fbytes; lia). rewrite take_ge; [done|]. rewrite length_fbytes. lia.
  - rewrite Z.min_r by lia. apply take_ge. rewrite length_fbytes. lia.
Qed.

Lemma booted_read D files s i type c n :
  made d D files → at_boot D s → 0 ≤ i < NINODES → has_file d D i type c → type ≠ 0 → no_holes D (inode_of d D i) →
  0 ≤ n < 2 ^ 31 →
  wp (do! fs_boot d; read_inode d i 0 n)
     (fun p _ => let m := i_size (inode_of d D i) in
        p = (Z.min n m, take (Z.to_nat n) (c ++ repeat 0 (Z.to_nat m - length c)))) s.
Proof.
  intros Hm Hb Hi Hf Hne Hnh Hn. pose proof layout_the_sb as [HB _]. apply wp_bind.
  eapply wp_mono; [by apply (fs_boot_spec d Hd the_sb HB D s (made_mountable _ _ Hm))|].
  intros _ s1 (cur & Hmt & Hcur).
  destruct (has_file_cached D cur i type c Hi Hf Hne Hcur Hnh) as (Hsz & _ & _ & Hrd & Hby).
  pose proof (iblock_range i Hi). pose proof (fo_size _ _ _ _ (rd_ok _ _ _ _ Hrd)) as Hs.
  eapply wp_mono; [apply (read_inode_spec d the_sb HB s1 cur i 0 n); done || lia|].
  intros p s2 ->. unfold read_len. rewrite (proj2 (Z.ltb_ge _ _)) by lia. rewrite Z.sub_0_r, Hsz. rewrite Hsz in *. cbv zeta. f_equal.
  by rewrite <- Hby, take_fbytes by lia.
Qed.
Lemma concat_zeroes q n : concat (repeat (repeat 0 n) q) = repeat (0 : Z) (q * n).
Proof. induction q as [|q IH]; [done|]. cbn [repeat concat]. by rewrite IH, <- repeat_app. Qed.

Lemma root_view cur files x m :
  i_size x = 16 * (Z.of_nat (length files) + 2 + Z.of_nat m) →
  fbytes cur x 0 (i_size x) = root_entries files ++ repeat 0 (16 * m) →
  dir_view cur x = (ROOTINO, name_of [46]) :: (ROOTINO, name_of [46; 46]) :: map entry_of (file_entries 2 files) ++
    map entry_of (repeat (repeat 0 16) m).
Proof.
  intros Hsz Hb. set (es := dirent ROOTINO [46] :: dirent ROOTINO [46; 46] :: file_entries 2 files ++ repeat (repeat 0 16) m).
  assert (Hlen : Z.of_nat (length es) = i_size x / 16).
  { cbn [length es]. rewrite length_app, repeat_length, length_file_entries, Hsz. zdm. }
  unfold dir_view, entries_from. rewrite Z.sub_0_r, <- Hlen. rewrite (dir_view_chunks cur x 0 es).
  - unfold es. cbn [map]. rewrite !entry_of_dirent by done. by rewrite map_app.
  - done.
  - unfold es. repeat (apply Forall_cons_2; [apply length_dirent|]). apply Forall_app. split; [apply file_entries_16|].
    apply Forall_forall. intros e He%list_elem_of_In%repeat_spec. by subst e.
  - rewrite Z.mul_0_r. replace (16 * Z.of_nat (length es)) with (i_size x) by (rewrite Hlen, Hsz; zdm).
    rewrite Hb. unfold es, root_entries. cbn [concat]. rewrite concat_app, concat_file_entries, concat_zeroes.
    rewrite <- !app_assoc. by rewrite (Nat.mul_comm m 16).
Qed.

(** The name finds the file: it is not that of an earlier entry. *)
Definition names_file (files : list input) (nm : list Z) (t : nat) : Prop :=
  nm ≠ [] ∧ (slash ∉ nm) ∧ name_of nm ≠ name_of [46] ∧ name_of nm ≠ name_of [46; 46] ∧
  (∃ f, files !! t = Some f ∧ name_of (entry_name f) = name_of nm) ∧
  ∀ t' f', (t' < t)%nat → files !! t' = Some f' → name_of (entry_name f') ≠ name_of nm.

Lemma booted_read_path D files s t f nm n :
  d = ROOTDEV → fits files → made d D files → at_boot D s → files !! t = Some f → names_file files nm t →
  (Z.of_nat (length files) + 2) mod 64 ≠ 0 → 0 ≤ n < 2 ^ 31 →
  wp (do! fs_boot d; read_path (slash :: nm) 0 n)
     (fun p _ => p = Some (Z.min n (Z.of_nat (length (contents f))), take (Z.to_nat n) (contents f))) s.
Proof.
  intros Hdv (_ & Hlen & _) Hm Hb Htf (Hne & Hsl & Hd1 & Hd2 & (f0 & Hf0 & Hnm) & Hfirst) Hmod Hn.
  pose proof layout_the_sb as [HB _]. pose proof mconsts as (_ & _ & HN). pose proof (lookup_lt_Some _ _ _ Htf) as Hlt.
  apply wp_bind. eapply wp_mono; [by apply (fs_boot_spec d Hd the_sb HB D s (made_mountable _ _ Hm))|].
  intros _ s1 (cur & Hmt & Hcur).
  destruct (md_root _ _ _ Hm) as (Hrf & Hrs & Hrh). destruct (md_files _ _ _ Hm t f Htf) as (Hff & Hfh & Hfs).
  destruct (has_file_cached D cur ROOTINO T_DIR _ ltac:(done) Hrf ltac:(done) Hcur ltac:(by apply Hrh)) as (R1 & R2 & R3 & R4 & R5).
  destruct (has_file_cached D cur (Z.of_nat t + 2) T_FILE _ ltac:(lia) Hff ltac:(done) Hcur Hfh) as (F1 & _ & _ & F4 & F5).
  rewrite <- R1 in Hrs. rewrite root_length in Hrs. change BSIZE with 1024 in Hrs.
  set (x := disk_inode d the_sb cur ROOTINO) in *. set (nf := Z.of_nat (length files)) in *.
  set (m := Z.to_nat (i_size x / 16 - (nf + 2))).
  assert (Hm16 : i_size x = 16 * (nf + 2 + Z.of_nat m)) by (unfold m; rewrite Hrs; zdm).
  assert (Hview := root_view cur files x m Hm16).
  replace (Z.to_nat (i_size x) - length (root_entries files))%nat with (16 * m)%nat in R5
    by (pose proof (root_length files); lia). specialize (Hview R5).
  assert (Hfind : find_entry (name_of nm) 0 (dir_view cur x) = Some (Z.of_nat t + 2, Z.of_nat t + 2)).
  { rewrite Hview. cbn [find_entry]. change (negb (ROOTINO =? 0)) with true. cbn [andb].
    rewrite !bool_decide_eq_false_2 by congruence. rewrite (find_file 2 files t f); try done; [do 2 f_equal; lia|lia|congruence]. }
  pose proof (fo_size _ _ _ _ (rd_ok _ _ _ _ F4)) as Hsz.
  eapply wp_mono.
  { apply (read_path_spec d the_sb HB s1 cur nm (Z.of_nat t + 2) (Z.of_nat t + 2) 0 n); try done; fold x.
    - by rewrite R3.
    - rewrite Hm16. zdm.
    - unfold ROOTINO. lia. }
  intros p s2 ->. do 2 f_equal; unfold read_len; rewrite (proj2 (Z.ltb_ge _ _)) by lia; rewrite Z.sub_0_r.
  - by rewrite F1, Hfs.
  - rewrite <- take_fbytes, F5, F1, Hfs, Nat2Z.id, Nat.sub_diag by lia. by rewrite app_nil_r.
Qed.
End mkfs.

(** C5: What mkfs is given is what the kernel reads.  A kernel that boots on
    the image finds the file system; looking up a file by its name in the root
    directory and reading it, as exec() does, returns the first [n] bytes of
    the contents that mkfs read from the host, and so does reading it by its
    inode; reading the root directory returns its entries.  (The lookup and
    the root directory unless its entries fill a whole number of blocks.) *)
Theorem mkfs_readable junk files n :
  fits files → 0 ≤ n < 2 ^ 31 →
  wp (main files) (fun _ m => ∀ s, at_boot (image m) s →
    (∀ t f, files !! t = Some f →
       wp (do! fs_boot ROOTDEV; read_inode ROOTDEV (Z.of_nat t + 2) 0 n)
          (fun p _ => p = (Z.min n (Z.of_nat (length (contents f))), take (Z.to_nat n) (contents f))) s) ∧
    ((Z.of_nat (length files) + 2) mod 64 ≠ 0 →
       (∀ t f nm, files !! t = Some f → names_file files nm t →
          wp (do! fs_boot ROOTDEV; read_path (slash :: nm) 0 n)
             (fun p _ => p = Some (Z.min n (Z.of_nat (length (contents f))), take (Z.to_nat n) (contents f))) s) ∧
       (n ≤ Z.of_nat (length (root_entries files)) →
          wp (do! fs_boot ROOTDEV; read_inode ROOTDEV ROOTINO 0 n)
             (fun p _ => p = (n, take (Z.to_nat n) (root_entries files))) s))) (before_main junk).
Proof.
  intros Hf Hn. assert (Hd : ROOTDEV ≠ 0) by done. eapply wp_mono; [by apply (main_spec ROOTDEV)|]. intros _ m [_ Hm] s Hb.
  pose proof Hf as (_ & Hlen & _). split; [|intros Hmod; split].
  - intros t f Htf. pose proof (lookup_lt_Some _ _ _ Htf). destruct (md_files _ _ _ Hm t f Htf) as (H1 & H2 & H3).
    eapply wp_mono; [apply (booted_read ROOTDEV Hd (image m) files s _ T_FILE (contents f)); done || lia|].
    intros p _ ->. cbv zeta. rewrite H3, Nat2Z.id, Nat.sub_diag. by rewrite app_nil_r.
  - intros t f nm Htf Hnm. exact (booted_read_path ROOTDEV Hd (image m) files s t f nm n eq_refl Hf Hm Hb Htf Hnm Hmod Hn).
  - intros Hnl. destruct (md_root _ _ _ Hm) as (H1 & H2 & H3). pose proof consts as (_ & _ & _ & HBS).
    eapply wp_mono; [apply (booted_read ROOTDEV Hd (image m) files s _ T_DIR (root_entries files)); try done; by apply H3|].
    intros p _ ->. cbv zeta. rewrite H2, HBS. f_equal; [zdm|]. apply take_app_le. lia.
Qed.

Definition boot_fs (D : Z → block) : fs :=
  mk_fs (boot D) (mk_sb 0 0 0 0 0 0 0 0) (fun _ => mk_inode 0 0 0 (mk_sleeplock 0 0) false 0 0 0 0 0 (fun _ => 0))
    (mk_kmem (fun _ => 0) 0) 0 0.
Lemma at_boot_fs D : at_boot D (boot_fs D).
Proof. done. Qed.

(** The first file of the sample, by its path /cat. *)
Lemma mkfs_readable_witness :
  wp (main sample_files) (fun _ m =>
    wp (do! fs_boot ROOTDEV; read_path [47; 99; 97; 116] 0 1024)
       (fun p _ => p = Some (6, [127; 69; 76; 70; 1; 2])) (boot_fs (image m)))
    (before_main (fun _ _ => 90)).
Proof.
  eapply wp_mono; [apply (mkfs_readable (fun _ _ => 90) sample_files 1024); [exact sample_fits|done]|].
  intros ? m Hm. destruct (Hm _ (at_boot_fs _)) as [_ Hp]. destruct Hp as [Hp _]; [done|].
  apply (Hp O ([117; 115; 101; 114; 47; 95; 99; 97; 116], Some [[127; 69; 76; 70]; [1; 2]]) [99; 97; 116]); [reflexivity|].
  split; [done|]. split; [apply (bool_decide_unpack _); vm_compute; exact I|]. split; [by vm_compute|]. split; [by vm_compute|].
  split; [eexists; split; [reflexivity|by vm_compute]|]. intros t' f' Ht'. lia.
Defined.
