(* ===== verification/Uprog.v ===== *)
(** * Small user programs (user/cat.c, echo.c, wc.c, ls.c, kill.c, ln.c, mkdir.c, rm.c, init.c, zombie.c)

    Programs over the system calls of [Os] and [Calls].  main() results in
    the status that it gives to exit(); a function that may call exit()
    results in [Some status] if it does.  argv is the list of its strings.
    The formats of printf() are written out: [%s] is the bytes of the string,
    [%d] is printint() with a sign, [%l] without one. *)

From stdpp Require Import gmap.
From S2P Require Import Prelude Mem Riscv Kalloc Sleeplock Bio Log Fs Ulib Printf.

(** The other system calls that these programs make; [sys_exec] is [false] if
    it fails, and otherwise the program is gone. *)
Class Calls (W : Type) := {
  sys_link : list Z → list Z → M W Z;
  sys_unlink : list Z → M W Z;
  sys_mkdir : list Z → M W Z;
  sys_mknod : list Z → Z → Z → M W Z;
  sys_kill : Z → M W Z;
  sys_dup : Z → M W Z;
  sys_fork : M W Z;
  sys_exec : list Z → list (list Z) → M W bool;
  sys_wait : M W Z;
  sys_sleep : Z → M W Z
}.

Definition say {W} `{Os W} (fd : Z) (s : list Z) : M W unit := User.putcs fd s.
Definition newline : Z := 10.

Module Cat.
Section prog.
Context {W : Type} `{Os W}.

Fixpoint cat (fuel : nat) (fd : Z) : M W (option Z) :=
  match fuel with
  | O => out_of_fuel
  | S f =>
      do '(n, buf) <- sys_read fd 512;
      if 0 <? n then
        do r <- sys_write 1 buf;
        if negb (r =? n) then
          do! say 2 (bytes "cat: write error" ++ [newline]);
          ret (Some 1)
        else cat f fd
      else if n <? 0 then
        do! say 2 (bytes "cat: read error" ++ [newline]);
        ret (Some 1)
      else ret None
  end.

Fixpoint files (fuel : nat) (args : list (list Z)) : M W Z :=
  match args with
  | [] => ret 0
  | a :: l =>
      do fd <- sys_open a 0;
      if fd <? 0 then
        do! say 2 (bytes "cat: cannot open " ++ a ++ [newline]);
        ret 1
      else
        do e <- cat fuel fd;
        match e with
        | Some status => ret status
        | None => do! sys_close fd; files fuel l
        end
  end.
Definition main (fuel : nat) (argv : list (list Z)) : M W Z :=
  if Z.of_nat (length argv) <=? 1 then
    do e <- cat fuel 0;
    ret (match e with Some status => status | None => 0 end)
  else files fuel (tl argv).
End prog.
End Cat.

Module Echo.
Section prog.
Context {W : Type} `{Os W}.

Fixpoint words (args : list (list Z)) : M W unit :=
  match args with
  | [] => ret tt
  | a :: l =>
      do! sys_write 1 a;
      do! (match l with [] => sys_write 1 [newline] | _ => sys_write 1 [32] end);
      words l
  end.
Definition main (argv : list (list Z)) : M W Z := do! words (tl argv); ret 0.
End prog.
End Echo.

Module Wc.
(** The variables l, w, c and inword. *)
Record counts := mk_counts { lines : Z; nwords : Z; chars : Z; inword : bool }.

(** strchr(" \r\t\n\v", buf[i]) *)
Definition is_space (c : Z) : bool := bool_decide (c ∈ [32; 13; 9; 10; 11]).

Definition count (s : counts) (c : Z) : counts :=
  let l := if c =? newline then i32 (lines s + 1) else lines s in
  if is_space c then mk_counts l (nwords s) (i32 (chars s + 1)) false
  else if negb (inword s) then mk_counts l (i32 (nwords s + 1)) (i32 (chars s + 1)) true
  else mk_counts l (nwords s) (i32 (chars s + 1)) (inword s).

Section prog.
Context {W : Type} `{Os W}.

Fixpoint wc_loop (fuel : nat) (fd : Z) (s : counts) : M W (Z * counts) :=
  match fuel with
  | O => out_of_fuel
  | S f =>
      do '(n, buf) <- sys_read fd 512;
      if 0 <? n then wc_loop f fd (foldl count s buf) else ret (n, s)
  end.
Definition wc (fuel : nat) (fd : Z) (name : list Z) : M W (option Z) :=
  do '(n, s) <- wc_loop fuel fd (mk_counts 0 0 0 false);
  if n <? 0 then
    do! say 1 (bytes "wc: read error" ++ [newline]);
    ret (Some 1)
  else
    do! User.printint 1 (lines s) 10 true; do! User.putc 1 32;
    do! User.printint 1 (nwords s) 10 true; do! User.putc 1 32;
    do! User.printint 1 (chars s) 10 true; do! User.putc 1 32;
    do! say 1 (name ++ [newline]);
    ret None.

Fixpoint files (fuel : nat) (args : list (list Z)) : M W Z :=
  match args with
  | [] => ret 0
  | a :: l =>
      do fd <- sys_open a 0;
      if fd <? 0 then
        do! say 1 (bytes "wc: cannot open " ++ a ++ [newline]);
        ret 1
      else
        do e <- wc fuel fd a;
        match e with
        | Some status => ret status
        | None => do! sys_close fd; files fuel l
        end
  end.
Definition main (fuel : nat) (argv : list (list Z)) : M W Z :=
  if Z.of_nat (length argv) <=? 1 then
    do e <- wc fuel 0 [];
    ret (match e with Some status => status | None => 0 end)
  else files fuel (tl argv).
End prog.
End Wc.

Module Ls.
(** The characters after the last slash. *)
Fixpoint after_slash (path : list Z) : list Z :=
  match path with
  | [] => []
  | c :: l => if bool_decide (47 ∈ l) then after_slash l else if c =? 47 then l else path
  end.
(** Blank-padded, in a static buffer with a NUL at DIRSIZ. *)
Definition fmtname (path : list Z) : list Z :=
  let p := after_slash path in
  if DIRSIZ <=? Z.of_nat (length p) then p
  else p ++ repeat 32 (Z.to_nat DIRSIZ - length p).

(** A string of at most the length of the list. *)
Fixpoint until_nul (l : list Z) : list Z :=
  match l with [] => [] | c :: l' => if c =? 0 then [] else c :: until_nul l' end.

Section prog.
Context {W : Type} `{Os W}.

(** st.type is a short, st.ino a uint, st.size a uint64; [%d] takes an int. *)
Definition line (path : list Z) (st : stat) (sgn : bool) : M W unit :=
  do! say 1 (fmtname path); do! User.putc 1 32;
  do! User.printint 1 (i32 (st_type st)) 10 true; do! User.putc 1 32;
  do! User.printint 1 (i32 (st_ino st)) 10 true; do! User.putc 1 32;
  do! User.printint 1 (i32 (st_size st)) 10 sgn;
  say 1 [newline].

Fixpoint entries (fuel : nat) (fd : Z) (path : list Z) : M W unit :=
  match fuel with
  | O => out_of_fuel
  | S f =>
      do '(n, de) <- sys_read fd sizeof_dirent;
      if negb (n =? sizeof_dirent) then ret tt
      else if nth 0 de 0 + 256 * nth 1 de 0 =? 0 then entries f fd path
      else
        let buf := path ++ [47] ++ until_nul (drop 2 de) in
        do '(r, st) <- stat_path buf;
        do! (if r <? 0 then say 1 (bytes "ls: cannot stat " ++ buf ++ [newline])
             else match st with Some st => line buf st true | None => ret tt end);
        entries f fd path
  end.

Definition ls (fuel : nat) (path : list Z) : M W unit :=
  do fd <- sys_open path 0;
  if fd <? 0 then say 2 (bytes "ls: cannot open " ++ path ++ [newline])
  else
    do '(r, st) <- sys_fstat fd;
    if r <? 0 then
      do! say 2 (bytes "ls: cannot stat " ++ path ++ [newline]);
      do! sys_close fd;
      ret tt
    else
      do! (if (st_type st =? T_DEVICE) || (st_type st =? T_FILE) then line path st false
           else if st_type st =? T_DIR then
             if 512 <? Z.of_nat (length path) + 1 + DIRSIZ + 1 then say 1 (bytes "ls: path too long" ++ [newline])
             else entries fuel fd path
           else ret tt);
      do! sys_close fd;
      ret tt.

Fixpoint paths (fuel : nat) (args : list (list Z)) : M W unit :=
  match args with [] => ret tt | a :: l => do! ls fuel a; paths fuel l end.
Definition main (fuel : nat) (argv : list (list Z)) : M W Z :=
  do! (if Z.of_nat (length argv) <? 2 then ls fuel [46] else paths fuel (tl argv));
  ret 0.
End prog.
End Ls.

Section calls.
Context {W : Type} `{Os W} `{Calls W}.

(** kill.c *)
Fixpoint kill_all (args : list (list Z)) : M W unit :=
  match args with [] => ret tt | a :: l => do! sys_kill (atoi a); kill_all l end.
Definition kill_main (argv : list (list Z)) : M W Z :=
  if Z.of_nat (length argv) <? 2 then do! say 2 (bytes "usage: kill pid..." ++ [newline]); ret 1
  else do! kill_all (tl argv); ret 0.

(** ln.c *)
Definition ln_main (argv : list (list Z)) : M W Z :=
  match argv with
  | [_; old; new] =>
      do r <- sys_link old new;
      do! (if r <? 0 then say 2 (bytes "link " ++ old ++ [32] ++ new ++ bytes ": failed" ++ [newline]) else ret tt);
      ret 0
  | _ => do! say 2 (bytes "Usage: ln old new" ++ [newline]); ret 1
  end.

(** mkdir.c *)
Fixpoint mkdir_all (args : list (list Z)) : M W unit :=
  match args with
  | [] => ret tt
  | a :: l =>
      do r <- sys_mkdir a;
      if r <? 0 then say 2 (bytes "mkdir: " ++ a ++ bytes " failed to create" ++ [newline]) else mkdir_all l
  end.
Definition mkdir_main (argv : list (list Z)) : M W Z :=
  if Z.of_nat (length argv) <? 2 then do! say 2 (bytes "Usage: mkdir files..." ++ [newline]); ret 1
  else do! mkdir_all (tl argv); ret 0.

(** rm.c *)
Fixpoint rm_all (args : list (list Z)) : M W unit :=
  match args with
  | [] => ret tt
  | a :: l =>
      do r <- sys_unlink a;
      if r <? 0 then say 2 (bytes "rm: " ++ a ++ bytes " failed to delete" ++ [newline]) else rm_all l
  end.
Definition rm_main (argv : list (list Z)) : M W Z :=
  if Z.of_nat (length argv) <? 2 then do! say 2 (bytes "Usage: rm files..." ++ [newline]); ret 1
  else do! rm_all (tl argv); ret 0.

(** zombie.c *)
Definition zombie_main : M W Z :=
  do r <- sys_fork;
  do! (if 0 <? r then do! sys_sleep 5; ret tt else ret tt);
  ret 0.
End calls.

(** init.c: how a process that runs it ends, if it does. *)
Module Init.
Inductive ended := Exits (status : Z) | Becomes (path : list Z) (argv : list (list Z)).
Definition O_RDWR : Z := 2.
Definition CONSOLE : Z := 1.

Section prog.
Context {W : Type} `{Os W} `{Calls W}.

(** The inner loop: [None] when the shell [pid] has exited. *)
Fixpoint wait_for (fuel : nat) (pid : Z) : M W (option ended) :=
  match fuel with
  | O => out_of_fuel
  | S f =>
      do wpid <- sys_wait;
      if wpid =? pid then ret None
      else if wpid <? 0 then
        do! say 1 (bytes "init: wait returned an error" ++ [newline]);
        ret (Some (Exits 1))
      else wait_for f pid
  end.

Fixpoint shells (fuel : nat) : M W ended :=
  match fuel with
  | O => out_of_fuel
  | S f =>
      do! say 1 (bytes "init: starting sh" ++ [newline]);
      do pid <- sys_fork;
      if pid <? 0 then
        do! say 1 (bytes "init: fork failed" ++ [newline]);
        ret (Exits 1)
      else if pid =? 0 then
        do ok <- sys_exec (bytes "sh") [bytes "sh"];
        if ok then ret (Becomes (bytes "sh") [bytes "sh"])
        else
          do! say 1 (bytes "init: exec sh failed" ++ [newline]);
          ret (Exits 1)
      else
        do e <- wait_for fuel pid;
        match e with Some e => ret e | None => shells f end
  end.

Definition main (fuel : nat) : M W ended :=
  do fd <- sys_open (bytes "console") O_RDWR;
  do! (if fd <? 0 then
         do! sys_mknod (bytes "console") CONSOLE 0;
         do! sys_open (bytes "console") O_RDWR;
         ret tt
       else ret tt);
  do! sys_dup 0;
  do! sys_dup 0;
  shells fuel.
End prog.
End Init.
