(* ===== verification/UprogSpec.v ===== *)
(** * Small user programs: theorems

    cat and wc on a world of files whose read() returns as little as it
    likes: cat writes the concatenation of its files, wc counts lines, words
    and bytes.  echo, rm, mkdir and init are described by the calls they
    make. *)

From stdpp Require Import gmap.
From S2P Require Import Prelude Mem Riscv Kalloc Sleeplock Bio Log Fs Ulib Printf Uprog.

(** ** A world of files *)

(** Files by path, what is left to read of each open file, how many bytes the
    next reads are willing to return (as many as they are asked for when the
    list is used up), what has been written to 1 and 2, and the descriptor
    that open() returns next. *)
Record world := mk_world {
  wdir : gmap (list Z) (list Z); wfds : gmap Z (list Z); wsizes : list nat;
  wout : list Z; werr : list Z; wnext : Z
}.

Definition read_size (n : Z) (w : world) : nat :=
  match wsizes w with [] => Z.to_nat n | k :: _ => Nat.min k (Z.to_nat n) end.

#[export] Instance world_os : Os world := {
  sys_read := fun fd n w =>
    match wfds w !! fd with
    | None => Ok ((-1, []), w)
    | Some l =>
        let k := read_size n w in
        Ok ((Z.of_nat (length (take k l)), take k l),
            mk_world (wdir w) (<[fd := drop k l]> (wfds w)) (tl (wsizes w)) (wout w) (werr w) (wnext w))
    end;
  sys_write := fun fd l w =>
    if fd =? 1 then Ok (Z.of_nat (length l), mk_world (wdir w) (wfds w) (wsizes w) (wout w ++ l) (werr w) (wnext w))
    else if fd =? 2 then Ok (Z.of_nat (length l), mk_world (wdir w) (wfds w) (wsizes w) (wout w) (werr w ++ l) (wnext w))
    else Ok (-1, w);
  sys_open := fun path _ w =>
    match wdir w !! path with
    | None => Ok (-1, w)
    | Some c => Ok (wnext w, mk_world (wdir w) (<[wnext w := c]> (wfds w)) (wsizes w) (wout w) (werr w) (wnext w + 1))
    end;
  sys_close := fun fd w => Ok (0, mk_world (wdir w) (delete fd (wfds w)) (wsizes w) (wout w) (werr w) (wnext w));
  sys_fstat := fun _ => ret (-1, mk_stat 0 0 0 0 0)
}.

(** Reads return something until the end of the file. *)
Definition willing (w : world) : Prop := Forall (fun k => (0 < k)%nat) (wsizes w).

(** What a program that only reads and writes leaves alone. *)
Definition same_files (w w' : world) : Prop :=
  wdir w' = wdir w ∧ werr w' = werr w ∧ willing w' ∧ wnext w ≤ wnext w'.

Lemma read_wp w fd l n (Q : Z * list Z → world → Prop) :
  wfds w !! fd = Some l → willing w → 0 < n →
  (∀ a b w', l = a ++ b → (a = [] → b = []) → willing w' → wdir w' = wdir w → werr w' = werr w → wnext w' = wnext w →
     wout w' = wout w → wfds w' = <[fd := b]> (wfds w) → Q (Z.of_nat (length a), a) w') →
  wp (sys_read fd n) Q w.
Proof.
  intros Hl Hw Hn HQ. unfold wp. cbn [sys_read world_os]. rewrite Hl. apply HQ with (b := drop (read_size n w) l); try done.
  - by rewrite take_drop.
  - assert (0 < read_size n w)%nat as Hk.
    { unfold read_size, willing in *. destruct (wsizes w) as [|k ks]; [lia|]. apply Forall_cons in Hw as [Hk _]. lia. }
    destruct l as [|c l]; [by rewrite drop_nil|]. destruct (read_size n w); [lia|]. done.
  - unfold willing in *. cbn. destruct (wsizes w); [done|]. by apply Forall_cons in Hw as [_ ?].
Qed.

Lemma putcs_out l w :
  User.putcs 1 l w = Ok (tt, mk_world (wdir w) (wfds w) (wsizes w) (wout w ++ map u8 l) (werr w) (wnext w)).
Proof.
  revert w; induction l as [|c l IH]; intros w; cbn [User.putcs map].
  - rewrite app_nil_r. by destruct w.
  - unfold bind at 1, User.putc, bind. cbn. rewrite IH. cbn. by rewrite <- app_assoc.
Qed.

(** [l] has been written to 1, and nothing else has happened. *)
Record printed (l : list Z) (w w' : world) : Prop := {
  pr_dir : wdir w' = wdir w; pr_fds : wfds w' = wfds w; pr_sizes : wsizes w' = wsizes w;
  pr_err : werr w' = werr w; pr_next : wnext w' = wnext w; pr_out : wout w' = wout w ++ l
}.
Lemma printed_trans l1 l2 w w1 w2 : printed l1 w w1 → printed l2 w1 w2 → printed (l1 ++ l2) w w2.
Proof. intros [] []. split; try congruence. rewrite app_assoc. congruence. Qed.

Lemma say_wp l w (Q : unit → world → Prop) : (∀ w', printed (map u8 l) w w' → Q tt w') → wp (User.putcs 1 l) Q w.
Proof. intros HQ. unfold wp. rewrite putcs_out. by apply HQ. Qed.
Lemma putc_wp c w (Q : unit → world → Prop) : (∀ w', printed [u8 c] w w' → Q tt w') → wp (User.putc 1 c) Q w.
Proof. intros HQ. by apply HQ. Qed.

(** ** cat *)

(** The file behind [fd] has been read to its end, and [l] has been
    written. *)
Definition consumed (fd : Z) (l : list Z) (w w' : world) : Prop :=
  same_files w w' ∧ wnext w' = wnext w ∧ wfds w' = <[fd := []]> (wfds w) ∧ wout w' = wout w ++ l.

Lemma cat_spec fuel fd l w :
  wfds w !! fd = Some l → willing w → (length l < fuel)%nat →
  wp (Cat.cat fuel fd) (fun e w' => e = None ∧ consumed fd l w w') w.
Proof.
  revert l w; induction fuel as [|f IH]; intros l w Hl Hw Hf; [lia|]. cbn [Cat.cat].
  apply wp_bind, (read_wp w fd l); [done..|]. intros a b w1 -> Hab Hw1 H1 H2 H3 H4 H5.
  destruct a as [|c a].
  { rewrite Hab in * by done. cbn. apply wp_ret. split; [done|]. split; [split; [done|]; split; [done|]; split; [done|lia]|].
    split; [done|]. split; [done|]. by rewrite app_nil_r. }
  set (a' := c :: a) in *. assert (0 < length a')%nat by (cbn; lia). rewrite length_app in Hf.
  rewrite (proj2 (Z.ltb_lt 0 _)) by lia. apply wp_bind. unfold wp at 1. cbn [sys_write world_os]. change (1 =? 1) with true. cbv iota.
  rewrite Z.eqb_refl. cbn [negb]. eapply wp_mono; [apply (IH b); [cbn; by rewrite H5, lookup_insert_eq|done|lia]|].
  cbn [wfds wout wdir werr wnext]. intros e w2 (-> & (G1 & G2 & G3 & G4) & G5 & G6 & G7). cbn in *. split; [done|].
  split; [split; [congruence|]; split; [congruence|]; split; [done|lia]|]. split; [congruence|].
  split; [by rewrite G6, H5, insert_insert_eq|]. by rewrite G7, H4, <- app_assoc.
Qed.

(** The files of [args] with their contents. *)
Definition all_files (w : world) (args contents : list (list Z)) : Prop :=
  Forall2 (fun a c => wdir w !! a = Some c) args contents.

(** Opening, using up and closing one file after the other. *)
Lemma open_wp w a c (Q : Z → world → Prop) :
  wdir w !! a = Some c → 0 ≤ wnext w →
  (∀ w', wfds w' !! wnext w = Some c → wdir w' = wdir w → werr w' = werr w → wsizes w' = wsizes w →
     wout w' = wout w → wnext w' = wnext w + 1 → Q (wnext w) w') →
  wp (sys_open a 0) Q w.
Proof.
  intros Hc Hn HQ. unfold wp. cbn [sys_open world_os]. rewrite Hc. apply HQ; try done. cbn. apply lookup_insert_eq.
Qed.

Lemma cat_files_spec fuel args contents w :
  all_files w args contents → willing w → 0 ≤ wnext w → Forall (fun c => (length c < fuel)%nat) contents →
  wp (Cat.files fuel args) (fun r w' => r = 0 ∧ wout w' = wout w ++ concat contents ∧ werr w' = werr w) w.
Proof.
  intros Ha. remember args as args' eqn:E. revert w contents Ha. clear E args.
  induction args' as [|a args IH]; intros w contents Ha Hw Hn Hl; inversion Ha as [|? c ? contents' Hc Ha']; subst; cbn [Cat.files concat].
  { apply wp_ret. by rewrite app_nil_r. }
  apply Forall_cons in Hl as [Hlc Hl].
  apply wp_bind, (open_wp w a c); [done..|]. intros w1 H1 H2 H3 H4 H5 H6.
  rewrite (proj2 (Z.ltb_ge (wnext w) 0)) by lia.
  apply wp_bind. eapply wp_mono; [apply (cat_spec fuel (wnext w) c w1 H1); [unfold willing; by rewrite H4|done]|].
  intros e w2 (-> & (G1 & G2 & G3 & G4) & G5 & G6 & G7). apply wp_bind. unfold wp at 1. cbn [sys_close world_os].
  eapply wp_mono; [apply (IH _ contents'); cbn [wnext]; [|done|lia|done]|].
  { unfold all_files in *. cbn [wdir]. by rewrite G1, H2. }
  cbn [wout werr]. intros r w3 (-> & Ho & He). split; [done|]. rewrite Ho, He, G7, G2, H5, H3, app_assoc. done.
Qed.

(** cat writes the concatenation of its files, in whatever pieces the reads
    return them, and exits with 0. *)
Theorem cat_concatenates fuel name args contents w :
  args ≠ [] → all_files w args contents → willing w → 0 ≤ wnext w →
  Forall (fun c => (length c < fuel)%nat) contents →
  wp (Cat.main fuel (name :: args)) (fun r w' => r = 0 ∧ wout w' = wout w ++ concat contents ∧ werr w' = werr w) w.
Proof.
  intros Hne Ha Hw Hn Hl. unfold Cat.main. rewrite (proj2 (Z.leb_gt _ _)) by (destruct args; [done|cbn; lia]).
  by apply cat_files_spec.
Qed.

(** ** wc *)

(** Space, tab, newline, vertical tab and carriage return. *)
Definition white (c : Z) : bool := (c =? 32) || (c =? 13) || (9 <=? c) && (c <=? 11).
Lemma is_space_white c : Wc.is_space c = white c.
Proof.
  unfold Wc.is_space, white. destruct (bool_decide (c ∈ _)) eqn:E.
  - apply bool_decide_eq_true in E. repeat (apply elem_of_cons in E as [->|E]; [done|]). by apply not_elem_of_nil in E.
  - apply bool_decide_eq_false in E. symmetry. apply not_true_iff_false. intros Hw. apply E.
    assert (c = 32 ∨ c = 13 ∨ c = 9 ∨ c = 10 ∨ c = 11) as H.
    { apply orb_prop in Hw as [[?|?]%orb_prop|?]; destruct_bool_tests; lia. }
    rewrite !elem_of_cons. tauto.
Qed.

(** The maximal runs of characters that are not white space. *)
Fixpoint words_of (l : list Z) : list (list Z) :=
  match l with
  | [] => []
  | c :: l' =>
      if white c then words_of l'
      else
        match l' with
        | d :: _ =>
            if white d then [c] :: words_of l'
            else match words_of l' with v :: vs => (c :: v) :: vs | [] => [[c]] end
        | [] => [[c]]
        end
  end.

Definition newlines (l : list Z) : nat := length (List.filter (Z.eqb newline) l).

Lemma words_of_cons c l :
  white c = false → words_of l ≠ [] ∨ l = [] ∨ white (nth 0 l 0) = true →
  length (words_of (c :: l)) =
    (length (words_of l) + (match l with d :: _ => if white d then 1 else 0 | [] => 1 end))%nat.
Proof.
  intros Hc Hl. cbn [words_of]. rewrite Hc. destruct l as [|d l]; [done|]. cbn [nth] in Hl. destruct (white d); [cbn; lia|].
  destruct (words_of (d :: l)) eqn:E; [|cbn; lia]. naive_solver.
Qed.
Lemma words_of_ne c l : white c = false → words_of (c :: l) ≠ [].
Proof. intros Hc. cbn [words_of]. rewrite Hc. destruct l; [done|]. case_test; [done|]. by destruct (words_of _). Qed.

(** A word that begins in an earlier piece is not counted again. *)
Definition new_words (inw : bool) (l : list Z) : nat :=
  (length (words_of l) - if inw then match l with c :: _ => if white c then 0 else 1 | [] => 0 end else 0)%nat.

Lemma new_words_cons inw c l :
  new_words inw (c :: l) =
  (new_words (negb (white c)) l + (if white c then 0 else if inw then 0 else 1))%nat.
Proof.
  unfold new_words. destruct (white c) eqn:E; cbn [negb].
  { cbn [words_of]. rewrite E. destruct inw; lia. }
  assert (Hl : words_of l ≠ [] ∨ l = [] ∨ white (nth 0 l 0) = true).
  { destruct l as [|d l]; [by right; left|]. destruct (white d) eqn:E'; [by right; right|]. left. by apply words_of_ne. }
  rewrite (words_of_cons c l E Hl). destruct l as [|d l]; [cbn; destruct inw; lia|].
  destruct (white d) eqn:E'; [destruct inw; lia|].
  pose proof (words_of_ne d l E'). assert (0 < length (words_of (d :: l)))%nat by (destruct (words_of (d :: l)); [done|cbn; lia]).
  destruct inw; lia.
Qed.

Lemma count_all l s :
  0 ≤ Wc.lines s → 0 ≤ Wc.nwords s → 0 ≤ Wc.chars s →
  Wc.lines s + Z.of_nat (length l) < 2 ^ 31 → Wc.nwords s + Z.of_nat (length l) < 2 ^ 31 →
  Wc.chars s + Z.of_nat (length l) < 2 ^ 31 →
  let s' := foldl Wc.count s l in
  Wc.lines s' = Wc.lines s + Z.of_nat (newlines l) ∧
  Wc.nwords s' = Wc.nwords s + Z.of_nat (new_words (Wc.inword s) l) ∧
  Wc.chars s' = Wc.chars s + Z.of_nat (length l).
Proof.
  revert s; induction l as [|c l IH]; intros s H1 H2 H3 H4 H5 H6; cbn [foldl].
  { unfold new_words, newlines. cbn. destruct (Wc.inword s); cbn; lia. }
  cbn [length] in *. set (s1 := Wc.count s c).
  assert (E1 : Wc.lines s1 = Wc.lines s + (if newline =? c then 1 else 0)).
  { unfold s1, Wc.count. rewrite (Z.eqb_sym newline). repeat case_test; cbn; rewrite ?i32_small; lia. }
  assert (E2 : Wc.nwords s1 = Wc.nwords s + Z.of_nat (if white c then 0 else if Wc.inword s then 0 else 1)).
  { unfold s1, Wc.count. rewrite <- is_space_white. destruct (Wc.is_space c), (Wc.inword s); cbn; rewrite ?i32_small; lia. }
  assert (E3 : Wc.chars s1 = Wc.chars s + 1).
  { unfold s1, Wc.count. repeat case_test; cbn; rewrite ?i32_small; lia. }
  assert (E4 : Wc.inword s1 = negb (white c)).
  { unfold s1, Wc.count. rewrite <- is_space_white. destruct (Wc.is_space c), (Wc.inword s) eqn:E; done. }
  rewrite new_words_cons. destruct (IH s1) as (G1 & G2 & G3); try lia.
  { rewrite E1. case_test; lia. } { rewrite E1. case_test; lia. } { rewrite E2. repeat case_test; lia. }
  rewrite G1, G2, G3, E1, E2, E3, E4. unfold newlines. cbn [List.filter]. case_test; cbn [length]; lia.
Qed.

Lemma wc_loop_spec fuel fd l s w :
  wfds w !! fd = Some l → willing w → (length l < fuel)%nat →
  wp (Wc.wc_loop fuel fd s) (fun '(n, s') w' => n = 0 ∧ s' = foldl Wc.count s l ∧ consumed fd [] w w') w.
Proof.
  revert l s w; induction fuel as [|f IH]; intros l s w Hl Hw Hf; [lia|]. cbn [Wc.wc_loop].
  apply wp_bind, (read_wp w fd l); [done..|]. intros a b w1 -> Hab Hw1 H1 H2 H3 H4 H5. destruct a as [|c a].
  { rewrite Hab in * by done. cbn. apply wp_ret. split; [done|]. split; [done|]. split; [split; [done|]; split; [done|]; split; [done|lia]|].
    split; [done|]. split; [done|]. by rewrite app_nil_r. }
  set (a' := c :: a) in *. assert (0 < length a')%nat by (cbn; lia). rewrite length_app in Hf.
  rewrite (proj2 (Z.ltb_lt 0 _)) by lia. eapply wp_mono; [apply (IH b); [by rewrite H5, lookup_insert_eq|done|lia]|].
  intros [n s'] w2 (-> & -> & (G1 & G2 & G3 & G4) & G5 & G6 & G7). split; [done|]. split; [by rewrite foldl_app|].
  split; [split; [congruence|]; split; [congruence|]; split; [done|lia]|]. split; [congruence|].
  split; [by rewrite G6, H5, insert_insert_eq|]. by rewrite G7, H4.
Qed.

(** The line that wc prints for a file. *)
Definition decimal (n : nat) : list Z := map u8 (rev (int_buf User.digits (Z.of_nat n) 10 true)).
Definition wc_line (name c : list Z) : list Z :=
  decimal (newlines c) ++ [32] ++ decimal (length (words_of c)) ++ [32] ++ decimal (length c) ++ [32] ++ map u8 (name ++ [newline]).

Lemma wc_spec fuel fd name l w :
  wfds w !! fd = Some l → willing w → (length l < fuel)%nat → Z.of_nat (length l) < 2 ^ 31 →
  wp (Wc.wc fuel fd name) (fun e w' => e = None ∧ consumed fd (wc_line name l) w w') w.
Proof.
  intros Hl Hw Hf Hmax. unfold Wc.wc. apply wp_bind. eapply wp_mono; [by apply (wc_loop_spec fuel fd l)|].
  intros [n s] w1 (-> & -> & (G1 & G2 & G3 & G4) & G5 & G6 & G7).
  destruct (count_all l (Wc.mk_counts 0 0 0 false)) as (E1 & E2 & E3); cbn [Wc.lines Wc.nwords Wc.chars]; try lia.
  cbn [Wc.lines Wc.nwords Wc.chars Wc.inword] in E1, E2, E3. unfold new_words in E2. rewrite Nat.sub_0_r in E2.
  rewrite !Z.add_0_l in *. rewrite E1, E2, E3. change (0 <? 0) with false. cbv iota. unfold User.printint.
  apply wp_bind, say_wp. intros w2 P2. apply wp_bind, putc_wp. intros w3 P3.
  apply wp_bind, say_wp. intros w4 P4. apply wp_bind, putc_wp. intros w5 P5.
  apply wp_bind, say_wp. intros w6 P6. apply wp_bind, putc_wp. intros w7 P7.
  apply wp_bind, say_wp. intros w8 P8. apply wp_ret. split; [done|].
  pose proof (printed_trans _ _ _ _ _ P2 (printed_trans _ _ _ _ _ P3 (printed_trans _ _ _ _ _ P4 (printed_trans _ _ _ _ _ P5
    (printed_trans _ _ _ _ _ P6 (printed_trans _ _ _ _ _ P7 P8)))))) as [D1 D2 D3 D4 D5 D6].
  split; [|split; [congruence|split; [congruence|by rewrite D6, G7, app_nil_r]]].
  split; [congruence|]. split; [congruence|]. split; [unfold willing; by rewrite D3|lia].
Qed.

Lemma wc_files_spec fuel args contents w :
  all_files w args contents → willing w → 0 ≤ wnext w →
  Forall (fun c => (length c < fuel)%nat ∧ Z.of_nat (length c) < 2 ^ 31) contents →
  wp (Wc.files fuel args) (fun r w' => r = 0 ∧
    wout w' = wout w ++ concat (zip_with wc_line args contents) ∧ werr w' = werr w) w.
Proof.
  revert w contents; induction args as [|a args IH]; intros w contents Ha Hw Hn Hl;
    inversion Ha as [|? c ? contents' Hc Ha']; subst; cbn [Wc.files concat zip_with].
  { apply wp_ret. by rewrite app_nil_r. }
  apply Forall_cons in Hl as [[Hlc Hlm] Hl].
  apply wp_bind, (open_wp w a c); [done..|]. intros w1 H1 H2 H3 H4 H5 H6.
  rewrite (proj2 (Z.ltb_ge (wnext w) 0)) by lia.
  apply wp_bind. eapply wp_mono; [apply (wc_spec fuel (wnext w) a c w1 H1); [unfold willing; by rewrite H4|done..]|].
  intros e w2 (-> & (G1 & G2 & G3 & G4) & G5 & G6 & G7). apply wp_bind. unfold wp at 1. cbn [sys_close world_os].
  eapply wp_mono; [apply (IH _ contents'); cbn [wnext]; [|done|lia|done]|].
  { unfold all_files in *. cbn [wdir]. by rewrite G1, H2. }
  cbn [wout werr]. intros r w3 (-> & Ho & He). split; [done|]. rewrite Ho, He, G7, G2, H5, H3, app_assoc. done.
Qed.

(** C35: wc prints for each of its files the number of newlines, of maximal
    runs of characters that are not white space, and of bytes, in decimal and
    followed by the name, in whatever pieces the reads return the files; it
    exits with 0. *)
Theorem wc_counts fuel name args contents w :
  args ≠ [] → all_files w args contents → willing w → 0 ≤ wnext w →
  Forall (fun c => (length c < fuel)%nat ∧ Z.of_nat (length c) < 2 ^ 31) contents →
  wp (Wc.main fuel (name :: args)) (fun r w' => r = 0 ∧
    wout w' = wout w ++ concat (zip_with wc_line args contents) ∧ werr w' = werr w) w.
Proof.
  intros Hne Ha Hw Hn Hl. unfold Wc.main. rewrite (proj2 (Z.leb_gt _ _)) by (destruct args; [done|cbn; lia]).
  by apply wc_files_spec.
Qed.

Definition sample_world : world :=
  mk_world {[ bytes "f" := bytes "to be or" ++ [10] ++ bytes "not to be" ++ [10] ]} ∅ [1; 4; 2]%nat [] [] 3.

Lemma wc_counts_witness :
  wp (Wc.main 20 [bytes "wc"; bytes "f"]) (fun r w' => r = 0 ∧ wout w' = bytes "2 6 19 f" ++ [10] ∧ werr w' = []) sample_world.
Proof.
  apply (wc_counts 20 (bytes "wc") [bytes "f"] [bytes "to be or" ++ [10] ++ bytes "not to be" ++ [10]] sample_world).
  - done.
  - repeat constructor.
  - repeat constructor.
  - done.
  - apply Forall_cons_2; [|apply Forall_nil_2]. split; [|done]. vm_compute. lia.
Defined.

(** ** Programs by the calls they make *)

Inductive call := Link (old new : list Z) | Unlink (path : list Z) | Mkdir (path : list Z)
  | Mknod (path : list Z) | Kill (pid : Z) | Dup (fd : Z) | Fork | Exec (path : list Z) | Wait | Sleep (n : Z).

(** The calls made so far, and the results of those to come. *)
Record script := mk_script { made_calls : list call; results : list Z }.

Definition answer (c : call) : M script Z := fun s =>
  Ok (hd (-1) (results s), mk_script (made_calls s ++ [c]) (tl (results s))).

#[export] Instance script_os : Os script := {
  sys_read := fun _ _ => ret (-1, []); sys_write := fun _ l => ret (Z.of_nat (length l));
  sys_open := fun _ _ => ret 0; sys_close := fun _ => ret 0; sys_fstat := fun _ => ret (-1, mk_stat 0 0 0 0 0)
}.
#[export] Instance script_calls : Calls script := {
  sys_link := fun a b => answer (Link a b); sys_unlink := fun a => answer (Unlink a);
  sys_mkdir := fun a => answer (Mkdir a); sys_mknod := fun a _ _ => answer (Mknod a);
  sys_kill := fun p => answer (Kill p); sys_dup := fun fd => answer (Dup fd); sys_fork := answer Fork;
  sys_exec := fun a _ => do r <- answer (Exec a); ret (0 <=? r); sys_wait := answer Wait;
  sys_sleep := fun n => answer (Sleep n)
}.

Lemma say_script fd l s : User.putcs (W := script) fd l s = Ok (tt, s).
Proof. induction l as [|c l IH]; [done|]. cbn [User.putcs]. unfold bind at 1. cbn. exact IH. Qed.

(** The arguments up to the first one for which the call fails. *)
Fixpoint attempted (args : list (list Z)) (rs : list Z) : list (list Z) :=
  match args with
  | [] => []
  | a :: l => if hd (-1) rs <? 0 then [a] else a :: attempted l (tl rs)
  end.

Lemma rm_all_spec args s :
  wp (rm_all args) (fun _ s' => made_calls s' = made_calls s ++ map Unlink (attempted args (results s))) s.
Proof.
  revert s; induction args as [|a l IH]; intros s; cbn [rm_all attempted].
  { apply wp_ret. by rewrite app_nil_r. }
  apply wp_bind. unfold wp at 1. cbn [sys_unlink script_calls answer]. destruct (hd (-1) (results s) <? 0).
  - unfold wp, say. by rewrite say_script.
  - eapply wp_mono; [apply IH|]. cbn [made_calls results]. intros _ s' ->. by rewrite <- app_assoc.
Qed.
Lemma mkdir_all_spec args s :
  wp (mkdir_all args) (fun _ s' => made_calls s' = made_calls s ++ map Mkdir (attempted args (results s))) s.
Proof.
  revert s; induction args as [|a l IH]; intros s; cbn [mkdir_all attempted].
  { apply wp_ret. by rewrite app_nil_r. }
  apply wp_bind. unfold wp at 1. cbn [sys_mkdir script_calls answer]. destruct (hd (-1) (results s) <? 0).
  - unfold wp, say. by rewrite say_script.
  - eapply wp_mono; [apply IH|]. cbn [made_calls results]. intros _ s' ->. by rewrite <- app_assoc.
Qed.
Lemma kill_all_spec args s :
  wp (kill_all args) (fun _ s' => made_calls s' = made_calls s ++ map (fun a => Kill (atoi a)) args) s.
Proof.
  revert s; induction args as [|a l IH]; intros s; cbn [kill_all map].
  { apply wp_ret. by rewrite app_nil_r. }
  apply wp_bind. unfold wp at 1. cbn [sys_kill script_calls answer].
  eapply wp_mono; [apply IH|]. cbn [made_calls]. intros _ s' ->. by rewrite <- app_assoc.
Qed.

(** ** init *)

(** A shell with its pid, and what wait() returns of orphans while it runs. *)
Definition round : Type := Z * list Z.
Definition good_round (r : round) : Prop := 0 < r.1 ∧ Forall (fun p => 0 ≤ p ∧ p ≠ r.1) r.2.
Definition round_results (r : round) : list Z := r.1 :: r.2 ++ [r.1].
Definition round_calls (r : round) : list call := Fork :: map (fun _ => Wait) r.2 ++ [Wait].

Lemma wait_for_spec fuel pid ps rs cs :
  Forall (fun p => 0 ≤ p ∧ p ≠ pid) ps → (length ps < fuel)%nat →
  Init.wait_for fuel pid (mk_script cs (ps ++ [pid] ++ rs)) =
  Ok (None, mk_script (cs ++ map (fun _ => Wait) ps ++ [Wait]) rs).
Proof.
  revert ps cs; induction fuel as [|f IH]; intros ps cs Hp Hf; [lia|]. cbn [Init.wait_for].
  destruct ps as [|p ps]; unfold bind at 1; cbn [sys_wait script_calls answer hd tl app results made_calls map].
  - by rewrite Z.eqb_refl.
  - apply Forall_cons in Hp as [[Hp Hne] Hps]. rewrite (proj2 (Z.eqb_neq p pid)), (proj2 (Z.ltb_ge p 0)) by done.
    cbn [length] in Hf. rewrite (IH ps) by (done || lia). by rewrite <- app_assoc.
Qed.

(** init starts a shell, waits until that shell has exited, whatever orphans
    it is told of in between, and starts the next one, until fork() fails. *)
Theorem init_restarts_shell fuel rounds rs cs :
  Forall good_round rounds → (sum_list (map (fun r => S (length r.2)) rounds) < fuel)%nat →
  Init.shells fuel (mk_script cs (concat (map round_results rounds) ++ -1 :: rs)) =
  Ok (Init.Exits 1, mk_script (cs ++ concat (map round_calls rounds) ++ [Fork]) rs).
Proof.
  revert rounds cs; induction fuel as [|f IH]; intros rounds cs Hg Hf; [lia|]. cbn [Init.shells].
  unfold bind at 1, say. rewrite say_script. unfold bind at 1. cbn [sys_fork script_calls answer results made_calls].
  destruct rounds as [|[pid ps] rounds]; cbn [map concat app hd tl round_results fst snd].
  - change (-1 <? 0) with true. cbv iota. unfold bind. by rewrite say_script.
  - apply Forall_cons in Hg as [[Hpid Hps] Hg]. cbn [fst snd] in *. cbn [map sum_list] in Hf.
    rewrite (proj2 (Z.ltb_ge pid 0)), (proj2 (Z.eqb_neq pid 0)) by lia. unfold bind at 1.
    rewrite <- !app_assoc, wait_for_spec by (done || (cbn in Hf; lia)). rewrite IH by (done || (cbn in Hf; lia)).
    do 3 f_equal. unfold round_calls at 2. cbn [snd app]. rewrite <- !app_assoc. cbn [app]. done.
Qed.
