(* ===== verification/Pipe.v ===== *)
(** * Pipes (kernel/pipe.c)

    A pipe is a ring buffer whose two counters wrap around at 2^32.  The
    functions hold [pi->lock] from [acquire] to [release] or to [sleep], so
    each is modelled as the sections between these points: a section returns
    from the function or goes to sleep, and when the process is woken up the
    next section starts at the loop test.  [kill] does not take [pi->lock],
    so that [killed(pr)] can change during a section: it is a function of the
    iteration.

    The theorems show that the ring buffer implements a bounded queue and
    that, in every interleaving of readers, writers, closes and kills, bytes
    come out in the order they went in and nobody sleeps on a pipe that could
    serve it. *)

From stdpp Require Import functions relations.
From S2P Require Import Prelude Mem Ring Riscv Kalloc Vm VmByte.

Definition PIPESIZE : Z := 512.

Record pipe := mk_pipe {
  pdata : Z → Z; nread : Z; nwrite : Z; readopen : bool; writeopen : bool
}.

(** The channels [&pi->nread] and [&pi->nwrite]. *)
Inductive pchan := ReadChan | WriteChan.
#[export] Instance pchan_eq : EqDecision pchan.
Proof. solve_decision. Defined.

(** The pipe, physical memory, and which process sleeps on which channel. *)
Record pstate := mk_pstate { pi : pipe; pmem : kmem; asleep : Z → option pchan }.

(** A section ends with a return, or in [sleep] with [i] bytes done. *)
Inductive section_end := Returns (r : Z) | Waits (i : Z).

Definition upd_pipe (f : pipe → pipe) : M pstate unit :=
  modify (fun s => mk_pstate (f (pi s)) (pmem s) (asleep s)).
Definition with_mem {A} (c : M kmem A) : M pstate A :=
  lift pmem (fun s m => mk_pstate (pi s) m (asleep s)) c.

Definition push (ch : Z) (p : pipe) : pipe :=
  mk_pipe (<[nwrite p mod PIPESIZE := ch]> (pdata p)) (nread p) (u32 (nwrite p + 1)) (readopen p) (writeopen p).
Definition pop (p : pipe) : pipe :=
  mk_pipe (pdata p) (u32 (nread p + 1)) (nwrite p) (readopen p) (writeopen p).

Definition wake (c : pchan) (a : Z → option pchan) : Z → option pchan :=
  fun q => if decide (a q = Some c) then None else a q.
Definition wakeup (c : pchan) : M pstate unit :=
  modify (fun s => mk_pstate (pi s) (pmem s) (wake c (asleep s))).
Definition sleep (me : Z) (c : pchan) : M pstate unit :=
  modify (fun s => mk_pstate (pi s) (pmem s) (<[me := Some c]> (asleep s))).

(** The initialisation in [pipealloc]. *)
Definition pipe_init (p : pipe) : pipe := mk_pipe (pdata p) 0 0 true true.

Section pipe.
Context {KI : KernelImage}.

(** [pa] is the page of the pipe. *)
Definition pipeclose (pa : Z) (writable : bool) : M pstate unit :=
  do! (if writable then
         do! upd_pipe (fun p => mk_pipe (pdata p) (nread p) (nwrite p) (readopen p) false);
         wakeup ReadChan
       else
         do! upd_pipe (fun p => mk_pipe (pdata p) (nread p) (nwrite p) false (writeopen p));
         wakeup WriteChan);
  do p <- gets pi;
  if negb (readopen p) && negb (writeopen p) then with_mem (kfree pa) else ret tt.
End pipe.

(** The results come with the bytes copied in, and with the bytes taken from
    the buffer and given to [copyout]. *)
Fixpoint pipewrite_loop (fuel : nat) (killed : Z → bool) (me pt addr n i : Z) :
    M pstate (section_end * list Z) :=
  if i <? n then
    match fuel with
    | O => out_of_fuel
    | S f =>
        do p <- gets pi;
        if negb (readopen p) || killed i then ret (Returns (-1), [])
        else if nwrite p =? u32 (nread p + PIPESIZE) then
          do! wakeup ReadChan;
          do! sleep me WriteChan;
          ret (Waits i, [])
        else
          do '(r, ch) <- with_mem (copyin pt (u64 (addr + i)) 1);
          if r =? -1 then do! wakeup ReadChan; ret (Returns i, [])
          else
            do! upd_pipe (push (nth 0 ch 0));
            do '(e, l) <- pipewrite_loop f killed me pt addr n (i + 1);
            ret (e, nth 0 ch 0 :: l)
    end
  else do! wakeup ReadChan; ret (Returns i, []).
Definition pipewrite (killed : Z → bool) (me pt addr n i : Z) : M pstate (section_end * list Z) :=
  pipewrite_loop (Z.to_nat (n - i)) killed me pt addr n i.

Fixpoint piperead_copy (fuel : nat) (pt addr n i : Z) : M pstate (Z * list Z) :=
  if i <? n then
    match fuel with
    | O => out_of_fuel
    | S f =>
        do p <- gets pi;
        if nread p =? nwrite p then ret (i, [])
        else
          let ch := pdata p (nread p mod PIPESIZE) in
          do! upd_pipe pop;
          do r <- with_mem (copyout pt (u64 (addr + i)) [ch] 1);
          if r =? -1 then ret (i, [ch])
          else do '(i', l) <- piperead_copy f pt addr n (i + 1); ret (i', ch :: l)
    end
  else ret (i, []).
Definition piperead (killed : bool) (me pt addr n : Z) : M pstate (section_end * list Z) :=
  do p <- gets pi;
  if (nread p =? nwrite p) && writeopen p then
    if killed then ret (Returns (-1), [])
    else do! sleep me ReadChan; ret (Waits 0, [])
  else
    do '(i, l) <- piperead_copy (Z.to_nat n) pt addr n 0;
    do! wakeup WriteChan;
    ret (Returns i, l).

(** ** The ring buffer is a queue *)

Definition count (p : pipe) : Z := u32 (nwrite p - nread p).
Definition queue (p : pipe) : list Z := seg PIPESIZE (pdata p) (nread p) (count p).

Record pipe_ok (p : pipe) : Prop := {
  po_nread : 0 ≤ nread p < 2 ^ 32;
  po_nwrite : 0 ≤ nwrite p < 2 ^ 32;
  po_count : count p ≤ PIPESIZE
}.

Lemma count_range p : 0 ≤ count p < 2 ^ 32.
Proof. apply u32_range. Qed.

Lemma length_queue p : Z.of_nat (length (queue p)) = count p.
Proof. apply length_seg, count_range. Qed.

Ltac wrap := unfold count, u32, PIPESIZE in *; change (2 ^ 32) with 4294967296 in *; zdm.

Lemma full_test p : pipe_ok p → (nwrite p =? u32 (nread p + PIPESIZE)) = (count p =? PIPESIZE).
Proof.
  intros [H1 H2 H3]. apply eq_iff_eq_true. rewrite !Z.eqb_eq. split; intros E; wrap.
Qed.

Lemma empty_test p : pipe_ok p → (nread p =? nwrite p) = (count p =? 0).
Proof. intros [H1 H2 H3]. apply eq_iff_eq_true. rewrite !Z.eqb_eq. split; intros E; wrap. Qed.

Lemma pipe_init_ok p : pipe_ok (pipe_init p) ∧ queue (pipe_init p) = [].
Proof. split; [|done]. split; cbn; lia || by vm_compute. Qed.

Lemma push_queue p ch :
  pipe_ok p → count p < PIPESIZE → pipe_ok (push ch p) ∧ queue (push ch p) = queue p ++ [ch].
Proof.
  intros [H1 H2 H3] Hlt.
  assert (Hc : count (push ch p) = count p + 1) by (unfold count, push in *; cbn; wrap).
  split.
  - split; cbn; [done|apply u32_range|rewrite Hc; lia].
  - unfold queue. rewrite Hc, <- (seg_snoc PIPESIZE) by (done || (pose proof (count_range p); lia)).
    cbn [push pdata nread]. do 2 f_equal. wrap.
Qed.

Lemma pop_queue p :
  pipe_ok p → count p ≠ 0 →
  pipe_ok (pop p) ∧ queue p = pdata p (nread p mod PIPESIZE) :: queue (pop p).
Proof.
  intros [H1 H2 H3] Hne.
  assert (Hc : count (pop p) = count p - 1) by (unfold count, pop in *; cbn; wrap).
  split.
  - split; cbn; [apply u32_range|done|rewrite Hc; lia].
  - unfold queue. rewrite Hc. pose proof (count_range p). rewrite (seg_cons PIPESIZE) by (done || lia).
    f_equal. apply (seg_mod PIPESIZE); [done|]. cbn. wrap.
Qed.

(** ** What a section does *)

Lemma u64_arg a : 0 ≤ u64 a < 2 ^ 64.
Proof. apply u64_range. Qed.

(** A write section appends the bytes it copied in, and ends by returning
    with a wakeup of the readers, by returning -1 without one, or by waiting
    with the buffer full. *)
Definition wrote (killed : Z → bool) (me n i : Z) (s : pstate) (e : section_end) (l : list Z)
    (s' : pstate) : Prop :=
  pipe_ok (pi s') ∧ queue (pi s') = queue (pi s) ++ l ∧
  readopen (pi s') = readopen (pi s) ∧ writeopen (pi s') = writeopen (pi s) ∧ pmem s' = pmem s ∧
  let j := i + Z.of_nat (length l) in
  match e with
  | Returns r =>
      (r = -1 ∧ (readopen (pi s) = false ∧ l = [] ∨ killed j = true) ∧ asleep s' = asleep s) ∨
      (r = j ∧ asleep s' = wake ReadChan (asleep s))
  | Waits k =>
      k = j ∧ j < n ∧ count (pi s') = PIPESIZE ∧ readopen (pi s) = true ∧
      asleep s' = <[me := Some WriteChan]> (wake ReadChan (asleep s))
  end.

Lemma pipewrite_loop_spec fuel killed me pt addr n i s :
  pipe_ok (pi s) → n - i ≤ Z.of_nat fuel →
  wp (pipewrite_loop fuel killed me pt addr n i)
     (fun '(e, l) s' => wrote killed me n i s e l s') s.
Proof.
  revert i s; induction fuel as [|f IH]; intros i s Hok Hf; cbn [pipewrite_loop].
  all: destruct (Z.ltb_spec i n) as [Hlt|Hge]; try lia.
  1,3: apply wp_bind, wp_modify, wp_ret; unfold wrote; cbn; rewrite app_nil_r, Z.add_0_r;
       repeat (split; [done|]); by right.
  apply wp_bind, wp_gets. destruct (negb (readopen (pi s)) || killed i) eqn:Er.
  { apply wp_ret. unfold wrote. cbn. rewrite app_nil_r, Z.add_0_r. repeat (split; [done|]). left.
    split; [done|]. split; [|done]. apply orb_prop in Er as [Er|Er]; [left; split; [by destruct (readopen (pi s))|done]|by right]. }
  apply orb_false_elim in Er as [Er _]. apply negb_false_iff in Er. rewrite full_test by done.
  destruct (Z.eqb_spec (count (pi s)) PIPESIZE) as [Hfull|Hnf].
  { apply wp_bind, wp_modify, wp_bind, wp_modify, wp_ret. unfold wrote. cbn.
    rewrite app_nil_r, Z.add_0_r. repeat (split; [done|]). done. }
  apply wp_bind, wp_lift. destruct (copyin_one pt (u64 (addr + i)) (pmem s) (u64_arg _)) as (r & ch & E).
  eapply wp_run; [exact E|]. cbv beta iota. destruct (r =? -1).
  { apply wp_bind, wp_modify, wp_ret. unfold wrote. cbn. rewrite app_nil_r, Z.add_0_r.
    repeat (split; [done|]). by right. }
  destruct (push_queue (pi s) (nth 0 ch 0) Hok ltac:(pose proof (po_count _ Hok); lia)) as [Hok' Hq].
  apply wp_bind, wp_modify, wp_bind. eapply wp_mono; [apply IH; [done|lia]|]. cbn.
  intros [e l] s' (Ho & Hq' & H1 & H2 & H3 & He). apply wp_ret. unfold wrote. cbn in *.
  rewrite Hq', Hq, <- app_assoc. do 2 (split; [done|]). repeat (split; [congruence|]).
  replace (i + Z.of_nat (S (length l))) with (i + 1 + Z.of_nat (length l)) by lia.
  destruct e as [r'|k]; [|done]. destruct He as [(-> & [[Hx _]|Hx] & Ha)|Hr]; [congruence| |by right].
  left. split; [done|]. split; [by right|done].
Qed.

(** A read section takes a prefix of the queue and wakes the writers, or
    waits on an empty pipe that a writer has open. *)
Definition was_read (killed : bool) (me : Z) (s : pstate) (e : section_end) (l : list Z) (s' : pstate) : Prop :=
  pipe_ok (pi s') ∧ queue (pi s) = l ++ queue (pi s') ∧
  readopen (pi s') = readopen (pi s) ∧ writeopen (pi s') = writeopen (pi s) ∧
  match e with
  | Returns r =>
      (r = -1 ∧ killed = true ∧ l = [] ∧ asleep s' = asleep s) ∨
      (r ≤ Z.of_nat (length l) ≤ r + 1 ∧ asleep s' = wake WriteChan (asleep s))
  | Waits _ =>
      l = [] ∧ queue (pi s) = [] ∧ writeopen (pi s) = true ∧
      asleep s' = <[me := Some ReadChan]> (asleep s)
  end.

Lemma queue_nil p : queue p = [] ↔ count p = 0.
Proof. rewrite <- length_queue. split; [by intros ->|]. intros H. apply nil_length_inv. lia. Qed.

Lemma piperead_copy_spec fuel pt addr n i s :
  pipe_ok (pi s) → n - i ≤ Z.of_nat fuel →
  wp (piperead_copy fuel pt addr n i) (fun '(j, l) s' =>
    pipe_ok (pi s') ∧ queue (pi s) = l ++ queue (pi s') ∧
    readopen (pi s') = readopen (pi s) ∧ writeopen (pi s') = writeopen (pi s) ∧
    asleep s' = asleep s ∧ i ≤ j ∧ j - i ≤ Z.of_nat (length l) ≤ j - i + 1) s.
Proof.
  revert i s; induction fuel as [|f IH]; intros i s Hok Hf; cbn [piperead_copy].
  all: destruct (Z.ltb_spec i n) as [Hlt|Hge]; try lia.
  1,3: apply wp_ret; cbn; repeat (split; [done || lia|]); lia.
  apply wp_bind, wp_gets. rewrite empty_test by done.
  destruct (Z.eqb_spec (count (pi s)) 0) as [He|He].
  { apply wp_ret. cbn. repeat (split; [done || lia|]). lia. }
  destruct (pop_queue (pi s) Hok He) as [Hok' Hq]. cbv zeta.
  apply wp_bind, wp_modify, wp_bind, wp_lift. cbn.
  destruct (copyout_one pt (u64 (addr + i)) (pdata (pi s) (nread (pi s) mod PIPESIZE)) (pmem s) (u64_arg _))
    as (r & m & E).
  eapply wp_run; [exact E|]. cbv beta iota. destruct (r =? -1).
  { apply wp_ret. cbn. split; [done|]. split; [by rewrite Hq|]. repeat (split; [done|]). lia. }
  apply wp_bind. eapply wp_mono; [apply IH; [done|lia]|]. cbn.
  intros [j l] s' (Ho & Hq' & H1 & H2 & H3 & Hj & Hl). apply wp_ret. cbn [length].
  split; [done|]. split; [by rewrite Hq, Hq'|]. do 3 (split; [congruence|]). lia.
Qed.

Lemma piperead_spec killed me pt addr n s :
  pipe_ok (pi s) →
  wp (piperead killed me pt addr n) (fun '(e, l) s' => was_read killed me s e l s') s.
Proof.
  intros Hok. unfold piperead. apply wp_bind, wp_gets. rewrite empty_test by done.
  destruct ((count (pi s) =? 0) && writeopen (pi s)) eqn:Ee.
  - apply andb_prop in Ee as [Ec Ew]. apply Z.eqb_eq, queue_nil in Ec. destruct killed.
    + apply wp_ret. unfold was_read. cbn. repeat (split; [done|]). by left.
    + apply wp_bind, wp_modify, wp_ret. unfold was_read. cbn. repeat (split; [done|]). done.
  - apply wp_bind. eapply wp_mono; [apply (piperead_copy_spec _ pt addr n 0); [done|lia]|].
    intros [j l] s' (Ho & Hq & H1 & H2 & H3 & Hj & Hl). apply wp_bind, wp_modify, wp_ret.
    unfold was_read. cbn. repeat (split; [done|]). right. rewrite H3. split; [lia|done].
Qed.

(** ** Interleavings

    Processes call [pipewrite] and [piperead]; a process that is not asleep
    runs the next section of its call.  [put] and [got] are all bytes copied
    into and taken out of the pipe so far.  [cut] allows a write section to
    be ended by a kill after it has written something. *)
Inductive pcall := NoCall | InWrite (pt addr n i : Z) | InRead (pt addr n : Z).

Record psys := mk_psys { pst : pstate; calls : Z → pcall; put : list Z; got : list Z }.

Definition after_write (pt addr n : Z) (e : section_end) : pcall :=
  match e with Returns _ => NoCall | Waits j => InWrite pt addr n j end.
Definition after_read (pt addr n : Z) (e : section_end) : pcall :=
  match e with Returns _ => NoCall | Waits _ => InRead pt addr n end.

Inductive pstep (cut : bool) (x : psys) : psys → Prop :=
| p_call q c :
    calls x q = NoCall → asleep (pst x) q = None →
    (∃ pt addr n, c = InWrite pt addr n 0 ∨ c = InRead pt addr n) →
    pstep cut x (mk_psys (pst x) (<[q := c]> (calls x)) (put x) (got x))
| p_write q killed pt addr n i e l s' :
    calls x q = InWrite pt addr n i → asleep (pst x) q = None →
    (cut = false → ∀ j, i < j → killed j = false) →
    pipewrite killed q pt addr n i (pst x) = Ok ((e, l), s') →
    pstep cut x (mk_psys s' (<[q := after_write pt addr n e]> (calls x)) (put x ++ l) (got x))
| p_read q killed pt addr n e l s' :
    calls x q = InRead pt addr n → asleep (pst x) q = None →
    piperead killed q pt addr n (pst x) = Ok ((e, l), s') →
    pstep cut x (mk_psys s' (<[q := after_read pt addr n e]> (calls x)) (put x) (got x ++ l))
| p_kill q :
    pstep cut x (mk_psys (mk_pstate (pi (pst x)) (pmem (pst x)) (<[q := None]> (asleep (pst x))))
      (calls x) (put x) (got x))
| p_close (KI : KernelImage) pa writable s' :
    pipeclose pa writable (pst x) = Ok (tt, s') → readopen (pi s') || writeopen (pi s') = true →
    pstep cut x (mk_psys s' (calls x) (put x) (got x))
| p_memory m :
    pstep cut x (mk_psys (mk_pstate (pi (pst x)) m (asleep (pst x))) (calls x) (put x) (got x)).

(** A new pipe, with nobody using it yet. *)
Definition pipe_start (x : psys) : Prop :=
  (∃ p, pi (pst x) = pipe_init p) ∧ (∀ q, asleep (pst x) q = None) ∧ put x = [] ∧ got x = [].

Record pipe_inv (cut : bool) (x : psys) : Prop := {
  pv_ok : pipe_ok (pi (pst x));
  pv_fifo : put x = got x ++ queue (pi (pst x));
  pv_write : ∀ q, asleep (pst x) q = Some WriteChan →
    count (pi (pst x)) = PIPESIZE ∧ readopen (pi (pst x)) = true;
  pv_read : cut = false → ∀ q, asleep (pst x) q = Some ReadChan →
    count (pi (pst x)) = 0 ∧ writeopen (pi (pst x)) = true
}.

Lemma wake_some c a q c' : wake c a q = Some c' → a q = Some c' ∧ c' ≠ c.
Proof. unfold wake. case_decide; [done|]. intros E. split; [done|]. congruence. Qed.

Lemma pipe_inv_write cut x q killed pt addr n i e l s' :
  pipe_inv cut x → (cut = false → ∀ j, i < j → killed j = false) →
  wrote killed q n i (pst x) e l s' →
  pipe_inv cut (mk_psys s' (<[q := after_write pt addr n e]> (calls x)) (put x ++ l) (got x)).
Proof.
  intros [Hok Hf Hw Hr] Hcut (Ho & Hq & H1 & H2 & _ & He). cbv zeta in He.
  pose proof (length_queue (pi s')) as Hl'. rewrite Hq, length_app in Hl'.
  pose proof (length_queue (pi (pst x))) as Hl. pose proof (po_count _ Ho).
  split; cbn [pst put got calls]; [done|by rewrite Hf, Hq, app_assoc| |].
  - intros q' Hq'. rewrite H1. destruct e as [r|k].
    + destruct He as [(-> & _ & Ha)|[-> Ha]]; rewrite Ha in Hq'; [|apply wake_some in Hq' as [Hq' _]];
        apply Hw in Hq' as [Hc ?]; split; (done || lia).
    + destruct He as (-> & _ & Hc & Hro & Ha). done.
  - intros Hc q' Hq'. rewrite H2. destruct e as [r|k].
    + destruct He as [(-> & Hkl & Ha)|[-> Ha]]; rewrite Ha in Hq'; [|by apply wake_some in Hq' as [_ ?]].
      destruct (Hr Hc q' Hq') as [Hz ?]. split; [|done].
      assert (length l = 0)%nat; [|lia]. destruct l as [|b l]; [done|]. exfalso.
      destruct Hkl as [[_ ?]|Hk]; [done|]. rewrite Hcut in Hk; [done|done|cbn; lia].
    + destruct He as (-> & _ & _ & _ & Ha). rewrite Ha in Hq'.
      destruct (decide (q' = q)) as [->|Hne]; [by rewrite fn_lookup_insert in Hq'|].
      rewrite fn_lookup_insert_ne in Hq' by done. by apply wake_some in Hq' as [_ ?].
Qed.

Lemma pipe_inv_read cut x q killed pt addr n e l s' :
  pipe_inv cut x → was_read killed q (pst x) e l s' →
  pipe_inv cut (mk_psys s' (<[q := after_read pt addr n e]> (calls x)) (put x) (got x ++ l)).
Proof.
  intros [Hok Hf Hw Hr] (Ho & Hq & H1 & H2 & He).
  pose proof (length_queue (pi s')) as Hl'.
  pose proof (length_queue (pi (pst x))) as Hl. rewrite Hq, length_app in Hl.
  split; cbn [pst put got calls]; [done|by rewrite Hf, Hq, app_assoc| |].
  - intros q' Hq'. rewrite H1. destruct e as [r|k].
    + destruct He as [(-> & _ & -> & Ha)|[_ Ha]]; rewrite Ha in Hq'; [|by apply wake_some in Hq' as [_ ?]].
      apply Hw in Hq' as [Hc ?]. split; [cbn in Hl; lia|done].
    + destruct He as (-> & _ & _ & Ha). rewrite Ha in Hq'.
      destruct (decide (q' = q)) as [->|Hne]; [by rewrite fn_lookup_insert in Hq'|].
      rewrite fn_lookup_insert_ne in Hq' by done. apply Hw in Hq' as [Hc ?]. split; [cbn in Hl; lia|done].
  - intros Hc q' Hq'. rewrite H2. pose proof (count_range (pi s')). destruct e as [r|k].
    + destruct He as [(-> & _ & -> & Ha)|[_ Ha]]; rewrite Ha in Hq'; [|apply wake_some in Hq' as [Hq' _]];
        destruct (Hr Hc q' Hq') as [Hz ?]; (split; [lia|done]).
    + destruct He as (-> & Hnil & Hwo & Ha). rewrite Hq in Hnil. cbn in Hnil.
      split; [by apply queue_nil|done].
Qed.

Lemma pipe_inv_close cut x (KI : KernelImage) pa writable s' :
  pipe_inv cut x → pipeclose pa writable (pst x) = Ok (tt, s') →
  readopen (pi s') || writeopen (pi s') = true →
  pipe_inv cut (mk_psys s' (calls x) (put x) (got x)).
Proof.
  intros [Hok Hf Hw Hr] Hc Hopen. unfold pipeclose in Hc.
  assert (Hs : ∃ m p, s' = mk_pstate p m (wake (if writable then ReadChan else WriteChan) (asleep (pst x))) ∧
    p = (if writable then mk_pipe (pdata (pi (pst x))) (nread (pi (pst x))) (nwrite (pi (pst x)))
            (readopen (pi (pst x))) false
         else mk_pipe (pdata (pi (pst x))) (nread (pi (pst x))) (nwrite (pi (pst x))) false
            (writeopen (pi (pst x))))).
  { destruct writable; unfold bind, upd_pipe, modify, wakeup, modify, gets in Hc; cbn in Hc;
      (match type of Hc with context [if ?b then _ else _] => destruct b end; [|injection Hc as <-; eexists _, _; by split]);
      unfold with_mem, lift in Hc; cbn in Hc; destruct (kfree pa (pmem (pst x))) as [[[] m]| | |];
      try done; injection Hc as <-; eexists _, _; by split. }
  destruct Hs as (m & p & -> & ->). destruct Hok as [P1 P2 P3].
  assert (∀ q' c, wake (if writable then ReadChan else WriteChan) (asleep (pst x)) q' = Some c →
    asleep (pst x) q' = Some c ∧ c ≠ if writable then ReadChan else WriteChan) as Ha
    by (intros q' c; apply wake_some).
  destruct writable; cbn in Hopen |- *; split; cbn; try done.
  - intros q' Hq'. apply Ha in Hq' as [Hq' _]. by apply Hw in Hq'.
  - intros Hcut q' Hq'. by apply Ha in Hq' as [_ ?].
  - intros q' Hq'. by apply Ha in Hq' as [_ ?].
  - intros Hcut q' Hq'. apply Ha in Hq' as [Hq' _]. by apply (Hr Hcut) in Hq'.
Qed.

Lemma pipe_inv_step cut x x' : pipe_inv cut x → pstep cut x x' → pipe_inv cut x'.
Proof.
  intros Hi Hs. destruct Hs as [q c _ _ _|q killed pt addr n i e l s' _ _ Hcut Hrun|q killed pt addr n e l s' _ _ Hrun
    |q|KI pa writable s' Hrun Hopen|m].
  - by destruct Hi.
  - apply (pipe_inv_write cut x q killed pt addr n i e l s' Hi Hcut).
    by apply (wp_elim _ _ _ _ _ (pipewrite_loop_spec (Z.to_nat (n - i)) killed q pt addr n i (pst x) (pv_ok _ _ Hi) ltac:(lia)) Hrun).
  - apply (pipe_inv_read cut x q killed pt addr n e l s' Hi).
    by apply (wp_elim _ _ _ _ _ (piperead_spec killed q pt addr n (pst x) (pv_ok _ _ Hi)) Hrun).
  - destruct Hi as [Hok Hf Hw Hr]. split; cbn; try done.
    + intros q'. destruct (decide (q' = q)) as [->|]; [by rewrite fn_lookup_insert|].
      rewrite fn_lookup_insert_ne by done. apply Hw.
    + intros Hc q'. destruct (decide (q' = q)) as [->|]; [by rewrite fn_lookup_insert|].
      rewrite fn_lookup_insert_ne by done. by apply Hr.
  - by eapply pipe_inv_close.
  - by destruct Hi.
Qed.

Lemma pipe_inv_start cut x : pipe_start x → pipe_inv cut x.
Proof.
  intros ((p & Hp) & Ha & Hput & Hgot). destruct (pipe_init_ok p) as [Hok Hq].
  split; rewrite ?Hp; try done; [by rewrite Hput, Hgot, Hq|..]; intros; by rewrite Ha in *.
Qed.

Lemma pipe_reachable cut x y : pipe_start x → rtc (pstep cut) x y → pipe_inv cut y.
Proof.
  intros H0 Hs. apply (pipe_inv_start cut) in H0. induction Hs as [|x y z Hs _ IH]; [done|].
  by apply IH, (pipe_inv_step cut x).
Qed.

(** C24: Bytes leave a pipe in the order in which they entered it, none is
    lost or duplicated and at most PIPESIZE are inside, in every interleaving
    of readers, writers, closes and kills, also when the 32-bit counters wrap
    around; a writer that sleeps does so on a full pipe with an open reader. *)
Theorem pipe_fifo cut x y :
  pipe_start x → rtc (pstep cut) x y →
  put y = got y ++ queue (pi (pst y)) ∧ (length (queue (pi (pst y))) ≤ 512)%nat ∧
  ∀ q, asleep (pst y) q = Some WriteChan →
    length (queue (pi (pst y))) = 512%nat ∧ readopen (pi (pst y)) = true.
Proof.
  intros H0 Hs. destruct (pipe_reachable cut x y H0 Hs) as [Hok Hf Hw _].
  pose proof (length_queue (pi (pst y))). pose proof (po_count _ Hok). unfold PIPESIZE in *.
  split; [done|]. split; [lia|]. intros q [Hc ?]%Hw. unfold PIPESIZE in Hc. split; [lia|done].
Qed.

(** C25: A reader sleeps only on an empty pipe with an open writer, so that a
    reader and a writer never wait for each other, if no kill cuts a write
    short after it has put bytes into the pipe. *)
Theorem pipe_no_deadlock x y q :
  pipe_start x → rtc (pstep false) x y → asleep (pst y) q = Some ReadChan →
  queue (pi (pst y)) = [] ∧ writeopen (pi (pst y)) = true ∧
  ∀ q', asleep (pst y) q' ≠ Some WriteChan.
Proof.
  intros H0 Hs Hq. destruct (pipe_reachable false x y H0 Hs) as [Hok Hf Hw Hr].
  destruct (Hr eq_refl q Hq) as [Hc ?]. split; [by apply queue_nil|]. split; [done|].
  intros q' [Hx _]%Hw. rewrite Hc in Hx. done.
Qed.

(** ** Examples: a page table at 4096 that maps the page at 0 to 16384 *)

Definition sample_mem : kmem :=
  mk_kmem (st8 (st64 (st64 (st64 (fun _ => 0) 4096 (Z.lor (PA2PTE 8192) PTE_V))
    8192 (Z.lor (PA2PTE 12288) PTE_V))
    12288 (Z.lor (PA2PTE 16384) (Z.lor PTE_V (Z.lor PTE_U (Z.lor PTE_R PTE_W))))) 16384 7) 0.

Definition sample_pipe : psys :=
  mk_psys (mk_pstate (pipe_init (mk_pipe (fun _ => 0) 0 0 false false)) sample_mem (fun _ => None))
    (fun _ => NoCall) [] [].

Lemma sample_start : pipe_start sample_pipe.
Proof. split; [by eexists|]. done. Qed.

(** Process 1 reads from the empty pipe. *)
Definition sample_waiting : psys :=
  mk_psys (mk_pstate (pi (pst sample_pipe)) sample_mem (<[1 := Some ReadChan]> (fun _ => None)))
    (<[1 := InRead 4096 0 10]> (<[1 := InRead 4096 0 10]> (fun _ => NoCall))) [] [].

Lemma sample_waits cut : rtc (pstep cut) sample_pipe sample_waiting.
Proof.
  eapply rtc_l; [apply (p_call cut sample_pipe 1 (InRead 4096 0 10)); [done..|by eexists _, _, _; right]|].
  eapply rtc_l; [|apply rtc_refl].
  set (x1 := mk_psys _ _ _ _).
  apply (p_read cut x1 1 false 4096 0 10 (Waits 0) [] (pst sample_waiting));
    [apply fn_lookup_insert|done|reflexivity].
Qed.

Lemma pipe_fifo_witness :
  put sample_waiting = got sample_waiting ++ queue (pi (pst sample_waiting)).
Proof. apply (pipe_fifo true sample_pipe sample_waiting sample_start (sample_waits true)). Defined.

Lemma pipe_no_deadlock_witness : queue (pi (pst sample_waiting)) = [].
Proof.
  apply (pipe_no_deadlock sample_pipe sample_waiting 1 sample_start (sample_waits false)).
  apply (fn_lookup_insert (fun _ => None)).
Defined.

(** C33: The condition is needed: a writer that is killed after it has put a
    byte into the pipe returns without waking the readers, and a reader goes
    on sleeping although the pipe is not empty. *)
Theorem pipe_kill_loses_wakeup :
  ∃ x y, pipe_start x ∧ rtc (pstep true) x y ∧
    asleep (pst y) 1 = Some ReadChan ∧ queue (pi (pst y)) = [7] ∧ ∀ q, calls y q ≠ InWrite 4096 0 2 0.
Proof.
  exists sample_pipe.
  set (x1 := mk_psys (pst sample_waiting) (<[2 := InWrite 4096 0 2 0]> (calls sample_waiting)) [] []).
  destruct (pipewrite (Z.eqb 1) 2 4096 0 2 0 (pst x1)) as [[[e l] s']| | |] eqn:E; [|vm_compute in E; done..].
  exists (mk_psys s' (<[2 := after_write 4096 0 2 e]> (calls x1)) ([] ++ l) []).
  split; [apply sample_start|]. split.
  - etrans; [apply sample_waits|].
    eapply rtc_l; [apply (p_call true sample_waiting 2 (InWrite 4096 0 2 0)); [done..|by eexists _, _, _; left]|].
    eapply rtc_l; [|apply rtc_refl].
    apply (p_write true x1 2 (Z.eqb 1) 4096 0 2 0 e l s'); [apply fn_lookup_insert|done|done|exact E].
  - vm_compute in E. injection E as <- <- <-. cbn [pst pi asleep calls]. split; [done|].
    split; [by vm_compute|]. intros q. destruct (decide (q = 2)) as [->|Hne].
    + by rewrite fn_lookup_insert.
    + unfold x1. cbn [calls sample_waiting]. rewrite !fn_lookup_insert_ne by done.
      destruct (decide (q = 1)) as [->|Hne1]; [by rewrite fn_lookup_insert|by rewrite !fn_lookup_insert_ne].
Qed.
