(* ===== verification/Uart.v ===== *)
(** * UART driver (kernel/uart.c)

    The device is seen through its registers: [thr] is the sequence of bytes
    written to the transmit holding register, and how often the line status
    register reads idle during a call is an argument of the model.  Bytes for
    [write] go through a ring buffer with 64-bit counters; the kernel's own
    output goes to the register directly. *)

From stdpp Require Import functions relations.
From S2P Require Import Prelude Ring.

Definition UART_TX_BUF_SIZE : Z := 32.

(** The registers that [uartinit] writes, with the values. *)
Definition IER : Z := 1.
Definition FCR : Z := 2.
Definition LCR : Z := 3.
Definition IER_RX_ENABLE : Z := Z.shiftl 1 0.
Definition IER_TX_ENABLE : Z := Z.shiftl 1 1.
Definition FCR_FIFO_ENABLE : Z := Z.shiftl 1 0.
Definition FCR_FIFO_CLEAR : Z := Z.shiftl 3 1.
Definition LCR_EIGHT_BITS : Z := Z.shiftl 3 0.
Definition LCR_BAUD_LATCH : Z := Z.shiftl 1 7.

Definition uartinit : list (Z * Z) :=
  [(IER, 0x00); (LCR, LCR_BAUD_LATCH); (0, 0x03); (1, 0x00); (LCR, LCR_EIGHT_BITS);
   (FCR, Z.lor FCR_FIFO_ENABLE FCR_FIFO_CLEAR); (IER, Z.lor IER_TX_ENABLE IER_RX_ENABLE)].

(** A byte sent for [write], or by [uartputc_sync]. *)
Inductive sent := FromBuffer (c : Z) | Direct (c : Z).

(** [waiting]: the processes that sleep on [&uart_tx_r]. *)
Record uart := mk_uart {
  uart_tx_buf : Z → Z; uart_tx_w : Z; uart_tx_r : Z; thr : list sent; waiting : Z → bool
}.

(** [idle]: how often LSR reads idle. *)
Fixpoint uartstart (idle : nat) : M uart unit :=
  do u <- get;
  if uart_tx_w u =? uart_tx_r u then ret tt
  else
    match idle with
    | O => ret tt
    | S k =>
        let c := uart_tx_buf u (uart_tx_r u mod UART_TX_BUF_SIZE) in
        do! put (mk_uart (uart_tx_buf u) (uart_tx_w u) (u64 (uart_tx_r u + 1))
                   (thr u ++ [FromBuffer c]) (fun _ => false));
        uartstart k
    end.

(** The result is false when the process [me] goes to sleep on a full
    buffer; it runs the function's loop test again when it is woken up. *)
Definition uartputc (idle : nat) (me c : Z) : M uart bool :=
  do u <- get;
  if uart_tx_w u =? u64 (uart_tx_r u + UART_TX_BUF_SIZE) then
    do! put (mk_uart (uart_tx_buf u) (uart_tx_w u) (uart_tx_r u) (thr u) (<[me := true]> (waiting u)));
    ret false
  else
    do! put (mk_uart (<[uart_tx_w u mod UART_TX_BUF_SIZE := u8 c]> (uart_tx_buf u))
               (u64 (uart_tx_w u + 1)) (uart_tx_r u) (thr u) (waiting u));
    do! uartstart idle;
    ret true.

(** After the loop that waits for the register. *)
Definition uartputc_sync (c : Z) : M uart unit :=
  modify (fun u => mk_uart (uart_tx_buf u) (uart_tx_w u) (uart_tx_r u) (thr u ++ [Direct (u8 c)]) (waiting u)).

(** [rx]: the input bytes the device holds. *)
Definition uartgetc (rx : list Z) : Z * list Z :=
  match rx with [] => (-1, []) | c :: rx' => (c, rx') end.

(** ** Theorems *)

Definition tx_count (u : uart) : Z := u64 (uart_tx_w u - uart_tx_r u).
Definition tx_queue (u : uart) : list Z := seg UART_TX_BUF_SIZE (uart_tx_buf u) (uart_tx_r u) (tx_count u).

Record uart_ok (u : uart) : Prop := {
  uo_w : 0 ≤ uart_tx_w u < 2 ^ 64;
  uo_r : 0 ≤ uart_tx_r u < 2 ^ 64;
  uo_count : tx_count u ≤ UART_TX_BUF_SIZE;
  uo_wait : ∀ q, waiting u q = true → tx_count u = UART_TX_BUF_SIZE
}.

(** The bytes sent from the buffer. *)
Fixpoint buffered (l : list sent) : list Z :=
  match l with [] => [] | FromBuffer c :: l' => c :: buffered l' | Direct _ :: l' => buffered l' end.

Lemma buffered_app l1 l2 : buffered (l1 ++ l2) = buffered l1 ++ buffered l2.
Proof. induction l1 as [|[c|c] l1 IH]; cbn; [done|by rewrite IH|done]. Qed.

Ltac wrap64 := unfold tx_count, u64, UART_TX_BUF_SIZE in *; change (2 ^ 64) with 18446744073709551616 in *; zdm.

(** What has been accepted and not yet lost: sent or still in the buffer. *)
Definition accepted (u : uart) : list Z := buffered (thr u) ++ tx_queue u.

Lemma uartstart_spec idle u :
  uart_ok u →
  wp (uartstart idle) (fun _ u' => uart_ok u' ∧ accepted u' = accepted u ∧
    ∃ k, (k ≤ idle)%nat ∧ thr u' = thr u ++ map FromBuffer (take k (tx_queue u)) ∧
      tx_queue u' = drop k (tx_queue u) ∧ (k < idle → tx_queue u' = [])%nat) u.
Proof.
  revert u; induction idle as [|k IH]; intros u Hok; cbn [uartstart]; apply wp_bind, wp_get.
  - case_test; apply wp_ret; (split; [done|]); (split; [done|]); exists 0%nat;
      cbn; rewrite app_nil_r, drop_0; repeat (split; [done || lia|]); lia.
  - destruct (Z.eqb_spec (uart_tx_w u) (uart_tx_r u)) as [E|E].
    { apply wp_ret. split; [done|]. split; [done|]. exists 0%nat. cbn. rewrite app_nil_r, drop_0.
      repeat (split; [done || lia|]). intros _. unfold tx_queue. replace (tx_count u) with 0; [done|].
      unfold tx_count. rewrite E, Z.sub_diag. done. }
    destruct Hok as [Hw Hr Hc Hwt]. assert (Hpos : 0 < tx_count u) by wrap64.
    assert (Hq : tx_queue u = uart_tx_buf u (uart_tx_r u mod UART_TX_BUF_SIZE) ::
      seg UART_TX_BUF_SIZE (uart_tx_buf u) (uart_tx_r u + 1) (tx_count u - 1))
      by (apply seg_cons; done).
    apply wp_bind. unfold put. eapply wp_run; [done|]. cbv beta.
    set (u1 := mk_uart _ _ _ _ _).
    assert (Hc1 : tx_count u1 = tx_count u - 1) by (unfold tx_count, u1 in *; cbn; wrap64).
    assert (Hq1 : tx_queue u = uart_tx_buf u (uart_tx_r u mod UART_TX_BUF_SIZE) :: tx_queue u1).
    { rewrite Hq. f_equal. unfold tx_queue. rewrite Hc1. apply seg_mod; [done|]. cbn. wrap64. }
    assert (Hok1 : uart_ok u1).
    { split; [done|apply u64_range|lia|done]. }
    eapply wp_mono; [by apply IH|]. intros _ u' (Hok' & Ha & j & Hj & Ht & Hd & He).
    split; [done|]. split.
    { rewrite Ha. unfold accepted, u1 at 1. cbn [thr]. rewrite buffered_app, Hq1, <- app_assoc. done. }
    exists (S j). rewrite Hq1. split; [lia|]. split; [|split; [done|]].
    + rewrite Ht. cbn [thr u1 take map]. by rewrite <- app_assoc.
    + intros. apply He. lia.
Qed.

(** A byte is accepted, or the caller waits on a full buffer. *)
Lemma uartputc_spec idle me c u :
  uart_ok u → 0 ≤ c < 256 →
  wp (uartputc idle me c) (fun ok u' => uart_ok u' ∧
    if ok then accepted u' = accepted u ++ [c]
    else tx_count u = UART_TX_BUF_SIZE ∧ accepted u' = accepted u ∧ waiting u' me = true) u.
Proof.
  intros [Hw Hr Hc Hwt] Hc8. unfold uartputc. apply wp_bind, wp_get.
  destruct (Z.eqb_spec (uart_tx_w u) (u64 (uart_tx_r u + UART_TX_BUF_SIZE))) as [E|E].
  - assert (Hfull : tx_count u = UART_TX_BUF_SIZE) by wrap64.
    apply wp_bind. eapply wp_run; [done|]. apply wp_ret. split; [by split|]. cbn.
    rewrite fn_lookup_insert. done.
  - assert (Hlt : 0 ≤ tx_count u < UART_TX_BUF_SIZE) by wrap64.
    apply wp_bind. eapply wp_run; [done|]. cbv beta. set (u1 := mk_uart _ _ _ _ _).
    assert (Hc1 : tx_count u1 = tx_count u + 1) by (unfold tx_count, u1 in *; cbn; wrap64).
    assert (Hq1 : tx_queue u1 = tx_queue u ++ [c]).
    { unfold tx_queue. rewrite Hc1, <- (seg_snoc UART_TX_BUF_SIZE) by done. cbn.
      unfold u8. rewrite (Z.mod_small c) by lia. f_equal. f_equal. wrap64. }
    apply wp_bind. eapply wp_mono; [apply (uartstart_spec idle u1)|].
    + split; [apply u64_range|done|lia|]. intros q Hq. apply Hwt in Hq. lia.
    + intros _ u' (Hok' & Ha & _). apply wp_ret. split; [done|].
      rewrite Ha. unfold accepted. cbn [thr u1]. by rewrite Hq1, app_assoc.
Qed.

(** Calls of the driver by processes and interrupts, each atomic under
    [uart_tx_lock]; [hist] is every byte that [uartputc] has returned for. *)
Record usys := mk_usys { dev : uart; hist : list Z }.

Inductive ustep (x : usys) : usys → Prop :=
| u_putc idle me c ok u' :
    0 ≤ c < 256 → waiting (dev x) me = false → uartputc idle me c (dev x) = Ok (ok, u') →
    ustep x (mk_usys u' (if ok then hist x ++ [c] else hist x))
| u_sync c u' : uartputc_sync c (dev x) = Ok (tt, u') → ustep x (mk_usys u' (hist x))
| u_intr idle u' : uartstart idle (dev x) = Ok (tt, u') → ustep x (mk_usys u' (hist x)).

Definition uart_start (x : usys) : Prop :=
  uart_tx_w (dev x) = 0 ∧ uart_tx_r (dev x) = 0 ∧ thr (dev x) = [] ∧
  (∀ q, waiting (dev x) q = false) ∧ hist x = [].

Lemma ustep_inv x x' :
  uart_ok (dev x) → hist x = accepted (dev x) → ustep x x' →
  uart_ok (dev x') ∧ hist x' = accepted (dev x').
Proof.
  intros Hok Hh Hs. destruct Hs as [idle me c ok u' Hc Hw Hrun|c u' Hrun|idle u' Hrun]; cbn [dev hist].
  - destruct (wp_elim _ _ _ _ _ (uartputc_spec idle me c (dev x) Hok Hc) Hrun) as [Hok' Hr].
    split; [done|]. destruct ok; [by rewrite Hr, Hh|]. destruct Hr as (_ & -> & _). done.
  - injection Hrun as <-. destruct Hok as [? ? ? ?]. split; [by split|].
    rewrite Hh. unfold accepted. cbn [thr]. rewrite buffered_app. cbn. by rewrite app_nil_r.
  - destruct (wp_elim _ _ _ _ _ (uartstart_spec idle (dev x) Hok) Hrun) as (Hok' & Ha & _).
    split; [done|]. by rewrite Ha.
Qed.

(** C32: The UART driver sends the bytes that writers hand over in the order
    in which uartputc accepted them, interleaved with direct output but none
    lost or repeated, in every sequence of calls and interrupts; a process
    waits only while the buffer is full. *)
Theorem uart_fifo x y :
  uart_start x → rtc ustep x y →
  hist y = buffered (thr (dev y)) ++ tx_queue (dev y) ∧
  (length (tx_queue (dev y)) ≤ 32)%nat ∧
  ∀ q, waiting (dev y) q = true → length (tx_queue (dev y)) = 32%nat.
Proof.
  intros (Hw & Hr & Ht & Hq & Hh) Hs.
  assert (Hc0 : tx_count (dev x) = 0) by (unfold tx_count; by rewrite Hw, Hr).
  assert (H0 : uart_ok (dev x) ∧ hist x = accepted (dev x)).
  { split; [split; rewrite ?Hw, ?Hr, ?Hc0; try lia; unfold UART_TX_BUF_SIZE; [lia|]; intros q; by rewrite Hq|].
    unfold accepted, tx_queue. by rewrite Hh, Ht, Hc0. }
  clear Hw Hr Ht Hq Hh Hc0. revert H0. induction Hs as [x|x y z Hs _ IH]; intros [Hok Hh].
  - split; [done|]. pose proof (length_seg UART_TX_BUF_SIZE (uart_tx_buf (dev x)) (uart_tx_r (dev x))
      (tx_count (dev x)) ltac:(apply u64_range)) as Hl. fold (tx_queue (dev x)) in Hl.
    destruct Hok as [_ _ Hc Hwt]. unfold UART_TX_BUF_SIZE in *. split; [lia|].
    intros q Hq%Hwt. lia.
  - by apply IH, (ustep_inv x).
Qed.

Definition sample_uart : usys := mk_usys (mk_uart (fun _ => 0) 0 0 [] (fun _ => false)) [].

Lemma uart_fifo_witness :
  ∃ y, rtc ustep sample_uart y ∧ hist y = [65] ∧ hist y = buffered (thr (dev y)) ++ tx_queue (dev y).
Proof.
  destruct (uartputc 0 1 65 (dev sample_uart)) as [[ok u']| | |] eqn:E; [|vm_compute in E; done..].
  assert (Hs : rtc ustep sample_uart (mk_usys u' (if ok then hist sample_uart ++ [65] else hist sample_uart))).
  { eapply rtc_l; [|apply rtc_refl]. by eapply (u_putc sample_uart 0 1 65). }
  eexists. split; [exact Hs|]. split.
  - vm_compute in E. injection E as <- _. reflexivity.
  - apply (uart_fifo sample_uart _); [repeat split|exact Hs].
Defined.
