(* ===== verification/Console.v ===== *)
(** * Console (kernel/console.c)

    Input characters are edited in a ring buffer with three 32-bit counters:
    [r] to [w] is input that readers may take, [w] to [e] the line being
    edited.  The theorems show that the interrupt handler implements a line
    editor on lists and that a reader takes at most a line, and that nobody
    sleeps while a line is there.

    [cons.lock] makes the interrupt handler and each section of
    [consoleread] atomic; a section ends with a return or goes to sleep. *)

From stdpp Require Import functions relations.
From S2P Require Import Prelude Mem Ring Riscv Kalloc Vm VmByte Uart.

Definition BACKSPACE : Z := 0x100.
(** C(x) for 'D', 'H', 'P', 'U'. *)
Definition Ctrl_D : Z := 4.
Definition Ctrl_H : Z := 8.
Definition Ctrl_P : Z := 16.
Definition Ctrl_U : Z := 21.
Definition INPUT_BUF_SIZE : Z := 128.

Record cons := mk_cons { cbuf : Z → Z; cr : Z; cw : Z; ce : Z }.

(** [readers]: the processes that sleep on [&cons.r]. *)
Record cstate := mk_cstate { con : cons; cuart : uart; cmem : kmem; readers : Z → bool }.

Definition on_uart {A} (c : M uart A) : M cstate A :=
  lift cuart (fun s u => mk_cstate (con s) u (cmem s) (readers s)) c.
Definition on_kmem {A} (c : M kmem A) : M cstate A :=
  lift cmem (fun s m => mk_cstate (con s) (cuart s) m (readers s)) c.
Definition upd_cons (f : cons → cons) : M cstate unit :=
  modify (fun s => mk_cstate (f (con s)) (cuart s) (cmem s) (readers s)).

Definition consputc (c : Z) : M cstate unit :=
  if c =? BACKSPACE then
    do! on_uart (uartputc_sync 8); do! on_uart (uartputc_sync 32); on_uart (uartputc_sync 8)
  else on_uart (uartputc_sync c).

(** either_copyin(&c, user_src, src, 1) and either_copyout(user_dst, dst, &c, 1). *)
Definition copyin_char (user : bool) (pt src : Z) : M cstate (Z * Z) :=
  if user then do '(r, l) <- on_kmem (copyin pt src 1); ret (r, nth 0 l 0)
  else do c <- gets (fun s => ld8 (memory (cmem s)) src); ret (0, c).
Definition copyout_char (user : bool) (pt dst c : Z) : M cstate Z :=
  if user then on_kmem (copyout pt dst [c] 1)
  else do! on_kmem (modify (fun s => set_memory (st8 (memory s) dst c) s)); ret 0.

(** [pending]: the character of a [uartputc] that has slept.  The result is
    the number of bytes written, or where the process waits. *)
Inductive cend := CReturns (r : Z) | CWaits (i : Z) (pending : option Z).

Fixpoint consolewrite_loop (fuel : nat) (idle : Z → nat) (me : Z) (user : bool) (pt src n i : Z)
    (pending : option Z) : M cstate cend :=
  if i <? n then
    match fuel with
    | O => out_of_fuel
    | S f =>
        do '(r, c) <- match pending with
                      | Some c => ret (0, c)
                      | None => copyin_char user pt (u64 (src + i))
                      end;
        if r =? -1 then ret (CReturns i)
        else
          do ok <- on_uart (uartputc (idle i) me c);
          if ok then consolewrite_loop f idle me user pt src n (i + 1) None
          else ret (CWaits i (Some c))
    end
  else ret (CReturns i).
Definition consolewrite (idle : Z → nat) (me : Z) (user : bool) (pt src n i : Z) (pending : option Z) :
    M cstate cend :=
  consolewrite_loop (Z.to_nat (n - i)) idle me user pt src n i pending.

(** [n] is what is left of [target]; the result comes with the characters
    taken from the buffer and given to the copy. *)
Fixpoint consoleread_loop (fuel : nat) (killed : bool) (me : Z) (user : bool) (pt dst target n : Z) :
    M cstate (cend * list Z) :=
  if 0 <? n then
    match fuel with
    | O => out_of_fuel
    | S f =>
        do s <- gets con;
        if cr s =? cw s then
          if killed then ret (CReturns (-1), [])
          else
            do! modify (fun t => mk_cstate (con t) (cuart t) (cmem t) (<[me := true]> (readers t)));
            ret (CWaits n None, [])
        else
          let c := cbuf s (cr s mod INPUT_BUF_SIZE) in
          do! upd_cons (fun s => mk_cons (cbuf s) (u32 (cr s + 1)) (cw s) (ce s));
          if c =? Ctrl_D then
            do! (if n <? target
                 then upd_cons (fun s => mk_cons (cbuf s) (u32 (cr s - 1)) (cw s) (ce s)) else ret tt);
            ret (CReturns (target - n), [])
          else
            do r <- copyout_char user pt dst c;
            if r =? -1 then ret (CReturns (target - n), [c])
            else if c =? 10 then ret (CReturns (target - (n - 1)), [c])
            else
              do '(e, l) <- consoleread_loop f killed me user pt (u64 (dst + 1)) target (n - 1);
              ret (e, c :: l)
    end
  else ret (CReturns (target - n), []).
Definition consoleread (killed : bool) (me : Z) (user : bool) (pt dst target n : Z) : M cstate (cend * list Z) :=
  consoleread_loop (Z.to_nat n) killed me user pt dst target n.

(** case C('U'): while(cons.e != cons.w && cons.buf[(cons.e-1) % INPUT_BUF_SIZE] != '\n') *)
Fixpoint kill_line (fuel : nat) : M cstate unit :=
  do s <- gets con;
  if negb (ce s =? cw s) && negb (cbuf s (u32 (ce s - 1) mod INPUT_BUF_SIZE) =? 10) then
    match fuel with
    | O => out_of_fuel
    | S f =>
        do! upd_cons (fun s => mk_cons (cbuf s) (cr s) (cw s) (u32 (ce s - 1)));
        do! consputc BACKSPACE;
        kill_line f
    end
  else ret tt.

(** [dump]: the bytes that [procdump] prints. *)
Fixpoint consputs (l : list Z) : M cstate unit :=
  match l with [] => ret tt | c :: l' => do! consputc c; consputs l' end.

Definition consoleintr (dump : list Z) (c : Z) : M cstate unit :=
  if c =? Ctrl_P then consputs dump
  else if c =? Ctrl_U then do s <- gets con; kill_line (Z.to_nat (u32 (ce s - cw s)))
  else if (c =? Ctrl_H) || (c =? 127) then
    do s <- gets con;
    if negb (ce s =? cw s) then
      do! upd_cons (fun s => mk_cons (cbuf s) (cr s) (cw s) (u32 (ce s - 1)));
      consputc BACKSPACE
    else ret tt
  else
    do s <- gets con;
    if negb (c =? 0) && (u32 (ce s - cr s) <? INPUT_BUF_SIZE) then
      let c := if c =? 13 then 10 else c in
      do! consputc c;
      do! upd_cons (fun s => mk_cons (<[ce s mod INPUT_BUF_SIZE := u8 c]> (cbuf s)) (cr s) (cw s) (u32 (ce s + 1)));
      do s <- gets con;
      if (c =? 10) || (c =? Ctrl_D) || (u32 (ce s - cr s) =? INPUT_BUF_SIZE) then
        do! upd_cons (fun s => mk_cons (cbuf s) (cr s) (ce s) (ce s));
        modify (fun t => mk_cstate (con t) (cuart t) (cmem t) (fun _ => false))
      else ret tt
    else ret tt.

(** [uartintr] of kernel/uart.c: the input the device holds is given to the
    console, then buffered output is sent. *)
Fixpoint uartintr_loop (dump : list Z) (rx : list Z) : M cstate unit :=
  match rx with
  | [] => ret tt
  | c :: rx' => do! consoleintr dump c; uartintr_loop dump rx'
  end.
Definition uartintr (dump : list Z) (rx : list Z) (idle : nat) : M cstate unit :=
  do! uartintr_loop dump rx; on_uart (uartstart idle).

(** ** The line editor *)

Record editor := mk_editor { ready : list Z; edit : list Z }.

Definition key (c : Z) (x : editor) : editor :=
  if c =? Ctrl_P then x
  else if c =? Ctrl_U then mk_editor (ready x) []
  else if (c =? Ctrl_H) || (c =? 127) then mk_editor (ready x) (removelast (edit x))
  else if negb (c =? 0) && (Z.of_nat (length (ready x) + length (edit x)) <? INPUT_BUF_SIZE) then
    let c := if c =? 13 then 10 else c in
    let line := edit x ++ [c] in
    if (c =? 10) || (c =? Ctrl_D) || (Z.of_nat (length (ready x) + length line) =? INPUT_BUF_SIZE)
    then mk_editor (ready x ++ line) []
    else mk_editor (ready x) line
  else x.

Definition n_ready (s : cons) : Z := u32 (cw s - cr s).
Definition n_edit (s : cons) : Z := u32 (ce s - cw s).
Definition abs (s : cons) : editor :=
  mk_editor (seg INPUT_BUF_SIZE (cbuf s) (cr s) (n_ready s)) (seg INPUT_BUF_SIZE (cbuf s) (cw s) (n_edit s)).

Record cons_ok (s : cons) : Prop := {
  co_r : 0 ≤ cr s < 2 ^ 32;
  co_w : 0 ≤ cw s < 2 ^ 32;
  co_e : 0 ≤ ce s < 2 ^ 32;
  co_size : n_ready s + n_edit s ≤ INPUT_BUF_SIZE;
  co_line : 10 ∉ edit (abs s)
}.

Ltac wrap32 := unfold n_ready, n_edit, u32, INPUT_BUF_SIZE in *; cbn [cbuf cr cw ce] in *;
  change (2 ^ 32) with 4294967296 in *; zdm.

Lemma n_range s : 0 ≤ n_ready s < 2 ^ 32 ∧ 0 ≤ n_edit s < 2 ^ 32.
Proof. split; apply u32_range. Qed.

Lemma length_abs s :
  Z.of_nat (length (ready (abs s))) = n_ready s ∧ Z.of_nat (length (edit (abs s))) = n_edit s.
Proof. pose proof (n_range s) as [? ?]. split; apply length_seg; lia. Qed.

Lemma consputc_spec c s Q :
  (∀ s', con s' = con s → cmem s' = cmem s → readers s' = readers s → Q tt s') → wp (consputc c) Q s.
Proof.
  intros HQ. unfold consputc. case_test; [apply wp_bind, wp_lift, wp_modify, wp_bind, wp_lift, wp_modify|];
    apply wp_lift, wp_modify; by apply HQ.
Qed.

(** Erasing the last character of the line. *)
Definition erase (s : cons) : cons := mk_cons (cbuf s) (cr s) (cw s) (u32 (ce s - 1)).

Lemma erase_spec s :
  cons_ok s → n_edit s ≠ 0 →
  edit (abs s) = edit (abs (erase s)) ++ [cbuf s (u32 (ce s - 1) mod INPUT_BUF_SIZE)] ∧
  ready (abs (erase s)) = ready (abs s) ∧ cons_ok (erase s) ∧ n_edit (erase s) = n_edit s - 1.
Proof.
  intros [Hr Hw He Hs Hl] Hne. assert (Hn : n_edit (erase s) = n_edit s - 1) by (unfold erase; wrap32).
  assert (Hq : edit (abs s) = edit (abs (erase s)) ++ [cbuf s (u32 (ce s - 1) mod INPUT_BUF_SIZE)]).
  { cbn [abs edit]. pose proof (n_range s) as [_ ?]. rewrite Hn.
    replace (n_edit s) with (n_edit s - 1 + 1) at 1 by lia.
    rewrite (seg_app INPUT_BUF_SIZE) by (done || lia). f_equal.
    rewrite (seg_cons INPUT_BUF_SIZE _ _ 1) by (done || lia). f_equal. f_equal. wrap32. }
  split; [done|]. split; [done|]. split; [|done]. split; try done.
  - apply u32_range.
  - change (n_ready (erase s)) with (n_ready s). lia.
  - intros Hin. apply Hl. rewrite Hq. apply elem_of_app. by left.
Qed.

Lemma removelast_snoc {A} (l : list A) x : removelast (l ++ [x]) = l.
Proof. by rewrite removelast_app, app_nil_r. Qed.

Lemma kill_line_spec fuel s :
  cons_ok (con s) → n_edit (con s) ≤ Z.of_nat fuel →
  wp (kill_line fuel) (fun _ s' => cons_ok (con s') ∧ abs (con s') = mk_editor (ready (abs (con s))) [] ∧
    readers s' = readers s) s.
Proof.
  revert s; induction fuel as [|f IH]; intros s Hok Hf; cbn [kill_line]; apply wp_bind, wp_gets.
  all: pose proof (n_range (con s)) as [_ ?]; destruct (Hok) as [_ Hw He _ Hl].
  all: destruct (Z.eqb_spec (ce (con s)) (cw (con s))) as [E|E]; cbn [negb andb].
  1,3: apply wp_ret; split; [done|]; split; [|done];
       assert (n_edit (con s) = 0) as Hz by (unfold n_edit; rewrite E, Z.sub_diag; done);
       unfold abs; by rewrite Hz.
  - exfalso. wrap32.
  - assert (Hne : n_edit (con s) ≠ 0) by wrap32.
    destruct (erase_spec (con s) Hok Hne) as (Hq & Hrd & Hok' & Hn).
    destruct (Z.eqb_spec (cbuf (con s) (u32 (ce (con s) - 1) mod INPUT_BUF_SIZE)) 10) as [E10|E10].
    { exfalso. apply Hl. rewrite Hq, E10. apply elem_of_app. right. by left. }
    apply wp_bind, wp_modify, wp_bind, consputc_spec. intros s' Hc _ Hrs. cbn in Hc, Hrs.
    fold (erase (con s)) in Hc. eapply wp_mono; [apply IH; rewrite Hc; [done|lia]|].
    intros _ s'' (H1 & H2 & H3). split; [done|]. rewrite H2, Hc, Hrd, H3. done.
Qed.

Lemma consputs_spec l s Q :
  (∀ s', con s' = con s → cmem s' = cmem s → readers s' = readers s → Q tt s') → wp (consputs l) Q s.
Proof.
  revert s; induction l as [|c l IH]; intros s HQ; cbn [consputs]; [apply wp_ret; by apply HQ|].
  apply wp_bind, consputc_spec. intros s1 H1 H2 H3. apply IH. intros s2 H4 H5 H6.
  apply HQ; congruence.
Qed.

(** Adding a character to the line. *)
Definition append (c : Z) (s : cons) : cons :=
  mk_cons (<[ce s mod INPUT_BUF_SIZE := u8 c]> (cbuf s)) (cr s) (cw s) (u32 (ce s + 1)).
(** The line becomes available. *)
Definition commit_line (s : cons) : cons := mk_cons (cbuf s) (cr s) (ce s) (ce s).

Lemma append_spec c s :
  cons_ok s → 0 ≤ c < 256 → n_ready s + n_edit s < INPUT_BUF_SIZE →
  abs (append c s) = mk_editor (ready (abs s)) (edit (abs s) ++ [c]) ∧
  n_ready (append c s) = n_ready s ∧ n_edit (append c s) = n_edit s + 1.
Proof.
  intros [Hr Hw He Hs _] Hc Hlt. pose proof (n_range s) as [? ?].
  assert (Hn : n_edit (append c s) = n_edit s + 1) by (unfold append; wrap32).
  assert (Hu : u8 c = c) by (apply Z.mod_small; lia).
  split; [|done]. unfold abs at 1. rewrite Hn. change (n_ready (append c s)) with (n_ready s).
  cbn [append cbuf cr cw]. rewrite Hu. unfold abs. cbn [ready edit]. f_equal.
  - replace (ce s mod INPUT_BUF_SIZE) with ((cr s + (n_ready s + n_edit s)) mod INPUT_BUF_SIZE) by wrap32.
    apply (seg_insert_out INPUT_BUF_SIZE); lia || done.
  - replace (ce s mod INPUT_BUF_SIZE) with ((cw s + n_edit s) mod INPUT_BUF_SIZE) by wrap32.
    apply (seg_snoc INPUT_BUF_SIZE); lia || done.
Qed.

Lemma commit_line_spec s :
  0 ≤ cr s < 2 ^ 32 → 0 ≤ cw s < 2 ^ 32 → 0 ≤ ce s < 2 ^ 32 → n_ready s + n_edit s ≤ INPUT_BUF_SIZE →
  cons_ok (commit_line s) ∧ abs (commit_line s) = mk_editor (ready (abs s) ++ edit (abs s)) [].
Proof.
  intros Hr Hw He Hs. pose proof (n_range s) as [? ?].
  assert (H1 : n_ready (commit_line s) = n_ready s + n_edit s) by (unfold commit_line; wrap32).
  assert (H2 : n_edit (commit_line s) = 0) by (unfold commit_line, n_edit; cbn; by rewrite Z.sub_diag).
  assert (Ha : abs (commit_line s) = mk_editor (ready (abs s) ++ edit (abs s)) []).
  { unfold abs. rewrite H1, H2. cbn [commit_line cbuf cr cw ready edit]. f_equal.
    rewrite (seg_app INPUT_BUF_SIZE) by (done || lia). f_equal.
    apply (seg_mod INPUT_BUF_SIZE); [done|]. wrap32. }
  split; [|done]. split; try done; [rewrite H1, H2; lia|]. rewrite Ha. apply not_elem_of_nil.
Qed.

(** Who still sleeps after the handler has slept before, and there was no
    new line. *)
Definition still_asleep (s s' : cstate) : Prop :=
  ∀ q, readers s' q = true → readers s q = true ∧ ready (abs (con s')) = ready (abs (con s)).

Lemma consoleintr_spec dump c s :
  cons_ok (con s) → 0 ≤ c < 256 →
  wp (consoleintr dump c) (fun _ s' => cons_ok (con s') ∧ abs (con s') = key c (abs (con s)) ∧
    still_asleep s s') s.
Proof.
  intros Hok Hc. unfold consoleintr, key. destruct (Z.eqb_spec c Ctrl_P) as [->|HP].
  { apply consputs_spec. intros s' H1 _ H3. unfold still_asleep. by rewrite H1, H3. }
  destruct (Z.eqb_spec c Ctrl_U) as [->|HU].
  { apply wp_bind, wp_gets. pose proof (n_range (con s)) as [_ ?].
    eapply wp_mono; [apply kill_line_spec; [done|unfold n_edit in *; lia]|].
    intros _ s' (H1 & H2 & H3). split; [done|]. split; [done|]. intros q. by rewrite H2, H3. }
  destruct ((c =? Ctrl_H) || (c =? 127)) eqn:EH.
  { apply wp_bind, wp_gets. destruct (length_abs (con s)) as [_ Hle].
    destruct (Z.eqb_spec (ce (con s)) (cw (con s))) as [E|E]; cbn [negb].
    - apply wp_ret. split; [done|].
      assert (n_edit (con s) = 0) as Hz by (unfold n_edit; rewrite E, Z.sub_diag; done).
      split; [|done]. unfold abs. by rewrite Hz.
    - destruct (Hok) as [_ Hw He _ _]. assert (Hne : n_edit (con s) ≠ 0) by wrap32.
      destruct (erase_spec (con s) Hok Hne) as (Hq & Hrd & Hok' & _).
      apply wp_bind, wp_modify, consputc_spec. intros s' H1 _ H3. cbn in H1, H3.
      fold (erase (con s)) in H1. unfold still_asleep. rewrite H1, H3. split; [done|]. split; [|by rewrite Hrd].
      rewrite Hq, removelast_snoc, <- Hrd. by destruct (abs (erase (con s))). }
  apply wp_bind, wp_gets. destruct (length_abs (con s)) as [Hlr Hle]. pose proof (n_range (con s)) as [? ?].
  destruct (Hok) as [Hr Hw He Hs Hl].
  assert (Hcnt : u32 (ce (con s) - cr (con s)) = n_ready (con s) + n_edit (con s)) by wrap32.
  rewrite Hcnt, Nat2Z.inj_add, Hlr, Hle.
  destruct (negb (c =? 0) && (n_ready (con s) + n_edit (con s) <? INPUT_BUF_SIZE)) eqn:Et.
  2: { apply wp_ret. split; [done|]. split; [|done]. done. }
  apply andb_prop in Et as [_ Hlt%Z.ltb_lt]. cbv zeta. set (c' := if c =? 13 then 10 else c).
  assert (Hc' : 0 ≤ c' < 256) by (unfold c'; case_test; lia).
  apply wp_bind, consputc_spec. intros s1 H1 _ H3. apply wp_bind, wp_modify, wp_bind, wp_gets.
  cbn [con]. rewrite H1. fold (append c' (con s)).
  destruct (append_spec c' (con s) Hok Hc' Hlt) as (Ha & Hn1 & Hn2).
  assert (Hcnt' : u32 (ce (append c' (con s)) - cr (append c' (con s))) = n_ready (con s) + (n_edit (con s) + 1))
    by (unfold append; wrap32).
  rewrite Hcnt', Nat2Z.inj_add, length_app, Nat2Z.inj_add, Hlr, Hle. change (Z.of_nat (length [c'])) with 1.
  destruct ((c' =? 10) || (c' =? Ctrl_D) || (n_ready (con s) + (n_edit (con s) + 1) =? INPUT_BUF_SIZE)) eqn:Ec.
  - destruct (commit_line_spec (append c' (con s))) as [Hok' Ha']; [done|done|apply u32_range|rewrite Hn1, Hn2; lia|].
    apply wp_bind, wp_modify, wp_modify. cbn [con readers]. fold (commit_line (append c' (con s))).
    split; [done|]. split; [rewrite Ha', Ha; done|]. by intros q.
  - apply wp_ret. cbn [con readers]. unfold still_asleep. cbn [con readers]. rewrite Ha, H3.
    split; [|done]. split; [done|done|apply u32_range|rewrite Hn1, Hn2; lia|].
    rewrite Ha. cbn. intros [Hin|Hin]%elem_of_app; [done|]. apply list_elem_of_singleton in Hin.
    rewrite <- Hin in Ec. done.
Qed.

(** ** Reading *)

(** What a read takes from the available input: with [k] bytes delivered and
    room for [n] more, the characters given to the copy, what is left, and
    the result ([None]: it has to wait for more input).  Only a copy to user
    memory can fail. *)
Inductive line_read (user : bool) : nat → nat → list Z → list Z → list Z → option Z → Prop :=
| lr_full k l : line_read user k 0 l [] l (Some (Z.of_nat k))
| lr_wait k n : line_read user k (S n) [] [] [] None
| lr_eof n l : line_read user 0 (S n) (Ctrl_D :: l) [] l (Some 0)
| lr_eof_later k n l :
    (0 < k)%nat → line_read user k (S n) (Ctrl_D :: l) [] (Ctrl_D :: l) (Some (Z.of_nat k))
| lr_fault k n c l :
    user = true → c ≠ Ctrl_D → line_read user k (S n) (c :: l) [c] l (Some (Z.of_nat k))
| lr_newline k n l : line_read user k (S n) (10 :: l) [10] l (Some (Z.of_nat k + 1))
| lr_char k n c l d r e :
    c ≠ Ctrl_D → c ≠ 10 → line_read user (S k) n l d r e → line_read user k (S n) (c :: l) (c :: d) r e.

(** Taking one character. *)
Definition take_char (s : cons) : cons := mk_cons (cbuf s) (u32 (cr s + 1)) (cw s) (ce s).

Lemma take_char_spec s :
  cons_ok s → cr s ≠ cw s →
  ready (abs s) = cbuf s (cr s mod INPUT_BUF_SIZE) :: ready (abs (take_char s)) ∧
  edit (abs (take_char s)) = edit (abs s) ∧ cons_ok (take_char s) ∧
  u32 (cr (take_char s) - 1) = cr s.
Proof.
  intros [Hr Hw He Hs Hl] Hne. assert (0 < n_ready s) by wrap32.
  assert (Hn : n_ready (take_char s) = n_ready s - 1) by (unfold take_char; wrap32).
  split; [|split; [done|split]].
  - cbn [abs ready]. rewrite (seg_cons INPUT_BUF_SIZE) by (done || lia). rewrite Hn. f_equal.
    apply (seg_mod INPUT_BUF_SIZE); [done|]. unfold take_char. wrap32.
  - split; try done; [apply u32_range|]. change (n_edit (take_char s)) with (n_edit s). lia.
  - unfold take_char. wrap32.
Qed.

Lemma copyout_char_spec user pt dst c s :
  0 ≤ dst < 2 ^ 64 → wp (copyout_char user pt dst c) (fun r s' =>
    con s' = con s ∧ readers s' = readers s ∧ (user = false → r = 0)) s.
Proof.
  intros Hd. unfold copyout_char. destruct user.
  - destruct (copyout_one pt dst c (cmem s) Hd) as (r & m & E). apply wp_lift. by eapply wp_run; [exact E|].
  - apply wp_bind, wp_lift, wp_modify, wp_ret. done.
Qed.

Lemma consoleread_spec fuel killed me user pt dst k n s :
  cons_ok (con s) → (n ≤ fuel)%nat → 0 ≤ dst < 2 ^ 64 →
  wp (consoleread_loop fuel killed me user pt dst (Z.of_nat k + Z.of_nat n) (Z.of_nat n)) (fun '(e, l) s' =>
    cons_ok (con s') ∧ edit (abs (con s')) = edit (abs (con s)) ∧
    ∃ res, line_read user k n (ready (abs (con s))) l (ready (abs (con s'))) res ∧
    match res with
    | Some r => e = CReturns r ∧ readers s' = readers s
    | None =>
        ready (abs (con s')) = [] ∧
        if killed then e = CReturns (-1) ∧ readers s' = readers s
        else e = CWaits (Z.of_nat n - Z.of_nat (length l)) None ∧ readers s' = <[me := true]> (readers s)
    end) s.
Proof.
  revert k n dst s; induction fuel as [|f IH]; intros k n dst s Hok Hn Hd; cbn [consoleread_loop];
    (destruct n as [|n]; [cbn [Z.of_nat Z.ltb Z.compare]; apply wp_ret; do 2 (split; [done|]);
      rewrite Z.add_0_r, Z.sub_0_r; eexists; split; [constructor|done]|]); [lia|].
  rewrite (proj2 (Z.ltb_lt 0 _)) by lia. apply wp_bind, wp_gets.
  destruct (Z.eqb_spec (cr (con s)) (cw (con s))) as [E|E].
  { assert (Hr : ready (abs (con s)) = []).
    { cbn [abs ready]. unfold n_ready. rewrite E, Z.sub_diag. done. }
    destruct killed; [apply wp_ret|apply wp_bind, wp_modify, wp_ret]; do 2 (split; [done|]);
      (exists None; cbn [con readers]; rewrite Hr; split; [constructor|]; split; [done|]; cbn [length]; split; [|done]);
      [done|f_equal; lia]. }
  destruct (take_char_spec (con s) Hok E) as (Hrd & Hed & Hok' & Hback). rewrite Hrd.
  cbv zeta. set (c := cbuf (con s) (cr (con s) mod INPUT_BUF_SIZE)) in *.
  apply wp_bind, wp_modify. fold (take_char (con s)).
  destruct (Z.eqb_spec c Ctrl_D) as [Hc|Hc].
  { rewrite Hc in *. destruct k as [|k].
    - rewrite (proj2 (Z.ltb_ge _ _)) by lia. apply wp_bind, wp_ret, wp_ret. cbn [con readers].
      do 2 (split; [done|]). exists (Some 0). split; [constructor|]. split; [f_equal; lia|done].
    - rewrite (proj2 (Z.ltb_lt _ _)) by lia. apply wp_bind, wp_modify, wp_ret. cbn [con readers].
      assert (mk_cons (cbuf (take_char (con s))) (u32 (cr (take_char (con s)) - 1)) (cw (take_char (con s)))
        (ce (take_char (con s))) = con s) as -> by (rewrite Hback; by destruct (con s)).
      do 2 (split; [done|]). exists (Some (Z.of_nat (S k))). rewrite Hrd. split; [constructor; lia|].
      split; [f_equal; lia|done]. }
  apply wp_bind. eapply wp_mono; [apply copyout_char_spec; done|]. cbn [con readers].
  intros r s1 (H1 & H2 & H3). destruct (Z.eqb_spec r (-1)) as [->|Hr].
  { apply wp_ret. rewrite H1, H2. do 2 (split; [done|]). exists (Some (Z.of_nat k)).
    split; [constructor; [|done]; destruct user; [done|]; by specialize (H3 eq_refl)|].
    split; [f_equal; lia|done]. }
  destruct (Z.eqb_spec c 10) as [E10|E10].
  { apply wp_ret. rewrite H1, H2, E10. do 2 (split; [done|]). exists (Some (Z.of_nat k + 1)).
    split; [constructor|]. split; [f_equal; lia|done]. }
  apply wp_bind. replace (Z.of_nat (S n) - 1) with (Z.of_nat n) by lia.
  replace (Z.of_nat k + Z.of_nat (S n)) with (Z.of_nat (S k) + Z.of_nat n) by lia.
  eapply wp_mono; [apply (IH (S k) n (u64 (dst + 1)) s1); [by rewrite H1|lia|apply u64_range]|].
  intros [e l] s' (Ho & He & res & Hl & Hres). apply wp_ret. rewrite H1 in *. rewrite H2 in Hres.
  split; [done|]. split; [by rewrite He|]. exists res. split; [by constructor|].
  destruct res as [r'|]; [done|]. destruct Hres as [Hnil Hres]. split; [done|].
  destruct killed; [done|]. destruct Hres as [-> ->]. split; [f_equal; cbn [length]; lia|done].
Qed.

(** ** Interrupts and readers *)

Inductive cstep (s : cstate) : cstate → Prop :=
| c_key dump c s' : 0 ≤ c < 256 → consoleintr dump c s = Ok (tt, s') → cstep s s'
| c_read killed me user pt dst k n e l s' :
    readers s me = false → 0 ≤ dst < 2 ^ 64 →
    consoleread killed me user pt dst (Z.of_nat k + Z.of_nat n) (Z.of_nat n) s = Ok ((e, l), s') →
    cstep s s'
| c_kill q : cstep s (mk_cstate (con s) (cuart s) (cmem s) (<[q := false]> (readers s)))
| c_other u m : cstep s (mk_cstate (con s) u m (readers s)).

(** The same events on the editor. *)
Inductive estep (x : editor) : editor → Prop :=
| e_key c : 0 ≤ c < 256 → estep x (key c x)
| e_read user k n l rest res :
    line_read user k n (ready x) l rest res → estep x (mk_editor rest (edit x)).

Lemma cstep_sim s s' :
  cons_ok (con s) → (∀ q, readers s q = true → ready (abs (con s)) = []) → cstep s s' →
  rtc estep (abs (con s)) (abs (con s')) ∧ cons_ok (con s') ∧
  ∀ q, readers s' q = true → ready (abs (con s')) = [].
Proof.
  intros Hok Hq Hs. destruct Hs as [dump c s' Hc Hrun|killed me user pt dst k n e l s' Hme Hd Hrun|q|u m].
  - destruct (wp_elim _ _ _ _ _ (consoleintr_spec dump c s Hok Hc) Hrun) as (Hok' & Ha & Hsl).
    rewrite Ha. split; [apply rtc_once; by constructor|]. split; [done|].
    intros q Hr. apply Hsl in Hr as [Hr Heq]. rewrite <- Ha, Heq. by apply (Hq q).
  - pose proof (wp_elim _ _ _ _ _ (consoleread_spec (Z.to_nat (Z.of_nat n)) killed me user pt dst k n s Hok
      ltac:(lia) Hd) Hrun) as (Hok' & He & res & Hl & Hres).
    assert (abs (con s') = mk_editor (ready (abs (con s'))) (edit (abs (con s)))) as Ha
      by (rewrite <- He; by destruct (abs (con s'))).
    split; [|split; [done|]].
    + rewrite Ha. apply rtc_once. by apply (e_read _ user k n l _ res).
    + assert (Hemp : ∀ q, readers s q = true → ready (abs (con s')) = []).
      { intros q Hr%Hq. rewrite Hr in Hl. by inversion Hl. }
      intros q. destruct res as [r|]; [destruct Hres as [_ ->]; apply Hemp|]. by destruct Hres as [-> _].
  - split; [apply rtc_refl|]. split; [done|]. intros q'. cbn.
    destruct (decide (q' = q)) as [->|]; [by rewrite fn_lookup_insert|].
    rewrite fn_lookup_insert_ne by done. apply Hq.
  - split; [apply rtc_refl|]. split; [done|]. apply Hq.
Qed.


Definition sample_console : cstate :=
  mk_cstate (mk_cons (fun _ => 0) 0 0 0) (mk_uart (fun _ => 0) 0 0 [] (fun _ => false))
    (mk_kmem (fun _ => 0) 0) (fun _ => false).

Lemma sample_console_ok : cons_ok (con sample_console).
Proof. split; cbn; try lia; [by vm_compute|apply not_elem_of_nil]. Qed.

Lemma uartintr_steps dump rx s s' :
  Forall (fun c => 0 ≤ c < 256) rx → uartintr_loop dump rx s = Ok (tt, s') → rtc cstep s s'.
Proof.
  revert s; induction rx as [|c rx IH]; intros s Hrx E; cbn [uartintr_loop] in E.
  - injection E as <-. apply rtc_refl.
  - apply Forall_cons in Hrx as [Hc Hrx]. apply bind_ok_inv in E as ([] & s1 & E1 & E).
    eapply rtc_l; [exact (c_key s dump c s1 Hc E1)|]. exact (IH s1 Hrx E).
Qed.

