(* ===== verification/Kstate.v ===== *)
(** * State of the kernel above the file system (kernel/proc.h, kernel/file.h)

    The process table, the table of open files, pipes and the console, next
    to the state of the file system and of physical memory.  [cur] is the
    running process, [myproc()]; a [struct proc*] and a [struct file*] are
    indices, a null pointer is [None].  Calls into the layers below run on
    their part of this state. *)

From stdpp Require Import functions.
From S2P Require Import Prelude Mem Riscv Kalloc Vm Sleeplock Bio Log Fs Pipe Uart Console.

Definition NOFILE : Z := 16.
Definition NFILE : Z := 100.
Definition NDEV : Z := 10.
Definition ROOTDEV : Z := 1.
Definition CONSOLE : Z := 1.

(** ** Open files *)

Inductive ftype := FD_NONE | FD_PIPE | FD_INODE | FD_DEVICE.

Record file := mk_file {
  f_type : ftype; f_ref : Z; f_readable : bool; f_writable : bool;
  f_pipe : Z; f_ip : Z; f_off : Z; f_major : Z
}.

Definition set_fref v f := mk_file (f_type f) v (f_readable f) (f_writable f) (f_pipe f) (f_ip f) (f_off f) (f_major f).
Definition set_ftype v f := mk_file v (f_ref f) (f_readable f) (f_writable f) (f_pipe f) (f_ip f) (f_off f) (f_major f).
Definition set_rw r w f := mk_file (f_type f) (f_ref f) r w (f_pipe f) (f_ip f) (f_off f) (f_major f).
Definition set_fpipe v f := mk_file (f_type f) (f_ref f) (f_readable f) (f_writable f) v (f_ip f) (f_off f) (f_major f).
Definition set_fip v f := mk_file (f_type f) (f_ref f) (f_readable f) (f_writable f) (f_pipe f) v (f_off f) (f_major f).
Definition set_foff v f := mk_file (f_type f) (f_ref f) (f_readable f) (f_writable f) (f_pipe f) (f_ip f) v (f_major f).
Definition set_fmajor v f := mk_file (f_type f) (f_ref f) (f_readable f) (f_writable f) (f_pipe f) (f_ip f) (f_off f) v.

(** ** Processes *)

Inductive procstate := UNUSED | USED | SLEEPING | RUNNABLE | RUNNING | ZOMBIE.
#[export] Instance procstate_eq : EqDecision procstate.
Proof. solve_decision. Defined.

(** What a process can sleep on: a counter of a pipe, [&cons.r],
    [&uart_tx_r], [&ticks], a [struct proc], or something else at an
    address. *)
Inductive chan := CPipe (pa : Z) (c : pchan) | CCons | CUart | CTicks | CProc (p : Z) | CAddr (a : Z).
#[export] Instance chan_eq : EqDecision chan.
Proof. solve_decision. Defined.

(** [struct context]: of the saved registers those that are ever set outside
    [swtch]. *)
Record context := mk_context { ctx_ra : Z; ctx_sp : Z }.

Record proc := mk_proc {
  p_state : procstate; p_chan : option chan; p_killed : bool; p_xstate : Z; p_pid : Z;
  p_parent : option Z; p_kstack : Z; p_sz : Z; p_pagetable : Z; p_trapframe : Z;
  p_context : context; p_ofile : Z → option Z; p_cwd : option Z; p_name : list Z
}.

Definition set_state v p := mk_proc v (p_chan p) (p_killed p) (p_xstate p) (p_pid p) (p_parent p) (p_kstack p)
  (p_sz p) (p_pagetable p) (p_trapframe p) (p_context p) (p_ofile p) (p_cwd p) (p_name p).
Definition set_chan v p := mk_proc (p_state p) v (p_killed p) (p_xstate p) (p_pid p) (p_parent p) (p_kstack p)
  (p_sz p) (p_pagetable p) (p_trapframe p) (p_context p) (p_ofile p) (p_cwd p) (p_name p).
Definition set_killed v p := mk_proc (p_state p) (p_chan p) v (p_xstate p) (p_pid p) (p_parent p) (p_kstack p)
  (p_sz p) (p_pagetable p) (p_trapframe p) (p_context p) (p_ofile p) (p_cwd p) (p_name p).
Definition set_xstate v p := mk_proc (p_state p) (p_chan p) (p_killed p) v (p_pid p) (p_parent p) (p_kstack p)
  (p_sz p) (p_pagetable p) (p_trapframe p) (p_context p) (p_ofile p) (p_cwd p) (p_name p).
Definition set_pid v p := mk_proc (p_state p) (p_chan p) (p_killed p) (p_xstate p) v (p_parent p) (p_kstack p)
  (p_sz p) (p_pagetable p) (p_trapframe p) (p_context p) (p_ofile p) (p_cwd p) (p_name p).
Definition set_parent v p := mk_proc (p_state p) (p_chan p) (p_killed p) (p_xstate p) (p_pid p) v (p_kstack p)
  (p_sz p) (p_pagetable p) (p_trapframe p) (p_context p) (p_ofile p) (p_cwd p) (p_name p).
Definition set_kstack v p := mk_proc (p_state p) (p_chan p) (p_killed p) (p_xstate p) (p_pid p) (p_parent p) v
  (p_sz p) (p_pagetable p) (p_trapframe p) (p_context p) (p_ofile p) (p_cwd p) (p_name p).
Definition set_sz v p := mk_proc (p_state p) (p_chan p) (p_killed p) (p_xstate p) (p_pid p) (p_parent p) (p_kstack p)
  v (p_pagetable p) (p_trapframe p) (p_context p) (p_ofile p) (p_cwd p) (p_name p).
Definition set_pagetable v p := mk_proc (p_state p) (p_chan p) (p_killed p) (p_xstate p) (p_pid p) (p_parent p) (p_kstack p)
  (p_sz p) v (p_trapframe p) (p_context p) (p_ofile p) (p_cwd p) (p_name p).
Definition set_trapframe v p := mk_proc (p_state p) (p_chan p) (p_killed p) (p_xstate p) (p_pid p) (p_parent p) (p_kstack p)
  (p_sz p) (p_pagetable p) v (p_context p) (p_ofile p) (p_cwd p) (p_name p).
Definition set_context v p := mk_proc (p_state p) (p_chan p) (p_killed p) (p_xstate p) (p_pid p) (p_parent p) (p_kstack p)
  (p_sz p) (p_pagetable p) (p_trapframe p) v (p_ofile p) (p_cwd p) (p_name p).
Definition set_ofile fd v p := mk_proc (p_state p) (p_chan p) (p_killed p) (p_xstate p) (p_pid p) (p_parent p) (p_kstack p)
  (p_sz p) (p_pagetable p) (p_trapframe p) (p_context p) (<[fd := v]> (p_ofile p)) (p_cwd p) (p_name p).
Definition set_cwd v p := mk_proc (p_state p) (p_chan p) (p_killed p) (p_xstate p) (p_pid p) (p_parent p) (p_kstack p)
  (p_sz p) (p_pagetable p) (p_trapframe p) (p_context p) (p_ofile p) v (p_name p).
Definition set_name v p := mk_proc (p_state p) (p_chan p) (p_killed p) (p_xstate p) (p_pid p) (p_parent p) (p_kstack p)
  (p_sz p) (p_pagetable p) (p_trapframe p) (p_context p) (p_ofile p) (p_cwd p) v.

(** Offsets of fields of [struct trapframe]. *)
Definition tf_kernel_satp : Z := 0.
Definition tf_kernel_sp : Z := 8.
Definition tf_kernel_trap : Z := 16.
Definition tf_epc : Z := 24.
Definition tf_kernel_hartid : Z := 32.
Definition tf_sp : Z := 48.
Definition tf_a0 : Z := 112.
Definition tf_a1 : Z := 120.
Definition tf_a7 : Z := 168.
Definition sizeof_trapframe : Z := 288.

(** ** The kernel *)

Record kst := mk_kst {
  klog : lstate; ksb : superblock; kitab : Z → inode; kmm : kmem;
  ftab : Z → file; pipes : Z → pipe; procs : Z → proc;
  initproc : option Z; nextpid : Z; cur : Z;
  kcons : cons; kuart : uart; ticks : Z
}.

Definition set_ftab v k := mk_kst (klog k) (ksb k) (kitab k) (kmm k) v (pipes k) (procs k) (initproc k) (nextpid k)
  (cur k) (kcons k) (kuart k) (ticks k).
Definition set_pipes v k := mk_kst (klog k) (ksb k) (kitab k) (kmm k) (ftab k) v (procs k) (initproc k) (nextpid k)
  (cur k) (kcons k) (kuart k) (ticks k).
Definition set_procs v k := mk_kst (klog k) (ksb k) (kitab k) (kmm k) (ftab k) (pipes k) v (initproc k) (nextpid k)
  (cur k) (kcons k) (kuart k) (ticks k).
Definition set_initproc v k := mk_kst (klog k) (ksb k) (kitab k) (kmm k) (ftab k) (pipes k) (procs k) v (nextpid k)
  (cur k) (kcons k) (kuart k) (ticks k).
Definition set_nextpid v k := mk_kst (klog k) (ksb k) (kitab k) (kmm k) (ftab k) (pipes k) (procs k) (initproc k) v
  (cur k) (kcons k) (kuart k) (ticks k).
Definition set_kmm v k := mk_kst (klog k) (ksb k) (kitab k) v (ftab k) (pipes k) (procs k) (initproc k) (nextpid k)
  (cur k) (kcons k) (kuart k) (ticks k).
Definition set_ticks v k := mk_kst (klog k) (ksb k) (kitab k) (kmm k) (ftab k) (pipes k) (procs k) (initproc k) (nextpid k)
  (cur k) (kcons k) (kuart k) v.

Definition upd_file (f : Z) (g : file → file) : M kst unit := modify (fun k => set_ftab (alter g f (ftab k)) k).
Definition upd_proc (p : Z) (g : proc → proc) : M kst unit := modify (fun k => set_procs (alter g p (procs k)) k).
Definition the_file (f : Z) : M kst file := gets (fun k => ftab k f).
Definition the_proc (p : Z) : M kst proc := gets (fun k => procs k p).
Definition me : M kst Z := gets cur.
Definition myproc : M kst proc := gets (fun k => procs k (cur k)).

(** What the devices do: for the [i]th byte of a write to the console, how
    often the UART reads idle. *)
Class Devices := { uart_idle : Z → nat }.

(** Addresses of kernel code that processes start or return at. *)
Class KernelText := { forkret_addr : Z; usertrap_addr : Z; kernelvec_addr : Z; uservec_addr : Z; userret_addr : Z }.

(** ** Calls into the layers below *)

Definition on_km {A} (c : M kmem A) : M kst A := lift kmm (fun k m => set_kmm m k) c.

(** The file system sees the pid, the page table and the current directory of
    the running process; it changes none of them. *)
Definition on_fs {A} (c : M fs A) : M kst A :=
  lift (fun k => let p := procs k (cur k) in
          let b := lbio (klog k) in
          mk_fs (mk_lstate (mk_bio (bufs b) (dsk b) (p_pid p)) (lg (klog k))) (ksb k) (kitab k) (kmm k) (p_pagetable p)
            (match p_cwd p with Some i => i | None => -1 end))
       (fun k s => mk_kst (flog s) (sb s) (itab s) (fkmem s) (ftab k) (pipes k) (procs k)
          (initproc k) (nextpid k) (cur k) (kcons k) (kuart k) (ticks k)) c.

Definition asleep_on (c : chan) (p : proc) : bool :=
  bool_decide (p_state p = SLEEPING ∧ p_chan p = Some c).

(** The process table after the sleepers on [c] have become those of [a]. *)
Definition set_asleep (c : chan) (a : Z → bool) (ps : Z → proc) : Z → proc := fun q =>
  let p := ps q in
  if asleep_on c p then if a q then p else set_state RUNNABLE p
  else if a q then set_state SLEEPING (set_chan (Some c) p) else p.

Definition on_pipe {A} (pa : Z) (c : M pstate A) : M kst A := fun k =>
  let asl q :=
    if asleep_on (CPipe pa ReadChan) (procs k q) then Some ReadChan
    else if asleep_on (CPipe pa WriteChan) (procs k q) then Some WriteChan else None in
  match c (mk_pstate (pipes k pa) (kmm k) asl) with
  | Ok (a, s) =>
      Ok (a, set_pipes (<[pa := pi s]> (pipes k)) (set_kmm (pmem s)
        (set_procs (set_asleep (CPipe pa ReadChan) (fun q => bool_decide (asleep s q = Some ReadChan))
          (set_asleep (CPipe pa WriteChan) (fun q => bool_decide (asleep s q = Some WriteChan)) (procs k))) k)))
  | Panic msg => Panic msg
  | Sleeps ch => Sleeps ch
  | OutOfFuel => OutOfFuel
  end.

Definition on_console {A} (c : M cstate A) : M kst A := fun k =>
  let u := kuart k in
  let u' := mk_uart (uart_tx_buf u) (uart_tx_w u) (uart_tx_r u) (thr u) (fun q => asleep_on CUart (procs k q)) in
  match c (mk_cstate (kcons k) u' (kmm k) (fun q => asleep_on CCons (procs k q))) with
  | Ok (a, s) =>
      Ok (a, mk_kst (klog k) (ksb k) (kitab k) (cmem s) (ftab k) (pipes k)
        (set_asleep CCons (readers s) (set_asleep CUart (waiting (cuart s)) (procs k)))
        (initproc k) (nextpid k) (cur k) (con s) (cuart s) (ticks k))
  | Panic msg => Panic msg
  | Sleeps ch => Sleeps ch
  | OutOfFuel => OutOfFuel
  end.

(** A field of the trap frame at physical address [tf]. *)
Definition tf_get (tf off : Z) : M kst Z := on_km (load64 (tf + off)).
Definition tf_set (tf off v : Z) : M kst unit := on_km (store64 (tf + off) v).

(** ** A state for examples

    Memory is zero, the tables are empty; process 0, with pid 1, runs. *)
Definition sample_devices : Devices := {| uart_idle := fun _ => O |}.
Definition sample_text : KernelText :=
  {| forkret_addr := KERNBASE; usertrap_addr := KERNBASE; kernelvec_addr := KERNBASE;
     uservec_addr := KERNBASE; userret_addr := KERNBASE |}.
Definition no_file : file := mk_file FD_NONE 0 false false 0 0 0 0.
Definition no_inode : inode := mk_inode 0 0 0 initsleeplock false 0 0 0 0 0 (fun _ => 0).
Definition no_proc : proc :=
  mk_proc UNUSED None false 0 0 None 0 0 0 0 (mk_context 0 0) (fun _ => None) None (repeat 0 16).
Definition sample_init : proc :=
  mk_proc RUNNING None false 0 1 None 0 0 0 (KERNBASE + 0x100000) (mk_context 0 0) (fun _ => None) (Some 0) (repeat 0 16).
Definition sample_kst : kst :=
  mk_kst (mk_lstate (mk_bio (fun _ => mk_buf false 0 0 initsleeplock 0 0 0 (fun _ => 0)) (mk_disk (fun _ _ => 0) []) 1)
            (mk_log 2 30 0 false 1 0 (fun _ => 0)))
    (mk_sb 0 0 0 0 0 0 0 0) (fun _ => no_inode) (mk_kmem (fun _ => 0) 0) (fun _ => no_file)
    (fun _ => mk_pipe (fun _ => 0) 0 0 false false)
    (fun p => if p =? 0 then sample_init else no_proc) (Some 0) 2 0
    (mk_cons (fun _ => 0) 0 0 0) (mk_uart (fun _ => 0) 0 0 [] (fun _ => false)) 0.
