(* ===== verification/File.v ===== *)
(** * Open files (kernel/file.c, and pipealloc of kernel/pipe.c)

    The table of open files with its reference counts, and the dispatch of
    reads and writes to pipes, devices and inodes.  A call that would block
    has the outcome [Sleeps]. *)

From stdpp Require Import functions.
From S2P Require Import Prelude Mem Riscv Kalloc Vm Bio Log Fs Pipe Uart Console Kstate.

Section file.
Context {KI : KernelImage} {Dev : Devices}.

Definition begin_op_ : M kst unit := on_fs (on_log begin_op).
Definition end_op_ : M kst unit := on_fs (on_log end_op).

(** The first free entry, from the [n]th last one on. *)
Fixpoint filealloc_loop (n : nat) : M kst (option Z) :=
  match n with
  | O => ret None
  | S n' =>
      let f := NFILE - Z.of_nat n in
      do x <- the_file f;
      if f_ref x =? 0 then do! upd_file f (set_fref 1); ret (Some f)
      else filealloc_loop n'
  end.
Definition filealloc : M kst (option Z) := filealloc_loop (Z.to_nat NFILE).

Definition filedup (f : Z) : M kst Z :=
  do x <- the_file f;
  if f_ref x <? 1 then panic "filedup"
  else do! upd_file f (set_fref (f_ref x + 1)); ret f.

Definition fileclose (f : Z) : M kst unit :=
  do x <- the_file f;
  if f_ref x <? 1 then panic "fileclose"
  else
    do! upd_file f (set_fref (f_ref x - 1));
    if 0 <? f_ref x - 1 then ret tt
    else
      do ff <- the_file f;
      do! upd_file f (fun x => set_ftype FD_NONE (set_fref 0 x));
      match f_type ff with
      | FD_PIPE => on_pipe (f_pipe ff) (pipeclose (f_pipe ff) (f_writable ff))
      | FD_INODE | FD_DEVICE =>
          do! begin_op_;
          do! on_fs (iput (f_ip ff));
          end_op_
      | FD_NONE => ret tt
      end.

(** [struct stat] in memory; [pad] are the four bytes between nlink and
    size, which the code does not set. *)
Definition sizeof_stat : Z := 24.
Definition stat_bytes (pad : Z) (st : stat) : list Z :=
  load_bytes (st64 (st32 (st16 (st16 (st32 (st32 (fun _ => 0) 0 (st_dev st)) 4 (st_ino st)) 8 (st_type st))
    10 (st_nlink st)) 12 pad) 16 (st_size st)) 0 sizeof_stat.

Definition filestat (pad f addr : Z) : M kst Z :=
  do x <- the_file f;
  match f_type x with
  | FD_INODE | FD_DEVICE =>
      do! on_fs (ilock (f_ip x));
      do st <- on_fs (stati (f_ip x));
      do! on_fs (iunlock (f_ip x));
      do p <- myproc;
      do r <- on_km (copyout (p_pagetable p) addr (stat_bytes pad st) sizeof_stat);
      ret (if r <? 0 then -1 else 0)
  | _ => ret (-1)
  end.

(** devsw[major] has functions for the console only. *)
Definition has_dev (major : Z) : bool := negb ((major <? 0) || (NDEV <=? major)) && (major =? CONSOLE).

Definition fileread (f addr n : Z) : M kst Z :=
  do x <- the_file f;
  if negb (f_readable x) then ret (-1)
  else
    do p <- myproc;
    do q <- me;
    match f_type x with
    | FD_PIPE =>
        do '(e, _) <- on_pipe (f_pipe x) (piperead (p_killed p) q (p_pagetable p) addr n);
        match e with Returns r => ret r | Waits _ => sleeps "pipe" end
    | FD_DEVICE =>
        if negb (has_dev (f_major x)) then ret (-1)
        else
          do '(e, _) <- on_console (consoleread (p_killed p) q true (p_pagetable p) addr n n);
          match e with CReturns r => ret r | CWaits _ _ => sleeps "console" end
    | FD_INODE =>
        do! on_fs (ilock (f_ip x));
        do '(r, _) <- on_fs (readi (f_ip x) (UserDst addr) (f_off x) (u32 n));
        do! (if 0 <? r then upd_file f (fun x => set_foff (u32 (f_off x + r)) x) else ret tt);
        do! on_fs (iunlock (f_ip x));
        ret r
    | FD_NONE => panic "fileread"
    end.

(** while(i < n): each iteration writes at most [max] bytes in a
    transaction of its own. *)
Definition max_write : Z := (MAXOPBLOCKS - 1 - 1 - 2) / 2 * BSIZE.
Fixpoint filewrite_loop (fuel : nat) (f ip addr n i : Z) : M kst Z :=
  if i <? n then
    match fuel with
    | O => out_of_fuel
    | S fu =>
        let n1 := Z.min (n - i) max_write in
        do! begin_op_;
        do! on_fs (ilock ip);
        do x <- the_file f;
        do r <- on_fs (writei ip (UserSrc (u64 (addr + i))) (f_off x) (u32 n1));
        do! (if 0 <? r then upd_file f (fun x => set_foff (u32 (f_off x + r)) x) else ret tt);
        do! on_fs (iunlock ip);
        do! end_op_;
        if negb (r =? n1) then ret i
        else filewrite_loop fu f ip addr n (i + r)
    end
  else ret i.
Definition filewrite (f addr n : Z) : M kst Z :=
  do x <- the_file f;
  if negb (f_writable x) then ret (-1)
  else
    do p <- myproc;
    do q <- me;
    match f_type x with
    | FD_PIPE =>
        do '(e, _) <- on_pipe (f_pipe x) (pipewrite (fun _ => p_killed p) q (p_pagetable p) addr n 0);
        match e with Returns r => ret r | Waits _ => sleeps "pipe" end
    | FD_DEVICE =>
        if negb (has_dev (f_major x)) then ret (-1)
        else
          do e <- on_console (consolewrite uart_idle q true (p_pagetable p) addr n 0 None);
          match e with CReturns r => ret r | CWaits _ _ => sleeps "uart" end
    | FD_INODE =>
        do i <- filewrite_loop (Z.to_nat n) f (f_ip x) addr n 0;
        ret (if i =? n then n else -1)
    | FD_NONE => panic "filewrite"
    end.

(** The two files, or nothing: goto bad. *)
Definition pipealloc : M kst (option (Z * Z)) :=
  do f0 <- filealloc;
  match f0 with
  | None => ret None
  | Some f0 =>
      do f1 <- filealloc;
      match f1 with
      | None => do! fileclose f0; ret None
      | Some f1 =>
          do pa <- on_km kalloc;
          if pa =? 0 then do! fileclose f0; do! fileclose f1; ret None
          else
            do! on_pipe pa (upd_pipe pipe_init);
            do! upd_file f0 (fun x => set_fpipe pa (set_rw true false (set_ftype FD_PIPE x)));
            do! upd_file f1 (fun x => set_fpipe pa (set_rw false true (set_ftype FD_PIPE x)));
            ret (Some (f0, f1))
      end
  end.

End file.
