(* ===== verification/FileBounds.v ===== *)
(** * The chunks of filewrite fit into a transaction (kernel/file.c)

    filewrite cuts a write into pieces so that one call of writei stays
    within the MAXOPBLOCKS blocks that begin_op reserves. *)

From S2P Require Import Prelude Mem Riscv Kalloc Bio Log Fs FsTx FsBlock FsFile FsWrite FsProps Kstate File.


