(* ===== verification/Proc.v ===== *)
(** * Processes (kernel/proc.c)

    The process table and what fork, exit, wait, kill, sleep and wakeup do to
    it.  A function runs from one scheduling point to the next: one that ends
    in [sched] leaves the state of its process as the scheduler sees it. *)

From stdpp Require Import functions.
From S2P Require Import Prelude Mem Kstring Printf Riscv Kalloc Vm Bio Log Fs Pipe Uart Console Kstate File.

Section proc.
Context {KI : KernelImage} {Dev : Devices} {KT : KernelText}.

Fixpoint procinit_loop (n : nat) : M kst unit :=
  match n with
  | O => ret tt
  | S n' =>
      let p := NPROC - Z.of_nat n in
      do! upd_proc p (fun x => set_kstack (KSTACK p) (set_state UNUSED x));
      procinit_loop n'
  end.
Definition procinit : M kst unit := procinit_loop (Z.to_nat NPROC).

Definition allocpid : M kst Z :=
  do pid <- gets nextpid;
  do! modify (set_nextpid (i32 (pid + 1)));
  ret pid.

Definition proc_pagetable (trapframe : Z) : M kst Z :=
  do pagetable <- on_km uvmcreate;
  if pagetable =? 0 then ret 0
  else
    do r <- on_km (mappages pagetable TRAMPOLINE PGSIZE trampoline (Z.lor PTE_R PTE_X));
    if r <? 0 then do! on_km (uvmfree pagetable 0); ret 0
    else
      do r <- on_km (mappages pagetable TRAPFRAME PGSIZE trapframe (Z.lor PTE_R PTE_W));
      if r <? 0 then
        do! on_km (uvmunmap pagetable TRAMPOLINE 1 false);
        do! on_km (uvmfree pagetable 0);
        ret 0
      else ret pagetable.

Definition proc_freepagetable (pagetable sz : Z) : M kst unit :=
  do! on_km (uvmunmap pagetable TRAMPOLINE 1 false);
  do! on_km (uvmunmap pagetable TRAPFRAME 1 false);
  on_km (uvmfree pagetable sz).

Definition freeproc (p : Z) : M kst unit :=
  do x <- the_proc p;
  do! (if p_trapframe x =? 0 then ret tt else on_km (kfree (p_trapframe x)));
  do! upd_proc p (set_trapframe 0);
  do! (if p_pagetable x =? 0 then ret tt else proc_freepagetable (p_pagetable x) (p_sz x));
  upd_proc p (fun x =>
    set_state UNUSED (set_xstate 0 (set_killed false (set_chan None (set_name (<[0%nat := 0]> (p_name x))
      (set_parent None (set_pid 0 (set_sz 0 (set_pagetable 0 x))))))))).

(** The first UNUSED slot, from the [n]th last one on. *)
Fixpoint find_unused (n : nat) (ps : Z → proc) : option Z :=
  match n with
  | O => None
  | S n' =>
      let p := NPROC - Z.of_nat n in
      if decide (p_state (ps p) = UNUSED) then Some p else find_unused n' ps
  end.
Definition allocproc : M kst (option Z) :=
  do ps <- gets procs;
  match find_unused (Z.to_nat NPROC) ps with
  | None => ret None
  | Some p =>
      do pid <- allocpid;
      do! upd_proc p (fun x => set_state USED (set_pid pid x));
      do tf <- on_km kalloc;
      do! upd_proc p (set_trapframe tf);
      if tf =? 0 then do! freeproc p; ret None
      else
        do pt <- proc_pagetable tf;
        do! upd_proc p (set_pagetable pt);
        if pt =? 0 then do! freeproc p; ret None
        else
          do! upd_proc p (fun x => set_context (mk_context forkret_addr (p_kstack x + PGSIZE)) x);
          ret (Some p)
  end.

(** safestrcpy(dst, src, sizeof(p->name)) *)
Definition sizeof_name : Z := 16.
Definition name_copy (dst src : list Z) : list Z :=
  load_bytes (safestrcpy (bytes_mem dst) 0 (bytes_mem src) 0 sizeof_name) 0 sizeof_name.

Definition initcode : list Z :=
  [0x17; 0x05; 0x00; 0x00; 0x13; 0x05; 0x45; 0x02;
   0x97; 0x05; 0x00; 0x00; 0x93; 0x85; 0x35; 0x02;
   0x93; 0x08; 0x70; 0x00; 0x73; 0x00; 0x00; 0x00;
   0x93; 0x08; 0x20; 0x00; 0x73; 0x00; 0x00; 0x00;
   0xef; 0xf0; 0x9f; 0xff; 0x2f; 0x69; 0x6e; 0x69;
   0x74; 0x00; 0x00; 0x24; 0x00; 0x00; 0x00; 0x00;
   0x00; 0x00; 0x00; 0x00].

(** Without a process the access through the null pointer faults in the
    kernel. *)
Definition userinit : M kst unit :=
  do p <- allocproc;
  do! modify (set_initproc p);
  match p with
  | None => panic "kerneltrap"
  | Some p =>
      do x <- the_proc p;
      do! on_km (uvmfirst (p_pagetable x) initcode (Z.of_nat (length initcode)));
      do! upd_proc p (set_sz PGSIZE);
      do! tf_set (p_trapframe x) tf_epc 0;
      do! tf_set (p_trapframe x) tf_sp PGSIZE;
      do! upd_proc p (fun x => set_name (name_copy (p_name x) (bytes "initcode" ++ [0])) x);
      do cwd <- on_fs (namei [slash]);
      do! upd_proc p (set_cwd cwd);
      upd_proc p (set_state RUNNABLE)
  end.

Definition growproc (n : Z) : M kst Z :=
  do q <- me;
  do p <- myproc;
  if 0 <? n then
    do sz <- on_km (uvmalloc (p_pagetable p) (p_sz p) (u64 (p_sz p + n)) PTE_W);
    if sz =? 0 then ret (-1) else do! upd_proc q (set_sz sz); ret 0
  else if n <? 0 then
    do sz <- on_km (uvmdealloc (p_pagetable p) (p_sz p) (u64 (p_sz p + n)));
    do! upd_proc q (set_sz sz); ret 0
  else ret 0.

(** np->ofile[i] = filedup(p->ofile[i]) for the last [n] descriptors. *)
Fixpoint fork_files (n : nat) (ofile : Z → option Z) (np : Z) : M kst unit :=
  match n with
  | O => ret tt
  | S n' =>
      let i := NOFILE - Z.of_nat n in
      do! match ofile i with
          | None => ret tt
          | Some f => do f' <- filedup f; upd_proc np (set_ofile i (Some f'))
          end;
      fork_files n' ofile np
  end.

Definition fork : M kst Z :=
  do q <- me;
  do np <- allocproc;
  match np with
  | None => ret (-1)
  | Some np =>
      do p <- the_proc q;
      do x <- the_proc np;
      do r <- on_km (uvmcopy (p_pagetable p) (p_pagetable x) (p_sz p));
      if r <? 0 then do! freeproc np; ret (-1)
      else
        do! upd_proc np (set_sz (p_sz p));
        do! on_km (memmove (p_trapframe x) (p_trapframe p) sizeof_trapframe);
        do! tf_set (p_trapframe x) tf_a0 0;
        do! fork_files (Z.to_nat NOFILE) (p_ofile p) np;
        do cwd <- match p_cwd p with
                  | None => panic "kerneltrap"
                  | Some i => on_fs (idup i)
                  end;
        do! upd_proc np (set_cwd (Some cwd));
        do! upd_proc np (fun x => set_name (name_copy (p_name x) (p_name p)) x);
        do! upd_proc np (set_parent (Some q));
        do! upd_proc np (set_state RUNNABLE);
        ret (p_pid x)
  end.

Definition sleep (c : chan) : M kst unit :=
  do q <- me; upd_proc q (fun x => set_state SLEEPING (set_chan (Some c) x)).
(** What is left of sleep() once the process runs again. *)
Definition sleep_end : M kst unit := do q <- me; upd_proc q (set_chan None).

Fixpoint wakeup_loop (n : nat) (c : chan) : M kst unit :=
  match n with
  | O => ret tt
  | S n' =>
      let p := NPROC - Z.of_nat n in
      do q <- me;
      do! (if p =? q then ret tt
           else upd_proc p (fun x => if asleep_on c x then set_state RUNNABLE x else x));
      wakeup_loop n' c
  end.
Definition wakeup (c : chan) : M kst unit := wakeup_loop (Z.to_nat NPROC) c.

(** wakeup of a null pointer wakes nobody: no process sleeps on it. *)
Definition wakeup_proc (p : option Z) : M kst unit :=
  match p with Some p => wakeup (CProc p) | None => ret tt end.

Fixpoint reparent_loop (n : nat) (p : Z) : M kst unit :=
  match n with
  | O => ret tt
  | S n' =>
      let pp := NPROC - Z.of_nat n in
      do x <- the_proc pp;
      do! (if decide (p_parent x = Some p) then
             do ip <- gets initproc;
             do! upd_proc pp (set_parent ip);
             wakeup_proc ip
           else ret tt);
      reparent_loop n' p
  end.
Definition reparent (p : Z) : M kst unit := reparent_loop (Z.to_nat NPROC) p.

Fixpoint exit_files (n : nat) : M kst unit :=
  match n with
  | O => ret tt
  | S n' =>
      let fd := NOFILE - Z.of_nat n in
      do q <- me;
      do p <- myproc;
      do! match p_ofile p fd with
          | None => ret tt
          | Some f => do! fileclose f; upd_proc q (set_ofile fd None)
          end;
      exit_files n'
  end.

(** Up to the call of sched(), which does not return. *)
Definition exit (status : Z) : M kst unit :=
  do q <- me;
  do ip <- gets initproc;
  if decide (ip = Some q) then panic "init exiting"
  else
    do! exit_files (Z.to_nat NOFILE);
    do! begin_op_;
    do p <- myproc;
    do! match p_cwd p with None => panic "kerneltrap" | Some i => on_fs (iput i) end;
    do! end_op_;
    do! upd_proc q (set_cwd None);
    do! reparent q;
    do p <- myproc;
    do! wakeup_proc (p_parent p);
    upd_proc q (fun x => set_state ZOMBIE (set_xstate status x)).

Definition setkilled (p : Z) : M kst unit := upd_proc p (set_killed true).
Definition killed (p : Z) : M kst bool := do x <- the_proc p; ret (p_killed x).

(** One scan of the table in wait(): how it ends, or whether there are
    children. *)
Inductive wait_end := Found (r : Z) | Scanned (havekids : bool).
Fixpoint wait_scan (n : nat) (addr : Z) (havekids : bool) : M kst wait_end :=
  match n with
  | O => ret (Scanned havekids)
  | S n' =>
      let pp := NPROC - Z.of_nat n in
      do q <- me;
      do x <- the_proc pp;
      if decide (p_parent x = Some q) then
        if decide (p_state x = ZOMBIE) then
          do p <- myproc;
          do r <- (if addr =? 0 then ret 0
                   else on_km (copyout (p_pagetable p) addr (load_bytes (st32 (fun _ => 0) 0 (u32 (p_xstate x))) 0 4) 4));
          if r <? 0 then ret (Found (-1))
          else do! freeproc pp; ret (Found (p_pid x))
        else wait_scan n' addr true
      else wait_scan n' addr havekids
  end.

(** An iteration of the for(;;) of wait(): [Some r] when it returns [r],
    [None] when the process has gone to sleep. *)
Definition wait (addr : Z) : M kst (option Z) :=
  do e <- wait_scan (Z.to_nat NPROC) addr false;
  match e with
  | Found r => ret (Some r)
  | Scanned havekids =>
      do q <- me;
      do k <- killed q;
      if negb havekids || k then ret (Some (-1))
      else do! sleep (CProc q); ret None
  end.

Definition yield : M kst unit := do q <- me; upd_proc q (set_state RUNNABLE).

Fixpoint kill_loop (n : nat) (pid : Z) : M kst Z :=
  match n with
  | O => ret (-1)
  | S n' =>
      let p := NPROC - Z.of_nat n in
      do x <- the_proc p;
      if p_pid x =? pid then
        do! upd_proc p (set_killed true);
        do! (if decide (p_state x = SLEEPING) then upd_proc p (set_state RUNNABLE) else ret tt);
        ret 0
      else kill_loop n' pid
  end.
Definition kill (pid : Z) : M kst Z := kill_loop (Z.to_nat NPROC) pid.

Definition state_name (s : procstate) : list Z :=
  bytes (match s with
         | UNUSED => "unused" | USED => "used" | SLEEPING => "sleep " | RUNNABLE => "runble"
         | RUNNING => "run   " | ZOMBIE => "zombie"
         end).
Definition procdump_line (x : proc) : list Z :=
  Kernel.printint (p_pid x) 10 true ++ [32] ++ state_name (p_state x) ++ [32]
  ++ cstrn (Z.to_nat sizeof_name) (bytes_mem (p_name x)) 0 ++ [10].
Definition procdump (k : kst) : list Z :=
  10 :: concat (map (fun n => let x := procs k (Z.of_nat n) in
                      if decide (p_state x = UNUSED) then [] else procdump_line x)
                    (seq 0 (Z.to_nat NPROC))).

End proc.
