(* ===== verification/ProcMem.v ===== *)
(** * The memory of a process from allocproc to freeproc (kernel/proc.c)

    A process has a trap frame page, a page table, and the pages of its
    program; the table also maps the trampoline and the trap frame, which it
    does not own.  [pmem] says so, and that these pages and the free list
    together are the free list of the moment when the process was made.  The
    theorems show that allocproc establishes this or gives everything back,
    that growproc keeps it for every increment, and that freeproc gives
    everything back. *)

From S2P Require Import Prelude Mem Riscv Kalloc Vm PageTable VmMap VmCopy VmSpace VmGrow VmFree Kstate Proc.

(** The virtual pages of the trampoline and of the trap frame. *)
Definition TRP : Z := 2 ^ 26 - 1.
Definition TFP : Z := 2 ^ 26 - 2.

Lemma TRP_eq : TRAMPOLINE = TRP * PGSIZE.
Proof. reflexivity. Qed.
Lemma TFP_eq : TRAPFRAME = TFP * PGSIZE.
Proof. reflexivity. Qed.

Section procmem.
Context {KI : KernelImage}.

(** ** Entries for pages that the table does not own *)

Lemma map_foreign s root D free i pa perm :
  vspace s root D free → ¬ D i → 0 ≤ i → i * PGSIZE < MAXVA → phys_page pa → 0 ≤ perm < 2 ^ 10 →
  has (upte s root i) PTE_V = false →
  wp (mappages root (i * PGSIZE) PGSIZE pa perm) (fun r s' => ∃ free',
    evolves root s free s' free' ∧ vspace s' root D free' ∧
    (r = 0 ∧ (∀ j, 0 ≤ j → j * PGSIZE < SV39 →
                upte s' root j = if decide (j = i) then user_entry pa perm else upte s root j) ∨
     r = -1 ∧ ∀ j, 0 ≤ j → j * PGSIZE < SV39 → upte s' root j = upte s root j)) s.
Proof.
  intros H Hi Hi0 Him Hpa Hperm Hun.
  eapply wp_mono; [apply (mappages_one s root free i pa perm); try done; apply H|].
  cbv beta. intros r s' (free' & He & Hr). exists free'. split; [done|]. split.
  - eapply vspace_evolves; [exact H|exact He|]. intros j Hj. destruct (vs_dom _ _ _ _ H j Hj) as [Hj0 Hj1].
    apply MAXVA_SV39 in Hj1. destruct Hr as [[_ Hu]|(_ & _ & Hu)]; rewrite Hu by done; [|done].
    rewrite decide_False; [done|]. by intros ->.
  - destruct Hr as [[-> ?]|(-> & _ & ?)]; [left|right]; done.
Qed.

Lemma unmap_foreign s root D free i :
  vspace s root D free → ¬ D i → 0 ≤ i → i * PGSIZE < MAXVA → leaf_pte (upte s root i) →
  wp (uvmunmap root (i * PGSIZE) 1 false) (fun _ s' =>
    vspace s' root D free ∧ unmaps s root i (i + 1) s' ∧
    ∀ q, page_ok q → ¬ table_page (memory s) root q → same_page q s s') s.
Proof.
  intros H Hi Hi0 Him [Hv Hfl]. destruct (upte_range i Hi0 Him) as [Hva Hdiv].
  unfold uvmunmap. rewrite Z.mod_mul by done. cbn [Z.eqb negb]. change (Z.to_nat 1) with 1%nat. cbn [uvmunmap_loop].
  rewrite u64_small by (rewrite MAXVA_eq in *; unfold PGSIZE in *; lia).
  rewrite (proj2 (Z.ltb_lt _ _)) by (unfold PGSIZE; lia).
  unfold upte in Hv, Hfl. destruct (pte_addr (memory s) root (i * PGSIZE)) as [a|] eqn:Ea.
  2: { unfold pte_at in Hv. by rewrite Ea in Hv. }
  assert (Epte : ld64 (memory s) a = pte_at (memory s) root (i * PGSIZE)) by (unfold pte_at; by rewrite Ea).
  destruct (leaf_inv _ _ _ _ _ (vs_pt _ _ _ _ H) Ea) as (p0 & _ & Eap & Hp0ok).
  apply wp_bind. eapply wp_run; [apply walk_noalloc; lia|]. rewrite Ea. cbn [default from_option id].
  pose proof (page_ok_bounds p0 Hp0ok). pose proof (PX_range 0 (i * PGSIZE)).
  rewrite (proj2 (Z.eqb_neq a 0)) by lia. apply wp_bind, wp_gets. rewrite Epte, Hv. cbn [negb].
  rewrite (proj2 (Z.eqb_neq _ _) Hfl). apply wp_bind, wp_ret, wp_bind.
  eapply wp_mono; [apply (store_leaf_spec root (i * PGSIZE) a 0 s free); try done; apply H|].
  cbv beta. intros _ s' [He Hp]. rewrite u64_small by (rewrite MAXVA_eq in *; unfold PGSIZE in *; lia).
  replace (i * PGSIZE + PGSIZE <? i * PGSIZE + 1 * PGSIZE) with false by (symmetry; apply Z.ltb_ge; lia).
  apply wp_ret.
  assert (Hu : ∀ va, 0 ≤ va < SV39 → pte_at (memory s') root va =
    if decide (i ≤ va / PGSIZE < i + 1) then 0 else pte_at (memory s) root va).
  { intros va Hr. rewrite Hp by done. rewrite Hdiv. do 2 case_decide; done || lia. }
  assert (Hsame : ∀ q, page_ok q → ¬ table_page (memory s) root q → same_page q s s') by
    (intros q Hq Hqt; by eapply evolves_table_only).
  assert (Hum : unmaps s root i (i + 1) s').
  { split; [done|intros p; by apply (evolves_table _ _ _ _ _ He)|auto]. }
  split; [|done]. eapply vspace_evolves; [exact H|exact He|]. intros j Hj. destruct (vs_dom _ _ _ _ H j Hj) as [Hj0 Hj1].
  apply (unmaps_upte _ _ _ _ _ _ Hum); [done|by apply MAXVA_SV39|]. intros ?. assert (j = i) as -> by lia. done.
Qed.

(** ** There are not enough pages to reach the trap frame *)

Definition ram_pages : Z := 32768.

Lemma pages_bound l : NoDup l → (∀ p, p ∈ l → page_ok p) → Z.of_nat (length l) ≤ ram_pages.
Proof.
  intros Hnd Hok.
  assert (Hsub : map (fun p => (p - KERNBASE) / PGSIZE) l ⊆+ seqZ 0 ram_pages).
  { apply NoDup_submseteq.
    - apply NoDup_fmap_2_strong; [|done]. intros p q Hp Hq. destruct (Hok p Hp) as [Hp1 _]. destruct (Hok q Hq) as [Hq1 _].
      unfold KERNBASE, PGSIZE in *. zdm.
    - intros i Hi. apply list_elem_of_fmap in Hi as (p & -> & Hp). apply elem_of_seqZ. destruct (Hok p Hp) as [Hp1 Hp2].
      pose proof image_bounds. unfold ram_pages, PHYSTOP, KERNBASE, PGSIZE in *. zdm. }
  apply submseteq_length in Hsub. rewrite length_map, length_seqZ in Hsub. unfold ram_pages in *. lia.
Qed.

(** ** What a process owns *)

Record pmem (s : kmem) (pt tf sz : Z) (free : list Z) : Prop := {
  pm_sz : 0 ≤ sz;
  pm_space : vspace s pt (below (npages sz)) free;
  pm_tramp : upte s pt TRP = user_entry trampoline (Z.lor PTE_R PTE_X);
  pm_tfp : upte s pt TFP = user_entry tf (Z.lor PTE_R PTE_W);
  pm_none : nothing_but (fun i => below (npages sz) i ∨ i = TRP ∨ i = TFP) s pt;
  pm_tf : page_ok tf;
  pm_own : (tf ∉ free) ∧ ¬ table_page (memory s) pt tf ∧ ∀ i, below (npages sz) i → tf ≠ upage s pt i }.

Definition owned (s : kmem) (pt tf sz p : Z) : Prop :=
  p = tf ∨ table_page (memory s) pt p ∨ ∃ i, below (npages sz) i ∧ p = upage s pt i.

(** [H] are the pages that an operation may use, [H'] the same pages after
    it: it has not lost or gained any, and has not touched others. *)
Record within (H : Z → Prop) (s : kmem) (H' : Z → Prop) (s' : kmem) : Prop := {
  wi_all p : H p ↔ H' p;
  wi_same q : page_ok q → ¬ H q → same_page q s s' }.

Lemma within_refl H s : within H s H s.
Proof. by split. Qed.

Lemma within_trans H1 s1 H2 s2 H3 s3 : within H1 s1 H2 s2 → within H2 s2 H3 s3 → within H1 s1 H3 s3.
Proof.
  intros [A1 B1] [A2 B2]. split; [intros p; by rewrite A1, A2|].
  intros q Hq Hn b Hb. rewrite (B2 q Hq), (B1 q Hq); try done. by rewrite <- A1.
Qed.

Definition held (s : kmem) (pt tf sz : Z) (free : list Z) (p : Z) : Prop := p ∈ free ∨ owned s pt tf sz p.

Lemma pm_bound s pt tf sz free : pmem s pt tf sz free → 0 ≤ npages sz ≤ ram_pages ∧ 0 ≤ sz ≤ ram_pages * PGSIZE.
Proof.
  intros P. pose proof (pm_sz _ _ _ _ _ P) as Hsz. pose proof (pm_space _ _ _ _ _ P) as H.
  assert (0 ≤ npages sz ∧ sz ≤ npages sz * PGSIZE) as [Hn Hle] by (unfold npages, PGSIZE; zdm).
  assert (Hb : Z.of_nat (length (map (upage s pt) (seqZ 0 (npages sz)))) ≤ ram_pages).
  { apply pages_bound.
    - apply NoDup_fmap_2_strong; [|apply NoDup_seqZ]. intros i j Hi%elem_of_seqZ Hj%elem_of_seqZ.
      apply (vs_inj _ _ _ _ H); unfold below; lia.
    - intros p Hp. apply list_elem_of_fmap in Hp as (i & -> & Hi%elem_of_seqZ).
      apply (vs_page _ _ _ _ H); unfold below; lia. }
  rewrite length_map, length_seqZ in Hb. unfold PGSIZE in *. lia.
Qed.

(** The loop of uvmalloc has added the pages from [npages sz] to [npages sz']
    or, with [sz' = sz], has undone it all. *)
Lemma pmem_taken s pt tf sz free s' free' sz' m :
  pmem s pt tf sz free → sz ≤ sz' → vspace s' pt (below (npages sz')) free' →
  taken s free pt (npages sz) s' free' [] (npages sz') → m ≤ TFP → npages sz' ≤ TFP →
  (∀ j, 0 ≤ j → j * PGSIZE < SV39 → ¬ (npages sz ≤ j < npages sz') →
     upte s' pt j = upte s pt j ∨ npages sz ≤ j < m ∧ upte s' pt j = 0) →
  pmem s' pt tf sz' free' ∧ within (held s pt tf sz free) s (held s' pt tf sz' free') s'.
Proof.
  intros P Hsz HV [T1 T2 T3 T4 T5 T6] Hm Hn' Hu. destruct (pm_bound _ _ _ _ _ P) as [Hb _].
  destruct P as [P1 P2 P3 P4 P5 P0 (P6 & P7 & P8)].
  assert (Hnn : npages sz ≤ npages sz') by (unfold npages, PGSIZE; zdm).
  assert (Hlow : ∀ i, below (npages sz) i → upage s' pt i = upage s pt i).
  { intros i Hi. unfold upage. destruct (vs_dom _ _ _ _ P2 i Hi) as [? ?%MAXVA_SV39]. unfold below in Hi.
    destruct (Hu i) as [->|?]; try done; lia. }
  assert (Hcases : ∀ i, below (npages sz') i ↔ below (npages sz) i ∨ npages sz ≤ i < npages sz') by (unfold below; lia).
  assert (Hhigh : ∀ i, i = TRP ∨ i = TFP → upte s' pt i = upte s pt i).
  { intros i Hi. destruct (Hu i) as [->|[? _]]; try done; unfold TRP, TFP, PGSIZE, SV39 in *; lia. }
  split; split.
  - lia.
  - done.
  - rewrite Hhigh by auto. done.
  - rewrite Hhigh by auto. done.
  - intros i Hi Him Hni. destruct (decide (npages sz ≤ i < npages sz')) as [Hr|Hr].
    { destruct Hni. left. by apply Hcases; right. }
    destruct (Hu i Hi Him Hr) as [->|[_ ->]]; [|done]. apply P5; try done. rewrite Hcases in Hni. tauto.
  - done.
  - split; [by intros ?%T2|]. split; [intros [?|?]%T5; done|].
    intros i [Hi|Hi]%Hcases E; [rewrite Hlow in E by done; by apply (P8 i)|]. by apply P6; rewrite E; apply T3.
  - intros p. unfold held, owned. split.
    + intros [Hp|[?|[?|(i & Hi & ->)]]]; [|auto|auto|].
      * destruct (T1 p Hp) as [?|[[]%elem_of_nil|[?|(i & Hi & ->)]]]; auto. do 3 right. exists i. split; [apply Hcases; auto|done].
      * do 3 right. exists i. split; [apply Hcases; auto|by rewrite Hlow].
    + intros [?%T2|[?|[[?|?]%T5|(i & [Hi|Hi]%Hcases & ->)]]]; auto.
      do 3 right. exists i. by rewrite Hlow.
  - intros q Hq Hq0 b Hb'. apply (T6 q Hq); [..|done]; intros Hx; apply Hq0; unfold held, owned; auto.
Qed.

Lemma npages_mono a b : a ≤ b → npages a ≤ npages b.
Proof. unfold npages, PGSIZE. zdm. Qed.

(** growproc up: enough memory, or everything undone. *)
Lemma grow_up s pt tf sz free n :
  pmem s pt tf sz free → 0 < n < 2 ^ 31 →
  wp (uvmalloc pt sz (u64 (sz + n)) PTE_W) (fun r s' => ∃ free',
    (r = sz + n ∧ 0 < r ∧ pmem s' pt tf r free' ∧ within (held s pt tf sz free) s (held s' pt tf r free') s') ∨
    (r = 0 ∧ pmem s' pt tf sz free' ∧ within (held s pt tf sz free) s (held s' pt tf sz free') s')) s.
Proof.
  intros P Hn. destruct (pm_bound _ _ _ _ _ P) as [Hb Hb']. unfold ram_pages, PGSIZE in Hb, Hb'.
  rewrite u64_small by lia. assert (Hm : npages (sz + n) ≤ TFP) by (unfold npages, TFP, PGSIZE; zdm).
  eapply wp_mono; [apply (uvmalloc_spec s pt free sz (sz + n) PTE_W)|].
  - apply (pm_space _ _ _ _ _ P).
  - lia.
  - rewrite MAXVA_eq. lia.
  - done.
  - intros j Hj. fold (npages sz) (npages (sz + n)) in Hj. apply (pm_none _ _ _ _ _ P).
    + lia.
    + unfold TFP, PGSIZE, SV39 in *. lia.
    + unfold below, TRP, TFP in *. lia.
  - cbv beta. fold (npages sz) (npages (sz + n)). intros r s' (free' & [[-> B]|[-> U]]); exists free'; [left|right]; (split; [done|]).
    + split; [pose proof (pm_sz _ _ _ _ _ P); lia|]. apply (pmem_taken s pt tf sz free s' free' (sz + n) 0 P); [lia|apply B|apply B|done|done|].
      intros j Hj Hjm Hnj. left. by apply (bd_pte _ _ _ _ _ _ _ _ _ _ B).
    + apply (pmem_taken s pt tf sz free s' free' sz (npages (sz + n)) P); [lia|apply U|apply U|done|unfold TFP; lia|].
      intros j Hj Hjm _. by apply (un_pte _ _ _ _ _ _ _ U).
Qed.

(** The last pages unmapped. *)
Lemma pmem_cut s pt tf sz free s' sz' :
  pmem s pt tf sz free → 0 ≤ sz' ≤ sz →
  let n := npages sz in let n' := npages sz' in
  vspace s' pt (fun j => below n j ∧ ¬ (n' ≤ j < n)) (rev (pages_of s pt n' (Z.to_nat (n - n'))) ++ free) →
  unmaps s pt n' n s' →
  let free' := rev (pages_of s pt n' (Z.to_nat (n - n'))) ++ free in
  pmem s' pt tf sz' free' ∧ within (held s pt tf sz free) s (held s' pt tf sz' free') s'.
Proof.
  intros P Hsz n n' HV U free'. destruct (pm_bound _ _ _ _ _ P) as [Hb _].
  destruct P as [P1 P2 P3 P4 P5 P0 (P6 & P7 & P8)]. fold n in P2, P5, P8, Hb.
  assert (Hnn : 0 ≤ n' ≤ n) by (unfold n, n', npages, PGSIZE; zdm).
  assert (Hin : ∀ p, p ∈ free' ↔
    (∃ i, n' ≤ i < n ∧ p = upage s pt i) ∨ p ∈ free).
  { intros p. unfold free'. rewrite elem_of_app, pages_of_elem by lia. by replace (n' + (n - n')) with n by lia. }
  assert (Hu : ∀ i, 0 ≤ i → i * PGSIZE < SV39 → ¬ (n' ≤ i < n) → upte s' pt i = upte s pt i) by
    (intros; by apply (unmaps_upte s pt n' n)).
  assert (Hlow : ∀ i, below n' i → upage s' pt i = upage s pt i).
  { intros i Hi. unfold upage. unfold below in Hi. rewrite Hu; [done|lia| |lia]. unfold ram_pages, PGSIZE, SV39 in *. lia. }
  assert (Hcases : ∀ i, below n i ↔ below n' i ∨ n' ≤ i < n) by (unfold below; lia).
  split; split.
  - lia.
  - eapply vspace_ext, HV. intros j. fold n'. unfold below. lia.
  - rewrite Hu; [done|unfold TRP, ram_pages, PGSIZE, SV39 in *; lia..].
  - rewrite Hu; [done|unfold TFP, ram_pages, PGSIZE, SV39 in *; lia..].
  - intros i Hi Him Hni. fold n' in Hni. destruct (decide (n' ≤ i < n)) as [Hr|Hr].
    + destruct (upte_sv39 i Hi Him) as [? Hd]. unfold upte. rewrite (um_pte _ _ _ _ _ U) by done. rewrite Hd. by rewrite decide_True.
    + rewrite Hu by done. apply P5; try done. rewrite Hcases. tauto.
  - done.
  - fold n'. split; [|split; [by rewrite (um_table _ _ _ _ _ U)|]].
    + rewrite Hin. intros [(i & Hi & E)|?]; [|done]. by apply (P8 i); [apply Hcases; right|].
    + intros i Hi. rewrite Hlow by done. apply P8, Hcases. by left.
  - intros p. unfold held, owned. fold n n'. rewrite Hin, (um_table _ _ _ _ _ U). split.
    + intros [?|[?|[?|(i & [Hi|Hi]%Hcases & ->)]]]; auto; [|eauto 6]. do 3 right. exists i. by rewrite Hlow.
    + intros [[(i & Hi & ->)|?]|[?|[?|(i & Hi & ->)]]]; auto; do 3 right; exists i.
      * split; [apply Hcases; by right|done].
      * split; [apply Hcases; by left|by rewrite Hlow].
  - intros q Hq Hq0 b Hb'. apply (um_same _ _ _ _ _ U q Hq); [| |done].
    + intros Hx. apply Hq0. unfold held, owned. auto.
    + intros i Hi ->. apply Hq0. do 3 right. exists i. split; [apply Hcases; by right|done].
Qed.

Lemma grow_down s pt tf sz free n :
  pmem s pt tf sz free → - 2 ^ 31 ≤ n < 0 →
  wp (uvmdealloc pt sz (u64 (sz + n))) (fun r s' => ∃ free',
    pmem s' pt tf r free' ∧ within (held s pt tf sz free) s (held s' pt tf r free') s') s.
Proof.
  intros P Hn. destruct (pm_bound _ _ _ _ _ P) as [Hb Hb']. unfold ram_pages, PGSIZE in Hb'. unfold uvmdealloc.
  destruct (Z.lt_ge_cases (sz + n) 0) as [Hneg|Hpos].
  { replace (u64 (sz + n)) with (sz + n + 2 ^ 64).
    2: { unfold u64. rewrite <- (Z.mod_small (sz + n + 2 ^ 64) (2 ^ 64)) by lia. zdm. }
    rewrite (proj2 (Z.leb_le _ _)) by lia. apply wp_ret. eauto using within_refl. }
  rewrite u64_small by lia. rewrite (proj2 (Z.leb_gt _ _)) by lia.
  rewrite !PGROUNDUP_eq by (unfold PGSIZE; lia). fold (npages (sz + n)) (npages sz).
  assert (Hnn : 0 ≤ npages (sz + n) ≤ npages sz) by (unfold npages, PGSIZE; zdm).
  apply wp_bind. destruct (Z.ltb_spec (npages (sz + n) * PGSIZE) (npages sz * PGSIZE)) as [Hlt|Hge].
  - replace ((npages sz * PGSIZE - npages (sz + n) * PGSIZE) / PGSIZE) with (npages sz - npages (sz + n))
      by (rewrite <- Z.mul_sub_distr_r, Z.div_mul; done).
    unfold ram_pages in Hb. rewrite i32_small, u64_small by lia.
    eapply wp_mono.
    { apply (uvmunmap_spec s pt (below (npages sz)) free (npages (sz + n)) (npages sz - npages (sz + n)));
        [apply (pm_space _ _ _ _ _ P)|lia|lia|unfold below; lia|rewrite MAXVA_eq; unfold PGSIZE; lia]. }
    cbv beta. replace (npages (sz + n) + (npages sz - npages (sz + n))) with (npages sz) by lia.
    intros _ s' [HV U]. apply wp_ret. eexists. eapply pmem_cut; [exact P|lia|exact HV|exact U].
  - assert (E : npages (sz + n) = npages sz) by (unfold PGSIZE in *; lia). apply wp_ret, wp_ret. exists free.
    unfold held, owned. rewrite E. split; [|apply within_refl].
    destruct P as [P1 P2 P3 P4 P5 P6 P7]. split; rewrite ?E; done.
Qed.

(** ** proc_pagetable and proc_freepagetable *)

Lemma trampoline_page : phys_page trampoline.
Proof.
  pose proof trampoline_ok as (? & ? & ?). pose proof etext_ok. pose proof end_ok.
  unfold phys_page, KERNBASE, PHYSTOP, PGSIZE in *. unfold KERNBASE in *. lia.
Qed.

Lemma tramp_leaf : leaf_pte (user_entry trampoline (Z.lor PTE_R PTE_X)).
Proof. by apply user_entry_facts; [apply trampoline_page| |]. Qed.

Lemma tfp_leaf tf : page_ok tf → leaf_pte (user_entry tf (Z.lor PTE_R PTE_W)).
Proof. intros H. by apply user_entry_facts; [apply page_ok_bounds| |]. Qed.

(** The pages of a table and the pages it maps. *)
Definition tables (s : kmem) (pt n : Z) (free : list Z) (p : Z) : Prop :=
  p ∈ free ∨ table_page (memory s) pt p ∨ ∃ i, below n i ∧ p = upage s pt i.

(** Unmapping a page that the table does not own. *)
Lemma unmap_one s pt n free i (F : Z → Prop) :
  vspace s pt (below n) free → nothing_but (fun j => below n j ∨ F j ∨ j = i) s pt → ¬ F i →
  n ≤ i → 0 ≤ i → i * PGSIZE < MAXVA → leaf_pte (upte s pt i) →
  wp (uvmunmap pt (i * PGSIZE) 1 false) (fun _ s' =>
    vspace s' pt (below n) free ∧ nothing_but (fun j => below n j ∨ F j) s' pt ∧
    (∀ j, 0 ≤ j → j * PGSIZE < SV39 → j ≠ i → upte s' pt j = upte s pt j) ∧
    within (tables s pt n free) s (tables s' pt n free) s') s.
Proof.
  intros H Hnb HF Hn Hi Him Hleaf.
  eapply wp_mono; [apply (unmap_foreign s pt (below n) free i); try done; unfold below; lia|].
  cbv beta. intros _ s' (H' & U & Hsame).
  assert (Hu : ∀ j, 0 ≤ j → j * PGSIZE < SV39 → j ≠ i → upte s' pt j = upte s pt j).
  { intros j Hj Hjm Hne. apply (unmaps_upte _ _ _ _ _ _ U); try done. lia. }
  split; [done|]. split; [|split; [done|]].
  - intros j Hj Hjm Hnj. destruct (decide (j = i)) as [->|Hne].
    + destruct (upte_sv39 i Hj Hjm) as [? Hd]. unfold upte. rewrite (um_pte _ _ _ _ _ U) by done.
      rewrite Hd. rewrite decide_True by lia. done.
    + rewrite Hu by done. apply Hnb; tauto.
  - assert (Hup : ∀ j, below n j → upage s' pt j = upage s pt j).
    { intros j Hj. destruct (vs_dom _ _ _ _ H j Hj) as [? ?%MAXVA_SV39]. unfold upage, below in *. rewrite Hu by (done || lia). done. }
    split.
    + intros p. unfold tables. rewrite (um_table _ _ _ _ _ U).
      assert ((∃ j, below n j ∧ p = upage s pt j) ↔ ∃ j, below n j ∧ p = upage s' pt j); [|tauto].
      split; intros (j & Hj & ->); exists j; by rewrite Hup.
    + intros q Hq Hnq. apply Hsame; [done|]. intros ?. apply Hnq. unfold tables. auto.
Qed.

(** ** A new table *)

Lemma uvmcreate_space s free :
  free_pages s free →
  wp uvmcreate (fun r s' =>
    r = 0 ∧ s' = s ∨
    r ≠ 0 ∧ ∃ free', vspace s' r (below 0) free' ∧ (∀ i, upte s' r i = 0) ∧
      within (fun p => p ∈ free) s (tables s' r 0 free') s') s.
Proof.
  intros Hf. unfold uvmcreate. apply wp_bind. eapply wp_mono; [by apply kalloc_cases|].
  cbv beta. intros r s1 [(-> & -> & ->)|(free' & -> & Hr0 & Hr & Hf1 & Hpg & _)]; [by left|].
  rewrite (proj2 (Z.eqb_neq r 0)) by done. apply wp_bind, wp_modify, wp_ret. right. split; [done|]. exists free'.
  assert (NoDup (r :: free')) as [Hnin _]%NoDup_cons by apply Hf.
  set (s2 := set_memory (fill (memory s1) r 0 PGSIZE) s1).
  assert (Hz : ∀ b, r ≤ b < r + PGSIZE → ld8 (memory s2) b = 0) by (intros b Hb; apply ld8_fill_in; lia).
  assert (Hout : ∀ q b, page_ok q → q ≠ r → q ≤ b < q + PGSIZE → ld8 (memory s2) b = ld8 (memory s1) b).
  { intros q b Hq Hne Hb. destruct (page_ok_disjoint q r Hq Hr Hne); apply ld8_fill_out; lia. }
  destruct (pt_ok_empty (memory s2) r free') as [Hok Hpte]; try done.
  assert (Ht : ∀ p, table_page (memory s2) r p ↔ p = r).
  { intros p. split.
    - intros (path & Hp & Hn). destruct (decide (path = [])) as [->|Hne]; [by injection Hn|].
      by rewrite pt_node_empty in Hn.
    - intros ->. exists []. split; [|done]. split; [by apply Forall_nil|simpl; lia]. }
  split; [|split].
  - split; try done; try (unfold below; lia); [|by apply interior_empty].
    apply free_pages_frame; [|done]. intros q b Hq Hb. apply (Hout q b); [by apply (free_pages_ok _ _ _ Hf1)| |done].
    by intros ->.
  - intros i. apply Hpte.
  - split.
    + intros p. unfold tables. rewrite elem_of_cons, Ht. split; [tauto|].
      intros [?|[?|(i & Hi & _)]]; [tauto|tauto|unfold below in Hi; lia].
    + intros q Hq Hnq b Hb. rewrite elem_of_cons in Hnq. rewrite (Hout q b) by tauto.
      apply Hpg. destruct (page_ok_disjoint q r); try done; [tauto|lia|lia].
Qed.

Lemma evolves_within s pt free s' free' :
  vspace s pt (below 0) free → evolves pt s free s' free' →
  within (tables s pt 0 free) s (tables s' pt 0 free') s'.
Proof.
  intros H He. destruct (ev_used _ _ _ _ _ He) as [used Eu].
  assert (H0 : ∀ s p, ¬ ∃ i, below 0 i ∧ p = upage s pt i) by (intros ? ? (i & Hi & _); unfold below in Hi; lia).
  split.
  - intros p. unfold tables. split.
    + intros [Hp|[(path & Hp & Hn)|[]%H0]].
      * destruct (ev_all _ _ _ _ _ He p Hp); auto.
      * right. left. exists path. split; [done|]. by apply (ev_mono _ _ _ _ _ He).
    + intros [Hp|[(path & Hp & Hn)|[]%H0]].
      * left. rewrite Eu. apply elem_of_app. by right.
      * destruct (ev_new _ _ _ _ _ He path p Hp Hn) as [?|?]; [|auto]. right. left. by exists path.
  - intros q Hq Hnq. unfold tables in Hnq. apply (evolves_same pt s free s' free' q He (vs_pt _ _ _ _ H) Hq); tauto.
Qed.

(** Giving up a table that maps nothing. *)
Lemma uvmfree_empty s pt free :
  vspace s pt (below 0) free → nothing_but (below 0) s pt →
  wp (uvmfree pt 0) (fun _ s' => ∃ free', free_pages s' free' ∧ within (tables s pt 0 free) s (fun p => p ∈ free') s') s.
Proof.
  intros H Hnb. eapply wp_mono; [by apply (uvmfree_spec s pt 0 free)|].
  cbv beta. intros _ s' (free' & [R1 R2 R3]). exists free'. split; [done|]. split.
  - intros p. rewrite R2. unfold tables. tauto.
  - intros q Hq Hnq. apply R3; [done|]. intros Hx%R2. apply Hnq. unfold tables. tauto.
Qed.

Context {Dev : Devices} {KT : KernelText}.

Lemma wp_on_km {A} (c : M kmem A) (Q : A → kst → Prop) k :
  wp c (fun a s => Q a (set_kmm s k)) (kmm k) → wp (on_km c) Q k.
Proof. apply (wp_lift kmm (fun k m => set_kmm m k)). Qed.

Lemma proc_freepagetable_spec k pt sz free :
  0 ≤ sz ≤ ram_pages * PGSIZE → vspace (kmm k) pt (below (npages sz)) free →
  leaf_pte (upte (kmm k) pt TRP) → leaf_pte (upte (kmm k) pt TFP) →
  nothing_but (fun i => below (npages sz) i ∨ i = TRP ∨ i = TFP) (kmm k) pt →
  wp (proc_freepagetable pt sz) (fun _ k' => ∃ s' free', k' = set_kmm s' k ∧ free_pages s' free' ∧
    within (tables (kmm k) pt (npages sz) free) (kmm k) (fun p => p ∈ free') s') k.
Proof.
  intros Hsz H Htr Htf Hnb. assert (Hn : 0 ≤ npages sz ≤ ram_pages) by (unfold npages, ram_pages, PGSIZE in *; zdm).
  unfold proc_freepagetable. rewrite TRP_eq, TFP_eq.
  apply wp_bind, wp_on_km. eapply wp_mono.
  { apply (unmap_one (kmm k) pt (npages sz) free TRP (fun i => i = TFP)); try done;
      try (unfold TRP, TFP, ram_pages, PGSIZE in *; rewrite ?MAXVA_eq; lia).
    intros i Hi Him Hni. apply Hnb; tauto. }
  cbv beta. intros _ s1 (H1 & Hnb1 & Hu1 & W1).
  apply wp_bind, wp_on_km. eapply wp_mono.
  { apply (unmap_one s1 pt (npages sz) free TFP (fun i => False)); try done;
      try (unfold TRP, TFP, ram_pages, PGSIZE in *; rewrite ?MAXVA_eq; lia).
    - intros i Hi Him Hni. apply Hnb1; tauto.
    - rewrite Hu1; [done|unfold TRP, TFP, PGSIZE, SV39; lia..]. }
  cbv beta. intros _ s2 (H2 & Hnb2 & _ & W2).
  apply wp_on_km. eapply wp_mono.
  { apply (uvmfree_spec s2 pt sz free); [rewrite MAXVA_eq; unfold ram_pages, PGSIZE in *; lia|done|].
    intros i Hi Him Hni. apply Hnb2; tauto. }
  cbv beta. intros _ s3 (free' & [R1 R2 R3]). exists s3, free'. split; [done|]. split; [done|].
  eapply within_trans; [exact W1|]. eapply within_trans; [exact W2|]. split.
  - intros p. rewrite R2. unfold tables. tauto.
  - intros q Hq Hnq. apply R3; [done|]. intros Hx%R2. apply Hnq. unfold tables. tauto.
Qed.

(** A table for a process with the trap frame [tf], or nothing. *)
Lemma proc_pagetable_spec k tf free :
  free_pages (kmm k) free → page_ok tf → (tf ∉ free) →
  wp (proc_pagetable tf) (fun pt k' => ∃ s' free', k' = set_kmm s' k ∧
    (pt = 0 ∧ free_pages s' free' ∧ within (fun p => p ∈ free) (kmm k) (fun p => p ∈ free') s' ∨
     pt ≠ 0 ∧ pmem s' pt tf 0 free' ∧
       within (fun p => p ∈ free) (kmm k) (tables s' pt 0 free') s')) k.
Proof.
  intros Hf Htf Hnin. unfold proc_pagetable. rewrite TRP_eq, TFP_eq.
  assert (HTR : TRP * PGSIZE < MAXVA ∧ TRP * PGSIZE < SV39 ∧ TFP * PGSIZE < MAXVA ∧ TFP * PGSIZE < SV39 ∧ TFP < TRP ∧ 0 ≤ TFP)
    by (rewrite MAXVA_eq; unfold TRP, TFP, PGSIZE, SV39; lia).
  apply wp_bind, wp_on_km. eapply wp_mono; [by apply uvmcreate_space|].
  cbv beta. intros pt s1 [[-> ->]|(Hpt & f1 & H1 & Hz1 & W1)].
  { rewrite Z.eqb_refl. apply wp_ret. exists (kmm k), free. split; [by destruct k|]. left. eauto using within_refl. }
  rewrite (proj2 (Z.eqb_neq pt 0)) by done. apply wp_bind, wp_on_km. eapply wp_mono.
  { apply (map_foreign s1 pt (below 0) f1 TRP trampoline (Z.lor PTE_R PTE_X));
      [done|unfold below; lia|lia|lia|apply trampoline_page|done|by rewrite Hz1]. }
  cbv beta. intros r s2 (f2 & He2 & H2 & Hr2). pose proof (evolves_within s1 pt f1 s2 f2 H1 He2) as W2.
  destruct Hr2 as [[-> Hu2]|[-> Hu2]]; cbn [Z.ltb Z.compare].
  2: { apply wp_bind, wp_on_km. eapply wp_mono; [apply (uvmfree_empty s2 pt f2 H2)|].
       { intros i Hi Him _. by rewrite Hu2, Hz1. }
       cbv beta. intros _ s3 (f3 & Hf3 & W3). apply wp_ret. exists s3, f3. split; [done|]. left.
       split; [done|]. split; [done|]. by eapply within_trans, within_trans. }
  apply wp_bind, wp_on_km. eapply wp_mono.
  { apply (map_foreign s2 pt (below 0) f2 TFP tf (Z.lor PTE_R PTE_W));
      [done|unfold below; lia|lia|lia|by apply page_ok_bounds|done|].
    rewrite Hu2 by lia. rewrite decide_False by lia. by rewrite Hz1. }
  cbv beta. intros r s3 (f3 & He3 & H3 & Hr3). pose proof (evolves_within s2 pt f2 s3 f3 H2 He3) as W3.
  assert (W : within (fun p => p ∈ free) (kmm k) (tables s3 pt 0 f3) s3) by (by eapply within_trans, within_trans).
  destruct Hr3 as [[-> Hu3]|[-> Hu3]]; cbn [Z.ltb Z.compare].
  - apply wp_ret. exists s3, f3. split; [done|]. right. split; [done|]. split; [|done]. split; try done.
    + rewrite Hu3, decide_False by lia. rewrite Hu2 by lia. by rewrite decide_True.
    + rewrite Hu3 by lia. by rewrite decide_True.
    + intros i Hi Him Hni. rewrite Hu3 by done. rewrite decide_False by tauto. rewrite Hu2 by done.
      rewrite decide_False by tauto. by rewrite Hz1.
    + split; [|split].
      * intros Hx. apply Hnin, (wi_all _ _ _ _ W). by left.
      * intros Hx. apply Hnin, (wi_all _ _ _ _ W). right. by left.
      * intros i Hi. change (npages 0) with 0 in Hi. unfold below in Hi. lia.
  - apply wp_bind, wp_on_km. eapply wp_mono.
    { apply (unmap_one s3 pt 0 f3 TRP (fun i => False)); try done; try lia.
      - intros i Hi Him Hni. rewrite Hu3, Hu2 by done. rewrite decide_False by tauto. by rewrite Hz1.
      - rewrite Hu3, Hu2 by lia. rewrite decide_True by done. apply tramp_leaf. }
    cbv beta. intros _ s4 (H4 & Hnb4 & _ & W4). apply wp_bind, wp_on_km.
    eapply wp_mono; [apply (uvmfree_empty s4 pt f3 H4)|].
    { intros i Hi Him Hni. apply Hnb4; tauto. }
    cbv beta. intros _ s5 (f5 & Hf5 & W5). apply wp_ret. exists s5, f5. split; [done|]. left.
    split; [done|]. split; [done|]. eapply within_trans, within_trans; [exact W|exact W4|exact W5].
Qed.
End procmem.
