(* ===== verification/Isolation.v ===== *)
(** * No two processes share memory (kernel/proc.c, kernel/vm.c)

    [kernel_mem] is the invariant of the process table and the memory: a slot
    that is not UNUSED has a trap frame, a page table and pages of its own,
    none of them free, and no page belongs to two slots.  fork, growproc,
    freeproc and the stores of user programs keep it. *)

From stdpp Require Import functions.
From S2P Require Import Prelude Mem Riscv Kalloc Vm PageTable VmMap VmCopy VmSpace VmGrow VmFree Bio Log Fs Kstate File Proc ProcMem.

Section isolation.
Context {KI : KernelImage} {Dev : Devices} {KT : KernelText}.

(** The pages of a slot of the process table. *)
Definition slot_owns (s : kmem) (x : proc) (a : Z) : Prop :=
  p_state x ≠ UNUSED ∧ owned s (p_pagetable x) (p_trapframe x) (p_sz x) a.

Definition slot_ok (s : kmem) (x : proc) (free : list Z) : Prop :=
  (p_state x = UNUSED → p_pagetable x = 0 ∧ p_sz x = 0) ∧
  (p_state x ≠ UNUSED → pmem s (p_pagetable x) (p_trapframe x) (p_sz x) free).

Record kernel_mem (k : kst) (free : list Z) : Prop := {
  km_free : free_pages (kmm k) free;
  km_slot p : 0 ≤ p < NPROC → slot_ok (kmm k) (procs k p) free;
  km_sep p q a : 0 ≤ p < NPROC → 0 ≤ q < NPROC → p ≠ q →
    slot_owns (kmm k) (procs k p) a → ¬ slot_owns (kmm k) (procs k q) a }.

(** ** Operations on one slot *)

Lemma owned_ok s pt tf sz free a : pmem s pt tf sz free → owned s pt tf sz a → page_ok a ∧ a ∉ free.
Proof.
  intros [P1 P2 P3 P4 P5 P0 (P6 & P7 & P8)] [ -> |[Ht|(i & Hi & ->)]]; [done| |].
  - by apply (table_page_ok _ _ _ _ (vs_pt _ _ _ _ P2)).
  - destruct (vs_page _ _ _ _ P2 i Hi) as (? & ? & _). done.
Qed.

Lemma owned_frame s s' pt tf sz free :
  pmem s pt tf sz free → (∀ a, table_page (memory s) pt a → same_page a s s') →
  ∀ a, owned s' pt tf sz a ↔ owned s pt tf sz a.
Proof.
  intros [P1 P2 P3 P4 P5 P0 (P6 & P7 & P8)] Hsame a.
  unfold owned. rewrite (frame_table s s' pt free (vs_pt _ _ _ _ P2) Hsame).
  assert (Epage : ∀ i, upage s' pt i = upage s pt i).
  { intros i. unfold upage, upte. by rewrite (frame_pte s s' pt free (vs_pt _ _ _ _ P2) Hsame). }
  split; (intros [?|[?|(i & Hi & ->)]]; [auto|auto|]); right; right; exists i; by rewrite Epage.
Qed.

Lemma pmem_frame s s' pt tf sz free free' :
  pmem s pt tf sz free → (∀ a, table_page (memory s) pt a → same_page a s s') →
  free_pages s' free' → (∀ a, owned s pt tf sz a → a ∉ free') → pmem s' pt tf sz free'.
Proof.
  intros P Hsame Hf Hnf. pose proof P as [P1 P2 P3 P4 P5 P0 (P6 & P7 & P8)].
  assert (Epte : ∀ i, upte s' pt i = upte s pt i).
  { intros i. unfold upte. by rewrite (frame_pte s s' pt free (vs_pt _ _ _ _ P2) Hsame). }
  split; try done.
  - eapply vspace_frame; [exact P2|done| |].
    + intros p Hp. split; [auto|]. apply Hnf. unfold owned; auto.
    + intros i Hi. apply Hnf. unfold owned; eauto.
  - by rewrite Epte.
  - by rewrite Epte.
  - intros i Hi Him Hni. rewrite Epte. auto.
  - split; [apply Hnf; unfold owned; auto|]. rewrite (frame_table s s' pt free (vs_pt _ _ _ _ P2) Hsame).
    split; [done|]. intros i Hi. unfold upage. rewrite Epte. by apply P8.
Qed.

(** The pages of the other processes are as before. *)
Definition undisturbed (p : Z) (k k' : kst) : Prop :=
  ∀ q a, 0 ≤ q < NPROC → q ≠ p → slot_owns (kmm k) (procs k q) a → same_page a (kmm k) (kmm k').

(** What an operation on slot [p] has to show. *)
Lemma kernel_mem_step k free p k' free' :
  kernel_mem k free → 0 ≤ p < NPROC → free_pages (kmm k') free' →
  (∀ q, q ≠ p → procs k' q = procs k q) → slot_ok (kmm k') (procs k' p) free' →
  within (fun a => a ∈ free ∨ slot_owns (kmm k) (procs k p) a) (kmm k)
         (fun a => a ∈ free' ∨ slot_owns (kmm k') (procs k' p) a) (kmm k') →
  kernel_mem k' free' ∧ undisturbed p k k'.
Proof.
  intros K Hp Hf Hq Hslot [W1 W2].
  assert (Hout : ∀ q a, 0 ≤ q < NPROC → q ≠ p → slot_owns (kmm k) (procs k q) a →
    same_page a (kmm k) (kmm k') ∧ (a ∉ free') ∧ ¬ slot_owns (kmm k') (procs k' p) a).
  { intros q a Hq0 Hne Ho. assert (Hn : ¬ (a ∈ free ∨ slot_owns (kmm k) (procs k p) a)).
    { intros [Ha|Ha]; [|by apply (km_sep _ _ K q p a)]. destruct Ho as [Hu Ho].
      by apply (owned_ok _ _ _ _ _ a (proj2 (km_slot _ _ K q Hq0) Hu)). }
    split; [|split].
    - apply W2; [|done]. destruct Ho as [Hu Ho]. by apply (owned_ok _ _ _ _ _ a (proj2 (km_slot _ _ K q Hq0) Hu)).
    - intros ?. apply Hn, W1. auto.
    - intros ?. apply Hn, W1. auto. }
  assert (Hsame : ∀ q a, 0 ≤ q < NPROC → q ≠ p → slot_owns (kmm k') (procs k' q) a ↔ slot_owns (kmm k) (procs k q) a).
  { intros q a Hq0 Hne. unfold slot_owns. rewrite (Hq q Hne).
    destruct (decide (p_state (procs k q) = UNUSED)) as [Eu|Hu]; [tauto|].
    rewrite (owned_frame (kmm k) (kmm k') _ _ _ free); [done|by apply (km_slot _ _ K q Hq0)|].
    intros b Hb. apply (Hout q b); try done. split; [done|]. unfold owned. auto. }
  split; [|intros q a Hq0 Hne Ho; by apply (Hout q a)]. split; [done| |].
  - intros q Hq0. destruct (decide (q = p)) as [->|Hne]; [done|]. rewrite (Hq q Hne).
    destruct (km_slot _ _ K q Hq0) as [S1 S2]. split; [done|]. intros Hu.
    apply (pmem_frame (kmm k) (kmm k') _ _ _ free free'); [auto| |done|]; intros a Ha; apply (Hout q a); try done; (split; [done|]); unfold owned; auto.
  - intros q r a Hq0 Hr0 Hqr Ho. destruct (decide (q = p)) as [->|Hqp].
    + intros Ho'. apply (Hsame r) in Ho'; [|done|done]. by apply (Hout r a) in Ho' as (_ & _ & []).
    + apply (Hsame q) in Ho; [|done|done]. destruct (decide (r = p)) as [->|Hrp]; [by apply (Hout q a)|].
      intros Ho'. apply (Hsame r) in Ho'; [|done|done]. by apply (km_sep _ _ K q r a).
Qed.

(** Pages and entries that stay with a process. *)
Lemma owned_same s s' pt tf sz free :
  pmem s pt tf sz free → (∀ a, owned s pt tf sz a → same_page a s s') →
  (∀ i, upte s' pt i = upte s pt i) ∧ ∀ a, owned s' pt tf sz a ↔ owned s pt tf sz a.
Proof.
  intros P Hs. assert (Ht : ∀ a, table_page (memory s) pt a → same_page a s s') by (intros a Ha; apply Hs; unfold owned; auto).
  split; [|by eapply owned_frame]. intros i. unfold upte.
  apply (frame_pte s s' pt free (vs_pt _ _ _ _ (pm_space _ _ _ _ _ P)) Ht).
Qed.

Lemma undisturbed_trans p k1 k2 k3 free :
  kernel_mem k1 free → (∀ q, q ≠ p → procs k2 q = procs k1 q) →
  undisturbed p k1 k2 → undisturbed p k2 k3 → undisturbed p k1 k3.
Proof.
  intros K Hq U1 U2 q a Hq0 Hne [Hu Ho] b Hb.
  pose proof (proj2 (km_slot _ _ K q Hq0) Hu) as P.
  assert (Hs : ∀ a, owned (kmm k1) (p_pagetable (procs k1 q)) (p_trapframe (procs k1 q)) (p_sz (procs k1 q)) a →
    same_page a (kmm k1) (kmm k2)) by (intros a' Ha'; by apply (U1 q)).
  rewrite (U2 q a); [by apply (Hs a)|done|done| |done].
  unfold slot_owns. rewrite Hq by done. split; [done|]. by apply (owned_same _ _ _ _ _ _ P Hs).
Qed.

(** The parts of a process that matter for memory. *)
Definition same_slot (x y : proc) : Prop :=
  (p_state x = UNUSED ↔ p_state y = UNUSED) ∧ p_pagetable x = p_pagetable y ∧
  p_trapframe x = p_trapframe y ∧ p_sz x = p_sz y.

Lemma kernel_mem_same k free k' :
  kernel_mem k free → kmm k' = kmm k → (∀ p, same_slot (procs k p) (procs k' p)) → kernel_mem k' free.
Proof.
  intros K Em Hs.
  assert (Hown : ∀ p a, slot_owns (kmm k') (procs k' p) a ↔ slot_owns (kmm k) (procs k p) a).
  { intros p a. unfold slot_owns. rewrite Em. destruct (Hs p) as (E1 & -> & -> & ->). by rewrite E1. }
  split.
  - rewrite Em. apply K.
  - intros p Hp. destruct (km_slot _ _ K p Hp) as [S1 S2]. unfold slot_ok. rewrite Em.
    destruct (Hs p) as (E1 & E2 & E3 & E4). rewrite <- E1, <- E2, <- E3, <- E4. done.
  - intros p q a Hp Hq Hne. rewrite !Hown. by apply (km_sep _ _ K).
Qed.

(** ** freeproc *)

Lemma kfree_tf s pt tf sz free :
  pmem s pt tf sz free →
  wp (kfree tf) (fun _ s1 =>
    vspace s1 pt (below (npages sz)) (tf :: free) ∧ leaf_pte (upte s1 pt TRP) ∧ leaf_pte (upte s1 pt TFP) ∧
    nothing_but (fun i => below (npages sz) i ∨ i = TRP ∨ i = TFP) s1 pt ∧
    within (held s pt tf sz free) s (tables s1 pt (npages sz) (tf :: free)) s1) s.
Proof.
  intros [P1 P2 P3 P4 P5 P0 (P6 & P7 & P8)]. pose proof (vs_pt _ _ _ _ P2) as Hok.
  eapply wp_mono; [apply (kfree_spec s free tf P0 P6), P2|]. cbv beta. intros _ s1 [Hf1 Ho].
  assert (Hsame : ∀ q, page_ok q → q ≠ tf → same_page q s s1).
  { intros q Hq Hne. apply (only_same_page tf q s s1); try done. }
  assert (Hst : ∀ p, table_page (memory s) pt p → same_page p s s1).
  { intros p Hp. apply Hsame; [by apply (table_page_ok _ _ _ _ Hok Hp)|]. by intros ->. }
  assert (Epte : ∀ i, upte s1 pt i = upte s pt i) by (intros i; unfold upte; by rewrite (frame_pte s s1 pt free Hok Hst)).
  split; [|split; [|split; [|split]]].
  - eapply vspace_frame; [exact P2|done| |].
    + intros p Hp. split; [auto|]. apply not_elem_of_cons. split; [by intros ->|].
      by apply (table_page_ok _ _ _ _ Hok Hp).
    + intros i Hi. destruct (vs_page _ _ _ _ P2 i Hi) as (_ & ? & _). apply not_elem_of_cons. split; [|done].
      intros E. by apply (P8 i Hi).
  - rewrite Epte, P3. apply tramp_leaf.
  - rewrite Epte, P4. by apply tfp_leaf.
  - intros i Hi Him Hni. rewrite Epte. auto.
  - split.
    + intros p. unfold held, owned, tables. rewrite elem_of_cons, (frame_table s s1 pt free Hok Hst).
      assert ((∃ i, below (npages sz) i ∧ p = upage s pt i) ↔ ∃ i, below (npages sz) i ∧ p = upage s1 pt i); [|tauto].
      split; intros (i & Hi & ->); exists i; (split; [done|]); unfold upage; by rewrite Epte.
    + intros q Hq Hnq. apply Hsame; [done|]. intros ->. apply Hnq. unfold held, owned. auto.
Qed.

Lemma pmem_nonzero s pt tf sz free : pmem s pt tf sz free → tf ≠ 0 ∧ pt ≠ 0.
Proof.
  intros P. pose proof (page_ok_bounds tf (pm_tf _ _ _ _ _ P)). split; [lia|].
  assert (Hpt : page_ok pt).
  { apply (pt_page _ _ _ (vs_pt _ _ _ _ (pm_space _ _ _ _ _ P)) [] pt); [|done]. split; [by apply Forall_nil|simpl; lia]. }
  pose proof (page_ok_bounds pt Hpt). lia.
Qed.

(** The other processes are as before. *)
Definition only_slot (p : Z) (k k' : kst) : Prop :=
  (∀ q, q ≠ p → procs k' q = procs k q) ∧ cur k' = cur k ∧ ftab k' = ftab k.

Lemma only_slot_trans p k1 k2 k3 : only_slot p k1 k2 → only_slot p k2 k3 → only_slot p k1 k3.
Proof.
  intros (A1 & A2 & A3) (B1 & B2 & B3). split; [intros q Hq; by rewrite B1, A1|]. split; congruence.
Qed.

Lemma only_slot_upd p g k : only_slot p k (set_procs (alter g p (procs k)) k).
Proof. split; [|done]. intros q Hq. cbn [procs set_procs]. by rewrite fn_lookup_alter_ne. Qed.

Lemma only_slot_kmm p k s : only_slot p k (set_kmm s k).
Proof. done. Qed.

Lemma freeproc_spec k free p :
  kernel_mem k free → 0 ≤ p < NPROC → p_state (procs k p) ≠ UNUSED →
  wp (freeproc p) (fun _ k' => ∃ free', (kernel_mem k' free' ∧ undisturbed p k k') ∧ only_slot p k k' ∧
    p_state (procs k' p) = UNUSED ∧ ∀ a, a ∈ free' ↔ a ∈ free ∨ slot_owns (kmm k) (procs k p) a) k.
Proof.
  intros K Hp Hu. pose proof (proj2 (km_slot _ _ K p Hp) Hu) as P. set (x := procs k p) in *.
  destruct (pmem_nonzero _ _ _ _ _ P) as [Htf Hpt]. destruct (pm_bound _ _ _ _ _ P) as [_ Hsz].
  unfold freeproc. apply wp_bind, wp_gets. fold x.
  rewrite (proj2 (Z.eqb_neq (p_trapframe x) 0)), (proj2 (Z.eqb_neq (p_pagetable x) 0)) by done.
  apply wp_bind, wp_on_km. eapply wp_mono; [apply (kfree_tf _ _ _ _ _ P)|].
  cbv beta. intros _ s1 (H1 & L1 & L2 & N1 & W1). apply wp_bind, wp_modify, wp_bind.
  eapply wp_mono; [apply (proc_freepagetable_spec _ (p_pagetable x) (p_sz x) (p_trapframe x :: free)); done|].
  cbv beta. intros _ k2 (s2 & free' & -> & Hf2 & W2). apply wp_modify. exists free'.
  assert (W : within (fun a => a ∈ free ∨ slot_owns (kmm k) x a) (kmm k) (fun a => a ∈ free') s2).
  { eapply within_trans; [|exact W2]. eapply within_trans; [|exact W1]. split; [|done].
    intros a. unfold held, slot_owns. tauto. }
  set (k3 := set_procs _ _).
  assert (Ep : p_state (procs k3 p) = UNUSED ∧ p_pagetable (procs k3 p) = 0 ∧ p_sz (procs k3 p) = 0).
  { unfold k3. cbn [procs set_procs set_kmm]. by rewrite fn_lookup_alter. }
  assert (Hoth : only_slot p k k3).
  { split; [|done]. intros q Hq. unfold k3. cbn [procs set_procs set_kmm]. by rewrite !fn_lookup_alter_ne. }
  destruct Ep as (E1 & E2 & E3). split; [|split; [done|split; [done|intros a; symmetry; apply W]]].
  apply (kernel_mem_step k free p k3 free'); try done.
  - apply Hoth.
  - eapply within_trans; [exact W|]. split; [|done]. intros a. unfold slot_owns. rewrite E1. tauto.
Qed.

(** ** growproc *)

Lemma slot_held s x free a :
  p_state x ≠ UNUSED → (a ∈ free ∨ slot_owns s x a) ↔ held s (p_pagetable x) (p_trapframe x) (p_sz x) free a.
Proof. unfold held, slot_owns. tauto. Qed.

(** A change of the memory and the size of the running process. *)
Lemma kernel_mem_resize k free p s' sz free' :
  kernel_mem k free → 0 ≤ p < NPROC → p_state (procs k p) ≠ UNUSED →
  let x := procs k p in
  pmem s' (p_pagetable x) (p_trapframe x) sz free' →
  within (held (kmm k) (p_pagetable x) (p_trapframe x) (p_sz x) free) (kmm k)
         (held s' (p_pagetable x) (p_trapframe x) sz free') s' →
  let k' := set_procs (alter (set_sz sz) p (procs k)) (set_kmm s' k) in
  kernel_mem k' free' ∧ undisturbed p k k'.
Proof.
  intros K Hp Hu x P W k'.
  assert (E : procs k' p = set_sz sz x) by (unfold k'; cbn [procs set_procs]; by rewrite fn_lookup_alter).
  apply (kernel_mem_step k free p k' free'); try done.
  - apply (vs_free _ _ _ _ (pm_space _ _ _ _ _ P)).
  - intros q Hq. unfold k'. cbn [procs set_procs set_kmm]. by rewrite fn_lookup_alter_ne.
  - rewrite E. by split.
  - destruct W as [W1 W2]. split.
    + intros a. rewrite slot_held by done. fold x. rewrite W1, E. symmetry. by apply (slot_held s' (set_sz sz x)).
    + intros q Hq Hn. apply W2; [done|]. by rewrite <- (slot_held _ x) by done.
Qed.

Lemma growproc_spec k free n :
  kernel_mem k free → 0 ≤ cur k < NPROC → p_state (procs k (cur k)) ≠ UNUSED → - 2 ^ 31 ≤ n < 2 ^ 31 →
  wp (growproc n) (fun r k' => (r = 0 ∨ r = -1) ∧ (∃ free', kernel_mem k' free' ∧ undisturbed (cur k) k k') ∧
    only_slot (cur k) k k') k.
Proof.
  intros K Hc Hu Hn. pose proof (proj2 (km_slot _ _ K _ Hc) Hu) as P. set (x := procs k (cur k)) in *.
  unfold growproc. apply wp_bind, wp_gets, wp_bind, wp_gets. fold x.
  assert (Hoth : ∀ s sz, only_slot (cur k) k (set_procs (alter (set_sz sz) (cur k) (procs k)) (set_kmm s k))).
  { intros s' sz. split; [|done]. intros q Hq. cbn [procs set_procs]. by rewrite fn_lookup_alter_ne. }
  destruct (Z.ltb_spec 0 n) as [Hpos|Hnp]; [|destruct (Z.ltb_spec n 0) as [Hneg|Hz]].
  - apply wp_bind, wp_on_km. eapply wp_mono; [apply (grow_up _ _ _ _ _ n P); lia|].
    cbv beta. intros r s' (free' & [(-> & Hr & P' & W)|(-> & P' & W)]).
    + rewrite (proj2 (Z.eqb_neq _ _)) by lia. apply wp_bind, wp_modify, wp_ret. split; [by left|]. split; [|apply Hoth].
      exists free'. by apply (kernel_mem_resize k free (cur k) s').
    + rewrite Z.eqb_refl. apply wp_ret. split; [by right|]. split; [|by split]. exists free'.
      destruct (kernel_mem_resize k free (cur k) s' (p_sz x) free') as [K' D']; try done. split; [|exact D'].
      eapply kernel_mem_same; [exact K'|done|]. intros q. cbn [procs set_procs set_kmm]. destruct (decide (q = cur k)) as [->|Hne].
      * rewrite fn_lookup_alter. by repeat split.
      * rewrite fn_lookup_alter_ne by done. by repeat split.
  - apply wp_bind, wp_on_km. eapply wp_mono; [apply (grow_down _ _ _ _ _ n P); lia|].
    cbv beta. intros r s' (free' & P' & W). apply wp_bind, wp_modify, wp_ret. split; [by left|]. split; [|apply Hoth].
    exists free'. by apply (kernel_mem_resize k free (cur k) s').
  - apply wp_ret. split; [by left|]. split; [|done]. exists free. split; [done|]. by intros ? ? ? ? ?.
Qed.

(** ** allocproc *)

Lemma find_unused_spec n ps p : find_unused n ps = Some p → (n ≤ Z.to_nat NPROC)%nat → 0 ≤ p < NPROC ∧ p_state (ps p) = UNUSED.
Proof.
  induction n as [|n IH]; cbn [find_unused]; [done|]. intros H Hn. case_decide.
  - injection H as <-. split; [|done]. unfold NPROC in *. lia.
  - apply IH; [done|lia].
Qed.

(** A slot is given back before it has a page table. *)
Lemma freeproc_bare k free p k0 free0 :
  kernel_mem k0 free0 → 0 ≤ p < NPROC → p_state (procs k0 p) = UNUSED → only_slot p k0 k →
  p_pagetable (procs k p) = 0 → free_pages (kmm k) free →
  let tf := p_trapframe (procs k p) in
  (tf ≠ 0 → page_ok tf ∧ tf ∉ free) →
  within (fun a => a ∈ free0) (kmm k0) (fun a => a ∈ free ∨ a = tf ∧ tf ≠ 0) (kmm k) →
  wp (freeproc p) (fun _ k' => (∃ free', kernel_mem k' free' ∧ undisturbed p k0 k') ∧ only_slot p k0 k') k.
Proof.
  intros K0 Hp Hu [Ho1 Ho2] Hpt Hf tf Htf W. unfold freeproc. apply wp_bind, wp_gets. fold tf. rewrite Hpt. cbn [Z.eqb].
  apply wp_bind.
  assert (Hend : ∀ s' free', free_pages s' free' → within (fun a => a ∈ free0) (kmm k0) (fun a => a ∈ free') s' →
    ∀ k', procs k' = procs k → kmm k' = s' → cur k' = cur k ∧ ftab k' = ftab k →
    wp (do! upd_proc p (set_trapframe 0); do! ret tt; upd_proc p (fun x =>
      set_state UNUSED (set_xstate 0 (set_killed false (set_chan None (set_name (<[0%nat := 0]> (p_name x))
        (set_parent None (set_pid 0 (set_sz 0 (set_pagetable 0 x)))))))))) 
      (fun _ k' => (∃ free', kernel_mem k' free' ∧ undisturbed p k0 k') ∧ only_slot p k0 k') k').
  { intros s' free' Hf' W' k' Ep Em Ec. apply wp_bind, wp_modify, wp_bind, wp_ret, wp_modify. set (k3 := set_procs _ _).
    assert (Hoth : only_slot p k0 k3).
    { split; [|destruct Ho2, Ec; split; cbn; congruence]. intros q Hq. unfold k3. cbn [procs set_procs]. rewrite !fn_lookup_alter_ne, Ep by done. auto. }
    assert (E : p_state (procs k3 p) = UNUSED ∧ p_pagetable (procs k3 p) = 0 ∧ p_sz (procs k3 p) = 0).
    { unfold k3. cbn [procs set_procs set_kmm]. by rewrite fn_lookup_alter. }
    destruct E as (E1 & E2 & E3). split; [|done]. exists free'. assert (Emm : kmm k3 = s') by done.
    apply (kernel_mem_step k0 free0 p k3 free'); rewrite ?Emm; try done; [apply Hoth|].
    destruct W' as [W1 W2]. split; unfold slot_owns; rewrite ?Hu, ?E1; [intros a; rewrite <- W1; tauto|].
    intros q Hq Hn. apply W2; tauto. }
  destruct (Z.eqb_spec tf 0) as [E0|Hne].
  - apply wp_ret. apply (Hend (kmm k) free); try done. destruct W as [W1 W2]. split; [|done].
    intros a. rewrite W1. tauto.
  - destruct (Htf Hne) as [Hok Hnin]. apply wp_on_km. eapply wp_mono; [by apply (kfree_spec _ free tf)|].
    cbv beta. intros _ s1 [Hf1 Ho]. apply (Hend s1 (tf :: free)); try done.
    eapply within_trans; [exact W|]. split.
    + intros a. rewrite elem_of_cons. tauto.
    + intros q Hq Hn. apply (only_same_page tf q (kmm k) s1); try done. intros ->. tauto.
Qed.

Definition alloc_post (k : kst) (r : option Z) (k' : kst) : Prop :=
  ∃ p free', (kernel_mem k' free' ∧ undisturbed p k k') ∧ only_slot p k k' ∧
    match r with
    | None => p_state (procs k p) = UNUSED ∨ k' = k
    | Some q => p = q ∧ 0 ≤ p < NPROC ∧ p_state (procs k p) = UNUSED ∧ p_state (procs k' p) = USED ∧ p_sz (procs k' p) = 0
    end.

Lemma alloc_fail k p (c : M kst unit) k3 :
  p_state (procs k p) = UNUSED →
  wp c (fun _ k' => (∃ free', kernel_mem k' free' ∧ undisturbed p k k') ∧ only_slot p k k') k3 → wp (do! c; ret None) (alloc_post k) k3.
Proof.
  intros Hu Hc. apply wp_bind. eapply wp_mono; [exact Hc|]. cbv beta. intros _ k' [(f' & K') O']. apply wp_ret.
  exists p, f'. auto.
Qed.

(** The slot [p] while allocproc works on it. *)
Definition slot_is (k : kst) (p tf pt : Z) : Prop :=
  p_state (procs k p) = USED ∧ p_trapframe (procs k p) = tf ∧ p_pagetable (procs k p) = pt ∧ p_sz (procs k p) = 0.

(** allocproc once it has the trap frame. *)
Lemma alloc_table k tf f1 p k2 :
  kernel_mem k (tf :: f1) → 0 ≤ p < NPROC → p_state (procs k p) = UNUSED → only_slot p k k2 → slot_is k2 p tf 0 →
  tf ≠ 0 → page_ok tf → free_pages (kmm k2) f1 →
  within (fun a => a ∈ tf :: f1) (kmm k) (fun a => a ∈ f1 ∨ a = tf ∧ tf ≠ 0) (kmm k2) →
  wp (do pt <- proc_pagetable tf;
      do! upd_proc p (set_pagetable pt);
      if pt =? 0 then do! freeproc p; ret None
      else
        do! upd_proc p (fun x => set_context (mk_context forkret_addr (p_kstack x + PGSIZE)) x);
        ret (Some p)) (alloc_post k) k2.
Proof.
  intros K Hp Hu O2 (Est & Etf & Ept & Esz) Htf0 Hok Hf1 [A1 B1].
  assert (NoDup (tf :: f1)) as [Hnin _]%NoDup_cons by apply K.
  apply wp_bind. eapply wp_mono; [by apply (proc_pagetable_spec k2 tf f1)|].
  cbv beta. intros pt k3 (s3 & f3 & -> & Hr). apply wp_bind, wp_modify.
  set (k4 := set_procs _ _). assert (O4 : only_slot p k k4).
  { eapply only_slot_trans, only_slot_upd. eapply only_slot_trans, only_slot_kmm. done. }
  assert (E4 : slot_is k4 p tf pt) by (unfold slot_is, k4; cbn [procs set_procs set_kmm]; by rewrite fn_lookup_alter).
  assert (Em4 : kmm k4 = s3) by done. clearbody k4. destruct E4 as (E41 & E42 & E43 & E44).
  assert (Hframe : ∀ H H', (∀ a, a ∈ f1 ↔ H a) → (∀ q, page_ok q → ¬ (q ∈ f1) → same_page q (kmm k2) s3) →
    (∀ a, H' a ↔ H a ∨ a = tf) → within (fun a => a ∈ tf :: f1) (kmm k) H' s3).
  { intros H H' A3 B3 A4. split; [intros a; rewrite A1, A4, A3; tauto|].
    intros q Hq Hn b Hb. rewrite (B3 q Hq), (B1 q Hq); try done. intros Hx. apply Hn, A1. by left. }
  destruct Hr as [(-> & Hf3 & [A3 B3])|(Hpt0 & P & [A3 B3])].
  - rewrite Z.eqb_refl. apply (alloc_fail k p); [done|]. apply (freeproc_bare k4 f3 p k (tf :: f1)); rewrite ?E42, ?Em4; try done.
    + intros _. split; [done|]. by rewrite <- A3.
    + apply (Hframe _ _ A3 B3). tauto.
  - rewrite (proj2 (Z.eqb_neq pt 0)) by done. apply wp_bind, wp_modify, wp_ret.
    set (k5 := set_procs _ _). assert (O5 : only_slot p k k5) by (eapply only_slot_trans, only_slot_upd; done).
    assert (E5 : slot_is k5 p tf pt) by (unfold slot_is, k5; cbn [procs set_procs]; by rewrite fn_lookup_alter).
    assert (Em5 : kmm k5 = s3) by done. clearbody k5. destruct E5 as (E51 & E52 & E53 & E54).
    exists p, f3. split; [|done].
    apply (kernel_mem_step k (tf :: f1) p k5 f3); rewrite ?Em5; try done; [apply P|apply O5| |].
    + split; rewrite E51; [done|]. intros _. by rewrite E52, E53, E54.
    + destruct (Hframe _ (fun a => a ∈ f3 ∨ owned s3 pt tf 0 a) A3 B3) as [A B].
      { intros a. unfold tables, owned. change (npages 0) with 0. tauto. }
      unfold slot_owns. rewrite Hu, E51, E52, E53, E54. assert (USED ≠ UNUSED) by done.
      split; [intros a; specialize (A a); tauto|]. intros q Hq Hn. apply B; tauto.
Qed.

Lemma allocproc_spec k free : kernel_mem k free → wp allocproc (alloc_post k) k.
Proof.
  intros K. unfold allocproc. apply wp_bind, wp_gets.
  destruct (find_unused (Z.to_nat NPROC) (procs k)) as [p|] eqn:Ef.
  2: { apply wp_ret. exists 0, free. split; [|split; [done|by right]]. split; [done|]. by intros ? ? ? ? ?. }
  destruct (find_unused_spec _ _ _ Ef) as [Hp Hu]; [lia|]. destruct (proj1 (km_slot _ _ K p Hp) Hu) as [Hpt Hsz].
  unfold allocpid. apply wp_bind, wp_bind, wp_gets, wp_bind, wp_modify, wp_ret, wp_bind, wp_modify.
  set (k1 := set_procs _ _). assert (O1 : only_slot p k k1) by (eapply only_slot_trans; [|apply only_slot_upd]; done).
  assert (E1 : p_state (procs k1 p) = USED ∧ p_pagetable (procs k1 p) = 0 ∧ p_sz (procs k1 p) = 0).
  { unfold k1. cbn [procs set_procs set_nextpid]. rewrite fn_lookup_alter. done. }
  assert (Em1 : kmm k1 = kmm k) by done. clearbody k1.
  apply wp_bind, wp_on_km. eapply wp_mono; [rewrite Em1; apply kalloc_cases, K|].
  cbv beta. intros tf s1 Htf. apply wp_bind, wp_modify.
  set (k2 := set_procs _ _). assert (O2 : only_slot p k k2).
  { eapply only_slot_trans, only_slot_upd. eapply only_slot_trans, only_slot_kmm. done. }
  assert (E2 : slot_is k2 p tf 0).
  { unfold slot_is, k2. cbn [procs set_procs set_kmm]. rewrite fn_lookup_alter. destruct E1 as (? & ? & ?). done. }
  assert (Em2 : kmm k2 = s1) by done. clearbody k2. destruct E2 as (Est & Etf & Ept & Esz).
  destruct Htf as [(-> & -> & ->)|(f1 & -> & Htf0 & Hok & Hf1 & Honly & _)].
  - rewrite Z.eqb_refl. apply (alloc_fail k p); [done|]. apply (freeproc_bare k2 [] p k []); rewrite ?Etf, ?Em2; try done; [apply K|].
    split; [|done]. intros a. split; [by left|]. intros [?|[? []]]; done.
  - rewrite (proj2 (Z.eqb_neq tf 0)) by done. apply (alloc_table k tf f1); rewrite ?Em2; try done.
    split; [intros a; rewrite elem_of_cons; tauto|]. intros q Hq Hn. rewrite elem_of_cons in Hn.
    apply (only_same_page tf q (kmm k) s1); try done. intros <-. tauto.
Qed.

(** ** Stores to the pages of a process *)

Lemma kernel_mem_store k free p a s' :
  kernel_mem k free → 0 ≤ p < NPROC → slot_owns (kmm k) (procs k p) a →
  ¬ table_page (memory (kmm k)) (p_pagetable (procs k p)) a →
  only_page a (kmm k) s' → freelist s' = freelist (kmm k) →
  kernel_mem (set_kmm s' k) free ∧ undisturbed p k (set_kmm s' k).
Proof.
  intros K Hp [Hu Ho] Hnt Hs Hfl. pose proof (proj2 (km_slot _ _ K p Hp) Hu) as P. set (x := procs k p) in *.
  destruct (owned_ok _ _ _ _ _ a P Ho) as [Hok Hnf].
  assert (Hsame : ∀ q, page_ok q → q ≠ a → same_page q (kmm k) s').
  { intros q Hq Hne. apply (only_same_page a q (kmm k) s'); try done. }
  assert (Ht : ∀ q, table_page (memory (kmm k)) (p_pagetable x) q → same_page q (kmm k) s').
  { intros q Hq. apply Hsame; [|by intros ->]. apply (owned_ok _ _ _ _ _ q P). unfold owned. auto. }
  assert (Hf : free_pages s' free).
  { replace s' with (set_memory (memory s') (kmm k)) by (destruct s'; unfold set_memory; by rewrite <- Hfl).
    apply free_pages_frame; [|apply K]. intros q b Hq. apply Hsame; [by apply (free_pages_ok _ _ _ (km_free _ _ K))|].
    by intros ->. }
  apply (kernel_mem_step k free p (set_kmm s' k) free); try done; cbn [kmm set_kmm procs]; fold x.
  - split; [by intros ?|]. intros _. eapply pmem_frame; [exact P|exact Ht|done|].
    intros q Hq. by apply (owned_ok _ _ _ _ _ q P).
  - split.
    + intros q. unfold slot_owns. by rewrite (owned_frame _ _ _ _ _ _ P Ht).
    + intros q Hq Hn. apply Hsame; [done|]. intros ->. apply Hn. right. done.
Qed.
End isolation.
