(* ===== verification/Fork.v ===== *)
(** * fork (kernel/proc.c)

    The child gets a copy of the memory, the trap frame and the open files of
    the parent, and shares no page with it; a fork that fails leaves no trace. *)

From stdpp Require Import functions relations.
From S2P Require Import Prelude Mem Riscv Kalloc Vm PageTable VmMap VmCopy VmSpace VmGrow VmFree Bio Log Fs Kstate File Proc ProcMem Isolation.

Section fork.
Context {KI : KernelImage} {Dev : Devices} {KT : KernelText}.

(** ** The memory *)

(** The pages of [y] in [s'] have the contents and the flags that those of
    [x] have in [s]. *)
Definition same_image (s : kmem) (pt : Z) (s' : kmem) (pt' sz : Z) : Prop :=
  ∀ i, below (npages sz) i →
    PTE_FLAGS (upte s' pt' i) = PTE_FLAGS (upte s pt i) ∧
    ∀ o, 0 ≤ o < PGSIZE → ld8 (memory s') (upage s' pt' i + o) = ld8 (memory s) (upage s pt i + o).

Lemma fork_copy k free q c :
  kernel_mem k free → 0 ≤ q < NPROC → 0 ≤ c < NPROC → q ≠ c →
  p_state (procs k q) ≠ UNUSED → p_state (procs k c) ≠ UNUSED → p_sz (procs k c) = 0 →
  let p := procs k q in let x := procs k c in
  wp (uvmcopy (p_pagetable p) (p_pagetable x) (p_sz p)) (fun r s' => ∃ free' sz,
    (r = 0 ∧ sz = p_sz p ∧ same_image (kmm k) (p_pagetable p) s' (p_pagetable x) sz ∨ r = -1 ∧ sz = 0) ∧
    pmem s' (p_pagetable x) (p_trapframe x) sz free' ∧
    within (held (kmm k) (p_pagetable x) (p_trapframe x) (p_sz x) free) (kmm k)
           (held s' (p_pagetable x) (p_trapframe x) sz free') s') (kmm k).
Proof.
  intros K Hq Hc Hqc Huq Huc Hsz p x. pose proof (proj2 (km_slot _ _ K q Hq) Huq) as Pq.
  pose proof (proj2 (km_slot _ _ K c Hc) Huc) as Pc. fold p in Pq. fold x in Pc, Hsz. rewrite Hsz in Pc |- *.
  destruct (pm_bound _ _ _ _ _ Pq) as [Hn Hb]. set (n := npages (p_sz p)) in *.
  assert (Hnsz : n * PGSIZE < p_sz p + PGSIZE ∧ p_sz p ≤ n * PGSIZE) by (unfold n, npages, PGSIZE; zdm).
  unfold ram_pages in Hn, Hb. unfold uvmcopy. eapply wp_mono.
  { apply (uvmcopy_loop_spec (kmm k) (p_pagetable p) (p_pagetable x) n free) with (sz := p_sz p) (k := 0) (s := kmm k) (f := free).
    - apply Pq.
    - intros a Ha Ht. apply (km_sep _ _ K q c a Hq Hc Hqc); (split; [done|]); unfold owned; fold p x; tauto.
    - intros i Hi. apply (pm_none _ _ _ _ _ Pc); change (npages 0) with 0; unfold below, TRP, TFP, PGSIZE, SV39 in *; lia.
    - lia.
    - lia.
    - lia.
    - rewrite MAXVA_eq. unfold PGSIZE in *. lia.
    - fold (npages (p_sz p)). fold n. rewrite Z2Nat.id by lia. lia.
    - apply building_start, Pc. }
  cbv beta. intros r s' (f' & [[-> B]|[-> U]]).
  - exists f', (p_sz p). split; [left; split; [done|split; [done|]]|].
    + intros i Hi. fold n in Hi. unfold below in Hi. split.
      * rewrite (bd_entry _ _ _ _ _ _ _ _ _ _ B) by lia. apply lor_flags_V. by apply (vs_leaf _ _ _ _ (pm_space _ _ _ _ _ Pq)).
      * intros o Ho. by rewrite (bd_bytes _ _ _ _ _ _ _ _ _ _ B) by lia.
    + apply (pmem_taken (kmm k) (p_pagetable x) (p_trapframe x) 0 free s' f' (p_sz p) 0 Pc); fold n; try (unfold TFP; lia); [apply B|apply B|].
      intros j Hj Hjm Hnj. left. by apply (bd_pte _ _ _ _ _ _ _ _ _ _ B).
  - exists f', 0. split; [by right|].
    apply (pmem_taken (kmm k) (p_pagetable x) (p_trapframe x) 0 free s' f' 0 n Pc); try (unfold TFP; lia); [apply U|apply U|done|].
    intros j Hj Hjm _. by apply (un_pte _ _ _ _ _ _ _ U).
Qed.

(** ** The open files *)

Definition with_ofile (o : Z → option Z) (x : proc) : proc :=
  mk_proc (p_state x) (p_chan x) (p_killed x) (p_xstate x) (p_pid x) (p_parent x) (p_kstack x) (p_sz x) (p_pagetable x)
    (p_trapframe x) (p_context x) o (p_cwd x) (p_name x).

Lemma with_ofile_same x : with_ofile (p_ofile x) x = x.
Proof. by destruct x. Qed.

(** What fork asks of the files that the parent has open. *)
Definition files_open (ofile : Z → option Z) (k : kst) : Prop :=
  ∀ fd f, 0 ≤ fd < NOFILE → ofile fd = Some f → 1 ≤ f_ref (ftab k f).

Lemma fork_files_spec ofile c n : ∀ k,
  (n ≤ Z.to_nat NOFILE)%nat → files_open ofile k →
  wp (fork_files n ofile c) (fun _ k' =>
    kmm k' = kmm k ∧ cur k' = cur k ∧ (∀ q, q ≠ c → procs k' q = procs k q) ∧
    (∃ o, procs k' c = with_ofile o (procs k c)) ∧
    (∀ fd f, NOFILE - Z.of_nat n ≤ fd < NOFILE → ofile fd = Some f → p_ofile (procs k' c) fd = Some f) ∧
    (∀ fd, fd < NOFILE - Z.of_nat n → p_ofile (procs k' c) fd = p_ofile (procs k c) fd)) k.
Proof.
  induction n as [|n IH]; intros k Hn Hop; cbn [fork_files].
  { apply wp_ret. repeat split; try done; [|lia]. exists (p_ofile (procs k c)). by rewrite with_ofile_same. }
  set (i := NOFILE - Z.of_nat (S n)). assert (Hi : 0 ≤ i < NOFILE) by (unfold i, NOFILE in *; lia).
  replace (NOFILE - Z.of_nat n) with (i + 1) in IH by lia. apply wp_bind.
  destruct (ofile i) as [f|] eqn:Ef.
  - pose proof (Hop i f Hi Ef) as Href. unfold filedup. apply wp_bind, wp_bind, wp_gets.
    rewrite (proj2 (Z.ltb_ge _ _)) by lia. apply wp_bind, wp_modify, wp_ret, wp_modify.
    set (k1 := set_procs _ _). eapply wp_mono.
    { apply (IH k1); [lia|]. intros fd g Hfd Eg. unfold k1. cbn [ftab set_procs set_ftab].
      destruct (decide (f = g)) as [->|Hne]; [rewrite fn_lookup_alter|rewrite fn_lookup_alter_ne by done].
      - destruct (ftab k g). cbn in *. lia.
      - by apply (Hop fd g). }
    cbv beta. intros _ k' (E1 & E2 & E3 & (o & E4) & E5 & E6). split; [done|]. split; [done|]. split; [|split; [|split]].
    + intros q Hq. rewrite E3 by done. unfold k1. cbn [procs set_procs]. by rewrite fn_lookup_alter_ne.
    + exists o. rewrite E4. unfold k1. cbn [procs set_procs set_ftab]. by rewrite fn_lookup_alter.
    + intros fd g Hfd Eg. destruct (decide (fd = i)) as [->|Hne]; [|apply E5; [lia|done]].
      rewrite E6 by lia. unfold k1. cbn [procs set_procs set_ftab]. rewrite fn_lookup_alter. cbn. rewrite fn_lookup_insert. congruence.
    + intros fd Hfd. rewrite E6 by lia. unfold k1. cbn [procs set_procs set_ftab]. rewrite fn_lookup_alter. cbn.
      by rewrite fn_lookup_insert_ne by lia.
  - apply wp_ret. eapply wp_mono; [by apply (IH k); [lia|]|].
    cbv beta. intros _ k' (E1 & E2 & E3 & E4 & E5 & E6). repeat (split; [done|]). split.
    + intros fd g Hfd Eg. apply E5; [|done]. destruct (decide (fd = i)) as [->|]; [congruence|lia].
    + intros fd Hfd. apply E6. lia.
Qed.

Lemma idup_spec i k :
  wp (on_fs (idup i)) (fun r k' => r = i ∧ kmm k' = kmm k ∧ cur k' = cur k ∧ procs k' = procs k) k.
Proof. by apply wp_lift, wp_bind, wp_modify, wp_ret. Qed.

(** ** The trap frame *)

(** The child returns 0 from fork, and is otherwise where the parent is. *)
Definition child_frame (s : kmem) (tf : Z) (s' : kmem) (tf' : Z) : Prop :=
  ld64 (memory s') (tf' + tf_a0) = 0 ∧
  ∀ o, 0 ≤ o < sizeof_trapframe → ¬ (tf_a0 ≤ o < tf_a0 + 8) → ld8 (memory s') (tf' + o) = ld8 (memory s) (tf + o).

Lemma copy_frame s tf tf' :
  let s' := set_memory (st64 (copy (memory s) tf' tf sizeof_trapframe) (tf' + tf_a0) 0) s in
  child_frame s tf s' tf' ∧ only_page tf' s s'.
Proof.
  unfold child_frame, only_page, tf_a0, sizeof_trapframe, PGSIZE. cbn [memory set_memory]. split; [split|].
  - by rewrite ld64_st64_eq.
  - intros o Ho Hn. unfold st64. rewrite (ld8_stn_out 8), ld8_copy_in by lia. f_equal. lia.
  - intros b Hb. unfold st64. by rewrite (ld8_stn_out 8), ld8_copy_out by lia.
Qed.

(** ** From the copied memory on *)

Record started (k : kst) (q c : Z) (p : proc) (k' : kst) : Prop := {
  sd_others r : r ≠ c → procs k' r = procs k r;
  sd_cur : cur k' = cur k;
  sd_state : p_state (procs k' c) = RUNNABLE;
  sd_parent : p_parent (procs k' c) = Some q;
  sd_pid : p_pid (procs k' c) = p_pid (procs k c);
  sd_cwd : p_cwd (procs k' c) = p_cwd p;
  sd_mem : p_sz (procs k' c) = p_sz (procs k c) ∧ p_pagetable (procs k' c) = p_pagetable (procs k c) ∧
    p_trapframe (procs k' c) = p_trapframe (procs k c);
  sd_files fd f : 0 ≤ fd < NOFILE → p_ofile p fd = Some f → p_ofile (procs k' c) fd = Some f;
  sd_frame : child_frame (kmm k) (p_trapframe p) (kmm k') (p_trapframe (procs k c));
  sd_only : only_page (p_trapframe (procs k c)) (kmm k) (kmm k') }.

Lemma fork_start k free q c p x :
  kernel_mem k free → 0 ≤ c < NPROC → p_state (procs k c) ≠ UNUSED →
  p_trapframe x = p_trapframe (procs k c) → files_open (p_ofile p) k → p_cwd p ≠ None →
  wp (do! on_km (memmove (p_trapframe x) (p_trapframe p) sizeof_trapframe);
      do! tf_set (p_trapframe x) tf_a0 0;
      do! fork_files (Z.to_nat NOFILE) (p_ofile p) c;
      do cwd <- match p_cwd p with
                | None => panic "kerneltrap"
                | Some i => on_fs (idup i)
                end;
      do! upd_proc c (set_cwd (Some cwd));
      do! upd_proc c (fun x => set_name (name_copy (p_name x) (p_name p)) x);
      do! upd_proc c (set_parent (Some q));
      do! upd_proc c (set_state RUNNABLE);
      ret (p_pid x)) (fun r k' => r = p_pid x ∧ kernel_mem k' free ∧ undisturbed c k k' ∧ started k q c p k') k.
Proof.
  intros K Hc Hu -> Hop Hcwd. set (tf := p_trapframe (procs k c)).
  pose proof (proj2 (km_slot _ _ K c Hc) Hu) as P.
  apply wp_bind, wp_on_km, wp_modify, wp_bind, wp_on_km, wp_modify. cbn [memory set_memory kmm set_kmm].
  destruct (copy_frame (kmm k) (p_trapframe p) tf) as [Hframe Honly].
  set (s2 := set_memory _ _) in Hframe, Honly.
  destruct (kernel_mem_store k free c tf s2) as [K2 D2]; try done.
  { split; [done|]. by left. }
  { by apply (pm_own _ _ _ _ _ P). }
  set (k2 := set_kmm _ _). change (kernel_mem k2 free) in K2. assert (Em : kmm k2 = s2) by done.
  assert (Ep : procs k2 = procs k ∧ cur k2 = cur k) by done. destruct Ep as [Ep Ec].
  assert (Hop2 : files_open (p_ofile p) k2) by exact Hop. clearbody k2.
  apply wp_bind. eapply wp_mono; [by apply (fork_files_spec _ c _ k2)|].
  cbv beta. intros _ k3 (F1 & F2 & F3 & (o & F4) & F5 & _). apply wp_bind.
  destruct (p_cwd p) as [i|] eqn:Ei; [|done]. eapply wp_mono; [apply idup_spec|].
  cbv beta. intros _ k4 (-> & G1 & G2 & G3).
  do 4 apply wp_bind, wp_modify. apply wp_ret. set (k5 := set_procs _ _).
  assert (E5 : procs k5 c = set_state RUNNABLE (set_parent (Some q) (set_name
     (name_copy (p_name (with_ofile o (procs k c))) (p_name p)) (set_cwd (Some i) (with_ofile o (procs k c)))))).
  { unfold k5. cbn [procs set_procs]. rewrite !fn_lookup_alter, G3, F4, Ep. done. }
  assert (Eo : p_ofile (procs k3 c) = o) by (by rewrite F4).
  assert (Oth : ∀ r, r ≠ c → procs k5 r = procs k r).
  { intros r Hr. unfold k5. cbn [procs set_procs]. rewrite !fn_lookup_alter_ne, G3, F3, Ep by done. done. }
  assert (Em5 : kmm k5 = s2) by (unfold k5; cbn [kmm set_procs]; congruence).
  assert (Ec5 : cur k5 = cur k) by (unfold k5; cbn [cur set_procs]; congruence). clearbody k5.
  split; [done|]. split; [|split].
  - eapply kernel_mem_same; [exact K2|congruence|]. intros r. rewrite Ep.
    destruct (decide (r = c)) as [->|Hr]; [|by rewrite Oth]. rewrite E5. by repeat split.
  - intros r a Hr Hrc Ho. rewrite Em5. by apply (D2 r a).
  - split; rewrite ?E5, ?Em5; try done. intros fd f Hfd Ef. cbn. rewrite <- Eo. by apply F5.
Qed.

(** ** fork *)

Lemma image_same s s' pt tf sz free :
  pmem s pt tf sz free → (∀ a, owned s pt tf sz a → a ≠ tf → same_page a s s') → same_image s pt s' pt sz.
Proof.
  intros P Hs. pose proof P as [P1 P2 P3 P4 P5 P0 (P6 & P7 & P8)].
  assert (Ht : ∀ a, table_page (memory s) pt a → same_page a s s').
  { intros a Ha. apply Hs; [unfold owned; auto|]. by intros ->. }
  assert (Epte : ∀ i, upte s' pt i = upte s pt i) by (intros i; unfold upte; by rewrite (frame_pte s s' pt free (vs_pt _ _ _ _ P2) Ht)).
  intros i Hi. unfold upage. rewrite Epte. split; [done|]. intros o Ho. apply (Hs (upage s pt i)); [unfold owned; eauto| |].
  - intros E. by apply (P8 i).
  - unfold upage. lia.
Qed.

Lemma same_image_trans s1 p1 s2 p2 s3 p3 sz :
  same_image s1 p1 s2 p2 sz → same_image s2 p2 s3 p3 sz → same_image s1 p1 s3 p3 sz.
Proof.
  intros A B i Hi. destruct (A i Hi) as [A1 A2], (B i Hi) as [B1 B2]. split; [congruence|].
  intros o Ho. by rewrite B2, A2.
Qed.

(** The child in slot [c] of [k'], as the running process of [k] made it. *)
Record forked (k : kst) (r : Z) (k' : kst) (c : Z) : Prop := {
  fk_slot : 0 ≤ c < NPROC ∧ p_state (procs k c) = UNUSED ∧ p_state (procs k' c) = RUNNABLE;
  fk_pid : r = p_pid (procs k' c);
  fk_parent : p_parent (procs k' c) = Some (cur k);
  fk_cwd : p_cwd (procs k' c) = p_cwd (procs k (cur k));
  fk_files fd f : 0 ≤ fd < NOFILE → p_ofile (procs k (cur k)) fd = Some f → p_ofile (procs k' c) fd = Some f;
  fk_sz : p_sz (procs k' c) = p_sz (procs k (cur k));
  fk_image : same_image (kmm k) (p_pagetable (procs k (cur k))) (kmm k') (p_pagetable (procs k' c)) (p_sz (procs k (cur k)));
  fk_frame : child_frame (kmm k) (p_trapframe (procs k (cur k))) (kmm k') (p_trapframe (procs k' c)) }.

(** The processes of [k] have not noticed. *)
Definition unnoticed (k k' : kst) : Prop :=
  ∀ q, 0 ≤ q < NPROC → p_state (procs k q) ≠ UNUSED →
    procs k' q = procs k q ∧ ∀ a, slot_owns (kmm k) (procs k q) a → same_page a (kmm k) (kmm k').

Lemma unnoticed_slot k k' c :
  p_state (procs k c) = UNUSED → (∀ q, q ≠ c → procs k' q = procs k q) → undisturbed c k k' → unnoticed k k'.
Proof.
  intros Hc Hq U q Hq0 Hu. assert (q ≠ c) by (by intros ->). split; [auto|]. intros a Ha. by apply (U q a).
Qed.

Definition fork_post (k : kst) (r : Z) (k' : kst) : Prop :=
  (∃ free', kernel_mem k' free') ∧ unnoticed k k' ∧ (r = -1 ∨ ∃ c, forked k r k' c).

(** What the steps after allocproc have done to the child. *)
Lemma forked_child k free c k1 k3 k' s' f1 r :
  let p := procs k (cur k) in let x := procs k1 c in
  kernel_mem k free → 0 ≤ cur k < NPROC → p_state p ≠ UNUSED → 0 ≤ c < NPROC → p_state (procs k c) = UNUSED →
  only_slot c k k1 → undisturbed c k k1 →
  k3 = set_procs (alter (set_sz (p_sz p)) c (procs k1)) (set_kmm s' k1) → undisturbed c k k3 →
  pmem s' (p_pagetable x) (p_trapframe x) (p_sz p) f1 →
  same_image (kmm k1) (p_pagetable p) s' (p_pagetable x) (p_sz p) →
  started k3 (cur k) c p k' → r = p_pid x → forked k r k' c.
Proof.
  intros p x K Hcur Hu Hc Hcu (O1 & O2 & O3) U1 -> U3 P' I1 [S1 S2 S3 S4 S5 S6 (S7 & S8 & S9) S10 S11 S12] ->.
  set (k3 := set_procs _ _) in *. pose proof (proj2 (km_slot _ _ K _ Hcur) Hu) as P. fold p in P.
  assert (Hne : cur k ≠ c) by (intros E; apply Hu; unfold p; by rewrite E).
  assert (E3 : procs k3 c = set_sz (p_sz p) x) by (unfold k3; cbn [procs set_procs]; by rewrite fn_lookup_alter).
  assert (Em3 : kmm k3 = s') by done. clearbody k3. rewrite E3 in *. rewrite Em3 in *. cbn [set_sz p_sz p_pagetable p_trapframe p_pid] in *.
  split; fold p; try done.
  - rewrite S8. eapply same_image_trans; [|eapply same_image_trans; [exact I1|]].
    + eapply image_same; [exact P|]. intros a Ha _. by apply (U1 (cur k) a).
    + eapply image_same; [exact P'|]. intros a Ha Htf. apply (only_same_page (p_trapframe x) a s' (kmm k')); [| |done|done].
      * apply (pm_tf _ _ _ _ _ P').
      * by apply (owned_ok _ _ _ _ _ a P').
  - rewrite S9. destruct S11 as [F1 F2]. split; [done|]. intros o Ho Hn. rewrite F2, <- Em3 by done.
    apply (U3 (cur k) (p_trapframe p)); try done; [split; [done|by left]|]. unfold sizeof_trapframe, PGSIZE in *. lia.
Qed.
Lemma fork_spec k free :
  kernel_mem k free → 0 ≤ cur k < NPROC → p_state (procs k (cur k)) ≠ UNUSED →
  files_open (p_ofile (procs k (cur k))) k → p_cwd (procs k (cur k)) ≠ None →
  wp fork (fork_post k) k.
Proof.
  intros K Hcur Hu Hop Hcwd. unfold fork. apply wp_bind, wp_gets, wp_bind.
  eapply wp_mono; [by apply (allocproc_spec k free)|]. cbv beta.
  intros [c|] k1 (c' & f1 & [K1 U1] & O1 & Hr).
  2: { apply wp_ret. split; [by exists f1|]. split; [|by left].
       destruct Hr as [Hc| ->]; [apply (unnoticed_slot k k1 c'); try done; apply O1|by split]. }
  destruct Hr as (-> & Hc & Hcu & Hcs & Hcz). destruct O1 as (O1 & O2 & O3).
  assert (Hne : cur k ≠ c) by (by intros <-).
  apply wp_bind, wp_gets, wp_bind, wp_gets. rewrite O1 by done. set (p := procs k (cur k)) in *.
  assert (Ep1 : procs k1 (cur k) = p) by (by apply O1).
  apply wp_bind, wp_on_km. eapply wp_mono.
  { pose proof (fork_copy k1 f1 (cur k) c) as F. cbv zeta in F. rewrite Ep1 in F. apply F; try done. by rewrite Hcs. }
  cbv beta. intros r s' (f2 & sz & Hr & P' & W).
  set (k3 := set_procs (alter (set_sz sz) c (procs k1)) (set_kmm s' k1)).
  destruct (kernel_mem_resize k1 f1 c s' sz f2) as [K3 U3]; try done; [by rewrite Hcs|]. fold k3 in K3, U3.
  assert (U13 : undisturbed c k k3) by (by eapply undisturbed_trans).
  assert (O13 : ∀ q, q ≠ c → procs k3 q = procs k q).
  { intros q Hq. unfold k3. cbn [procs set_procs]. rewrite fn_lookup_alter_ne by done. auto. }
  destruct Hr as [(-> & -> & I1)|(-> & ->)]; cbn [Z.ltb Z.compare].
  - apply wp_bind, wp_modify. fold k3. eapply wp_mono.
    { apply (fork_start k3 f2 (cur k) c p (procs k1 c)); try done; unfold k3; cbn [procs set_procs]; rewrite ?fn_lookup_alter; try done.
      - cbn. by rewrite Hcs.
      - intros fd f Hfd Ef. cbn [ftab set_procs set_kmm]. rewrite O3. by apply (Hop fd). }
    cbv beta. intros r k' (-> & K' & U' & S'). split; [by exists f2|].
    assert (U : undisturbed c k k') by (by eapply (undisturbed_trans c k k3)). split.
    + apply (unnoticed_slot k k' c); try done. intros q Hq. rewrite (sd_others _ _ _ _ _ S') by done. auto.
    + right. exists c. by apply (forked_child k free c k1 k3 k' s' f2).
  - set (k2 := set_kmm s' k1). assert (K2 : kernel_mem k2 f2).
    { eapply kernel_mem_same; [exact K3|done|]. intros q. unfold k3. cbn [procs set_procs].
      destruct (decide (q = c)) as [->|Hq]; [rewrite fn_lookup_alter|rewrite fn_lookup_alter_ne by done]; by repeat split. }
    apply wp_bind. eapply wp_mono; [apply (freeproc_spec k2 f2 c K2 Hc); cbn [procs set_kmm k2]; by rewrite Hcs|].
    cbv beta. intros _ k' (f' & [K' U'] & (O4 & _) & _). apply wp_ret. split; [by exists f'|]. split; [|by left].
    apply (unnoticed_slot k k' c); try done.
    + intros q Hq. rewrite O4 by done. apply O1. done.
    + eapply (undisturbed_trans c k k2); try done.
Qed.
End fork.

(** C8: fork().  For a running process whose open files are counted and which
    has a current directory, fork does not panic.  It returns -1, or the pid
    of a new process that is ready to run, has the same size, a copy of the
    memory with the same permissions, the same trap frame but for the return
    value 0, the same files and directory, and the caller as its parent.  In
    both cases no process that existed has been changed, nor a byte of its
    memory, and no two processes share a page afterwards. *)
Theorem fork_copies {KI : KernelImage} {KT : KernelText} k free :
  kernel_mem k free → 0 ≤ cur k < NPROC → p_state (procs k (cur k)) ≠ UNUSED →
  files_open (p_ofile (procs k (cur k))) k → p_cwd (procs k (cur k)) ≠ None →
  wp fork (fork_post k) k.
Proof. apply fork_spec. Qed.

(** ** Any number of processes *)

Section steps.
Context {KI : KernelImage} {Dev : Devices} {KT : KernelText}.

Definition running (k : kst) : Prop := 0 ≤ cur k < NPROC ∧ p_state (procs k (cur k)) ≠ UNUSED.

(** What the kernel and the programs do to memory: allocproc, fork and
    growproc of the running process, freeproc (by wait), a store of the
    program to one of its pages, and everything that does not concern memory
    (scheduling, files, exit). *)
Inductive mem_step (k : kst) : kst → Prop :=
  | ms_alloc r k' : allocproc k = Ok (r, k') → mem_step k k'
  | ms_fork r k' : running k → files_open (p_ofile (procs k (cur k))) k → p_cwd (procs k (cur k)) ≠ None →
      fork k = Ok (r, k') → mem_step k k'
  | ms_grow n r k' : running k → - 2 ^ 31 ≤ n < 2 ^ 31 → growproc n k = Ok (r, k') → mem_step k k'
  | ms_free p k' : 0 ≤ p < NPROC → p_state (procs k p) ≠ UNUSED → freeproc p k = Ok (tt, k') → mem_step k k'
  | ms_store i s' : running k → below (npages (p_sz (procs k (cur k)))) i →
      only_page (upage (kmm k) (p_pagetable (procs k (cur k))) i) (kmm k) s' → freelist s' = freelist (kmm k) →
      mem_step k (set_kmm s' k)
  | ms_other k' : kmm k' = kmm k → (∀ p, same_slot (procs k p) (procs k' p)) → mem_step k k'.

Lemma mem_step_keeps k free k' : kernel_mem k free → mem_step k k' → ∃ free', kernel_mem k' free'.
Proof.
  intros K [r k1 E|r k1 [Hc Hu] Hf Hd E|n r k1 [Hc Hu] Hn E|p k1 Hp Hu E|i s' [Hc Hu] Hi Ho Hl|k1 Em Hs].
  - apply (wp_elim _ _ _ _ _ (allocproc_spec k free K)) in E as (p & f & [? _] & _). by exists f.
  - apply (wp_elim _ _ _ _ _ (fork_spec k free K Hc Hu Hf Hd)) in E as (? & _). done.
  - apply (wp_elim _ _ _ _ _ (growproc_spec k free n K Hc Hu Hn)) in E as (_ & (f & ? & _) & _). by exists f.
  - apply (wp_elim _ _ _ _ _ (freeproc_spec k free p K Hp Hu)) in E as (f & [? _] & _). by exists f.
  - exists free. pose proof (proj2 (km_slot _ _ K _ Hc) Hu) as P.
    apply (kernel_mem_store k free (cur k) (upage (kmm k) (p_pagetable (procs k (cur k))) i) s'); try done.
    + split; [done|]. right. right. by exists i.
    + by apply (vs_page _ _ _ _ (pm_space _ _ _ _ _ P) i Hi).
  - exists free. by apply (kernel_mem_same k).
Qed.
End steps.

(** C7: Processes do not share memory.  Whatever sequence of allocations of
    processes, forks, changes of size, releases and stores the kernel and the
    programs go through, the process table and the memory stay well formed:
    every process has its trap frame, its page table and its pages to itself,
    the table maps exactly the pages below the size of the process, the
    trampoline and the trap frame, none of these pages is free, and none
    belongs to another process.  In such a state growproc by any amount, also
    one beyond the memory of the machine, runs to its end without a panic, and
    freeproc of any process gives back exactly the pages that it has. *)
Theorem processes_isolated {KI : KernelImage} {KT : KernelText} k0 free0 k :
  kernel_mem k0 free0 → rtc mem_step k0 k →
  (∃ free, kernel_mem k free ∧
     ∀ p, 0 ≤ p < NPROC → p_state (procs k p) ≠ UNUSED → ∃ k' free', freeproc p k = Ok (tt, k') ∧ kernel_mem k' free' ∧
       ∀ a, a ∈ free' ↔ a ∈ free ∨ slot_owns (kmm k) (procs k p) a) ∧
  (∀ p q i a, 0 ≤ p < NPROC → p_state (procs k p) ≠ UNUSED → 0 ≤ q < NPROC → p ≠ q →
     below (npages (p_sz (procs k p))) i → a = upage (kmm k) (p_pagetable (procs k p)) i →
     ¬ slot_owns (kmm k) (procs k q) a) ∧
  (running k → ∀ n, - 2 ^ 31 ≤ n < 2 ^ 31 → ∃ r k', growproc n k = Ok (r, k') ∧ (r = 0 ∨ r = -1)).
Proof.
  intros K0 Hr. assert (∃ free, kernel_mem k free) as [free K].
  { revert free0 K0. induction Hr as [k|k k1 k2 Hs _ IH]; intros f K; [by exists f|].
    destruct (mem_step_keeps k f k1 K Hs) as [f1 K1]. by apply (IH f1). }
  split; [|split].
  - exists free. split; [done|]. intros p Hp Hu.
    destruct (proj1 (wp_ok _ _ _) (freeproc_spec k free p K Hp Hu)) as ([] & k' & E & f' & [K' _] & _ & _ & Hf). eauto.
  - intros p q i a Hp Hu Hq Hne Hi ->. apply (km_sep _ _ K p q); try done. split; [done|]. right. right. by exists i.
  - intros [Hc Hu] n Hn. destruct (proj1 (wp_ok _ _ _) (growproc_spec k free n K Hc Hu Hn)) as (r & k' & E & ? & _). eauto.
Qed.

(** ** An example: a pool of pages, two processes *)

(** Memory after the pages have been given to kfree. *)
Fixpoint give (ps : list Z) : kmem :=
  match ps with
  | [] => mk_kmem (fun _ => 0) 0
  | p :: ps' => after_run (@kfree sample_image p) (give ps')
  end.

Lemma give_free ps :
  NoDup ps → Forall (@page_ok sample_image) ps → @free_pages sample_image (give ps) ps.
Proof.
  induction ps as [|p ps IH]; intros Hn Hok; [by split|]. apply NoDup_cons in Hn as [Hp Hn].
  apply Forall_cons in Hok as [Hpok Hok].
  destruct (proj1 (wp_ok _ _ _) (@kfree_spec sample_image (give ps) ps p Hpok Hp (IH Hn Hok))) as (? & s' & E & Hf & _).
  cbn [give]. unfold after_run. by rewrite E.
Qed.

Definition sample_pool : list Z := map (fun i => KERNBASE + 0x100000 + i * PGSIZE) (seqZ 0 10).
Definition sample_idle : kst :=
  set_kmm (give sample_pool) (set_procs (fun _ => set_cwd (Some 0) no_proc) sample_kst).

Lemma sample_idle_mem : @kernel_mem sample_image sample_idle sample_pool.
Proof.
  split.
  - apply give_free.
    + apply NoDup_fmap_2_strong; [|apply NoDup_seqZ]. intros i j _ _. unfold PGSIZE. lia.
    + apply Forall_forall. intros p Hp. apply list_elem_of_fmap in Hp as (i & -> & Hi%elem_of_seqZ).
      rewrite <- Z.add_assoc. apply sample_page_ok; unfold PGSIZE; zdm.
  - intros p Hp. by split.
  - intros p q a _ _ _ [Hu _]. by destruct Hu.
Qed.

(** The process of slot 0 has been made. *)
Definition sample_one : kst := after_run (@allocproc sample_image sample_text) sample_idle.

Lemma sample_one_value : value (@allocproc sample_image sample_text) sample_idle = Some (Some 0).
Proof. vm_compute. reflexivity. Qed.

Lemma sample_one_run : @allocproc sample_image sample_text sample_idle = Ok (Some 0, sample_one).
Proof. exact (run_ok _ _ _ sample_one_value). Qed.

Lemma sample_one_mem :
  (∃ free, @kernel_mem sample_image sample_one free) ∧ p_state (procs sample_one 0) = USED ∧
  cur sample_one = 0 ∧ ftab sample_one = ftab sample_idle.
Proof.
  pose proof sample_one_run as E.
  pose proof (wp_elim _ _ _ _ _ (@allocproc_spec sample_image sample_text sample_idle sample_pool sample_idle_mem) E)
    as (p & free & [K _] & (_ & Hc & Hf) & -> & _ & _ & Hu & _).
  split; [by exists free|]. split; [done|]. split; [exact Hc|exact Hf].
Qed.

Lemma sample_one_cwd : p_cwd (procs sample_one 0) = Some 0.
Proof. vm_compute. reflexivity. Qed.
Lemma sample_one_files fd : p_ofile (procs sample_one 0) fd = None.
Proof. vm_compute. reflexivity. Qed.

Lemma fork_copies_witness :
  wp (@fork sample_image sample_text) (@fork_post sample_image sample_one) sample_one.
Proof.
  destruct sample_one_mem as ((free & K) & Hu & Hc & _).
  apply (@fork_copies sample_image sample_text sample_one free K); rewrite Hc.
  - unfold NPROC. lia.
  - by rewrite Hu.
  - intros fd f _ Hf. discriminate (eq_trans (eq_sym (sample_one_files fd)) Hf).
  - intros Hn. discriminate (eq_trans (eq_sym sample_one_cwd) Hn).
Defined.

Lemma processes_isolated_witness :
  (∃ free, @kernel_mem sample_image sample_one free) ∧
  ∃ r k', @growproc sample_image 0x7FFFFFFF sample_one = Ok (r, k') ∧ (r = 0 ∨ r = -1).
Proof.
  pose proof sample_one_run as E.
  destruct (@processes_isolated sample_image sample_text sample_idle sample_pool sample_one) as ((free & HK & _) & _ & Hg).
  - exact sample_idle_mem.
  - apply rtc_once. eapply ms_alloc. exact E.
  - split; [by exists free|]. apply Hg; [|lia]. destruct sample_one_mem as (_ & Hu & Hc & _). split; rewrite Hc; [unfold NPROC; lia|].
    by rewrite Hu.
Defined.
