(* ===== verification/Sched.v ===== *)
(** * Scheduling, sleep and wakeup on several CPUs (kernel/proc.c)

    The scheduler of every CPU and the kernel threads of the processes, one
    shared access at a time: [code p] is what the kernel thread of process
    [p] has yet to do in the calls it is in.  [L c] is the lock that protects
    the condition processes wait for on channel [c], [P p] is
    [proc[p].lock]. *)

From stdpp Require Import functions relations.
From S2P Require Import Prelude Riscv Kstate.

Definition NCPU : Z := 8.

Inductive lock := P (p : Z) | L (c : Z).
#[export] Instance lock_eq : EqDecision lock.
Proof. solve_decision. Defined.

Inductive instr :=
  | Acquire (l : lock)
  | Release (l : lock)
  | SetState (st : procstate)
  | SetChan (c : option Z)
  | Sched
  | WakeIf (q c : Z)
  | KillIf (q : Z)
  | Spawn (q : Z)
  | Reap (q : Z)
  | WaitFor (c : Z)
  | SetCond (c : Z) (b : bool).

Definition all_procs : list Z := map Z.of_nat (seq 0 (Z.to_nat NPROC)).

(** ** The calls *)

Definition yield (me : Z) : list instr :=
  [Acquire (P me); SetState RUNNABLE; Sched; Release (P me)].
Definition sleep (me c : Z) : list instr :=
  [Acquire (P me); Release (L c); SetChan (Some c); SetState SLEEPING; Sched;
   SetChan None; Release (P me); Acquire (L c)].
Definition wakeup_from (me c : Z) (ps : list Z) : list instr :=
  flat_map (fun p => if p =? me then [] else [Acquire (P p); WakeIf p c; Release (P p)]) ps.
Definition wakeup (me c : Z) : list instr := wakeup_from me c all_procs.
Definition forkret (me : Z) : list instr := [Release (P me)].
Definition exit_end (me : Z) : list instr := [Acquire (P me); SetState ZOMBIE; Sched].
Definition kill (q : Z) : list instr := [Acquire (P q); KillIf q; Release (P q)].
(** allocproc() and the end of fork(); freeproc() in wait(). *)
Definition start_proc (q : Z) : list instr := [Acquire (P q); Spawn q; Release (P q)].
Definition reap (q : Z) : list instr := [Acquire (P q); Reap q; Release (P q)].

(** Waiting for a condition, and making it true, the way the kernel does it
    everywhere: while(!cond) sleep(c, lk), and cond = 1; wakeup(c), both
    under the lock. *)
Definition consume (c : Z) : list instr := [Acquire (L c); WaitFor c; SetCond c false; Release (L c)].
Definition produce (me c : Z) : list instr :=
  [Acquire (L c); SetCond c true] ++ wakeup me c ++ [Release (L c)].

Inductive call := CYield | CConsume (c : Z) | CProduce (c : Z) | CKill (q : Z) | CFork (q : Z) | CWait (q : Z) | CExit.
Definition body (me : Z) (x : call) : list instr :=
  match x with
  | CYield => yield me | CConsume c => consume c | CProduce c => produce me c
  | CKill q => kill q | CFork q => start_proc q | CWait q => reap q | CExit => exit_end me
  end.

(** ** State *)

(** Where the scheduler of a CPU is: before acquire(&p->lock), at the test
    of p->state, before release(&p->lock). *)
Inductive spos := AtAcquire (p : Z) | AtTest (p : Z) | AtRelease (p : Z).
Record cpu := mk_cpu { c_proc : option Z; c_pos : spos; c_noff : Z }.
Record sys := mk_sys {
  owner : lock → option Z; cpus : Z → cpu;
  state : Z → procstate; schan : Z → option Z; code : Z → list instr; cond : Z → bool
}.

Definition set_owner l o s := mk_sys (<[l := o]> (owner s)) (cpus s) (state s) (schan s) (code s) (cond s).
Definition set_cpu c x s := mk_sys (owner s) (<[c := x]> (cpus s)) (state s) (schan s) (code s) (cond s).
Definition set_pstate p v s := mk_sys (owner s) (cpus s) (<[p := v]> (state s)) (schan s) (code s) (cond s).
Definition set_schan p v s := mk_sys (owner s) (cpus s) (state s) (<[p := v]> (schan s)) (code s) (cond s).
Definition set_code p v s := mk_sys (owner s) (cpus s) (state s) (schan s) (<[p := v]> (code s)) (cond s).
Definition set_cond c v s := mk_sys (owner s) (cpus s) (state s) (schan s) (code s) (<[c := v]> (cond s)).

Definition add_noff (c d : Z) (s : sys) : sys :=
  let x := cpus s c in set_cpu c (mk_cpu (c_proc x) (c_pos x) (c_noff x + d)) s.

(** acquire() spins while another CPU has the lock. *)
Definition acquire (c : Z) (l : lock) (s : sys) : outcome sys :=
  match owner s l with
  | Some c' => if c' =? c then Panic "acquire" else Sleeps "spin"
  | None => Ok (add_noff c 1 (set_owner l (Some c) s))
  end.
Definition release (c : Z) (l : lock) (s : sys) : outcome sys :=
  if decide (owner s l = Some c) then
    if c_noff (cpus s c) <? 1 then Panic "pop_off"
    else Ok (add_noff c (-1) (set_owner l None s))
  else Panic "release".

(** sched(): back into the scheduler of the CPU. *)
Definition sched (c p : Z) (s : sys) : outcome sys :=
  if negb (bool_decide (owner s (P p) = Some c)) then Panic "sched p->lock"
  else if negb (c_noff (cpus s c) =? 1) then Panic "sched locks"
  else if decide (state s p = RUNNING) then Panic "sched running"
  else Ok (set_cpu c (mk_cpu None (AtRelease p) (c_noff (cpus s c))) s).

(** One step of process [p] on CPU [c]. *)
Definition exec (c p : Z) (i : instr) (k : list instr) (s : sys) : outcome sys :=
  match i with
  | Acquire l => match acquire c l s with Ok s' => Ok (set_code p k s') | e => e end
  | Release l => match release c l s with Ok s' => Ok (set_code p k s') | e => e end
  | SetState st => Ok (set_code p k (set_pstate p st s))
  | SetChan ch => Ok (set_code p k (set_schan p ch s))
  | Sched => sched c p (set_code p k s)
  | WakeIf q ch =>
      Ok (set_code p k (if decide (state s q = SLEEPING ∧ schan s q = Some ch)
                        then set_pstate q RUNNABLE s else s))
  | KillIf q => Ok (set_code p k (if decide (state s q = SLEEPING) then set_pstate q RUNNABLE s else s))
  | Spawn q =>
      Ok (set_code p k (if decide (state s q = UNUSED)
                        then set_pstate q RUNNABLE (set_schan q None (set_code q (forkret q) s)) else s))
  | Reap q => Ok (set_code p k (if decide (state s q = ZOMBIE) then set_pstate q UNUSED s else s))
  | WaitFor ch => Ok (set_code p (if cond s ch then k else sleep p ch ++ WaitFor ch :: k) s)
  | SetCond ch b => Ok (set_code p k (set_cond ch b s))
  end.

(** One step of the scheduler of CPU [c]; swtch() makes the CPU run the
    process, which starts with [P p] held. *)
Definition next_proc (p : Z) : Z := if p + 1 <? NPROC then p + 1 else 0.
Definition scheduler (c : Z) (s : sys) : outcome sys :=
  let x := cpus s c in
  match c_pos x with
  | AtAcquire p =>
      match acquire c (P p) s with
      | Ok s' => Ok (set_cpu c (mk_cpu None (AtTest p) (c_noff (cpus s' c))) s')
      | e => e
      end
  | AtTest p =>
      if decide (state s p = RUNNABLE)
      then Ok (set_cpu c (mk_cpu (Some p) (AtRelease p) (c_noff x)) (set_pstate p RUNNING s))
      else Ok (set_cpu c (mk_cpu None (AtRelease p) (c_noff x)) s)
  | AtRelease p =>
      match release c (P p) s with
      | Ok s' => Ok (set_cpu c (mk_cpu None (AtAcquire (next_proc p)) (c_noff (cpus s' c))) s')
      | e => e
      end
  end.

(** What CPU [c] does next: go on, take a timer interrupt, which yields when
    interrupts are enabled, or start a call. *)
Inductive action := Go | Timer | Start (x : call).
Definition cpu_step (a : action) (c : Z) (s : sys) : outcome sys :=
  match c_proc (cpus s c) with
  | None => scheduler c s
  | Some p =>
      match a, code s p with
      | Go, i :: k => exec c p i k s
      | Timer, k => if c_noff (cpus s c) =? 0 then Ok (set_code p (yield p ++ k) s) else Ok s
      | Start x, [] => Ok (set_code p (body p x) s)
      | _, _ => Ok s
      end
  end.

Inductive step (s s' : sys) : Prop :=
  | step_cpu a c : 0 ≤ c < NCPU → cpu_step a c s = Ok s' → step s s'.

(** After boot: the CPUs enter their schedulers, some processes are
    runnable. *)
Definition initial (s : sys) : Prop :=
  (∀ l, owner s l = None) ∧ (∀ c, cpus s c = mk_cpu None (AtAcquire 0) 0) ∧
  (∀ p, state s p = UNUSED ∨ state s p = RUNNABLE ∧ code s p = forkret p).

(** ** The discipline of the calls

    [ok me st H k]: code [k] of process [me] in state [st], with the locks
    [H] held, follows the locking rules, changes the state only under
    [P me], and wakes every waiter before it releases the lock of a condition
    it made true. *)

(** Before [L c] is released, [k] wakes [p] on [c]. *)
Fixpoint pending (p c : Z) (k : list instr) : Prop :=
  match k with
  | [] => False
  | i :: k =>
      match i with
      | WakeIf q c' => (q = p ∧ c' = c) ∨ pending p c k
      | Release l => l ≠ L c ∧ pending p c k
      | Sched | WaitFor _ => False
      | _ => pending p c k
      end
  end.

(** [k] is the middle of a sleep() on [c], with [L c] still held. *)
Definition about (c : Z) (k : list instr) : Prop :=
  match k with
  | Release (L c') :: SetChan (Some _) :: _ => c' = c
  | Acquire (P _) :: Release (L c') :: SetChan (Some _) :: _ => c' = c
  | _ => False
  end.

(** What may come before [k]. *)
Definition after (i : instr) (k : list instr) : Prop :=
  match k with
  | Release (L c) :: SetChan (Some _) :: _ => ∃ q, i = Acquire (P q)
  | Acquire (P _) :: Release (L _) :: SetChan (Some _) :: _ => False
  | SetChan (Some c) :: _ => i = Release (L c)
  | SetState SLEEPING :: _ => ∃ c, i = SetChan (Some c)
  | _ => True
  end.

Fixpoint ok (me : Z) (st : procstate) (H : list lock) (k : list instr) : Prop :=
  match k with
  | [] => H = [] ∧ st = RUNNING
  | i :: k =>
      after i k ∧
      match i with
      | Acquire (P q) => st = RUNNING ∧ (∀ q', P q' ∉ H) ∧ ok me st (P q :: H) k
      | Acquire (L c) => st = RUNNING ∧ H = [] ∧ ok me st [L c] k
      | Release l => l ∈ H ∧ (l = P me → st = RUNNING) ∧ ok me st (filter (.≠ l) H) k
      | SetState st' => P me ∈ H ∧ st' ∈ [RUNNABLE; SLEEPING; ZOMBIE] ∧ ok me st' H k
      | SetChan ch => P me ∈ H ∧ (ch ≠ None → ∃ k', k = SetState SLEEPING :: k') ∧ ok me st H k
      | Sched => H = [P me] ∧ st ∈ [RUNNABLE; SLEEPING; ZOMBIE] ∧ (st ≠ ZOMBIE → ok me RUNNING [P me] k)
      | WakeIf q _ | KillIf q | Spawn q | Reap q => st = RUNNING ∧ P q ∈ H ∧ ok me st H k
      | WaitFor c => st = RUNNING ∧ H = [L c] ∧ ok me st H k
      | SetCond c b =>
          st = RUNNING ∧ L c ∈ H ∧ (b = true → ∀ p, 0 ≤ p < NPROC → p ≠ me → pending p c k) ∧ ok me st H k
      end
  end.

Lemma all_procs_in p : p ∈ all_procs ↔ 0 ≤ p < NPROC.
Proof.
  unfold all_procs. rewrite list_elem_of_fmap. split.
  - intros (n & -> & Hn). apply elem_of_seq in Hn. unfold NPROC in *. lia.
  - intros Hp. exists (Z.to_nat p). rewrite elem_of_seq. unfold NPROC in *. lia.
Qed.

Lemma ok_wakeup me c ps k :
  ok me RUNNING [L c] k →
  after (Release (P me)) k → (∀ q, after (Release (P q)) k) →
  ok me RUNNING [L c] (wakeup_from me c ps ++ k).
Proof.
  intros Hk _ Ha. induction ps as [|p ps IH]; [exact Hk|]. cbn.
  destruct (Z.eqb_spec p me) as [->|Hn]; [exact IH|]. cbn -[filter].
  repeat (split; [first [done | set_solver | by (intros; congruence)]|]).
  assert (Hf : filter (λ l, l ≠ P p) [P p; L c] = [L c]).
  { rewrite filter_cons_False by tauto. rewrite filter_cons_True by done. done. }
  rewrite Hf. split; [|split; [set_solver|split; [congruence|exact IH]]].
  clear -Ha. destruct ps as [|q ps]; [exact (Ha p)|].
  induction (q :: ps) as [|r l IH]; [exact (Ha p)|]. cbn. destruct (r =? me); [exact IH|exact I].
Qed.

Lemma pending_wakeup me c p ps k : p ∈ ps → p ≠ me → pending p c (wakeup_from me c ps ++ k).
Proof.
  intros Hin Hne. induction ps as [|q ps IH]; [set_solver|]. cbn.
  destruct (Z.eqb_spec q me) as [->|Hn]; cbn.
  - apply IH. set_solver.
  - destruct (decide (q = p)) as [->|]; [by left|right]. split; [done|]. apply IH. set_solver.
Qed.

Lemma filter_self l : filter (.≠ l) [l] = ([] : list lock).
Proof. rewrite filter_cons_False by tauto. done. Qed.
Lemma filter_first (l l' : lock) : l' ≠ l → filter (.≠ l) [l; l'] = [l'].
Proof. intros. rewrite filter_cons_False by tauto. rewrite filter_cons_True by done. done. Qed.
Lemma filter_second (l l' : lock) : l' ≠ l → filter (.≠ l) [l'; l] = [l'].
Proof. intros. rewrite filter_cons_True by done. rewrite filter_cons_False by tauto. done. Qed.

Ltac ok_auto :=
  cbn -[filter]; repeat first
    [ rewrite filter_self | rewrite filter_first by congruence | rewrite filter_second by congruence
    | progress intros | done | split | congruence | (by eexists) | set_solver ].

Lemma ok_body me x : 0 ≤ me < NPROC → ok me RUNNING [] (body me x).
Proof.
  intros Hme. destruct x as [|c|c|q|q|q|]; cbn [body]; try by ok_auto.
  unfold produce. cbn -[filter wakeup].
  assert (Hk : ok me RUNNING [L c] (wakeup me c ++ [Release (L c)])).
  { apply ok_wakeup; [|done..]. ok_auto. }
  repeat split; try done; try set_solver; try exact Hk.
  - assert (Ha : ∀ ps i, i = SetCond c true → after i (wakeup_from me c ps ++ [Release (L c)])).
    { intros ps i ->. induction ps as [|r l IH]; [done|]. cbn. destruct (r =? me); [exact IH|exact I]. }
    exact (Ha all_procs _ eq_refl).
  - intros _ p Hp Hne. apply pending_wakeup; [by apply all_procs_in|done].
Qed.

Lemma after_release me k q : ok me RUNNING [] k → after (Release (P q)) k.
Proof.
  destruct k as [|i k]; [done|]. cbn.
  destruct i as [[|]|[|]| st |[|]| | | | | | |]; cbn; try done; try set_solver.
  destruct k as [|[ |[|]| | | | | | | | |] [|[| | |[|]| | | | | | |] k]]; try done. cbn -[filter]. set_solver.
Qed.

Lemma ok_yield me k : ok me RUNNING [] k → ok me RUNNING [] (yield me ++ k).
Proof.
  intros Hk. pose proof (after_release me k me Hk) as Ha.
  cbn -[filter]. rewrite filter_self. repeat split; try done; set_solver.
Qed.

Lemma ok_sleep me c k :
  ok me RUNNING [L c] (WaitFor c :: k) → ok me RUNNING [L c] (sleep me c ++ WaitFor c :: k).
Proof.
  intros Hk. cbn -[filter]. rewrite filter_second by done. rewrite filter_self.
  cbn in Hk. repeat split; try done; try set_solver; try tauto; try (by eexists); try congruence.
Qed.

(** A process that is not RUNNING has its own lock until it is switched
    out. *)
Lemma ok_parked me st H k : ok me st H k → st ≠ RUNNING → P me ∈ H.
Proof.
  revert st H. induction k as [|i k IH]; intros st H; cbn -[filter]; [tauto|].
  intros [_ Hok] Hst.
  destruct i as [[|]|l| | | | | | | | |]; try tauto.
  - destruct Hok as (_ & _ & Hok). specialize (IH _ _ Hok Hst).
    apply list_elem_of_filter in IH. tauto.
  - destruct Hok as (-> & _ & _). set_solver.
Qed.

(** ** Who runs where, and who holds which lock *)

Definition holds_exactly (s : sys) (c : Z) (H : list lock) : Prop :=
  NoDup H ∧ (∀ l, owner s l = Some c ↔ l ∈ H) ∧ c_noff (cpus s c) = Z.of_nat (length H).
Definition cpu_ok (s : sys) (c : Z) : Prop :=
  ∃ H, holds_exactly s c H ∧
    match c_proc (cpus s c), c_pos (cpus s c) with
    | Some p, pos => 0 ≤ p < NPROC ∧ pos = AtRelease p ∧ ok p (state s p) H (code s p)
    | None, AtAcquire p => 0 ≤ p < NPROC ∧ H = []
    | None, (AtTest p | AtRelease p) => 0 ≤ p < NPROC ∧ H = [P p]
    end.
Definition on_cpu (s : sys) (p : Z) : Prop := ∃ c, c_proc (cpus s c) = Some p.
Definition off_ok (s : sys) (p : Z) : Prop :=
  state s p ≠ RUNNING ∧ (state s p = RUNNABLE ∨ state s p = SLEEPING → ok p RUNNING [P p] (code s p)).
Record inv1 (s : sys) : Prop := {
  inv_cpu c : cpu_ok s c;
  inv_uniq c1 c2 p : c_proc (cpus s c1) = Some p → c_proc (cpus s c2) = Some p → c1 = c2;
  inv_off p : ¬ on_cpu s p → off_ok s p
}.

Lemma inv1_running s c p :
  inv1 s → c_proc (cpus s c) = Some p →
  ∃ H, holds_exactly s c H ∧ 0 ≤ p < NPROC ∧ c_pos (cpus s c) = AtRelease p ∧ ok p (state s p) H (code s p).
Proof. intros Hi Hp. destruct (inv_cpu s Hi c) as (H & Hh & Hm). rewrite Hp in Hm. eauto. Qed.

(** Whoever has the lock of a process that is not RUNNING has it to itself. *)
Lemma inv1_parked s c c' p :
  inv1 s → owner s (P p) = Some c → c_proc (cpus s c') = Some p → c' ≠ c → state s p = RUNNING.
Proof.
  intros Hi Ho Hp Hne. destruct (inv1_running s c' p Hi Hp) as (H & Hh & _ & _ & Hok).
  destruct (decide (state s p = RUNNING)) as [|Hst]; [done|].
  pose proof (ok_parked _ _ _ _ Hok Hst) as Hin. apply Hh in Hin. congruence.
Qed.

Lemma cpu_ok_frame s s' c :
  cpus s' c = cpus s c → (∀ l, owner s' l = Some c ↔ owner s l = Some c) →
  (∀ p, c_proc (cpus s c) = Some p → state s' p = state s p ∧ code s' p = code s p) →
  cpu_ok s c → cpu_ok s' c.
Proof.
  intros Hc Ho Hp (H & (Hnd & Hin & Hn) & Hm). exists H. split.
  - repeat split; [done|by rewrite Ho; apply Hin|by rewrite Ho; apply Hin|by rewrite Hc].
  - rewrite Hc. destruct (c_proc (cpus s c)) as [p|]; [|done].
    destruct (Hp p eq_refl) as [-> ->]. done.
Qed.

(** A step of the process on CPU [c]. *)
Lemma inv1_thread s s' c p H :
  inv1 s → c_proc (cpus s c) = Some p →
  c_proc (cpus s' c) = Some p → c_pos (cpus s' c) = c_pos (cpus s c) →
  (∀ c', c' ≠ c → cpus s' c' = cpus s c') →
  (∀ c' l, c' ≠ c → owner s' l = Some c' ↔ owner s l = Some c') →
  holds_exactly s' c H → ok p (state s' p) H (code s' p) →
  (∀ q, q ≠ p → (state s' q = state s q ∧ code s' q = code s q) ∨ (¬ on_cpu s q ∧ off_ok s' q)) →
  inv1 s'.
Proof.
  intros Hi Hp Hp' Hpos Hcs Ho Hh Hok Hq.
  destruct (inv1_running s c p Hi Hp) as (_ & _ & Hr & Hps & _).
  assert (Hpr : ∀ c', c_proc (cpus s' c') = c_proc (cpus s c')).
  { intros c'. destruct (decide (c' = c)) as [->|]; [congruence|by rewrite Hcs]. }
  split.
  - intros c'. destruct (decide (c' = c)) as [->|Hne].
    + exists H. split; [done|]. rewrite Hp', Hpos, Hps. done.
    + apply (cpu_ok_frame s); [by apply Hcs|by intros; apply Ho| |by apply Hi].
      intros q Hcq. destruct (decide (q = p)) as [->|Hqp].
      { destruct Hne. by apply (inv_uniq s Hi c' c p). }
      destruct (Hq q Hqp) as [?|[Hn _]]; [done|]. destruct Hn. by exists c'.
  - intros c1 c2 q. rewrite !Hpr. apply Hi.
  - intros q Hn. assert (Hn' : ¬ on_cpu s q).
    { intros [c' Hc']. apply Hn. exists c'. by rewrite Hpr. }
    assert (q ≠ p) as Hqp. { intros ->. apply Hn'. by exists c. }
    destruct (Hq q Hqp) as [[He1 He2]|[_ ?]]; [|done].
    unfold off_ok. rewrite He1, He2. by apply Hi.
Qed.

(** What a lock operation of CPU [c] leaves alone. *)
Record lock_frame (s s' : sys) (c : Z) : Prop := {
  lf_cpu c' : c' ≠ c → cpus s' c' = cpus s c';
  lf_own c' l : c' ≠ c → owner s' l = Some c' ↔ owner s l = Some c';
  lf_proc : c_proc (cpus s' c) = c_proc (cpus s c);
  lf_pos : c_pos (cpus s' c) = c_pos (cpus s c);
  lf_rest : state s' = state s ∧ schan s' = schan s ∧ code s' = code s ∧ cond s' = cond s
}.

Lemma acquire_ok s s' c l H :
  holds_exactly s c H → acquire c l s = Ok s' →
  holds_exactly s' c (l :: H) ∧ lock_frame s s' c ∧ owner s l = None ∧ owner s' = <[l := Some c]> (owner s).
Proof.
  unfold acquire. destruct (owner s l) eqn:Ho; [by case_match|]. intros (Hnd & Hin & Hn) [= <-]. cbn.
  assert (l ∉ H) by (rewrite <- Hin; congruence).
  repeat split; cbn; rewrite ?fn_lookup_insert; cbn; try done.
  - by constructor.
  - destruct (decide (l0 = l)) as [->|]; [set_solver|]. rewrite fn_lookup_insert_ne by done.
    rewrite Hin. set_solver.
  - intros Hl. destruct (decide (l0 = l)) as [->|]; [by rewrite fn_lookup_insert|].
    rewrite fn_lookup_insert_ne by done. rewrite Hin. set_solver.
  - lia.
  - intros. by rewrite fn_lookup_insert_ne.
  - destruct (decide (l0 = l)) as [->|]; rewrite ?fn_lookup_insert, ?fn_lookup_insert_ne by done; congruence.
  - destruct (decide (l0 = l)) as [->|]; rewrite ?fn_lookup_insert, ?fn_lookup_insert_ne by done; congruence.
Qed.

Lemma release_ok s c l H :
  holds_exactly s c H → l ∈ H →
  ∃ s', release c l s = Ok s' ∧ holds_exactly s' c (filter (.≠ l) H) ∧ lock_frame s s' c ∧
        owner s' = <[l := None]> (owner s).
Proof.
  intros (Hnd & Hin & Hn) Hl. unfold release. rewrite decide_True by (by apply Hin).
  pose proof (length_filter_ne l H Hnd Hl) as Hlen.
  destruct (Z.ltb_spec (c_noff (cpus s c)) 1); [lia|]. eexists. split; [done|].
  assert (Hol : owner s l = Some c) by (by apply Hin).
  repeat split; cbn; rewrite ?fn_lookup_insert; cbn; try done.
  - by apply NoDup_filter.
  - destruct (decide (l0 = l)) as [->|]; [by rewrite fn_lookup_insert|]. rewrite fn_lookup_insert_ne by done.
    rewrite Hin, list_elem_of_filter. tauto.
  - rewrite list_elem_of_filter. intros [? ?]. rewrite fn_lookup_insert_ne by done. by apply Hin.
  - lia.
  - intros. by rewrite fn_lookup_insert_ne.
  - destruct (decide (l0 = l)) as [->|]; rewrite ?fn_lookup_insert, ?fn_lookup_insert_ne by done; congruence.
  - destruct (decide (l0 = l)) as [->|]; rewrite ?fn_lookup_insert, ?fn_lookup_insert_ne by done; congruence.
Qed.

Lemma holds_frame s s' c H :
  owner s' = owner s → cpus s' = cpus s → holds_exactly s c H → holds_exactly s' c H.
Proof. intros Ho Hc (? & ? & ?). repeat split; [done|rewrite Ho; naive_solver..|by rewrite Hc]. Qed.

Lemma other_off s c p q :
  inv1 s → c_proc (cpus s c) = Some p → state s p = RUNNING →
  owner s (P q) = Some c → state s q ≠ RUNNING → ¬ on_cpu s q ∧ q ≠ p.
Proof.
  intros Hi Hp Hst Ho Hq. split; [|congruence]. intros [c' Hc'].
  destruct (decide (c' = c)) as [->|Hne]; [congruence|]. apply Hq. by apply (inv1_parked s c c').
Qed.

(** A step that at most changes its own process. *)
Lemma inv1_self s s1 c p k H :
  inv1 s → c_proc (cpus s c) = Some p → owner s1 = owner s → cpus s1 = cpus s →
  (∀ q, q ≠ p → state s1 q = state s q ∧ code s1 q = code s q) →
  holds_exactly s c H → ok p (state s1 p) H k → inv1 (set_code p k s1).
Proof.
  intros Hi Hp Ho Hc Hq Hh Hok. apply (inv1_thread s _ c p H); cbn; rewrite ?Ho, ?Hc; try done.
  - by eapply holds_frame; [| |exact Hh].
  - by rewrite fn_lookup_insert.
  - intros q Hne. left. rewrite fn_lookup_insert_ne by done. by apply Hq.
Qed.

(** A step that changes another process [q], with its lock held. *)
Lemma inv1_other s s1 c p q k H :
  inv1 s → c_proc (cpus s c) = Some p → owner s1 = owner s → cpus s1 = cpus s →
  (∀ r, r ≠ q → state s1 r = state s r ∧ code s1 r = code s r) →
  holds_exactly s c H → P q ∈ H → state s p = RUNNING → state s q ≠ RUNNING → off_ok s1 q →
  ok p RUNNING H k → inv1 (set_code p k s1).
Proof.
  intros Hi Hp Ho Hc Hr Hh Hin Hst Hq Hoff Hok.
  destruct (other_off s c p q) as [Hn Hne]; [done..|by apply Hh|done|].
  apply (inv1_thread s _ c p H); cbn; rewrite ?Ho, ?Hc; try done.
  - by eapply holds_frame; [| |exact Hh].
  - rewrite fn_lookup_insert. destruct (Hr p) as [-> _]; [done|]. by rewrite Hst.
  - intros r Hrp. rewrite fn_lookup_insert_ne by done. destruct (decide (r = q)) as [->|]; [|left; by apply Hr].
    right. split; [done|]. unfold off_ok in *. cbn. by rewrite fn_lookup_insert_ne.
Qed.

Lemma inv1_lock s s1 c p k H :
  inv1 s → c_proc (cpus s c) = Some p → lock_frame s s1 c → holds_exactly s1 c H →
  ok p (state s p) H k → inv1 (set_code p k s1).
Proof.
  intros Hi Hp Hf Hh Hok. destruct (lf_rest _ _ _ Hf) as (Hs & _ & Hc & _).
  apply (inv1_thread s _ c p H); cbn; try done.
  - by rewrite (lf_proc _ _ _ Hf).
  - by apply Hf.
  - intros. by apply Hf.
  - intros. by apply Hf.
  - by rewrite fn_lookup_insert, Hs.
  - intros q Hne. left. by rewrite fn_lookup_insert_ne, Hs, Hc.
Qed.

Lemma inv1_sched s c p k H :
  inv1 s → c_proc (cpus s c) = Some p → holds_exactly s c H → H = [P p] → state s p ≠ RUNNING →
  (state s p ≠ ZOMBIE → ok p RUNNING [P p] k) →
  ∃ s', sched c p (set_code p k s) = Ok s' ∧ inv1 s'.
Proof.
  intros Hi Hp Hh -> Hst Hok. unfold sched. cbn.
  destruct (inv1_running s c p Hi Hp) as (_ & _ & Hr & _ & _).
  pose proof Hh as (_ & Hin & Hn). assert (Ho : owner s (P p) = Some c) by (apply Hin; set_solver).
  rewrite bool_decide_true by done. cbn in Hn. rewrite Hn. cbn. rewrite decide_False by done.
  eexists. split; [done|].
  assert (Hpr : ∀ c' q, c_proc (<[c := mk_cpu None (AtRelease p) 1]> (cpus s) c') = Some q →
                c' ≠ c ∧ c_proc (cpus s c') = Some q).
  { intros c' q. destruct (decide (c' = c)) as [->|]; [by rewrite fn_lookup_insert|].
    by rewrite fn_lookup_insert_ne. }
  split; cbn.
  - intros c'. destruct (decide (c' = c)) as [->|Hne].
    + exists [P p]. cbn. rewrite fn_lookup_insert. cbn. split; [|done].
      destruct Hh as (? & ? & _). repeat split; cbn; [done|naive_solver..|]. by rewrite fn_lookup_insert.
    + apply (cpu_ok_frame s); cbn; [by rewrite fn_lookup_insert_ne|done| |by apply Hi].
      intros q Hcq. split; [done|]. rewrite fn_lookup_insert_ne; [done|]. intros <-.
      destruct Hne. by apply (inv_uniq s Hi c' c p).
  - intros c1 c2 q H1%Hpr H2%Hpr. destruct H1, H2. by apply (inv_uniq s Hi c1 c2 q).
  - intros q Hnq. unfold off_ok. cbn. destruct (decide (q = p)) as [->|Hne].
    + rewrite fn_lookup_insert. split; [done|]. intros [He|He]; apply Hok; congruence.
    + rewrite fn_lookup_insert_ne by done. apply (inv_off s Hi). intros [c' Hc'].
      apply Hnq. exists c'. cbn. rewrite fn_lookup_insert_ne; [done|]. intros <-. congruence.
Qed.

Definition safe (Q : sys → Prop) (o : outcome sys) : Prop :=
  match o with Ok s' => Q s' | Sleeps _ => True | _ => False end.

Lemma acquire_safe s c l H (Q : sys → Prop) f :
  holds_exactly s c H → l ∉ H →
  (∀ s', acquire c l s = Ok s' → Q (f s')) →
  safe Q (match acquire c l s with Ok s' => Ok (f s') | e => e end).
Proof.
  intros Hh Hl HQ. destruct (acquire c l s) eqn:E; cbn; [by apply HQ| |done|];
    unfold acquire in E; destruct (owner s l) as [c'|] eqn:Ho; try done;
    destruct (Z.eqb_spec c' c) as [->|]; try done.
  apply Hl. by apply Hh.
Qed.

Lemma exec_inv1 s c p i k :
  inv1 s → c_proc (cpus s c) = Some p → code s p = i :: k → safe inv1 (exec c p i k s).
Proof.
  intros Hi Hp Hc. destruct (inv1_running s c p Hi Hp) as (H & Hh & Hr & Hpos & Hok).
  rewrite Hc in Hok. cbn in Hok. destruct Hok as [Haft Hok].
  destruct i as [l|l|st|ch| |q ch|q|q|q|ch|ch b]; cbn [exec].
  - assert ((l ∉ H) ∧ ok p (state s p) (l :: H) k) as [Hl Hok'].
    { destruct l; [|destruct Hok as (_ & -> & ?); split; [set_solver|done]].
      destruct Hok as (_ & Hn & ?). split; [apply Hn|done]. }
    apply (acquire_safe _ _ _ H); [done..|]. intros s' Ha.
    destruct (acquire_ok _ _ _ _ _ Hh Ha) as (Hh' & Hf & _). by eapply inv1_lock.
  - destruct Hok as (Hl & _ & Hok). destruct (release_ok s c l H Hh Hl) as (s' & -> & Hh' & Hf & _).
    cbn. by eapply inv1_lock.
  - destruct Hok as (_ & _ & Hok). cbn. apply (inv1_self s _ c p k H); cbn; try done.
    + intros q Hq. by rewrite fn_lookup_insert_ne.
    + by rewrite fn_lookup_insert.
  - destruct Hok as (_ & _ & Hok). cbn. by apply (inv1_self s _ c p k H).
  - destruct Hok as (-> & Hst & Hok).
    destruct (inv1_sched s c p k [P p]) as (s' & -> & ?); try done. intros He. rewrite He in Hst. set_solver.
  - destruct Hok as (Hst & Hin & Hok). case_decide as Hd; [|by apply (inv1_self s _ c p k H)].
    destruct Hd as [Hsl _]. rewrite Hst in Hok. apply (inv1_other s _ c p q k H); cbn; try done; try congruence.
    + intros. by rewrite fn_lookup_insert_ne.
    + destruct (other_off s c p q) as [Hn _]; [done..|by apply Hh|congruence|].
      unfold off_ok. cbn. rewrite fn_lookup_insert. split; [done|]. intros _. apply (inv_off s Hi q Hn). by right.
  - destruct Hok as (Hst & Hin & Hok). case_decide as Hsl; [|by apply (inv1_self s _ c p k H)].
    rewrite Hst in Hok. apply (inv1_other s _ c p q k H); cbn; try done; try congruence.
    + intros. by rewrite fn_lookup_insert_ne.
    + destruct (other_off s c p q) as [Hn _]; [done..|by apply Hh|congruence|].
      unfold off_ok. cbn. rewrite fn_lookup_insert. split; [done|]. intros _. apply (inv_off s Hi q Hn). by right.
  - destruct Hok as (Hst & Hin & Hok). case_decide as Hsl; [|by apply (inv1_self s _ c p k H)].
    rewrite Hst in Hok. apply (inv1_other s _ c p q k H); cbn; try done; try congruence.
    + intros. by rewrite !fn_lookup_insert_ne.
    + unfold off_ok. cbn -[filter]. rewrite !fn_lookup_insert. split; [done|]. intros _. cbn -[filter].
      rewrite filter_self. repeat split; try done. set_solver.
  - destruct Hok as (Hst & Hin & Hok). case_decide as Hsl; [|by apply (inv1_self s _ c p k H)].
    rewrite Hst in Hok. apply (inv1_other s _ c p q k H); cbn; try done; try congruence.
    + intros. by rewrite !fn_lookup_insert_ne.
    + unfold off_ok. cbn. rewrite !fn_lookup_insert. split; [done|]. intros [|]; done.
  - destruct Hok as (Hst & -> & Hok). cbn -[sleep]. apply (inv1_self s _ c p _ [L ch]); try done.
    rewrite Hst in *. destruct (cond s ch); [done|]. apply ok_sleep. by split.
  - destruct Hok as (Hst & Hin & _ & Hok). cbn. by apply (inv1_self s _ c p k H).
Qed.

(** A step of the scheduler on CPU [c]. *)
Lemma inv1_scheduler s s' c H pos n :
  inv1 s → c_proc (cpus s c) = None → cpus s' c = mk_cpu None pos n → (∀ c', c' ≠ c → cpus s' c' = cpus s c') →
  (∀ c' l, c' ≠ c → owner s' l = Some c' ↔ owner s l = Some c') →
  state s' = state s → code s' = code s → holds_exactly s' c H →
  match pos with AtAcquire p => 0 ≤ p < NPROC ∧ H = [] | AtTest p | AtRelease p => 0 ≤ p < NPROC ∧ H = [P p] end →
  inv1 s'.
Proof.
  intros Hi Hp Hc Hcs Ho Hs Hk Hh Hpos.
  assert (Hpr : ∀ c', c_proc (cpus s' c') = c_proc (cpus s c')).
  { intros c'. destruct (decide (c' = c)) as [->|]; [by rewrite Hc|]. by rewrite Hcs. }
  split.
  - intros c'. destruct (decide (c' = c)) as [->|Hne].
    + exists H. split; [done|]. rewrite Hc. cbn. by destruct pos.
    + apply (cpu_ok_frame s); [by apply Hcs|by intros; apply Ho|by rewrite Hs, Hk|by apply Hi].
  - intros c1 c2 q. rewrite !Hpr. apply Hi.
  - intros q Hn. unfold off_ok. rewrite Hs, Hk. apply (inv_off s Hi). intros [c' Hc']. apply Hn. exists c'.
    by rewrite Hpr.
Qed.

(** swtch() to a RUNNABLE process. *)
Lemma inv1_swtch s c p n :
  inv1 s → c_proc (cpus s c) = None → 0 ≤ p < NPROC → holds_exactly s c [P p] → n = c_noff (cpus s c) →
  state s p = RUNNABLE →
  inv1 (set_cpu c (mk_cpu (Some p) (AtRelease p) n) (set_pstate p RUNNING s)).
Proof.
  intros Hi Hp Hr Hh -> Hst.
  assert (Hoff : ¬ on_cpu s p).
  { intros [c' Hc']. assert (state s p = RUNNING); [|congruence].
    apply (inv1_parked s c c'); [done|apply Hh; set_solver|done|congruence]. }
  destruct (inv_off s Hi p Hoff) as [_ Hok].
  split; cbn.
  - intros c'. destruct (decide (c' = c)) as [->|Hne].
    + exists [P p]. cbn. rewrite !fn_lookup_insert. cbn. rewrite fn_lookup_insert.
      destruct Hh as (? & ? & ?). repeat split; cbn; rewrite ?fn_lookup_insert; try naive_solver.
    + apply (cpu_ok_frame s); cbn; [by rewrite fn_lookup_insert_ne|done| |by apply Hi].
      intros q Hq. split; [|done]. rewrite fn_lookup_insert_ne; [done|]. intros <-. apply Hoff. by exists c'.
  - intros c1 c2 q.
    destruct (decide (c1 = c)) as [->|], (decide (c2 = c)) as [->|];
      rewrite ?fn_lookup_insert, ?fn_lookup_insert_ne by done; cbn; try done.
    + intros [= <-] H2. destruct Hoff. by exists c2.
    + intros H1 [= <-]. destruct Hoff. by exists c1.
    + apply Hi.
  - intros q Hn. assert (Hqp : q ≠ p).
    { intros ->. apply Hn. exists c. cbn. by rewrite fn_lookup_insert. }
    unfold off_ok. cbn. rewrite fn_lookup_insert_ne by done. apply (inv_off s Hi).
    intros [c' Hc']. apply Hn. exists c'. cbn. rewrite fn_lookup_insert_ne; [done|]. intros <-. congruence.
Qed.

Lemma next_proc_range p : 0 ≤ p < NPROC → 0 ≤ next_proc p < NPROC.
Proof. unfold next_proc. destruct (Z.ltb_spec (p + 1) NPROC); unfold NPROC in *; lia. Qed.

Lemma scheduler_inv1 s c : inv1 s → c_proc (cpus s c) = None → safe inv1 (scheduler c s).
Proof.
  intros Hi Hp. destruct (inv_cpu s Hi c) as (H & Hh & Hm). rewrite Hp in Hm. unfold scheduler.
  destruct (c_pos (cpus s c)) as [p|p|p]; destruct Hm as [Hr ->].
  - apply (acquire_safe _ _ _ []); [done|set_solver|]. intros s' Ha.
    destruct (acquire_ok _ _ _ _ _ Hh Ha) as (Hh' & Hf & _). destruct (lf_rest _ _ _ Hf) as (Hs & _ & Hk & _).
    eapply (inv1_scheduler s _ c [P p]); cbn; [done|done|apply fn_lookup_insert| | | | | |].
    + intros. rewrite fn_lookup_insert_ne by done. by apply Hf.
    + apply Hf.
    + done.
    + done.
    + destruct Hh' as (? & ? & ?). repeat split; cbn; rewrite ?fn_lookup_insert; naive_solver.
    + done.
  - case_decide as Hst; cbn.
    + by apply inv1_swtch.
    + eapply (inv1_scheduler s _ c [P p]); cbn; [done|done|apply fn_lookup_insert| |done..| |done].
      * intros. by rewrite fn_lookup_insert_ne.
      * destruct Hh as (? & ? & ?). repeat split; cbn; rewrite ?fn_lookup_insert; naive_solver.
  - destruct (release_ok s c (P p) [P p] Hh) as (s' & -> & Hh' & Hf & _); [set_solver|].
    destruct (lf_rest _ _ _ Hf) as (Hs & _ & Hk & _). rewrite filter_self in Hh'. cbn.
    eapply (inv1_scheduler s _ c []); cbn; [done|done|apply fn_lookup_insert| | | | | |].
    + intros. rewrite fn_lookup_insert_ne by done. by apply Hf.
    + apply Hf.
    + done.
    + done.
    + destruct Hh' as (? & ? & ?). repeat split; cbn; rewrite ?fn_lookup_insert; naive_solver.
    + split; [by apply next_proc_range|done].
Qed.

Lemma cpu_step_inv1 a s c : inv1 s → safe inv1 (cpu_step a c s).
Proof.
  intros Hi. unfold cpu_step. destruct (c_proc (cpus s c)) as [p|] eqn:Hp; [|by apply scheduler_inv1].
  destruct (inv1_running s c p Hi Hp) as (H & Hh & Hr & Hpos & Hok).
  destruct a as [| |x].
  - destruct (code s p) as [|i k] eqn:Hc; [done|]. by apply exec_inv1.
  - destruct (Z.eqb_spec (c_noff (cpus s c)) 0) as [Hn|]; [|by destruct (code s p)].
    assert (H = []) as ->. { destruct Hh as (_ & _ & Hlen). destruct H; [done|cbn in Hlen; lia]. }
    assert (Hst : state s p = RUNNING).
    { destruct (decide (state s p = RUNNING)) as [|Hst]; [done|]. pose proof (ok_parked _ _ _ _ Hok Hst). set_solver. }
    rewrite Hst in Hok. destruct (code s p) eqn:Hc; cbn -[yield];
      (eapply inv1_self; [done..| |]; [exact Hh|]; rewrite Hst; by apply ok_yield).
  - destruct (code s p) as [|i k] eqn:Hc; [|done]. destruct Hok as [-> Hst]. cbn -[body].
    eapply inv1_self; [done..| |]; [exact Hh|]. rewrite Hst. by apply ok_body.
Qed.

Lemma initial_inv1 s : initial s → inv1 s.
Proof.
  intros (Ho & Hc & Hp). split.
  - intros c. exists []. split.
    + repeat split; [constructor|rewrite Ho; done|set_solver|by rewrite Hc].
    + rewrite Hc. cbn. done.
  - intros c1 c2 p. by rewrite Hc.
  - intros p _. destruct (Hp p) as [He|[He Hk]]; unfold off_ok; rewrite He; split; try done.
    + by intros [|].
    + intros _. rewrite Hk. cbn -[filter]. rewrite filter_self. repeat split; try done. set_solver.
Qed.

(** ** No lost wakeup *)

(** [p] is asleep on [ch], or past the point where it released [L ch] to go
    to sleep. *)
Definition committed (s : sys) (p ch : Z) : Prop :=
  (state s p = SLEEPING ∧ schan s p = Some ch) ∨
  (on_cpu s p ∧ ((∃ k, code s p = SetChan (Some ch) :: k) ∨
                 (∃ k, code s p = SetState SLEEPING :: k) ∧ schan s p = Some ch)).

(** The holder of [L ch] is going to wake [p]. *)
Definition will_wake (s : sys) (p ch : Z) : Prop :=
  ∃ c q, owner s (L ch) = Some c ∧ c_proc (cpus s c) = Some q ∧ pending p ch (code s q).

Record inv2 (s : sys) : Prop := {
  inv_about c p ch : c_proc (cpus s c) = Some p → about ch (code s p) → cond s ch = false;
  inv_comm p ch : 0 ≤ p < NPROC → committed s p ch → cond s ch = true → will_wake s p ch;
  inv_resume p : ¬ on_cpu s p → state s p = RUNNABLE ∨ state s p = SLEEPING → after Sched (code s p)
}.

Lemma ok_about me st H k ch : ok me st H k → about ch k → L ch ∈ H.
Proof.
  destruct k as [|[[|]|[|]| | | | | | | | |] k]; try done.
  - destruct k as [|[|[|]| | | | | | | | |] [|[| | |[|]| | | | | | |] k]]; try done.
    cbn -[filter]. intros (_ & _ & _ & _ & Hin & _) <-. set_solver.
  - destruct k as [|[| | |[|]| | | | | | |] k]; try done. cbn -[filter]. intros (_ & Hin & _) <-. done.
Qed.

Lemma ok_no_pending me st H k p ch : ok me st H k → st ≠ RUNNING → ¬ pending p ch k.
Proof.
  revert st H. induction k as [|i k IH]; intros st H; cbn -[filter]; [tauto|].
  intros [_ Hok] Hst.
  destruct i as [[|]|l|st'|ch'| |q ch'| | | | |]; try tauto; try (naive_solver; fail).
  destruct Hok as (_ & Hst' & Hok). apply (IH _ _ Hok). set_solver.
Qed.

Lemma committed_no_pending s c p ch r :
  inv1 s → committed s p ch → c_proc (cpus s c) = Some p → ¬ pending r ch (code s p).
Proof.
  intros Hi Hcm Hp. destruct (inv1_running s c p Hi Hp) as (H & _ & _ & _ & Hok).
  destruct Hcm as [[Hst _]|[_ [[k Hk]|[[k Hk] _]]]].
  - apply (ok_no_pending _ _ _ _ r ch Hok). congruence.
  - rewrite Hk in *. destruct Hok as (_ & _ & Hn & Hok). destruct (Hn ltac:(done)) as [k' ->].
    cbn in *. destruct Hok as (_ & _ & _ & Hok). by apply (ok_no_pending _ _ _ _ r ch Hok).
  - rewrite Hk in *. cbn in *. destruct Hok as (_ & _ & _ & Hok). by apply (ok_no_pending _ _ _ _ r ch Hok).
Qed.

(** Who is about to sleep or past it has the lock that goes with it. *)
Lemma committed_on_cpu s c p ch :
  inv1 s → committed s p ch → c_proc (cpus s c) = Some p → owner s (P p) = Some c.
Proof.
  intros Hi Hcm Hp. destruct (inv1_running s c p Hi Hp) as (H & Hh & _ & _ & Hok). apply Hh.
  destruct Hcm as [[Hst _]|[_ [[k Hk]|[[k Hk] _]]]].
  - apply (ok_parked _ _ _ _ Hok). congruence.
  - rewrite Hk in Hok. apply Hok.
  - rewrite Hk in Hok. apply Hok.
Qed.

(** A step of the process [p] on CPU [c] that does not leave the CPU. *)
Lemma inv2_thread s s' c p :
  inv1 s → inv2 s → c_proc (cpus s c) = Some p →
  (∀ c', c_proc (cpus s' c') = c_proc (cpus s c')) →
  (∀ c' l, c' ≠ c → owner s l = Some c' → owner s' l = Some c') →
  (∀ r, r ≠ p → (state s' r = SLEEPING → state s r = SLEEPING ∧ schan s' r = schan s r) ∧
                (on_cpu s r → code s' r = code s r ∧ schan s' r = schan s r) ∧
                (¬ on_cpu s r → state s' r = RUNNABLE ∨ state s' r = SLEEPING → after Sched (code s' r))) →
  (∀ ch, cond s' ch = cond s ch ∨ owner s (L ch) = Some c) →
  (∀ ch, about ch (code s' p) → cond s' ch = false) →
  (∀ ch, committed s' p ch → cond s' ch = true → committed s p ch ∧ cond s ch = true) →
  (∀ r ch, 0 ≤ r < NPROC → r ≠ p → committed s' r ch → cond s' ch = true → owner s (L ch) = Some c →
     (cond s ch = true → pending r ch (code s p)) → owner s' (L ch) = Some c ∧ pending r ch (code s' p)) →
  inv2 s'.
Proof.
  intros Hi1 Hi2 Hp Hcp Hown Hoth Hcond Hab Hself Hpend.
  assert (Hon : ∀ r, on_cpu s' r ↔ on_cpu s r).
  { intros r. unfold on_cpu. split; intros [c' Hc']; exists c'; [by rewrite <- Hcp|by rewrite Hcp]. }
  assert (Hcm : ∀ r ch, r ≠ p → committed s' r ch → committed s r ch).
  { intros r ch Hr. destruct (Hoth r Hr) as (H1 & H2 & _).
    intros [[Hst Hc]|[Hc' Hk]]; [left; destruct (H1 Hst); split; congruence|].
    right. rewrite Hon in Hc'. destruct (H2 Hc') as [H3 H4]. by rewrite H3, H4 in Hk. }
  split.
  - intros c' q ch Hc' Ha. rewrite Hcp in Hc'. destruct (decide (q = p)) as [->|Hq]; [by apply Hab|].
    destruct (Hoth q Hq) as (_ & H2 & _). destruct (H2 ltac:(by exists c')) as [Hk _]. rewrite Hk in Ha.
    destruct (Hcond ch) as [->|Ho]; [by eapply inv_about|].
    destruct (inv1_running s c' q Hi1 Hc') as (H & Hh & _ & _ & Hok).
    apply (ok_about _ _ _ _ _ Hok), Hh in Ha. congruence.
  - intros r ch Hr Hc Ht. destruct (decide (owner s (L ch) = Some c)) as [Ho|Ho].
    + destruct (decide (r = p)) as [->|Hne].
      { destruct (Hself ch Hc Ht) as [Hc0 Ht0]. destruct (inv_comm s Hi2 p ch Hr Hc0 Ht0) as (c' & q & Ho' & Hq & Hpe).
        assert (c' = c) as -> by congruence. assert (q = p) as -> by congruence.
        destruct (committed_no_pending s c p ch p Hi1 Hc0 Hp Hpe). }
      destruct (Hpend r ch Hr Hne Hc Ht Ho) as [Ho' Hpe].
      * intros Ht0. destruct (inv_comm s Hi2 r ch Hr (Hcm _ _ Hne Hc) Ht0) as (c' & q & Ho' & Hq & Hpe).
        assert (c' = c) as -> by congruence. by assert (q = p) as -> by congruence.
      * exists c, p. by rewrite Hcp.
    + assert (cond s ch = true ∧ committed s r ch) as [Ht0 Hc0].
      { destruct (Hcond ch) as [He|]; [|done]. split; [congruence|].
        destruct (decide (r = p)) as [->|Hne]; [by apply Hself|by apply Hcm]. }
      destruct (inv_comm s Hi2 r ch Hr Hc0 Ht0) as (c' & q & Ho' & Hq & Hpe).
      assert (c' ≠ c) by congruence. exists c', q. rewrite Hcp. split; [by apply Hown|]. split; [done|].
      assert (q ≠ p) as Hqp. { intros ->. by pose proof (inv_uniq s Hi1 c' c p Hq Hp). }
      destruct (Hoth q Hqp) as (_ & H2 & _). destruct (H2 ltac:(by exists c')) as [-> _]. done.
  - intros r Hn. rewrite Hon in Hn. destruct (decide (r = p)) as [->|Hr].
    + destruct Hn. by exists c.
    + by apply Hoth.
Qed.

Lemma after_about i k ch : after i k → about ch k → (∃ q, i = Acquire (P q)) ∧ about ch (i :: k).
Proof.
  destruct k as [|[[|]|[|]| | | | | | | | |] k]; try done.
  - destruct k as [|[|[|]| | | | | | | | |] [|[| | |[|]| | | | | | |] k]]; try done.
  - destruct k as [|[| | |[|]| | | | | | |] k]; try done. cbn. intros [q ->]. eauto.
Qed.
Lemma after_chan i ch k : after i (SetChan (Some ch) :: k) → i = Release (L ch).
Proof. done. Qed.
Lemma after_state i k : after i (SetState SLEEPING :: k) → ∃ c, i = SetChan (Some c).
Proof. done. Qed.

(** The conditions of [inv2_thread] for one instruction. *)
Lemma inv2_instr s s1 c p i k :
  inv1 s → inv2 s → c_proc (cpus s c) = Some p → code s p = i :: k → after i k →
  (∀ c', c_proc (cpus s1 c') = c_proc (cpus s c')) →
  (∀ c' l, c' ≠ c → owner s l = Some c' → owner s1 l = Some c') →
  (∀ r, r ≠ p → (state s1 r = SLEEPING → state s r = SLEEPING ∧ schan s1 r = schan s r) ∧
                (on_cpu s r → code s1 r = code s r ∧ schan s1 r = schan s r) ∧
                (¬ on_cpu s r → state s1 r = RUNNABLE ∨ state s1 r = SLEEPING → after Sched (code s1 r))) →
  (∀ ch, cond s1 ch = cond s ch ∨ owner s (L ch) = Some c ∧ (∀ q, i ≠ Acquire (P q))) →
  (∀ ch, cond s1 ch = true →
     (state s1 p = SLEEPING ∧ schan s1 p = Some ch ∨ i = SetChan (Some ch) ∨ i = Release (L ch) ∧ about ch (i :: k)) →
     committed s p ch ∧ cond s ch = true) →
  (∀ ch, i = SetChan (Some ch) → schan s1 p = Some ch) →
  (∀ r ch, 0 ≤ r < NPROC → r ≠ p → committed s r ch → committed (set_code p k s1) r ch → cond s1 ch = true →
     owner s (L ch) = Some c →
     (cond s ch = true → pending r ch (i :: k)) → owner s1 (L ch) = Some c ∧ pending r ch k) →
  inv2 (set_code p k s1).
Proof.
  intros Hi1 Hi2 Hp Hk Haft Hcp Hown Hoth Hcond Hself Hch Hpend.
  assert (Hcm : ∀ r ch, r ≠ p → committed (set_code p k s1) r ch → committed s r ch).
  { intros r ch Hr. destruct (Hoth r Hr) as (H1 & H2 & _).
    intros [[Hst Hc]|[[c' Hc'] Hkr]]; cbn in *; [left; destruct (H1 Hst); split; congruence|].
    rewrite Hcp in Hc'. assert (Hon : on_cpu s r) by (by exists c'). right. split; [done|].
    destruct (H2 Hon) as [H3 H4]. rewrite fn_lookup_insert_ne in Hkr by done. by rewrite H3, H4 in Hkr. }
  apply (inv2_thread s _ c p); try done; cbn.
  - intros r Hr. rewrite fn_lookup_insert_ne by done. by apply Hoth.
  - intros ch. destruct (Hcond ch) as [|[]]; tauto.
  - intros ch. rewrite fn_lookup_insert. intros Ha. destruct (after_about _ _ _ Haft Ha) as [[q ->] Ha'].
    destruct (Hcond ch) as [->|[_ Hn]]; [|by destruct (Hn q)]. apply (inv_about s Hi2 c p ch Hp). by rewrite Hk.
  - intros ch Hc Ht. apply Hself; [done|].
    destruct Hc as [?|[_ Hc]]; [by left|]. cbn in Hc. rewrite fn_lookup_insert in Hc.
    destruct Hc as [[k' ->]|[[k' ->] Hs]].
    + pose proof (after_chan _ _ _ Haft) as ->. right; right. split; [done|]. cbn. done.
    + destruct (after_state _ _ Haft) as [c' ->]. right; left. pose proof (Hch c' eq_refl). congruence.
  - intros r ch Hr Hne Hc Ht Ho Hpe. rewrite fn_lookup_insert. rewrite Hk in Hpe. apply Hpend; try done. by apply Hcm.
Qed.

(** The condition of [inv2_instr] on the other processes. *)
Lemma others_same s s1 p :
  inv2 s → (∀ r, r ≠ p → state s1 r = state s r ∧ schan s1 r = schan s r ∧ code s1 r = code s r) →
  ∀ r, r ≠ p → (state s1 r = SLEEPING → state s r = SLEEPING ∧ schan s1 r = schan s r) ∧
               (on_cpu s r → code s1 r = code s r ∧ schan s1 r = schan s r) ∧
               (¬ on_cpu s r → state s1 r = RUNNABLE ∨ state s1 r = SLEEPING → after Sched (code s1 r)).
Proof.
  intros Hi H r Hr. destruct (H r Hr) as (-> & -> & ->). repeat split; try done. by apply Hi.
Qed.

(** An instruction that only changes process [q], which is not on a CPU. *)
Lemma inv2_other s s1 c p q i k :
  inv1 s → inv2 s → c_proc (cpus s c) = Some p → code s p = i :: k → after i k → state s p = RUNNING →
  owner s (P q) = Some c → (∀ l, i ≠ Acquire l ∧ i ≠ Release l) → (∀ ch, i ≠ SetChan ch) →
  owner s1 = owner s → cpus s1 = cpus s → cond s1 = cond s →
  (∀ r, r ≠ q → state s1 r = state s r ∧ schan s1 r = schan s r ∧ code s1 r = code s r) →
  (state s1 q = state s q ∧ schan s1 q = schan s q ∧ code s1 q = code s q ∨
   state s q ≠ RUNNING ∧ state s1 q ≠ SLEEPING ∧ (state s1 q = RUNNABLE → after Sched (code s1 q))) →
  (∀ r ch, committed (set_code p k s1) r ch → pending r ch (i :: k) → pending r ch k) →
  inv2 (set_code p k s1).
Proof.
  intros Hi1 Hi2 Hp Hk Haft Hst Ho Hl Hch Hown Hcpu Hcond Hoth Hq Hpend.
  assert (Hp1 : state s1 p = RUNNING).
  { destruct (decide (p = q)) as [<-|Hn]; [|by destruct (Hoth p Hn) as [-> _]]. destruct Hq as [[-> _]|[]]; done. }
  apply (inv2_instr s s1 c p i k); rewrite ?Hown, ?Hcpu, ?Hcond; try done.
  - intros r Hr. destruct (decide (r = q)) as [->|Hn].
    + destruct Hq as [(E1 & E2 & E3)|(Hn & Hs & Ha)].
      { rewrite E1, E2, E3. repeat split; try done. by apply Hi2. }
      destruct (other_off s c p q) as [Hoff _]; try done. split; [done|]. split; [done|]. intros _ [?|?]; tauto.
    + apply (others_same s s1 q); done.
  - intros ch. by left.
  - intros ch _ [[E _]|[E|[E _]]]; [congruence|by destruct (Hch (Some ch))|]. by destruct (Hl (L ch)) as [_ []].
  - intros ch E. by destruct (Hch (Some ch)).
  - intros r ch _ _ _ Hc Ht Hoc Hpe. split; [done|]. apply Hpend; [done|]. by apply Hpe.
Qed.

Lemma acquire_inv2 s s1 c p l k H :
  inv1 s → inv2 s → c_proc (cpus s c) = Some p → code s p = Acquire l :: k → after (Acquire l) k →
  state s p = RUNNING → holds_exactly s c H → acquire c l s = Ok s1 → inv2 (set_code p k s1).
Proof.
  intros Hi1 Hi2 Hp Hk Haft Hst Hh Ha. destruct (acquire_ok _ _ _ _ _ Hh Ha) as (_ & Hf & Hl & Ho).
  destruct (lf_rest _ _ _ Hf) as (Es & Ec & Ek & Et).
  apply (inv2_instr s s1 c p (Acquire l) k); try done.
  - intros c'. destruct (decide (c' = c)) as [->|]; [apply Hf|by rewrite (lf_cpu _ _ _ Hf)].
  - intros c' l' Hne. apply Hf. done.
  - apply others_same; [done|]. by rewrite Es, Ec, Ek.
  - intros ch. left. by rewrite Et.
  - rewrite Es, Hst. by intros ch _ [[? _]|[?|[? _]]].
  - intros r ch _ _ _ _ Ht Hoc Hpe. rewrite Et in Ht. rewrite Ho.
    destruct (decide (l = L ch)) as [->|Hn]; [congruence|]. rewrite fn_lookup_insert_ne by done.
    split; [done|]. by apply Hpe.
Qed.

Lemma release_inv2 s s1 c p l k H :
  inv1 s → inv2 s → c_proc (cpus s c) = Some p → code s p = Release l :: k → after (Release l) k →
  holds_exactly s c H → l ∈ H → release c l s = Ok s1 → inv2 (set_code p k s1).
Proof.
  intros Hi1 Hi2 Hp Hk Haft Hh Hin Hrel.
  destruct (release_ok s c l H Hh Hin) as (s2 & Hrel' & _ & Hf & Ho).
  assert (s2 = s1) as -> by congruence. destruct (lf_rest _ _ _ Hf) as (Es & Ec & Ek & Et).
  apply (inv2_instr s s1 c p (Release l) k); try done.
  - intros c'. destruct (decide (c' = c)) as [->|]; [apply Hf|by rewrite (lf_cpu _ _ _ Hf)].
  - intros c' l' Hne. apply Hf. done.
  - apply others_same; [done|]. by rewrite Es, Ec, Ek.
  - intros ch. left. by rewrite Et.
  - rewrite Es, Ec, Et. intros ch Ht [?|[?|[_ Ha]]]; [by split; [left|]|done|].
    rewrite <- Hk in Ha. pose proof (inv_about s Hi2 c p ch Hp Ha). congruence.
  - intros r ch _ _ _ _ Ht Hoc Hpe. rewrite Et in Ht. destruct (Hpe Ht) as [Hn Hpe']. rewrite Ho.
    by rewrite fn_lookup_insert_ne.
Qed.

Lemma set_state_inv2 s c p st k :
  inv1 s → inv2 s → c_proc (cpus s c) = Some p → code s p = SetState st :: k → after (SetState st) k →
  inv2 (set_code p k (set_pstate p st s)).
Proof.
  intros Hi1 Hi2 Hp Hk Haft.
  apply (inv2_instr s (set_pstate p st s) c p (SetState st) k); cbn; try done.
  - apply (others_same s (set_pstate p st s) p); [done|]. intros r Hr. cbn. by rewrite fn_lookup_insert_ne.
  - intros ch. by left.
  - intros ch Ht [[Hs Hc]|[?|[? _]]]; [|done..]. rewrite fn_lookup_insert in Hs. subst st.
    split; [|done]. right. split; [by exists c|]. right. by split; [exists k|].
  - intros r ch _ _ _ _ Ht Hoc Hpe. split; [done|]. by apply Hpe.
Qed.

Lemma set_chan_inv2 s c p ch k :
  inv1 s → inv2 s → c_proc (cpus s c) = Some p → code s p = SetChan ch :: k → after (SetChan ch) k →
  inv2 (set_code p k (set_schan p ch s)).
Proof.
  intros Hi1 Hi2 Hp Hk Haft.
  apply (inv2_instr s (set_schan p ch s) c p (SetChan ch) k); cbn; try done.
  - apply (others_same s (set_schan p ch s) p); [done|]. intros r Hr. cbn. by rewrite fn_lookup_insert_ne.
  - intros ch'. by left.
  - rewrite fn_lookup_insert. intros ch' Ht E. assert (ch = Some ch') as -> by naive_solver.
    split; [|done]. right. split; [by exists c|]. left. by exists k.
  - intros ch' [= ->]. by rewrite fn_lookup_insert.
  - intros r ch' _ _ _ _ Ht Hoc Hpe. split; [done|]. by apply Hpe.
Qed.

Lemma set_cond_inv2 s c p ch b k H :
  inv1 s → inv2 s → c_proc (cpus s c) = Some p → code s p = SetCond ch b :: k → after (SetCond ch b) k →
  state s p = RUNNING → holds_exactly s c H → L ch ∈ H →
  (b = true → ∀ r, 0 ≤ r < NPROC → r ≠ p → pending r ch k) →
  inv2 (set_code p k (set_cond ch b s)).
Proof.
  intros Hi1 Hi2 Hp Hk Haft Hst Hh Hin Hpd.
  apply (inv2_instr s (set_cond ch b s) c p (SetCond ch b) k); cbn; try done.
  - by apply (others_same s (set_cond ch b s) p).
  - intros ch'. destruct (decide (ch' = ch)) as [->|]; [|left; by rewrite fn_lookup_insert_ne].
    right. split; [by apply Hh|done].
  - rewrite Hst. intros ch' _ [[? _]|[?|[? _]]]; done.
  - intros r ch' Hr Hne _ _ Ht Hoc Hpe. split; [done|].
    destruct (decide (ch' = ch)) as [->|Hn]; [rewrite fn_lookup_insert in Ht; by apply Hpd|].
    rewrite fn_lookup_insert_ne in Ht by done. by apply Hpe.
Qed.

(** The test of while(!cond) sleep(...), a call, and a timer interrupt only
    change what the process does next. *)
Lemma code_inv2 s c p k :
  inv1 s → inv2 s → c_proc (cpus s c) = Some p → state s p = RUNNING →
  (∀ ch, about ch k → cond s ch = false) → (∀ ch, head k ≠ Some (SetChan (Some ch))) →
  head k ≠ Some (SetState SLEEPING) → (∀ r ch, owner s (L ch) = Some c → ¬ pending r ch (code s p)) →
  inv2 (set_code p k s).
Proof.
  intros Hi1 Hi2 Hp Hst Hab Hch Hss Hnp. apply (inv2_thread s _ c p); cbn; try done.
  - intros r Hr. rewrite fn_lookup_insert_ne by done. apply (others_same s s p); done.
  - intros ch. by left.
  - by rewrite fn_lookup_insert.
  - intros ch [[Hs _]|[_ Hc]]; cbn in *; [congruence|]. rewrite fn_lookup_insert in Hc.
    destruct Hc as [[k' ->]|[[k' ->] _]]; [by destruct (Hch ch)|done].
  - intros r ch Hr Hne Hc Ht Ho Hpe. by destruct (Hnp r ch Ho (Hpe Ht)).
Qed.

Lemma frame_inv2 s s' :
  inv2 s → (∀ c, c_proc (cpus s' c) = c_proc (cpus s c)) → (∀ ch, owner s' (L ch) = owner s (L ch)) →
  state s' = state s → schan s' = schan s → code s' = code s → cond s' = cond s → inv2 s'.
Proof.
  intros Hi Hc Ho Es Ec Ek Et.
  assert (Hon : ∀ r, on_cpu s' r ↔ on_cpu s r).
  { intros r. unfold on_cpu. split; intros [c' Hc']; exists c'; [by rewrite <- Hc|by rewrite Hc]. }
  split.
  - intros c p ch. rewrite Hc, Ek, Et. apply Hi.
  - intros p ch Hp. unfold committed. rewrite Es, Ec, Ek, Et, Hon. intros Hcm Ht.
    destruct (inv_comm s Hi p ch Hp Hcm Ht) as (c & q & H1 & H2 & H3). exists c, q. by rewrite Ho, Hc, Ek.
  - intros p. rewrite Hon, Es, Ek. apply Hi.
Qed.

Lemma sched_inv2 s c p k :
  inv1 s → inv2 s → c_proc (cpus s c) = Some p → holds_exactly s c [P p] → after Sched k →
  inv2 (set_cpu c (mk_cpu None (AtRelease p) (c_noff (cpus s c))) (set_code p k s)).
Proof.
  intros Hi1 Hi2 Hp Hh Haft.
  set (x := mk_cpu None (AtRelease p) (c_noff (cpus s c))).
  assert (Hpr : ∀ c' q, c_proc (<[c := x]> (cpus s) c') = Some q → c' ≠ c ∧ q ≠ p ∧ c_proc (cpus s c') = Some q).
  { intros c' q. destruct (decide (c' = c)) as [->|]; [by rewrite fn_lookup_insert|].
    rewrite fn_lookup_insert_ne by done. intros Hq. repeat split; try done. intros ->.
    by pose proof (inv_uniq s Hi1 c' c p Hq Hp). }
  assert (HnoL : ∀ ch, owner s (L ch) ≠ Some c). { intros ch Ho. apply Hh in Ho. set_solver. }
  split; cbn.
  - intros c' q ch (_ & Hq & Hc')%Hpr. rewrite fn_lookup_insert_ne by done. by apply (inv_about s Hi2 c').
  - intros r ch Hr Hcm Ht. assert (Hc0 : committed s r ch).
    { destruct Hcm as [?|[[c' (_ & Hq & Hc')%Hpr] Hk]]; [by left|]. right. split; [by exists c'|].
      cbn in Hk. by rewrite fn_lookup_insert_ne in Hk. }
    destruct (inv_comm s Hi2 r ch Hr Hc0 Ht) as (c' & q & Ho & Hq & Hpe).
    assert (c' ≠ c) by (intros ->; by destruct (HnoL ch)). exists c', q. cbn.
    rewrite fn_lookup_insert_ne by done. split; [done|]. split; [done|].
    rewrite fn_lookup_insert_ne; [done|]. intros ->. by pose proof (inv_uniq s Hi1 c' c q Hq Hp).
  - intros r Hn Hs. destruct (decide (r = p)) as [->|Hne]; [by rewrite fn_lookup_insert|].
    rewrite fn_lookup_insert_ne by done. apply (inv_resume s Hi2); [|done].
    intros [c' Hc']. apply Hn. exists c'. cbn. rewrite fn_lookup_insert_ne; [done|]. intros <-. congruence.
Qed.

Lemma swtch_inv2 s c p n :
  inv1 s → inv2 s → c_proc (cpus s c) = None → ¬ on_cpu s p → state s p = RUNNABLE →
  inv2 (set_cpu c (mk_cpu (Some p) (AtRelease p) n) (set_pstate p RUNNING s)).
Proof.
  intros Hi1 Hi2 Hp Hoff Hst. pose proof (inv_resume s Hi2 p Hoff (or_introl Hst)) as Haft.
  assert (Hpr : ∀ c' q, c_proc (<[c := mk_cpu (Some p) (AtRelease p) n]> (cpus s) c') = Some q →
                q = p ∨ q ≠ p ∧ c_proc (cpus s c') = Some q).
  { intros c' q. destruct (decide (c' = c)) as [->|]; [rewrite fn_lookup_insert; cbn; intros [= ->]; by left|].
    rewrite fn_lookup_insert_ne by done. intros Hq. right. split; [|done]. intros ->. apply Hoff. by exists c'. }
  split; cbn.
  - intros c' q ch [->|[_ Hc']]%Hpr Ha; [|by apply (inv_about s Hi2 c' q)].
    by destruct (after_about _ _ _ Haft Ha) as [[? ?] _].
  - intros r ch Hr Hcm Ht. assert (Hc0 : committed s r ch).
    { destruct Hcm as [[Hs Hc]|[[c' Hc'] Hk]]; cbn in *.
      - left. destruct (decide (r = p)) as [->|]; [by rewrite fn_lookup_insert in Hs|].
        by rewrite fn_lookup_insert_ne in Hs.
      - destruct (Hpr _ _ Hc') as [->|[_ ?]]; [|right; by split; [exists c'|]].
        destruct Hk as [[k Hk]|[[k Hk] _]]; rewrite Hk in Haft; [done|]. by destruct Haft. }
    destruct (inv_comm s Hi2 r ch Hr Hc0 Ht) as (c' & q & Ho & Hq & Hpe). exists c', q. cbn.
    rewrite fn_lookup_insert_ne; [done|]. intros <-. congruence.
  - intros r Hn. assert (Hne : r ≠ p). { intros ->. apply Hn. exists c. cbn. by rewrite fn_lookup_insert. }
    rewrite fn_lookup_insert_ne by done. apply (inv_resume s Hi2).
    intros [c' Hc']. apply Hn. exists c'. cbn. rewrite fn_lookup_insert_ne; [done|]. intros <-. congruence.
Qed.

Lemma wake_inv2 s c p q ch k H :
  inv1 s → inv2 s → c_proc (cpus s c) = Some p → code s p = WakeIf q ch :: k → after (WakeIf q ch) k →
  state s p = RUNNING → holds_exactly s c H → P q ∈ H →
  inv2 (set_code p k (if decide (state s q = SLEEPING ∧ schan s q = Some ch) then set_pstate q RUNNABLE s else s)).
Proof.
  intros Hi1 Hi2 Hp Hk Haft Hst Hh Hin. assert (Ho : owner s (P q) = Some c) by (by apply Hh).
  eapply (inv2_other s _ c p q (WakeIf q ch)); try done; [by case_decide..| | |].
  - intros r Hr. case_decide; cbn; [|done]. by rewrite fn_lookup_insert_ne.
  - case_decide as Hd; [right|by left]. destruct Hd as [Hs _]. cbn. rewrite fn_lookup_insert.
    repeat split; try done; [congruence|]. intros _. apply (inv_resume s Hi2); [|by right].
    apply (other_off s c p q); try done. congruence.
  - intros r ch' Hc [[<- <-]|?]; [exfalso|done].
    set (s1 := if decide _ then _ else s) in Hc.
    assert (Hs1 : cpus s1 = cpus s ∧ code s1 = code s ∧ schan s1 = schan s) by (unfold s1; by case_decide).
    destruct Hs1 as (E1 & E2 & E3). destruct Hc as [[Hs Hc]|[[c' Hc'] Hks]]; cbn in *.
    + rewrite E3 in Hc. unfold s1 in Hs. case_decide as Hd; [|tauto]. cbn in Hs. by rewrite fn_lookup_insert in Hs.
    + rewrite E1 in Hc'. rewrite E2, E3 in Hks. destruct (decide (q = p)) as [->|Hn].
      * rewrite fn_lookup_insert in Hks. destruct Hks as [[k' ->]|[[k' ->] _]]; [done|]. by destruct Haft.
      * rewrite fn_lookup_insert_ne in Hks by done.
        assert (owner s (P q) = Some c').
        { apply (committed_on_cpu s c' q ch Hi1); [|done]. right. split; [by exists c'|done]. }
        congruence.
Qed.

Lemma exec_inv2 s s' c p i k :
  inv1 s → inv2 s → c_proc (cpus s c) = Some p → code s p = i :: k → exec c p i k s = Ok s' → inv2 s'.
Proof.
  intros Hi1 Hi2 Hp Hk He. destruct (inv1_running s c p Hi1 Hp) as (H & Hh & Hr & Hpos & Hok).
  rewrite Hk in Hok. cbn in Hok. destruct Hok as [Haft Hok].
  destruct i as [l|l|st|ch| |q ch|q|q|q|ch|ch b]; cbn [exec] in He.
  - destruct (acquire c l s) as [s1| | |] eqn:Ha; try done. injection He as <-.
    eapply acquire_inv2; try done. by destruct l; destruct Hok.
  - destruct (release c l s) as [s1| | |] eqn:Ha; try done. injection He as <-.
    destruct Hok as [Hin _]. by eapply release_inv2.
  - injection He as <-. by apply (set_state_inv2 s c).
  - injection He as <-. by apply (set_chan_inv2 s c).
  - destruct Hok as (-> & _ & _). unfold sched in He. repeat case_match; try done. injection He as <-.
    by apply sched_inv2.
  - injection He as <-. destruct Hok as (Hst & Hin & _). by eapply wake_inv2.
  - injection He as <-. destruct Hok as (Hst & Hin & _).
    eapply (inv2_other s _ c p q (KillIf q)); try done; [by apply Hh|by case_decide..| |].
    + intros r Hne. case_decide; cbn; [|done]. by rewrite fn_lookup_insert_ne.
    + case_decide as Hs; [right|by left]. cbn. rewrite fn_lookup_insert. repeat split; try done; [congruence|].
      intros _. apply (inv_resume s Hi2); [|by right]. apply (other_off s c p q); try done; [by apply Hh|congruence].
  - injection He as <-. destruct Hok as (Hst & Hin & _).
    eapply (inv2_other s _ c p q (Spawn q)); try done; [by apply Hh|by case_decide..| |].
    + intros r Hne. case_decide; cbn; [|done]. by rewrite !fn_lookup_insert_ne.
    + case_decide as Hs; [right|by left]. cbn. rewrite !fn_lookup_insert. repeat split; try done. congruence.
  - injection He as <-. destruct Hok as (Hst & Hin & _).
    eapply (inv2_other s _ c p q (Reap q)); try done; [by apply Hh|by case_decide..| |].
    + intros r Hne. case_decide; cbn; [|done]. by rewrite fn_lookup_insert_ne.
    + case_decide as Hs; [right|by left]. cbn. rewrite fn_lookup_insert. repeat split; try done. congruence.
  - injection He as <-. destruct Hok as (Hst & _ & _). apply (code_inv2 s c p); try done.
    + intros ch'. destruct (cond s ch) eqn:Ht; [|by cbn; intros <-].
      intros Ha. by destruct (after_about _ _ _ Haft Ha) as [[? ?] _].
    + intros ch'. destruct (cond s ch); [|done]. destruct k as [|i k]; [done|]. intros [= ->]. done.
    + destruct (cond s ch); [|done]. destruct k as [|i k]; [done|]. intros [= ->]. by destruct Haft.
    + rewrite Hk. cbn. tauto.
  - injection He as <-. destruct Hok as (Hst & Hin & Hpd & _). by eapply set_cond_inv2.
Qed.

Lemma scheduler_inv2 s s' c : inv1 s → inv2 s → c_proc (cpus s c) = None → scheduler c s = Ok s' → inv2 s'.
Proof.
  intros Hi1 Hi2 Hp. destruct (inv_cpu s Hi1 c) as (H & Hh & Hm). rewrite Hp in Hm. unfold scheduler.
  destruct (c_pos (cpus s c)) as [p|p|p]; destruct Hm as [Hr ->].
  - destruct (acquire c (P p) s) as [s1| | |] eqn:Ha; try done. intros [= <-].
    destruct (acquire_ok _ _ _ _ _ Hh Ha) as (_ & Hf & _ & Ho). destruct (lf_rest _ _ _ Hf) as (? & ? & ? & ?).
    apply (frame_inv2 s); cbn; try done; [|intros; by rewrite Ho, fn_lookup_insert_ne].
    intros c'. destruct (decide (c' = c)) as [->|]; [by rewrite fn_lookup_insert|].
    rewrite fn_lookup_insert_ne by done. by rewrite (lf_cpu _ _ _ Hf).
  - case_decide as Hst; intros [= <-].
    + apply swtch_inv2; try done. intros [c' Hc']. assert (state s p = RUNNING); [|congruence].
      apply (inv1_parked s c c'); [done|apply Hh; set_solver|done|congruence].
    + apply (frame_inv2 s); cbn; try done. intros c'. destruct (decide (c' = c)) as [->|]; [by rewrite fn_lookup_insert|].
      by rewrite fn_lookup_insert_ne.
  - destruct (release_ok s c (P p) [P p] Hh) as (s1 & -> & _ & Hf & Ho); [set_solver|]. intros [= <-].
    destruct (lf_rest _ _ _ Hf) as (? & ? & ? & ?).
    apply (frame_inv2 s); cbn; try done; [|intros; by rewrite Ho, fn_lookup_insert_ne].
    intros c'. destruct (decide (c' = c)) as [->|]; [by rewrite fn_lookup_insert|].
    rewrite fn_lookup_insert_ne by done. by rewrite (lf_cpu _ _ _ Hf).
Qed.

Lemma body_head me x : ∃ l i k, body me x = Acquire l :: i :: k ∧ ∀ l', i ≠ Release l'.
Proof. destruct x; eexists _, _, _; (split; [reflexivity|done]). Qed.

Lemma cpu_step_inv2 a s s' c : inv1 s → inv2 s → cpu_step a c s = Ok s' → inv2 s'.
Proof.
  intros Hi1 Hi2. unfold cpu_step. destruct (c_proc (cpus s c)) as [p|] eqn:Hp; [|by apply scheduler_inv2].
  destruct (inv1_running s c p Hi1 Hp) as (H & Hh & Hr & Hpos & Hok).
  destruct a as [| |x].
  - destruct (code s p) as [|i k] eqn:Hc; [by intros [= <-]|]. by apply exec_inv2.
  - destruct (Z.eqb_spec (c_noff (cpus s c)) 0) as [Hn|]; [|destruct (code s p); by intros [= <-]].
    assert (H = []) as ->. { destruct Hh as (_ & _ & Hlen). destruct H; [done|cbn in Hlen; lia]. }
    assert (Hst : state s p = RUNNING).
    { destruct (decide (state s p = RUNNING)) as [|Hst]; [done|]. pose proof (ok_parked _ _ _ _ Hok Hst). set_solver. }
    intros E. assert (s' = set_code p (yield p ++ code s p) s) as -> by (by destruct (code s p); injection E as <-).
    apply (code_inv2 s c p); try done. intros r ch Ho. apply Hh in Ho. set_solver.
  - destruct (code s p) as [|i k] eqn:Hc; [|by intros [= <-]]. intros [= <-]. destruct Hok as [-> Hst].
    destruct (body_head p x) as (l & i & k & -> & Hi). apply (code_inv2 s c p); try done.
    + intros ch. destruct l; [|done]. destruct i; try done. by destruct (Hi l).
    + rewrite Hc. intros r ch _ [].
Qed.

Lemma initial_inv2 s : initial s → inv2 s.
Proof.
  intros (Ho & Hc & Hp). split.
  - intros c p ch. by rewrite Hc.
  - intros p ch _ [[Hs _]|[[c Hs] _]]; [|by rewrite Hc in Hs]. destruct (Hp p) as [|[]]; congruence.
  - intros p _ [Hs|Hs]; destruct (Hp p) as [|[? ->]]; try congruence. done.
Qed.

Lemma reachable_inv s s' : initial s → rtc step s s' → inv1 s' ∧ inv2 s'.
Proof.
  intros Hi Hr. assert (Hs : inv1 s ∧ inv2 s) by (split; [by apply initial_inv1|by apply initial_inv2]).
  clear Hi. induction Hr as [|s s1 s' Hst _ IH]; [done|]. apply IH. destruct Hs as [Hi1 Hi2].
  destruct Hst as [a c _ E]. pose proof (cpu_step_inv1 a s c Hi1) as H1. rewrite E in H1.
  split; [exact H1|exact (cpu_step_inv2 a s s1 c Hi1 Hi2 E)].
Qed.

(** ** Progress *)

Lemma safe_ok (Q : sys → Prop) o : safe Q o → (∀ m, o ≠ Sleeps m) → ∃ s', o = Ok s'.
Proof. destruct o as [| |m|]; cbn; intros Hs Hn; [eauto|done|by destruct (Hn m)|done]. Qed.

Lemma acquire_spin s c l m : acquire c l s = Sleeps m → ∃ c', owner s l = Some c' ∧ c' ≠ c.
Proof.
  unfold acquire. destruct (owner s l) as [c'|]; [|done]. destruct (Z.eqb_spec c' c); [done|]. eauto.
Qed.

Lemma go_spin s c m :
  inv1 s → cpu_step Go c s = Sleeps m →
  (∃ l c', owner s l = Some c' ∧ c' ≠ c ∧
     ((∀ l', owner s l' ≠ Some c) ∨ (∃ r, l = P r) ∧ ∀ q, owner s (P q) ≠ Some c)).
Proof.
  intros Hi. unfold cpu_step. destruct (c_proc (cpus s c)) as [p|] eqn:Hp.
  - destruct (inv1_running s c p Hi Hp) as (H & Hh & _ & _ & Hok). destruct (code s p) as [|i k] eqn:Hk; [done|].
    intros E. destruct i as [l|l| | | | | | | | |]; cbn in E; try done; try (by case_decide).
    + destruct (acquire c l s) eqn:Ha; try done. destruct (acquire_spin _ _ _ _ Ha) as (c' & Ho & Hne).
      exists l, c'. split; [done|]. split; [done|]. destruct Hok as [_ Hok]. destruct l as [r|ch].
      * right. split; [by eexists|]. destruct Hok as (_ & Hn & _). intros q Hq. apply Hh in Hq. by apply (Hn q).
      * left. destruct Hok as (_ & -> & _). intros l' Hl. apply Hh in Hl. set_solver.
    + unfold release in E. by repeat case_match.
    + unfold sched in E. by repeat case_match.
  - destruct (inv_cpu s Hi c) as (H & Hh & Hm). rewrite Hp in Hm. unfold scheduler. intros E.
    destruct (c_pos (cpus s c)) as [p|p|p]; destruct Hm as [_ ->].
    + destruct (acquire c (P p) s) eqn:Ha; try done. destruct (acquire_spin _ _ _ _ Ha) as (c' & Ho & Hne).
      exists (P p), c'. split; [done|]. split; [done|]. left. intros l' Hl. apply Hh in Hl. set_solver.
    + by case_decide.
    + unfold release in E. by repeat case_match.
Qed.

(** A CPU that has the lock of a process does not spin. *)
Lemma plock_progress s c q : inv1 s → owner s (P q) = Some c → ∃ s', cpu_step Go c s = Ok s'.
Proof.
  intros Hi Ho. apply (safe_ok inv1); [by apply cpu_step_inv1|]. intros m E.
  destruct (go_spin s c m Hi E) as (l & c' & _ & _ & [Hn|[_ Hn]]); by apply (Hn _ Ho).
Qed.

Lemma step_owner a c s s' l c' :
  cpu_step a c s = Ok s' → owner s' l = Some c' → c' = c ∨ owner s l = Some c'.
Proof.
  assert (Hacq : ∀ l0 s1, acquire c l0 s = Ok s1 → owner s1 l = Some c' → c' = c ∨ owner s l = Some c').
  { unfold acquire. intros l0 s1. destruct (owner s l0); [by case_match|]. intros [= <-]. cbn.
    destruct (decide (l = l0)) as [->|]; [rewrite fn_lookup_insert; intros [= ->]; by left|].
    rewrite fn_lookup_insert_ne by done. by right. }
  assert (Hrel : ∀ l0 s1, release c l0 s = Ok s1 → owner s1 l = Some c' → c' = c ∨ owner s l = Some c').
  { unfold release. intros l0 s1. case_decide; [|done]. case_match; [done|]. intros [= <-]. cbn.
    destruct (decide (l = l0)) as [->|]; [by rewrite fn_lookup_insert|].
    rewrite fn_lookup_insert_ne by done. by right. }
  unfold cpu_step. destruct (c_proc (cpus s c)) as [p|].
  - destruct a, (code s p) as [|i k]; try (intros [= <-]; by right);
      try (case_match; intros [= <-]; by right).
    destruct i; cbn; try (intros [= <-]; try case_decide; by right).
    + destruct (acquire c l0 s) eqn:E; try done. intros [= <-]. cbn. by apply (Hacq l0).
    + destruct (release c l0 s) eqn:E; try done. intros [= <-]. cbn. by apply (Hrel l0).
    + unfold sched. repeat case_match; try done. intros [= <-]. cbn. by right.
  - unfold scheduler. destruct (c_pos (cpus s c)) as [p|p|p].
    + destruct (acquire c (P p) s) eqn:E; try done. intros [= <-]. cbn. by apply (Hacq (P p)).
    + case_decide; intros [= <-]; cbn; by right.
    + destruct (release c (P p) s) eqn:E; try done. intros [= <-]. cbn. by apply (Hrel (P p)).
Qed.

Lemma reachable_owner s s' l c : initial s → rtc step s s' → owner s' l = Some c → 0 ≤ c < NCPU.
Proof.
  intros (Ho & _) Hr. assert (Hs : ∀ l c, owner s l = Some c → 0 ≤ c < NCPU) by (intros ??; by rewrite Ho).
  clear Ho. revert l c. induction Hr as [|s s1 s' Hst _ IH]; [done|]. apply IH. intros l c Hl.
  destruct Hst as [a c' Hc' E]. destruct (step_owner _ _ _ _ _ _ E Hl) as [->|?]; [done|by eapply Hs].
Qed.

(** ** Executions *)

(** The state after the CPUs have done what [tr] says; the state stays as it
    is from a step on that is not possible. *)
Fixpoint run (tr : list (action * Z)) (s : sys) : sys :=
  match tr with
  | [] => s
  | (a, c) :: tr =>
      if (0 <=? c) && (c <? NCPU) then match cpu_step a c s with Ok s' => run tr s' | _ => s end else s
  end.

Lemma run_steps tr s : rtc step s (run tr s).
Proof.
  revert s. induction tr as [|[a c] tr IH]; intros s; [apply rtc_refl|]. cbn.
  case_match eqn:Hc; [|apply rtc_refl]. apply andb_true_iff in Hc as [?%Z.leb_le ?%Z.ltb_lt].
  destruct (cpu_step a c s) as [s'| | |] eqn:E; try apply rtc_refl.
  eapply rtc_l; [|apply IH]. by apply (step_cpu s s' a c).
Qed.

(** Two processes, 0 and 1. *)
Definition boot : sys :=
  mk_sys (fun _ => None) (fun _ => mk_cpu None (AtAcquire 0) 0)
    (fun p => if (p =? 0) || (p =? 1) then RUNNABLE else UNUSED) (fun _ => None) forkret (fun _ => false).
Lemma boot_initial : initial boot.
Proof.
  split; [done|]. split; [done|]. intros p. cbn. destruct ((p =? 0) || (p =? 1)); [by right|by left].
Qed.

(** Process 0 runs on CPU 0 and goes to sleep on channel 5; process 1 runs on
    CPU 1 and makes the condition of the channel true. *)
Definition go (n : nat) (c : Z) : list (action * Z) := replicate n (Go, c).
Definition asleep_trace : list (action * Z) :=
  go 3 0 ++ [(Start (CConsume 5), 0)] ++ go 7 0 ++ go 1 0 ++ go 6 1 ++ [(Start (CProduce 5), 1)] ++ go 2 1.



(** C22: No wakeup is lost: when the condition that process [p] sleeps for is
    true, the process that made it true still has the lock of the condition
    and is yet to call wakeup's test on [p]; without that lock held, no
    sleeper's condition is true. *)
Theorem no_lost_wakeup s s' p ch :
  initial s → rtc step s s' → 0 ≤ p < NPROC →
  state s' p = SLEEPING → schan s' p = Some ch → cond s' ch = true →
  ∃ c q, owner s' (L ch) = Some c ∧ c_proc (cpus s' c) = Some q ∧ pending p ch (code s' q).
Proof.
  intros Hi Hr Hp Hs Hc Ht. destruct (reachable_inv s s' Hi Hr) as [_ Hi2].
  apply (inv_comm s' Hi2); [done| |done]. by left.
Qed.

Lemma no_lost_wakeup_witness :
  state (run asleep_trace boot) 0 = SLEEPING ∧
  ∃ c q, owner (run asleep_trace boot) (L 5) = Some c ∧ c_proc (cpus (run asleep_trace boot) c) = Some q ∧
    pending 0 5 (code (run asleep_trace boot) q).
Proof.
  assert (Hs : state (run asleep_trace boot) 0 = SLEEPING) by (vm_compute; reflexivity).
  split; [exact Hs|].
  apply (no_lost_wakeup boot (run asleep_trace boot) 0 5 boot_initial (run_steps _ _)); [done|exact Hs| |];
    vm_compute; reflexivity.
Defined.


