(* ===== verification/Boot.v ===== *)
(** * Booting a hart (kernel/entry.S, kernel/start.c)

    From the first instruction to main(): the code of kernel/start.c runs in
    machine mode on the machine of Machine.v.  The theorem says in which
    state main() begins, and that the memory for the timer interrupts is what
    timervec needs. *)

From stdpp Require Import functions.
From S2P Require Import Prelude Mem Riscv Kalloc Vm PageTable Sched Machine Asm.
Import Reg Csr.

Definition CLINT : Z := 0x2000000.
Definition CLINT_MTIMECMP (hartid : Z) : Z := CLINT + 0x4000 + 8 * hartid.
Definition CLINT_MTIME : Z := CLINT + 0xBFF8.

(** The addresses that the linker gives to [stack0], [timer_scratch],
    [timervec] and [main]: above the devices, aligned. *)
Class BootImage := {
  stack0 : Z; timer_scratch : Z; timervec_addr : Z; main_addr : Z;
  stack0_ok : KERNBASE ≤ stack0 ∧ stack0 + 4096 * NCPU ≤ PHYSTOP;
  scratch_ok : KERNBASE ≤ timer_scratch ∧ timer_scratch + 40 * NCPU ≤ PHYSTOP ∧ timer_scratch mod 8 = 0;
  timervec_ok : timervec_addr mod 4 = 0;
  main_ok : main_addr mod 4 = 0 }.

Section boot.
Context {HW : Platform} {BI : BootImage}.

Definition read64 (a : Z) : M mach Z := do pa <- access_at Load a; gets (fun s => ld64 (ram s) pa).
Definition write64 (a v : Z) : M mach unit := do pa <- access_at Store a; modify (fun s => set_ram (st64 (ram s) pa v) s).

Definition timerinit : M mach unit :=
  do hart <- r_mhartid;
  let id := i32 hart in
  let interval := 1000000 in
  do t <- read64 CLINT_MTIME;
  do! write64 (CLINT_MTIMECMP id) (u64 (t + interval));
  let scratch := timer_scratch + 40 * id in
  do! write64 (scratch + 24) (CLINT_MTIMECMP id);
  do! write64 (scratch + 32) interval;
  do! w_mscratch scratch;
  do! w_mtvec timervec_addr;
  do x <- r_mstatus;
  do! w_mstatus (Z.lor x MSTATUS_MIE);
  do y <- r_mie;
  w_mie (Z.lor y MIE_MTIE).

Definition start : M mach flow :=
  do x <- r_mstatus;
  let x := Z.land x (u64 (Z.lnot MSTATUS_MPP_MASK)) in
  let x := Z.lor x MSTATUS_MPP_S in
  do! w_mstatus x;
  do! w_mepc main_addr;
  do! w_satp 0;
  do! w_medeleg 0xffff;
  do! w_mideleg 0xffff;
  do y <- r_sie;
  do! w_sie (Z.lor (Z.lor (Z.lor y SIE_SEIE) SIE_STIE) SIE_SSIE);
  do! w_pmpaddr0 0x3fffffffffffff;
  do! w_pmpcfg0 0xf;
  do! timerinit;
  do id <- r_mhartid;
  do! w_tp (u64 (i32 id));
  exec Mret.

(** ** Machine mode *)

Lemma wp_csrr_M c s (Q : Z → mach → Prop) : mode s = Machine → Q (csr_value c s) s → wp (csrr c) Q s.
Proof. intros Hm HQ. unfold csrr. apply wp_bind, wp_get. rewrite Hm. by apply wp_ret. Qed.
Lemma wp_csrw_M c v s (Q : unit → mach → Prop) :
  mode s = Machine → c ≠ mhartid → c ≠ time → Q tt (csr_store c v s) → wp (csrw c v) Q s.
Proof.
  intros Hm H1 H2 HQ. unfold csrw. apply wp_bind, wp_get. rewrite Hm. rewrite bool_decide_false by (by intros [?|?]). by apply wp_modify.
Qed.
Lemma wp_read64_M a s (Q : Z → mach → Prop) : mode s = Machine → a mod 8 = 0 → Q (ld64 (ram s) a) s → wp (read64 a) Q s.
Proof.
  intros Hm Ha HQ. unfold read64, access_at. apply wp_bind, wp_bind, wp_get. rewrite (proj2 (Z.eqb_eq _ _) Ha).
  rewrite translate_bare by (by left). apply wp_ret. by apply wp_gets.
Qed.
Lemma wp_write64_M a v s (Q : unit → mach → Prop) :
  mode s = Machine → a mod 8 = 0 → Q tt (set_ram (st64 (ram s) a v) s) → wp (write64 a v) Q s.
Proof.
  intros Hm Ha HQ. unfold write64, access_at. apply wp_bind, wp_bind, wp_get. rewrite (proj2 (Z.eqb_eq _ _) Ha).
  rewrite translate_bare by (by left). apply wp_ret. by apply wp_modify.
Qed.

(** Registers that are not views of others. *)
Definition plain (c : csr) : bool := negb (bool_decide (c ∈ [mhartid; time; sstatus; sie; sip])).
Lemma wp_csrw_plain c v s (Q : unit → mach → Prop) :
  mode s = Machine → plain c = true → Q tt (set_csr c (warl c v) s) → wp (csrw c v) Q s.
Proof. intros Hm Hc HQ. apply wp_csrw_M; [done|by intros ->|by intros ->|]. by destruct c. Qed.

Lemma MPP_lor v f : Z.testbit f 11 = false → Z.testbit f 12 = false → Z.land (Z.shiftr (Z.lor v f) b_MPP) 3 = Z.land (Z.shiftr v b_MPP) 3.
Proof. intros H1 H2. by rewrite !MPP_bits, !Z.lor_spec, H1, H2, !orb_false_r. Qed.

Lemma timerinit_spec s :
  mode s = Machine → 0 ≤ csrs s mhartid < NCPU →
  wp timerinit (fun _ s' => timer_area s' ∧
    mode s' = Machine ∧ gpr s' = gpr s ∧ csrs s' mtvec = timervec_addr ∧
    csrs s' mscratch = timer_scratch + 40 * csrs s mhartid ∧
    csrs s' mstatus = warl mstatus (Z.lor (csrs s mstatus) MSTATUS_MIE) ∧
    csrs s' mie = warl mie (Z.lor (csrs s mie) MIE_MTIE) ∧
    (∀ c, c ∉ [mscratch; mtvec; mstatus; mie] → csrs s' c = csrs s c) ∧
    (∀ b, ¬ bytes_of (CLINT_MTIMECMP (csrs s mhartid)) 8 b → ¬ bytes_of (timer_scratch + 40 * csrs s mhartid) 40 b → ld8 (ram s') b = ld8 (ram s) b)) s.
Proof.
  intros Hm Hh. destruct scratch_ok as (Hs1 & Hs2 & Hs3). unfold timerinit. set (h := csrs s mhartid) in *. unfold NCPU, PHYSTOP, KERNBASE in *.
  apply wp_bind. apply wp_csrr_M; [done|]. change (csr_value mhartid s) with h. replace (i32 h) with h by (symmetry; apply i32_small; lia).
  apply wp_bind, wp_read64_M; [done|done|].
  apply wp_bind, wp_write64_M; [done|unfold CLINT_MTIMECMP, CLINT; zdm|]. set (m1 := st64 _ _ _).
  apply wp_bind, wp_write64_M; [done|zdm|]. cbn [ram set_ram]. set (m2 := st64 m1 _ _).
  apply wp_bind, wp_write64_M; [done|zdm|]. cbn [ram set_ram]. set (m3 := st64 m2 _ _).
  apply wp_bind, wp_csrw_plain; [done|done|]. rewrite (warl_scratch mscratch _ (or_introl eq_refl)).
  apply wp_bind, wp_csrw_plain; [done|done|]. rewrite (warl_tvec mtvec timervec_addr (or_introl eq_refl) timervec_ok).
  apply wp_bind, wp_csrr_M; [done|]. apply wp_bind, wp_csrw_plain; [done|done|].
  apply wp_bind, wp_csrr_M; [done|]. apply wp_csrw_plain; [done|done|].
  set (s' := set_csr mie _ _).
  assert (E : csrs s' mscratch = timer_scratch + 40 * h ∧ ram s' = m3) by done. destruct E as [E1 E2].
  assert (L : ld64 m3 (timer_scratch + 40 * h + 24) = CLINT_MTIMECMP h).
  { unfold m3. rewrite ld64_st64_ne by lia. unfold m2. rewrite ld64_st64_eq. apply u64_small. unfold CLINT_MTIMECMP, CLINT. lia. }
  split; [|repeat (split; [done|]); split].
  - split; rewrite ?E1, ?E2; [zdm|lia| |]; rewrite L; unfold CLINT_MTIMECMP, CLINT; [zdm|lia].
  - intros c Hc. rewrite !not_elem_of_cons in Hc. destruct Hc as (? & ? & ? & ? & _).
    unfold s'. cbn [csrs set_csr set_ram]. by rewrite !fn_lookup_insert_ne by done.
  - intros b H1 H2. rewrite E2. unfold bytes_of in *. unfold m3, m2, m1, st64. by rewrite !ld8_stn_out by lia.
Qed.

(** ** The state in which main() begins *)

Record booted (s0 s : mach) : Prop := {
  bt_mode : mode s = Supervisor;
  bt_pc : pc s = main_addr;
  bt_paging : bare s;
  bt_tp : gpr s tp = csrs s0 mhartid;
  bt_sp : gpr s sp = stack0 + 4096 * (csrs s0 mhartid + 1);
  bt_hart : csrs s mhartid = csrs s0 mhartid;
  bt_interrupts i : i ∈ [1; 5; 9] → Z.testbit (csrs s mideleg) i = true ∧ Z.testbit (csr_value sie s) i = true;
  bt_exceptions i : i ∈ [8; 12; 13; 15] → Z.testbit (csrs s medeleg) i = true;
  bt_timer : timer_area s ∧ csrs s mtvec = timervec_addr ∧ Z.testbit (csrs s mie) 7 = true ∧ Z.testbit (csrs s mideleg) 7 = false;
  bt_scratch : csrs s mscratch = timer_scratch + 40 * csrs s0 mhartid;
  bt_ram b : ¬ bytes_of (CLINT_MTIMECMP (csrs s0 mhartid)) 8 b → ¬ bytes_of (csrs s mscratch) 40 b → ld8 (ram s) b = ld8 (ram s0) b }.

Lemma testbit_merge mask old new i :
  Z.testbit (merge mask old new) i = if Z.testbit mask i then Z.testbit new i else Z.testbit old i.
Proof.
  unfold merge. rewrite Z.lor_spec, Z.ldiff_spec, Z.land_spec. destruct (Z.testbit mask i); simpl.
  - by rewrite andb_false_r, andb_true_r.
  - by rewrite andb_true_r, andb_false_r, orb_false_r.
Qed.

(** The mode that start() leaves for mret. *)
Lemma MPP_start v :
  let x := Z.lor (Z.land v (u64 (Z.lnot MSTATUS_MPP_MASK))) MSTATUS_MPP_S in
  Z.land (Z.shiftr (warl mstatus (Z.lor (warl mstatus x) MSTATUS_MIE)) b_MPP) 3 = 1.
Proof.
  intros x. assert (Z.land (Z.shiftr x b_MPP) 3 = 1) as Hx.
  { rewrite MPP_bits. unfold x. rewrite !Z.lor_spec, !Z.land_spec. change (Z.testbit MSTATUS_MPP_S 11) with true.
    change (Z.testbit MSTATUS_MPP_S 12) with false. change (Z.testbit (u64 (Z.lnot MSTATUS_MPP_MASK)) 12) with false.
    by rewrite orb_true_r, andb_false_r. }
  assert (Z.land (Z.shiftr (Z.lor (warl mstatus x) MSTATUS_MIE) b_MPP) 3 = 1) as Hy by (rewrite MPP_lor, warl_mpp; by rewrite ?Hx).
  rewrite warl_mpp; by rewrite Hy.
Qed.

(** The interrupts of supervisor mode, which start() delegates and enables. *)
Lemma start_sie v i :
  i ∈ [1; 5; 9] →
  Z.testbit (warl mideleg 0xffff) i = true ∧
  Z.testbit (warl mie (Z.lor (warl mie (merge (warl mideleg 0xffff) v
    (Z.lor (Z.lor (Z.lor (Z.land v (warl mideleg 0xffff)) SIE_SEIE) SIE_STIE) SIE_SSIE))) MIE_MTIE)) i = true.
Proof.
  intros Hi. assert (i ∈ [1; 3; 5; 7; 9; 11]) as Hi' by (repeat (apply elem_of_cons in Hi as [->|Hi]); [in_list..|by apply elem_of_nil in Hi]).
  assert (Z.testbit (warl mideleg 0xffff) i = true) as Hd.
  { rewrite warl_mideleg_s by done. repeat (apply elem_of_cons in Hi as [->|Hi]); [done..|by apply elem_of_nil in Hi]. }
  split; [done|]. rewrite warl_mie, Z.lor_spec, warl_mie, testbit_merge, Hd, !Z.lor_spec by done.
  repeat (apply elem_of_cons in Hi as [->|Hi]); [by rewrite ?orb_true_r..|by apply elem_of_nil in Hi].
Qed.

(** From the end of timerinit() on: [s2] is the state before it, [s3] after. *)
Lemma start_leaves s v s2 s3 :
  let h := csrs s mhartid in
  0 ≤ h < NCPU → gpr s sp = stack0 + 4096 * (h + 1) → gpr s3 = gpr s →
  csrs s2 mhartid = h → csrs s2 satp = 0 → csrs s2 mepc = main_addr →
  csrs s2 medeleg = warl medeleg 0xffff → csrs s2 mideleg = warl mideleg 0xffff →
  mode s3 = Machine → timer_area s3 → csrs s3 mtvec = timervec_addr → csrs s3 mscratch = timer_scratch + 40 * h →
  csrs s3 mstatus = warl mstatus (Z.lor (warl mstatus (Z.lor (Z.land v (u64 (Z.lnot MSTATUS_MPP_MASK))) MSTATUS_MPP_S)) MSTATUS_MIE) →
  csrs s3 mie = warl mie (Z.lor (warl mie (merge (warl mideleg 0xffff) (csrs s mie)
    (Z.lor (Z.lor (Z.lor (Z.land (csrs s mie) (warl mideleg 0xffff)) SIE_SEIE) SIE_STIE) SIE_SSIE))) MIE_MTIE) →
  (∀ c, c ∉ [mscratch; mtvec; mstatus; mie] → csrs s3 c = csrs s2 c) →
  (∀ b, ¬ bytes_of (CLINT_MTIMECMP h) 8 b → ¬ bytes_of (timer_scratch + 40 * h) 40 b → ld8 (ram s3) b = ld8 (ram s) b) →
  wp (do id <- r_mhartid; do! w_tp (u64 (i32 id)); exec Mret) (fun f s' => f = Left ∧ booted s s') s3.
Proof.
  intros h Hh Hsp T3 E2 E6 E7 E8 E9 T2 T1 T4 T5 T6 T7 T8 T9.
  apply wp_bind, wp_csrr_M; [done|]. change (csr_value mhartid s3) with (csrs s3 mhartid). rewrite T8, E2 by by_dec.
  unfold NCPU in Hh. rewrite i32_small, u64_small by lia.
  apply wp_bind, wp_modify. set (s4 := set_gpr tp h s3). apply wp_bind, wp_get.
  assert (F : mode s4 = Machine ∧ csrs s4 = csrs s3 ∧ ram s4 = ram s3) by done. destruct F as (F1 & F2 & F3).
  assert (G : gpr s4 tp = h ∧ gpr s4 sp = gpr s sp).
  { unfold s4. rewrite gpr_set_eq, gpr_set_ne by done. by rewrite T3. }
  clearbody s4. rewrite (bool_decide_true (mode s4 = Machine)) by done. apply wp_bind, wp_modify, wp_ret. split; [done|].
  destruct (mret_frame s4) as (G1 & G2 & G3). destruct G as [G4 G5].
  assert (C : ∀ c, c ∉ [mscratch; mtvec; mstatus; mie] → csrs (do_mret s4) c = csrs s2 c).
  { intros c Hc. rewrite G3, F2, T8 by (done || (intros ->; apply Hc; by_dec)). done. }
  split.
  - unfold do_mret. cbn [mode set_mode]. rewrite F2, T6. rewrite MPP_start. done.
  - change (csrs s4 mepc = main_addr). rewrite F2, T8 by by_dec. done.
  - right. rewrite C by by_dec. by rewrite E6.
  - by rewrite G1.
  - by rewrite G1, G5.
  - by rewrite C by by_dec.
  - intros i Hi. destruct (start_sie (csrs s mie) i Hi) as [H1 H2]. rewrite C, E9 by by_dec. split; [done|].
    unfold csr_value. rewrite Z.land_spec, (C mideleg), E9, H1, andb_true_r by by_dec. by rewrite G3, F2, T7.
  - intros i Hi. rewrite C, E8, warl_medeleg by (done || by_dec).
    repeat (apply elem_of_cons in Hi as [->|Hi]); [done..|by apply elem_of_nil in Hi].
  - split; [|split; [|split]].
    + destruct T1. split; by rewrite G3, F2, ?G2, ?F3.
    + by rewrite G3, F2.
    + rewrite G3, F2, T7, warl_mie, Z.lor_spec by (done || in_list). apply orb_true_r.
    + rewrite C, E9 by by_dec. apply warl_mideleg_m. in_list.
  - by rewrite G3, F2.
  - intros b. rewrite G2, F3, G3, F2, T5 by done. apply T9.
Qed.

Lemma start_spec s :
  mode s = Machine → 0 ≤ csrs s mhartid < NCPU → gpr s sp = stack0 + 4096 * (csrs s mhartid + 1) →
  wp start (fun f s' => f = Left ∧ booted s s') s.
Proof.
  intros Hm Hh Hsp. unfold start. set (h := csrs s mhartid) in *.
  apply wp_bind, wp_csrr_M; [done|]. cbn [csr_value]. set (x := Z.lor _ MSTATUS_MPP_S).
  apply wp_bind, wp_csrw_plain; [done|done|]. set (st := warl mstatus x).
  apply wp_bind, wp_csrw_plain; [done|done|]. rewrite (warl_epc mepc main_addr (or_introl eq_refl) main_ok).
  apply wp_bind, wp_csrw_plain; [done|done|]. rewrite warl_bare.
  apply wp_bind, wp_csrw_plain; [done|done|]. apply wp_bind, wp_csrw_plain; [done|done|].
  set (s1 := set_csr mideleg _ _). apply wp_bind, wp_csrr_M; [done|].
  apply wp_bind, wp_csrw_M; [done|done|done|]. cbn [csr_store].
  apply wp_bind, wp_csrw_plain; [done|done|]. apply wp_bind, wp_csrw_plain; [done|done|]. set (s2 := set_csr pmpcfg0 _ _).
  assert (E : mode s2 = Machine ∧ csrs s2 mhartid = h ∧ gpr s2 = gpr s ∧ ram s2 = ram s ∧ csrs s2 mstatus = st ∧ csrs s2 satp = 0 ∧
    csrs s2 mepc = main_addr ∧ csrs s2 medeleg = warl medeleg 0xffff ∧ csrs s2 mideleg = warl mideleg 0xffff ∧
    csrs s2 mie = warl mie (merge (warl mideleg 0xffff) (csrs s mie)
      (Z.lor (Z.lor (Z.lor (Z.land (csrs s mie) (warl mideleg 0xffff)) SIE_SEIE) SIE_STIE) SIE_SSIE))) by done.
  clearbody s2. destruct E as (E1 & E2 & E3 & E4 & E5 & E6 & E7 & E8 & E9 & E10).
  apply wp_bind. eapply wp_mono; [apply timerinit_spec; [done|by rewrite E2]|]. cbv beta. rewrite E2, E4, E5, E10.
  intros _ s3 (T1 & T2 & T3 & T4 & T5 & T6 & T7 & T8 & T9).
  apply (start_leaves s (csrs s mstatus) s2 s3); try done. by rewrite T3, E3.
Qed.

(** C11: Every hart gets from reset to main() as it should.  _entry gives the
    hart its own stack, and start() leaves machine mode for main() in
    supervisor mode, with paging off, the number of the hart in tp, the
    interrupts of supervisor mode and the exceptions of user programs
    delegated and enabled, and the timer's interrupts enabled, handled by
    timervec and not delegated; the memory that mscratch points to is what
    timervec needs.  No other memory has been written. *)
Theorem boots s code :
  mode s = Machine → 0 ≤ csrs s mhartid < NCPU →
  wp (run code code (_entry stack0 start)) (fun f s' => f = Left ∧ booted s s') s.
Proof.
  intros Hm Hh. unfold _entry. pose proof stack0_ok as [Hs1 Hs2]. unfold PHYSTOP, KERNBASE, NCPU in *.
  eapply (wp_step (fun _ => False)); [by apply fetches_M|]. apply wp_bind, wp_modify, wp_ret.
  eapply (wp_step (fun _ => False)); [by apply fetches_M|]. apply wp_bind, wp_modify, wp_ret.
  eapply (wp_step (fun _ => False)); [by apply fetches_M|]. apply wp_bind, wp_csrr_M; [done|]. apply wp_bind, wp_modify, wp_ret.
  eapply (wp_step (fun _ => False)); [by apply fetches_M|]. apply wp_bind, wp_gets. apply wp_bind, wp_modify, wp_ret.
  eapply (wp_step (fun _ => False)); [by apply fetches_M|]. apply wp_bind, wp_gets. apply wp_bind, wp_gets. apply wp_bind, wp_modify, wp_ret.
  eapply (wp_step (fun _ => False)); [by apply fetches_M|]. apply wp_bind, wp_gets. apply wp_bind, wp_gets. apply wp_bind, wp_modify, wp_ret.
  set (s' := set_gpr sp _ _). assert (E : mode s' = Machine ∧ csrs s' = csrs s ∧ ram s' = ram s) by done. destruct E as (E1 & E2 & E3).
  assert (Hsp : gpr s' sp = stack0 + 4096 * (csrs s' mhartid + 1)).
  { transitivity (u64 (u64 stack0 + u64 (u64 (1024 * 4) * u64 (csrs s mhartid + 1)))); [done|].
    rewrite E2, (u64_small stack0), (u64_small (csrs s mhartid + 1)), (u64_small (1024 * 4)) by lia.
    rewrite (u64_small (1024 * 4 * _)), u64_small by lia. lia. }
  clearbody s'. eapply (wp_step (fun _ => False)); [by apply fetches_M|].
  eapply wp_mono; [apply (start_spec s'); [done|by rewrite E2|done]|]. cbv beta. intros f t [-> B].
  split; [done|]. destruct B; split; rewrite <- ?E2, <- ?E3; done.
Qed.
End boot.

Definition sample_boot : BootImage.
Proof.
  refine {| stack0 := KERNBASE + 0x10000; timer_scratch := KERNBASE + 0x20000; timervec_addr := KERNBASE + 0x100;
            main_addr := KERNBASE + 0x200 |}; unfold PHYSTOP, KERNBASE, NCPU; split_and?; done || lia.
Defined.

Lemma boots_witness :
  let s := set_csr mhartid 3 (sample_mach Machine (fun _ => 0)) in
  wp (@run sample_hw KERNBASE KERNBASE (@_entry (@stack0 sample_boot) (@start sample_hw sample_boot)))
    (fun f s' => f = Left ∧ @booted sample_boot s s') s.
Proof. cbv zeta. apply (@boots sample_hw sample_boot); [reflexivity|by split]. Defined.
