(* ===== verification/Syscall.v ===== *)
(** * Arguments of system calls, and the process calls (kernel/syscall.c, kernel/sysproc.c)

    The registers of the trap frame hold the arguments.  A call ends with a
    value for a0 ([Done]), goes to sleep and is to be tried again when woken
    ([Blocks]), or does not return ([Exits]).  A value returned as a uint64
    is between 0 and 2^64 - 1; -1 is 2^64 - 1. *)

From stdpp Require Import functions.
From S2P Require Import Prelude Mem Kstring Riscv Kalloc Vm Bio Log Fs Kstate File Proc.

Definition MAXPATH : Z := 128.
Definition MAXARG : Z := 32.

Inductive sysend := Done (v : Z) | Blocks | Exits.
Definition returns (c : M kst Z) : M kst sysend := do r <- c; ret (Done (u64 r)).

(** A string as the bytes before its NUL. *)
Fixpoint c_string (l : list Z) : list Z :=
  match l with [] => [] | b :: l => if b =? 0 then [] else b :: c_string l end.

Section syscall.
Context {KI : KernelImage} {Dev : Devices} {KT : KernelText}.

(** The result with the value at the address. *)
Definition fetchaddr (addr : Z) : M kst (Z * Z) :=
  do p <- myproc;
  if (p_sz p <=? addr) || (p_sz p <? u64 (addr + 8)) then ret (-1, 0)
  else
    do '(r, b) <- on_km (copyin (p_pagetable p) addr 8);
    if negb (r =? 0) then ret (-1, 0) else ret (0, ld64 (bytes_mem b) 0).

(** The length with the string. *)
Definition fetchstr (addr max : Z) : M kst (Z * list Z) :=
  do p <- myproc;
  do '(r, b) <- on_km (copyinstr (p_pagetable p) addr max);
  if r <? 0 then ret (-1, []) else ret (Z.of_nat (length (c_string b)), c_string b).

Definition argraw (n : Z) : M kst Z :=
  do p <- myproc;
  if (0 <=? n) && (n <=? 5) then tf_get (p_trapframe p) (tf_a0 + 8 * n) else panic "argraw".
Definition argint (n : Z) : M kst Z := do v <- argraw n; ret (i32 v).
Definition argaddr (n : Z) : M kst Z := argraw n.
Definition argstr (n max : Z) : M kst (Z * list Z) := do addr <- argaddr n; fetchstr addr max.

Definition sys_exit : M kst sysend := do n <- argint 0; do! exit n; ret Exits.
Definition sys_getpid : M kst Z := do p <- myproc; ret (p_pid p).
Definition sys_fork : M kst Z := fork.
Definition sys_wait : M kst sysend :=
  do p <- argaddr 0;
  do r <- wait p;
  match r with Some r => ret (Done (u64 r)) | None => ret Blocks end.
Definition sys_sbrk : M kst Z :=
  do n <- argint 0;
  do p <- myproc;
  do r <- growproc n;
  if r <? 0 then ret (-1) else ret (p_sz p).

(** One test of while(ticks - ticks0 < n); [ticks0] is the tick count the
    call started at. *)
Definition sys_sleep_test (ticks0 n : Z) : M kst sysend :=
  do t <- gets ticks;
  if u32 (t - ticks0) <? u32 n then
    do p <- myproc;
    if p_killed p then ret (Done (u64 (-1)))
    else do! sleep CTicks; ret Blocks
  else ret (Done 0).
Definition sys_sleep : M kst sysend :=
  do n <- argint 0; do t <- gets ticks; sys_sleep_test t n.

Definition sys_kill : M kst Z := do pid <- argint 0; kill pid.
Definition sys_uptime : M kst Z := gets ticks.

End syscall.
