(* ===== verification/Sysfile.v ===== *)
(** * File-system calls (kernel/sysfile.c)

    All of them except sys_exec. *)

From stdpp Require Import functions.
From S2P Require Import Prelude Mem Kstring Riscv Kalloc Vm Bio Log Fs Pipe Kstate File Proc Syscall.

Definition O_WRONLY : Z := 0x001.
Definition O_RDWR : Z := 0x002.
Definition O_CREATE : Z := 0x200.
Definition O_TRUNC : Z := 0x400.
Definition has_flag (omode flag : Z) : bool := negb (Z.land omode flag =? 0).

(** ** On the file system alone *)

Definition no_name : list Z := repeat 0 (Z.to_nat DIRSIZ).
Definition dot : list Z := [46].
Definition dotdot : list Z := [46; 46].

Fixpoint isdirempty_loop (fuel : nat) (dp off : Z) : M fs bool :=
  do x <- the_inode dp;
  if off <? i_size x then
    match fuel with
    | O => out_of_fuel
    | S f =>
        do '(r, de) <- readi dp LocalDst off sizeof_dirent;
        if negb (r =? sizeof_dirent) then panic "isdirempty: readi"
        else if negb (de_inum de =? 0) then ret false
        else isdirempty_loop f dp (off + sizeof_dirent)
    end
  else ret true.
Definition isdirempty (dp : Z) : M fs bool :=
  do x <- the_inode dp;
  isdirempty_loop (Z.to_nat (i_size x / sizeof_dirent + 1)) dp (2 * sizeof_dirent).

(** ip->nlink += d; iupdate(ip) *)
Definition add_nlink (ip d : Z) : M fs unit :=
  do! upd_inode ip (fun x => set_nlink (i16 (i_nlink x + d)) x); iupdate ip.

Definition create_fail (ip dp : Z) : M fs (option Z) :=
  do! upd_inode ip (set_nlink 0);
  do! iupdate ip;
  do! iunlockput ip;
  do! iunlockput dp;
  ret None.

Definition create (path : list Z) (type major minor : Z) : M fs (option Z) :=
  do '(dp, name) <- nameiparent path no_name;
  match dp with
  | None => ret None
  | Some dp =>
      do! ilock dp;
      do r <- dirlookup dp name;
      match r with
      | Some (ip, _) =>
          do! iunlockput dp;
          do! ilock ip;
          do x <- the_inode ip;
          if (type =? T_FILE) && ((i_type x =? T_FILE) || (i_type x =? T_DEVICE)) then ret (Some ip)
          else do! iunlockput ip; ret None
      | None =>
          do d <- the_inode dp;
          do r <- ialloc (i_dev d) type;
          match r with
          | None => do! iunlockput dp; ret None
          | Some ip =>
              do! ilock ip;
              do! upd_inode ip (fun x => set_nlink 1 (set_major_minor (i16 major) (i16 minor) x));
              do! iupdate ip;
              do x <- the_inode ip;
              do ok <- (if type =? T_DIR then
                          do r1 <- dirlink ip dot (i_inum x);
                          if r1 <? 0 then ret false
                          else do r2 <- dirlink ip dotdot (i_inum d); ret (negb (r2 <? 0))
                        else ret true);
              if negb ok then create_fail ip dp
              else
                do r <- dirlink dp name (i_inum x);
                if r <? 0 then create_fail ip dp
                else
                  do! (if type =? T_DIR then add_nlink dp 1 else ret tt);
                  do! iunlockput dp;
                  ret (Some ip)
          end
      end
  end.

(** sys_link between begin_op() and end_op(). *)
Definition link_bad (ip : Z) : M fs Z :=
  do! ilock ip; do! add_nlink ip (-1); do! iunlockput ip; ret (-1).
Definition link (old new : list Z) : M fs Z :=
  do ip <- namei old;
  match ip with
  | None => ret (-1)
  | Some ip =>
      do! ilock ip;
      do x <- the_inode ip;
      if i_type x =? T_DIR then do! iunlockput ip; ret (-1)
      else
        do! add_nlink ip 1;
        do! iunlock ip;
        do '(dp, name) <- nameiparent new no_name;
        match dp with
        | None => link_bad ip
        | Some dp =>
            do! ilock dp;
            do d <- the_inode dp;
            do x <- the_inode ip;
            do r <- (if negb (i_dev d =? i_dev x) then ret (-1) else dirlink dp name (i_inum x));
            if r <? 0 then do! iunlockput dp; link_bad ip
            else do! iunlockput dp; do! iput ip; ret 0
        end
  end.

(** sys_unlink between begin_op() and end_op(). *)
Definition unlink_bad (dp : Z) : M fs Z := do! iunlockput dp; ret (-1).
Definition unlink (path : list Z) : M fs Z :=
  do '(dp, name) <- nameiparent path no_name;
  match dp with
  | None => ret (-1)
  | Some dp =>
      do! ilock dp;
      if (namecmp name dot =? 0) || (namecmp name dotdot =? 0) then unlink_bad dp
      else
        do r <- dirlookup dp name;
        match r with
        | None => unlink_bad dp
        | Some (ip, off) =>
            do! ilock ip;
            do x <- the_inode ip;
            if i_nlink x <? 1 then panic "unlink: nlink < 1"
            else
              do busy <- (if i_type x =? T_DIR then do e <- isdirempty ip; ret (negb e) else ret false);
              if (busy : bool) then do! iunlockput ip; unlink_bad dp
              else
                do r <- writei dp (LocalSrc (repeat 0 (Z.to_nat sizeof_dirent))) off sizeof_dirent;
                if negb (r =? sizeof_dirent) then panic "unlink: writei"
                else
                  do! (if i_type x =? T_DIR then add_nlink dp (-1) else ret tt);
                  do! iunlockput dp;
                  do! add_nlink ip (-1);
                  do! iunlockput ip;
                  ret 0
        end
  end.

Section sysfile.
Context {KI : KernelImage} {Dev : Devices} {KT : KernelText}.

(** ** File descriptors *)

(** The descriptor with its open file. *)
Definition argfd (n : Z) : M kst (option (Z * Z)) :=
  do fd <- argint n;
  do p <- myproc;
  if (fd <? 0) || (NOFILE <=? fd) then ret None
  else match p_ofile p fd with None => ret None | Some f => ret (Some (fd, f)) end.

Fixpoint fdalloc_loop (n : nat) (f : Z) : M kst Z :=
  match n with
  | O => ret (-1)
  | S n' =>
      let fd := NOFILE - Z.of_nat n in
      do q <- me;
      do p <- myproc;
      match p_ofile p fd with
      | None => do! upd_proc q (set_ofile fd (Some f)); ret fd
      | Some _ => fdalloc_loop n' f
      end
  end.
Definition fdalloc (f : Z) : M kst Z := fdalloc_loop (Z.to_nat NOFILE) f.
Definition clear_fd (fd : Z) : M kst unit := do q <- me; upd_proc q (set_ofile fd None).

Definition sys_dup : M kst Z :=
  do r <- argfd 0;
  match r with
  | None => ret (-1)
  | Some (_, f) =>
      do fd <- fdalloc f;
      if fd <? 0 then ret (-1) else do! filedup f; ret fd
  end.
Definition sys_read : M kst Z :=
  do p <- argaddr 1;
  do n <- argint 2;
  do r <- argfd 0;
  match r with None => ret (-1) | Some (_, f) => fileread f p n end.
Definition sys_write : M kst Z :=
  do p <- argaddr 1;
  do n <- argint 2;
  do r <- argfd 0;
  match r with None => ret (-1) | Some (_, f) => filewrite f p n end.
Definition sys_close : M kst Z :=
  do r <- argfd 0;
  match r with
  | None => ret (-1)
  | Some (fd, f) => do! clear_fd fd; do! fileclose f; ret 0
  end.
Definition sys_fstat (pad : Z) : M kst Z :=
  do st <- argaddr 1;
  do r <- argfd 0;
  match r with None => ret (-1) | Some (_, f) => filestat pad f st end.

(** ** Calls on paths *)

Definition in_op {A} (c : M fs A) : M kst A := do! begin_op_; do r <- on_fs c; do! end_op_; ret r.

Definition sys_link : M kst Z :=
  do '(r, old) <- argstr 0 MAXPATH;
  if r <? 0 then ret (-1)
  else
    do '(r, new) <- argstr 1 MAXPATH;
    if r <? 0 then ret (-1) else in_op (link old new).
Definition sys_unlink : M kst Z :=
  do '(r, path) <- argstr 0 MAXPATH;
  if r <? 0 then ret (-1) else in_op (unlink path).

(** The part of sys_open that finds or creates the inode and leaves it
    locked. *)
Definition open_inode (path : list Z) (omode : Z) : M fs (option Z) :=
  do ip <- (if has_flag omode O_CREATE then create path T_FILE 0 0
            else
              do ip <- namei path;
              match ip with
              | None => ret None
              | Some ip =>
                  do! ilock ip;
                  do x <- the_inode ip;
                  if (i_type x =? T_DIR) && negb (omode =? 0) then do! iunlockput ip; ret None
                  else ret (Some ip)
              end);
  match ip with
  | None => ret None
  | Some ip =>
      do x <- the_inode ip;
      if (i_type x =? T_DEVICE) && ((i_major x <? 0) || (NDEV <=? i_major x))
      then do! iunlockput ip; ret None else ret (Some ip)
  end.

Definition sys_open : M kst Z :=
  do omode <- argint 1;
  do '(n, path) <- argstr 0 MAXPATH;
  if n <? 0 then ret (-1)
  else
    do! begin_op_;
    do ip <- on_fs (open_inode path omode);
    match ip with
    | None => do! end_op_; ret (-1)
    | Some ip =>
        do f <- filealloc;
        match f with
        | None => do! on_fs (iunlockput ip); do! end_op_; ret (-1)
        | Some f =>
            do fd <- fdalloc f;
            if fd <? 0 then do! fileclose f; do! on_fs (iunlockput ip); do! end_op_; ret (-1)
            else
              do x <- on_fs (the_inode ip);
              do! upd_file f (fun y =>
                    if i_type x =? T_DEVICE then set_fmajor (i_major x) (set_ftype FD_DEVICE y)
                    else set_foff 0 (set_ftype FD_INODE y));
              do! upd_file f (fun y =>
                    set_rw (negb (has_flag omode O_WRONLY)) (has_flag omode O_WRONLY || has_flag omode O_RDWR)
                      (set_fip ip y));
              do! (if has_flag omode O_TRUNC && (i_type x =? T_FILE) then on_fs (itrunc ip) else ret tt);
              do! on_fs (iunlock ip);
              do! end_op_;
              ret fd
        end
    end.

Definition made (ip : option Z) : M kst Z :=
  match ip with
  | None => do! end_op_; ret (-1)
  | Some ip => do! on_fs (iunlockput ip); do! end_op_; ret 0
  end.
Definition sys_mkdir : M kst Z :=
  do! begin_op_;
  do '(r, path) <- argstr 0 MAXPATH;
  if r <? 0 then do! end_op_; ret (-1)
  else do ip <- on_fs (create path T_DIR 0 0); made ip.
Definition sys_mknod : M kst Z :=
  do! begin_op_;
  do major <- argint 1;
  do minor <- argint 2;
  do '(r, path) <- argstr 0 MAXPATH;
  if r <? 0 then do! end_op_; ret (-1)
  else do ip <- on_fs (create path T_DEVICE major minor); made ip.

Definition sys_chdir : M kst Z :=
  do! begin_op_;
  do '(r, path) <- argstr 0 MAXPATH;
  if r <? 0 then do! end_op_; ret (-1)
  else
    do ip <- on_fs (namei path);
    match ip with
    | None => do! end_op_; ret (-1)
    | Some ip =>
        do! on_fs (ilock ip);
        do x <- on_fs (the_inode ip);
        if negb (i_type x =? T_DIR) then do! on_fs (iunlockput ip); do! end_op_; ret (-1)
        else
          do! on_fs (iunlock ip);
          do p <- myproc;
          do! match p_cwd p with None => panic "kerneltrap" | Some c => on_fs (iput c) end;
          do! end_op_;
          do q <- me;
          do! upd_proc q (set_cwd (Some ip));
          ret 0
    end.

Definition int_bytes (v : Z) : list Z := load_bytes (st32 (fun _ => 0) 0 v) 0 4.
Definition sys_pipe : M kst Z :=
  do fdarray <- argaddr 0;
  do r <- pipealloc;
  match r with
  | None => ret (-1)
  | Some (rf, wf) =>
      do fd0 <- fdalloc rf;
      do fd1 <- (if fd0 <? 0 then ret (-1) else fdalloc wf);
      if fd1 <? 0 then
        do! (if 0 <=? fd0 then clear_fd fd0 else ret tt);
        do! fileclose rf;
        do! fileclose wf;
        ret (-1)
      else
        do p <- myproc;
        do r <- on_km (copyout (p_pagetable p) fdarray (int_bytes fd0) 4);
        do r <- (if r <? 0 then ret r
                 else on_km (copyout (p_pagetable p) (u64 (fdarray + 4)) (int_bytes fd1) 4));
        if r <? 0 then
          do! clear_fd fd0;
          do! clear_fd fd1;
          do! fileclose rf;
          do! fileclose wf;
          ret (-1)
        else ret 0
  end.

End sysfile.
