(* ===== verification/Exec.v ===== *)
(** * Executing a program (kernel/exec.c, kernel/elf.h, sys_exec of kernel/sysfile.c) *)

From stdpp Require Import functions.
From S2P Require Import Prelude Mem Kstring Riscv Kalloc Vm Bio Log Fs Kstate File Proc Syscall Sysfile.

(** ** ELF headers *)

Definition ELF_MAGIC : Z := 0x464C457F.
Definition sizeof_elfhdr : Z := 64.
Definition elf_magic (b : list Z) : Z := ld32 (bytes_mem b) 0.
Definition elf_entry (b : list Z) : Z := ld64 (bytes_mem b) 24.
Definition elf_phoff (b : list Z) : Z := ld64 (bytes_mem b) 32.
Definition elf_phnum (b : list Z) : Z := ld16 (bytes_mem b) 56.

Definition ELF_PROG_LOAD : Z := 1.
Definition sizeof_proghdr : Z := 56.
Definition ph_type (b : list Z) : Z := ld32 (bytes_mem b) 0.
Definition ph_flags (b : list Z) : Z := ld32 (bytes_mem b) 4.
Definition ph_off (b : list Z) : Z := ld64 (bytes_mem b) 8.
Definition ph_vaddr (b : list Z) : Z := ld64 (bytes_mem b) 16.
Definition ph_filesz (b : list Z) : Z := ld64 (bytes_mem b) 32.
Definition ph_memsz (b : list Z) : Z := ld64 (bytes_mem b) 40.

Definition flags2perm (flags : Z) : Z :=
  Z.lor (if Z.land flags 0x1 =? 0 then 0 else PTE_X) (if Z.land flags 0x2 =? 0 then 0 else PTE_W).

Section exec.
Context {KI : KernelImage} {Dev : Devices} {KT : KernelText}.

Fixpoint loadseg_loop (fuel : nat) (pagetable va ip offset sz i : Z) : M kst Z :=
  if i <? sz then
    match fuel with
    | O => out_of_fuel
    | S f =>
        do pa <- on_km (walkaddr pagetable (u64 (va + i)));
        if pa =? 0 then panic "loadseg: address should exist"
        else
          let n := if sz - i <? PGSIZE then sz - i else PGSIZE in
          do '(r, _) <- on_fs (readi ip (PhysDst pa) (u32 (offset + i)) n);
          if negb (r =? n) then ret (-1)
          else loadseg_loop f pagetable va ip offset sz (u32 (i + PGSIZE))
    end
  else ret 0.
Definition loadseg (pagetable va ip offset sz : Z) : M kst Z :=
  loadseg_loop (Z.to_nat (sz / PGSIZE + 1)) pagetable va ip offset sz 0.

(** The loop over the [n] program headers left, the next one at [off]: whether
    all was loaded, and the size of the user memory. *)
Fixpoint load_segments (n : nat) (pagetable ip off sz : Z) : M kst (bool * Z) :=
  match n with
  | O => ret (true, sz)
  | S n' =>
      do '(r, ph) <- on_fs (readi ip LocalDst (u32 off) sizeof_proghdr);
      let next := load_segments n' pagetable ip (i32 (off + sizeof_proghdr)) in
      if negb (r =? sizeof_proghdr) then ret (false, sz)
      else if negb (ph_type ph =? ELF_PROG_LOAD) then next sz
      else if ph_memsz ph <? ph_filesz ph then ret (false, sz)
      else if u64 (ph_vaddr ph + ph_memsz ph) <? ph_vaddr ph then ret (false, sz)
      else if negb (ph_vaddr ph mod PGSIZE =? 0) then ret (false, sz)
      else
        do sz1 <- on_km (uvmalloc pagetable sz (u64 (ph_vaddr ph + ph_memsz ph)) (flags2perm (ph_flags ph)));
        if sz1 =? 0 then ret (false, sz)
        else
          do r <- loadseg pagetable (ph_vaddr ph) ip (u32 (ph_off ph)) (u32 (ph_filesz ph));
          if r <? 0 then ret (false, sz1) else next sz1
  end.

(** Push the argument strings: the stack pointer with the addresses of the
    strings pushed, or nothing when they do not fit. *)
Fixpoint push_args (pagetable stackbase sp argc : Z) (argv : list (list Z)) : M kst (option (Z * list Z)) :=
  match argv with
  | [] => ret (Some (sp, []))
  | arg :: argv =>
      if MAXARG <=? argc then ret None
      else
        let sp := u64 (sp - (Z.of_nat (length arg) + 1)) in
        let sp := sp - sp mod 16 in
        if sp <? stackbase then ret None
        else
          do r <- on_km (copyout pagetable sp (arg ++ [0]) (Z.of_nat (length arg) + 1));
          if r <? 0 then ret None
          else
            do x <- push_args pagetable stackbase sp (argc + 1) argv;
            match x with None => ret None | Some (sp', us) => ret (Some (sp', sp :: us)) end
  end.

Definition words_bytes (l : list Z) : list Z :=
  concat (map (fun v => load_bytes (st64 (fun _ => 0) 0 v) 0 8) l).

(** The part of a path after the last slash. *)
Fixpoint last_elem (s last : list Z) : list Z :=
  match s with
  | [] => last
  | c :: s' => last_elem s' (if c =? slash then s' else last)
  end.

(** bad: before and after the program file has been put back. *)
Definition bad_file (pagetable sz : Z) (ip : Z) : M kst Z :=
  do! (if pagetable =? 0 then ret tt else proc_freepagetable pagetable sz);
  do! on_fs (iunlockput ip);
  do! end_op_;
  ret (-1).
Definition bad_image (pagetable sz : Z) : M kst Z := do! proc_freepagetable pagetable sz; ret (-1).

(** Stack, arguments and the switch to the new image. *)
Definition exec_image (path : list Z) (argv : list (list Z)) (pagetable sz entry : Z) : M kst Z :=
  do q <- me;
  do p <- myproc;
  let sz := PGROUNDUP sz in
  do sz1 <- on_km (uvmalloc pagetable sz (u64 (sz + 2 * PGSIZE)) PTE_W);
  if sz1 =? 0 then bad_image pagetable sz
  else
    do! on_km (uvmclear pagetable (u64 (sz1 - 2 * PGSIZE)));
    let stackbase := u64 (sz1 - PGSIZE) in
    do x <- push_args pagetable stackbase sz1 0 argv;
    match x with
    | None => bad_image pagetable sz1
    | Some (sp, ustack) =>
        let argc := Z.of_nat (length argv) in
        let sp := u64 (sp - (argc + 1) * 8) in
        let sp := sp - sp mod 16 in
        if sp <? stackbase then bad_image pagetable sz1
        else
          do r <- on_km (copyout pagetable sp (words_bytes (ustack ++ [0])) ((argc + 1) * 8));
          if r <? 0 then bad_image pagetable sz1
          else
            do! tf_set (p_trapframe p) tf_a1 sp;
            do! upd_proc q (fun x => set_name (name_copy (p_name x) (last_elem path path ++ [0])) x);
            do! upd_proc q (fun x => set_sz sz1 (set_pagetable pagetable x));
            do! tf_set (p_trapframe p) tf_epc entry;
            do! tf_set (p_trapframe p) tf_sp sp;
            do! proc_freepagetable (p_pagetable p) (p_sz p);
            ret argc
    end.

Definition exec (path : list Z) (argv : list (list Z)) : M kst Z :=
  do! begin_op_;
  do ip <- on_fs (namei path);
  match ip with
  | None => do! end_op_; ret (-1)
  | Some ip =>
      do! on_fs (ilock ip);
      do '(r, elf) <- on_fs (readi ip LocalDst 0 sizeof_elfhdr);
      if negb (r =? sizeof_elfhdr) then bad_file 0 0 ip
      else if negb (elf_magic elf =? ELF_MAGIC) then bad_file 0 0 ip
      else
        do p <- myproc;
        do pagetable <- proc_pagetable (p_trapframe p);
        if pagetable =? 0 then bad_file 0 0 ip
        else
          do '(ok, sz) <- load_segments (Z.to_nat (elf_phnum elf)) pagetable ip (i32 (elf_phoff elf)) 0;
          if negb ok then bad_file pagetable sz ip
          else
            do! on_fs (iunlockput ip);
            do! end_op_;
            exec_image path argv pagetable sz (elf_entry elf)
  end.

(** ** The system call *)

Fixpoint free_args (pages : list Z) : M kst unit :=
  match pages with [] => ret tt | a :: pages => do! on_km (kfree a); free_args pages end.

(** Fetch the arguments from number [i] on; the pages and strings fetched,
    and whether all of them were. *)
Fixpoint fetch_args (n : nat) (uargv i : Z) : M kst (bool * list (Z * list Z)) :=
  match n with
  | O => ret (false, [])
  | S n' =>
      do '(r, uarg) <- fetchaddr (u64 (uargv + 8 * i));
      if r <? 0 then ret (false, [])
      else if uarg =? 0 then ret (true, [])
      else
        do a <- on_km kalloc;
        if a =? 0 then ret (false, [])
        else
          do '(r, s) <- fetchstr uarg PGSIZE;
          if r <? 0 then ret (false, [(a, s)])
          else
            do! on_km (modify (fun m => set_memory (store_bytes (memory m) a (s ++ [0])) m));
            do '(ok, l) <- fetch_args n' uargv (i + 1);
            ret (ok, (a, s) :: l)
  end.

Definition sys_exec : M kst Z :=
  do uargv <- argaddr 1;
  do '(r, path) <- argstr 0 MAXPATH;
  if r <? 0 then ret (-1)
  else
    do '(ok, args) <- fetch_args (Z.to_nat MAXARG) uargv 0;
    if (ok : bool) then
      do r <- exec path (map snd args);
      do! free_args (map fst args);
      ret r
    else do! free_args (map fst args); ret (-1).

End exec.
