(* ===== verification/Trap.v ===== *)
(** * Traps, interrupts and the dispatch of system calls (kernel/trap.c, kernel/plic.c, syscall() of kernel/syscall.c)

    The control and status registers of a hart next to the state of the
    kernel.  What a device does is an argument: the interrupt the PLIC hands
    out, the bytes the UART has received, how often it is ready to send. *)

From stdpp Require Import functions.
From S2P Require Import Prelude Mem Kstring Printf Riscv Kalloc Vm Bio Log Fs Pipe Uart Console Kstate File Proc Syscall Sysfile Exec.

Definition SSTATUS_SPP : Z := Z.shiftl 1 8.
Definition SSTATUS_SPIE : Z := Z.shiftl 1 5.
Definition SSTATUS_SIE : Z := Z.shiftl 1 1.
Definition UART0_IRQ : Z := 10.
Definition VIRTIO0_IRQ : Z := 1.
Definition PLIC_SENABLE (hart : Z) : Z := PLIC + 0x2080 + hart * 0x100.
Definition PLIC_SPRIORITY (hart : Z) : Z := PLIC + 0x201000 + hart * 0x2000.
Definition PLIC_SCLAIM (hart : Z) : Z := PLIC + 0x201004 + hart * 0x2000.

Record hart := mk_hart {
  sstatus : Z; sepc : Z; scause : Z; stval : Z; stvec : Z; sip : Z; satp : Z; tp : Z
}.
Definition set_sstatus v h := mk_hart v (sepc h) (scause h) (stval h) (stvec h) (sip h) (satp h) (tp h).
Definition set_sepc v h := mk_hart (sstatus h) v (scause h) (stval h) (stvec h) (sip h) (satp h) (tp h).
Definition set_stvec v h := mk_hart (sstatus h) (sepc h) (scause h) (stval h) v (sip h) (satp h) (tp h).
Definition set_sip v h := mk_hart (sstatus h) (sepc h) (scause h) (stval h) (stvec h) v (satp h) (tp h).
Definition intr_on (h : hart) : hart := set_sstatus (Z.lor (sstatus h) SSTATUS_SIE) h.
Definition intr_off (h : hart) : hart := set_sstatus (Z.land (sstatus h) (u64 (Z.lnot SSTATUS_SIE))) h.
Definition intr_get (h : hart) : bool := negb (Z.land (sstatus h) SSTATUS_SIE =? 0).

(** The kernel, the hart, the writes to device registers, and what has been
    printed. *)
Record tst := mk_tst { tk : kst; th : hart; plic : list (Z * Z); tout : list Z }.
Definition on_k {A} (c : M kst A) : M tst A := lift tk (fun s k => mk_tst k (th s) (plic s) (tout s)) c.
Definition upd_hart (f : hart → hart) : M tst unit := modify (fun s => mk_tst (tk s) (f (th s)) (plic s) (tout s)).
Definition the_hart : M tst hart := gets th.
Definition print (l : list Z) : M tst unit := modify (fun s => mk_tst (tk s) (th s) (plic s) (tout s ++ l)).
Definition write32 (a v : Z) : M tst unit := modify (fun s => mk_tst (tk s) (th s) (plic s ++ [(a, v)]) (tout s)).

(** ** The interrupt controller *)

Definition plicinit : M tst unit :=
  do! write32 (PLIC + UART0_IRQ * 4) 1; write32 (PLIC + VIRTIO0_IRQ * 4) 1.
Definition plicinithart : M tst unit :=
  do h <- the_hart;
  do! write32 (PLIC_SENABLE (tp h)) (Z.lor (Z.shiftl 1 UART0_IRQ) (Z.shiftl 1 VIRTIO0_IRQ));
  write32 (PLIC_SPRIORITY (tp h)) 0.
(** [claim] is what the register PLIC_SCLAIM of the hart reads. *)
Definition plic_claim (claim : Z) : M tst Z := ret (i32 claim).
Definition plic_complete (irq : Z) : M tst unit := do h <- the_hart; write32 (PLIC_SCLAIM (tp h)) irq.

(** What the devices do during an interrupt. *)
Record devices := mk_devices { claim : Z; rx : list Z; tx_idle : nat }.

Section trap.
Context {KI : KernelImage} {Dev : Devices} {KT : KernelText}.

(** Completion of disk requests; the kernel state has them completed. *)
Context (disk_intr : M kst unit).

Definition trapinithart : M tst unit := upd_hart (set_stvec kernelvec_addr).

Definition clockintr : M kst unit :=
  do t <- gets ticks; do! modify (set_ticks (u32 (t + 1))); wakeup CTicks.

Definition devintr (d : devices) : M tst Z :=
  do h <- the_hart;
  if Z.testbit (scause h) 63 && (Z.land (scause h) 0xff =? 9) then
    do irq <- plic_claim (claim d);
    do! (if irq =? UART0_IRQ then
           on_k (do k <- get; on_console (uartintr (procdump k) (rx d) (tx_idle d)))
         else if irq =? VIRTIO0_IRQ then on_k disk_intr
         else if negb (irq =? 0) then print (bytes "unexpected interrupt irq=" ++ Kernel.printint irq 10 true ++ [10])
         else ret tt);
    do! (if negb (irq =? 0) then plic_complete irq else ret tt);
    ret 1
  else if scause h =? 0x8000000000000001 then
    do! (if tp h =? 0 then on_k clockintr else ret tt);
    do! upd_hart (fun h => set_sip (Z.land (sip h) (u64 (Z.lnot 2))) h);
    ret 2
  else ret 0.

(** ** System calls *)

Definition syscalls (pad num : Z) : option (M kst sysend) :=
  match num with
  | 1 => Some (returns sys_fork) | 2 => Some sys_exit | 3 => Some sys_wait | 4 => Some (returns sys_pipe)
  | 5 => Some (returns sys_read) | 6 => Some (returns sys_kill) | 7 => Some (returns sys_exec)
  | 8 => Some (returns (sys_fstat pad)) | 9 => Some (returns sys_chdir) | 10 => Some (returns sys_dup)
  | 11 => Some (returns sys_getpid) | 12 => Some (returns sys_sbrk) | 13 => Some sys_sleep
  | 14 => Some (returns sys_uptime) | 15 => Some (returns sys_open) | 16 => Some (returns sys_write)
  | 17 => Some (returns sys_mknod) | 18 => Some (returns sys_unlink) | 19 => Some (returns sys_link)
  | 20 => Some (returns sys_mkdir) | 21 => Some (returns sys_close)
  | _ => None
  end.

Definition unknown_call (p : proc) (num : Z) : list Z :=
  Kernel.printint (p_pid p) 10 true ++ [32] ++ cstrn (Z.to_nat sizeof_name) (bytes_mem (p_name p)) 0
  ++ bytes ": unknown sys call " ++ Kernel.printint num 10 true ++ [10].

(** p->trapframe->a0 = ...; [p->trapframe] stays the same during a call. *)
Definition syscall (pad : Z) : M tst sysend :=
  do p <- on_k myproc;
  do a7 <- on_k (tf_get (p_trapframe p) tf_a7);
  let num := i32 a7 in
  match (if 0 <? num then syscalls pad num else None) with
  | Some f =>
      do e <- on_k f;
      match e with
      | Done v => do! on_k (tf_set (p_trapframe p) tf_a0 v); ret e
      | _ => ret e
      end
  | None =>
      do! print (unknown_call p num);
      do! on_k (tf_set (p_trapframe p) tf_a0 (u64 (-1)));
      ret (Done (u64 (-1)))
  end.

(** ** Traps from user space *)

(** How a trap ends: in user space with a page table, in the scheduler to be
    resumed or to sleep, or in exit(). *)
Inductive trap_end := ToUser (satp : Z) | Yields | Blocked | Exited.

Definition usertrapret : M tst trap_end :=
  do p <- on_k myproc;
  do! upd_hart intr_off;
  do! upd_hart (set_stvec (TRAMPOLINE + (uservec_addr - trampoline)));
  do h <- the_hart;
  do! on_k (tf_set (p_trapframe p) tf_kernel_satp (satp h));
  do! on_k (tf_set (p_trapframe p) tf_kernel_sp (u64 (p_kstack p + PGSIZE)));
  do! on_k (tf_set (p_trapframe p) tf_kernel_trap usertrap_addr);
  do! on_k (tf_set (p_trapframe p) tf_kernel_hartid (tp h));
  do! upd_hart (fun h => set_sstatus (Z.lor (Z.land (sstatus h) (u64 (Z.lnot SSTATUS_SPP))) SSTATUS_SPIE) h);
  do epc <- on_k (tf_get (p_trapframe p) tf_epc);
  do! upd_hart (set_sepc epc);
  ret (ToUser (MAKE_SATP (p_pagetable p))).

(** From the second test of killed(p) on. *)
Definition usertrap_end (which_dev : Z) : M tst trap_end :=
  do p <- on_k myproc;
  if p_killed p then do! on_k (exit (-1)); ret Exited
  else if which_dev =? 2 then do! on_k yield; ret Yields
  else usertrapret.

Definition unexpected (h : hart) (p : proc) : list Z :=
  bytes "usertrap(): unexpected scause " ++ Kernel.printptr (scause h) ++ bytes " pid=" ++
  Kernel.printint (p_pid p) 10 true ++ [10] ++
  bytes "            sepc=" ++ Kernel.printptr (sepc h) ++ bytes " stval=" ++ Kernel.printptr (stval h) ++ [10].

Definition usertrap (d : devices) (pad : Z) : M tst trap_end :=
  do h <- the_hart;
  if negb (Z.land (sstatus h) SSTATUS_SPP =? 0) then panic "usertrap: not from user mode"
  else
    do! upd_hart (set_stvec kernelvec_addr);
    do p <- on_k myproc;
    do! on_k (tf_set (p_trapframe p) tf_epc (sepc h));
    if scause h =? 8 then
      if p_killed p then do! on_k (exit (-1)); ret Exited
      else
        do! on_k (tf_set (p_trapframe p) tf_epc (u64 (sepc h + 4)));
        do! upd_hart intr_on;
        do e <- syscall pad;
        match e with Done _ => usertrap_end 0 | Blocks => ret Blocked | Exits => ret Exited end
    else
      do which_dev <- devintr d;
      do! (if negb (which_dev =? 0) then ret tt
           else
             do q <- on_k me;
             do! print (unexpected h p);
             on_k (setkilled q));
      usertrap_end which_dev.

(** ** Traps from the kernel *)

(** [clobber] is what other traps have done to the registers of the hart while
    the process was not running; a yield leaves them so. *)
Definition kerneltrap (clobber : hart → hart) (d : devices) : M tst unit :=
  do h <- the_hart;
  if Z.land (sstatus h) SSTATUS_SPP =? 0 then panic "kerneltrap: not from supervisor mode"
  else if intr_get h then panic "kerneltrap: interrupts enabled"
  else
    do which_dev <- devintr d;
    if which_dev =? 0 then panic "kerneltrap"
    else
      do p <- on_k myproc;
      do! (if (which_dev =? 2) && bool_decide (p_state p = RUNNING)
           then do! on_k yield; upd_hart clobber else ret tt);
      do! upd_hart (set_sepc (sepc h));
      upd_hart (set_sstatus (sstatus h)).

End trap.

(** ** Theorems *)

Section theorems.
Context {KI : KernelImage} {Dev : Devices} {KT : KernelText} (disk_intr : M kst unit).

(** What the hart is set up with when it enters user space. *)
Definition user_mode (s : tst) (root : Z) : Prop :=
  let p := procs (tk s) (cur (tk s)) in
  root = MAKE_SATP (p_pagetable p) ∧
  stvec (th s) = TRAMPOLINE + (uservec_addr - trampoline) ∧
  sepc (th s) = ld64 (memory (kmm (tk s))) (p_trapframe p + tf_epc) ∧
  Z.testbit (sstatus (th s)) 8 = false ∧ Z.testbit (sstatus (th s)) 5 = true ∧ Z.testbit (sstatus (th s)) 1 = false.

Lemma wp_tf_set tf o v (Q : unit → tst → Prop) s :
  (∀ m, Q tt (mk_tst (set_kmm m (tk s)) (th s) (plic s) (tout s))) → wp (on_k (tf_set tf o v)) Q s.
Proof. intros HQ. apply wp_lift, wp_lift, wp_modify. apply HQ. Qed.
Lemma wp_tf_get tf o (Q : Z → tst → Prop) s :
  Q (ld64 (memory (kmm (tk s))) (tf + o)) s → wp (on_k (tf_get tf o)) Q s.
Proof. intros HQ. apply wp_lift, wp_lift, wp_gets. by destruct s as [[] ? ? ?]. Qed.
Lemma wp_myproc (Q : proc → tst → Prop) s : Q (procs (tk s) (cur (tk s))) s → wp (on_k myproc) Q s.
Proof. intros HQ. apply wp_lift, wp_gets. by destruct s. Qed.

Lemma usertrapret_wp s :
  wp usertrapret (fun r s' => (∃ root, r = ToUser root ∧ user_mode s' root) ∧
    procs (tk s') = procs (tk s) ∧ cur (tk s') = cur (tk s)) s.
Proof.
  unfold usertrapret. apply wp_bind, wp_myproc. apply wp_bind, wp_modify. apply wp_bind, wp_modify.
  apply wp_bind, wp_gets. do 4 (apply wp_bind, wp_tf_set; intros ?). apply wp_bind, wp_modify.
  apply wp_bind, wp_tf_get. apply wp_bind, wp_modify. apply wp_ret. split; [|split; reflexivity].
  eexists. split; [reflexivity|]. unfold user_mode.
  cbn [tk th procs cur set_kmm kmm sstatus stvec sepc set_stvec set_sepc set_sstatus intr_off].
  split; [reflexivity|]. split; [reflexivity|]. split; [reflexivity|].
  rewrite !Z.lor_spec, !Z.land_spec. split; [|split].
  - replace (Z.testbit (u64 (Z.lnot SSTATUS_SPP)) 8) with false by reflexivity.
    replace (Z.testbit SSTATUS_SPIE 8) with false by reflexivity. by rewrite andb_false_r.
  - replace (Z.testbit SSTATUS_SPIE 5) with true by reflexivity. apply orb_true_r.
  - replace (Z.testbit (u64 (Z.lnot SSTATUS_SIE)) 1) with false by reflexivity.
    replace (Z.testbit SSTATUS_SPIE 1) with false by reflexivity. by rewrite andb_false_r.
Qed.

Lemma usertrap_end_wp s :
  p_killed (procs (tk s) (cur (tk s))) = false → wp (usertrap_end 1) (fun r _ => ∃ root, r = ToUser root) s.
Proof.
  intros Hk. unfold usertrap_end. apply wp_bind, wp_myproc. rewrite Hk. change (1 =? 2) with false. cbv iota.
  eapply wp_mono; [apply usertrapret_wp|]. intros r s' [(root & -> & _) _]. by exists root.
Qed.

(** Only usertrap's end goes to user space. *)
Lemma usertrap_end_user dev s root s' :
  usertrap_end dev s = Ok (ToUser root, s') →
  user_mode s' root ∧ p_killed (procs (tk s') (cur (tk s'))) = false.
Proof.
  unfold usertrap_end. intros E. apply bind_ok_inv in E as (p & s1 & Ep & E).
  assert (p = procs (tk s) (cur (tk s)) ∧ s1 = s) as [-> ->].
  { pose proof (wp_myproc (fun p s1 => p = procs (tk s) (cur (tk s)) ∧ s1 = s) s (conj eq_refl eq_refl)) as Hw.
    by apply (wp_elim _ _ _ _ _ Hw Ep). }
  destruct (p_killed _) eqn:Hk.
  { apply bind_ok_inv in E as (? & ? & _ & E). done. }
  destruct (dev =? 2); [apply bind_ok_inv in E as (? & ? & _ & E); done|].
  pose proof (wp_elim _ _ _ _ _ (usertrapret_wp s) E) as ((root' & [= <-] & Hu) & H1 & H2).
  split; [done|]. by rewrite H1, H2.
Qed.


Lemma syscalls_none pad num : num ≤ 0 ∨ 21 < num → (if 0 <? num then syscalls pad num else None) = None.
Proof.
  intros Hn. destruct (Z.ltb_spec 0 num) as [H|]; [|done]. destruct num as [|q|q]; try lia.
  do 5 (destruct q as [q|q|]; try reflexivity; try lia).
Qed.

(** A system call number that names no call does nothing but report it on
    the console and return -1. *)
Theorem syscall_unknown pad s :
  let p := procs (tk s) (cur (tk s)) in
  let num := i32 (ld64 (memory (kmm (tk s))) (p_trapframe p + tf_a7)) in
  num ≤ 0 ∨ 21 < num →
  ∃ m, syscall pad s = Ok (Done (2 ^ 64 - 1), mk_tst (set_kmm m (tk s)) (th s) (plic s) (tout s ++ unknown_call p num)) ∧
    freelist m = freelist (kmm (tk s)) ∧
    memory m = st64 (memory (kmm (tk s))) (p_trapframe p + tf_a0) (2 ^ 64 - 1).
Proof.
  intros p num Hn.
  assert (Hw : wp (syscall pad) (fun e s' => e = Done (2 ^ 64 - 1) ∧
    ∃ m, s' = mk_tst (set_kmm m (tk s)) (th s) (plic s) (tout s ++ unknown_call p num) ∧
      freelist m = freelist (kmm (tk s)) ∧
      memory m = st64 (memory (kmm (tk s))) (p_trapframe p + tf_a0) (2 ^ 64 - 1)) s).
  { unfold syscall. apply wp_bind, wp_myproc, wp_bind, wp_tf_get. fold p. fold num. cbv zeta.
    rewrite syscalls_none by done. apply wp_bind, wp_modify, wp_bind, wp_lift, wp_lift, wp_modify.
    apply wp_ret. split; [reflexivity|]. eexists. split; [reflexivity|]. split; reflexivity. }
  apply wp_ok in Hw as (e & s' & E & -> & m & -> & Hm). by exists m.
Qed.

(** An interrupt taken in the kernel leaves the program counter and the status
    to return to as they were, whatever happened in between. *)
Lemma kerneltrap_restores clobber d s s' :
  kerneltrap disk_intr clobber d s = Ok (tt, s') → sepc (th s') = sepc (th s) ∧ sstatus (th s') = sstatus (th s).
Proof.
  unfold kerneltrap. intros E. apply bind_ok_inv in E as (h & s1 & Eh & E). injection Eh as <- <-.
  case_match; [done|]. case_match; [done|]. apply bind_ok_inv in E as (w & s2 & _ & E). case_match; [done|].
  apply bind_ok_inv in E as (p & s3 & _ & E). apply bind_ok_inv in E as (? & s4 & _ & E).
  apply bind_ok_inv in E as (? & s5 & E5 & E). injection E5 as _ <-. injection E as <-. done.
Qed.

End theorems.

(** A trap with nothing claimed from the PLIC goes straight back. *)
Definition sample_tst (cause : Z) : tst := mk_tst sample_kst (mk_hart 0 64 cause 0 0 0 0 0) [] [].


Lemma syscall_unknown_witness :
  ∃ m, @syscall sample_image sample_devices sample_text 0 (sample_tst 8)
         = Ok (Done (2 ^ 64 - 1), mk_tst (set_kmm m sample_kst) (mk_hart 0 64 8 0 0 0 0 0) [] (unknown_call sample_init 0)) ∧
    freelist m = 0 ∧ memory m = st64 (fun _ => 0) (KERNBASE + 0x100000 + tf_a0) (2 ^ 64 - 1).
Proof.
  apply (@syscall_unknown sample_image sample_devices sample_text 0 (sample_tst 8)). left. vm_compute. done.
Defined.
