(* ===== verification/TrapPath.v ===== *)
(** * An interrupt of a user program, from the first instruction to the last

    The path of a device interrupt that arrives in user space: the hardware's
    trap, uservec (kernel/trampoline.S), usertrap() and devintr()
    (kernel/trap.c), usertrapret(), userret and sret.  The theorem says that
    the program does not notice it. *)

From stdpp Require Import functions.
From S2P Require Import Prelude Mem Riscv Kalloc Vm PageTable VmMap VmCopy VmSpace VmGrow VmFree VmKernel Machine Asm Paging Trampoline Bio Log Fs Pipe Uart Console Kstate File Proc ProcMem Isolation Fork Syscall Sysfile Exec Trap.

(** ** The console's part *)

(** Computations that do not touch the kernel's memory. *)
Definition keeps_cmem {A} (c : M cstate A) : Prop := ∀ s a s', c s = Ok (a, s') → cmem s' = cmem s.

Lemma keeps_bind {A B} (c : M cstate A) (k : A → M cstate B) : keeps_cmem c → (∀ a, keeps_cmem (k a)) → keeps_cmem (bind c k).
Proof. intros Hc Hk s b s' E. apply bind_ok_inv in E as (a & s1 & E1 & E2). by rewrite (Hk _ _ _ _ E2), (Hc _ _ _ E1). Qed.
Lemma keeps_ret {A} (a : A) : keeps_cmem (ret a).
Proof. by intros s b s' [= <- <-]. Qed.
Lemma keeps_gets {A} (f : cstate → A) : keeps_cmem (gets f).
Proof. by intros s b s' [= <- <-]. Qed.
Lemma keeps_fuel {A} : keeps_cmem (A := A) out_of_fuel.
Proof. by intros s b s'. Qed.
Lemma keeps_upd f : keeps_cmem (upd_cons f).
Proof. by intros s b s' [= <- <-]. Qed.
Lemma keeps_readers (f : cstate → Z → bool) : keeps_cmem (modify (fun t => mk_cstate (con t) (cuart t) (cmem t) (f t))).
Proof. by intros s b s' [= <- <-]. Qed.
Lemma keeps_uart {A} (c : M uart A) : keeps_cmem (on_uart c).
Proof. intros s b s'. unfold on_uart, lift. destruct (c (cuart s)) as [[a u]| | |]; [|done..]. by intros [= <- <-]. Qed.
Create HintDb cmem.
#[local] Hint Resolve keeps_bind keeps_ret keeps_gets keeps_fuel keeps_upd keeps_readers keeps_uart : cmem.

Ltac keeps := repeat first [solve [auto with cmem] | apply keeps_bind; [|intros ?] | progress cbv zeta | case_match].

Lemma keeps_consputc c : keeps_cmem (consputc c).
Proof. unfold consputc. keeps. Qed.
#[local] Hint Resolve keeps_consputc : cmem.
Lemma keeps_consputs l : keeps_cmem (consputs l).
Proof. induction l; cbn [consputs]; keeps. Qed.
Lemma keeps_kill_line fuel : keeps_cmem (kill_line fuel).
Proof. induction fuel; cbn [kill_line]; keeps. Qed.
#[local] Hint Resolve keeps_consputs keeps_kill_line : cmem.
Lemma keeps_consoleintr dump c : keeps_cmem (consoleintr dump c).
Proof. unfold consoleintr. keeps. Qed.

Lemma uartstart_total idle u : ∃ u', uartstart idle u = Ok (tt, u').
Proof.
  revert u; induction idle as [|k IH]; intros u; cbn [uartstart]; unfold bind, get; case_match; try by eexists. apply IH.
Qed.

Lemma uartintr_wp dump rx idle s :
  cons_ok (con s) → Forall (fun c => 0 ≤ c < 256) rx → wp (uartintr dump rx idle) (fun _ s' => cmem s' = cmem s) s.
Proof.
  intros Hok Hrx. unfold uartintr. apply wp_bind. apply (wp_mono _ (fun _ s' => cmem s' = cmem s)).
  - revert s Hok. induction Hrx as [|c rx Hc Hrx IH]; intros s Hok; cbn [uartintr_loop]; [by apply wp_ret|].
    apply wp_bind. pose proof (consoleintr_spec dump c s Hok Hc) as Hw. apply wp_ok in Hw as ([] & s1 & E & Hok1 & _).
    apply wp_ok. exists tt, s1. split; [done|]. eapply wp_mono; [by apply IH|]. cbv beta. intros _ s2 ->. by apply (keeps_consoleintr dump c s tt).
  - intros _ s1 E1. apply wp_lift. destruct (uartstart_total idle (cuart s1)) as [u' E]. apply wp_ok. by exists tt, u'.
Qed.

(** ** The kernel's part *)

Section path.
Context {KI : KernelImage} {Dev : Devices} {KT : KernelText} (disk_intr : M kst unit).

(** What the handling of a device's interrupt leaves alone: the memory, and
    of the processes what the return to user space uses. *)
Record quiet (k k' : kst) : Prop := {
  qu_kmm : kmm k' = kmm k;
  qu_cur : cur k' = cur k;
  qu_proc q : let p := procs k q in let p' := procs k' q in
    p_trapframe p' = p_trapframe p ∧ p_pagetable p' = p_pagetable p ∧ p_killed p' = p_killed p ∧ p_kstack p' = p_kstack p }.

Lemma quiet_refl k : quiet k k.
Proof. by split. Qed.

Lemma asleep_quiet c a ps q :
  p_trapframe (set_asleep c a ps q) = p_trapframe (ps q) ∧ p_pagetable (set_asleep c a ps q) = p_pagetable (ps q) ∧
  p_killed (set_asleep c a ps q) = p_killed (ps q) ∧ p_kstack (set_asleep c a ps q) = p_kstack (ps q).
Proof. unfold set_asleep. cbv zeta. repeat case_match; done. Qed.

Lemma on_console_quiet {A} (c : M cstate A) k :
  (∀ s, con s = kcons k → cmem s = kmm k → wp c (fun _ s' => cmem s' = cmem s) s) → wp (on_console c) (fun _ k' => quiet k k') k.
Proof.
  intros Hc. unfold wp, on_console. set (s := mk_cstate _ _ _ _). pose proof (Hc s eq_refl eq_refl) as Hw.
  apply wp_ok in Hw as (a & s' & E & Hm). rewrite E. split; [done|done|]. intros q. cbn [procs].
  destruct (asleep_quiet CCons (readers s') (set_asleep CUart (waiting (cuart s')) (procs k)) q) as (-> & -> & -> & ->).
  apply asleep_quiet.
Qed.

(** The device has raised an external interrupt. *)
Definition device_cause (cause : Z) : Prop := Z.testbit cause 63 = true ∧ Z.land cause 0xff = 9.

Definition disk_ok : Prop := ∀ k, wp disk_intr (fun _ k' => quiet k k') k.

Lemma devintr_wp d s :
  device_cause (scause (th s)) → cons_ok (kcons (tk s)) → Forall (fun c => 0 ≤ c < 256) (rx d) → disk_ok →
  wp (devintr disk_intr d) (fun r s' => r = 1 ∧ quiet (tk s) (tk s') ∧ th s' = th s) s.
Proof.
  intros [Hc1 Hc2] Hcons Hrx Hd. unfold devintr. apply wp_bind, wp_gets. rewrite Hc1, Hc2. change (9 =? 9) with true. cbn [andb].
  apply wp_bind, wp_ret. apply wp_bind.
  apply (wp_mono _ (fun _ s' => quiet (tk s) (tk s') ∧ th s' = th s)).
  - case_match; [|case_match; [|case_match]].
    + apply wp_lift, wp_bind, wp_get. eapply wp_mono; [apply on_console_quiet|done].
      intros c E _. apply uartintr_wp; [by rewrite E|done].
    + apply wp_lift. eapply wp_mono; [apply Hd|done].
    + apply wp_modify. split; [apply quiet_refl|done].
    + apply wp_ret. split; [apply quiet_refl|done].
  - intros _ s1 [H1 H2]. apply wp_bind. apply (wp_mono _ (fun _ s' => tk s' = tk s1 ∧ th s' = th s1)).
    + case_match; [apply wp_bind, wp_gets, wp_modify; done|by apply wp_ret].
    + intros _ s2 [E1 E2]. apply wp_ret. rewrite E1, E2. done.
Qed.

Definition set_mem (m : mem) (s : tst) : tst := mk_tst (set_kmm (set_memory m (kmm (tk s))) (tk s)) (th s) (plic s) (tout s).
Definition mem_of (s : tst) : mem := memory (kmm (tk s)).

Lemma wp_tf_store tf o v (Q : unit → tst → Prop) s :
  Q tt (set_mem (st64 (mem_of s) (tf + o) v) s) → wp (on_k (tf_set tf o v)) Q s.
Proof. intros HQ. apply wp_lift, wp_lift, wp_modify. exact HQ. Qed.

(** The state [s'] in which the kernel leaves for user space, when [tf] is
    the trap frame and [epc] the program counter in it. *)
Record leaving (tf epc : Z) (s s' : tst) : Prop := {
  lv_mem : same_outside (bytes_of tf 40) (mem_of s) (mem_of s');
  lv_free : freelist (kmm (tk s')) = freelist (kmm (tk s));
  lv_words : ld64 (mem_of s') tf = u64 (satp (th s)) ∧ ld64 (mem_of s') (tf + tf_kernel_trap) = u64 usertrap_addr ∧
    ld64 (mem_of s') (tf + tf_kernel_sp) = u64 (p_kstack (procs (tk s) (cur (tk s))) + PGSIZE) ∧
    ld64 (mem_of s') (tf + tf_kernel_hartid) = u64 (tp (th s));
  lv_sepc : sepc (th s') = u64 epc;
  lv_satp : satp (th s') = satp (th s);
  lv_stvec : stvec (th s') = TRAMPOLINE + (uservec_addr - trampoline);
  lv_status : Z.testbit (sstatus (th s')) 8 = false ∧ Z.testbit (sstatus (th s')) 5 = true }.

Lemma ret_status v :
  let st := Z.lor (Z.land v (u64 (Z.lnot SSTATUS_SPP))) SSTATUS_SPIE in Z.testbit st 8 = false ∧ Z.testbit st 5 = true.
Proof.
  cbv zeta. rewrite !Z.lor_spec, !Z.land_spec. change (Z.testbit (u64 (Z.lnot SSTATUS_SPP)) 8) with false.
  change (Z.testbit SSTATUS_SPIE 8) with false. change (Z.testbit SSTATUS_SPIE 5) with true. by rewrite andb_false_r, orb_true_r.
Qed.

Lemma usertrapret_mem s epc :
  let p := procs (tk s) (cur (tk s)) in let tf := p_trapframe p in
  ld64 (mem_of s) (tf + tf_epc) = u64 epc →
  wp usertrapret (fun r s' => r = ToUser (MAKE_SATP (p_pagetable p)) ∧ leaving tf epc s s') s.
Proof.
  intros p tf Hepc. unfold usertrapret. apply wp_bind, wp_myproc. fold p. fold tf. apply wp_bind, wp_modify. apply wp_bind, wp_modify.
  apply wp_bind, wp_gets. apply wp_bind, wp_tf_store. apply wp_bind, wp_tf_store. apply wp_bind, wp_tf_store. apply wp_bind, wp_tf_store.
  apply wp_bind, wp_modify. apply wp_bind, wp_tf_get. apply wp_bind, wp_modify. apply wp_ret. split; [done|].
  unfold mem_of in Hepc.
  split; cbn [mem_of set_mem tk th kmm set_kmm memory set_memory freelist set_sepc set_sstatus set_stvec intr_off sstatus sepc stvec satp Trap.tp].
  - intros b Hb. unfold bytes_of in Hb. unfold st64, tf_kernel_satp, tf_kernel_sp, tf_kernel_trap, tf_kernel_hartid.
    by rewrite !ld8_stn_out by lia.
  - done.
  - unfold tf_kernel_satp, tf_kernel_sp, tf_kernel_trap, tf_kernel_hartid. rewrite Z.add_0_r.
    rewrite !(ld64_st64_ne _ _ tf) by lia. rewrite !(ld64_st64_ne _ _ (tf + 16)) by lia. rewrite !(ld64_st64_ne _ _ (tf + 8)) by lia.
    by rewrite !ld64_st64_eq, (u64_small (u64 _)) by apply u64_range.
  - unfold tf_kernel_satp, tf_kernel_sp, tf_kernel_trap, tf_kernel_hartid, tf_epc in *. by rewrite !ld64_st64_ne by lia.
  - done.
  - done.
  - apply ret_status.
Qed.

Lemma usertrap_device d pad s :
  let p := procs (tk s) (cur (tk s)) in let tf := p_trapframe p in
  Z.testbit (sstatus (th s)) 8 = false → device_cause (scause (th s)) → p_killed p = false →
  cons_ok (kcons (tk s)) → Forall (fun c => 0 ≤ c < 256) (rx d) → disk_ok →
  wp (usertrap disk_intr d pad) (fun r s' => r = ToUser (MAKE_SATP (p_pagetable p)) ∧ leaving tf (sepc (th s)) s s') s.
Proof.
  intros p tf Hspp Hc Hk Hcons Hrx Hd. unfold usertrap. apply wp_bind, wp_gets.
  assert (Z.land (sstatus (th s)) SSTATUS_SPP = 0) as ->.
  { apply Z.bits_inj'. intros i Hi. rewrite Z.land_spec, Z.bits_0. destruct (decide (i = 8)) as [->|Hne]; [by rewrite Hspp|].
    replace (Z.testbit SSTATUS_SPP i) with false; [apply andb_false_r|]. symmetry.
    change SSTATUS_SPP with (2 ^ 8). apply Z.pow2_bits_false. done. }
  change (0 =? 0) with true. cbn [negb]. apply wp_bind, wp_modify. apply wp_bind, wp_myproc. cbn [tk]. fold p. fold tf. apply wp_bind, wp_tf_store.
  rewrite (proj2 (Z.eqb_neq _ _)) by (intros E; destruct Hc as [Hc _]; by rewrite E in Hc).
  set (s1 := set_mem _ _). apply wp_bind. eapply wp_mono; [by apply (devintr_wp d s1)|]. cbv beta.
  intros r s2 (-> & [Q1 Q2 Q3] & Hth). change (1 =? 0) with false. cbn [negb]. apply wp_bind, wp_ret.
  unfold usertrap_end. apply wp_bind, wp_myproc.
  assert (Ep : ∀ q, p_trapframe (procs (tk s2) q) = p_trapframe (procs (tk s) q) ∧ p_pagetable (procs (tk s2) q) = p_pagetable (procs (tk s) q) ∧
    p_killed (procs (tk s2) q) = p_killed (procs (tk s) q) ∧ p_kstack (procs (tk s2) q) = p_kstack (procs (tk s) q)) by (intros q; apply Q3).
  assert (Ec : cur (tk s2) = cur (tk s)) by exact Q2. rewrite Ec. destruct (Ep (cur (tk s))) as (E1 & E2 & E3 & E4). rewrite E3.
  fold p. rewrite Hk. change (1 =? 2) with false. cbv iota.
  assert (Hm2 : mem_of s2 = st64 (mem_of s) (tf + tf_epc) (sepc (th s))) by (unfold mem_of; by rewrite Q1).
  pose proof (usertrapret_mem s2 (sepc (th s))) as Hw. cbv zeta in Hw. rewrite Ec, E1, E2 in Hw. fold p in Hw. fold tf in Hw.
  eapply wp_mono; [apply Hw; rewrite Hm2; apply ld64_st64_eq|]. cbv beta.
  intros r s3 (-> & [L1 L2 L3 L4 L5 L6 L7]). split; [done|]. rewrite Hth, Ec, E4 in L3. rewrite Hth in L5. split; [| |exact L3|exact L4|exact L5|exact L6|exact L7].
  - eapply same_outside_trans; [|exact L1]. rewrite Hm2. intros b Hb. apply ld8_stn_out. unfold bytes_of, tf_epc in *. lia.
  - rewrite L2, Q1. done.
Qed.

(** ** The whole path *)

(** The registers of the hart that the C code uses. *)
Definition hart_of (h : mach) : hart :=
  mk_hart (csr_value Csr.sstatus h) (csrs h Csr.sepc) (csrs h Csr.scause) (csrs h Csr.stval) (csrs h Csr.stvec)
    (csr_value Csr.sip h) (csrs h Csr.satp) (gpr h Reg.tp).

(** The hart [u] runs the program of the current process of [k]; the kernel's
    page table is at [kroot]. *)
Record user_running (u : mach) (k : kst) (kroot : Z) (free kfree : list Z) : Prop := {
  ur_mode : mode u = User;
  ur_regs : regs_ok (gpr u) ∧ 0 ≤ pc u < 2 ^ 64;
  ur_ram : ram u = memory (kmm k);
  ur_mem : let p := procs k (cur k) in pmem (kmm k) (p_pagetable p) (p_trapframe p) (p_sz p) free;
  ur_satp : csrs u Csr.satp = MAKE_SATP (p_pagetable (procs k (cur k)));
  ur_kernel : tramp_map (memory (kmm k)) kroot kfree (p_trapframe (procs k (cur k)));
  ur_word : ld64 (ram u) (p_trapframe (procs k (cur k))) = MAKE_SATP kroot;
  ur_alive : p_killed (procs k (cur k)) = false }.

(** What a program can see of the machine is the same in [u] and [u']. *)
Record unnoticed (u u' : mach) : Prop := {
  un_mode : mode u' = mode u;
  un_pc : pc u' = pc u;
  un_gpr r : gpr u' r = gpr u r;
  un_satp : csrs u' Csr.satp = csrs u Csr.satp;
  un_memory acc va pa : 0 ≤ va < MAXVA → translate u acc va = Some pa →
    translate u' acc va = Some pa ∧ ld8 (ram u') pa = ld8 (ram u) pa;
  un_faults acc va : 0 ≤ va < MAXVA → translate u acc va = None → translate u' acc va = None }.

Lemma entry_not_user pa perm : phys_page pa → perm = RW ∨ perm = RX → has (user_entry pa perm) PTE_U = false.
Proof.
  intros (H1 & H2 & H3) Hp. rewrite (flags_has _ (Z.lor perm PTE_V) PTE_U); [by destruct Hp as [-> | ->]|done|].
  unfold user_entry. rewrite <- Z.lor_assoc. apply PTE_FLAGS_pte; [lia|done|]. by destruct Hp as [-> | ->].
Qed.

(** What a program can access is its own memory, not the trap frame. *)
Lemma user_access u s pt tf sz free acc va pa :
  mode u = User → csrs u Csr.satp = MAKE_SATP pt → ram u = memory s → pmem s pt tf sz free → 0 ≤ va < MAXVA →
  translate u acc va = Some pa → ¬ bytes_of tf PGSIZE pa.
Proof.
  intros Hm Hs Hr P Hva Ht. pose proof (pm_space _ _ _ _ _ P) as V. destruct (root_bounds _ _ _ (vs_pt _ _ _ _ V)) as [Hr1 Hr2].
  rewrite (translate_pte u pt) in Ht; [|split; [by rewrite Hm|split; [done|by split]]|rewrite Hr; apply V|lia]. cbv zeta in Ht.
  rewrite Hr, Hm in Ht. set (i := va / PGSIZE). assert (Hi : 0 ≤ i ∧ i * PGSIZE < MAXVA) by (unfold i, PGSIZE; zdm).
  rewrite (pte_at_page (memory s) pt va (i * PGSIZE)) in Ht by (unfold i, PGSIZE in *; zdm). change (pte_at _ _ _) with (upte s pt i) in Ht.
  destruct (leaf (upte s pt i) && permits acc User _ (upte s pt i)) eqn:E; [|done]. injection Ht as <-.
  apply andb_prop in E as [El Ep]. assert (HU : has (upte s pt i) PTE_U = true) by (unfold permits in Ep; by apply andb_prop in Ep as [_ ?]).
  assert (HV : has (upte s pt i) PTE_V = true) by (unfold leaf in El; by destruct (has _ PTE_V)).
  destruct (decide (0 ≤ i < npages sz ∨ i = TRP ∨ i = TFP)) as [[Hb|[Hx|Hx]]|Hn].
  - destruct (vs_page _ _ _ _ V i Hb) as [Hpg _]. destruct (pm_own _ _ _ _ _ P) as (_ & _ & Ho).
    destruct (page_ok_disjoint tf (upage s pt i) (pm_tf _ _ _ _ _ P) Hpg (Ho i Hb)); unfold bytes_of, upage, PGSIZE in *; zdm.
  - rewrite Hx, (pm_tramp _ _ _ _ _ P), entry_not_user in HU; [done|apply tramp_phys|by right].
  - rewrite Hx, (pm_tfp _ _ _ _ _ P), entry_not_user in HU; [done| |by left].
    destruct (page_ok_bounds tf (pm_tf _ _ _ _ _ P)) as (? & ? & ?). by split.
  - rewrite (pm_none _ _ _ _ _ P i) in HV; [done|lia|pose proof (MAXVA_SV39 (i * PGSIZE)); lia|done].
Qed.

(** The user tables of the process, for the trampoline. *)
Lemma pmem_tramp s pt tf sz free :
  pmem s pt tf sz free → tramp_map (memory s) pt free tf ∧ pte_at (memory s) pt TRAPFRAME = user_entry tf RW ∧ page_ok tf.
Proof.
  intros [_ V H1 H2 _ H3 (_ & H4 & _)]. split; [|split; [exact H2|exact H3]]. split; [apply V|apply V|exact H1|exact H4].
Qed.

(** Changes in the trap frame. *)
Lemma unnoticed_frame u u' s pt tf sz free :
  mode u = User → csrs u Csr.satp = MAKE_SATP pt → ram u = memory s → pmem s pt tf sz free →
  mode u' = User → csrs u' Csr.satp = MAKE_SATP pt → pc u' = pc u → (∀ r, gpr u' r = gpr u r) →
  same_outside (bytes_of tf tf_size) (ram u) (ram u') → unnoticed u u'.
Proof.
  intros Hm Hs Hr P Hm' Hs' Hpc Hg Hd. destruct (pmem_tramp _ _ _ _ _ P) as (T & _ & Htf). rewrite <- Hr in T.
  assert (Hd' : same_outside (bytes_of tf PGSIZE) (ram u) (ram u')) by (intros b Hb; apply Hd; unfold bytes_of, tf_size, PGSIZE in *; lia).
  destruct (tramp_frame _ _ _ _ _ Htf Hd' T) as [T' Hpte]. destruct (root_bounds _ _ _ (tm_pt _ _ _ _ T)) as [Hr1 Hr2].
  assert (Ht : ∀ acc va, 0 ≤ va < MAXVA → translate u' acc va = translate u acc va).
  { intros acc va Hva. rewrite !(translate_pte _ pt); try (apply T || apply T' || lia).
    - rewrite Hpte, Hm, Hm'. unfold permits. by destruct acc.
    - split; [by rewrite Hm|]. split; [done|by split].
    - split; [by rewrite Hm'|]. split; [done|by split]. }
  split; [congruence|done|done|congruence| |].
  - intros acc va pa Hva E. rewrite Ht by done. split; [done|]. apply Hd'. by apply (user_access u s pt tf sz free acc va).
  - intros acc va Hva E. by rewrite Ht.
Qed.
End path.

(** C9: A device interrupt is invisible to the program it interrupts.  When
    an external interrupt arrives while a process runs in user space, uservec
    enters the kernel on the process's kernel stack at usertrap(); usertrap()
    handles the interrupt, whichever device it is from, without a panic and
    decides to return; and userret, executed as usertrap() has left the hart,
    continues the program where it was, in user mode, with every register and
    every byte of memory that it can access as it was, and with the same
    addresses accessible. *)
Theorem interrupt_unnoticed {KI : KernelImage} {Dev : Devices} {KT : KernelText} {HW : Platform}
    disk_intr d pad u k kroot free kfree cause tval :
  user_running u k kroot free kfree → device_cause cause → cons_ok (kcons k) → Forall (fun c => 0 ≤ c < 256) (rx d) → disk_ok disk_intr →
  let tf := p_trapframe (procs k (cur k)) in
  wp (run TRAMPOLINE trampoline uservec) (fun f h1 => f = Left ∧
    pc h1 = ld64 (ram u) (tf + tf_kernel_trap) ∧ gpr h1 Reg.sp = ld64 (ram u) (tf + tf_kernel_sp) ∧
    ∀ pl out, wp (usertrap disk_intr d pad) (fun e t => ∃ root, e = ToUser root ∧
      ∀ h2, mode h2 = Supervisor → ram h2 = mem_of t → hart_of h2 = th t → gpr h2 Reg.zero = 0 → gpr h2 Reg.a0 = root →
        wp (run TRAMPOLINE trampoline userret) (fun f' u' => f' = Left ∧ unnoticed u u') h2)
      (mk_tst (set_kmm (mk_kmem (ram h1) (freelist (kmm k))) k) (hart_of h1) pl out)) (trap_S cause tval u).
Proof.
  intros [Hm [Hr Hpc] Hram P Hs K Hw Hk] Hc Hcons Hrx Hd tf. cbv zeta in P. fold tf in P, K, Hw. set (p := procs k (cur k)) in *.
  destruct (pmem_tramp _ _ _ _ _ P) as (T & Hpte & Htf). rewrite <- Hram in T, Hpte, K.
  set (h := trap_S cause tval u).
  eapply wp_mono; [apply (uservec_spec h (p_pagetable p) kroot free kfree tf); done|]. cbv beta.
  intros f h1 [-> [S1 S2 S3 S4 S5 S6 [S7 S8] S9]]. split; [done|]. split; [exact S6|]. split; [exact S4|]. intros pl out.
  set (t := mk_tst _ _ pl out).
  assert (Hst : Z.testbit (sstatus (th t)) 8 = false).
  { change (Z.testbit (Z.land (csrs h1 Csr.mstatus) SSTATUS_MASK) 8 = false). rewrite S9 by done. rewrite Z.land_spec. apply andb_false_iff. left.
    unfold h, trap_S. cbn [csrs set_mode set_pc set_csr]. rewrite fn_lookup_insert. unfold b_SIE, b_SPIE, b_SPP.
    rewrite !testbit_set_bit by lia. rewrite Hm. done. }
  assert (Hca : device_cause (scause (th t))) by (change (device_cause (csrs h1 Csr.scause)); by rewrite S9).
  assert (Hep : sepc (th t) = pc u) by (change (csrs h1 Csr.sepc = pc u); by rewrite S9).
  eapply wp_mono; [by apply (usertrap_device disk_intr d pad t Hst Hca)|]. cbv beta. change (procs (tk t) (cur (tk t))) with p. fold tf.
  intros e t' (-> & [L1 _ _ L4 L5 _ [L7 _]]). exists (MAKE_SATP (p_pagetable p)). split; [done|].
  intros h2 Hm2 Hr2 Hh2 Hz2 Ha2. change (mem_of t) with (ram h1) in L1. rewrite Hep in L4.
  rewrite <- Hh2 in L4, L5, L7. rewrite <- Hr2 in L1. cbn [hart_of sepc satp sstatus csr_value] in L4, L5, L7.
  change (satp (th t)) with (csrs h1 Csr.satp) in L5. rewrite S7 in L5.
  assert (Hspp : Z.testbit (csrs h2 Csr.mstatus) b_SPP = false) by (rewrite Z.land_spec in L7; change (Z.testbit SSTATUS_MASK 8) with true in L7; by rewrite andb_true_r in L7).
  assert (Hd1 : same_outside (bytes_of tf tf_size) (ram u) (ram h2)).
  { eapply same_outside_trans; [exact S3|]. intros b Hb. apply L1. unfold bytes_of, tf_size in *. lia. }
  assert (Hd2 : same_outside (bytes_of tf PGSIZE) (ram u) (ram h2)) by (intros b Hb; apply Hd1; unfold bytes_of, tf_size, PGSIZE in *; lia).
  destruct (tramp_frame _ _ _ _ _ Htf Hd2 K) as [K2 _]. destruct (tramp_frame _ _ _ _ _ Htf Hd2 T) as [T2 E2].
  eapply wp_mono; [apply (userret_spec h2 (p_pagetable p) kroot free kfree tf); [done|by split|done|by rewrite E2|done|done]|].
  cbv beta. intros f u' [-> [R1 R2 R3 R4 R5 R6 _]]. split; [done|].
  apply (unnoticed_frame u u' (kmm k) (p_pagetable p) tf (p_sz p) free); try done; [by rewrite R2, L4, u64_small| |by rewrite R5].
  intros r. destruct (Reg.reg_eq r Reg.zero) as [->|Hne]; [rewrite R4, Hz2; symmetry; apply Hr|].
  destruct (tf_regs_all r Hne) as [o Hin]. rewrite (R3 r o Hin). rewrite <- (S1 r o Hin : _ = gpr u r).
  apply ldn_ext. intros b Hb. apply L1. pose proof (proj1 (Forall_forall (fun x => 40 ≤ x.2) tf_regs) ltac:(by_dec) _ Hin) as Ho.
  simpl in Ho. unfold bytes_of. lia.
Qed.

(** ** An example: a process that has just been made runs *)

Lemma sample_one_killed : p_killed (procs sample_one 0) = false.
Proof. vm_compute. reflexivity. Qed.
Lemma sample_one_cons : kcons sample_one = mk_cons (fun _ => 0) 0 0 0.
Proof. vm_compute. reflexivity. Qed.

(** The program of process 0; the kernel's table is one that maps the
    trampoline. *)
Lemma sample_running : ∃ u k kroot free, @user_running sample_image u k kroot free free ∧ kcons k = mk_cons (fun _ => 0) 0 0 0.
Proof.
  destruct sample_one_mem as ((free & K) & Hu & Hc & _). pose proof sample_one_killed as Hk. pose proof sample_one_cons as Hn.
  revert K Hu Hc Hk Hn. generalize sample_one. intros k K Hu Hc Hk Hn.
  assert (p_state (procs k 0) ≠ UNUSED) as Hu' by (by rewrite Hu).
  pose proof (proj2 (km_slot _ _ K 0 ltac:(done)) Hu') as P. set (p := procs k 0) in *.
  destruct (pmem_tramp _ _ _ _ _ P) as (_ & _ & Htf). destruct (root_bounds _ _ _ (vs_pt _ _ _ _ (pm_space _ _ _ _ _ P))) as [Hr1 Hr2].
  set (m := st64 (memory (kmm k)) (p_trapframe p) (MAKE_SATP (p_pagetable p))). set (s := set_memory m (kmm k)).
  destruct (kernel_mem_store k free 0 (p_trapframe p) s K ltac:(done)) as [K1 _].
  { split; [done|]. by left. }
  { apply (pm_own _ _ _ _ _ P). }
  { intros b Hb. apply ld8_stn_out. unfold PGSIZE in *. lia. }
  { done. }
  pose proof (proj2 (km_slot _ _ K1 0 ltac:(done)) Hu') as P1. change (procs (set_kmm s k) 0) with p in P1.
  destruct (pmem_tramp _ _ _ _ _ P1) as (T1 & _ & _).
  exists (mk_mach (fun _ => 0) (fun c => if Csr.csr_eq c Csr.satp then MAKE_SATP (p_pagetable p) else 0) User 0 m), (set_kmm s k), (p_pagetable p), free.
  split; [|done]. split; change (cur (set_kmm s k)) with (cur k); rewrite ?Hc; try done.
  cbn [ram]. unfold m. rewrite ld64_st64_eq. apply u64_small. unfold MAKE_SATP, SATP_SV39.
  rewrite Z.shiftl_mul_pow2, Z.shiftr_div_pow2 by lia. rewrite (lor_add 8 _ 60) by zdm. zdm.
Qed.

Lemma interrupt_unnoticed_witness : ∃ u k cause,
  device_cause cause ∧
  wp (@run sample_hw TRAMPOLINE (@trampoline sample_image) uservec) (fun _ h1 => ∀ pl out,
    wp (@usertrap sample_image sample_devices sample_text (ret tt) (mk_devices 10 [97; 13] 0) 0) (fun e _ => ∃ root, e = ToUser root)
      (mk_tst (set_kmm (mk_kmem (ram h1) (freelist (kmm k))) k) (hart_of h1) pl out)) (trap_S cause 0 u).
Proof.
  destruct sample_running as (u & k & kroot & free & R & Hk). exists u, k, 0x8000000000000009. split; [by split|].
  assert (cons_ok (kcons k)) as Hcons.
  { rewrite Hk. split; try done. by apply not_elem_of_nil. }
  assert (Forall (fun c => 0 ≤ c < 256) [97; 13]) as Hrx by (repeat constructor; lia).
  assert (disk_ok (ret tt)) as Hd by (intros k'; apply wp_ret, quiet_refl).
  eapply wp_mono.
  { apply (@interrupt_unnoticed sample_image sample_devices sample_text sample_hw (ret tt) (mk_devices 10 [97; 13] 0) 0 u k kroot free free
      0x8000000000000009 0 R); [by split|exact Hcons|exact Hrx|exact Hd]. }
  cbv beta. intros f h1 (_ & _ & _ & H) pl out. eapply wp_mono; [exact (H pl out)|]. cbv beta. intros e t (root & -> & _). by exists root.
Defined.

